(* ===== verification/_CoqProject ===== *)
-Q . S2P
Prelude.v
GoText.v
Regex.v
RepoName.v
ProjectName.v
SessionOrigin.v
PromptAttach.v
Matcher.v
Digest.v
Render.v
GitHub.v
Access.v
AttachStore.v
Attachment.v
PullRoutes.v
AttachmentLaws.v
PageLaws.v
PullReads.v
BlobStore.v
BlobLaws.v
KeyRotation.v
KeyRotationLaws.v
BlobWitness.v
Governance.v
CollectiveStore.v
Collectives.v
Invitations.v
CollectiveRoutes.v
LedgerLaws.v
CollectiveLaws.v
ShareLaws.v
ShareOutcome.v
MemberLaws.v
InvitationLaws.v
InvitationLimits.v
PublishStore.v
Publish.v
PublishBodies.v
GenerationLaws.v
PublishLaws.v
PublishRuns.v
PublishAudience.v
PublishOutcomes.v
PublishWitness.v
Hmac.v
Links.v
LinksLaws.v
Threads.v
Mail.v
MailLaws.v
MailWitness.v
Dispatcher.v
DispatcherLaws.v
Webhook.v
WebhookLaws.v
WebhookWitness.v
Tokens.v
AccountStore.v
Accounts.v
AccountHandles.v
AccountLaws.v
AccountCodes.v
AccountOrgs.v
AccountWitness.v
IntegrityStore.v
Integrity.v
ScryVersions.v
IntegrityLedger.v
IntegrityLaws.v
IntegrityWitness.v
CliContract.v
CliPullStore.v
CliPull.v
CliPullLaws.v
CliPullAgreement.v
CliPullAnswers.v
CliGate.v
CliWithheld.v
CliPullWitness.v
