(* ===== verification/Prelude.v ===== *)
(** * Village backend: a verification development

    Village stores AI coding transcripts, encrypted, shares them with collectives,
    and attaches them to pull requests: it matches an author's transcripts to the
    commits of a pull request, digests their prompts, and posts a comment and a
    check run for everyone to read. This library models those parts of the Go
    backend ([src/backend/internal]) and the SQL statements behind them. The reader
    needs the repository beside it; every definition keeps the source's name where
    it can.

    ** The files, and the code each one models

    - [Prelude] (this file): the two effect types every component uses. A Go
      [(T, error)] is a [result]. Code with a database or a network is a
      computation of the state and error monad [M W E], and the lemmas and
      tactics that take a run of it apart are here, with the shared lemmas on
      lists, stable sorting and options.
    - [GoText]: what the packages use of Go's [strings], [unicode], [utf8] and
      [strconv]. The part of the [unicode] tables above ASCII is the class
      [UnicodeTables]. [Regex]: the regular expressions of [regexp], with a
      matcher by derivatives proved to decide the language.
    - [RepoName] ([reponame/reponame.go]), [ProjectName]
      ([projectname/projectname.go]), [SessionOrigin]
      ([sessionorigin/origin.go]): three pure rules, each a whole package.
    - [PromptAttach] ([promptattach/state.go], [transition.go]): the closed
      state menu, the transition table, and [Transition], the compare-and-set
      that moves a stored row, written against the interface [Querier] as in Go.
      [QuerierLaws] is what the two statements behind the interface promise; a
      table with concurrent writers is an instance of both.
    - [Matcher] ([matcher/matcher.go], [actor.go]): the repository gate, the
      anchoring of recorded commits, the order of the accepted transcripts, the
      command parser and the authorization policy.
    - [Digest] ([digest/digest.go], [restrict.go]): [Build] and [Restrict].
      [Render] ([digest/render.go]): the digest as Markdown in three tiers
      within a byte budget.
    - [GitHub] ([github/*.go]): tokens and their cache, the authenticated
      request, the paginated commit walk, comments, check runs, permissions. The
      transport is the class [HttpWorld]; what JSON, URL parsing and the signer
      answer is the class [Wire].
    - [Access] ([handler/repository_access_cache.go],
      [repository_access_limiter.go], [pull_request_details.go]): what one server
      process remembers, as values: GitHub's refusals, how often a viewer may ask
      (in Go's float64, the binary64 of [SpecFloat]), and pull request titles with
      the reads in flight.
    - [AttachStore] ([database/queries/*.sql]): the tables the lifecycle uses,
      every SQL statement over them, and the world of a run. The class [Env]
      says what other writers do before each statement, which statements fail,
      what GitHub answers, what the clock reads and what other requests do to the
      process's memory, each a function of the log of what happened so far; so a
      theorem for every [Env] is a theorem for every interleaving with other
      writers and every failure.
    - [Attachment] ([handler/attachment_lifecycle.go], [attachment_actions.go],
      [attachment_effects.go], [attachment_artifacts.go], [attachment_lock.go]):
      the lifecycle itself, call for call, on top of all of the above. The class
      [Deps] holds
      what the handler reads of modules outside the repository (decoding of a
      stored transcript, the contract's own validation, the JSON form of a
      digest).
    - [PullRoutes] ([handler/pull_requests.go], [attachment_wire.go],
      [pull_request_repository_access.go], [public_owner.go], and the read policy
      of [transcripts.go]): who may open a transcript, how a person is shown, the
      page and its response body, the confirm and detach routes. Its [Operation]
      lists every way into the lifecycle: the command in a comment, the opened
      and pushed pull request, the published transcript, the moved audience and
      the routes; [perform] runs one.
    - [AttachmentLaws]: the theorems about [Attachment] and [perform].
      [PageLaws]: the theorems about the page.
    - [PullReads] ([handler/pull_request_reads.go]): which pull requests a list
      row, a collective or a person's own totals show, with the candidate
      statements, and their theorems.
    - [BlobStore] ([storage/contracts.go], [encrypted.go], [s3.go],
      [config/transcript_keyring.go]): how a transcript body is kept at rest: a
      fresh data key seals it, the key ring wraps the data key, the sealed bytes
      go to object storage and the row keeps the descriptor. AES-GCM and SHA3 are
      the class [Crypto] with its laws, key custody the class [KeyCustodian] with
      the promises [CustodianLaws] that the key ring discharges, and the bucket,
      with everyone else who writes there, the class [BlobEnv]. [BlobLaws] has the
      theorems, against the interfaces.
    - [KeyRotation] ([backfill/rewrap.go], [content_hash.go]): the jobs that
      rewrap data keys and install content identities, with their statements;
      [MaintEnv] is what other writers and the database do. [KeyRotationLaws] has
      the theorems, [BlobWitness] both files' theorems at concrete inputs, under
      a symbolic cipher.
    - [CollectiveStore] ([database/sqlc/shares.sql.go], [groups.sql.go],
      [invitations.sql.go], [daily_quotas.sql.go] and the statements of others
      they run beside; [migrations/036_transcript_share_attempts.up.sql]): the
      tables of collectives, members and invitations, and the ledger of share
      attempts with the trigger that derives the current shares from it. The
      class [Env] says which statement fails; a commit, and a statement that is a
      transaction of its own, may have been carried out though it failed.
    - [Governance] ([handler/metadata_patch.go]): the owner's patch of a
      transcript's metadata, and the visibility a republish takes away and gives
      back, against the interface [GovernanceRows], which the stores of the
      collectives and of publishing both supply.
    - [Collectives] ([handler/groups.go], [group_shares.go],
      [shares_attempts.go], [collective_authority.go],
      [org_membership.go], [tx.go] and the share routes of [transcripts.go]):
      transactions, and every route that changes a collective, its members or
      what is shared with it. [Invitations] ([invitations.go],
      [daily_quota.go]): inviting, answering, and the daily limits.
    - [CollectiveRoutes]: these routes as one type of requests, what a person is
      answered, and the small program logic their theorems share: what only
      reads, keeps an invariant, learns a fact or fails with a refusal.
      [LedgerLaws]: the share machine as a step relation, and the ledger.
      [CollectiveLaws], [ShareLaws], [ShareOutcome], [MemberLaws],
      [InvitationLaws], [InvitationLimits]: the theorems.
    - [PublishStore] ([database/sqlc/transcripts.sql.go],
      [transcripts_pull.sql.go], [publish_evidence.sql.go],
      [transcript_associations.sql.go], [transcript_commits.sql.go],
      [integrity.sql.go]; [handler/tx.go]): the rows of transcripts with the
      columns that name their objects and what hangs on them, the statements that
      publishing runs, and transactions whose commit may be confirmed, rolled
      back or never answered. It keeps every state of tables and bucket that
      anyone could have seen; its class [Env] says what others do in between.
    - [Publish] ([handler/transcripts.go], [transcript_persistence.go],
      [transcript_read.go], [lifecycle_decisions.go], [associations.go]): the
      locked section of a publish and what follows it, the rewrite of an old
      generation, the read with its one retry, deletion, and the cleanup of
      objects each leads to. The class [Schema] is what it asks of the contract.
      [PublishBodies]: what the body of each transaction does to the tables.
    - [GenerationLaws]: the rely [considerate] on other writers, and what each
      operation of the encrypted store keeps under it. [PublishLaws],
      [PublishRuns]: generations through whole requests; [PublishAudience]: the
      visibility through a republish; [PublishOutcomes]: deletion, integrity
      flags, associations; [PublishWitness]: these theorems at concrete runs.
    - [Hmac]: SHA-256, HMAC and the URL form of base64, of Go's library. [Links]
      ([email/links.go], [email.go], [auth/apikey.go]): unsubscribe links, the
      configuration of email, API keys; [LinksLaws] their theorems.
    - [Threads]: handlers as programs over atomic operations, any number of them
      interleaved, with the proof rules for them: rely and guarantee, an
      invariant of each operation, and credits.
    - [Mail] ([handler/notification_email.go], [mail.go], [daily_quota.go], the
      settings routes of [pull_requests.go] and their statements): notification
      addresses and the notices of invitations, as such programs. [MailLaws] the
      theorems, [MailWitness] a day of mail they are applied at.
    - [Dispatcher] ([github/webhook_payload.go], [webhook.go],
      [handler/github_dispatcher.go]): what GitHub sends of an event, and which
      operation of [Attachment] it becomes; [DispatcherLaws] on whose warrant.
      [Webhook] ([handler/github_webhook.go], the signature of
      [github/webhook.go] and the ledger's statements): the receiver, as programs
      of [Threads] over a handling point of any kind. [WebhookLaws] has the
      theorems, [WebhookWitness] runs both together.
    - [Tokens] ([auth/jwt.go], [install_state.go]): what a signed token is made of
      and taken for. [AccountStore] ([database/sqlc/users.sql.go],
      [apikeys.sql.go], [cli_sessions.sql.go], [user_orgs.sql.go]): the tables of
      accounts, keys, command-line sign-ins and organizations with their
      statements, and a record of what providers answered. [Accounts]
      ([handler/auth.go], [auth_providers.go], [auth_middleware.go]): handles,
      sign-in through every provider, the command line, keys and the organization
      snapshot, as programs of [Threads] that carry their request.
      [AccountHandles], [AccountLaws], [AccountCodes], [AccountOrgs] have the
      theorems, [AccountWitness] one person's sign-ins they are applied at.
    - [IntegrityStore] ([database/sqlc/integrity.sql.go], the lineage of
      [publish_evidence.sql.go]; the versions of [handler/integrity.go]): the
      ledger of check attempts, the answers, and what a pass looks at.
      [Integrity] ([handler/integrity_worker.go], [integrity_state.go],
      [scry/client.go]): the client of the check service and one pass of the
      background check, as programs of [Threads], for any number of servers.
      [IntegrityLedger], [IntegrityLaws], [ScryVersions] have the theorems,
      [IntegrityWitness] two passes they are applied at.
    - [CliContract] ([handler/pull_contract.go]): which envelope a pull is answered
      in. [CliPullStore] ([database/sqlc/transcripts_pull.sql.go],
      [shares_pull.sql.go] and the reads of [shares], [groups], [users] and
      [annotations_push] the routes run): the tables a pull reads, at the moments
      it reads them. [CliPull] ([handler/pull.go], [pull_skip_gate.go],
      [pull_publish_metadata.go], the read of [transcript_read.go], and how
      [public_owner.go] shows a person and trims a content): the six routes of the
      command line, as programs of [Threads]. [CliPullLaws] (the content and
      refusals), [CliPullAgreement] (the listing and the check), [CliPullAnswers]
      (whom an answer names), [CliGate] (skip gate and publish metadata) and
      [CliWithheld] (trimmed contents) have the theorems, [CliPullWitness] a server
      they are applied at.

    ** How the parts interact

    A webhook or route enters [Attachment]. It reads rows through [AttachStore],
    the pull request and its commits through [GitHub], asks [Matcher.Match]
    which transcripts belong, [Digest.Build] what their prompts are and
    [Render.Render] what to post; it binds the accepted transcripts, posts
    through [GitHub], records what it posted, and moves the row with
    [PromptAttach.Transition]. Each of these is a [Querier] or [HttpWorld]
    client, and [AttachStore] supplies the instances over one world, so the
    order of effects in a run is the order of the world's log.

    The collectives run over a store of their own: the pull request page and the
    lifecycle only read memberships and shares ([AttachStore]), and the handlers
    of collectives refresh checks after their transaction, which is left out.

    ** What the theorems show

    - Lifecycle. An attach posts the digest of its own match before it moves the
      row, and moves it only when all of it succeeded; a failed post leaves no
      binding; a stored attachment changes its state along an edge of the table or
      not at all; nothing ever changes who may read a transcript; an action without
      consent ends in a preview; a command acts only when GitHub, asked about that
      pull request, reported the sender to be the author; an idle refresh does
      nothing; the routes turn away everyone but the author; the posted rows list
      exactly the public transcripts, and the recorded digest names only live ones.
      These quantify over every [Env]. They rest on the relations of
      [AttachmentLaws]: what a run may append to the log ([emits], [reach]), what
      each event of the log does to the tables ([effect]), and the tables through
      a run, among other writers ([did], [among_others]).
    - The page. A served title, start, prompt or commit is of a transcript this
      viewer may open on their own; a person is named only as a profile the
      viewer may see; a page is served of the attachment the asked pull request
      has, and where its link says private only to its author, a member of the
      collective, or a reader GitHub itself admitted during the request, since
      only refusals are remembered (supposed of what other requests leave in
      memory, and shown of this one). A list counts exactly the distinct readable
      pull requests. One read of GitHub per pull request is in flight at a time;
      the limiter's two questions agree. Other writers may change any table during a
      request: what is said of the tables is said of moments of it ([during]).
    - State machine. [Transition] refines a move of one row along the closed
      table over any [QuerierLaws]; a failed one wrote nothing; the SQL instance
      discharges the laws; reachability in the table.
    - Matching. Only gated and anchored transcripts are accepted, candidates are
      partitioned, an incomplete commit list is never taken for absence, all
      outcomes of resolving a commit, the complete policy table.
    - Digest. A built digest is consistent and complete for the evidence, its
      coverage is within the pull request; a restricted one shows exactly the
      kept items and is noninterfering in the rest.
    - Rendering. The byte budget, the escaping read back as the same text, and
      the independence of the posted bytes from anything unlisted.
    - GitHub. The token cache, the completeness answer of the commit walk, and
      the validity of the check run posted.
    - Storage. What was written reads back; what is read is what was sealed for
      this transcript in this role; a descriptor opens nothing for another
      transcript; a failed write leaves nothing, or names what it left. Rewrapping
      changes no read whoever else writes, always ends, accounts for every row,
      and enough undisturbed runs retire the old keys, where the custodian can
      rewrap them.
    - Sharing. The handlers and their SQL refine the share machine: a transcript's
      share in a collective moves only by who may move it, by the request that asks
      for it and as the collective takes submissions; the table of current shares
      cannot drift from the ledger, and a decided event never changes. A share
      answered with success reached every collective named, a withdrawal left
      nothing open, an error changed nothing, but for a commit whose answer was
      lost and for the founding of a collective, which is two transactions. A transcript's visibility moves only at its owner's request
      and never to public. One theorem shows a defect: a member whose accepted
      submission ended can no longer leave with the rest withdrawn.
    - Publication. Whatever a server is asked, wherever it stops and whatever
      fails, every body and metadata object a row names is in the bucket, at every
      moment, as long as other writers keep to the same rules ([considerate]); what
      a publish answered is stored and opens to the bytes of the request. A
      republish shows nobody more than before and gives the audience back, or says
      that it could not. A deletion takes the stored row out in one transaction,
      with it every mention in a digest, writes an integrity flag down, which the
      next copy inherits, and then removes the objects the row named. Associations are
      bound as asked and never rebound. One example shows a defect: a republish
      that races a rewrite leaves the rewrite's objects in the bucket unnamed.
    - Members and invitations. A membership appears only by the person's own
      request; the creator stays owner until the collective is to be dissolved. Inviting tells an owner nothing of who
      holds a handle, a decline stays private, and the limits on open invitations
      and on the invitations a person makes a day hold through any sequence of
      requests.
    - Webhooks. What is dispatched is what a signed request brought, nothing is
      acknowledged that was not handled, and a handled delivery is not begun again.
      An event changes at most the attachment of the pull request it names, and
      more of it than who asked only on the warrant of the pull request's author,
      of an attachment that stands, or of a choice the author made beforehand.
    - Mail. An invitation goes only to an address whose owner sent back the code
      drawn for it, and nobody gets more than three for each day, for any
      interleaving of requests that stop anywhere. An unsubscribe token works for
      an account exactly when it was signed for it and has not expired.
    - Accounts. Whoever is signed in is whom the provider named for the code that
      was brought, and the session token is signed for their account; a command line's code buys one key, for the person it was given
      for; handles stay apart, unreserved and within their rule; an account's
      organizations are those of its newest complete snapshot. All of these hold
      for any interleaving of all routes, with statements that fail before or after
      they took effect. One theorem shows a defect: the state of an install
      handshake is taken for a session.
    - The background check. What is sent to the check service was made of the
      content it was claimed for, of a transcript others could read; one content
      gets at most six counted answers under one version, and is done only with a
      kept answer to it; the first answer stays; versions compare as numbers.
      These hold for passes of any number of servers side by side, with whatever
      else happens to transcripts, and statements that fail either way.
    - Pulls. A content goes to its owner or a member of a collective with an
      approved share, as stored and under its hash, or trimmed of all that names a
      repository when its owner may not be shown; to others a transcript looks like
      none at all. The listings' SQL and the check of one transcript agree. Nobody
      is named, by owner, author, project or file, whose profile the asking person
      may not see; the skip gate is exact. All of this at moments of the request,
      whatever changes between any two of its statements.
    - The pure rules: precedence of names, menus and their parsers, classifiers.

    ** Bounds and recursion

    The commit walk is bounded as the code bounds it, by five pages; [matches]
    needs no fuel (derivatives along the text); the batch loop of [Rewrap] has its
    limit as fuel, which is enough ([rewrap_ends_and_accounts]); the rounds of a
    check pass have its budget ([pass_ends_within_budget]); every other loop is
    structural in the list it ranges over. No definition runs out of fuel. Database
    identifiers and GitHub numbers are [Z]; where the code narrows to 32 bits
    ([wrap32]) the model narrows. Instants are nanoseconds since Go's zero time.
    Where Go ranges over a map in an order of its own, the order is an argument.

    ** What is not modelled

    Cancellation of contexts and timeouts (a cancelled call is a failing one; a
    caller that stops waiting for a title is told none); logging; the collation
    of text in ORDER BY (bytes here); the byte layout of JSON; panics. The mutex of
    [attachment_lock.go] is modelled by the advisory lock's statement: other
    writers may act between any two statements of the lifecycle. The transactions
    of the collectives run alone: their locks are what makes that so, and it is
    their locks that are not modelled. A failed statement does not poison the
    transaction it is part of (PostgreSQL would refuse the next ones, which [Env]
    may do as well). The triggers that guard the ledger and the current shares
    against other statements than these ([guard_share_attempt_immutable],
    [guard_transcript_shares_writer]) are left out: what they refuse none of these
    statements does. In the store of the lifecycle a statement that fails never
    took effect, and the positions of bindings are not narrowed to 32 bits. The
    texts of responses, and the people and counts shown in
    them, are left out there.

    Publishing starts where its request is decoded and validated; the columns it
    maps a request to, apart from those that name objects and audience, are one
    field. Its transactions run alone, and the locks that serialize publishes of
    one session are one step that succeeds or fails; [PublishAudience] takes from
    them that nobody else moves the transcript meanwhile. The triggers on
    transcripts (the audit of governance and the writer marker, which every
    transaction here sets) are left out.

    The rest of the backend is not modelled yet: the secret scanner, the decoding
    of a publish, the listings of collectives and transcripts,
    linked repositories, the texts of emails, and the title and origin
    backfills. Of accounts, signing and parsing of tokens, JSON, URLs and the
    providers are parameters; cookies, pages and the listings of keys and
    organizations are left out, and the update of a key's last use runs as a
    request of its own, at any later time or never. Of the background check the
    timer, its pacing and its shutdown are left out; how a content is read and
    migrated and a request is built and read by the service are parameters. Of
    pulls, the schema module, the migrator and [encoding/json] are parameters, and
    the raw content route of the web is left out. *)
From stdpp Require Export base list strings gmap sorting pretty.
From Stdlib Require Export Ascii String ZArith Lia.
From stdpp Require Export list.
Export List.ListNotations.
Open Scope list_scope.

(** ** Fallible code

    A Go function that returns [(T, error)] is a [result]: the error side
    carries the kind of failure (the sentinel or the call that failed), the
    success side the value. *)
Inductive result (E A : Type) : Type :=
| Ok (a : A)
| Err (e : E).
Arguments Ok {E A} a.
Arguments Err {E A} e.

Definition is_some_b {A} (o : option A) : bool :=
  match o with Some _ => true | None => false end.

Definition is_ok {E A} (r : result E A) : bool :=
  match r with Ok _ => true | Err _ => false end.

#[export] Instance result_ret {E} : MRet (result E) := fun _ a => Ok a.
#[export] Instance result_bind {E} : MBind (result E) := fun _ _ f r =>
  match r with Ok a => f a | Err e => Err e end.

Lemma result_bind_ok {E A B} (r : result E A) (f : A -> result E B) b :
  r ≫= f = Ok b <-> exists a, r = Ok a /\ f a = Ok b.
Proof.
  destruct r as [a|e]; unfold mbind; simpl; split; [eauto|by intros (?&[= ->]&?)|done|].
  by intros (?&?&?).
Qed.

Lemma result_bind_err {E A B} (r : result E A) (f : A -> result E B) e :
  r ≫= f = Err e <-> r = Err e \/ exists a, r = Ok a /\ f a = Err e.
Proof.
  destruct r as [a|e']; unfold mbind; simpl.
  - split; [eauto|by intros [?|(?&[= ->]&?)]].
  - split; [intros [= ->]; by left|by intros [[= ->]|(?&?&?)]].
Qed.

(** ** Stateful code

    A Go method that talks to the database or to GitHub is a computation over
    an explicit world, which it hands back whatever its outcome: what was
    written before a failure stays written. *)
Definition M (W E A : Type) : Type := W -> result E A * W.

#[export] Instance M_ret {W E} : MRet (M W E) := fun _ a w => (Ok a, w).
#[export] Instance M_bind {W E} : MBind (M W E) := fun _ _ f m w =>
  match m w with
  | (Ok a, w') => f a w'
  | (Err e, w') => (Err e, w')
  end.

Definition throw {W E A} (e : E) : M W E A := fun w => (Err e, w).
(** a pure fallible computation *)
Definition lift {W E A} (r : result E A) : M W E A := fun w => (r, w).
(** run [m] and hand its outcome over as a value: [if err := m; err != nil] *)
Definition attempt {W E F A} (m : M W E A) : M W F (result E A) := fun w =>
  let '(r, w') := m w in (Ok r, w').

Lemma M_bind_unfold {W E A B} (m : M W E A) (f : A -> M W E B) w :
  (m ≫= f) w = match m w with (Ok a, w') => f a w' | (Err e, w') => (Err e, w') end.
Proof. done. Qed.

Lemma bind_ok_inv {W E A B} (m : M W E A) (f : A -> M W E B) w b w' :
  (m ≫= f) w = (Ok b, w') -> exists a w1, m w = (Ok a, w1) /\ f a w1 = (Ok b, w').
Proof.
  rewrite M_bind_unfold. destruct (m w) as [[a|] w1] eqn:Hm; [|done]. by exists a, w1.
Qed.

Lemma attempt_inv {W E F A} (m : M W E A) w r w' :
  (attempt m : M W F (result E A)) w = (Ok r, w') -> m w = (r, w').
Proof. unfold attempt. destruct (m w). by intros [= -> ->]. Qed.

Lemma attempt_run {W E F A} (m : M W E A) w r w' :
  m w = (r, w') -> (attempt m : M W F (result E A)) w = (Ok r, w').
Proof. unfold attempt. by intros ->. Qed.

(** [m] establishes [Q] of its outcome and final world from any world in [P]. *)
Definition triple {W E A} (P : W -> Prop) (m : M W E A) (Q : result E A -> W -> Prop) : Prop :=
  forall w, P w -> Q (m w).1 (m w).2.

(** [m] keeps the invariant, whatever its outcome. *)
Definition keeps {W E A} (I : W -> Prop) (m : M W E A) : Prop := triple I m (fun _ => I).

Section keeps.
Context {W E : Type} (I : W -> Prop).

Lemma keeps_ret {A} (a : A) : keeps I (mret a : M W E A).
Proof. by intros w ?. Qed.

Lemma keeps_throw {A} (e : E) : keeps I (throw e : M W E A).
Proof. by intros w ?. Qed.

Lemma keeps_lift {A} (r : result E A) : keeps I (lift r : M W E A).
Proof. by intros w ?. Qed.

Lemma keeps_bind {A B} (m : M W E A) (f : A -> M W E B) :
  keeps I m -> (forall a, keeps I (f a)) -> keeps I (m ≫= f).
Proof.
  intros Hm Hf w Hw. unfold keeps, triple in *. specialize (Hm w Hw).
  rewrite M_bind_unfold. destruct (m w) as [[a|e] w']; simpl in *; [by apply Hf|done].
Qed.

Lemma keeps_attempt {F A} (m : M W E A) : keeps I m -> keeps I (attempt m : M W F (result E A)).
Proof.
  intros Hm w Hw. specialize (Hm w Hw). unfold attempt. by destruct (m w).
Qed.

Lemma keeps_run {A} (m : M W E A) w r w' : keeps I m -> I w -> m w = (r, w') -> I w'.
Proof. intros Hm Hw Hr. specialize (Hm w Hw). by rewrite Hr in Hm. Qed.

Lemma triple_bind {A B} P (Q : A -> W -> Prop) (R : result E B -> W -> Prop)
    (m : M W E A) (f : A -> M W E B) :
  triple P m (fun r w => match r with Ok a => Q a w | Err e => R (Err e) w end) ->
  (forall a, triple (Q a) (f a) R) ->
  triple P (m ≫= f) R.
Proof.
  intros Hm Hf w Hw. specialize (Hm w Hw). rewrite M_bind_unfold.
  destruct (m w) as [[a|e] w']; simpl in *; [by apply Hf|done].
Qed.

Lemma triple_weaken {A} (P P' : W -> Prop) (Q Q' : result E A -> W -> Prop) (m : M W E A) :
  (forall w, P' w -> P w) -> (forall r w, Q r w -> Q' r w) -> triple P m Q -> triple P' m Q'.
Proof. intros HP HQ Hm w Hw. by apply HQ, Hm, HP. Qed.
End keeps.

Create HintDb keeps.
#[export] Hint Resolve keeps_ret keeps_throw keeps_lift keeps_bind keeps_attempt : keeps.

(** ** Tactics *)

(** Split every boolean connective in the hypotheses into its parts. *)
Ltac bool_hyps :=
  repeat match goal with
  | H : andb _ _ = true |- _ => apply andb_true_iff in H; destruct H
  | H : orb _ _ = false |- _ => apply orb_false_iff in H; destruct H
  | H : negb _ = true |- _ => apply negb_true_iff in H
  | H : negb _ = false |- _ => apply negb_false_iff in H
  | H : bool_decide _ = true |- _ => apply bool_decide_eq_true_1 in H
  | H : bool_decide _ = false |- _ => apply bool_decide_eq_false_1 in H
  | H : Z.ltb _ _ = true |- _ => apply Z.ltb_lt in H
  | H : Z.ltb _ _ = false |- _ => apply Z.ltb_ge in H
  | H : Z.leb _ _ = true |- _ => apply Z.leb_le in H
  | H : Z.leb _ _ = false |- _ => apply Z.leb_gt in H
  | H : Z.eqb _ _ = true |- _ => apply Z.eqb_eq in H
  | H : Z.eqb _ _ = false |- _ => apply Z.eqb_neq in H
  end.

(** Case on every match and if whose scrutinee is in the goal, and simplify. *)
Ltac crush_matches :=
  repeat (case_match; simplify_eq/=; try done).

(** Evaluate a closed boolean or decision goal. *)
Ltac by_compute := vm_compute; first [reflexivity | discriminate | congruence].

(** ** Stable sorting: [sort.SliceStable]

    Insertion from the right puts an element in front of the later elements it
    is not greater than, so elements that tie keep their order. For a strict
    weak order this is the result of every stable sort, and of every sort at
    all when no two elements tie. *)
Class StrictWeak {A} (less : A -> A -> bool) : Prop := {
  less_asym : forall x y, less x y = true -> less y x = false;
  less_neg_trans : forall x y z, less x z = true -> less x y = true \/ less y z = true
}.

#[export] Instance strict_weak_key {A} (key : A -> Z) :
  StrictWeak (fun a b => Z.ltb (key a) (key b)).
Proof.
  split; intros *; rewrite ?Z.ltb_lt, ?Z.ltb_ge; lia.
Qed.

Section stable_sort.
Context {A : Type} (less : A -> A -> bool).

Fixpoint insert_stable (x : A) (l : list A) : list A :=
  match l with
  | [] => [x]
  | y :: l' => if less y x then y :: insert_stable x l' else x :: y :: l'
  end.

Definition sort_stable (l : list A) : list A := foldr insert_stable [] l.

Lemma insert_stable_perm x l : insert_stable x l ≡ₚ x :: l.
Proof.
  induction l as [|y l IH]; simpl; [done|].
  destruct (less y x); [|done]. rewrite IH. apply Permutation_swap.
Qed.

Lemma sort_stable_perm l : sort_stable l ≡ₚ l.
Proof.
  induction l as [|x l IH]; simpl; [done|].
  by rewrite insert_stable_perm, IH.
Qed.

Lemma sort_stable_length l : length (sort_stable l) = length l.
Proof. by rewrite sort_stable_perm. Qed.

Lemma elem_of_sort_stable x l : x ∈ sort_stable l <-> x ∈ l.
Proof. by rewrite sort_stable_perm. Qed.

(** [not_after a b]: [b] does not belong strictly before [a]. *)
Definition not_after (a b : A) : Prop := less b a = false.

Lemma sort_stable_nodup l : NoDup l -> NoDup (sort_stable l).
Proof. by rewrite sort_stable_perm. Qed.

Lemma insert_stable_filter (P : A -> bool) x l :
  (forall a b, P a = true -> P b = true -> less a b = false) ->
  List.filter P (insert_stable x l) = List.filter P (x :: l).
Proof.
  intros HP. induction l as [|y l IH]; simpl; [done|].
  destruct (less y x) eqn:Hless; [|done].
  simpl. rewrite IH. simpl.
  destruct (P x) eqn:Px, (P y) eqn:Py; try done.
  by rewrite (HP y x) in Hless.
Qed.

(** Stability: any class of mutually tied elements keeps its order. *)
Lemma sort_stable_filter (P : A -> bool) l :
  (forall a b, P a = true -> P b = true -> less a b = false) ->
  List.filter P (sort_stable l) = List.filter P l.
Proof.
  intros HP. induction l as [|x l IH]; simpl; [done|].
  rewrite insert_stable_filter by done. simpl. by rewrite IH.
Qed.

Context `{!StrictWeak less}.

Lemma not_after_trans a b c : not_after a b -> not_after b c -> not_after a c.
Proof.
  unfold not_after. intros Hab Hbc. destruct (less c a) eqn:Hca; [|done].
  destruct (less_neg_trans c b a Hca); congruence.
Qed.

Lemma insert_stable_sorted x l :
  StronglySorted not_after l -> StronglySorted not_after (insert_stable x l).
Proof.
  induction 1 as [|y l Hs IH Hy]; simpl; [by repeat constructor|].
  destruct (less y x) eqn:Hless.
  - constructor; [done|]. rewrite insert_stable_perm. constructor; [|done].
    by apply less_asym.
  - constructor; [by constructor|]. constructor; [done|].
    eapply Forall_impl; [exact Hy|]. intros z. by apply not_after_trans.
Qed.

Lemma sort_stable_sorted l : StronglySorted not_after (sort_stable l).
Proof.
  induction l as [|x l IH]; simpl; [constructor|]. by apply insert_stable_sorted.
Qed.

Lemma sort_stable_fixed l : StronglySorted not_after l -> sort_stable l = l.
Proof.
  induction 1 as [|x l Hs IH Hx]; simpl; [done|]. rewrite IH.
  destruct Hx as [|y l Hy ?]; simpl; [done|]. unfold not_after in Hy. by rewrite Hy.
Qed.

Lemma sort_stable_idemp l : sort_stable (sort_stable l) = sort_stable l.
Proof. apply sort_stable_fixed, sort_stable_sorted. Qed.

(** When no two distinct elements tie, the order a map or a table handed the
    elements over in does not matter. *)
Lemma sort_stable_canonical l k :
  l ≡ₚ k ->
  (forall a b, a ∈ l -> b ∈ l -> less a b = false -> less b a = false -> a = b) ->
  sort_stable l = sort_stable k.
Proof.
  intros Hperm Htie.
  assert (H : forall a b, a ∈ sort_stable l -> b ∈ sort_stable l ->
    not_after a b -> not_after b a -> a = b).
  { intros a b. rewrite !elem_of_sort_stable. unfold not_after. auto. }
  assert (Hp : sort_stable l ≡ₚ sort_stable k).
  { by rewrite !sort_stable_perm. }
  revert H Hp. generalize (sort_stable_sorted l) (sort_stable_sorted k).
  generalize (sort_stable l) (sort_stable k). clear -A.
  intros s. induction s as [|x s IH]; intros t Hs Ht Htie Hp.
  { apply Permutation_nil_l in Hp. by subst. }
  destruct t as [|y t]; [by apply Permutation_nil_r in Hp|].
  inversion Hs as [|?? Hs' Hx]; subst. inversion Ht as [|?? Ht' Hy]; subst.
  assert (x = y) as ->.
  { assert (Hxin : x ∈ y :: t) by by (rewrite <- Hp; set_solver).
    assert (Hyin : y ∈ x :: s) by by (rewrite Hp; set_solver).
    apply elem_of_cons in Hxin as [?|Hxin']; [done|].
    apply elem_of_cons in Hyin as [?|Hyin']; [done|].
    rewrite Forall_forall in Hx, Hy.
    apply Htie; [set_solver..|by apply Hx|by apply Hy]. }
  f_equal. apply IH; [done..| |by apply Permutation_cons_inv in Hp].
  intros a b ??. apply Htie; set_solver.
Qed.
End stable_sort.

Lemma strongly_sorted_weaken {A} (R S : A -> A -> Prop) l :
  (forall a b, R a b -> S a b) -> StronglySorted R l -> StronglySorted S l.
Proof.
  intros HRS. induction 1; constructor; [done|]. eapply Forall_impl; eauto.
Qed.

(** Filtering commutes with stable sorting. *)
Lemma insert_stable_front {A} (less : A -> A -> bool) x l :
  Forall (fun z => less z x = false) l -> insert_stable less x l = x :: l.
Proof. destruct 1 as [|z l Hz _]; simpl; [done|]. by rewrite Hz. Qed.

Lemma sorted_not_less {A} (less : A -> A -> bool) `{!StrictWeak less} x y l :
  less y x = false -> StronglySorted (not_after less) (y :: l) ->
  Forall (fun z => less z x = false) (y :: l).
Proof.
  intros Hyx Hs. inversion Hs as [|?? _ Hy]; subst. constructor; [done|].
  eapply Forall_impl; [exact Hy|]. unfold not_after. intros z Hz.
  destruct (less z x) eqn:Hzx; [|done]. destruct (less_neg_trans z y x Hzx); congruence.
Qed.

Lemma list_filter_Forall {A} (f : A -> bool) (Q : A -> Prop) l :
  Forall Q l -> Forall Q (List.filter f l).
Proof. induction 1; simpl; [done|]. case_match; [by constructor|done]. Qed.

Lemma insert_stable_filter_in {A} (less : A -> A -> bool) `{!StrictWeak less} (P : A -> bool) x l :
  P x = true -> StronglySorted (not_after less) l ->
  List.filter P (insert_stable less x l) = insert_stable less x (List.filter P l).
Proof.
  intros Px. induction 1 as [|y l Hs IH Hy]; [simpl; by rewrite Px|].
  destruct (less y x) eqn:Hyx.
  - simpl. rewrite Hyx. simpl. destruct (P y); simpl; [|done]. by rewrite Hyx, IH.
  - assert (Hall : Forall (fun z => less z x = false) (y :: l)).
    { apply (sorted_not_less _ _ _ _ Hyx); by constructor. }
    rewrite (insert_stable_front less x (y :: l)) by done.
    rewrite (insert_stable_front less x (List.filter P (y :: l))) by (apply (list_filter_Forall P _ (y :: l)), Hall).
    cbn [List.filter]. by rewrite Px.
Qed.

Lemma insert_stable_filter_out {A} (less : A -> A -> bool) (P : A -> bool) x l :
  P x = false -> List.filter P (insert_stable less x l) = List.filter P l.
Proof.
  intros Px. induction l as [|y l IH]; simpl; [by rewrite Px|].
  destruct (less y x); simpl; [by rewrite IH|by rewrite Px].
Qed.

Lemma filter_sort_stable {A} (less : A -> A -> bool) `{!StrictWeak less} (P : A -> bool) l :
  List.filter P (sort_stable less l) = sort_stable less (List.filter P l).
Proof.
  induction l as [|x l IH]; simpl; [done|].
  destruct (P x) eqn:Px; simpl; rewrite <- IH.
  - apply insert_stable_filter_in; [done..|]. apply sort_stable_sorted, _.
  - by apply insert_stable_filter_out.
Qed.

(** Lists seen through a boolean filter. *)
Lemma list_filter_all {A} (f : A -> bool) l : (forall x, x ∈ l -> f x = true) -> List.filter f l = l.
Proof.
  induction l as [|x l IH]; intros Hf; simpl; [done|].
  rewrite Hf by set_solver. f_equal. apply IH. set_solver.
Qed.

Lemma list_filter_length_le {A} (f : A -> bool) l : (length (List.filter f l) <= length l)%nat.
Proof. induction l as [|x l IH]; simpl; [lia|]. case_match; simpl; lia. Qed.

Lemma list_filter_length_eq {A} (f : A -> bool) l :
  length (List.filter f l) = length l -> List.filter f l = l.
Proof.
  induction l as [|x l IH]; simpl; [done|]. pose proof (list_filter_length_le f l).
  case_match; simpl; intros Hl; [f_equal; apply IH; lia|lia].
Qed.

Lemma list_filter_filter {A} (f g : A -> bool) l :
  List.filter f (List.filter g l) = List.filter (fun x => g x && f x) l.
Proof.
  induction l as [|x l IH]; simpl; [done|]. destruct (g x); simpl; [|done].
  by destruct (f x); rewrite IH.
Qed.

Lemma list_filter_ext {A} (f g : A -> bool) l :
  (forall x, x ∈ l -> f x = g x) -> List.filter f l = List.filter g l.
Proof.
  induction l as [|x l IH]; intros Hf; simpl; [done|].
  rewrite Hf by set_solver. rewrite IH by set_solver. done.
Qed.

Lemma elem_of_list_filter {A} (f : A -> bool) x l :
  x ∈ List.filter f l <-> x ∈ l /\ f x = true.
Proof. by rewrite !list_elem_of_In, List.filter_In. Qed.

Lemma list_filter_sublist {A} (f : A -> bool) l : List.filter f l `sublist_of` l.
Proof. induction l as [|x l IH]; simpl; [done|]. case_match; by constructor. Qed.

#[export] Instance list_filter_perm {A} (f : A -> bool) : Proper (Permutation ==> Permutation) (List.filter f).
Proof.
  induction 1; simpl.
  - done.
  - case_match; [by apply perm_skip|done].
  - repeat case_match; try done; by constructor.
  - by etrans.
Qed.

Lemma omap_cons_eq {A B} (f : A -> option B) x l :
  omap f (x :: l) = match f x with Some y => y :: omap f l | None => omap f l end.
Proof. done. Qed.

Lemma strongly_sorted_fmap {A B} (f : A -> B) (R : B -> B -> Prop) l :
  StronglySorted R (f <$> l) <-> StronglySorted (fun a b => R (f a) (f b)) l.
Proof.
  induction l as [|a l IH]; simpl; [split; constructor|].
  split; intros Hs; inversion Hs as [|?? Hs' Hall]; subst.
  - constructor; [by apply IH|]. by rewrite Forall_fmap in Hall.
  - constructor; [by apply IH|]. by rewrite Forall_fmap.
Qed.

Lemma sum_list_with_perm {A} (f : A -> nat) l l' :
  l ≡ₚ l' -> sum_list_with f l = sum_list_with f l'.
Proof. induction 1; simpl; lia. Qed.

(** ** Counting *)
Definition count `{EqDecision A} (x : A) (l : list A) : nat := length (filter (fun y => y = x) l).
Lemma count_app `{EqDecision A} (x : A) l1 l2 : count x (l1 ++ l2) = (count x l1 + count x l2)%nat.
Proof. unfold count. by rewrite filter_app, length_app. Qed.
Lemma count_one `{EqDecision A} (x y : A) : count x [y] = if decide (y = x) then 1%nat else 0%nat.
Proof. unfold count. rewrite filter_cons. by case_decide. Qed.
Lemma count_filter `{EqDecision A} (P : A -> Prop) `{forall x, Decision (P x)} (x : A) l : (count x (filter P l) <= count x l)%nat.
Proof.
  induction l as [|y l IH]; [done|]. rewrite filter_cons. case_decide; unfold count in *; rewrite !filter_cons;
    repeat case_decide; cbn; lia || done.
Qed.
#[global] Arguments count : simpl never.
Lemma count_zero `{EqDecision A} (x : A) l : x ∉ l -> count x l = 0%nat.
Proof.
  intros Hx. unfold count. induction l as [|y l IH]; [done|]. apply not_elem_of_cons in Hx as [Hne Hx].
  rewrite filter_cons_False by done. by apply IH.
Qed.
Lemma count_pos `{EqDecision A} (x : A) l : x ∈ l -> (0 < count x l)%nat.
Proof.
  intros Hx. unfold count. assert (x ∈ filter (fun y => y = x) l) as Hf by (by apply list_elem_of_filter).
  destruct (filter _ l); [by apply not_elem_of_nil in Hf|cbn; lia].
Qed.
Lemma count_nodup `{EqDecision A} (l : list A) : NoDup l <-> forall x, (count x l <= 1)%nat.
Proof.
  induction l as [|y l IH]; [split; [by intros _ x; unfold count; cbn; lia|constructor]|]. change (y :: l) with ([y] ++ l). rewrite NoDup_app, IH. split.
  - intros (_ & Hd & Hl) x. rewrite count_app, count_one. case_decide as Heq; [|specialize (Hl x); lia].
    rewrite count_zero; [lia|]. apply Hd. set_solver.
  - intros Hc. split_and!; [apply NoDup_singleton| |].
    + intros x ->%list_elem_of_singleton Hin. specialize (Hc y). apply count_pos in Hin.
      rewrite count_app, count_one, decide_True in Hc by done. lia.
    + intros x. specialize (Hc x). rewrite count_app in Hc. lia.
Qed.
