(* ===== verification/GoText.v ===== *)
(** * Go's text primitives

    What the modelled packages use of Go's [strings], [unicode], [utf8] and
    [strconv]. A Go string is a sequence of bytes, here a Rocq [string]; the
    functions that Go documents on code points decode it as Go does, so an
    invalid byte is one [RuneError] of width one. The tables of [unicode] above
    ASCII (case mapping, letters, digits, case folding orbits) are an interface,
    [UnicodeTables]: only the ASCII part is spelled out. *)
From S2P Require Import Prelude.

Open Scope Z_scope.

(** ** Bytes *)
Definition byte_of (a : ascii) : Z := Z.of_N (N_of_ascii a).
Definition ascii_of (z : Z) : ascii := ascii_of_N (Z.to_N z).
Definition bytes (s : string) : list Z := byte_of <$> list_ascii_of_string s.
Definition of_bytes (l : list Z) : string := string_of_list_ascii (ascii_of <$> l).
(** [len(s)]: the number of bytes. *)
Definition blen (s : string) : Z := Z.of_nat (String.length s).
Definition is_ascii (s : string) : bool := forallb (fun b => b <? 128) (bytes s).

(** ** UTF-8 *)
Definition rune_error : Z := 65533.

Definition is_cont (lo hi b : Z) : bool := (lo <=? b) && (b <=? hi).

(** [utf8.DecodeRune] on a non-empty input: the code point and its width. An
    ill-formed prefix is [RuneError] of width one. *)
Definition decode_rune (l : list Z) : Z * nat :=
  match l with
  | [] => (rune_error, 0%nat)
  | b0 :: l1 =>
    if b0 <? 128 then (b0, 1%nat)
    else if (194 <=? b0) && (b0 <=? 223) then
      match l1 with
      | b1 :: _ =>
        if is_cont 128 191 b1
        then (Z.lor (Z.shiftl (Z.land b0 31) 6) (Z.land b1 63), 2%nat)
        else (rune_error, 1%nat)
      | [] => (rune_error, 1%nat)
      end
    else if (224 <=? b0) && (b0 <=? 239) then
      match l1 with
      | b1 :: b2 :: _ =>
        let lo := if b0 =? 224 then 160 else 128 in
        let hi := if b0 =? 237 then 159 else 191 in
        if is_cont lo hi b1 && is_cont 128 191 b2
        then (Z.lor (Z.lor (Z.shiftl (Z.land b0 15) 12) (Z.shiftl (Z.land b1 63) 6))
                (Z.land b2 63), 3%nat)
        else (rune_error, 1%nat)
      | _ => (rune_error, 1%nat)
      end
    else if (240 <=? b0) && (b0 <=? 244) then
      match l1 with
      | b1 :: b2 :: b3 :: _ =>
        let lo := if b0 =? 240 then 144 else 128 in
        let hi := if b0 =? 244 then 143 else 191 in
        if is_cont lo hi b1 && is_cont 128 191 b2 && is_cont 128 191 b3
        then (Z.lor (Z.lor (Z.shiftl (Z.land b0 7) 18) (Z.shiftl (Z.land b1 63) 12))
                (Z.lor (Z.shiftl (Z.land b2 63) 6) (Z.land b3 63)), 4%nat)
        else (rune_error, 1%nat)
      | _ => (rune_error, 1%nat)
      end
    else (rune_error, 1%nat)
  end.

(** A string cut at its code points: each rune with the bytes it was read from.
    The fuel is the number of bytes, and every step consumes at least one. *)
Fixpoint segments_fuel (fuel : nat) (l : list Z) : list (Z * list Z) :=
  match fuel, l with
  | S fuel', _ :: _ =>
    let '(r, w) := decode_rune l in (r, take w l) :: segments_fuel fuel' (drop w l)
  | _, _ => []
  end.
Definition segments (s : string) : list (Z * list Z) :=
  segments_fuel (String.length s) (bytes s).
Definition unsegments (l : list (Z * list Z)) : string := of_bytes (concat (snd <$> l)).
(** [[]rune(s)]. *)
Definition runes (s : string) : list Z := fst <$> segments s.
(** [utf8.RuneCountInString]. *)
Definition rune_count (s : string) : Z := Z.of_nat (length (runes s)).

(** [utf8.AppendRune]: a value that is no code point encodes as [RuneError]. *)
Definition encode_rune (r : Z) : list Z :=
  if (r <? 0) || (1114111 <? r) || ((55296 <=? r) && (r <=? 57343)) then [239; 191; 189]
  else if r <? 128 then [r]
  else if r <? 2048 then [Z.lor 192 (Z.shiftr r 6); Z.lor 128 (Z.land r 63)]
  else if r <? 65536 then
    [Z.lor 224 (Z.shiftr r 12); Z.lor 128 (Z.land (Z.shiftr r 6) 63); Z.lor 128 (Z.land r 63)]
  else
    [Z.lor 240 (Z.shiftr r 18); Z.lor 128 (Z.land (Z.shiftr r 12) 63);
     Z.lor 128 (Z.land (Z.shiftr r 6) 63); Z.lor 128 (Z.land r 63)].
(** [string(runes)]. *)
Definition of_runes (l : list Z) : string := of_bytes (concat (encode_rune <$> l)).

(** ** Unicode tables above ASCII *)
Class UnicodeTables : Type := {
  unicode_lower : Z -> Z;
  unicode_upper : Z -> Z;
  unicode_letter : Z -> bool;
  unicode_digit : Z -> bool;
  (** the two runes lie on one [unicode.SimpleFold] orbit *)
  unicode_same_fold : Z -> Z -> bool
}.

(** The tables of a text that stays within ASCII: nothing above it is a letter
    or a digit, maps to another case, or folds onto another rune. *)
Definition ascii_tables : UnicodeTables := {|
  unicode_lower := fun r => r;
  unicode_upper := fun r => r;
  unicode_letter := fun _ => false;
  unicode_digit := fun _ => false;
  unicode_same_fold := Z.eqb
|}.

Definition between (lo hi r : Z) : bool := (lo <=? r) && (r <=? hi).
Definition ascii_lower (r : Z) : Z := if between 65 90 r then r + 32 else r.
Definition ascii_upper (r : Z) : Z := if between 97 122 r then r - 32 else r.

(** [unicode.IsSpace]. *)
Definition is_space (r : Z) : bool :=
  between 9 13 r || (r =? 32) || (r =? 133) || (r =? 160) || (r =? 5760) ||
  between 8192 8202 r || (r =? 8232) || (r =? 8233) || (r =? 8239) || (r =? 8287) ||
  (r =? 12288).

Section tables.
Context `{UnicodeTables}.

Definition rune_lower (r : Z) : Z := if r <? 128 then ascii_lower r else unicode_lower r.
Definition rune_upper (r : Z) : Z := if r <? 128 then ascii_upper r else unicode_upper r.
Definition is_letter (r : Z) : bool :=
  if r <? 128 then between 65 90 r || between 97 122 r else unicode_letter r.
Definition is_digit (r : Z) : bool :=
  if r <? 128 then between 48 57 r else unicode_digit r.
Definition same_fold (r1 r2 : Z) : bool :=
  (r1 =? r2) ||
  (if (r1 <? 128) && (r2 <? 128) then ascii_lower r1 =? ascii_lower r2
   else unicode_same_fold r1 r2).

(** [strings.ToLower] and [strings.ToUpper]: byte-wise on an ASCII string, else
    [strings.Map], which rewrites an invalid byte as the encoded [RuneError]. *)
Definition to_lower (s : string) : string :=
  if is_ascii s then of_bytes (ascii_lower <$> bytes s)
  else of_runes (rune_lower <$> runes s).
Definition to_upper (s : string) : string :=
  if is_ascii s then of_bytes (ascii_upper <$> bytes s)
  else of_runes (rune_upper <$> runes s).

(** [strings.EqualFold]: rune by rune under simple case folding. *)
Fixpoint fold_eq (l1 l2 : list Z) : bool :=
  match l1, l2 with
  | [], [] => true
  | r1 :: l1', r2 :: l2' => same_fold r1 r2 && fold_eq l1' l2'
  | _, _ => false
  end.
Definition equal_fold (s1 s2 : string) : bool := fold_eq (runes s1) (runes s2).
End tables.

(** ** Trimming and splitting *)
Fixpoint drop_while {A} (f : A -> bool) (l : list A) : list A :=
  match l with
  | [] => []
  | x :: l' => if f x then drop_while f l' else l
  end.
Definition drop_while_end {A} (f : A -> bool) (l : list A) : list A :=
  rev (drop_while f (rev l)).

Definition seg_space (p : Z * list Z) : bool := is_space p.1.
(** [strings.TrimSpace]. *)
Definition trim_space (s : string) : string :=
  unsegments (drop_while_end seg_space (drop_while seg_space (segments s))).
(** [strings.TrimRight(s, cut)] for a one-byte ASCII cut set. *)
Definition trim_right_byte (c : Z) (s : string) : string :=
  of_bytes (drop_while_end (Z.eqb c) (bytes s)).

(** [strings.Fields]: the maximal runs of non-space code points. *)
Fixpoint fields_of (l : list (Z * list Z)) (cur : list (Z * list Z)) : list string :=
  match l with
  | [] => match cur with [] => [] | _ => [unsegments (rev cur)] end
  | p :: l' =>
    if seg_space p then
      match cur with
      | [] => fields_of l' []
      | _ => unsegments (rev cur) :: fields_of l' []
      end
    else fields_of l' (p :: cur)
  end.
Definition fields (s : string) : list string := fields_of (segments s) [].

Definition has_prefix (pre s : string) : bool := String.prefix pre s.
Fixpoint strip_prefix (pre s : string) : option string :=
  match pre, s with
  | EmptyString, _ => Some s
  | String a pre', String b s' => if Ascii.eqb a b then strip_prefix pre' s' else None
  | String _ _, EmptyString => None
  end.
(** [strings.TrimPrefix], [strings.TrimSuffix], [strings.HasSuffix]. *)
Definition trim_prefix (pre s : string) : string :=
  match strip_prefix pre s with Some s' => s' | None => s end.
Definition srev (s : string) : string :=
  string_of_list_ascii (rev (list_ascii_of_string s)).
Definition trim_suffix (suf s : string) : string :=
  match strip_prefix (srev suf) (srev s) with Some s' => srev s' | None => s end.
Definition has_suffix (suf s : string) : bool := String.prefix (srev suf) (srev s).

(** [strings.Split(s, c)] for a one-byte separator: always at least one part. *)
Fixpoint split_on (c : ascii) (s : string) : list string :=
  match s with
  | EmptyString => [""%string]
  | String a s' =>
    if Ascii.eqb a c then ""%string :: split_on c s'
    else match split_on c s' with
         | p :: ps => String a p :: ps
         | [] => [String a ""]
         end
  end.
Definition contains_byte (c : ascii) (s : string) : bool :=
  existsb (Ascii.eqb c) (list_ascii_of_string s).
(** [strings.Compare] *)
Definition text_compare (x y : string) : Z := if String.eqb x y then 0 else if String.ltb x y then -1 else 1.
(** [strings.Join]. *)
Definition join (sep : string) (l : list string) : string := String.concat sep l.
(** [strings.LastIndex(s, c)] for one byte, and [s[idx+1:]] behind it. *)
Definition after_last (c : ascii) (s : string) : option string :=
  if contains_byte c s then last (split_on c s) else None.
(** [s[:n]], for [n <= len(s)]. *)
Definition byte_take (n : nat) (s : string) : string := String.substring 0 n s.
(** [strings.Repeat]. *)
Definition repeat_string (s : string) (n : nat) : string := String.concat "" (replicate n s).
(** [strconv.Itoa] and the [%d] verb. *)
Definition itoa (z : Z) : string := pretty z.

(** [url.PathEscape]: a path segment keeps letters, digits and
    [- _ . ~ $ & + = : @]; every other byte is percent-encoded. *)
Definition path_safe (b : Z) : bool :=
  between 48 57 b || between 65 90 b || between 97 122 b ||
  existsb (Z.eqb b) [45; 95; 46; 126; 36; 38; 43; 61; 58; 64].
Definition hex_digit (n : Z) : Z := if n <? 10 then 48 + n else 55 + n.
Definition path_escape (s : string) : string :=
  of_bytes (concat ((fun b => if path_safe b then [b] else [37; hex_digit (b / 16); hex_digit (b mod 16)])
    <$> bytes s)).

(** [strconv.Atoi] on a 64-bit platform: an optional sign, at least one decimal
    digit, nothing else, and the value in range. *)
Definition digits_value (l : list Z) : option Z :=
  match l with
  | [] => None
  | _ => if forallb (between 48 57) l then Some (foldl (fun n b => n * 10 + (b - 48)) 0 l) else None
  end.
Definition int64_range (n : Z) : bool := (- 2 ^ 63 <=? n) && (n <? 2 ^ 63).
Definition atoi (s : string) : option Z :=
  let value := match bytes s with
    | 45 :: l => Z.opp <$> digits_value l
    | 43 :: l => digits_value l
    | l => digits_value l
    end in
  match value with Some n => if int64_range n then Some n else None | None => None end.

(** [int32(n)] *)
Definition wrap32 (n : Z) : Z := (n + 2 ^ 31) mod 2 ^ 32 - 2 ^ 31.

(** ** [encoding/hex] *)
(** [hex.EncodeToString], [hex.DecodeString] *)
Definition hex_lower (n : Z) : Z := if n <? 10 then 48 + n else 87 + n.
Definition hex_encode (s : string) : string :=
  of_bytes (concat ((fun b => [hex_lower (b / 16); hex_lower (b mod 16)]) <$> bytes s)).
Definition hex_value (b : Z) : option Z :=
  if between 48 57 b then Some (b - 48) else if between 97 102 b then Some (b - 87)
  else if between 65 70 b then Some (b - 55) else None.
Fixpoint hex_pairs (l : list Z) : option (list Z) :=
  match l with
  | [] => Some []
  | [_] => None
  | h :: l :: rest =>
    match hex_value h, hex_value l, hex_pairs rest with
    | Some x, Some y, Some more => Some (x * 16 + y :: more)
    | _, _, _ => None
    end
  end.
Definition hex_decode (s : string) : option string := of_bytes <$> hex_pairs (bytes s).

(** ** Facts the components share *)
Lemma has_prefix_nil s : has_prefix "" s = true.
Proof. by destruct s. Qed.

Lemma has_prefix_app pre s : has_prefix pre (pre +:+ s) = true.
Proof.
  induction pre as [|a pre IH]; [apply has_prefix_nil|].
  unfold has_prefix in *. simpl. by destruct (Ascii.ascii_dec a a).
Qed.

Lemma has_prefix_spec pre s : has_prefix pre s = true <-> exists t, s = pre +:+ t.
Proof.
  split; [|intros [t ->]; apply has_prefix_app].
  revert s. induction pre as [|a pre IH]; intros s; [by exists s|].
  unfold has_prefix in *. destruct s as [|b s]; simpl; [done|].
  destruct (Ascii.ascii_dec a b) as [->|]; [|done]. intros [t ->]%IH. by exists t.
Qed.

Lemma has_prefix_length pre s : has_prefix pre s = true -> (String.length pre <= String.length s)%nat.
Proof.
  intros [t ->]%has_prefix_spec. induction pre as [|a pre IH]; simpl; lia.
Qed.

Lemma has_prefix_refl_length pre s :
  has_prefix pre s = true -> String.length pre = String.length s -> pre = s.
Proof.
  intros [t ->]%has_prefix_spec. revert t. induction pre as [|a pre IH]; intros t; simpl.
  - by destruct t.
  - intros [= Hl]. change (String a pre = String a (pre +:+ t)). f_equal. by apply IH.
Qed.

(** Go's [<] on strings compares bytes lexicographically: a strict total order. *)
Lemma ascii_compare_cases a b :
  (Ascii.compare a b = Eq /\ a = b) \/
  (Ascii.compare a b = Lt /\ (N_of_ascii a < N_of_ascii b)%N) \/
  (Ascii.compare a b = Gt /\ (N_of_ascii b < N_of_ascii a)%N).
Proof.
  unfold Ascii.compare. destruct (N.compare_spec (N_of_ascii a) (N_of_ascii b)) as [He| |]; auto.
  left. split; [done|]. by rewrite <- (ascii_N_embedding a), He, ascii_N_embedding.
Qed.

#[export] Instance string_ltb_weak : StrictWeak String.ltb.
Proof.
  split.
  - intros x y. unfold String.ltb. rewrite (String.compare_antisym y x).
    by destruct (String.compare x y).
  - unfold String.ltb. induction x as [|a x IH]; intros [|b y] [|c z]; simpl; auto.
    destruct (ascii_compare_cases a b) as [[-> ?]|[[-> ?]|[-> ?]]],
      (ascii_compare_cases b c) as [[-> ?]|[[-> ?]|[-> ?]]],
      (ascii_compare_cases a c) as [[-> ?]|[[-> ?]|[-> ?]]];
      subst; auto; try lia; apply IH.
Qed.

Lemma string_ltb_total x y : String.ltb x y = false -> String.ltb y x = false -> x = y.
Proof.
  unfold String.ltb. rewrite (String.compare_antisym y x).
  destruct (String.compare x y) eqn:Hc; simpl; try done. intros _ _.
  by apply String.compare_eq_iff.
Qed.

Lemma string_app_nil_r s : s +:+ "" = s.
Proof.
  induction s as [|a s IH]; [done|]. change (String a (s +:+ "") = String a s). by rewrite IH.
Qed.

Lemma blen_app s t : blen (s +:+ t) = blen s + blen t.
Proof.
  unfold blen. induction s as [|a s IH]; [done|].
  change (String a s +:+ t) with (String a (s +:+ t)). simpl String.length. lia.
Qed.

Lemma blen_nonneg s : 0 <= blen s.
Proof. unfold blen. lia. Qed.

(** More digits for larger numbers. *)
Lemma pretty_N_go_length n : forall m s t,
  (n <= m)%N -> (String.length s <= String.length t)%nat ->
  (String.length (pretty_N_go n s) <= String.length (pretty_N_go m t))%nat.
Proof.
  induction n as [n IH] using (well_founded_induction N.lt_wf_0). intros m s t Hnm Hst.
  destruct (decide (0 < n)%N) as [Hn|Hn].
  - rewrite (pretty_N_go_step n), (pretty_N_go_step m) by lia.
    apply IH; [apply N.div_lt; lia|apply N.Div0.div_le_mono; lia|simpl; lia].
  - assert (n = 0%N) as -> by lia. rewrite pretty_N_go_0. clear IH Hnm Hn.
    revert t Hst. induction m as [m IH] using (well_founded_induction N.lt_wf_0). intros t Hst.
    destruct (decide (0 < m)%N) as [Hm|Hm].
    + rewrite (pretty_N_go_step m) by lia. apply IH; [apply N.div_lt; lia|simpl; lia].
    + assert (m = 0%N) as -> by lia. by rewrite pretty_N_go_0.
Qed.

Lemma itoa_length_mono a b : 0 < a <= b -> blen (itoa a) <= blen (itoa b).
Proof.
  intros Hab. destruct a as [|a|], b as [|b|]; try lia. unfold blen. apply Nat2Z.inj_le.
  change (itoa (Z.pos a)) with (pretty_N_go (N.pos a) "").
  change (itoa (Z.pos b)) with (pretty_N_go (N.pos b) "").
  apply pretty_N_go_length; [lia|done].
Qed.

Lemma string_app_assoc s1 s2 s3 : (s1 +:+ s2) +:+ s3 = s1 +:+ (s2 +:+ s3).
Proof.
  induction s1 as [|a s1 IH]; [done|]. exact (f_equal (String a) IH).
Qed.

Lemma list_ascii_of_app s1 s2 :
  list_ascii_of_string (s1 +:+ s2) = list_ascii_of_string s1 ++ list_ascii_of_string s2.
Proof.
  induction s1 as [|a s1 IH]; [done|].
  change (String a s1 +:+ s2) with (String a (s1 +:+ s2)). simpl. by rewrite IH.
Qed.

Lemma string_of_list_app l1 l2 :
  string_of_list_ascii (l1 ++ l2) = string_of_list_ascii l1 +:+ string_of_list_ascii l2.
Proof.
  induction l1 as [|a l1 IH]; [done|]. simpl. rewrite IH. done.
Qed.

Lemma srev_app s1 s2 : srev (s1 +:+ s2) = srev s2 +:+ srev s1.
Proof. unfold srev. by rewrite list_ascii_of_app, rev_app_distr, string_of_list_app. Qed.

Lemma srev_involutive s : srev (srev s) = s.
Proof.
  unfold srev. rewrite list_ascii_of_string_of_list_ascii, rev_involutive.
  apply string_of_list_ascii_of_string.
Qed.

Lemma strip_prefix_app pre s : strip_prefix pre (pre +:+ s) = Some s.
Proof.
  induction pre as [|a pre IH]; [by destruct s|].
  change (String a pre +:+ s) with (String a (pre +:+ s)). simpl. by rewrite Ascii.eqb_refl.
Qed.

Lemma strip_prefix_none pre s : String.prefix pre s = false -> strip_prefix pre s = None.
Proof.
  revert s. induction pre as [|a pre IH]; intros [|b s]; simpl; try done.
  destruct (Ascii.ascii_dec a b) as [->|Hne]; [rewrite Ascii.eqb_refl; apply IH|].
  intros _. by rewrite (proj2 (Ascii.eqb_neq a b) Hne).
Qed.

Lemma trim_suffix_app suf s : trim_suffix suf (s +:+ suf) = s.
Proof. unfold trim_suffix. by rewrite srev_app, strip_prefix_app, srev_involutive. Qed.

Lemma trim_suffix_none suf s : has_suffix suf s = false -> trim_suffix suf s = s.
Proof. unfold has_suffix, trim_suffix. intros Hs. by rewrite (strip_prefix_none _ _ Hs). Qed.

(** ** Bytes and strings *)
Lemma length_of_bytes l : String.length (of_bytes l) = length l.
Proof. unfold of_bytes. induction l as [|b l IH]; [done|]. rewrite fmap_cons. cbn [string_of_list_ascii String.length length]. by f_equal. Qed.

Lemma byte_of_ascii_of b : 0 <= b < 256 -> byte_of (ascii_of b) = b.
Proof.
  intros Hb. unfold byte_of, ascii_of. rewrite N_ascii_embedding; [apply Z2N.id; lia|].
  change 256%N with (Z.to_N 256). apply Z2N.inj_lt; lia.
Qed.

Lemma bytes_of_bytes l : Forall (fun b => 0 <= b < 256) l -> bytes (of_bytes l) = l.
Proof.
  intros Hl. unfold bytes, of_bytes. rewrite list_ascii_of_string_of_list_ascii.
  induction Hl as [|b l Hb Hl IH]; [done|]. rewrite !fmap_cons, byte_of_ascii_of by done. by f_equal.
Qed.

Lemma byte_of_bound a : 0 <= byte_of a < 256.
Proof.
  unfold byte_of. pose proof (N_ascii_bounded a) as Ha. split; [lia|].
  change 256 with (Z.of_N 256). by apply N2Z.inj_lt.
Qed.

Lemma bytes_bound s : Forall (fun b => 0 <= b < 256) (bytes s).
Proof. unfold bytes. apply Forall_fmap, Forall_forall. intros a _. apply byte_of_bound. Qed.

Lemma length_bytes s : length (bytes s) = String.length s.
Proof. unfold bytes. rewrite length_fmap. induction s; simpl; [done|by f_equal]. Qed.

(** ASCII text has one code point per byte. *)
Lemma runes_of_bytes l : Forall (fun b => 0 <= b < 128) l -> runes (of_bytes l) = l.
Proof.
  intros Hl. unfold runes, segments. rewrite length_of_bytes, bytes_of_bytes.
  2:{ eapply Forall_impl; [exact Hl|]. simpl. lia. }
  induction Hl as [|b l Hb Hl IH]; simpl; [done|].
  destruct (Z.ltb_spec b 128); [|lia]. simpl. f_equal. exact IH.
Qed.

(** Bytes and strings are the same thing. *)
Lemma of_bytes_bytes s : of_bytes (bytes s) = s.
Proof.
  unfold of_bytes, bytes. rewrite <- list_fmap_compose. rewrite <- (string_of_list_ascii_of_string s) at 2. f_equal.
  rewrite <- (list_fmap_id (list_ascii_of_string s)) at 2. apply list_fmap_ext. intros _ a _. cbn.
  unfold ascii_of, byte_of. by rewrite N2Z.id, ascii_N_embedding.
Qed.
Lemma bytes_app s t : bytes (s +:+ t) = bytes s ++ bytes t.
Proof. unfold bytes. by rewrite list_ascii_of_app, fmap_app. Qed.
Lemma of_bytes_app l l' : of_bytes (l ++ l') = of_bytes l +:+ of_bytes l'.
Proof. unfold of_bytes. by rewrite fmap_app, string_of_list_app. Qed.

(** The digits of a number. *)
Lemma pretty_N_go_bytes (P : Z -> Prop) n : (forall b, 48 <= b <= 57 -> P b) -> forall s,
  Forall P (bytes s) -> Forall P (bytes (pretty_N_go n s)).
Proof.
  intros Hd. induction n as [n IH] using (well_founded_induction N.lt_wf_0). intros s Hs.
  destruct (decide (0 < n)%N) as [Hn|Hn]; [|assert (n = 0%N) as -> by lia; by rewrite pretty_N_go_0].
  rewrite (pretty_N_go_step n) by lia. apply IH; [apply N.div_lt; lia|]. constructor; [|done]. apply Hd.
  assert (n mod 10 < 10)%N as Hlt by (by apply N.mod_lt). revert Hlt. generalize (n mod 10)%N. intros k Hk.
  assert (k = 0 \/ k = 1 \/ k = 2 \/ k = 3 \/ k = 4 \/ k = 5 \/ k = 6 \/ k = 7 \/ k = 8 \/ k = 9)%N as Hc by lia.
  by repeat destruct Hc as [->|Hc]; [..|subst k].
Qed.
Lemma itoa_bytes (P : Z -> Prop) z : 0 <= z -> (forall b, 48 <= b <= 57 -> P b) -> Forall P (bytes (itoa z)).
Proof.
  intros Hz Hd. destruct z as [|p|p]; [apply (Forall_singleton P (byte_of "0"%char)), Hd; by split; vm_compute| |lia].
  change (itoa (Z.pos p)) with (pretty_N_go (N.pos p) ""). apply pretty_N_go_bytes; [done|]. apply Forall_nil_2.
Qed.

(** Hexadecimal digits read back. *)
Lemma hex_value_lower n : 0 <= n < 16 -> hex_value (hex_lower n) = Some n.
Proof. intros Hn. unfold hex_value, hex_lower, between. repeat case_match; f_equal; lia. Qed.
Lemma hex_lower_byte n : 0 <= n < 16 -> 0 <= hex_lower n < 256.
Proof. intros Hn. unfold hex_lower. destruct (n <? 10); lia. Qed.
Lemma hex_roundtrip s : hex_decode (hex_encode s) = Some s.
Proof.
  unfold hex_decode, hex_encode. rewrite bytes_of_bytes.
  - rewrite <- (of_bytes_bytes s) at 2. pose proof (bytes_bound s) as Hb.
    assert (hex_pairs (concat ((fun b => [hex_lower (b / 16); hex_lower (b mod 16)]) <$> bytes s)) = Some (bytes s)) as ->; [|done].
    induction Hb as [|b l Hb Hl IH]; [done|]. rewrite fmap_cons. cbn [concat app hex_pairs].
    rewrite !hex_value_lower, IH by (Z.to_euclidean_division_equations; lia). f_equal. f_equal. Z.to_euclidean_division_equations; lia.
  - apply Forall_concat, Forall_fmap. eapply Forall_impl; [apply bytes_bound|]. cbn. intros b Hb.
    repeat apply Forall_cons_2; [| |apply Forall_nil_2]; apply hex_lower_byte; Z.to_euclidean_division_equations; lia.
Qed.
#[export] Instance hex_encode_inj : Inj (=) (=) hex_encode.
Proof. intros s t Heq. pose proof (hex_roundtrip s) as Hs. rewrite Heq, hex_roundtrip in Hs. by injection Hs. Qed.
