(* ===== verification/Regex.v ===== *)
(** * Regular expressions over code points: Go's [regexp]

    The packages compile a handful of RE2 patterns and only ever ask whether a
    text matches. A pattern is an expression over character classes; the
    matcher takes Brzozowski derivatives, and [re_match_spec] proves it decides
    the language [matches]. Case-insensitive literals fold as RE2 does: besides
    the two ASCII cases, [k] also folds with U+212A and [s] with U+017F. *)
From S2P Require Import Prelude GoText.

Inductive regex : Type :=
| RVoid
| REps
| RClass (p : Z -> bool)
| RSeq (r1 r2 : regex)
| RAlt (r1 r2 : regex)
| RStar (r : regex).

Inductive matches : regex -> list Z -> Prop :=
| MEps : matches REps []
| MClass p c : p c = true -> matches (RClass p) [c]
| MSeq r1 r2 l1 l2 : matches r1 l1 -> matches r2 l2 -> matches (RSeq r1 r2) (l1 ++ l2)
| MAltL r1 r2 l : matches r1 l -> matches (RAlt r1 r2) l
| MAltR r1 r2 l : matches r2 l -> matches (RAlt r1 r2) l
| MStarNil r : matches (RStar r) []
| MStarCons r l1 l2 : matches r l1 -> matches (RStar r) l2 -> matches (RStar r) (l1 ++ l2).

(** ** The matcher *)
Fixpoint nullable (r : regex) : bool :=
  match r with
  | RVoid | RClass _ => false
  | REps | RStar _ => true
  | RSeq r1 r2 => nullable r1 && nullable r2
  | RAlt r1 r2 => nullable r1 || nullable r2
  end.

(** Constructors that absorb the empty language and the empty word, so a
    derivative does not grow with every rejected alternative. *)
Definition seq (r1 r2 : regex) : regex :=
  match r1, r2 with
  | RVoid, _ | _, RVoid => RVoid
  | REps, _ => r2
  | _, _ => RSeq r1 r2
  end.
Definition alt (r1 r2 : regex) : regex :=
  match r1, r2 with
  | RVoid, _ => r2
  | _, RVoid => r1
  | _, _ => RAlt r1 r2
  end.

#[global] Arguments seq r1 r2 : simpl never.
#[global] Arguments alt r1 r2 : simpl never.

Fixpoint deriv (c : Z) (r : regex) : regex :=
  match r with
  | RVoid | REps => RVoid
  | RClass p => if p c then REps else RVoid
  | RSeq r1 r2 =>
    if nullable r1 then alt (seq (deriv c r1) r2) (deriv c r2) else seq (deriv c r1) r2
  | RAlt r1 r2 => alt (deriv c r1) (deriv c r2)
  | RStar r1 => seq (deriv c r1) (RStar r1)
  end.

Fixpoint re_match (r : regex) (l : list Z) : bool :=
  match l with
  | [] => nullable r
  | c :: l' => re_match (deriv c r) l'
  end.

(** ** Pattern syntax *)
Definition rlit (c : Z) : regex := RClass (Z.eqb c).
Fixpoint rstring_bytes (l : list Z) : regex :=
  match l with [] => REps | c :: l' => seq (rlit c) (rstring_bytes l') end.
(** a literal ASCII string *)
Definition rstr (s : string) : regex := rstring_bytes (bytes s).
(** a literal under [(?i)] *)
Definition fold_class (c r : Z) : bool :=
  (ascii_lower c =? ascii_lower r) ||
  ((ascii_lower c =? 107) && (r =? 8490)) || ((ascii_lower c =? 115) && (r =? 383)).
Fixpoint ristring_bytes (l : list Z) : regex :=
  match l with [] => REps | c :: l' => seq (RClass (fold_class c)) (ristring_bytes l') end.
Definition ristr (s : string) : regex := ristring_bytes (bytes s).
Definition rplus (r : regex) : regex := RSeq r (RStar r).
Definition ropt (r : regex) : regex := RAlt r REps.
(** [r{n}], [r{n,}] and [r{n,n+m}] *)
Fixpoint rrep (r : regex) (n : nat) : regex :=
  match n with O => REps | S n' => seq r (rrep r n') end.
Definition rmin (r : regex) (n : nat) : regex := seq (rrep r n) (RStar r).
Fixpoint rupto (r : regex) (m : nat) : regex :=
  match m with O => REps | S m' => ropt (RSeq r (rupto r m')) end.
Definition rrange (r : regex) (n m : nat) : regex := seq (rrep r n) (rupto r m).
Definition rany : regex := RClass (fun _ => true).

(** Character classes; [\s] is RE2's, tab, newline, form feed, return, space. *)
Definition cls_digit (c : Z) : bool := between 48 57 c.
Definition cls_upper (c : Z) : bool := between 65 90 c.
Definition cls_lower (c : Z) : bool := between 97 122 c.
Definition cls_hex (c : Z) : bool := between 48 57 c || between 97 102 c.
Definition cls_space (c : Z) : bool := (c =? 9) || (c =? 10) || (c =? 12) || (c =? 13) || (c =? 32).
Definition cls_nonspace (c : Z) : bool := negb (cls_space c).
Definition cls_in (s : string) (c : Z) : bool := existsb (Z.eqb c) (bytes s).

(** [re.MatchString] of a pattern anchored with [^...$], of one anchored with
    [^] only, and of one that may match anywhere. *)
Definition match_full (r : regex) (s : string) : bool := re_match r (runes s).
Definition match_start (r : regex) (s : string) : bool := re_match (RSeq r (RStar rany)) (runes s).
Definition match_anywhere (r : regex) (s : string) : bool :=
  re_match (RSeq (RStar rany) (RSeq r (RStar rany))) (runes s).

(** ** Correctness *)
Create HintDb regex.
#[export] Hint Constructors matches : regex.

Lemma matches_seq_inv r1 r2 l :
  matches (RSeq r1 r2) l -> exists l1 l2, l = l1 ++ l2 /\ matches r1 l1 /\ matches r2 l2.
Proof. inversion 1; subst; eauto. Qed.

Lemma matches_void l : ~ matches RVoid l.
Proof. inversion 1. Qed.

Lemma matches_eps l : matches REps l <-> l = [].
Proof. split; [by inversion 1|intros ->; constructor]. Qed.

Lemma matches_alt r1 r2 l : matches (RAlt r1 r2) l <-> matches r1 l \/ matches r2 l.
Proof. split; [inversion 1; subst; eauto|intros [|]; eauto with regex]. Qed.

Lemma matches_seq r1 r2 l :
  matches (RSeq r1 r2) l <-> exists l1 l2, l = l1 ++ l2 /\ matches r1 l1 /\ matches r2 l2.
Proof. split; [apply matches_seq_inv|intros (?&?&->&?&?); eauto with regex]. Qed.

Lemma matches_seq_void_l r l : ~ matches (RSeq RVoid r) l.
Proof. by intros (?&?&?&?%matches_void&?)%matches_seq. Qed.

Lemma matches_seq_void_r r l : ~ matches (RSeq r RVoid) l.
Proof. by intros (?&?&?&?&?%matches_void)%matches_seq. Qed.

Lemma matches_seq_eps r l : matches (RSeq REps r) l <-> matches r l.
Proof.
  rewrite matches_seq. split; [by intros (?&?&->&->%matches_eps&?)|].
  intros ?. exists [], l. eauto with regex.
Qed.

Lemma seq_correct r1 r2 l : matches (seq r1 r2) l <-> matches (RSeq r1 r2) l.
Proof.
  pose proof (matches_void l). pose proof (matches_seq_void_l r2 l).
  pose proof (matches_seq_void_r r1 l). pose proof (matches_seq_eps r2 l).
  unfold seq. destruct r1; try destruct r2; tauto.
Qed.

Lemma alt_correct r1 r2 l : matches (alt r1 r2) l <-> matches r1 l \/ matches r2 l.
Proof.
  pose proof (matches_void l).
  unfold alt. destruct r1; try destruct r2; rewrite ?matches_alt; tauto.
Qed.

Lemma nullable_correct r : nullable r = true <-> matches r [].
Proof.
  induction r; simpl.
  - split; [done|intros H; inversion H].
  - split; eauto with regex.
  - split; [done|intros H; inversion H].
  - rewrite andb_true_iff, IHr1, IHr2, matches_seq. split.
    + intros [??]. by exists [], [].
    + by intros (?&?&[-> ->]%eq_sym%app_nil&?&?).
  - by rewrite orb_true_iff, IHr1, IHr2, matches_alt.
  - split; eauto with regex.
Qed.

(** A non-empty word of [r*] starts with a non-empty word of [r]. *)
Lemma star_cons_inv r c l :
  matches (RStar r) (c :: l) ->
  exists l1 l2, l = l1 ++ l2 /\ matches r (c :: l1) /\ matches (RStar r) l2.
Proof.
  intros H. remember (RStar r) as rs eqn:Hr. remember (c :: l) as w eqn:Hw.
  revert c l Hw Hr. induction H as [| | | | | |r' l1 l2 H1 _ H2 IH]; intros; simplify_eq.
  destruct l1 as [|c1 l1]; simplify_eq/=; [by apply IH|]. by exists l1, l2.
Qed.

Lemma deriv_correct r c l : matches (deriv c r) l <-> matches r (c :: l).
Proof.
  revert l. induction r as [| |p|r1 IH1 r2 IH2|r1 IH1 r2 IH2|r IH]; intros l; simpl.
  - split; by intros ?%matches_void.
  - split; [by intros ?%matches_void|by intros ?%matches_eps].
  - destruct (p c) eqn:Hp.
    + rewrite matches_eps. split; [intros ->; by constructor|by inversion 1].
    + split; [by intros ?%matches_void|inversion 1; congruence].
  - assert (Hhead : matches (seq (deriv c r1) r2) l <->
      exists l1 l2, l = l1 ++ l2 /\ matches r1 (c :: l1) /\ matches r2 l2).
    { rewrite seq_correct, matches_seq.
      split; intros (l1&l2&->&?&?); exists l1, l2; rewrite IH1 in *; done. }
    assert (Hsplit : matches (RSeq r1 r2) (c :: l) <->
      (matches r1 [] /\ matches r2 (c :: l)) \/
      exists l1 l2, l = l1 ++ l2 /\ matches r1 (c :: l1) /\ matches r2 l2).
    { rewrite matches_seq. split.
      - intros ([|c1 l1]&l2&?&?&?); simplify_eq/=; [by left|right; eauto].
      - intros [[??]|(l1&l2&->&?&?)]; [by exists [], (c :: l)|by exists (c :: l1), l2]. }
    rewrite Hsplit, <- nullable_correct. destruct (nullable r1).
    + rewrite alt_correct, Hhead, IH2. tauto.
    + rewrite Hhead. naive_solver.
  - by rewrite alt_correct, IH1, IH2, matches_alt.
  - rewrite seq_correct, matches_seq. split.
    + intros (l1&l2&->&H1&H2). apply IH in H1. by apply (MStarCons r (c :: l1)).
    + intros (l1&l2&->&?&?)%star_cons_inv. exists l1, l2. by rewrite IH.
Qed.

(** The derivative matcher decides the language of the pattern. *)
Lemma re_match_spec r l : re_match r l = true <-> matches r l.
Proof.
  revert r. induction l as [|c l IH]; intros r; simpl.
  - apply nullable_correct.
  - by rewrite IH, deriv_correct.
Qed.

Lemma matches_class p l : matches (RClass p) l <-> exists c, l = [c] /\ p c = true.
Proof. split; [inversion 1; eauto|intros (?&->&?); by constructor]. Qed.

Lemma matches_rrep p n l :
  matches (rrep (RClass p) n) l <-> length l = n /\ forallb p l = true.
Proof.
  revert l. induction n as [|n IH]; intros l; simpl.
  - rewrite matches_eps. destruct l; simpl; naive_solver.
  - rewrite seq_correct, matches_seq. split.
    + intros (l1&l2&->&(c&->&Hc)%matches_class&[??]%IH). simpl. rewrite Hc. auto.
    + destruct l as [|c l]; simpl; [by intros []|].
      intros [[= Hl] (Hc&Hall)%andb_true_iff]. exists [c], l.
      rewrite IH. split_and!; eauto with regex.
Qed.

Lemma matches_rupto p m l :
  matches (rupto (RClass p) m) l <-> (length l <= m)%nat /\ forallb p l = true.
Proof.
  revert l. induction m as [|m IH]; intros l; simpl.
  - rewrite matches_eps. destruct l; simpl; [naive_solver lia|]. split; [done|lia].
  - unfold ropt. rewrite matches_alt, matches_seq, matches_eps. split.
    + intros [(l1&l2&->&(c&->&Hc)%matches_class&[??]%IH)| ->]; simpl; [|split; [lia|done]].
      rewrite Hc. split; [lia|done].
    + destruct l as [|c l]; simpl; [by right|].
      intros [Hl (Hc&Hall)%andb_true_iff]. left. exists [c], l.
      rewrite IH. split_and!; eauto with regex; lia.
Qed.

Lemma matches_rrange p n m l :
  matches (rrange (RClass p) n m) l <->
  (n <= length l <= n + m)%nat /\ forallb p l = true.
Proof.
  unfold rrange. rewrite seq_correct, matches_seq. split.
  - intros (l1&l2&->&[? H1]%matches_rrep&[? H2]%matches_rupto).
    rewrite length_app, forallb_app, H1, H2. split; [lia|done].
  - intros [Hl Hall]. exists (take n l), (drop n l).
    rewrite <- (take_drop n l), forallb_app in Hall. apply andb_true_iff in Hall as [??].
    rewrite take_drop, matches_rrep, matches_rupto, length_take, length_drop.
    split_and!; [done|lia|done|lia|done].
Qed.

Lemma matches_rstr l w : matches (rstring_bytes l) w <-> w = l.
Proof.
  revert w. induction l as [|c l IH]; intros w; simpl; [apply matches_eps|].
  rewrite seq_correct, matches_seq. split.
  - intros (l1&l2&->&(c'&->&->%Z.eqb_eq)%matches_class&->%IH). done.
  - intros ->. exists [c], l. rewrite IH. split_and!; [done| |done].
    constructor. apply Z.eqb_refl.
Qed.
