(* ===== verification/RepoName.v ===== *)
(** * [internal/reponame]: the one rule for reading a repository name

    [normalize_remote] reads the name a stored git remote carries, [normalize]
    falls back to the transcript's project path. The publish path uses the
    first, the pull-request matcher only the second. *)
From S2P Require Import Prelude GoText.

Open Scope string_scope.
Open Scope list_scope.

Module RepoName.
Section unicode.
Context `{UnicodeTables}.

Definition normalize_remote (gitRemote : string) : string :=
  if String.eqb gitRemote "" then ""
  else
    let remote := trim_suffix ".git" gitRemote in
    match after_last "/" remote with
    | Some name => name
    | None => ""
    end.

Definition knownDirs : list string :=
  ["github"; "documents"; "projects"; "repos"; "src"; "code"; "dev"; "home"].

Definition is_known_dir (seg : string) : bool :=
  existsb (String.eqb (to_lower seg)) knownDirs.

(** The loop over the dash-delimited segments: the last index whose segment is
    a known directory. *)
Fixpoint last_known_idx (i : nat) (segments : list string) (acc : option nat) : option nat :=
  match segments with
  | [] => acc
  | seg :: rest => last_known_idx (S i) rest (if is_known_dir seg then Some i else acc)
  end.

(** The last non-empty slash-separated part, scanning from the end. *)
Definition last_nonempty (parts : list string) : option string :=
  find (fun p => negb (String.eqb p "")) (rev parts).

Definition dashed_name (projectName : string) : string :=
  let segments := split_on "-" (trim_prefix "-" projectName) in
  match last_known_idx 0 segments None with
  | Some i => if (i <? length segments - 1)%nat then join "-" (drop (S i) segments)
              else projectName
  | None => projectName
  end.

Definition normalize (projectName gitRemote : string) : string :=
  let name := normalize_remote gitRemote in
  if negb (String.eqb name "") then name
  else if String.eqb projectName "" then ""
  else
    match (if contains_byte "/" projectName
           then last_nonempty (split_on "/" projectName) else None) with
    | Some part => part
    | None => dashed_name projectName
    end.
End unicode.

(** ** Lemmas *)
Lemma split_on_nonempty c s : split_on c s <> [].
Proof.
  destruct s as [|a s]; simpl; [done|]. destruct (Ascii.eqb a c); [done|].
  by destruct (split_on c s).
Qed.

(** No part of a split contains the separator. *)
Lemma split_on_free c s p : p ∈ split_on c s -> contains_byte c p = false.
Proof.
  revert p. induction s as [|a s IH]; intros p; simpl.
  - rewrite list_elem_of_singleton. by intros ->.
  - destruct (Ascii.eqb_spec a c) as [->|Hne].
    + intros [->|?]%elem_of_cons; [done|auto].
    + destruct (split_on c s) as [|q qs] eqn:Hs; [by apply split_on_nonempty in Hs|].
      intros [->|Hp]%elem_of_cons; [|apply IH; set_solver].
      unfold contains_byte; simpl. rewrite orb_false_iff. split.
      * apply Ascii.eqb_neq. congruence.
      * apply IH. set_solver.
Qed.

Lemma after_last_free c s name : after_last c s = Some name -> contains_byte c name = false.
Proof.
  unfold after_last. destruct (contains_byte c s); [|done].
  intros [l' Hl]%last_Some. apply (split_on_free c s). rewrite Hl. set_solver.
Qed.

Lemma last_known_idx_bound `{UnicodeTables} i segs acc k :
  last_known_idx i segs acc = Some k ->
  acc = Some k \/ (i <= k < i + length segs)%nat.
Proof.
  revert i acc. induction segs as [|seg segs IH]; intros i acc; simpl; [auto|].
  intros [Ha|?]%IH; [|right; lia]. destruct (is_known_dir seg); [|auto].
  injection Ha as ->. right; lia.
Qed.

Lemma split_on_app c p n : split_on c (p +:+ String c n) = split_on c p ++ split_on c n.
Proof.
  induction p as [|a p IH].
  - change ("" +:+ String c n) with (String c n). simpl. by rewrite Ascii.eqb_refl.
  - change (String a p +:+ String c n) with (String a (p +:+ String c n)). simpl. rewrite IH.
    destruct (Ascii.eqb a c); [done|].
    destruct (split_on c p) as [|q qs] eqn:Hp; [by apply split_on_nonempty in Hp|done].
Qed.

Lemma split_on_single c n : contains_byte c n = false -> split_on c n = [n].
Proof.
  unfold contains_byte. induction n as [|a n IH]; simpl; [done|].
  intros [Ha Hn]%orb_false_iff. rewrite Ascii.eqb_sym in Ha. by rewrite Ha, IH.
Qed.

Lemma contains_byte_app c p n : contains_byte c (p +:+ String c n) = true.
Proof.
  unfold contains_byte. induction p as [|a p IH].
  - change ("" +:+ String c n) with (String c n). simpl. by rewrite Ascii.eqb_refl.
  - change (String a p +:+ String c n) with (String a (p +:+ String c n)). simpl.
    by rewrite IH, orb_true_r.
Qed.

Lemma after_last_app c p n :
  contains_byte c n = false -> after_last c (p +:+ String c n) = Some n.
Proof.
  intros Hn. unfold after_last. rewrite contains_byte_app, split_on_app, (split_on_single _ _ Hn).
  by rewrite last_snoc.
Qed.

(** Also: a remote names its last path segment, without the suffix [.git] and
    whatever host and owner come before it, so a fork's clone and the upstream
    name the same repository; and what a remote names never contains a slash. *)
Theorem normalize_remote_names_last_segment p n :
  contains_byte "/" n = false ->
  normalize_remote (p +:+ String "/" (n +:+ ".git")) = n /\
  (has_suffix ".git" (p +:+ String "/" n) = false -> normalize_remote (p +:+ String "/" n) = n) /\
  forall remote, contains_byte "/" (normalize_remote remote) = false.
Proof.
  intros Hn. split_and!.
  - unfold normalize_remote.
    assert (Happ : p +:+ String "/" (n +:+ ".git") = (p +:+ String "/" n) +:+ ".git").
    { by rewrite string_app_assoc. }
    rewrite Happ, trim_suffix_app, after_last_app by done.
    destruct (String.eqb_spec ((p +:+ String "/" n) +:+ ".git") ""); [|done].
    by destruct p.
  - intros Hs. unfold normalize_remote. rewrite trim_suffix_none, after_last_app by done.
    destruct (String.eqb_spec (p +:+ String "/" n) ""); [by destruct p|done].
  - intros remote. unfold normalize_remote. destruct (String.eqb remote ""); [done|].
    destruct (after_last _ _) eqn:Hl; [by apply after_last_free in Hl|done].
Qed.

Lemma normalize_remote_witness :
  normalize_remote "https://github.com/fork-owner/sample-app.git" = "sample-app".
Proof.
  exact (proj1 (normalize_remote_names_last_segment "https://github.com/fork-owner" "sample-app"
    eq_refl)).
Defined.
End RepoName.
