(* ===== verification/ProjectName.v ===== *)
(** * [internal/projectname]: one display name per project

    The layered precedence override > consented > remote > path > privacy, the
    independent remote subtitle, and the privacy-label rule. *)
From S2P Require Import Prelude GoText Regex.

Open Scope string_scope.
Open Scope list_scope.
Open Scope Z_scope.

Module ProjectName.

Inductive NameSource : Type :=
| NameSourceOverride
| NameSourceConsented
| NameSourceRemote
| NameSourcePath
| NameSourcePrivacy.

#[export] Instance name_source_eq_dec : EqDecision NameSource.
Proof. solve_decision. Defined.

Record Evidence : Type := mkEvidence {
  ProjectHash : string;
  OverrideName : string;
  ConsentedName : string;
  GitRemote : string;
  ProjectPath : string;
  PrivacyLabel : string
}.

Record Resolved : Type := mkResolved {
  DisplayName : string;
  Source : NameSource;
  RemoteLabel : string
}.

(** [Resolver.Label] may be nil; a labeler answers a label and whether the
    remote was recognizable. *)
Definition RemoteLabeler : Type := string -> string * bool.

Definition nonempty (s : string) : bool := negb (String.eqb s "").

Definition remote_label (label : option RemoteLabeler) (e : Evidence) : string :=
  match label with
  | Some f =>
    if nonempty (GitRemote e) then
      let '(formatted, ok) := f (GitRemote e) in
      if ok && nonempty formatted then formatted else ""
    else ""
  | None => ""
  end.

Definition Resolve (label : option RemoteLabeler) (e : Evidence) : Resolved :=
  let remoteLabel := remote_label label e in
  if nonempty (OverrideName e) then mkResolved (OverrideName e) NameSourceOverride remoteLabel
  else if nonempty (ConsentedName e) then mkResolved (ConsentedName e) NameSourceConsented remoteLabel
  else if nonempty remoteLabel then mkResolved remoteLabel NameSourceRemote remoteLabel
  else if nonempty (ProjectPath e) then mkResolved (ProjectPath e) NameSourcePath remoteLabel
  else if nonempty (PrivacyLabel e) then mkResolved (PrivacyLabel e) NameSourcePrivacy remoteLabel
  else if nonempty (ProjectHash e) then
    let hash := if 12 <? blen (ProjectHash e) then byte_take 12 (ProjectHash e) else ProjectHash e in
    mkResolved ("project-" +:+ hash) NameSourcePrivacy remoteLabel
  else mkResolved "project-unknown" NameSourcePrivacy remoteLabel.

(** [^project-[0-9a-f]{12}$] *)
Definition privacyLabelPattern : regex := seq (rstr "project-") (rrep (RClass cls_hex) 12).
Definition IsPrivacyLabel (projectName : string) : bool := match_full privacyLabelPattern projectName.

(** ** Lemmas *)
Lemma nonempty_true s : nonempty s = true <-> s <> "".
Proof. unfold nonempty. rewrite negb_true_iff. apply String.eqb_neq. Qed.

Lemma nonempty_false s : nonempty s = false <-> s = "".
Proof. unfold nonempty. rewrite negb_false_iff. apply String.eqb_eq. Qed.

(** The tiers of the evidence, in order of precedence. *)
Definition tiers (label : option RemoteLabeler) (e : Evidence) : list (NameSource * string) :=
  [(NameSourceOverride, OverrideName e); (NameSourceConsented, ConsentedName e);
   (NameSourceRemote, remote_label label e); (NameSourcePath, ProjectPath e);
   (NameSourcePrivacy, PrivacyLabel e)].

(** ** Properties *)

(** Also: [Resolve] answers the first non-empty tier in the ratified order, and
    never an empty name; only when every tier is empty does it invent a
    [project-...] label, whose source is the privacy tier. *)
Theorem resolve_precedence label e :
  let r := Resolve label e in
  RemoteLabel r = remote_label label e /\
  DisplayName r <> "" /\
  match find (fun t => nonempty t.2) (tiers label e) with
  | Some (src, name) => Source r = src /\ DisplayName r = name
  | None => Source r = NameSourcePrivacy /\ has_prefix "project-" (DisplayName r) = true
  end.
Proof.
  cbv zeta. unfold Resolve, tiers; simpl.
  destruct (nonempty (OverrideName e)) eqn:?; [simpl; split_and!; auto; by rewrite <- nonempty_true|].
  destruct (nonempty (ConsentedName e)) eqn:?; [simpl; split_and!; auto; by rewrite <- nonempty_true|].
  destruct (nonempty (remote_label label e)) eqn:?; [simpl; split_and!; auto; by rewrite <- nonempty_true|].
  destruct (nonempty (ProjectPath e)) eqn:?; [simpl; split_and!; auto; by rewrite <- nonempty_true|].
  destruct (nonempty (PrivacyLabel e)) eqn:?; [simpl; split_and!; auto; by rewrite <- nonempty_true|].
  destruct (nonempty (ProjectHash e)); simpl; split_and!;
    first [reflexivity|discriminate|apply (has_prefix_app "project-")].
Qed.

(** Also: [IsPrivacyLabel] accepts exactly the texts made of "project-" and twelve
    lowercase hexadecimal digits. *)
Theorem is_privacy_label_spec name :
  IsPrivacyLabel name = true <->
  exists digits, runes name = (bytes "project-" ++ digits)%list /\
    length digits = 12%nat /\ forallb cls_hex digits = true.
Proof.
  unfold IsPrivacyLabel, match_full, privacyLabelPattern, rstr.
  rewrite re_match_spec, seq_correct, matches_seq. split.
  - intros (?&digits&->&->%matches_rstr&[??]%matches_rrep). eauto.
  - intros (digits&->&?&?). exists (bytes "project-"), digits.
    by rewrite matches_rstr, matches_rrep.
Qed.
End ProjectName.
