(* ===== verification/SessionOrigin.v ===== *)
(** * [internal/sessionorigin]: who drove a session

    The closed menu of origins with its fail-closed parser, and the one
    classification rule over a decoded publication payload. The wire contract
    (roles, turns) and the harness wrapper names belong to modules outside the
    repository: a turn is the two fields the rule reads, and the two wrapper
    names are parameters. *)
From S2P Require Import Prelude GoText Regex.

Open Scope string_scope.
Open Scope list_scope.

Module SessionOrigin.

Inductive Origin : Type := User | Agent | Unknown.

#[export] Instance origin_eq_dec : EqDecision Origin.
Proof. solve_decision. Defined.

Definition origin_string (o : Origin) : string :=
  match o with User => "user" | Agent => "agent" | Unknown => "unknown" end.

Definition All : list Origin := [User; Agent; Unknown].

(** [Origin(value).Valid()] on a raw string. *)
Definition Valid (value : string) : bool :=
  existsb (fun o => String.eqb value (origin_string o)) All.

(** [Parse]: the menu member the text names, or the validation error. *)
Definition Parse (value : string) : result string Origin :=
  match find (fun o => String.eqb value (origin_string o)) All with
  | Some o => Ok o
  | None => Err value
  end.

Definition Menu : string := join ", " (origin_string <$> All).

(** The roles [Classify] distinguishes; [RoleOther] is every other wire role
    (system among them). *)
Inductive Role : Type := RoleUser | RoleAssistant | RoleTool | RoleOther.

Record Turn : Type := mkTurn { TurnRole : Role; TurnContent : string }.

Section classify.
Context (WrapperCommandName WrapperCommandMessage : string).

(** The opening tag of either wrapper, with attributes only after whitespace. *)
Definition commandInvocationPrefix : regex :=
  seq (rstr "<")
    (seq (RAlt (rstr WrapperCommandName) (rstr WrapperCommandMessage))
      (seq (ropt (RSeq (RClass cls_space) (RStar (RClass (fun c => negb (Z.eqb c 62))))))
        (rstr ">"))).

Definition isCommandInvocation (content : string) : bool :=
  match_start commandInvocationPrefix (trim_space content).

(** The loop over the turns, carrying [work]. *)
Fixpoint classify_turns (work : bool) (turns : list Turn) : Origin :=
  match turns with
  | [] => if work then Agent else Unknown
  | turn :: rest =>
    if isCommandInvocation (TurnContent turn) then User
    else
      match TurnRole turn with
      | RoleUser =>
        if negb (String.eqb (trim_space (TurnContent turn)) "") then User
        else classify_turns work rest
      | RoleAssistant | RoleTool => classify_turns true rest
      | RoleOther => classify_turns work rest
      end
  end.

(** A nil payload is [Unknown]. *)
Definition Classify (payload : option (list Turn)) : Origin :=
  match payload with
  | None => Unknown
  | Some turns => classify_turns false turns
  end.

(** ** The rule, stated over the whole payload *)
Definition human_turn (t : Turn) : bool :=
  isCommandInvocation (TurnContent t) ||
  (match TurnRole t with RoleUser => true | _ => false end &&
   negb (String.eqb (trim_space (TurnContent t)) "")).
Definition work_turn (t : Turn) : bool :=
  match TurnRole t with RoleAssistant | RoleTool => true | _ => false end.

Definition classify_spec (turns : list Turn) : Origin :=
  if existsb human_turn turns then User
  else if existsb work_turn turns then Agent
  else Unknown.

Lemma classify_turns_spec work turns :
  classify_turns work turns =
  if existsb human_turn turns then User
  else if work || existsb work_turn turns then Agent else Unknown.
Proof.
  revert work. induction turns as [|t turns IH]; intros work; simpl.
  - by rewrite orb_false_r.
  - unfold human_turn at 1, work_turn at 1.
    destruct (isCommandInvocation _); simpl; [done|].
    destruct (TurnRole t); simpl; rewrite ?IH, ?orb_true_r; try done.
    by destruct (negb _).
Qed.

(** ** Properties *)

(** Also: the single pass classifies by the stated rule: a human turn anywhere
    makes the session [User]; otherwise assistant or tool work makes it
    [Agent]; otherwise, and for a nil payload, it is [Unknown]. *)
Theorem classify_correct payload :
  Classify payload =
  match payload with None => Unknown | Some turns => classify_spec turns end.
Proof.
  destruct payload as [turns|]; [|done]. apply (classify_turns_spec false).
Qed.

(** Also: the classification does not depend on the order of the turns, and
    a session is [Agent] exactly when work happened and nobody typed. *)
Theorem classify_order_insensitive turns turns' :
  turns ≡ₚ turns' ->
  Classify (Some turns) = Classify (Some turns') /\
  (Classify (Some turns) = Agent <->
   (exists t, t ∈ turns /\ work_turn t = true) /\
   forall t, t ∈ turns -> human_turn t = false).
Proof.
  intros Hp. unfold Classify. rewrite !classify_turns_spec, !orb_false_l.
  assert (Hex : forall f (l l' : list Turn), l ≡ₚ l' -> existsb f l = existsb f l').
  { intros f l l'. induction 1; simpl; [done|congruence| |congruence].
    by rewrite !orb_assoc, (orb_comm (f y)). }
  split; [by rewrite !(Hex _ _ _ Hp)|].
  destruct (existsb human_turn turns) eqn:Hh.
  - split; [done|]. intros [_ Hno]. apply existsb_exists in Hh as (t&?%list_elem_of_In&Ht).
    rewrite Hno in Ht; done.
  - assert (Hno : forall t, t ∈ turns -> human_turn t = false).
    { intros t Ht. destruct (human_turn t) eqn:?; [|done].
      enough (existsb human_turn turns = true) by congruence.
      apply existsb_exists. exists t. by rewrite list_elem_of_In in Ht. }
    destruct (existsb work_turn turns) eqn:Hw; split; try done.
    + intros _. split; [|done]. apply existsb_exists in Hw as (t&?%list_elem_of_In&?). eauto.
    + intros [(t&Ht&Hwt) _].
      enough (existsb work_turn turns = true) by congruence.
      apply existsb_exists. exists t. by rewrite list_elem_of_In in Ht.
Qed.
End classify.

(** Also: [Parse] accepts exactly the three menu texts and inverts [String]; any
    other text is refused with no value substituted. *)
Theorem parse_roundtrip value o :
  (Parse value = Ok o <-> value = origin_string o) /\
  (Valid value = is_ok (Parse value)).
Proof.
  unfold Parse, Valid, All. simpl.
  destruct (String.eqb_spec value "user") as [->|?]; simpl.
  { split; [|done]. destruct o; simpl; split; congruence. }
  destruct (String.eqb_spec value "agent") as [->|?]; simpl.
  { split; [|done]. destruct o; simpl; split; congruence. }
  destruct (String.eqb_spec value "unknown") as [->|?]; simpl.
  { split; [|done]. destruct o; simpl; split; congruence. }
  split; [|done]. destruct o; simpl; split; congruence.
Qed.
End SessionOrigin.
