(* ===== verification/PromptAttach.v ===== *)
(** * [internal/promptattach]: the attachment state machine

    The closed menu of attachment states, the closed transition table, the
    check modes, and [Transition], the one function that changes a stored
    state. [Transition] is written against [Querier], the interface the Go code
    declares; the laws of the two statements behind it are a class of their own
    ([QuerierLaws]), and the SQL statements over a table with concurrent writers
    are an instance. *)
From S2P Require Import Prelude GoText.

Open Scope string_scope.
Open Scope list_scope.
Open Scope Z_scope.

Module PromptAttach.

(** ** The state menu *)
Inductive State : Type := Requested | Waiting | Preview | Attached | Detached.

#[export] Instance state_eq_dec : EqDecision State.
Proof. solve_decision. Defined.

Definition All : list State := [Requested; Waiting; Preview; Attached; Detached].

Definition state_string (s : State) : string :=
  match s with
  | Requested => "requested" | Waiting => "waiting" | Preview => "preview"
  | Attached => "attached" | Detached => "detached"
  end.

(** The menu member a stored text names, if it names one. *)
Definition state_of (value : string) : option State :=
  find (fun s => String.eqb value (state_string s)) All.

(** [State(value).Valid()]. *)
Definition Valid (value : string) : bool := is_ok (match state_of value with
  | Some s => Ok s | None => @Err string State value end).

(** [Parse], and [Validate] with it: the member, or the refused text. *)
Definition Parse (value : string) : result string State :=
  match state_of value with
  | Some s => Ok s
  | None => Err value
  end.

Definition Menu : string := join ", " (state_string <$> All).

(** ** The transition table *)
Definition allowedTransitions (from : State) : list State :=
  match from with
  | Requested => [Attached; Preview; Waiting]
  | Waiting => [Attached; Preview; Detached]
  | Preview => [Attached; Detached]
  | Attached => [Attached; Detached]
  | Detached => [Attached; Preview; Waiting]
  end.

(** A text outside the menu permits nothing, as a source or as a target. *)
Definition CanTransition (from to : string) : bool :=
  match state_of from with
  | None => false
  | Some f => existsb (fun t => String.eqb to (state_string t)) (allowedTransitions f)
  end.

(** The legal targets in menu order, for a refusal message. *)
Definition allowedFrom (from : State) : string :=
  let names := state_string <$>
    List.filter (fun c => bool_decide (c ∈ allowedTransitions from)) All in
  match names with [] => "none" | _ => join ", " names end.

(** ** The check mode menu *)
Inductive CheckMode : Type := Informational | Required.

#[export] Instance check_mode_eq_dec : EqDecision CheckMode.
Proof. solve_decision. Defined.

Definition AllCheckModes : list CheckMode := [Informational; Required].
Definition check_mode_string (m : CheckMode) : string :=
  match m with Informational => "informational" | Required => "required" end.
Definition check_mode_of (value : string) : option CheckMode :=
  find (fun m => String.eqb value (check_mode_string m)) AllCheckModes.
Definition CheckModeValid (value : string) : bool :=
  match check_mode_of value with Some _ => true | None => false end.
Definition CheckModeMenu : string := join ", " (check_mode_string <$> AllCheckModes).

(** ** The stored row *)
Record Row : Type := mkRow {
  ID : Z;
  GroupID : option Z;
  RepoOwner : string;
  RepoName : string;
  GithubRepoID : Z;
  Number : Z;
  HeadSha : string;
  BaseRemote : string;
  HeadRemote : string;
  AuthorID : Z;
  RequesterGithubID : option Z;
  RowState : string;
  CommentID : option Z;
  CheckRunID : option Z;
  RequestedAt : option Z;
  WaitingAt : option Z;
  PreviewAt : option Z;
  AttachedAt : option Z;
  DetachedAt : option Z;
  (** the digest column's bytes, empty when it is NULL *)
  StoredDigest : string;
  CreatedAt : Z;
  UpdatedAt : Z
}.

Definition row_with_state (r : Row) (state : string) (now : Z) : Row :=
  {| ID := ID r; GroupID := GroupID r; RepoOwner := RepoOwner r; RepoName := RepoName r;
     GithubRepoID := GithubRepoID r; Number := Number r; HeadSha := HeadSha r;
     BaseRemote := BaseRemote r; HeadRemote := HeadRemote r; AuthorID := AuthorID r;
     RequesterGithubID := RequesterGithubID r; RowState := state;
     CommentID := CommentID r; CheckRunID := CheckRunID r;
     RequestedAt := if String.eqb state "requested" then Some now else RequestedAt r;
     WaitingAt := if String.eqb state "waiting" then Some now else WaitingAt r;
     PreviewAt := if String.eqb state "preview" then Some now else PreviewAt r;
     AttachedAt := if String.eqb state "attached" then Some now else AttachedAt r;
     DetachedAt := if String.eqb state "detached" then Some now else DetachedAt r;
     StoredDigest := StoredDigest r; CreatedAt := CreatedAt r; UpdatedAt := now |}.

(** ** [Querier] and [Transition] *)
Inductive QueryError : Type := NoRows | QueryFailed.

(** The two methods of the Go interface, over a world [W]. *)
Class Querier (W : Type) : Type := {
  GetPullRequestAttachment : Z -> M W QueryError Row;
  (** new state, id, expected state *)
  UpdatePullRequestAttachmentState : string -> Z -> string -> M W QueryError Row
}.

Inductive TransitionError : Type :=
| EInvalidState (value : string)   (** outside the menu: supplied or stored *)
| ENotFound
| EReadFailed
| ETransitionNotAllowed (from to : State)
| EStaleState (from to : State)
| EUpdateFailed.

Definition Transition {W} `{Querier W} (id : Z) (next : string) : M W TransitionError Row :=
  to ← match Parse next with Ok s => mret s | Err v => throw (EInvalidState v) end;
  current ← attempt (GetPullRequestAttachment id);
  match current with
  | Err NoRows => throw ENotFound
  | Err QueryFailed => throw EReadFailed
  | Ok row =>
    from ← match Parse (RowState row) with Ok s => mret s | Err v => throw (EInvalidState v) end;
    if CanTransition (state_string from) next then
      updated ← attempt (UpdatePullRequestAttachmentState next id (state_string from));
      match updated with
      | Ok row' => mret row'
      | Err NoRows => throw (EStaleState from to)
      | Err QueryFailed => throw EUpdateFailed
      end
    else throw (ETransitionNotAllowed from to)
  end.

(** What the statements promise, through an abstraction of the world to the
    stored state of an attachment. A read changes nothing. A conditional update
    that answers a row found the expected state and wrote the new one, and
    touched no other attachment; one that does not answer a row wrote nothing.
    [quiet] relates worlds that differ by other writers only. *)
Class QuerierLaws (W : Type) `{Querier W} (stored : W -> Z -> option string)
    (others : W -> W -> Prop) : Prop := {
  get_frame : forall id w, others w (GetPullRequestAttachment id w).2;
  update_ok : forall new id expected w row w',
    UpdatePullRequestAttachmentState new id expected w = (Ok row, w') ->
    RowState row = new /\
    exists w0, others w w0 /\ stored w0 id = Some expected /\ stored w' id = Some new /\
      forall id', id' <> id -> stored w' id' = stored w0 id';
  update_err : forall new id expected w e w',
    UpdatePullRequestAttachmentState new id expected w = (Err e, w') -> others w w'
}.

(** ** The SQL statements with concurrent writers

    The world is the table and what other transactions will do to it before
    each of our statements runs: a script of table transformers, each paired
    with whether our statement then fails at the connection. *)
Record World : Type := mkWorld {
  table : gmap Z Row;
  clock : Z;
  script : list ((gmap Z Row -> gmap Z Row) * bool)
}.

(** Run the next scripted interference; the flag says our statement fails. *)
Definition interfere (w : World) : World * bool :=
  match script w with
  | [] => (w, false)
  | (f, broken) :: rest =>
    ({| table := f (table w); clock := clock w; script := rest |}, broken)
  end.

Definition sql_get (id : Z) : M World QueryError Row := fun w =>
  let '(w1, broken) := interfere w in
  if broken : bool then (Err QueryFailed, w1)
  else match table w1 !! id with
       | Some row => (Ok row, w1)
       | None => (Err NoRows, w1)
       end.

(** UPDATE ... WHERE id = $id AND state = $expected RETURNING * *)
Definition sql_update (new : string) (id : Z) (expected : string) : M World QueryError Row := fun w =>
  let '(w1, broken) := interfere w in
  if broken : bool then (Err QueryFailed, w1)
  else match table w1 !! id with
       | Some row =>
         if String.eqb (RowState row) expected then
           let row' := row_with_state row new (clock w1) in
           (Ok row', {| table := <[id := row']> (table w1); clock := clock w1; script := script w1 |})
         else (Err NoRows, w1)
       | None => (Err NoRows, w1)
       end.

#[export] Instance sql_querier : Querier World := {|
  GetPullRequestAttachment := sql_get;
  UpdatePullRequestAttachmentState := sql_update
|}.

Definition stored_state (w : World) (id : Z) : option string := RowState <$> table w !! id.

(** Worlds reached by other writers' scripted steps alone. *)
Inductive others_step : World -> World -> Prop :=
| others_none w : script w = [] -> others_step w w
| others_run w w' broken : interfere w = (w', broken) -> others_step w w'.

Lemma interfere_others w : others_step w (interfere w).1.
Proof. destruct (interfere w) eqn:Hi. by eapply others_run. Qed.

#[export] Instance sql_querier_laws : QuerierLaws World stored_state others_step.
Proof.
  split.
  - intros id w. simpl. unfold sql_get. pose proof (interfere_others w).
    destruct (interfere w) as [w1 []]; [done|]. by destruct (table w1 !! id).
  - intros new id expected w row w'. simpl. unfold sql_update, stored_state.
    pose proof (interfere_others w) as Ho. destruct (interfere w) as [w1 []]; [done|].
    destruct (table w1 !! id) as [r|] eqn:Hr; [|done].
    destruct (String.eqb_spec (RowState r) expected) as [He|]; [|done].
    intros [= <- <-]. split; [done|]. exists w1. simpl.
    rewrite Hr, lookup_insert_eq. simpl. split_and!; [done|by rewrite He|done|].
    intros id' ?. by rewrite lookup_insert_ne.
  - intros new id expected w e w'. simpl. unfold sql_update.
    pose proof (interfere_others w) as Ho. destruct (interfere w) as [w1 []].
    { by intros [= <- <-]. }
    destruct (table w1 !! id); [|by intros [= <- <-]].
    destruct (String.eqb _ _); [done|by intros [= <- <-]].
Qed.

(** ** Lemmas on the menu and the table *)
Lemma state_of_string s : state_of (state_string s) = Some s.
Proof. by destruct s. Qed.

Lemma state_of_Some value s : state_of value = Some s <-> value = state_string s.
Proof.
  split; [|intros ->; apply state_of_string].
  unfold state_of. intros [_ Hs]%find_some. by apply String.eqb_eq.
Qed.

Lemma Parse_Ok value s : Parse value = Ok s <-> value = state_string s.
Proof.
  unfold Parse. rewrite <- state_of_Some. destruct (state_of value); naive_solver.
Qed.

Lemma CanTransition_spec from to :
  CanTransition from to = true <->
  exists f t, from = state_string f /\ to = state_string t /\ t ∈ allowedTransitions f.
Proof.
  unfold CanTransition. split.
  - destruct (state_of from) as [f|] eqn:Hf; [|done].
    intros (t&Ht&->%String.eqb_eq)%existsb_exists. exists f, t.
    by rewrite <- state_of_Some, list_elem_of_In.
  - intros (f&t&->&->&Ht). rewrite state_of_string. apply existsb_exists.
    exists t. by rewrite String.eqb_refl, <- list_elem_of_In.
Qed.

(** What a successful run of [Transition] went through. *)
Lemma Transition_ok_inv {W} `{Querier W} id next (w w' : W) row :
  Transition id next w = (Ok row, w') ->
  exists from to cur w1,
    GetPullRequestAttachment id w = (Ok cur, w1) /\
    RowState cur = state_string from /\ next = state_string to /\
    CanTransition (state_string from) next = true /\
    UpdatePullRequestAttachmentState next id (state_string from) w1 = (Ok row, w').
Proof.
  unfold Transition. rewrite M_bind_unfold.
  destruct (Parse next) as [to|] eqn:Hto; [|done]. apply Parse_Ok in Hto.
  simpl. rewrite M_bind_unfold. unfold attempt.
  destruct (GetPullRequestAttachment id w) as [[cur|[]] w1] eqn:Hget; try done.
  rewrite M_bind_unfold. destruct (Parse (RowState cur)) as [from|] eqn:Hfrom; [|done].
  apply Parse_Ok in Hfrom. simpl.
  destruct (CanTransition _ _) eqn:Hcan; [|done].
  rewrite M_bind_unfold.
  destruct (UpdatePullRequestAttachmentState _ _ _ w1) as [[row'|[]] w2] eqn:Hup; try done.
  intros [= -> ->]. exists from, to, cur, w1. by split_and!.
Qed.

(** Moves of the stored state that the table allows. *)
Definition move (s t : State) : Prop := CanTransition (state_string s) (state_string t) = true.

Lemma move_spec s t : move s t <-> t ∈ allowedTransitions s.
Proof.
  unfold move. rewrite CanTransition_spec. split.
  - intros (f&t'&Hf&Ht&?). destruct s, f, t, t'; done.
  - intros ?. by exists s, t.
Qed.

#[export] Instance move_dec s t : Decision (move s t).
Proof. unfold move. apply _. Defined.

Lemma move_to_not_requested s : ~ move s Requested.
Proof. by destruct s. Qed.

(** ** Properties *)

(** C28: over any database that keeps the two statements' promises, with any
    concurrent writers, a transition that answers a row moved that attachment,
    and no other, along an edge of the closed table: the state it replaced is
    the one the update found, and the row it answers holds the new state. *)
Theorem transition_safe {W} `{HQ : Querier W} stored others
    `{HL : !QuerierLaws W stored others} id next (w w' : W) row :
  Transition id next w = (Ok row, w') ->
  RowState row = next /\
  exists from to w1 w2,
    others w w1 /\ others w1 w2 /\
    next = state_string to /\ move from to /\
    stored w2 id = Some (state_string from) /\ stored w' id = Some next /\
    forall id', id' <> id -> stored w' id' = stored w2 id'.
Proof.
  intros (from&to&cur&w1&Hget&_&->&Hcan&Hup)%Transition_ok_inv.
  pose proof (get_frame id w) as Hframe. rewrite Hget in Hframe. simpl in Hframe.
  destruct (update_ok _ _ _ _ _ _ Hup) as [Hrow (w2&Ho&Hs&Hs'&Hrest)].
  split; [done|]. by exists from, to, w1, w2.
Qed.

(** Also: a transition that fails, for whatever reason, wrote nothing: the world
    it leaves is one the other writers alone reached. *)
Theorem transition_error_writes_nothing {W} `{HQ : Querier W} stored others
    `{HL : !QuerierLaws W stored others} id next (w w' : W) e :
  Transition id next w = (Err e, w') -> rtc others w w'.
Proof.
  unfold Transition. rewrite M_bind_unfold.
  destruct (Parse next) as [to|]; [|intros [= _ <-]; apply rtc_refl].
  simpl. rewrite M_bind_unfold. unfold attempt.
  pose proof (get_frame id w) as Hframe.
  destruct (GetPullRequestAttachment id w) as [[cur|[]] w1]; simpl in Hframe;
    try (intros [= _ <-]; by apply rtc_once).
  rewrite M_bind_unfold.
  destruct (Parse (RowState cur)) as [from|]; [|intros [= _ <-]; by apply rtc_once].
  simpl. destruct (CanTransition _ _); [|intros [= _ <-]; by apply rtc_once].
  rewrite M_bind_unfold.
  destruct (UpdatePullRequestAttachmentState _ _ _ w1) as [[row'|e'] w2] eqn:Hup; [done|].
  apply update_err in Hup. destruct e'; intros [= _ <-]; eauto using rtc_l, rtc_once.
Qed.

(** Also: with no concurrent writer and no failing statement the outcome is
    decided by the table alone: the row is stamped and moved when the edge is
    listed, refused with the two states when it is not, and the table is the
    only thing that changed. *)
Theorem transition_sql_decides (tbl : gmap Z Row) (now id : Z) (row : Row) (from to : State) :
  tbl !! id = Some row -> RowState row = state_string from ->
  Transition id (state_string to) {| table := tbl; clock := now; script := [] |} =
  if CanTransition (state_string from) (state_string to) then
    (Ok (row_with_state row (state_string to) now),
     {| table := <[id := row_with_state row (state_string to) now]> tbl;
        clock := now; script := [] |})
  else (Err (ETransitionNotAllowed from to), {| table := tbl; clock := now; script := [] |}).
Proof.
  intros Hrow Hfrom. unfold Transition. rewrite M_bind_unfold.
  unfold Parse at 1. rewrite state_of_string. simpl. rewrite M_bind_unfold.
  unfold attempt; simpl. unfold sql_get; simpl. rewrite Hrow. rewrite M_bind_unfold.
  unfold Parse. rewrite Hfrom, state_of_string. simpl.
  destruct (CanTransition _ _); [|done]. rewrite M_bind_unfold; simpl.
  unfold sql_update; simpl. by rewrite Hrow, Hfrom, String.eqb_refl.
Qed.

(** Also: the machine's reachable states: nothing ever returns to requested, every
    state can still be attached, and a detached attachment can be re-entered,
    so a detach is never final and a request is asked only once. *)
Theorem machine_reachability s t :
  rtc move s t ->
  (t = Requested -> s = Requested) /\ move t Attached /\ rtc move t Detached.
Proof.
  intros Hr. split_and!.
  - intros ->. apply rtc_inv_r in Hr as [?|(u&_&?%move_to_not_requested)]; done.
  - by destruct t.
  - destruct (decide (t = Detached)) as [->|?]; [done|].
    apply (rtc_l _ _ Attached); [by destruct t|]. by apply rtc_once.
Qed.

(** ** Witnesses *)
Definition sample_row : Row :=
  mkRow 7 (Some 1) "acme" "app" 42 3 "abc" "acme/app" "acme/app" 5 None "waiting"
    None None (Some 10) (Some 20) None None None "" 10 20.

(** A world where another writer detaches a different attachment in between. *)
Definition sample_world : World :=
  {| table := <[7 := sample_row]> (<[8 := row_with_state sample_row "preview" 1]> ∅);
     clock := 99;
     script := [(fun t => t, false);
                (fun t => <[8 := row_with_state sample_row "detached" 2]> t, false)] |}.

Lemma transition_safe_witness :
  exists row w', RowState row = "attached" /\ stored_state w' 7 = Some "attached".
Proof.
  destruct (Transition 7 "attached" sample_world) as [[row|e] w'] eqn:Ht.
  - exists row, w'.
    pose proof (transition_safe stored_state others_step 7 "attached" sample_world w' row Ht)
      as [Hrow (from&to&w1&w2&_&_&_&_&_&Hs&_)].
    split; [exact Hrow|exact Hs].
  - exfalso. revert Ht. vm_compute. discriminate.
Defined.

Lemma transition_error_witness :
  exists w', rtc others_step sample_world w'.
Proof.
  destruct (Transition 7 "requested" sample_world) as [[row|e] w'] eqn:Ht.
  - exfalso. revert Ht. vm_compute. discriminate.
  - exists w'.
    exact (transition_error_writes_nothing stored_state others_step 7 "requested" sample_world w' e Ht).
Defined.

Lemma transition_sql_decides_witness :
  Transition 7 "preview" {| table := {[7 := sample_row]}; clock := 99; script := [] |} =
  (Ok (row_with_state sample_row "preview" 99),
   {| table := <[7 := row_with_state sample_row "preview" 99]> {[7 := sample_row]};
      clock := 99; script := [] |}).
Proof.
  exact (transition_sql_decides {[7 := sample_row]} 99 7 sample_row Waiting Preview
    eq_refl eq_refl).
Defined.

Lemma machine_reachability_witness :
  rtc move Requested Attached /\ move Attached Attached.
Proof.
  assert (H : rtc move Requested Attached) by (apply rtc_once; vm_compute; reflexivity).
  split; [exact H|]. exact (proj1 (proj2 (machine_reachability Requested Attached H))).
Defined.
End PromptAttach.
