(* ===== verification/Matcher.v ===== *)
(** * [internal/matcher]: which transcripts belong to a pull request

    The permissive discovery gate (the stored remote names the repository), the
    strict acceptance rule (a recorded commit resolves into the pull request's
    commits), the ordering of the accepted transcripts, and the command
    authorization policy of [actor.go]. Instants are nanoseconds since Go's zero
    time, so [IsZero] is equality with 0 and [Before] is [<]. *)
From S2P Require Import Prelude GoText RepoName.

Open Scope string_scope.
Open Scope list_scope.
Open Scope Z_scope.

Module Matcher.

Definition minSHALength : Z := 7.

Record RecordedCommit : Type := mkRecordedCommit {
  SHA : string;
  AuthoredAt : Z;
  Additions : option Z;
  Deletions : option Z;
  FilesChanged : option Z
}.

Record Transcript : Type := mkTranscript {
  TranscriptID : string;
  ProjectName : string;
  GitRemote : string;
  GitBranch : string;
  SessionStart : Z;
  Commits : list RecordedCommit
}.

(** [PullCommit] carries one field, the SHA. *)
Record PullRequest : Type := mkPullRequest {
  BaseRepo : string;
  HeadRepo : string;
  HeadRef : string;
  IsFork : bool;
  CommitSetComplete : bool;
  PullCommits : list string
}.

Record Anchor : Type := mkAnchor {
  AnchorTranscript : string;
  AnchorSHA : string;
  AnchorAt : Z;
  AnchorAdditions : option Z;
  AnchorDeletions : option Z;
  AnchorFiles : option Z
}.

Inductive UnresolvedReason : Type :=
| ReasonTooShort | ReasonNotInPullRequest | ReasonAmbiguous | ReasonIncomplete.

#[export] Instance unresolved_reason_eq_dec : EqDecision UnresolvedReason.
Proof. solve_decision. Defined.

Record UnresolvedCommit : Type := mkUnresolvedCommit {
  RecordedSHA : string;
  Reason : UnresolvedReason
}.

Record AcceptedTranscript : Type := mkAccepted {
  AcceptedID : string;
  AcceptedStart : Z;
  Anchors : list Anchor;
  AcceptedUnresolved : list UnresolvedCommit
}.

Record UnresolvedCandidate : Type := mkUnresolvedCandidate {
  CandidateID : string;
  BranchMatched : bool;
  CandidateUnresolved : list UnresolvedCommit
}.

Record Result : Type := mkResult {
  Accepted : list AcceptedTranscript;
  Unresolved : list UnresolvedCandidate
}.

(** ** Commands and their authorization ([actor.go]) *)
Inductive Command : Type := CommandAttach | CommandDetach.

Definition command_string (c : Command) : string :=
  match c with CommandAttach => "attach" | CommandDetach => "detach" end.

Definition commandName : string := "/peasant".

Inductive Action : Type := ActionIgnore | ActionProceed | ActionRequest.

#[export] Instance command_eq_dec : EqDecision Command.
Proof. solve_decision. Defined.
#[export] Instance action_eq_dec : EqDecision Action.
Proof. solve_decision. Defined.

(** [Command(c).Valid()] on a raw text. *)
Definition command_of (value : string) : option Command :=
  find (fun c => String.eqb value (command_string c)) [CommandAttach; CommandDetach].

Record Actor : Type := mkActor {
  SenderResolved : bool;
  SenderGitHubID : Z;
  PullRequestAuthorGitHubID : Z;
  AuthorAssociation : string
}.

Definition isAuthor (actor : Actor) : bool :=
  (0 <? SenderGitHubID actor) && (SenderGitHubID actor =? PullRequestAuthorGitHubID actor).

Section actor.
Context `{UnicodeTables}.

Definition ParseCommand (body : string) : option Command :=
  match fields body with
  | f0 :: f1 :: _ =>
    if equal_fold f0 commandName then
      let word := to_lower f1 in
      if String.eqb word (command_string CommandAttach) then Some CommandAttach
      else if String.eqb word (command_string CommandDetach) then Some CommandDetach
      else None
    else None
  | _ => None
  end.

Definition hasRepositoryStanding (association : string) : bool :=
  let word := to_upper (trim_space association) in
  existsb (String.eqb word) ["OWNER"; "MEMBER"; "COLLABORATOR"].

(** The command arrives as a raw text. *)
Definition Authorize (actor : Actor) (command : string) : Action :=
  match command_of command with
  | None => ActionIgnore
  | Some cmd =>
    if negb (SenderResolved actor) || (SenderGitHubID actor <=? 0) then ActionIgnore
    else if isAuthor actor then ActionProceed
    else if bool_decide (cmd = CommandAttach) && hasRepositoryStanding (AuthorAssociation actor)
    then ActionRequest
    else ActionIgnore
  end.
End actor.

Section unicode.
Context `{UnicodeTables}.

Definition namesPullRequestRepository (pr : PullRequest) (candidate : Transcript) : bool :=
  let name := RepoName.normalize_remote (GitRemote candidate) in
  if String.eqb name "" then false
  else if equal_fold name (BaseRepo pr) then true
  else IsFork pr && negb (String.eqb (HeadRepo pr) "") && equal_fold name (HeadRepo pr).

Definition branchMatches (pr : PullRequest) (candidate : Transcript) : bool :=
  negb (String.eqb (GitBranch candidate) "") && negb (String.eqb (HeadRef pr) "") &&
  String.eqb (GitBranch candidate) (HeadRef pr).

(** The commits keyed by their trimmed, lowercased SHA; a later duplicate key
    overwrites an earlier one. *)
Definition indexCommits (commits : list string) : gmap string string :=
  foldl (fun index sha => <[to_lower (trim_space sha) := sha]> index) ∅ commits.

(** The scan for an abbreviation: ambiguous as soon as a second commit carries
    the prefix. *)
Fixpoint scan_prefix (sha : string) (commits : list string) (found : option string) :
    result UnresolvedReason string :=
  match commits with
  | [] => match found with Some c => Ok c | None => Err ReasonNotInPullRequest end
  | c :: rest =>
    if has_prefix sha (to_lower c) then
      match found with
      | Some _ => Err ReasonAmbiguous
      | None => scan_prefix sha rest (Some c)
      end
    else scan_prefix sha rest found
  end.

Definition resolveCommit (recorded : string) (commits : list string)
    (index : gmap string string) (complete : bool) : result UnresolvedReason string :=
  let sha := to_lower (trim_space recorded) in
  if blen sha <? minSHALength then Err ReasonTooShort
  else
    match index !! sha with
    | Some commit => Ok commit
    | None =>
      if negb complete then Err ReasonIncomplete
      else scan_prefix sha commits None
    end.

(** The loop state of [resolveRecordedCommits]: the anchors in order, with
    [byResolved] giving each resolved SHA its position, and the unresolved
    commits in order. *)
Definition set_anchor_time (a : Anchor) (at_ : Z) : Anchor :=
  mkAnchor (AnchorTranscript a) (AnchorSHA a) at_ (AnchorAdditions a) (AnchorDeletions a) (AnchorFiles a).

Definition resolve_step (candidate : Transcript) (commits : list string)
    (index : gmap string string) (complete : bool)
    (st : list Anchor * list UnresolvedCommit * gmap string nat) (recorded : RecordedCommit) :
    list Anchor * list UnresolvedCommit * gmap string nat :=
  let '(anchors, unresolved, byResolved) := st in
  match resolveCommit (SHA recorded) commits index complete with
  | Err reason => (anchors, unresolved ++ [mkUnresolvedCommit (SHA recorded) reason], byResolved)
  | Ok commit =>
    match byResolved !! commit with
    | Some i =>
      match anchors !! i with
      | Some a =>
        if AuthoredAt recorded <? AnchorAt a
        then (<[i := set_anchor_time a (AuthoredAt recorded)]> anchors, unresolved, byResolved)
        else st
      | None => st
      end
    | None =>
      let anchor := mkAnchor (TranscriptID candidate) commit (AuthoredAt recorded)
        (Additions recorded) (Deletions recorded) (FilesChanged recorded) in
      (anchors ++ [anchor], unresolved, <[commit := length anchors]> byResolved)
    end
  end.

Definition resolveRecordedCommits (candidate : Transcript) (commits : list string)
    (index : gmap string string) (complete : bool) : list Anchor * list UnresolvedCommit :=
  (foldl (resolve_step candidate commits index complete) ([], [], ∅) (Commits candidate)).1.

Definition session_less (a b : AcceptedTranscript) : bool :=
  let left := AcceptedStart a in
  let right := AcceptedStart b in
  if negb (Bool.eqb (left =? 0) (right =? 0)) then negb (left =? 0)
  else left <? right.

Definition sortAcceptedBySessionStart (accepted : list AcceptedTranscript) :
    list AcceptedTranscript := sort_stable session_less accepted.

(** One candidate's contribution to the result. *)
Definition match_step (pr : PullRequest) (commits : gmap string string)
    (acc : Result) (candidate : Transcript) : Result :=
  if negb (namesPullRequestRepository pr candidate) then acc
  else
    let '(anchors, unresolved) :=
      resolveRecordedCommits candidate (PullCommits pr) commits (CommitSetComplete pr) in
    match anchors with
    | [] => mkResult (Accepted acc) (Unresolved acc ++
        [mkUnresolvedCandidate (TranscriptID candidate) (branchMatches pr candidate) unresolved])
    | _ => mkResult (Accepted acc ++
        [mkAccepted (TranscriptID candidate) (SessionStart candidate) anchors unresolved])
        (Unresolved acc)
    end.

Definition Match (pr : PullRequest) (candidates : list Transcript) : Result :=
  let commits := indexCommits (PullCommits pr) in
  let r := foldl (match_step pr commits) (mkResult [] []) candidates in
  mkResult (sortAcceptedBySessionStart (Accepted r)) (Unresolved r).

(** ** Specifications *)

(** The commits of the pull request an abbreviation prefixes. *)
Definition prefixed (sha : string) (commits : list string) : list string :=
  List.filter (fun c => has_prefix sha (to_lower c)) commits.

(** What [scan_prefix] decides, in terms of how many commits carry the prefix. *)
Definition unique_prefix (sha : string) (commits : list string) : result UnresolvedReason string :=
  match prefixed sha commits with
  | [] => Err ReasonNotInPullRequest
  | [c] => Ok c
  | _ => Err ReasonAmbiguous
  end.

(** The recorded commit resolves to [c] in the pull request. *)
Definition resolves (pr : PullRequest) (recorded : RecordedCommit) (c : string) : Prop :=
  resolveCommit (SHA recorded) (PullCommits pr) (indexCommits (PullCommits pr))
    (CommitSetComplete pr) = Ok c.

(** ** Lemmas on resolution *)
Lemma scan_prefix_spec sha commits found :
  scan_prefix sha commits found =
  match found with
  | None => unique_prefix sha commits
  | Some c => match prefixed sha commits with [] => Ok c | _ => Err ReasonAmbiguous end
  end.
Proof.
  revert found. induction commits as [|c commits IH]; intros found; simpl.
  - by destruct found.
  - unfold unique_prefix, prefixed in *. simpl.
    destruct (has_prefix sha (to_lower c)); simpl; [|by rewrite IH; destruct found].
    destruct found; [done|]. rewrite IH. by destruct (List.filter _ commits).
Qed.

Lemma foldl_index_lookup commits (index : gmap string string) sha c :
  foldl (fun index sha => <[to_lower (trim_space sha) := sha]> index) index commits !! sha = Some c ->
  index !! sha = Some c \/ (c ∈ commits /\ to_lower (trim_space c) = sha).
Proof.
  revert index. induction commits as [|d commits IH]; intros index; simpl; [auto|].
  intros [Hl|[??]]%IH; [|right; split; [set_solver|done]].
  rewrite lookup_insert in Hl. case_decide; simplify_eq; [right; split; [set_solver|done]|auto].
Qed.

Lemma foldl_index_None commits (index : gmap string string) sha :
  foldl (fun index sha => <[to_lower (trim_space sha) := sha]> index) index commits !! sha = None <->
  index !! sha = None /\ forall c, c ∈ commits -> to_lower (trim_space c) <> sha.
Proof.
  revert index. induction commits as [|d commits IH]; intros index; simpl; [set_solver|].
  rewrite IH, lookup_insert_None. set_solver.
Qed.

Lemma indexCommits_Some commits sha c :
  indexCommits commits !! sha = Some c -> c ∈ commits /\ to_lower (trim_space c) = sha.
Proof. by intros [?%lookup_empty_Some|?]%foldl_index_lookup. Qed.

Lemma indexCommits_None commits sha :
  indexCommits commits !! sha = None <-> forall c, c ∈ commits -> to_lower (trim_space c) <> sha.
Proof.
  unfold indexCommits. rewrite foldl_index_None, lookup_empty. naive_solver.
Qed.

Lemma unique_prefix_Ok sha commits c :
  unique_prefix sha commits = Ok c ->
  c ∈ commits /\ has_prefix sha (to_lower c) = true /\ prefixed sha commits = [c].
Proof.
  unfold unique_prefix. destruct (prefixed sha commits) as [|d [|]] eqn:Hp; try done.
  intros [= ->]. assert (Hc : In c (prefixed sha commits)) by (rewrite Hp; by left).
  apply List.filter_In in Hc as [Hin ?]. split_and!; [by rewrite list_elem_of_In|done|done].
Qed.

Lemma resolveCommit_Ok recorded commits complete c :
  resolveCommit recorded commits (indexCommits commits) complete = Ok c ->
  let sha := to_lower (trim_space recorded) in
  minSHALength <= blen sha /\ c ∈ commits /\
  (to_lower (trim_space c) = sha \/
   (complete = true /\ has_prefix sha (to_lower c) = true /\ prefixed sha commits = [c])).
Proof.
  unfold resolveCommit. cbv zeta. destruct (blen _ <? minSHALength) eqn:Hlen; [done|].
  apply Z.ltb_ge in Hlen.
  destruct (indexCommits commits !! _) as [d|] eqn:Hi.
  - intros [= ->]. apply indexCommits_Some in Hi as [??]. auto.
  - destruct complete; [|done]. simpl. rewrite scan_prefix_spec.
    intros (?&?&?)%unique_prefix_Ok. split_and!; [done..|right; by split_and!].
Qed.

Lemma resolves_in pr recorded c : resolves pr recorded c -> c ∈ PullCommits pr.
Proof. by intros (_&?&_)%resolveCommit_Ok. Qed.

(** ** The anchor loop *)
Definition unresolved_of (pr : PullRequest) (cs : list RecordedCommit) : list UnresolvedCommit :=
  omap (fun rc =>
    match resolveCommit (SHA rc) (PullCommits pr) (indexCommits (PullCommits pr))
      (CommitSetComplete pr) with
    | Ok _ => None
    | Err reason => Some (mkUnresolvedCommit (SHA rc) reason)
    end) cs.

Record anchors_inv (pr : PullRequest) (t : Transcript) (cs : list RecordedCommit)
    (anchors : list Anchor) (by_ : gmap string nat) : Prop := {
  inv_index : forall sha i, by_ !! sha = Some i <-> exists a, anchors !! i = Some a /\ AnchorSHA a = sha;
  inv_anchor : forall a, a ∈ anchors ->
    AnchorTranscript a = TranscriptID t /\
    (exists rc, rc ∈ cs /\ resolves pr rc (AnchorSHA a) /\ AnchorAt a = AuthoredAt rc) /\
    (forall rc, rc ∈ cs -> resolves pr rc (AnchorSHA a) -> AnchorAt a <= AuthoredAt rc);
  inv_cover : forall rc c, rc ∈ cs -> resolves pr rc c -> exists a, a ∈ anchors /\ AnchorSHA a = c
}.

Lemma anchors_inv_nil pr t : anchors_inv pr t [] [] ∅.
Proof.
  split; [|set_solver..]. intros sha i. rewrite lookup_empty. split; [done|].
  by intros (a&?&?).
Qed.

Lemma anchors_inv_skip pr t cs rc anchors by_ :
  (forall c, ~ resolves pr rc c) ->
  anchors_inv pr t cs anchors by_ -> anchors_inv pr t (cs ++ [rc]) anchors by_.
Proof.
  intros Hno [Hi Ha Hc]. split; [done| |].
  - intros a Hin. destruct (Ha a Hin) as (?&(rc'&?&?&?)&Hmin). split_and!; [done|set_solver|].
    intros rc'' [?| ->%list_elem_of_singleton]%elem_of_app; [by apply Hmin|].
    by intros ?%Hno.
  - intros rc' c [?| ->%list_elem_of_singleton]%elem_of_app; [by apply Hc|].
    by intros ?%Hno.
Qed.

Lemma resolves_fun pr rc c d : resolves pr rc c -> resolves pr rc d -> c = d.
Proof. unfold resolves. congruence. Qed.

Lemma anchors_inv_new pr t cs rc c anchors by_ :
  resolves pr rc c -> by_ !! c = None ->
  anchors_inv pr t cs anchors by_ ->
  anchors_inv pr t (cs ++ [rc])
    (anchors ++ [mkAnchor (TranscriptID t) c (AuthoredAt rc) (Additions rc) (Deletions rc)
      (FilesChanged rc)]) (<[c := length anchors]> by_).
Proof.
  intros Hres Hnew [Hi Ha Hc].
  assert (Hfresh : forall a, a ∈ anchors -> AnchorSHA a <> c).
  { intros a [i Hai]%list_elem_of_lookup Heq.
    assert (by_ !! c = Some i) by (apply Hi; eauto). congruence. }
  assert (Hold : forall rc', rc' ∈ cs -> ~ resolves pr rc' c).
  { intros rc' Hin Hr. destruct (Hc rc' c Hin Hr) as (a&Hin'&?). by apply (Hfresh a). }
  split.
  - intros sha i. rewrite lookup_insert. case_decide as Hsha.
    + subst sha. split.
      * intros [= <-]. rewrite lookup_app_r, Nat.sub_diag by done. simpl. eauto.
      * intros (a&Hai&Hsha). f_equal.
        apply lookup_app_Some in Hai as [Hai|[Hlen Hai]].
        { by apply list_elem_of_lookup_2, Hfresh in Hai. }
        apply list_lookup_singleton_Some in Hai as [??]. lia.
    + rewrite Hi. split; intros (a&Hai&Hs).
      * exists a. split; [|done]. by apply lookup_app_l_Some.
      * apply lookup_app_Some in Hai as [Hai|[Hlen Hai]]; [by exists a|].
        apply list_lookup_singleton_Some in Hai as [? <-]. by simpl in Hs.
  - intros a [Hin| ->%list_elem_of_singleton]%elem_of_app.
    + destruct (Ha a Hin) as (?&(rc'&?&?&?)&Hmin). split_and!; [done|set_solver|].
      intros rc'' [?| ->%list_elem_of_singleton]%elem_of_app Hr; [by apply Hmin|].
      exfalso. apply (Hfresh a Hin). by apply (resolves_fun pr rc).
    + simpl. split_and!; [done|exists rc; set_solver|].
      intros rc'' [Hin| ->%list_elem_of_singleton]%elem_of_app Hr; [by apply Hold in Hr|lia].
  - intros rc' d [Hin| ->%list_elem_of_singleton]%elem_of_app Hr.
    + destruct (Hc rc' d Hin Hr) as (a&?&?). set_solver.
    + apply (resolves_fun _ _ _ _ Hres) in Hr as <-. eexists.
      split; [apply elem_of_app; right; by apply list_elem_of_singleton|done].
Qed.

(** A repeat of a resolved commit keeps the anchor, at the earlier instant. *)
Lemma anchors_inv_repeat pr t cs rc c anchors by_ i a :
  resolves pr rc c -> by_ !! c = Some i -> anchors !! i = Some a ->
  anchors_inv pr t cs anchors by_ ->
  anchors_inv pr t (cs ++ [rc])
    (if AuthoredAt rc <? AnchorAt a then <[i := set_anchor_time a (AuthoredAt rc)]> anchors
     else anchors) by_.
Proof.
  intros Hres Hi0 Hai [Hi Ha Hc].
  assert (Hsha : AnchorSHA a = c).
  { apply Hi in Hi0 as (a'&?&?). congruence. }
  assert (Hlt : (i < length anchors)%nat) by by apply lookup_lt_Some in Hai.
  set (at_ := Z.min (AnchorAt a) (AuthoredAt rc)).
  assert (Hnew : (if AuthoredAt rc <? AnchorAt a then <[i := set_anchor_time a (AuthoredAt rc)]> anchors
     else anchors) = <[i := set_anchor_time a at_]> anchors).
  { unfold at_. destruct (Z.ltb_spec (AuthoredAt rc) (AnchorAt a)).
    - by rewrite Z.min_r by lia.
    - rewrite Z.min_l by lia. rewrite list_insert_id; [done|]. rewrite Hai. by destruct a. }
  rewrite Hnew. clear Hnew. split.
  - intros sha j. rewrite Hi. destruct (decide (i = j)) as [<-|].
    + rewrite list_lookup_insert_eq by done. rewrite Hai. split; intros (a'&[= <-]&?); eauto.
    + by rewrite list_lookup_insert_ne.
  - intros a' [j Haj]%list_elem_of_lookup.
    apply list_lookup_insert_Some in Haj as [(<-&<-&_)|[Hne Haj]].
    + simpl. destruct (Ha a) as (?&(rc'&?&?&?)&Hmin); [by eapply list_elem_of_lookup_2|].
      split_and!; [done| |].
      * destruct (decide (AuthoredAt rc < AnchorAt a)).
        { exists rc. unfold at_. rewrite Hsha. split_and!; [set_solver|done|lia]. }
        exists rc'. unfold at_. split_and!; [set_solver|done|lia].
      * intros rc'' [?| ->%list_elem_of_singleton]%elem_of_app Hr; [|lia].
        transitivity (AnchorAt a); [lia|by apply Hmin].
    + destruct (Ha a') as (?&(rc'&?&?&?)&Hmin); [by eapply list_elem_of_lookup_2|].
      split_and!; [done|set_solver|].
      intros rc'' [?| ->%list_elem_of_singleton]%elem_of_app Hr; [by apply Hmin|].
      exfalso. apply Hne. assert (by_ !! c = Some j) as ?; [|congruence].
      apply Hi. exists a'. split; [done|]. by apply (resolves_fun pr rc).
  - assert (Hkeep : forall d, (exists a', a' ∈ anchors /\ AnchorSHA a' = d) ->
      exists a', a' ∈ <[i := set_anchor_time a at_]> anchors /\ AnchorSHA a' = d).
    { intros d (a'&[j Haj]%list_elem_of_lookup&Hd). destruct (decide (i = j)) as [<-|].
      - exists (set_anchor_time a at_). split; [|simpl; congruence].
        eapply list_elem_of_lookup_2, list_lookup_insert_eq; done.
      - exists a'. split; [|done]. eapply list_elem_of_lookup_2.
        by rewrite list_lookup_insert_ne. }
    intros rc' d [Hin| ->%list_elem_of_singleton]%elem_of_app Hr; apply Hkeep; [by eapply Hc|].
    exists a. split; [by eapply list_elem_of_lookup_2|]. by rewrite Hsha, (resolves_fun _ _ _ _ Hres Hr).
Qed.

Lemma resolve_loop pr t :
  let '(anchors, unresolved, by_) :=
    foldl (resolve_step t (PullCommits pr) (indexCommits (PullCommits pr)) (CommitSetComplete pr))
      ([], [], ∅) (Commits t) in
  anchors_inv pr t (Commits t) anchors by_ /\ unresolved = unresolved_of pr (Commits t).
Proof.
  induction (Commits t) as [|rc cs IH] using rev_ind.
  { split; [apply anchors_inv_nil|done]. }
  rewrite foldl_app. simpl. destruct (foldl _ _ cs) as [[anchors unresolved] by_].
  destruct IH as [Hinv ->]. simpl. unfold unresolved_of. rewrite omap_app. simpl.
  destruct (resolveCommit _ _ _ _) as [c|reason] eqn:Hr; rewrite ?app_nil_r.
  - destruct (by_ !! c) as [i|] eqn:Hi.
    + destruct (proj1 (inv_index _ _ _ _ _ Hinv c i) Hi) as (a&Ha&_). rewrite Ha.
      pose proof (anchors_inv_repeat pr t cs rc c anchors by_ i a Hr Hi Ha Hinv) as Hrep.
      by destruct (AuthoredAt rc <? AnchorAt a).
    + split; [|done]. by apply anchors_inv_new.
  - split; [|done]. apply anchors_inv_skip; [|done]. unfold resolves. congruence.
Qed.

(** ** The match loop *)
Definition anchors_of (pr : PullRequest) (t : Transcript) : list Anchor :=
  (resolveRecordedCommits t (PullCommits pr) (indexCommits (PullCommits pr)) (CommitSetComplete pr)).1.

Definition accepted_of (pr : PullRequest) (t : Transcript) : option AcceptedTranscript :=
  if namesPullRequestRepository pr t then
    match anchors_of pr t with
    | [] => None
    | anchors => Some (mkAccepted (TranscriptID t) (SessionStart t) anchors
        (unresolved_of pr (Commits t)))
    end
  else None.

Definition candidate_of (pr : PullRequest) (t : Transcript) : option UnresolvedCandidate :=
  if namesPullRequestRepository pr t then
    match anchors_of pr t with
    | [] => Some (mkUnresolvedCandidate (TranscriptID t) (branchMatches pr t)
        (unresolved_of pr (Commits t)))
    | _ => None
    end
  else None.

Lemma resolveRecordedCommits_eq pr t :
  resolveRecordedCommits t (PullCommits pr) (indexCommits (PullCommits pr)) (CommitSetComplete pr) =
  (anchors_of pr t, unresolved_of pr (Commits t)).
Proof.
  unfold anchors_of, resolveRecordedCommits. pose proof (resolve_loop pr t) as Hl.
  destruct (foldl _ _ (Commits t)) as [[anchors unresolved] by_].
  by destruct Hl as [_ ->].
Qed.

Lemma anchors_of_inv pr t : exists by_, anchors_inv pr t (Commits t) (anchors_of pr t) by_.
Proof.
  unfold anchors_of, resolveRecordedCommits. pose proof (resolve_loop pr t) as Hl.
  destruct (foldl _ _ (Commits t)) as [[anchors unresolved] by_].
  destruct Hl as [? _]. by exists by_.
Qed.

Lemma match_fold pr cands acc :
  foldl (match_step pr (indexCommits (PullCommits pr))) acc cands =
  mkResult (Accepted acc ++ omap (accepted_of pr) cands)
    (Unresolved acc ++ omap (candidate_of pr) cands).
Proof.
  revert acc. induction cands as [|t cands IH]; intros acc; simpl.
  { destruct acc. by rewrite !app_nil_r. }
  rewrite IH. unfold match_step, accepted_of, candidate_of.
  destruct (namesPullRequestRepository pr t); simpl; [|done].
  rewrite resolveRecordedCommits_eq.
  by destruct (anchors_of pr t); simpl; rewrite <- app_assoc.
Qed.

Lemma Match_eq pr cands :
  Match pr cands = mkResult (sortAcceptedBySessionStart (omap (accepted_of pr) cands))
    (omap (candidate_of pr) cands).
Proof. unfold Match. by rewrite match_fold. Qed.

#[export] Instance session_less_weak : StrictWeak session_less.
Proof.
  split.
  - intros a b. unfold session_less.
    destruct (Z.eqb_spec (AcceptedStart a) 0), (Z.eqb_spec (AcceptedStart b) 0);
      simpl; rewrite ?Z.ltb_lt, ?Z.ltb_ge; try done; lia.
  - intros a b c. unfold session_less.
    destruct (Z.eqb_spec (AcceptedStart a) 0), (Z.eqb_spec (AcceptedStart b) 0),
      (Z.eqb_spec (AcceptedStart c) 0); simpl; rewrite ?Z.ltb_lt; try tauto; lia.
Qed.

Lemma anchors_nodup pr t : NoDup (AnchorSHA <$> anchors_of pr t).
Proof.
  destruct (anchors_of_inv pr t) as [by_ [Hi _ _]].
  apply NoDup_alt. intros i j sha Hsi Hsj. rewrite list_lookup_fmap in Hsi, Hsj.
  apply fmap_Some in Hsi as (a&Ha&Hsa). apply fmap_Some in Hsj as (b&Hb&Hsb).
  assert (by_ !! sha = Some i) by (apply Hi; eauto).
  assert (by_ !! sha = Some j) by (apply Hi; eauto). congruence.
Qed.

Lemma accepted_inv pr cands acc :
  acc ∈ Accepted (Match pr cands) ->
  exists t, t ∈ cands /\ namesPullRequestRepository pr t = true /\
    anchors_of pr t <> [] /\
    acc = mkAccepted (TranscriptID t) (SessionStart t) (anchors_of pr t) (unresolved_of pr (Commits t)).
Proof.
  rewrite Match_eq. simpl. unfold sortAcceptedBySessionStart.
  rewrite elem_of_sort_stable. intros (t&Ht&Hacc)%list_elem_of_omap.
  exists t. unfold accepted_of in Hacc.
  destruct (namesPullRequestRepository pr t); [|done].
  destruct (anchors_of pr t); simplify_eq; done.
Qed.

(** ** Properties *)

(** C2: acceptance is sound and keeps the evidence: every accepted
    transcript is a gated candidate with at least one anchor, one anchor per
    resolved commit, each in the pull request and stamped with the earliest
    instant at which the transcript recorded a commit resolving to it; and what
    did not resolve is reported, in recording order. *)
Theorem match_accepts_only_anchored pr cands acc :
  acc ∈ Accepted (Match pr cands) ->
  Anchors acc <> [] /\ NoDup (AnchorSHA <$> Anchors acc) /\
  exists t, t ∈ cands /\ namesPullRequestRepository pr t = true /\
    AcceptedID acc = TranscriptID t /\
    AcceptedUnresolved acc = unresolved_of pr (Commits t) /\
    forall a, a ∈ Anchors acc ->
      AnchorSHA a ∈ PullCommits pr /\
      (exists rc, rc ∈ Commits t /\ resolves pr rc (AnchorSHA a) /\ AnchorAt a = AuthoredAt rc) /\
      (forall rc, rc ∈ Commits t -> resolves pr rc (AnchorSHA a) -> AnchorAt a <= AuthoredAt rc).
Proof.
  intros (t&Hin&Hgate&Hne&->)%accepted_inv. simpl.
  split_and!; [done|apply anchors_nodup|]. exists t. split_and!; [done..|].
  intros a Ha. destruct (anchors_of_inv pr t) as [by_ [_ Hanchor _]].
  destruct (Hanchor a Ha) as (_&Hex&Hmin). split_and!; [|done|done].
  destruct Hex as (rc&_&Hr&_). by eapply resolves_in.
Qed.

(** Also: against an incomplete commit list nothing is accepted on an abbreviation
    and no commit is called absent or ambiguous: every anchor is a full SHA the
    transcript itself recorded, up to case and surrounding space. *)
Theorem match_incomplete_is_exact pr cands :
  CommitSetComplete pr = false ->
  (forall acc a, acc ∈ Accepted (Match pr cands) -> a ∈ Anchors acc ->
    exists t rc, t ∈ cands /\ rc ∈ Commits t /\ TranscriptID t = AcceptedID acc /\
      to_lower (trim_space (SHA rc)) = to_lower (trim_space (AnchorSHA a))) /\
  (forall u, u ∈ mjoin (AcceptedUnresolved <$> Accepted (Match pr cands)) ++
      mjoin (CandidateUnresolved <$> Unresolved (Match pr cands)) ->
    Reason u = ReasonTooShort \/ Reason u = ReasonIncomplete).
Proof.
  intros Hinc. split.
  - intros acc a (t&Hin&Hgate&Hne&->)%accepted_inv Ha. simpl in *.
    destruct (anchors_of_inv pr t) as [by_ [_ Hanchor _]].
    destruct (Hanchor a Ha) as (_&(rc&Hrc&Hr&_)&_). exists t, rc. split_and!; [done..|].
    apply resolveCommit_Ok in Hr as (_&_&[Heq|[Hc _]]); congruence.
  - assert (Hreason : forall t u, u ∈ unresolved_of pr (Commits t) ->
      Reason u = ReasonTooShort \/ Reason u = ReasonIncomplete).
    { intros t u (rc&_&Hu)%list_elem_of_omap. unfold resolveCommit in Hu.
      rewrite Hinc in Hu. simpl in Hu.
      destruct (_ <? _); [simplify_eq; by left|].
      destruct (indexCommits _ !! _); simplify_eq; by right. }
    intros u [Hu|Hu]%elem_of_app; apply list_elem_of_join in Hu as (us&Hu&Hus);
      apply list_elem_of_fmap in Hus as (x&->&Hx).
    + apply accepted_inv in Hx as (t&_&_&_&->). by apply (Hreason t).
    + rewrite Match_eq in Hx. simpl in Hx. apply list_elem_of_omap in Hx as (t&_&Ht).
      unfold candidate_of in Ht. destruct (namesPullRequestRepository pr t); [|done].
      destruct (anchors_of pr t); simplify_eq. by apply (Hreason t).
Qed.

(** Also: the answer accounts for every gated candidate exactly once, as accepted
    or as unresolved, in attachment order: recorded session starts ascending,
    the unrecorded ones last, ties in discovery order. *)
Theorem match_partitions_candidates pr cands :
  (AcceptedID <$> Accepted (Match pr cands)) ++ (CandidateID <$> Unresolved (Match pr cands)) ≡ₚ
    TranscriptID <$> List.filter (namesPullRequestRepository pr) cands /\
  StronglySorted (fun a b => AcceptedStart b = 0 \/
    (AcceptedStart a <> 0 /\ AcceptedStart a <= AcceptedStart b)) (Accepted (Match pr cands)) /\
  (forall start, List.filter (fun a => AcceptedStart a =? start) (Accepted (Match pr cands)) =
    List.filter (fun a => AcceptedStart a =? start) (omap (accepted_of pr) cands)).
Proof.
  rewrite Match_eq. simpl. unfold sortAcceptedBySessionStart. split_and!.
  - rewrite sort_stable_perm. induction cands as [|t cands IH]; simpl; [done|].
    unfold accepted_of at 1, candidate_of at 1.
    destruct (namesPullRequestRepository pr t) eqn:Hg; simpl; [|apply IH].
    rewrite <- IH. destruct (anchors_of pr t); simpl; [|done].
    by rewrite <- Permutation_middle.
  - eapply strongly_sorted_weaken; [|apply sort_stable_sorted, _]. unfold not_after, session_less.
    intros a b. destruct (Z.eqb_spec (AcceptedStart a) 0), (Z.eqb_spec (AcceptedStart b) 0);
      simpl; rewrite ?Z.ltb_ge; try done; try lia; auto.
  - intros start. apply sort_stable_filter. intros a b Ha%Z.eqb_eq Hb%Z.eqb_eq.
    unfold session_less. rewrite Ha, Hb, Bool.eqb_reflx. simpl. apply Z.ltb_irrefl.
Qed.

(** Also: the four refusals of [resolveCommit], each in exactly the situation it
    stands for; in every other situation it answers a commit. *)
Theorem resolve_commit_outcomes recorded commits complete :
  let sha := to_lower (trim_space recorded) in
  let r := resolveCommit recorded commits (indexCommits commits) complete in
  let long := minSHALength <= blen sha in
  let absent := forall c, c ∈ commits -> to_lower (trim_space c) <> sha in
  (r = Err ReasonTooShort <-> ~ long) /\
  (r = Err ReasonIncomplete <-> long /\ absent /\ complete = false) /\
  (r = Err ReasonNotInPullRequest <->
    long /\ absent /\ complete = true /\ prefixed sha commits = []) /\
  (r = Err ReasonAmbiguous <->
    long /\ absent /\ complete = true /\ (2 <= length (prefixed sha commits))%nat).
Proof.
  cbv zeta. rewrite <- (indexCommits_None commits). unfold resolveCommit.
  destruct (Z.ltb_spec (blen (to_lower (trim_space recorded))) minSHALength).
  { split_and!; (split; [intros; try done; lia|intros; try done; lia]). }
  destruct (indexCommits commits !! _); [split_and!; split; intros; naive_solver lia|].
  destruct complete; simpl; [|split_and!; split; intros; naive_solver lia].
  rewrite scan_prefix_spec. unfold unique_prefix.
  destruct (prefixed _ commits) as [|? [|??]]; simpl; split_and!; split; intros; naive_solver lia.
Qed.
End unicode.

(** Also: the authorization policy, whole: only a resolved sender with a
    positive id gets anything; the author proceeds with either command; someone
    else is recorded as asking exactly when the command is attach and GitHub
    reports owner, member or collaborator standing; everything else is ignored. *)
Theorem authorize_policy `{UnicodeTables} actor command :
  let known := SenderResolved actor = true /\ 0 < SenderGitHubID actor in
  let author := SenderGitHubID actor = PullRequestAuthorGitHubID actor in
  (Authorize actor command = ActionProceed <->
    known /\ author /\ (command = "attach" \/ command = "detach")) /\
  (Authorize actor command = ActionRequest <->
    known /\ ~ author /\ command = "attach" /\
    hasRepositoryStanding (AuthorAssociation actor) = true).
Proof.
  cbv zeta. unfold Authorize, isAuthor, command_of. simpl.
  destruct (String.eqb_spec command "attach") as [->|Ha]; simpl;
    [|destruct (String.eqb_spec command "detach") as [->|Hd]; simpl];
    destruct (SenderResolved actor), (Z.leb_spec (SenderGitHubID actor) 0),
      (Z.ltb_spec 0 (SenderGitHubID actor)),
      (Z.eqb_spec (SenderGitHubID actor) (PullRequestAuthorGitHubID actor));
    simpl; try lia;
    destruct (hasRepositoryStanding _); split; split; naive_solver lia.
Qed.

(** Also: a command is read from a comment exactly when its first two
    space-separated words are the command word, up to case folding, and attach
    or detach, up to lowercasing; what follows does not matter. *)
Theorem parse_command_spec `{UnicodeTables} body cmd :
  ParseCommand body = Some cmd <->
  exists f0 f1 rest, fields body = f0 :: f1 :: rest /\
    equal_fold f0 commandName = true /\ to_lower f1 = command_string cmd.
Proof.
  unfold ParseCommand. split.
  - destruct (fields body) as [|f0 [|f1 rest]]; try done.
    destruct (equal_fold f0 commandName) eqn:Hf; [|done]. cbv zeta.
    destruct (String.eqb_spec (to_lower f1) (command_string CommandAttach)) as [Ha|Ha].
    { intros [= <-]. eauto 10. }
    destruct (String.eqb_spec (to_lower f1) (command_string CommandDetach)) as [Hd|Hd]; [|done].
    intros [= <-]. eauto 10.
  - intros (f0&f1&rest&->&->&->). by destruct cmd.
Qed.

(** ** Witnesses *)
Definition sample_pr (complete : bool) : PullRequest :=
  mkPullRequest "app" "app" "main" false complete ["AAAAAAA1111"; "bbbbbbb2222"].
Definition sample_transcript : Transcript :=
  mkTranscript "t1" "" "github.com/acme/App.git" "main" 9
    [mkRecordedCommit "aaaaaaa" 7 None None None;
     mkRecordedCommit "AAAAAAA1111 " 4 None None None; mkRecordedCommit "zz" 1 None None None].

Lemma match_accepts_witness :
  exists acc, acc ∈ Accepted (@Match ascii_tables (sample_pr true) [sample_transcript]) /\
    Anchors acc <> [].
Proof.
  eexists. split.
  - vm_compute. left.
  - refine (proj1 (@match_accepts_only_anchored ascii_tables (sample_pr true) [sample_transcript] _ _)).
    vm_compute. left.
Defined.

Lemma match_incomplete_witness :
  Accepted (@Match ascii_tables (sample_pr false) [sample_transcript]) <> [] /\
  (forall u, u ∈ mjoin (AcceptedUnresolved <$>
      Accepted (@Match ascii_tables (sample_pr false) [sample_transcript])) ++
      mjoin (CandidateUnresolved <$>
      Unresolved (@Match ascii_tables (sample_pr false) [sample_transcript])) ->
    Reason u = ReasonTooShort \/ Reason u = ReasonIncomplete).
Proof.
  split; [vm_compute; discriminate|].
  exact (proj2 (@match_incomplete_is_exact ascii_tables (sample_pr false) [sample_transcript]
    eq_refl)).
Defined.
End Matcher.
