(* ===== verification/Digest.v ===== *)
(** * [internal/digest]: building and restricting the prompt digest

    [Build] projects the accepted sessions and commit matches into the ordered,
    numbered and counted digest; [Restrict] narrows a digest to the transcripts
    one reader may open. The wire contract's own check, [PromptDigest.Validate],
    belongs to another module and is the parameter [validate]. Go visits a map
    in an order of its own at every range, so the one loop whose outcome depends
    on it ([resolveCommit]) takes that order as an argument. *)
From S2P Require Import Prelude GoText Regex.

Open Scope string_scope.
Open Scope list_scope.
Open Scope Z_scope.

Module Digest.

(** ** The wire contract's records, as far as the package fills them *)
Inductive Kind : Type :=
| DigestItemSession | DigestItemPrompt | DigestItemSkill | DigestItemCommit.

#[export] Instance kind_eq_dec : EqDecision Kind.
Proof. solve_decision. Defined.

Record Item : Type := mkItem {
  ItemKind : Kind;
  ItemTranscript : string;
  ItemAt : Z;
  Text : string;
  Args : string;
  TurnIndex : option Z;
  Ordinal : option Z;
  ItemPromptCount : option Z;
  ItemCommitCount : option Z;
  CommitSHA : string;
  ItemAdditions : option Z;
  ItemDeletions : option Z;
  ItemFiles : option Z
}.

#[export] Instance item_eq_dec : EqDecision Item.
Proof. solve_decision. Defined.

Record Skill : Type := mkSkill { SkillName : string; InvocationCount : Z }.

Record Header : Type := mkHeader {
  Harness : string;
  RedactionLevel : string;
  SessionCount : Z;
  PromptCount : Z;
  CommitsCovered : Z;
  CommitsTotal : Z;
  VillageURL : string
}.

Record PromptDigest : Type := mkDigest {
  DHeader : Header;
  Skills : list Skill;
  Items : list Item
}.

#[export] Instance skill_eq_dec : EqDecision Skill.
Proof. solve_decision. Defined.
#[export] Instance header_eq_dec : EqDecision Header.
Proof. solve_decision. Defined.
#[export] Instance prompt_digest_eq_dec : EqDecision PromptDigest.
Proof. solve_decision. Defined.

(** ** The accepted evidence *)
Inductive Role : Type := RoleUser | RoleOther.

Record Turn : Type := mkTurn {
  TIndex : Z;
  TRole : Role;
  Content : string;
  TAt : Z;
  (** name and arguments of the structured command invocation, if any *)
  Command : option (string * string)
}.

Record Session : Type := mkSession {
  STranscript : string;
  SHarness : string;
  SRedaction : string;
  SessionStart : Z;
  Turns : list Turn
}.

Record CommitMatch : Type := mkCommitMatch {
  CTranscript : string;
  CSHA : string;
  CAuthoredAt : Z;
  CAdditions : option Z;
  CDeletions : option Z;
  CFiles : option Z
}.

Record Input : Type := mkInput {
  InURL : string;
  CommitSet : list string;
  Sessions : list Session;
  CommitMatches : list CommitMatch
}.

(** ** Item updates *)
Definition with_text (i : Item) (t : string) : Item :=
  mkItem (ItemKind i) (ItemTranscript i) (ItemAt i) t (Args i) (TurnIndex i) (Ordinal i)
    (ItemPromptCount i) (ItemCommitCount i) (CommitSHA i) (ItemAdditions i) (ItemDeletions i)
    (ItemFiles i).
Definition with_ordinal (i : Item) (n : Z) : Item :=
  mkItem (ItemKind i) (ItemTranscript i) (ItemAt i) (Text i) (Args i) (TurnIndex i) (Some n)
    (ItemPromptCount i) (ItemCommitCount i) (CommitSHA i) (ItemAdditions i) (ItemDeletions i)
    (ItemFiles i).

Definition is_kind (k : Kind) (i : Item) : bool := bool_decide (ItemKind i = k).
Definition count_kind (k : Kind) (items : list Item) : Z :=
  Z.of_nat (length (List.filter (is_kind k) items)).

Definition session_text (n : Z) : string := "session " +:+ itoa n.

Section unicode.
Context `{UnicodeTables}.

(** [^[0-9a-f]{7,40}$] *)
Definition commitSHAPattern : regex := rrange (RClass cls_hex) 7 33.

(** A map from each SHA to itself: the set of its keys. *)
Definition normalizeCommitSet (set : list string) : gset string :=
  foldl (fun out sha =>
    let lower := to_lower (trim_space sha) in
    if match_full commitSHAPattern lower then {[lower]} ∪ out else out) ∅ set.

(** [order] is the order in which this range visits the map's keys. *)
Definition resolveCommit (order : list string -> list string) (sha : string)
    (commitSet : gset string) : option string :=
  if bool_decide (sha ∈ commitSet) then Some sha
  else find (has_prefix sha) (order (elements commitSet)).

Record RawAnchor : Type := mkRawAnchor {
  ATranscript : string;
  AResolved : string;
  AAuthoredAt : Z;
  AAdditions : option Z;
  ADeletions : option Z;
  AFiles : option Z
}.

Definition anchor_of (order : list string -> list string) (commitSet : gset string)
    (m : CommitMatch) : option RawAnchor :=
  let sha := to_lower (trim_space (CSHA m)) in
  if blen sha <? 7 then None
  else match resolveCommit order sha commitSet with
       | Some resolved => Some (mkRawAnchor (CTranscript m) resolved (CAuthoredAt m)
           (CAdditions m) (CDeletions m) (CFiles m))
       | None => None
       end.

(** [orders n] is the order of the range the [n]-th match runs. *)
Fixpoint acceptedAnchors (orders : nat -> list string -> list string) (n : nat)
    (matches : list CommitMatch) (commitSet : gset string) : list RawAnchor :=
  match matches with
  | [] => []
  | m :: rest =>
    match anchor_of (orders n) commitSet m with
    | Some a => a :: acceptedAnchors orders (S n) rest commitSet
    | None => acceptedAnchors orders (S n) rest commitSet
    end
  end.

(** One anchor per resolved commit, the earliest; [order] keeps first sight. *)
Definition anchor_step (st : list string * gmap string RawAnchor) (a : RawAnchor) :
    list string * gmap string RawAnchor :=
  let '(order, bySHA) := st in
  match bySHA !! AResolved a with
  | Some existing =>
    if AAuthoredAt a <? AAuthoredAt existing then (order, <[AResolved a := a]> bySHA) else st
  | None => (order ++ [AResolved a], <[AResolved a := a]> bySHA)
  end.

Definition distinctAnchors (anchors : list RawAnchor) : list string * gmap string RawAnchor :=
  foldl anchor_step ([], ∅) anchors.

Definition isPrompt (turn : Turn) : bool :=
  match Command turn with Some _ => false | None => true end &&
  match TRole turn with RoleUser => true | RoleOther => false end &&
  negb (String.eqb (trim_space (Content turn)) "").

Definition turn_item (transcript : string) (turn : Turn) : option Item :=
  match Command turn with
  | Some (name, args) =>
    Some (mkItem DigestItemSkill transcript (TAt turn) name args (Some (TIndex turn))
      None None None "" None None None)
  | None =>
    if isPrompt turn then
      Some (mkItem DigestItemPrompt transcript (TAt turn) (trim_space (Content turn)) ""
        (Some (TIndex turn)) None None None "" None None None)
    else None
  end.

Definition session_items (anchors : list RawAnchor) (order : list string)
    (si : nat) (session : Session) : list Item :=
  let promptCount := Z.of_nat (length (List.filter isPrompt (Turns session))) in
  let commitCount := Z.of_nat (length (List.filter (fun sha =>
    existsb (fun a => String.eqb (ATranscript a) (STranscript session) &&
      String.eqb (AResolved a) sha) anchors) order)) in
  mkItem DigestItemSession (STranscript session) (SessionStart session)
    (session_text (Z.of_nat si + 1)) "" None None (Some promptCount) (Some commitCount) ""
    None None None
  :: omap (turn_item (STranscript session)) (Turns session).

Definition commit_item (bySHA : gmap string RawAnchor) (sha : string) : option Item :=
  match bySHA !! sha with
  | Some a =>
    let all := match AAdditions a, ADeletions a, AFiles a with
      | Some _, Some _, Some _ => true | _, _, _ => false end in
    Some (mkItem DigestItemCommit (ATranscript a) (AAuthoredAt a) sha "" None None None None sha
      (if all then AAdditions a else None) (if all then ADeletions a else None)
      (if all then AFiles a else None))
  | None => None
  end.

Definition item_before (a b : Item) : bool := ItemAt a <? ItemAt b.

(** Number the prompts from [n+1], in item order. *)
Fixpoint number_prompts (n : Z) (items : list Item) : list Item :=
  match items with
  | [] => []
  | i :: rest =>
    if is_kind DigestItemPrompt i then with_ordinal i (n + 1) :: number_prompts (n + 1) rest
    else i :: number_prompts n rest
  end.

(** How often each skill name occurs among the skill items. *)
Definition skill_step (counts : gmap string Z) (i : Item) : gmap string Z :=
  if is_kind DigestItemSkill i
  then <[Text i := default 0 (counts !! Text i) + 1]> counts else counts.
Definition skillCounts (items : list Item) : gmap string Z := foldl skill_step ∅ items.

Definition skill_less (a b : Skill) : bool := String.ltb (SkillName a) (SkillName b).

Definition skillList (counts : gmap string Z) : list Skill :=
  sort_stable skill_less ((fun p => mkSkill p.1 p.2) <$> map_to_list counts).

Definition session_before (a b : Session) : bool := SessionStart a <? SessionStart b.

Definition build_core (orders : nat -> list string -> list string) (inp : Input) : PromptDigest :=
  let sessions := sort_stable session_before (Sessions inp) in
  let commitSet := normalizeCommitSet (CommitSet inp) in
  let anchors := acceptedAnchors orders 0 (CommitMatches inp) commitSet in
  let '(order, bySHA) := distinctAnchors anchors in
  let raw := concat (imap (session_items anchors order) sessions) in
  let items := number_prompts 0
    (sort_stable item_before (raw ++ omap (commit_item bySHA) order)) in
  let header := mkHeader
    (match sessions with s :: _ => SHarness s | [] => "" end)
    (match sessions with s :: _ => SRedaction s | [] => "" end)
    (Z.of_nat (length sessions)) (count_kind DigestItemPrompt items)
    (Z.of_nat (length order)) (Z.of_nat (size commitSet)) (InURL inp) in
  mkDigest header (skillList (skillCounts raw)) items.

Definition Build (validate : PromptDigest -> bool)
    (orders : nat -> list string -> list string) (inp : Input) : result PromptDigest PromptDigest :=
  let built := build_core orders inp in
  if validate built then Ok built else Err built.
End unicode.

(** ** Restrict *)

(** Renumber sessions and prompts over the remaining items. *)
Fixpoint renumber (sessions prompts : Z) (items : list Item) : list Item :=
  match items with
  | [] => []
  | i :: rest =>
    match ItemKind i with
    | DigestItemSession => with_text i (session_text (sessions + 1)) :: renumber (sessions + 1) prompts rest
    | DigestItemPrompt => with_ordinal i (prompts + 1) :: renumber sessions (prompts + 1) rest
    | _ => i :: renumber sessions prompts rest
    end
  end.

Definition recount (d : PromptDigest) (items : list Item) : PromptDigest :=
  let h := DHeader d in
  let items' := renumber 0 0 items in
  mkDigest
    (mkHeader (Harness h) (RedactionLevel h) (count_kind DigestItemSession items')
      (count_kind DigestItemPrompt items') (count_kind DigestItemCommit items')
      (CommitsTotal h) (VillageURL h))
    (skillList (skillCounts items')) items'.

Definition restrict_core (d : PromptDigest) (keep : string -> bool) : PromptDigest :=
  let items := List.filter (fun i => keep (ItemTranscript i)) (Items d) in
  if (length items =? length (Items d))%nat then d else recount d items.

Definition Restrict (validate : PromptDigest -> bool) (d : PromptDigest) (keep : string -> bool) :
    result PromptDigest PromptDigest :=
  let items := List.filter (fun i => keep (ItemTranscript i)) (Items d) in
  if (length items =? length (Items d))%nat then Ok d
  else
    let restricted := recount d items in
    if validate restricted then Ok restricted else Err restricted.

(** ** Lemmas on numbering and counting *)
Lemma is_kind_other k k' i : k <> k' -> is_kind k i = true -> is_kind k' i = false.
Proof.
  unfold is_kind. intros ? ->%bool_decide_eq_true. by apply bool_decide_eq_false.
Qed.

Lemma renumber_kinds s p items k : count_kind k (renumber s p items) = count_kind k items.
Proof.
  unfold count_kind. f_equal. revert s p. induction items as [|i items IH]; intros s p; [done|].
  cbn [renumber]. unfold is_kind in *. destruct (ItemKind i) eqn:Hk; simpl; rewrite ?Hk;
    case_match; simpl; auto.
Qed.

(** Renumbering forgets the numbers that were there, so it absorbs an earlier
    renumbering followed by a filter on transcripts. *)
Lemma renumber_filter_renumber (keep : string -> bool) s p s' p' items :
  renumber s p (List.filter (fun i => keep (ItemTranscript i)) (renumber s' p' items)) =
  renumber s p (List.filter (fun i => keep (ItemTranscript i)) items).
Proof.
  revert s p s' p'. induction items as [|i items IH]; intros *; [done|].
  cbn [renumber]. destruct (ItemKind i) eqn:Hk; simpl; destruct (keep (ItemTranscript i));
    simpl; rewrite ?Hk; simpl; by rewrite ?IH.
Qed.

Lemma renumber_idemp s p s' p' items : renumber s p (renumber s' p' items) = renumber s p items.
Proof.
  pose proof (renumber_filter_renumber (fun _ => true) s p s' p' items) as Hr.
  rewrite !list_filter_all in Hr; done.
Qed.

Lemma renumber_length s p items : length (renumber s p items) = length items.
Proof.
  revert s p. induction items as [|i items IH]; intros s p; [done|].
  cbn [renumber]. destruct (ItemKind i); simpl; by rewrite IH.
Qed.

Lemma renumber_transcripts s p items :
  (ItemTranscript <$> renumber s p items) = (ItemTranscript <$> items).
Proof.
  revert s p. induction items as [|i items IH]; intros s p; [done|].
  cbn [renumber]. destruct (ItemKind i); simpl; by rewrite IH.
Qed.

(** A list already numbered as [renumber] would number it. *)
Lemma renumber_id s p items :
  (forall k i, List.filter (is_kind DigestItemSession) items !! k = Some i ->
    Text i = session_text (s + Z.of_nat k + 1)) ->
  (forall k i, List.filter (is_kind DigestItemPrompt) items !! k = Some i ->
    Ordinal i = Some (p + Z.of_nat k + 1)) ->
  renumber s p items = items.
Proof.
  revert s p. induction items as [|i items IH]; intros s p Hs Hp; [done|].
  cbn [renumber]. unfold is_kind in *. simpl in Hs, Hp.
  destruct (ItemKind i) eqn:Hk; simpl in Hs, Hp.
  - rewrite (IH (s + 1) p); [|intros k j Hj|done].
    + f_equal. specialize (Hs 0%nat i eq_refl). rewrite Z.add_0_r in Hs.
      unfold with_text. rewrite <- Hs. by destruct i.
    + rewrite (Hs (S k) j Hj). f_equal. lia.
  - rewrite (IH s (p + 1)); [|done|intros k j Hj].
    + f_equal. specialize (Hp 0%nat i eq_refl). rewrite Z.add_0_r in Hp.
      unfold with_ordinal. rewrite <- Hp. by destruct i.
    + rewrite (Hp (S k) j Hj). f_equal. lia.
  - f_equal. by apply IH.
  - f_equal. by apply IH.
Qed.

(** ** Lemmas on the skill counts *)
Definition is_skill_named (name : string) (i : Item) : bool :=
  is_kind DigestItemSkill i && String.eqb (Text i) name.
Definition skill_count (name : string) (items : list Item) : Z :=
  Z.of_nat (length (List.filter (is_skill_named name) items)).

Lemma skillCounts_lookup_from items counts name :
  foldl skill_step counts items !! name =
  if skill_count name items =? 0 then counts !! name
  else Some (default 0 (counts !! name) + skill_count name items).
Proof.
  revert counts. induction items as [|i items IH]; intros counts; [done|].
  simpl. rewrite IH. unfold skill_count, is_skill_named, skill_step. simpl.
  destruct (is_kind DigestItemSkill i); simpl; [|done].
  destruct (String.eqb_spec (Text i) name) as [->|Hne]; simpl.
  - rewrite lookup_insert_eq. simpl.
    repeat case_match; bool_hyps; try lia; f_equal; lia.
  - by rewrite lookup_insert_ne.
Qed.

Lemma skillCounts_lookup items name :
  skillCounts items !! name =
  if skill_count name items =? 0 then None else Some (skill_count name items).
Proof. unfold skillCounts. by rewrite skillCounts_lookup_from, lookup_empty. Qed.

(** The counts only depend on how often each name occurs. *)
Lemma skillCounts_ext items items' :
  (forall name, skill_count name items = skill_count name items') ->
  skillCounts items = skillCounts items'.
Proof. intros Hc. apply map_eq. intros name. by rewrite !skillCounts_lookup, Hc. Qed.

Lemma skillCounts_perm items items' : items ≡ₚ items' -> skillCounts items = skillCounts items'.
Proof.
  intros Hp. apply skillCounts_ext. intros name. unfold skill_count. by rewrite Hp.
Qed.

Lemma skillCounts_renumber s p items : skillCounts (renumber s p items) = skillCounts items.
Proof.
  apply skillCounts_ext. intros name. unfold skill_count. f_equal.
  revert s p. induction items as [|i items IH]; intros s p; [done|].
  cbn [renumber]. unfold is_skill_named, is_kind in *.
  destruct (ItemKind i) eqn:Hk; simpl; rewrite ?Hk; simpl; auto.
  case_match; simpl; auto.
Qed.

#[export] Instance skill_less_weak : StrictWeak skill_less.
Proof.
  split; unfold skill_less; intros *; [apply less_asym|apply less_neg_trans].
Qed.

(** ** Restrict, algebraically *)

(** A digest whose numbers and counts are those of its own items. *)
Definition consistent (d : PromptDigest) : Prop := recount d (Items d) = d.

Lemma recount_recount d items (keep : string -> bool) :
  recount (recount d items)
    (List.filter (fun i => keep (ItemTranscript i)) (Items (recount d items))) =
  recount d (List.filter (fun i => keep (ItemTranscript i)) items).
Proof.
  unfold recount. cbn [Items DHeader Harness RedactionLevel CommitsTotal VillageURL].
  by rewrite !renumber_kinds, !skillCounts_renumber, !renumber_filter_renumber,
    <- !(renumber_kinds 0 0 (List.filter _ (renumber 0 0 items))),
    <- !(skillCounts_renumber 0 0 (List.filter _ (renumber 0 0 items))),
    renumber_filter_renumber, !renumber_kinds, !skillCounts_renumber.
Qed.

Lemma recount_consistent d items : consistent (recount d items).
Proof.
  unfold consistent, recount. cbn [Items DHeader Harness RedactionLevel CommitsTotal VillageURL].
  by rewrite renumber_idemp.
Qed.

Lemma restrict_core_recount d keep :
  consistent d ->
  restrict_core d keep = recount d (List.filter (fun i => keep (ItemTranscript i)) (Items d)).
Proof.
  intros Hc. unfold restrict_core. case_match eqn:Hl; [|done].
  apply Nat.eqb_eq in Hl. by rewrite (list_filter_length_eq _ _ Hl).
Qed.

Lemma restrict_core_consistent d keep : consistent d -> consistent (restrict_core d keep).
Proof. intros ?. rewrite restrict_core_recount by done. apply recount_consistent. Qed.

Lemma Restrict_Ok validate d keep d' :
  Restrict validate d keep = Ok d' -> d' = restrict_core d keep.
Proof.
  unfold Restrict, restrict_core. cbv zeta. case_match; [by intros [= ->]|].
  case_match; [by intros [= ->]|done].
Qed.

Lemma recount_items_length d items : length (Items (recount d items)) = length items.
Proof. apply renumber_length. Qed.

(** ** Build: the items before numbering *)
Lemma number_prompts_length n items : length (number_prompts n items) = length items.
Proof.
  revert n. induction items as [|i items IH]; intros n; [done|].
  simpl. case_match; simpl; by rewrite IH.
Qed.

(** Numbering changes nothing but the ordinals of prompts. *)
Lemma number_prompts_filter (P : Item -> bool) n items :
  (forall i m, P (with_ordinal i m) = P i) ->
  (forall i, P i = true -> is_kind DigestItemPrompt i = false) ->
  List.filter P (number_prompts n items) = List.filter P items.
Proof.
  intros HP Hno. revert n. induction items as [|i items IH]; intros n; [done|].
  cbn [number_prompts]. destruct (is_kind DigestItemPrompt i) eqn:Hk; simpl; rewrite ?HP.
  - destruct (P i) eqn:Pi; [|done]. by rewrite Hno in Hk.
  - by rewrite IH.
Qed.

Lemma number_prompts_count (P : Item -> bool) n items :
  (forall i m, P (with_ordinal i m) = P i) ->
  length (List.filter P (number_prompts n items)) = length (List.filter P items).
Proof.
  intros HP. revert n. induction items as [|i items IH]; intros n; [done|].
  cbn [number_prompts]. case_match; simpl; rewrite ?HP; case_match; simpl; by rewrite IH.
Qed.

Lemma number_prompts_kinds n items k : count_kind k (number_prompts n items) = count_kind k items.
Proof. unfold count_kind. by rewrite number_prompts_count. Qed.

Lemma number_prompts_ordinals n items k i :
  List.filter (is_kind DigestItemPrompt) (number_prompts n items) !! k = Some i ->
  Ordinal i = Some (n + Z.of_nat k + 1).
Proof.
  revert n k. induction items as [|j items IH]; intros n k; [done|].
  cbn [number_prompts]. destruct (is_kind DigestItemPrompt j) eqn:Hk; cbn [List.filter].
  - change (is_kind DigestItemPrompt (with_ordinal j (n + 1))) with (is_kind DigestItemPrompt j).
    rewrite Hk. destruct k as [|k]; simpl; [intros [= <-]; simpl; f_equal; lia|].
    intros ->%IH. f_equal. lia.
  - rewrite Hk. apply IH.
Qed.

Lemma number_prompts_times n items : (ItemAt <$> number_prompts n items) = (ItemAt <$> items).
Proof.
  revert n. induction items as [|i items IH]; intros n; [done|].
  cbn [number_prompts]. case_match; simpl; by rewrite IH.
Qed.

Lemma turn_item_kind t turn i :
  turn_item t turn = Some i ->
  ItemTranscript i = t /\
  ((ItemKind i = DigestItemSkill /\ isPrompt turn = false) \/
   (ItemKind i = DigestItemPrompt /\ isPrompt turn = true)).
Proof.
  unfold turn_item, isPrompt. destruct (Command turn) as [[name args]|].
  - intros [= <-]. auto.
  - simpl. case_match eqn:Hp; [|done]. intros [= <-]. simpl. auto.
Qed.

Lemma turn_items_filter k t turns :
  k = DigestItemSession \/ k = DigestItemCommit ->
  List.filter (is_kind k) (omap (turn_item t) turns) = [].
Proof.
  intros Hk. induction turns as [|turn turns IH]; [done|]. simpl.
  destruct (turn_item t turn) as [i|] eqn:Hi; [|done].
  apply turn_item_kind in Hi as [_ Hi]. unfold is_kind in *. simpl.
  rewrite bool_decide_eq_false_2; [done|]. naive_solver congruence.
Qed.

Lemma turn_items_prompts t turns :
  length (List.filter (is_kind DigestItemPrompt) (omap (turn_item t) turns)) =
  length (List.filter isPrompt turns).
Proof.
  induction turns as [|turn turns IH]; [done|]. rewrite omap_cons_eq. cbn [List.filter].
  destruct (turn_item t turn) as [i|] eqn:Hi.
  - pose proof (turn_item_kind _ _ _ Hi) as [_ Hk]. cbn [List.filter]. unfold is_kind at 1.
    destruct Hk as [[-> ->]|[-> ->]]; simpl; by rewrite ?IH.
  - unfold turn_item, isPrompt in *. destruct (Command turn) as [[]|]; [done|]. simpl in *.
    by case_match; [|rewrite IH].
Qed.

Definition session_head (anchors : list RawAnchor) (order : list string) (si : nat) (s : Session) : Item :=
  mkItem DigestItemSession (STranscript s) (SessionStart s)
    (session_text (Z.of_nat si + 1)) "" None None
    (Some (Z.of_nat (length (List.filter isPrompt (Turns s)))))
    (Some (Z.of_nat (length (List.filter (fun sha =>
      existsb (fun a => String.eqb (ATranscript a) (STranscript s) &&
        String.eqb (AResolved a) sha) anchors) order)))) "" None None None.

Lemma session_items_eq anchors order si s :
  session_items anchors order si s =
  session_head anchors order si s :: omap (turn_item (STranscript s)) (Turns s).
Proof. done. Qed.

Lemma filter_heads (f : nat -> Session -> list Item) (g : nat -> Session -> Item) sessions :
  (forall si s, f si s = g si s :: omap (turn_item (STranscript s)) (Turns s)) ->
  (forall si s, ItemKind (g si s) = DigestItemSession) ->
  List.filter (is_kind DigestItemSession) (concat (imap f sessions)) = imap g sessions.
Proof.
  revert f g. induction sessions as [|s sessions IH]; intros f g Hf Hg; [done|]. simpl.
  rewrite List.filter_app, Hf. cbn [List.filter]. unfold is_kind at 1. rewrite Hg. simpl.
  rewrite turn_items_filter by auto. simpl. f_equal.
  apply IH; intros; unfold compose; auto.
Qed.

Lemma raw_sessions anchors order sessions :
  List.filter (is_kind DigestItemSession) (concat (imap (session_items anchors order) sessions)) =
  imap (session_head anchors order) sessions.
Proof. by apply filter_heads. Qed.

(** What a kind contributes, session by session. *)
Lemma filter_raw (k : Kind) anchors order sessions :
  List.filter (is_kind k) (concat (imap (session_items anchors order) sessions)) =
  concat (imap (fun si s => List.filter (is_kind k) (session_items anchors order si s)) sessions).
Proof.
  generalize (session_items anchors order). intros f. revert f.
  induction sessions as [|s sessions IH]; intros f; [done|]. simpl.
  rewrite List.filter_app. f_equal. apply (IH (f ∘ S)).
Qed.

Lemma raw_commits anchors order sessions :
  List.filter (is_kind DigestItemCommit) (concat (imap (session_items anchors order) sessions)) = [].
Proof.
  rewrite filter_raw.
  assert (H : forall si s, List.filter (is_kind DigestItemCommit) (session_items anchors order si s) = []).
  { intros si s. rewrite session_items_eq. cbn [List.filter]. unfold is_kind at 1. simpl.
    apply turn_items_filter. auto. }
  revert H. generalize (session_items anchors order). induction sessions as [|s sessions IH]; [done|].
  intros f Hf. simpl. rewrite Hf. simpl. apply (IH (f ∘ S)). unfold compose. auto.
Qed.

Lemma raw_prompts anchors order sessions :
  count_kind DigestItemPrompt (concat (imap (session_items anchors order) sessions)) =
  Z.of_nat (sum_list_with (fun s => length (List.filter isPrompt (Turns s))) sessions).
Proof.
  unfold count_kind. f_equal. rewrite filter_raw.
  assert (H : forall si s, length (List.filter (is_kind DigestItemPrompt) (session_items anchors order si s)) =
    length (List.filter isPrompt (Turns s))).
  { intros si s. rewrite session_items_eq. cbn [List.filter]. unfold is_kind at 1. simpl.
    apply turn_items_prompts. }
  revert H. generalize (session_items anchors order). induction sessions as [|s sessions IH]; [done|].
  intros f Hf. simpl. rewrite length_app, Hf. f_equal. apply (IH (f ∘ S)). unfold compose. auto.
Qed.

(** ** Build: the anchors *)
Record distinct_inv (as_ : list RawAnchor) (order : list string) (bySHA : gmap string RawAnchor) : Prop := {
  di_nodup : NoDup order;
  di_dom : forall sha, sha ∈ order <-> is_Some (bySHA !! sha);
  di_anchor : forall sha a, bySHA !! sha = Some a ->
    AResolved a = sha /\ a ∈ as_ /\
    forall b, b ∈ as_ -> AResolved b = sha -> AAuthoredAt a <= AAuthoredAt b;
  di_cover : forall b, b ∈ as_ -> AResolved b ∈ order
}.

Lemma distinct_inv_step as_ order bySHA a :
  distinct_inv as_ order bySHA ->
  distinct_inv (as_ ++ [a]) (anchor_step (order, bySHA) a).1 (anchor_step (order, bySHA) a).2.
Proof.
  intros [Hnd Hdom Ha Hc]. unfold anchor_step.
  destruct (bySHA !! AResolved a) as [old|] eqn:Hold.
  - assert (Hin : AResolved a ∈ order) by (apply Hdom; eauto).
    destruct (Ha _ _ Hold) as (Hres&Hino&Hmin).
    destruct (AAuthoredAt a <? AAuthoredAt old) eqn:Hlt; simpl; bool_hyps; split; try done.
    + intros sha. rewrite Hdom, lookup_insert. case_decide; [subst; naive_solver|done].
    + intros sha b. rewrite lookup_insert. case_decide as Hs; [intros [= <-]|intros Hb].
      * split_and!; [done|set_solver|].
        intros c [Hcin| ->%list_elem_of_singleton]%elem_of_app Hcs; [|lia].
        assert (AAuthoredAt old <= AAuthoredAt c) by (apply Hmin; congruence). lia.
      * destruct (Ha _ _ Hb) as (?&?&Hmb). split_and!; [done|set_solver|].
        intros c [?| ->%list_elem_of_singleton]%elem_of_app ?; [by apply Hmb|congruence].
    + intros b [?| ->%list_elem_of_singleton]%elem_of_app; auto.
    + intros sha b Hb. destruct (Ha _ _ Hb) as (?&?&Hmb). split_and!; [done|set_solver|].
      intros c [?| ->%list_elem_of_singleton]%elem_of_app ?; [by apply Hmb|].
      assert (b = old) as -> by congruence. lia.
    + intros b [?| ->%list_elem_of_singleton]%elem_of_app; auto.
  - assert (Hnin : AResolved a ∉ order).
    { intros [x Hx]%Hdom. congruence. }
    simpl. split.
    + apply NoDup_app. split_and!; [done| |apply NoDup_singleton]. set_solver.
    + intros sha. rewrite elem_of_app, list_elem_of_singleton, Hdom, lookup_insert.
      case_decide; naive_solver.
    + intros sha b. rewrite lookup_insert. case_decide as Hs; [intros [= <-]|intros Hb].
      * split_and!; [done|set_solver|].
        intros c [Hcin| ->%list_elem_of_singleton]%elem_of_app Hcs; [|lia].
        exfalso. apply Hnin. rewrite Hs, <- Hcs. by apply Hc.
      * destruct (Ha _ _ Hb) as (?&?&Hmb). split_and!; [done|set_solver|].
        intros c [?| ->%list_elem_of_singleton]%elem_of_app ?; [by apply Hmb|congruence].
    + intros b [?| ->%list_elem_of_singleton]%elem_of_app; set_solver.
Qed.

Lemma distinctAnchors_inv as_ :
  distinct_inv as_ (distinctAnchors as_).1 (distinctAnchors as_).2.
Proof.
  unfold distinctAnchors. induction as_ as [|a as_ IH] using rev_ind.
  - split; simpl; [constructor| | |]; try set_solver. intros sha.
    rewrite lookup_empty. split; [set_solver|by intros [? ?]].
  - rewrite foldl_app. simpl. destruct (foldl _ _ as_) as [order bySHA].
    by apply distinct_inv_step.
Qed.

Lemma commit_items_total as_ order bySHA :
  distinct_inv as_ order bySHA ->
  (ItemKind <$> omap (commit_item bySHA) order) = replicate (length order) DigestItemCommit /\
  CommitSHA <$> omap (commit_item bySHA) order = order.
Proof.
  intros [_ Hdom _ _].
  assert (Hall : forall sha, sha ∈ order -> is_Some (bySHA !! sha)) by (intros; by apply Hdom).
  clear Hdom. induction order as [|sha order IH]; [done|].
  destruct (Hall sha) as [a Ha]; [set_solver|]. rewrite omap_cons_eq.
  assert (Hi : commit_item bySHA sha <> None) by (unfold commit_item; by rewrite Ha).
  destruct (commit_item bySHA sha) as [i|] eqn:Hci; [|done]. clear Hi.
  unfold commit_item in Hci. rewrite Ha in Hci. injection Hci as <-.
  destruct IH as [IHk IHs]; [set_solver|]. by rewrite !fmap_cons, IHk, IHs.
Qed.

(** ** Build: the finished digest *)
Section build.
Context `{UnicodeTables}.

(** The parts [build_core] is assembled from. *)
Definition b_sessions (inp : Input) : list Session := sort_stable session_before (Sessions inp).
Definition b_anchors (orders : nat -> list string -> list string) (inp : Input) : list RawAnchor :=
  acceptedAnchors orders 0 (CommitMatches inp) (normalizeCommitSet (CommitSet inp)).
Definition b_order orders inp : list string := (distinctAnchors (b_anchors orders inp)).1.
Definition b_raw orders inp : list Item :=
  concat (imap (session_items (b_anchors orders inp) (b_order orders inp)) (b_sessions inp)).
Definition b_commits orders inp : list Item :=
  omap (commit_item (distinctAnchors (b_anchors orders inp)).2) (b_order orders inp).
Definition b_sorted orders inp : list Item :=
  sort_stable item_before (b_raw orders inp ++ b_commits orders inp).

Lemma build_core_eq orders inp :
  build_core orders inp =
  mkDigest
    (mkHeader
      (match b_sessions inp with s :: _ => SHarness s | [] => "" end)
      (match b_sessions inp with s :: _ => SRedaction s | [] => "" end)
      (Z.of_nat (length (b_sessions inp)))
      (count_kind DigestItemPrompt (number_prompts 0 (b_sorted orders inp)))
      (Z.of_nat (length (b_order orders inp)))
      (Z.of_nat (size (normalizeCommitSet (CommitSet inp)))) (InURL inp))
    (skillList (skillCounts (b_raw orders inp)))
    (number_prompts 0 (b_sorted orders inp)).
Proof.
  unfold build_core, b_sorted, b_raw, b_commits, b_order, b_anchors.
  by destruct (distinctAnchors _).
Qed.

Lemma count_kind_perm k l l' : l ≡ₚ l' -> count_kind k l = count_kind k l'.
Proof. intros Hp. unfold count_kind. by rewrite Hp. Qed.

Lemma count_kind_app k l l' : count_kind k (l ++ l') = count_kind k l + count_kind k l'.
Proof. unfold count_kind. rewrite List.filter_app, length_app. lia. Qed.

Lemma b_sorted_perm orders inp : b_sorted orders inp ≡ₚ b_raw orders inp ++ b_commits orders inp.
Proof. apply sort_stable_perm. Qed.

Lemma kinds_filter k (l : list Item) k' :
  (ItemKind <$> l) = replicate (length l) k' ->
  List.filter (is_kind k) l = if bool_decide (k' = k) then l else [].
Proof.
  induction l as [|i l IH]; simpl; [by case_match|].
  intros [= Hi Hl]. unfold is_kind at 1. rewrite Hi, IH by done. by case_match.
Qed.

Lemma b_commits_filter k orders inp :
  List.filter (is_kind k) (b_commits orders inp) =
  if bool_decide (DigestItemCommit = k) then b_commits orders inp else [].
Proof.
  apply kinds_filter. unfold b_commits.
  destruct (commit_items_total _ _ _ (distinctAnchors_inv (b_anchors orders inp))) as [Hk Hs].
  fold (b_order orders inp) in Hk, Hs. rewrite Hk. f_equal.
  rewrite <- Hs at 1. apply length_fmap.
Qed.

Lemma b_commits_length orders inp : length (b_commits orders inp) = length (b_order orders inp).
Proof.
  destruct (commit_items_total _ _ _ (distinctAnchors_inv (b_anchors orders inp))) as [_ Hs].
  fold (b_order orders inp) in Hs. unfold b_commits. rewrite <- Hs at 2. by rewrite length_fmap.
Qed.

Lemma b_count_sessions orders inp :
  count_kind DigestItemSession (b_sorted orders inp) = Z.of_nat (length (b_sessions inp)).
Proof.
  rewrite (count_kind_perm _ _ _ (b_sorted_perm orders inp)), count_kind_app.
  unfold count_kind, b_raw. rewrite raw_sessions, b_commits_filter, length_imap. simpl. lia.
Qed.

Lemma b_count_commits orders inp :
  count_kind DigestItemCommit (b_sorted orders inp) = Z.of_nat (length (b_order orders inp)).
Proof.
  rewrite (count_kind_perm _ _ _ (b_sorted_perm orders inp)), count_kind_app.
  unfold count_kind, b_raw. rewrite raw_commits, b_commits_filter. simpl.
  by rewrite b_commits_length.
Qed.

Lemma b_count_prompts orders inp :
  count_kind DigestItemPrompt (b_sorted orders inp) =
  Z.of_nat (sum_list_with (fun s => length (List.filter isPrompt (Turns s))) (b_sessions inp)).
Proof.
  rewrite (count_kind_perm _ _ _ (b_sorted_perm orders inp)), count_kind_app.
  unfold b_raw. rewrite raw_prompts. unfold count_kind. rewrite b_commits_filter. simpl. lia.
Qed.

#[export] Instance item_before_weak : StrictWeak item_before.
Proof. apply (strict_weak_key ItemAt). Qed.
#[export] Instance session_before_weak : StrictWeak session_before.
Proof. apply (strict_weak_key SessionStart). Qed.

Lemma imap_sorted (f : nat -> Session -> Item) l :
  (forall si s, ItemAt (f si s) = SessionStart s) ->
  StronglySorted (not_after session_before) l -> StronglySorted (not_after item_before) (imap f l).
Proof.
  revert f. induction l as [|s l IH]; intros f Hf Hs; simpl; [constructor|].
  inversion Hs as [|?? Hs' Hall]; subst. constructor; [apply IH; [|done]; intros; apply Hf|].
  rewrite Forall_forall in Hall. apply Forall_forall.
  intros i (n&s'&->&Hs'in)%elem_of_lookup_imap.
  unfold not_after, item_before, compose. rewrite !Hf.
  apply (Hall s'). by eapply list_elem_of_lookup_2.
Qed.

(** The session heads keep their order: their instants are already ascending. *)
Lemma b_sessions_in_order orders inp :
  List.filter (is_kind DigestItemSession) (b_sorted orders inp) =
  imap (session_head (b_anchors orders inp) (b_order orders inp)) (b_sessions inp).
Proof.
  unfold b_sorted. rewrite filter_sort_stable by apply _.
  rewrite List.filter_app, b_commits_filter. simpl. rewrite app_nil_r.
  unfold b_raw. rewrite raw_sessions. apply sort_stable_fixed, imap_sorted; [done|].
  apply sort_stable_sorted, _.
Qed.

Lemma b_skills orders inp :
  skillCounts (number_prompts 0 (b_sorted orders inp)) = skillCounts (b_raw orders inp).
Proof.
  apply skillCounts_ext. intros name. unfold skill_count. f_equal.
  rewrite number_prompts_count by done. rewrite b_sorted_perm, List.filter_app.
  replace (List.filter (is_skill_named name) (b_commits orders inp)) with (@nil Item);
    [by rewrite app_nil_r|].
  unfold is_skill_named. symmetry.
  rewrite <- (list_filter_filter (fun i => String.eqb (Text i) name) (is_kind DigestItemSkill)).
  by rewrite b_commits_filter.
Qed.

Lemma number_prompts_elem n items i :
  i ∈ items -> exists i', i' ∈ number_prompts n items /\ (i' = i \/ exists m, i' = with_ordinal i m).
Proof.
  revert n. induction items as [|j items IH]; intros n; [set_solver|].
  cbn [number_prompts]. intros [->|Hin]%elem_of_cons.
  - case_match; eexists; (split; [apply elem_of_cons; by left|eauto]).
  - case_match; [destruct (IH (n + 1) Hin) as (i'&?&?)|destruct (IH n Hin) as (i'&?&?)];
      exists i'; (split; [apply elem_of_cons; by right|done]).
Qed.

Lemma turn_item_index t turn i : turn_item t turn = Some i -> TurnIndex i = Some (TIndex turn).
Proof.
  unfold turn_item. destruct (Command turn) as [[]|]; [by intros [= <-]|].
  case_match; [by intros [= <-]|done].
Qed.

Lemma resolveCommit_in order sha set c :
  (forall l (x : string), x ∈ order l -> x ∈ l) ->
  resolveCommit order sha set = Some c -> c ∈ set /\ has_prefix sha c = true.
Proof.
  intros Hord. unfold resolveCommit. case_bool_decide.
  - intros [= <-]. split; [done|]. apply has_prefix_spec. exists "". by rewrite string_app_nil_r.
  - intros [Hin Hp]%find_some. split; [|done].
    by apply list_elem_of_In, Hord, elem_of_elements in Hin.
Qed.

Lemma acceptedAnchors_in orders n matches set :
  (forall n l (x : string), x ∈ orders n l -> x ∈ l) ->
  forall a, a ∈ acceptedAnchors orders n matches set -> AResolved a ∈ set.
Proof.
  intros Hord. revert n. induction matches as [|m matches IH]; intros n a; [set_solver|].
  cbn [acceptedAnchors]. destruct (anchor_of (orders n) set m) as [b|] eqn:Hb; [|apply IH].
  intros [->|?]%elem_of_cons; [|by eapply IH].
  unfold anchor_of in Hb. cbv zeta in Hb. case_match; [done|].
  destruct (resolveCommit _ _ _) eqn:Hr; simplify_eq. simpl.
  by apply resolveCommit_in in Hr as [? _]; [|apply Hord].
Qed.

(** ** Properties of Build *)

(** C30: what [Build] answers is consistent: its counts, its skill list, its
    session numbers and its prompt ordinals are those of its own items. *)
Theorem build_consistent orders inp : consistent (build_core orders inp).
Proof.
  unfold consistent, recount. rewrite build_core_eq.
  cbn [Items DHeader Harness RedactionLevel CommitsTotal VillageURL].
  rewrite !renumber_kinds, skillCounts_renumber, b_skills.
  rewrite renumber_id.
  - rewrite (number_prompts_kinds 0 _ DigestItemSession), (number_prompts_kinds 0 _ DigestItemCommit).
    by rewrite b_count_sessions, b_count_commits.
  - intros k i. rewrite number_prompts_filter by (try done; intros ?; by apply is_kind_other).
    rewrite b_sessions_in_order, list_lookup_imap.
    intros (s&Hs&->)%fmap_Some. simpl. f_equal; lia.
  - intros k i Hi%number_prompts_ordinals. by rewrite Hi.
Qed.

(** Also: nothing the sessions hold is dropped and nothing is invented: one
    session item per session, one prompt item per prompt turn, every turn item
    and every commit item present, in chronological order. *)
Theorem build_complete orders inp :
  let d := build_core orders inp in
  SessionCount (DHeader d) = Z.of_nat (length (Sessions inp)) /\
  PromptCount (DHeader d) =
    Z.of_nat (sum_list_with (fun s => length (List.filter isPrompt (Turns s))) (Sessions inp)) /\
  StronglySorted (fun a b => ItemAt a <= ItemAt b) (Items d) /\
  forall s turn i, s ∈ Sessions inp -> turn ∈ Turns s -> turn_item (STranscript s) turn = Some i ->
    exists i', i' ∈ Items d /\ ItemKind i' = ItemKind i /\ ItemTranscript i' = STranscript s /\
      Text i' = Text i /\ Args i' = Args i /\ TurnIndex i' = Some (TIndex turn).
Proof.
  cbv zeta. rewrite build_core_eq.
  cbn [Items DHeader SessionCount PromptCount]. split_and!.
  - unfold b_sessions. by rewrite sort_stable_length.
  - rewrite number_prompts_kinds, b_count_prompts. f_equal.
    apply sum_list_with_perm, sort_stable_perm.
  - apply (strongly_sorted_fmap ItemAt Z.le). rewrite number_prompts_times.
    apply strongly_sorted_fmap.
    eapply strongly_sorted_weaken; [|apply (sort_stable_sorted item_before)].
    unfold not_after, item_before. intros a b. rewrite Z.ltb_ge. done.
  - intros s turn i Hs Ht Hi.
    assert (Hraw : i ∈ b_sorted orders inp).
    { rewrite b_sorted_perm. apply elem_of_app. left. unfold b_raw.
      apply list_elem_of_In, in_concat. unfold b_sessions.
      rewrite <- (elem_of_sort_stable session_before), list_elem_of_lookup in Hs.
      destruct Hs as [n Hn]. eexists. split.
      - apply list_elem_of_In, elem_of_lookup_imap. exists n, s. split; [reflexivity|exact Hn].
      - apply list_elem_of_In. rewrite session_items_eq. apply elem_of_cons. right.
        apply list_elem_of_omap. eauto. }
    destruct (number_prompts_elem 0 _ _ Hraw) as (i'&Hi'&Hsame). exists i'.
    split; [done|]. destruct Hsame as [->|[m ->]]; simpl;
      pose proof (turn_item_kind _ _ _ Hi) as [? _]; split_and!; try done;
      by apply turn_item_index in Hi.
Qed.

(** Also: the covered commits are distinct commits of the pull request's valid
    commit set, never more than it holds; each is attributed to the accepted
    match that recorded it earliest, and every accepted match is covered. *)
Theorem build_coverage orders inp :
  (forall n l, orders n l ≡ₚ l) ->
  let d := build_core orders inp in
  let commits := List.filter (is_kind DigestItemCommit) (Items d) in
  NoDup (CommitSHA <$> commits) /\
  CommitsCovered (DHeader d) = Z.of_nat (length commits) /\
  CommitsCovered (DHeader d) <= CommitsTotal (DHeader d) /\
  (forall i, i ∈ commits -> CommitSHA i ∈ normalizeCommitSet (CommitSet inp) /\
    exists a, a ∈ b_anchors orders inp /\ AResolved a = CommitSHA i /\
      ItemTranscript i = ATranscript a /\ ItemAt i = AAuthoredAt a /\
      forall b, b ∈ b_anchors orders inp -> AResolved b = CommitSHA i ->
        AAuthoredAt a <= AAuthoredAt b) /\
  (forall a, a ∈ b_anchors orders inp -> AResolved a ∈ CommitSHA <$> commits).
Proof.
  intros Hord. cbv zeta. rewrite build_core_eq.
  cbn [Items DHeader CommitsCovered CommitsTotal].
  pose proof (distinctAnchors_inv (b_anchors orders inp)) as Hinv.
  destruct (commit_items_total _ _ _ Hinv) as [_ Hshas].
  fold (b_order orders inp) in Hinv, Hshas. fold (b_commits orders inp) in Hshas.
  rewrite number_prompts_filter by (try done; intros ?; by apply is_kind_other).
  assert (Hperm : List.filter (is_kind DigestItemCommit) (b_sorted orders inp) ≡ₚ b_commits orders inp).
  { rewrite b_sorted_perm, List.filter_app, b_commits_filter. unfold b_raw. by rewrite raw_commits. }
  assert (Hsub : forall a, a ∈ b_anchors orders inp -> AResolved a ∈ normalizeCommitSet (CommitSet inp)).
  { apply acceptedAnchors_in. intros n l x. by rewrite Hord. }
  assert (Hin : forall sha, sha ∈ b_order orders inp -> sha ∈ normalizeCommitSet (CommitSet inp)).
  { intros sha [a Ha]%(di_dom _ _ _ Hinv). destruct (di_anchor _ _ _ Hinv _ _ Ha) as (<-&?&_). auto. }
  split_and!.
  - rewrite Hperm, Hshas. apply Hinv.
  - by rewrite Hperm, b_commits_length.
  - apply Nat2Z.inj_le.
    transitivity (size (list_to_set (C := gset string) (b_order orders inp))).
    + rewrite size_list_to_set; [done|]. apply Hinv.
    + apply subseteq_size. intros sha ?%elem_of_list_to_set. auto.
  - intros i Hi. rewrite Hperm in Hi. unfold b_commits in Hi.
    apply list_elem_of_omap in Hi as (sha&Hsha&Hi). unfold commit_item in Hi.
    destruct ((distinctAnchors (b_anchors orders inp)).2 !! sha) as [a|] eqn:Ha; simplify_eq/=.
    split; [auto|]. destruct (di_anchor _ _ _ Hinv _ _ Ha) as (?&?&?). eauto 10.
  - intros a Ha. rewrite Hperm, Hshas. by apply (di_cover _ _ _ Hinv).
Qed.
End build.

(** Whatever digest is narrowed, what is left was kept. *)
Lemma Restrict_keeps validate d keep d' i :
  Restrict validate d keep = Ok d' -> i ∈ Items d' -> keep (ItemTranscript i) = true.
Proof.
  intros ->%Restrict_Ok. unfold restrict_core. cbv zeta.
  destruct (Nat.eqb_spec (length (List.filter (fun i => keep (ItemTranscript i)) (Items d)))
    (length (Items d))) as [Hl|_]; intros Hi.
  - rewrite <- (list_filter_length_eq _ _ Hl) in Hi. by apply elem_of_list_filter in Hi as [_ ?].
  - change (i ∈ renumber 0 0 (List.filter (fun i => keep (ItemTranscript i)) (Items d))) in Hi.
    assert (Ht : ItemTranscript i ∈ ItemTranscript <$>
      List.filter (fun i => keep (ItemTranscript i)) (Items d)).
    { rewrite <- (renumber_transcripts 0 0). by apply list_elem_of_fmap_2. }
    by apply list_elem_of_fmap in Ht as (j&->&[_ Hj]%elem_of_list_filter).
Qed.

(** ** Properties of Restrict *)

(** Also: a restricted digest shows only the kept transcripts: its items are the
    kept items in order, renumbered over what remains, and every count and the
    skill list are recounted from them alone. *)
Theorem restrict_shows_kept_only validate d keep d' :
  consistent d -> Restrict validate d keep = Ok d' ->
  consistent d' /\
  (forall i, i ∈ Items d' -> keep (ItemTranscript i) = true) /\
  Items d' = renumber 0 0 (List.filter (fun i => keep (ItemTranscript i)) (Items d)) /\
  SessionCount (DHeader d') = count_kind DigestItemSession (Items d') /\
  PromptCount (DHeader d') = count_kind DigestItemPrompt (Items d') /\
  CommitsCovered (DHeader d') = count_kind DigestItemCommit (Items d') /\
  Skills d' = skillList (skillCounts (Items d')).
Proof.
  intros Hc Hr. pose proof (fun i => Restrict_keeps _ _ _ _ i Hr) as Hk.
  apply Restrict_Ok in Hr as ->. split; [by apply restrict_core_consistent|]. split; [done|].
  by rewrite restrict_core_recount.
Qed.

Lemma restrict_ext validate d k k' :
  (forall t, k t = k' t) -> Restrict validate d k = Restrict validate d k'.
Proof.
  intros Hk. unfold Restrict.
  rewrite (filter_ext (fun i => k (ItemTranscript i)) (fun i => k' (ItemTranscript i))); [done|].
  intros i. apply Hk.
Qed.

Lemma restrict_agree validate d1 d2 keep :
  consistent d1 -> consistent d2 -> validate d1 = true -> validate d2 = true ->
  Harness (DHeader d1) = Harness (DHeader d2) ->
  RedactionLevel (DHeader d1) = RedactionLevel (DHeader d2) ->
  CommitsTotal (DHeader d1) = CommitsTotal (DHeader d2) ->
  VillageURL (DHeader d1) = VillageURL (DHeader d2) ->
  renumber 0 0 (List.filter (fun i => keep (ItemTranscript i)) (Items d1)) =
    renumber 0 0 (List.filter (fun i => keep (ItemTranscript i)) (Items d2)) ->
  Restrict validate d1 keep = Restrict validate d2 keep.
Proof.
  intros Hc1 Hc2 Hv1 Hv2 Hh Hr Ht Hu Hitems.
  assert (Hvalid : forall d, consistent d -> validate d = true ->
    Restrict validate d keep =
    if validate (restrict_core d keep) then Ok (restrict_core d keep) else Err (restrict_core d keep)).
  { intros d Hc Hv. unfold Restrict, restrict_core. cbv zeta. case_match; [by rewrite Hv|done]. }
  rewrite !Hvalid by done. replace (restrict_core d2 keep) with (restrict_core d1 keep); [done|].
  rewrite !restrict_core_recount by done. unfold recount.
  by rewrite Hh, Hr, Ht, Hu, Hitems.
Qed.

(** Also: a restricted digest tells a reader nothing about the transcripts it
    leaves out: two valid digests that agree on the kept items, on the harness
    and level of the chain and on the pull request restrict to the same answer. *)
Theorem restrict_noninterference validate d1 d2 keep :
  consistent d1 -> consistent d2 -> validate d1 = true -> validate d2 = true ->
  Harness (DHeader d1) = Harness (DHeader d2) ->
  RedactionLevel (DHeader d1) = RedactionLevel (DHeader d2) ->
  CommitsTotal (DHeader d1) = CommitsTotal (DHeader d2) ->
  VillageURL (DHeader d1) = VillageURL (DHeader d2) ->
  renumber 0 0 (List.filter (fun i => keep (ItemTranscript i)) (Items d1)) =
    renumber 0 0 (List.filter (fun i => keep (ItemTranscript i)) (Items d2)) ->
  Restrict validate d1 keep = Restrict validate d2 keep.
Proof. apply restrict_agree. Qed.

(** Also: narrowing a digest twice is narrowing it once by both filters, so what
    a reader sees does not depend on how many copies it passed through. *)
Theorem restrict_compose validate d d1 k1 k2 :
  consistent d -> Restrict validate d k1 = Ok d1 ->
  Restrict validate d1 k2 = Restrict validate d (fun t => k1 t && k2 t).
Proof.
  intros Hc H1. pose proof (Restrict_Ok _ _ _ _ H1) as Hd1.
  pose proof (restrict_core_recount d k1 Hc) as Hr1. rewrite <- Hd1 in Hr1.
  assert (Hcomp : recount d1 (List.filter (fun i => k2 (ItemTranscript i)) (Items d1)) =
    recount d (List.filter (fun i => k1 (ItemTranscript i) && k2 (ItemTranscript i)) (Items d))).
  { rewrite Hr1, recount_recount. by rewrite list_filter_filter. }
  assert (Hlen : length (List.filter (fun i => k2 (ItemTranscript i)) (Items d1)) =
    length (List.filter (fun i => k1 (ItemTranscript i) && k2 (ItemTranscript i)) (Items d))).
  { apply (f_equal (fun x => length (Items x))) in Hcomp.
    by rewrite !recount_items_length in Hcomp. }
  assert (Hlen1 : length (Items d1) = length (List.filter (fun i => k1 (ItemTranscript i)) (Items d))).
  { by rewrite Hr1, recount_items_length. }
  pose proof (list_filter_length_le (fun i => k1 (ItemTranscript i)) (Items d)).
  unfold Restrict at 1 2. cbv zeta. rewrite Hcomp, Hlen, Hlen1.
  destruct (Nat.eqb_spec (length (List.filter (fun i => k1 (ItemTranscript i) && k2 (ItemTranscript i))
    (Items d))) (length (Items d))) as [Hall|Hsome].
  - assert (Hk1 : length (List.filter (fun i => k1 (ItemTranscript i)) (Items d)) = length (Items d)).
    { rewrite <- (list_filter_filter (fun i => k2 (ItemTranscript i))) in Hall.
      pose proof (list_filter_length_le (fun i => k2 (ItemTranscript i))
        (List.filter (fun i => k1 (ItemTranscript i)) (Items d))). lia. }
    rewrite Hk1, Hall, Nat.eqb_refl. by rewrite Hr1, (list_filter_length_eq _ _ Hk1), Hc.
  - destruct (Nat.eqb_spec (length (List.filter (fun i => k1 (ItemTranscript i) && k2 (ItemTranscript i))
      (Items d))) (length (List.filter (fun i => k1 (ItemTranscript i)) (Items d)))) as [Hsame|]; [|done].
    assert (Hd : recount d (List.filter (fun i => k1 (ItemTranscript i) && k2 (ItemTranscript i)) (Items d)) = d1).
    { rewrite Hr1. f_equal. rewrite <- (list_filter_filter (fun i => k2 (ItemTranscript i))).
      rewrite <- (list_filter_filter (fun i => k2 (ItemTranscript i))) in Hsame.
      by apply list_filter_length_eq. }
    rewrite Hd. unfold Restrict in H1. cbv zeta in H1.
    destruct (Nat.eqb_spec (length (List.filter (fun i => k1 (ItemTranscript i)) (Items d)))
      (length (Items d))) as [Hk1|]; [lia|].
    rewrite <- Hr1 in H1. by destruct (validate d1).
Qed.

(** ** The order of a map range *)

(** A range visits every key once, in some order. *)
Definition range_order (order : list string -> list string) : Prop := forall l, order l ≡ₚ l.

Lemma find_front (f : string -> bool) c l :
  f c = true -> c ∈ l -> exists l', l' ≡ₚ l /\ find f l' = Some c.
Proof.
  intros Hc Hin. apply list_elem_of_split in Hin as (l1&l2&->). exists (c :: l1 ++ l2).
  split; [by rewrite Permutation_middle|]. simpl. by rewrite Hc.
Qed.

(** An order that visits [c] first in this one set of keys. *)
Definition visit_first (keys front : list string) (l : list string) : list string :=
  if bool_decide (l = keys) then front else l.

Lemma visit_first_order keys front : front ≡ₚ keys -> range_order (visit_first keys front).
Proof. intros Hp l. unfold visit_first. case_bool_decide; by subst. Qed.

(** Also: a SHA resolves into the commit set when it can, to a commit it
    prefixes, and whether it resolves does not depend on the order the map is
    visited in; nor does the commit, as long as at most one commit carries the
    prefix. *)
Theorem digest_resolve_deterministic order1 order2 sha set :
  range_order order1 -> range_order order2 ->
  (forall c, resolveCommit order1 sha set = Some c -> c ∈ set /\ has_prefix sha c = true) /\
  (resolveCommit order1 sha set = None <-> forall c, c ∈ set -> has_prefix sha c = false) /\
  ((forall c c', c ∈ set -> c' ∈ set -> has_prefix sha c = true -> has_prefix sha c' = true -> c = c') ->
    resolveCommit order1 sha set = resolveCommit order2 sha set).
Proof.
  unfold range_order. intros Ho1 Ho2.
  assert (Hin : forall order c, (forall l, order l ≡ₚ l) ->
    resolveCommit order sha set = Some c -> c ∈ set /\ has_prefix sha c = true).
  { intros order c Ho. apply resolveCommit_in. intros l x. by rewrite Ho. }
  assert (Hnone : forall order, (forall l, order l ≡ₚ l) ->
    (resolveCommit order sha set = None <-> forall c, c ∈ set -> has_prefix sha c = false)).
  { intros order Ho. unfold resolveCommit. case_bool_decide as Hs.
    - split; [done|]. intros Hno. specialize (Hno sha Hs).
      pose proof (has_prefix_app sha "") as Hp. rewrite string_app_nil_r in Hp. congruence.
    - split.
      + intros Hf c Hc. apply (find_none _ _ Hf). rewrite <- list_elem_of_In, Ho.
        by apply elem_of_elements.
      + intros Hno. destruct (find _ _) as [c|] eqn:Hf; [|done].
        apply find_some in Hf as [Hc Hp]. rewrite <- list_elem_of_In, Ho, elem_of_elements in Hc.
        rewrite Hno in Hp; done. }
  split_and!; [intros c; by apply Hin|by apply Hnone|]. intros Huniq.
  destruct (resolveCommit order1 sha set) as [c1|] eqn:H1,
    (resolveCommit order2 sha set) as [c2|] eqn:H2; try done.
  - apply Hin in H1 as [??], H2 as [??]; [|done..]. f_equal. auto.
  - apply Hin in H1 as [Hc Hp]; [|done]. rewrite (Hnone order2) in H2 by done.
    rewrite H2 in Hp; done.
  - apply Hin in H2 as [Hc Hp]; [|done]. rewrite (Hnone order1) in H1 by done.
    rewrite H1 in Hp; done.
Qed.

(** Also: an abbreviation that prefixes several commits of the set is not refused:
    each of them is the answer under some visiting order of the map, so two runs
    of [Build] on one input can cover different commits. *)
Theorem digest_resolve_ambiguous sha set c :
  sha ∉ set -> c ∈ set -> has_prefix sha c = true ->
  exists order, range_order order /\ resolveCommit order sha set = Some c.
Proof.
  intros Hs Hc Hp. destruct (find_front (has_prefix sha) c (elements set)) as (l'&Hl'&Hf).
  { done. } { by apply elem_of_elements. }
  exists (visit_first (elements set) l'). split; [by apply visit_first_order|].
  unfold resolveCommit, visit_first. rewrite bool_decide_eq_false_2 by done.
  by rewrite bool_decide_eq_true_2.
Qed.

(** Also: the skill list is the one list sorted by name with the counts of the map,
    whatever order the map was visited in and whatever sort was run on it. *)
Theorem skill_list_canonical counts (l : list Skill) :
  l ≡ₚ (fun p => mkSkill p.1 p.2) <$> map_to_list counts ->
  StronglySorted (fun a b => String.ltb (SkillName b) (SkillName a) = false) l ->
  l = skillList counts.
Proof.
  intros Hp Hs. rewrite <- (sort_stable_fixed skill_less l) by exact Hs.
  apply sort_stable_canonical; [apply _|done|].
  intros a b Ha Hb Hab Hba. unfold skill_less in *.
  assert (Hname : SkillName a = SkillName b) by by apply string_ltb_total.
  rewrite Hp in Ha, Hb. apply list_elem_of_fmap in Ha as ([n1 c1]&->&H1%elem_of_map_to_list).
  apply list_elem_of_fmap in Hb as ([n2 c2]&->&H2%elem_of_map_to_list).
  simpl in *. congruence.
Qed.

(** ** Witnesses *)
Definition sample_input : Input :=
  mkInput "https://village/pulls/acme/app/3"
    ["aaaaaaa1111"; "bbbbbbb2222"; "bbbbbbb3333"]
    [mkSession "t2" "claude" "standard" 50
       [mkTurn 0 RoleUser " fix it " 51 None; mkTurn 1 RoleOther "done" 52 None];
     mkSession "t1" "codex" "standard" 10
       [mkTurn 0 RoleUser "start" 11 None; mkTurn 1 RoleUser "" 12 (Some ("review", "all"))]]
    [mkCommitMatch "t1" "aaaaaaa" 20 (Some 3) (Some 1) (Some 2);
     mkCommitMatch "t2" "AAAAAAA1111" 60 None None None].
Definition no_order : nat -> list string -> list string := fun _ l => l.
Definition accept_all : PromptDigest -> bool := fun _ => true.
Definition sample_digest : PromptDigest := @build_core ascii_tables no_order sample_input.

Lemma build_coverage_witness :
  CommitsCovered (DHeader sample_digest) = 1 /\
  CommitsCovered (DHeader sample_digest) <= CommitsTotal (DHeader sample_digest).
Proof.
  split; [vm_compute; reflexivity|].
  exact (proj1 (proj2 (proj2 (@build_coverage ascii_tables no_order sample_input
    (fun n l => Permutation_refl l))))).
Defined.

Lemma restrict_shows_witness :
  exists d', Restrict accept_all sample_digest (String.eqb "t1") = Ok d' /\
    length (Items d') = 4%nat /\ forall i, i ∈ Items d' -> String.eqb "t1" (ItemTranscript i) = true.
Proof.
  eexists. split; [vm_compute; reflexivity|]. split; [reflexivity|].
  refine (proj1 (proj2 (restrict_shows_kept_only accept_all sample_digest (String.eqb "t1") _ _ _))).
  - vm_compute. reflexivity.
  - vm_compute. reflexivity.
Defined.

(** The same chain with the hidden transcript's prompt rewritten. *)
Definition other_input : Input :=
  mkInput "https://village/pulls/acme/app/3"
    ["aaaaaaa1111"; "bbbbbbb2222"; "bbbbbbb3333"]
    [mkSession "t2" "claude" "standard" 50
       [mkTurn 0 RoleUser "something else" 51 None; mkTurn 1 RoleOther "done" 52 None];
     mkSession "t1" "codex" "standard" 10
       [mkTurn 0 RoleUser "start" 11 None; mkTurn 1 RoleUser "" 12 (Some ("review", "all"))]]
    [mkCommitMatch "t1" "aaaaaaa" 20 (Some 3) (Some 1) (Some 2)].

Lemma restrict_noninterference_witness :
  sample_digest <> @build_core ascii_tables no_order other_input /\
  Restrict accept_all sample_digest (String.eqb "t1") =
  Restrict accept_all (@build_core ascii_tables no_order other_input) (String.eqb "t1").
Proof.
  split; [vm_compute; discriminate|].
  apply restrict_noninterference; vm_compute; reflexivity.
Defined.

Lemma restrict_compose_witness :
  exists d1, Restrict accept_all sample_digest (String.eqb "t1") = Ok d1 /\
  Restrict accept_all d1 (fun _ => false) =
  Restrict accept_all sample_digest (fun t => String.eqb "t1" t && false).
Proof.
  eexists. split; [vm_compute; reflexivity|].
  apply (restrict_compose accept_all sample_digest); vm_compute; reflexivity.
Defined.

Lemma digest_resolve_deterministic_witness :
  resolveCommit (fun l => l) "aaaaaaa" {["aaaaaaa1111"; "bbbbbbb2222"]} =
  resolveCommit (@rev string) "aaaaaaa" {["aaaaaaa1111"; "bbbbbbb2222"]}.
Proof.
  apply (digest_resolve_deterministic (fun l => l) (@rev string)).
  - intros l. reflexivity.
  - intros l. symmetry. apply Permutation_rev.
  - intros c c' Hc Hc' Hp Hp'.
    apply elem_of_union in Hc as [->%elem_of_singleton| ->%elem_of_singleton];
      apply elem_of_union in Hc' as [->%elem_of_singleton| ->%elem_of_singleton];
      first [reflexivity|revert Hp; vm_compute; discriminate|revert Hp'; vm_compute; discriminate].
Defined.

Lemma digest_resolve_ambiguous_witness :
  exists o1 o2 c1 c2, range_order o1 /\ range_order o2 /\ c1 <> c2 /\
    resolveCommit o1 "bbbbbbb" {["bbbbbbb2222"; "bbbbbbb3333"]} = Some c1 /\
    resolveCommit o2 "bbbbbbb" {["bbbbbbb2222"; "bbbbbbb3333"]} = Some c2.
Proof.
  destruct (digest_resolve_ambiguous "bbbbbbb" {["bbbbbbb2222"; "bbbbbbb3333"]} "bbbbbbb2222")
    as (o1&Ho1&Hr1); [vm_compute; discriminate || (intros []; discriminate)|set_solver|reflexivity|].
  destruct (digest_resolve_ambiguous "bbbbbbb" {["bbbbbbb2222"; "bbbbbbb3333"]} "bbbbbbb3333")
    as (o2&Ho2&Hr2); [vm_compute; discriminate || (intros []; discriminate)|set_solver|reflexivity|].
  exists o1, o2, "bbbbbbb2222", "bbbbbbb3333".
  split; [exact Ho1|]. split; [exact Ho2|]. split; [discriminate|]. split; [exact Hr1|exact Hr2].
Defined.

Lemma skill_list_canonical_witness :
  [mkSkill "a" 2; mkSkill "b" 1] = skillList (<["b" := 1]> {["a" := 2]}).
Proof.
  apply skill_list_canonical.
  - vm_compute. first [reflexivity|constructor].
  - constructor; [constructor; [constructor|constructor]|].
    constructor; [reflexivity|constructor].
Defined.
End Digest.
