(* ===== verification/Render.v ===== *)
(** * [internal/digest/render.go]: the digest as GitHub Markdown

    The three tiers, the escaping of user text, the table of transcripts laid
    out within the byte budget, and the prompts of the listed transcripts. *)
From S2P Require Import Prelude GoText Regex Digest.

Open Scope string_scope.
Open Scope list_scope.
Open Scope Z_scope.

Module Render.
Import Digest.

Record Tier : Type := mkTier {
  TierName : string;
  InlinePrompts : Z;
  MaxBytes : Z
}.

Definition CommentTier : Tier := mkTier "comment" 10 20000.
Definition CheckRunTier : Tier := mkTier "check-run" 25 60000.
Definition VillageTier : Tier := mkTier "village" 0 0.

Record Row : Type := mkRow {
  RowTranscript : string;
  Title : string;
  Author : string;
  Listed : bool;
  URL : string
}.

Record PullRequest : Type := mkPullRequest {
  PRDigest : PromptDigest;
  Rows : list Row;
  PRCommitSet : list string
}.

Definition maxTitleRunes : Z := 120.
Definition maxPromptRunes : Z := 300.
Definition maxRowCommits : nat := 5.
Definition maxUncoveredCommits : nat := 3.
Definition shortSHA : nat := 7.

Definition nl : string := of_bytes [10].
Definition tableHead : string :=
  nl +:+ "| transcript | author | commits |" +:+ nl +:+ "| --- | --- | --- |" +:+ nl.

Inductive RenderError : Type :=
| EInvalidDigest
| ENoVillagePage
| ENoRow (transcript : string)
| ETableTooLarge
| ERestrict.

Definition plural (n : Z) (noun : string) : string :=
  if n =? 1 then "1 " +:+ noun else itoa n +:+ " " +:+ noun +:+ "s".

Definition moreLine (remaining : Z) : string :=
  nl +:+ "[" +:+ itoa remaining +:+ " more on village][pr]" +:+ nl.

Definition moreRow (remaining : Z) : string :=
  "| [" +:+ plural remaining "more transcript" +:+ " on village][pr] | | |" +:+ nl.

Definition boldLine (transcripts covered total : Z) : string :=
  if transcripts =? 0 then "**peasant / prompts · no transcripts are attached**" +:+ nl
  else
    let verb := if transcripts =? 1 then "traces" else "trace" in
    "**peasant / prompts · " +:+ plural transcripts "transcript" +:+ " " +:+ verb +:+ " " +:+
    itoa covered +:+ " of " +:+ itoa total +:+ " commits**" +:+ nl.

Definition short_sha (sha : string) : string :=
  if (shortSHA <? String.length sha)%nat then byte_take shortSHA sha else sha.

Definition shortList (shas : list string) (limit : nat) : string :=
  let shown := take limit shas in
  let out := join ", " (short_sha <$> shown) in
  let extra := Z.of_nat (length shas) - Z.of_nat (length shown) in
  if 0 <? extra then out +:+ " and " +:+ itoa extra +:+ " more" else out.

Definition commitList (shas : list string) : string :=
  match shas with [] => "none" | _ => shortList shas maxRowCommits end.

Definition uncoveredLine (shas : list string) : string :=
  if (length shas =? 1)%nat then shortList shas maxUncoveredCommits +:+ " has no transcript"
  else shortList shas maxUncoveredCommits +:+ " have no transcript".

Definition RenderPreview (matches : Z) (pullURL : string) : string :=
  let subject := if matches =? 1 then "1 of your transcripts matches"
                 else itoa matches +:+ " of your transcripts match" in
  subject +:+ " this pull request: [review and attach them on village](" +:+ pullURL +:+ ")." +:+ nl.

(** ** User text *)
Definition collapse (text : string) : string := join " " (fields text).

(** The code points a backslash goes in front of, wherever they stand. *)
Definition special (r : Z) : bool :=
  existsb (Z.eqb r) [92; 96; 42; 95; 91; 93; 60; 62; 38; 124; 126; 35; 36].

Definition leadingDigits (prefix : list Z) : bool :=
  match prefix with [] => false | _ => forallb (between 48 57) prefix end.

(** [<!-- -->], which renders as nothing. *)
Definition splitMark : list Z := [60; 33; 45; 45; 32; 45; 45; 62].

Section unicode.
Context `{UnicodeTables}.

Definition isWordRune (r : Z) : bool := (r =? 95) || is_letter r || is_digit r.

(** [prefix] is what the loop has passed already. *)
Fixpoint inline_from (prefix l : list Z) : list Z :=
  match l with
  | [] => []
  | r :: rest =>
    let opens := match prefix with [] => (r =? 45) || (r =? 43) | _ => false end ||
                 (((r =? 46) || (r =? 41)) && leadingDigits prefix) in
    (if opens then [92] else []) ++ (if special r then [92] else []) ++ [r] ++
    (if (r =? 64) || (r =? 35)
     then match rest with
          | next :: _ => if isWordRune next then splitMark else []
          | [] => []
          end
     else []) ++
    inline_from (prefix ++ [r]) rest
  end.

Definition inline_runes (text : string) : list Z := inline_from [] (runes (collapse text)).
Definition inline (text : string) : string := of_runes (inline_runes text).

Definition clip (text : string) (limit : Z) : string :=
  let text := collapse text in
  if rune_count text <=? limit then text
  else trim_right_byte 32 (of_runes (take (Z.to_nat (limit - 1)) (runes text))) +:+ of_runes [8230].

Definition handle (author : string) : string :=
  if String.eqb (trim_space author) "" then "unknown"
  else "@<!-- -->" +:+ inline author.

(** [seen] and [covered] both exclude a commit from the list. *)
Fixpoint uncovered_from (commitSet : list string) (covered seen : gset string) : list string :=
  match commitSet with
  | [] => []
  | sha :: rest =>
    let lower := to_lower (trim_space sha) in
    if negb (match_full commitSHAPattern lower) || bool_decide (lower ∈ seen) ||
       bool_decide (lower ∈ covered)
    then uncovered_from rest covered seen
    else lower :: uncovered_from rest covered ({[lower]} ∪ seen)
  end.
Definition uncoveredCommits (commitSet : list string) (covered : gset string) : list string :=
  uncovered_from commitSet covered ∅.

(** ** The prompt list *)
Record Block : Type := mkBlock { BText : string; BPrompt : bool }.

Definition skill_entry (item : Item) : string :=
  let text := if String.eqb (Args item) "" then Text item else Text item +:+ " " +:+ Args item in
  "- " +:+ inline (clip text maxPromptRunes) +:+ nl.

(** One item: the blocks so far with the last one first, and the indent. *)
Definition block_step (st : list Block * string) (item : Item) : list Block * string :=
  let '(blocks, indent) := st in
  match ItemKind item with
  | DigestItemPrompt =>
    let marker := itoa (default 0 (Ordinal item)) +:+ ". " in
    (mkBlock (marker +:+ inline (clip (Text item) maxPromptRunes) +:+ nl) true :: blocks,
     repeat_string " " (String.length marker))
  | DigestItemSkill =>
    let entry := skill_entry item in
    match blocks with
    | [] => ([mkBlock entry false], indent)
    | b :: rest =>
      if BPrompt b then (mkBlock (BText b +:+ indent +:+ entry) true :: rest, indent)
      else (mkBlock (BText b +:+ entry) false :: rest, indent)
    end
  | _ => st
  end.

Definition blocks_of (items : list Item) : list Block := rev (foldl block_step ([], "") items).1.

(** The emission loop; [frame] is what the block costs beside its text. *)
Fixpoint emit (tier : Tier) (budget frame : Z) (blocks : list Block)
    (out : string) (inlined emitted : Z) : string * Z * Z :=
  match blocks with
  | [] => (out, inlined, emitted)
  | b :: rest =>
    if BPrompt b && (0 <? InlinePrompts tier) && (InlinePrompts tier <=? inlined)
    then (out, inlined, emitted)
    else
      let text := if BPrompt b then BText b else BText b +:+ nl in
      if (0 <? MaxBytes tier) && (budget <? frame + blen out + blen text)
      then (out, inlined, emitted)
      else emit tier budget frame rest (out +:+ text)
             (if BPrompt b then inlined + 1 else inlined) (emitted + 1)
  end.

Definition closing : string := nl +:+ "</details>" +:+ nl.

Definition details_of (tier : Tier) (budget : Z) (items : list Item) : string :=
  match blocks_of items with
  | [] => ""
  | blocks =>
    let total := count_kind DigestItemPrompt items in
    let summary := if total =? 0 then "skills" else plural total "prompt" in
    let open_ := nl +:+ "<details>" +:+ nl +:+ "<summary>" +:+ summary +:+ "</summary>" +:+ nl +:+ nl in
    let moreReserve := if 0 <? total then blen (moreLine total) else 0 in
    let frame := blen open_ + moreReserve + blen closing in
    let '(out, inlined, emitted) := emit tier budget frame blocks "" 0 0 in
    if (emitted =? 0) && (0 <? MaxBytes tier) && (budget <? frame) then ""
    else
      let remaining := total - inlined in
      (open_ +:+ out) +:+ (if 0 <? remaining then moreLine remaining else "") +:+ closing
  end.

Definition is_listed (rows : gmap string Row) (id : string) : bool :=
  match rows !! id with Some row => Listed row | None => false end.

Definition promptDetails (validate : PromptDigest -> bool) (d : PromptDigest)
    (rows : gmap string Row) (tier : Tier) (budget : Z) : result RenderError string :=
  match Restrict validate d (is_listed rows) with
  | Err _ => Err ERestrict
  | Ok listed => Ok (details_of tier budget (Items listed))
  end.

(** ** The table *)
Record Scan : Type := mkScan {
  Order : list Row;
  CommitsOf : gmap string (list string);
  Covered : gset string
}.

(** The pass over the items; it stops at a session without a row. *)
Fixpoint scan_items (rows : gmap string Row) (items : list Item) (st : Scan) :
    result RenderError Scan :=
  match items with
  | [] => Ok st
  | item :: rest =>
    match ItemKind item with
    | DigestItemSession =>
      match rows !! ItemTranscript item with
      | None => Err (ENoRow (ItemTranscript item))
      | Some row => scan_items rows rest (mkScan (Order st ++ [row]) (CommitsOf st) (Covered st))
      end
    | DigestItemCommit =>
      let shas := default [] (CommitsOf st !! ItemTranscript item) ++ [CommitSHA item] in
      scan_items rows rest (mkScan (Order st) (<[ItemTranscript item := shas]> (CommitsOf st))
        ({[CommitSHA item]} ∪ Covered st))
    | _ => scan_items rows rest st
    end
  end.

(** A table line and the reference definition it needs. *)
Definition table_line (commitsOf : gmap string (list string)) (ref : Z) (row : Row) :
    (string * string) * Z :=
  let tail := " | " +:+ handle (Author row) +:+ " | " +:+
    commitList (default [] (commitsOf !! RowTranscript row)) +:+ " |" +:+ nl in
  if Listed row then
    let ref' := ref + 1 in
    let title := if String.eqb (trim_space (Title row)) "" then "untitled transcript" else Title row in
    (("| [" +:+ inline (clip title maxTitleRunes) +:+ "][" +:+ itoa ref' +:+ "]" +:+ tail,
      "[" +:+ itoa ref' +:+ "]: " +:+ URL row +:+ nl), ref')
  else (("| [read on village][pr]" +:+ tail, ""), ref).

Fixpoint table_lines (commitsOf : gmap string (list string)) (ref : Z) (order : list Row) :
    list (string * string) :=
  match order with
  | [] => []
  | row :: rest =>
    let '(l, ref') := table_line commitsOf ref row in
    l :: table_lines commitsOf ref' rest
  end.

(** How many lines fit, keeping room for the row that counts the others. *)
Fixpoint fit_lines (tier : Tier) (size : Z) (lines : list (string * string)) : nat :=
  match lines with
  | [] => 0
  | l :: rest =>
    let reserve := match rest with
      | [] => 0
      | _ => blen (moreRow (Z.of_nat (length lines)))
      end in
    if (0 <? MaxBytes tier) && (MaxBytes tier <? size + blen l.1 + blen l.2 + reserve) then 0
    else S (fit_lines tier (size + blen l.1 + blen l.2) rest)
  end.

Definition rows_map (rows : list Row) : gmap string Row :=
  foldl (fun m row => <[RowTranscript row := row]> m) ∅ rows.

Definition Render (validate : PromptDigest -> bool) (inp : PullRequest) (tier : Tier) :
    result RenderError string :=
  let d := PRDigest inp in
  if negb (validate d) then Err EInvalidDigest
  else if String.eqb (trim_space (VillageURL (DHeader d))) "" then Err ENoVillagePage
  else
    let rows := rows_map (Rows inp) in
    match scan_items rows (Items d) (mkScan [] ∅ ∅) with
    | Err e => Err e
    | Ok sc =>
      let lines := table_lines (CommitsOf sc) 0 (Order sc) in
      let head := boldLine (Z.of_nat (length (Order sc))) (CommitsCovered (DHeader d))
        (CommitsTotal (DHeader d)) in
      let footer :=
        match uncoveredCommits (PRCommitSet inp) (Covered sc) with
        | [] => nl +:+ "[view on village][pr]" +:+ nl
        | uncovered => nl +:+ "[view on village][pr]" +:+ " · " +:+ uncoveredLine uncovered +:+ nl
        end in
      let prDef := "[pr]: " +:+ VillageURL (DHeader d) +:+ nl in
      let size := blen head + blen tableHead + blen footer + 1 + blen prDef in
      let kept := fit_lines tier size lines in
      let table :=
        match lines with
        | [] => ""
        | _ => tableHead +:+ String.concat "" (take kept lines).*1 +:+
               (if (kept <? length lines)%nat
                then moreRow (Z.of_nat (length lines) - Z.of_nat kept) else "")
        end in
      let defs := String.concat "" (take kept lines).*2 +:+ prDef in
      let fixed := head +:+ table in
      let tail := footer +:+ nl +:+ defs in
      if (0 <? MaxBytes tier) && (MaxBytes tier <? blen fixed + blen tail) then Err ETableTooLarge
      else
        match promptDetails validate d rows tier (MaxBytes tier - blen fixed - blen tail) with
        | Err e => Err e
        | Ok details => Ok (fixed +:+ details +:+ tail)
        end
    end.

(** ** The byte budget *)
Lemma emit_bound tier budget frame blocks out inlined emitted :
  let '(out', inlined', emitted') := emit tier budget frame blocks out inlined emitted in
  inlined <= inlined' /\ emitted <= emitted' /\
  (0 < MaxBytes tier -> (emitted' = emitted /\ out' = out) \/ frame + blen out' <= budget).
Proof.
  revert out inlined emitted. induction blocks as [|b blocks IH]; intros *; simpl.
  { split; [lia|split; [lia|auto]]. }
  destruct (BPrompt b && (0 <? InlinePrompts tier) && (InlinePrompts tier <=? inlined)).
  { split; [lia|split; [lia|auto]]. }
  set (text := if BPrompt b then BText b else BText b +:+ nl).
  destruct ((0 <? MaxBytes tier) && (budget <? frame + blen out + blen text)) eqn:Hfit.
  { split; [lia|split; [lia|auto]]. }
  specialize (IH (out +:+ text) (if BPrompt b then inlined + 1 else inlined) (emitted + 1)).
  destruct (emit _ _ _ _ _ _ _) as [[out' inlined'] emitted'].
  destruct IH as (Hin&Hem&Hb). split_and!; [destruct (BPrompt b); lia|lia|].
  intros Hmax. right. rewrite (proj2 (Z.ltb_lt 0 (MaxBytes tier)) Hmax) in Hfit.
  simpl in Hfit. apply Z.ltb_ge in Hfit.
  destruct (Hb Hmax) as [[_ ->]|]; [|done]. rewrite blen_app. lia.
Qed.

Lemma moreLine_mono a b : 0 < a <= b -> blen (moreLine a) <= blen (moreLine b).
Proof.
  intros Hab%itoa_length_mono. unfold moreLine. rewrite !blen_app. lia.
Qed.

(** The prompt block is within its budget, or empty. *)
Lemma details_bound tier budget items :
  0 < MaxBytes tier -> details_of tier budget items = "" \/ blen (details_of tier budget items) <= budget.
Proof.
  intros Hmax. unfold details_of. destruct (blocks_of items) as [|b blocks]; [by left|].
  set (total := count_kind DigestItemPrompt items).
  set (open_ := nl +:+ _). cbv zeta.
  set (reserve := if 0 <? total then blen (moreLine total) else 0).
  set (frame := blen open_ + reserve + blen closing).
  pose proof (emit_bound tier budget frame (b :: blocks) "" 0 0) as He.
  destruct (emit _ _ _ _ _ _ _) as [[out inlined] emitted].
  destruct He as (Hin&Hem&Hb). specialize (Hb Hmax).
  rewrite (proj2 (Z.ltb_lt 0 (MaxBytes tier)) Hmax), andb_true_r.
  destruct ((emitted =? 0) && (budget <? frame)) eqn:Hnone; [by left|right].
  assert (Hout : frame + blen out <= budget).
  { destruct Hb as [[-> ->]|]; [|done]. simpl in Hnone. apply Z.ltb_ge in Hnone.
    unfold blen at 1. simpl. lia. }
  assert (Hmore : blen (if 0 <? total - inlined then moreLine (total - inlined) else "") <= reserve).
  { unfold reserve. destruct (Z.ltb_spec 0 (total - inlined)).
    - rewrite (proj2 (Z.ltb_lt 0 total)) by lia. apply moreLine_mono. lia.
    - destruct (0 <? total); [apply blen_nonneg|done]. }
  rewrite !blen_app. unfold frame in Hout. lia.
Qed.

(** ** Escaping can be read back *)

(** What a reader of the Markdown source sees as text: a backslash gives the
    next code point, the split mark gives nothing, and a special code point that
    is neither escaped nor the start of a mark is live markup. *)
Fixpoint unescape (l : list Z) : option (list Z) :=
  match l with
  | [] => Some []
  | 92 :: c :: rest => cons c <$> unescape rest
  | 60 :: 33 :: 45 :: 45 :: 32 :: 45 :: 45 :: 62 :: rest => unescape rest
  | c :: rest => if special c then None else cons c <$> unescape rest
  end.

Lemma unescape_escaped c rest : unescape (92 :: c :: rest) = cons c <$> unescape rest.
Proof. done. Qed.

Lemma unescape_mark rest : unescape (splitMark ++ rest) = unescape rest.
Proof. done. Qed.

Lemma special_false c : special c = false -> c <> 92 /\ c <> 60.
Proof. intros Hs. split; intros ->; by vm_compute in Hs. Qed.

Lemma unescape_plain c rest : special c = false -> unescape (c :: rest) = cons c <$> unescape rest.
Proof.
  intros Hs. pose proof (special_false c Hs) as [H1 H2]. simpl.
  repeat (case_match; try congruence).
Qed.

Lemma unescape_inline_from prefix l : unescape (inline_from prefix l) = Some l.
Proof.
  revert prefix. induction l as [|r rest IH]; intros prefix; [done|]. cbn [inline_from]. cbv zeta.
  set (mark := if (r =? 64) || (r =? 35) then _ else []).
  assert (Hrest : unescape (mark ++ inline_from (prefix ++ [r]) rest) = Some rest).
  { unfold mark. repeat case_match; rewrite ?unescape_mark; apply IH. }
  destruct (special r) eqn:Hs.
  - assert (Hopen : (match prefix with [] => (r =? 45) || (r =? 43) | _ => false end ||
      ((r =? 46) || (r =? 41)) && leadingDigits prefix) = false).
    { unfold special in Hs. apply existsb_exists in Hs as (c&Hc&->%Z.eqb_eq).
      simpl in Hc. by destruct prefix; repeat destruct Hc as [<-|Hc]. }
    rewrite Hopen. cbn [app]. by rewrite unescape_escaped, Hrest.
  - case_match; cbn [app]; [by rewrite unescape_escaped, Hrest|].
    by rewrite unescape_plain, Hrest.
Qed.

(** ** What a row may show *)

(** Two rows a reader of the pull request cannot tell apart: they differ at
    most in the title and the page of a transcript that is not listed. *)
Definition same_row (r r' : Row) : Prop :=
  RowTranscript r = RowTranscript r' /\ Author r = Author r' /\ Listed r = Listed r' /\
  (Listed r = true -> Title r = Title r' /\ URL r = URL r').

(** Two items likewise: they differ at most in what a transcript that is not
    listed says. *)
Definition same_item (listed : string -> bool) (i i' : Item) : Prop :=
  ItemTranscript i = ItemTranscript i' /\ ItemKind i = ItemKind i' /\ CommitSHA i = CommitSHA i' /\
  (listed (ItemTranscript i) = true -> i = i').

Lemma same_row_listed rows rows' :
  (forall id, option_relation same_row (fun _ => False) (fun _ => False) (rows !! id) (rows' !! id)) ->
  forall id, is_listed rows id = is_listed rows' id.
Proof.
  intros Hr id. specialize (Hr id). unfold is_listed.
  destruct (rows !! id), (rows' !! id); simpl in *; try done. by destruct Hr as (_&_&?&_).
Qed.

Lemma rows_map_same rows rows' :
  Forall2 same_row rows rows' -> forall id, option_relation same_row (fun _ => False) (fun _ => False)
    (rows_map rows !! id) (rows_map rows' !! id).
Proof.
  intros Hr id. unfold rows_map.
  assert (Hgen : forall (m m' : gmap string Row),
    option_relation same_row (fun _ => False) (fun _ => False) (m !! id) (m' !! id) ->
    option_relation same_row (fun _ => False) (fun _ => False)
      (foldl (fun m row => <[RowTranscript row := row]> m) m rows !! id)
      (foldl (fun m row => <[RowTranscript row := row]> m) m' rows' !! id)).
  { induction Hr as [|r r' rows rows' Hrr _ IH]; intros m m' Hm; [done|]. simpl.
    apply IH. pose proof Hrr as (Ht&_). rewrite <- Ht, !lookup_insert. by case_decide. }
  apply Hgen. by rewrite !lookup_empty.
Qed.
Lemma filter_same_items listed items items' :
  Forall2 (same_item listed) items items' ->
  List.filter (fun i => listed (ItemTranscript i)) items =
  List.filter (fun i => listed (ItemTranscript i)) items'.
Proof.
  induction 1 as [|i i' items items' (Ht&_&_&Heq) _ IH]; [done|]. simpl. rewrite <- Ht.
  destruct (listed (ItemTranscript i)); [|done]. by rewrite <- Heq, IH.
Qed.

(** Equal answers up to what the unlisted rows say. *)
Definition same_scan (r r' : result RenderError Scan) : Prop :=
  match r, r' with
  | Ok sc, Ok sc' => Forall2 same_row (Order sc) (Order sc') /\ CommitsOf sc = CommitsOf sc' /\
      Covered sc = Covered sc'
  | Err e, Err e' => e = e'
  | _, _ => False
  end.

Lemma scan_items_same listed rows rows' items items' sc sc' :
  (forall id, option_relation same_row (fun _ => False) (fun _ => False) (rows !! id) (rows' !! id)) ->
  Forall2 (same_item listed) items items' -> same_scan (Ok sc) (Ok sc') ->
  same_scan (scan_items rows items sc) (scan_items rows' items' sc').
Proof.
  intros Hrows Hitems. revert sc sc'.
  induction Hitems as [|i i' items items' (Ht&Hk&Hsha&_) _ IH]; intros sc sc' Hsc; [done|].
  cbn [scan_items]. rewrite <- Hk, <- Ht, <- Hsha. destruct Hsc as (Ho&Hc&Hcov).
  destruct (ItemKind i); try (apply IH; done).
  - specialize (Hrows (ItemTranscript i)).
    destruct (rows !! ItemTranscript i) as [row|], (rows' !! ItemTranscript i) as [row'|];
      simpl in Hrows; try done.
    apply IH. split; [|done]. simpl. apply Forall2_app; [done|]. constructor; [done|constructor].
  - apply IH. simpl. by rewrite <- Hc, <- Hcov.
Qed.

Lemma table_line_same commitsOf ref row row' :
  same_row row row' -> table_line commitsOf ref row = table_line commitsOf ref row'.
Proof.
  intros (Ht&Ha&Hl&Heq). unfold table_line. rewrite <- Ht, <- Ha, <- Hl.
  destruct (Listed row); [|done]. by destruct (Heq eq_refl) as [<- <-].
Qed.

Lemma table_lines_same commitsOf ref order order' :
  Forall2 same_row order order' -> table_lines commitsOf ref order = table_lines commitsOf ref order'.
Proof.
  intros Ho. revert ref. induction Ho as [|row row' order order' Hr _ IH]; intros ref; [done|].
  cbn [table_lines]. rewrite <- (table_line_same commitsOf ref row row' Hr).
  by destruct (table_line commitsOf ref row) as [l ref'], (IH ref').
Qed.

Lemma promptDetails_same validate d d' rows rows' tier budget :
  consistent d -> consistent d' -> validate d = true -> validate d' = true ->
  DHeader d = DHeader d' -> (forall id, is_listed rows id = is_listed rows' id) ->
  Forall2 (same_item (is_listed rows)) (Items d) (Items d') ->
  promptDetails validate d rows tier budget = promptDetails validate d' rows' tier budget.
Proof.
  intros Hc Hc' Hv Hv' Hh Hl Hi. unfold promptDetails.
  rewrite (restrict_agree validate d d' (is_listed rows)); try (done || by rewrite Hh).
  - rewrite (restrict_ext validate d' (is_listed rows) (is_listed rows')) by done. done.
  - by rewrite (filter_same_items _ _ _ Hi).
Qed.

(** ** What rendering promises *)

(** Also: a rendering with a byte limit is never longer than it, whatever the
    digest, the rows and the tier: the table and the prompts are cut to fit, and
    what cannot be cut is refused. *)
Theorem render_within_budget validate inp tier s :
  Render validate inp tier = Ok s -> 0 < MaxBytes tier -> blen s <= MaxBytes tier.
Proof.
  unfold Render. intros Hr Hmax. repeat (case_match; [discriminate|]).
  destruct (scan_items _ _ _) as [sc|]; [|discriminate]. cbv zeta in Hr.
  set (fixed := boldLine _ _ _ +:+ _) in Hr. set (tail := (match uncoveredCommits _ _ with [] => _ | _ => _ end) +:+ _) in Hr.
  rewrite (proj2 (Z.ltb_lt 0 _) Hmax) in Hr. simpl in Hr.
  destruct (Z.ltb_spec (MaxBytes tier) (blen fixed + blen tail)) as [|Hfit]; [discriminate|].
  unfold promptDetails in Hr. destruct (Restrict _ _ _) as [listed|]; [|discriminate].
  injection Hr as <-. rewrite !blen_app.
  destruct (details_bound tier (MaxBytes tier - blen fixed - blen tail) (Items listed) Hmax)
    as [->|Hd]; [unfold blen in *; simpl; lia|lia].
Qed.

(** Also: user text is neutralised without being changed: reading the escaped
    runes back as Markdown source meets no live markup and gives exactly the text
    with its white space collapsed. *)
Theorem inline_roundtrip text : unescape (inline_runes text) = Some (runes (collapse text)).
Proof. apply unescape_inline_from. Qed.

(** C3: the rendering shows nothing of a transcript that is not listed: two pull
    requests that differ only in the title, the page and the prompts of unlisted
    transcripts render to the same bytes, or to the same error. *)
Theorem render_hides_unlisted validate inp inp' tier :
  consistent (PRDigest inp) -> consistent (PRDigest inp') ->
  validate (PRDigest inp) = true -> validate (PRDigest inp') = true ->
  DHeader (PRDigest inp) = DHeader (PRDigest inp') -> PRCommitSet inp = PRCommitSet inp' ->
  Forall2 same_row (Rows inp) (Rows inp') ->
  Forall2 (same_item (is_listed (rows_map (Rows inp)))) (Items (PRDigest inp)) (Items (PRDigest inp')) ->
  Render validate inp tier = Render validate inp' tier.
Proof.
  intros Hc Hc' Hv Hv' Hh Hset Hrows Hitems. unfold Render. cbv zeta.
  rewrite Hv, Hv', <- Hh, <- Hset. simpl. case_match; [done|].
  pose proof (rows_map_same _ _ Hrows) as Hmap.
  pose proof (scan_items_same _ _ _ _ _ (mkScan [] ∅ ∅) (mkScan [] ∅ ∅) Hmap Hitems) as Hs.
  specialize (Hs ltac:(repeat split; constructor)).
  destruct (scan_items _ (Items (PRDigest inp)) _) as [sc|e],
    (scan_items _ (Items (PRDigest inp')) _) as [sc'|e']; simpl in Hs; [|done..|by subst].
  destruct Hs as (Ho&<-&<-).
  rewrite <- (Forall2_length _ _ _ Ho), <- (table_lines_same _ 0 _ _ Ho). case_match; [done|].
  erewrite (promptDetails_same validate (PRDigest inp) (PRDigest inp')); try done.
  by apply same_row_listed.
Qed.
End unicode.

(** ** Concrete pull requests *)
Definition sample_rows (hidden : string) : list Row :=
  [mkRow "t1" "Fix @alice's `parser`" "alice" true "https://village/t/t1";
   mkRow "t2" hidden "bob" false ("https://village/t/" +:+ hidden)].
Definition sample_pull : PullRequest :=
  mkPullRequest sample_digest (sample_rows "secret plan") ["aaaaaaa1111"; "bbbbbbb2222"; "bbbbbbb3333"].
Definition other_pull : PullRequest :=
  mkPullRequest (mkDigest (DHeader sample_digest) (Skills sample_digest)
      ((fun i => if String.eqb (ItemTranscript i) "t2" && is_kind DigestItemPrompt i
                 then with_text i "rewritten" else i) <$> Items sample_digest))
    (sample_rows "another plan") ["aaaaaaa1111"; "bbbbbbb2222"; "bbbbbbb3333"].

Lemma render_within_budget_witness :
  exists s, @Render ascii_tables accept_all sample_pull CommentTier = Ok s /\
    300 <= blen s <= MaxBytes CommentTier.
Proof.
  eexists. split; [vm_compute; reflexivity|]. split; [vm_compute; discriminate|].
  apply (@render_within_budget ascii_tables accept_all sample_pull CommentTier).
  - vm_compute. reflexivity.
  - vm_compute. reflexivity.
Defined.

Lemma render_hides_witness :
  sample_pull <> other_pull /\
  @Render ascii_tables accept_all sample_pull CommentTier =
  @Render ascii_tables accept_all other_pull CommentTier.
Proof.
  split; [vm_compute; discriminate|].
  apply render_hides_unlisted; try (vm_compute; reflexivity).
  - apply Forall2_cons. split; [repeat split|]. apply Forall2_cons.
    split; [|constructor]. repeat split; vm_compute; discriminate.
  - vm_compute.
    repeat (apply Forall2_cons; split; [repeat split; vm_compute; first [reflexivity|discriminate]|]).
    constructor.
Defined.
End Render.
