(* ===== verification/GitHub.v ===== *)
(** * [internal/github]: the GitHub App client

    The installation token with its cache, the one authenticated JSON request,
    the pull request reads, the paginated commit walk with its completeness
    answer, the sticky comment and the check run. The HTTP transport and the
    cached tokens are an interface over a world ([HttpWorld]); what
    [encoding/json], [net/url] and the RSA signer answer is [Wire]. Instants are
    nanoseconds since Go's zero time. *)
From S2P Require Import Prelude GoText PromptAttach.

Open Scope string_scope.
Open Scope list_scope.
Open Scope Z_scope.

Module GitHub.
Import PromptAttach.

(** ** Requests and answers *)
Inductive json : Type :=
| JStr (s : string)
| JObj (fields : list (string * json))
| JArr (items : list json).

Record Request : Type := mkRequest {
  Method : string;
  ReqURL : string;
  Authorization : string;
  IfNoneMatch : string;
  Payload : option json
}.

Record Response : Type := mkResponse {
  StatusCode : Z;
  Body : string;
  RespETag : string;
  Link : string
}.

Inductive GhError : Type :=
| EPositive               (** an id or a number that must be positive *)
| EToken                  (** the App JWT or the installation token *)
| EBadURL
| ETransport
| EDecode
| EEmptyToken
| EEmptyLogin
| ECheckRequest           (** refused by [validateCheckRunRequest] *)
| EStatus (operation : string) (status : Z).

Definition IsNotFound (e : GhError) : bool :=
  match e with EStatus _ status => status =? 404 | _ => false end.

(** ** What the client keeps and decodes *)
Record cachedToken : Type := mkToken { token : string; expiresAt : Z }.

Record Commit : Type := mkCommit {
  CommitSHA : string;
  Message : string;
  AuthorName : string;
  AuthorEmail : string;
  AuthoredAt : Z;
  CommittedAt : Z
}.

Record Repository : Type := mkRepository { RepOwner : string; RepName : string; Private : bool }.

Record IssueComment : Type := mkComment { CommentID : Z; CommentURL : string; CommentBody : string }.

Record CheckRun : Type := mkCheckRun {
  HeadSHA : string;
  RunID : Z;
  RunURL : string;
  Status : string;
  RunConclusion : string
}.

(** The fields of GitHub's pull request object that [GetPullRequest] decodes. *)
Record pullResponse : Type := mkPullResponse {
  out_number : Z;
  out_title : string;
  out_head_sha : string;
  out_head_ref : string;
  out_head_repo_id : Z;
  out_head_repo_name : string;
  out_head_repo_full_name : string;
  out_base_repo_id : Z;
  out_base_repo_name : string;
  out_user_id : Z;
  out_state : string
}.

Record PullRequest : Type := mkPull {
  PullNumber : Z;
  PullTitle : string;
  RepoID : Z;
  PullHeadSHA : string;
  PullHeadRef : string;
  HeadRepo : string;
  HeadRepoFullName : string;
  BaseRepo : string;
  PullAuthorID : Z;
  IsFork : bool;
  PullState : string
}.

Class Wire : Type := {
  decode_token : string -> option (string * Z);
  decode_repository : string -> option Repository;
  decode_comment : string -> option IssueComment;
  decode_check_run : string -> option CheckRun;
  decode_pull : string -> option pullResponse;
  decode_commits : string -> option (list Commit);
  decode_login : string -> option string;
  decode_permission : string -> option string;
  (** scheme and host, when the text is a URL at all *)
  parse_url : string -> option (string * string);
  (** the signed App JWT with its issued-at and expiry instants *)
  sign_jwt : string -> Z -> Z -> option string
}.

Class HttpWorld (W : Type) : Type := {
  http_do : Request -> M W unit Response;
  tokens : W -> gmap Z cachedToken;
  set_tokens : gmap Z cachedToken -> W -> W;
  now : W -> Z
}.

(** ** Constants *)
Definition second : Z := 1000000000.
Definition minute : Z := 60 * second.
Definition appJWTTTL : Z := 9 * minute.
Definition tokenExpiryGuard : Z := minute.
Definition maxGitHubPerPage : Z := 100.
Definition maxPullRequestCommitPages : Z := 5.
Definition maxPullRequestCommits : Z := 250.

Definition PromptCheckName : string := "peasant / prompts".
Definition maxCheckActionLabel : Z := 20.
Definition maxCheckActionDescription : Z := 40.
Definition maxCheckActionIdentifier : Z := 20.
Definition maxCheckActions : nat := 3.
Definition CheckConclusionSuccess : string := "success".
Definition CheckConclusionFailure : string := "failure".
Definition CheckConclusionNeutral : string := "neutral".

(** ** The check run's menu and conclusion *)
Record CheckAction : Type := mkAction {
  Label : string; Description : string; Identifier : string
}.

Definition PromptCheckActions : list CheckAction :=
  [mkAction "Detach" "Detach attached prompts" "detach";
   mkAction "Refresh" "Recompute prompts and digest" "refresh"].

(** The mode is the stored text: one outside the menu is treated as required. *)
Definition PromptCheckConclusion (mode : string) (attached readableBeyondAuthor : bool) : string :=
  if attached then
    if readableBeyondAuthor then CheckConclusionSuccess else CheckConclusionNeutral
  else if String.eqb mode (check_mode_string Informational) then CheckConclusionNeutral
  else CheckConclusionFailure.

Record CheckRunRequest : Type := mkCheckRequest {
  ReqHeadSHA : string;
  ExternalID : string;
  Conclusion : string;
  Title : string;
  Summary : string;
  DetailsURL : string;
  Actions : list CheckAction
}.

(** Whether a text is non-empty and at most [limit] characters. *)
Definition within (limit : Z) (s : string) : bool :=
  negb (String.eqb s "") && negb (limit <? rune_count s).

(** The loop over the actions; [seen] holds the identifiers so far. *)
Fixpoint valid_actions (seen : gset string) (actions : list CheckAction) : bool :=
  match actions with
  | [] => true
  | a :: rest =>
    within maxCheckActionLabel (Label a) &&
    within maxCheckActionDescription (Description a) &&
    within maxCheckActionIdentifier (Identifier a) &&
    negb (bool_decide (Identifier a ∈ seen)) &&
    valid_actions ({[Identifier a]} ∪ seen) rest
  end.

Section client.
Context `{Wire}.

Definition validateCheckRunRequest (req : CheckRunRequest) (creating : bool) : bool :=
  negb (creating && String.eqb (ReqHeadSHA req) "") &&
  existsb (String.eqb (Conclusion req))
    [CheckConclusionSuccess; CheckConclusionFailure; CheckConclusionNeutral] &&
  negb (String.eqb (Title req) "") &&
  (String.eqb (DetailsURL req) "" ||
   match parse_url (DetailsURL req) with
   | Some (scheme, host) =>
     (String.eqb scheme "https" || String.eqb scheme "http") && negb (String.eqb host "")
   | None => false
   end) &&
  (length (Actions req) <=? maxCheckActions)%nat &&
  valid_actions ∅ (Actions req).

(** ** Reading a [Link] header *)
Definition next_attr : string := "rel=" +:+ of_bytes [34] +:+ "next" +:+ of_bytes [34].
Definition angle (b : Z) : bool := (b =? 60) || (b =? 62).
(** [strings.Trim(s, "<>")] *)
Definition trim_angles (s : string) : string :=
  of_bytes (drop_while_end angle (drop_while angle (bytes s))).

Definition next_of_part (part : string) : option string :=
  match split_on ";" (trim_space part) with
  | seg :: (first :: attrs) =>
    if existsb (fun attr => String.eqb (trim_space attr) next_attr) (first :: attrs)
    then Some (trim_angles (trim_space seg)) else None
  | _ => None
  end.

Fixpoint first_next (parts : list string) : string :=
  match parts with
  | [] => ""
  | part :: rest => match next_of_part part with Some u => u | None => first_next rest end
  end.

Definition nextPageURL (link : string) : string :=
  if String.eqb link "" then "" else first_next (split_on "," link).

(** ** The client over a world *)
Context {W : Type} `{HttpWorld W} (appID baseURL : string).

Definition get_world : M W GhError W := fun w => (Ok w, w).
Definition put_token (installationID : Z) (t : cachedToken) : M W GhError unit := fun w =>
  (Ok tt, set_tokens (<[installationID := t]> (tokens w)) w).

(** [http.NewRequestWithContext] and [httpClient.Do]. *)
Definition send (method url auth etag : string) (payload : option json) : M W GhError Response :=
  match parse_url url with
  | None => throw EBadURL
  | Some _ =>
    r ← attempt (http_do (mkRequest method url auth etag payload));
    match r with Ok resp => mret resp | Err _ => throw ETransport end
  end.

Definition of_option {A} (e : GhError) (o : option A) : M W GhError A :=
  match o with Some a => mret a | None => throw e end.

Definition appJWT : M W GhError string :=
  w ← get_world; of_option EToken (sign_jwt appID (now w - 60 * second) (now w + appJWTTTL)).

Definition mint_token (installationID : Z) : M W GhError string :=
  jwt ← appJWT;
  resp ← send "POST" (baseURL +:+ "/app/installations/" +:+ itoa installationID +:+ "/access_tokens")
    ("Bearer " +:+ jwt) "" None;
  if negb (StatusCode resp =? 201) && negb (StatusCode resp =? 200)
  then throw (EStatus "create installation token" (StatusCode resp))
  else
    '(tok, expires) ← of_option EDecode (decode_token (Body resp));
    if String.eqb tok "" then throw EEmptyToken
    else
      w ← get_world;
      let expiry := if expires =? 0 then now w + appJWTTTL else expires in
      put_token installationID (mkToken tok (expiry - tokenExpiryGuard)) ≫= fun _ =>
      mret tok.

Definition installationToken (installationID : Z) : M W GhError string :=
  w ← get_world;
  match tokens w !! installationID with
  | Some t => if now w <? expiresAt t then mret (token t) else mint_token installationID
  | None => mint_token installationID
  end.

(** The answer's body is handed back undecoded; [decode] is applied by the
    caller that gave [out], after the status was accepted. *)
Definition doInstallationJSON {Out} (installationID : Z) (op method path : string)
    (payload : option json) (decode : string -> option Out) : M W GhError Out :=
  tok ← installationToken installationID;
  resp ← send method (baseURL +:+ path) ("token " +:+ tok) "" payload;
  if (StatusCode resp <? 200) || (299 <? StatusCode resp)
  then throw (EStatus op (StatusCode resp))
  else of_option EDecode (decode (Body resp)).

Definition repo_path (owner name : string) : string := "/repos/" +:+ owner +:+ "/" +:+ name.

Definition GetRepository (installationID : Z) (owner name : string) : M W GhError Repository :=
  tok ← installationToken installationID;
  resp ← send "GET" (baseURL +:+ repo_path owner name) ("token " +:+ tok) "" None;
  if negb (StatusCode resp =? 200) then throw (EStatus "get repository" (StatusCode resp))
  else of_option EDecode (decode_repository (Body resp)).

(** ** The commit walk *)
Record ListCommitsOptions : Type := mkListOptions { PerPage : Z; MaxPages : Z; OptETag : string }.
Record ListCommitsResult : Type := mkListResult {
  Commits : list Commit;
  ETag : string;
  NotModified : bool;
  Complete : bool
}.

(** One page of the loop, [first] for page 0: [inl] returns from the function,
    [inr] is the page's commits, its ETag and the next URL. *)
Definition commits_page (tok : string) (opts : ListCommitsOptions) (first : bool) (url : string) :
    M W GhError (ListCommitsResult + (list Commit * string * string)) :=
  resp ← send "GET" url ("token " +:+ tok) (if first then OptETag opts else "") None;
  if first && (StatusCode resp =? 304)
  then mret (inl (mkListResult [] (OptETag opts) true false))
  else if negb (StatusCode resp =? 200) then throw (EStatus "list commits" (StatusCode resp))
  else
    raw ← of_option EDecode (decode_commits (Body resp));
    mret (inr (raw, RespETag resp, nextPageURL (Link resp))).

(** [pages] pages are left to read. *)
Fixpoint commits_walk (tok : string) (opts : ListCommitsOptions) (pullRequest first : bool)
    (pages : nat) (url : string) (acc : list Commit) (etag : string) : M W GhError ListCommitsResult :=
  let stop := mkListResult acc etag false (String.eqb url "" &&
    negb (pullRequest && (maxPullRequestCommits <=? Z.of_nat (length acc)))) in
  match pages with
  | O => mret stop
  | S pages' =>
    if String.eqb url "" then mret stop
    else
      page ← commits_page tok opts first url;
      match page with
      | inl r => mret r
      | inr (raw, tag, next) =>
        commits_walk tok opts pullRequest false pages' next (acc ++ raw) (if first then tag else etag)
      end
  end.

Definition listCommits (installationID : Z) (path : string) (opts : ListCommitsOptions)
    (pullRequest : bool) : M W GhError ListCommitsResult :=
  tok ← installationToken installationID;
  let maxPages := if MaxPages opts <=? 0
    then if pullRequest then maxPullRequestCommitPages else 1 else MaxPages opts in
  let url := baseURL +:+ path +:+
    (if 0 <? PerPage opts then "?per_page=" +:+ itoa (PerPage opts) else "") in
  commits_walk tok opts pullRequest true (Z.to_nat maxPages) url [] "".

Definition ListCommits (installationID : Z) (owner name : string) (opts : ListCommitsOptions) :
    M W GhError ListCommitsResult :=
  listCommits installationID (repo_path owner name +:+ "/commits") opts false.

Definition ListPullRequestCommits (installationID : Z) (owner name : string) (number : Z)
    (opts : ListCommitsOptions) : M W GhError ListCommitsResult :=
  if number <=? 0 then throw EPositive
  else
    let opts := if PerPage opts <=? 0
      then mkListOptions maxGitHubPerPage (MaxPages opts) (OptETag opts) else opts in
    listCommits installationID (repo_path owner name +:+ "/pulls/" +:+ itoa number +:+ "/commits")
      opts true.

(** ** Pull requests and collaborators *)
Definition GetPullRequest (installationID : Z) (owner name : string) (number : Z) :
    M W GhError PullRequest :=
  if number <=? 0 then throw EPositive
  else
    out ← doInstallationJSON installationID "get pull request" "GET"
      (repo_path owner name +:+ "/pulls/" +:+ itoa number) None decode_pull;
    mret (mkPull (out_number out) (out_title out) (out_base_repo_id out) (out_head_sha out)
      (out_head_ref out) (out_head_repo_name out) (out_head_repo_full_name out)
      (out_base_repo_name out) (out_user_id out)
      (negb (out_head_repo_id out =? 0) && negb (out_base_repo_id out =? 0) &&
       negb (out_head_repo_id out =? out_base_repo_id out)) (out_state out)).

Definition GetUserLogin (installationID : Z) (accountID : string) : M W GhError string :=
  login ← doInstallationJSON installationID "resolve a github account id to its login" "GET"
    ("/user/" +:+ accountID) None decode_login;
  if String.eqb login "" then throw EEmptyLogin else mret login.

Definition GetCollaboratorPermission (installationID : Z) (owner name login : string) :
    M W GhError string :=
  doInstallationJSON installationID "get a repository permission" "GET"
    (repo_path owner name +:+ "/collaborators/" +:+ login +:+ "/permission") None decode_permission.

(** ** The sticky comment *)
Definition CreateIssueComment (installationID : Z) (owner name : string) (number : Z) (body : string) :
    M W GhError IssueComment :=
  if number <=? 0 then throw EPositive
  else doInstallationJSON installationID "create issue comment" "POST"
    (repo_path owner name +:+ "/issues/" +:+ itoa number +:+ "/comments")
    (Some (JObj [("body", JStr body)])) decode_comment.

Definition UpdateIssueComment (installationID : Z) (owner name : string) (commentID : Z) (body : string) :
    M W GhError IssueComment :=
  if commentID <=? 0 then throw EPositive
  else doInstallationJSON installationID "update issue comment" "PATCH"
    (repo_path owner name +:+ "/issues/comments/" +:+ itoa commentID)
    (Some (JObj [("body", JStr body)])) decode_comment.

Definition DeleteIssueComment (installationID : Z) (owner name : string) (commentID : Z) :
    M W GhError unit :=
  if commentID <=? 0 then throw EPositive
  else doInstallationJSON installationID "delete issue comment" "DELETE"
    (repo_path owner name +:+ "/issues/comments/" +:+ itoa commentID) None (fun _ => Some tt).

Definition UpsertIssueComment (installationID : Z) (owner name : string) (number existingCommentID : Z)
    (body : string) : M W GhError IssueComment :=
  if 0 <? existingCommentID
  then UpdateIssueComment installationID owner name existingCommentID body
  else CreateIssueComment installationID owner name number body.

(** ** The check run *)
Definition action_json (a : CheckAction) : json :=
  JObj [("label", JStr (Label a)); ("description", JStr (Description a));
        ("identifier", JStr (Identifier a))].

(** The fields create and update share. *)
Definition check_output (req : CheckRunRequest) : list (string * json) :=
  [("status", JStr "completed"); ("conclusion", JStr (Conclusion req));
   ("output", JObj [("title", JStr (Title req)); ("summary", JStr (Summary req))])] ++
  (if String.eqb (ExternalID req) "" then [] else [("external_id", JStr (ExternalID req))]) ++
  (if String.eqb (DetailsURL req) "" then [] else [("details_url", JStr (DetailsURL req))]) ++
  match Actions req with [] => [] | actions => [("actions", JArr (action_json <$> actions))] end.

Definition GetCheckRun (installationID : Z) (owner name : string) (checkRunID : Z) :
    M W GhError CheckRun :=
  if checkRunID <=? 0 then throw EPositive
  else doInstallationJSON installationID "get check run" "GET"
    (repo_path owner name +:+ "/check-runs/" +:+ itoa checkRunID) None decode_check_run.

Definition CreateCheckRun (installationID : Z) (owner name : string) (req : CheckRunRequest) :
    M W GhError CheckRun :=
  if validateCheckRunRequest req true then
    doInstallationJSON installationID "create check run" "POST"
      (repo_path owner name +:+ "/check-runs")
      (Some (JObj ([("name", JStr PromptCheckName); ("head_sha", JStr (ReqHeadSHA req))] ++ check_output req)))
      decode_check_run
  else throw ECheckRequest.

Definition UpdateCheckRun (installationID : Z) (owner name : string) (checkRunID : Z)
    (req : CheckRunRequest) : M W GhError CheckRun :=
  if checkRunID <=? 0 then throw EPositive
  else if validateCheckRunRequest req false then
    doInstallationJSON installationID "update check run" "PATCH"
      (repo_path owner name +:+ "/check-runs/" +:+ itoa checkRunID)
      (Some (JObj (check_output req))) decode_check_run
  else throw ECheckRequest.
(** ** What the transport and the cache promise *)
Class HttpLaws : Prop := {
  tokens_set : forall t w, tokens (set_tokens t w) = t;
  http_tokens : forall req w, tokens (http_do req w).2 = tokens w
}.

Lemma send_tokens `{!HttpLaws} method url auth etag payload w :
  tokens (send method url auth etag payload w).2 = tokens w.
Proof.
  unfold send. destruct (parse_url url); [|done]. rewrite M_bind_unfold. unfold attempt.
  pose proof (http_tokens (mkRequest method url auth etag payload) w) as Ht.
  by destruct (http_do _ w) as [[] w'].
Qed.

(** The two outcomes of minting: a failure leaves the cache alone, a success
    stores the token it answers under its installation, a minute early. *)
Lemma mint_token_spec `{!HttpLaws} id w :
  match mint_token id w with
  | (Ok tok, w') => tok <> "" /\ exists expiry,
      tokens w' = <[id := mkToken tok (expiry - tokenExpiryGuard)]> (tokens w)
  | (Err _, w') => tokens w' = tokens w
  end.
Proof.
  unfold mint_token. rewrite M_bind_unfold.
  unfold appJWT. rewrite M_bind_unfold. unfold get_world. cbn [fst snd].
  destruct (sign_jwt _ _ _) as [jwt|]; [|done]. simpl of_option. cbn [mret M_ret].
  unfold mret, M_ret. rewrite M_bind_unfold.
  match goal with |- context[send ?a ?b ?c ?d ?e ?f] =>
    pose proof (send_tokens a b c d e f) as Hs; destruct (send a b c d e f) as [[resp|] w1] end;
    simpl in Hs; [|done].
  destruct (negb (StatusCode resp =? 201) && negb (StatusCode resp =? 200)); [done|].
  rewrite M_bind_unfold.
  destruct (decode_token (Body resp)) as [[tok expires]|]; [|done].
  simpl. unfold mret, M_ret. destruct (String.eqb_spec tok "") as [->|Hne]; [done|].
  rewrite M_bind_unfold. unfold put_token. cbn [fst snd].
  rewrite M_bind_unfold. unfold mret, M_ret. split; [done|].
  eexists. by rewrite tokens_set, Hs.
Qed.

(** ** What a commit walk read *)

(** [walked tok opts first url w n cs fin w']: reading [n] consecutive pages
    from [url], the first conditional when [first], gave the commits [cs] and
    ended with [fin] advertised as the next page. *)
Inductive walked (tok : string) (opts : ListCommitsOptions) :
    bool -> string -> W -> nat -> list Commit -> string -> W -> Prop :=
| walked_nil first url w : walked tok opts first url w 0 [] url w
| walked_page first url w raw tag next w1 n cs fin w' :
    url <> "" ->
    commits_page tok opts first url w = (Ok (inr (raw, tag, next)), w1) ->
    walked tok opts false next w1 n cs fin w' ->
    walked tok opts first url w (S n) (raw ++ cs) fin w'.

Definition complete_walk (pullRequest : bool) (fin : string) (cs : list Commit) : bool :=
  String.eqb fin "" && negb (pullRequest && (maxPullRequestCommits <=? Z.of_nat (length cs))).

Lemma commits_page_inl tok opts first url w r w' :
  commits_page tok opts first url w = (Ok (inl r), w') ->
  first = true /\ NotModified r = true /\ Complete r = false.
Proof.
  unfold commits_page. rewrite M_bind_unfold. destruct (send _ _ _ _ _ w) as [[resp|] w1]; [|done].
  destruct first; simpl; [destruct (StatusCode resp =? 304); [by intros [= <- _]|]|];
    (case_match; [done|]); rewrite M_bind_unfold; by destruct (decode_commits (Body resp)).
Qed.

Lemma commits_walk_spec tok opts pr first pages url acc etag w r w' :
  commits_walk tok opts pr first pages url acc etag w = (Ok r, w') ->
  (first = true /\ NotModified r = true /\ Complete r = false) \/
  NotModified r = false /\ exists n cs fin,
    walked tok opts first url w n cs fin w' /\ Commits r = acc ++ cs /\ (n <= pages)%nat /\
    (fin = "" \/ n = pages) /\ Complete r = complete_walk pr fin (Commits r).
Proof.
  revert first url acc etag w. induction pages as [|pages IH]; intros first url acc etag w; simpl.
  { intros [= <- <-]. right. split; [done|]. exists 0%nat, [], url. simpl.
    rewrite app_nil_r. split_and!; [constructor|done|lia|by right|done]. }
  destruct (String.eqb_spec url "") as [->|Hne].
  { intros [= <- <-]. right. split; [done|]. exists 0%nat, [], "". simpl.
    rewrite app_nil_r. split_and!; [constructor|done|lia|by left|done]. }
  rewrite M_bind_unfold.
  destruct (commits_page tok opts first url w) as [[[r0|[[raw tag] next]]|] w1] eqn:Hp; [| |done].
  { intros [= <- <-]. left. by eapply commits_page_inl. }
  intros Hrest. apply IH in Hrest as [[? _]|(Hnm&n&cs&fin&Hw&Hc&Hn&Hfin&Hcomp)]; [done|].
  right. split; [done|]. exists (S n), (raw ++ cs), fin.
  split_and!; [by econstructor|by rewrite Hc, (assoc_L (++))|lia| |done].
  destruct Hfin as [?| ->]; [by left|by right].
Qed.

(** ** Properties *)

(** Also: an unexpired cached token is answered without touching the network;
    otherwise a failed mint leaves the cache as it was, and a successful one
    changes exactly the entry of its installation, to the non-empty token it
    answers with a deadline a minute before the token's own. *)
Theorem installation_token_cache `{!HttpLaws} id w :
  (forall t, tokens w !! id = Some t -> now w < expiresAt t ->
    installationToken id w = (Ok (token t), w)) /\
  (forall e w', installationToken id w = (Err e, w') -> tokens w' = tokens w) /\
  (forall tok w', installationToken id w = (Ok tok, w') -> w' = w \/
    tok <> "" /\ exists expiry,
      tokens w' = <[id := mkToken tok (expiry - tokenExpiryGuard)]> (tokens w)).
Proof.
  unfold installationToken. rewrite !M_bind_unfold. unfold get_world. cbn [fst snd].
  pose proof (mint_token_spec id w) as Hm. split_and!.
  - intros t -> Hlt. apply Z.ltb_lt in Hlt. by rewrite Hlt.
  - intros e w'. destruct (tokens w !! id) as [t|]; [destruct (now w <? expiresAt t); [done|]|];
      intros Heq; by rewrite Heq in Hm.
  - intros tok w'. destruct (tokens w !! id) as [t|]; [destruct (now w <? expiresAt t)|];
      intros Heq; [left; by injection Heq|..]; rewrite Heq in Hm; by right.
Qed.

(** Also: the commit list of a pull request is called complete only when every
    page the endpoint advertised was read to the last, in order, and fewer
    commits than the documented cap came back; an unchanged (304) answer is
    never complete, and at most five pages are read. *)
Theorem pull_request_commits_complete id owner name number opts w r w' :
  ListPullRequestCommits id owner name number opts w = (Ok r, w') -> MaxPages opts <= 0 ->
  (NotModified r = true -> Complete r = false) /\
  (NotModified r = false -> exists tok w0 opts' url n fin,
    installationToken id w = (Ok tok, w0) /\
    walked tok opts' true url w0 n (Commits r) fin w' /\ (n <= 5)%nat /\
    (Complete r = true <-> fin = "" /\ Z.of_nat (length (Commits r)) < maxPullRequestCommits) /\
    (fin <> "" -> n = 5%nat)).
Proof.
  unfold ListPullRequestCommits. destruct (number <=? 0); [done|].
  set (opts' := if PerPage opts <=? 0 then _ else _). unfold listCommits. rewrite M_bind_unfold.
  destruct (installationToken id w) as [[tok|] w0] eqn:Htok; [|done].
  intros Hw Hmax.
  assert (Hpages : (if MaxPages opts' <=? 0
    then (if true then maxPullRequestCommitPages else 1) else MaxPages opts') = 5).
  { rewrite (proj2 (Z.leb_le (MaxPages opts') 0)); [done|]. unfold opts'. by destruct (PerPage opts <=? 0). }
  cbv zeta in Hw. rewrite Hpages in Hw.
  apply commits_walk_spec in Hw as [(_&Hnm&Hc)|(Hnm&n&cs&fin&Hw&Hcs&Hn&Hfin&Hc)].
  { split; congruence. }
  split; [congruence|]. intros _. simpl in Hcs. subst cs.
  eexists tok, w0, opts', _, n, fin. split_and!; [done|exact Hw|by change 5%nat with (Z.to_nat 5)|..].
  - rewrite Hc. unfold complete_walk. rewrite andb_true_l, andb_true_iff, negb_true_iff, String.eqb_eq, Z.leb_gt.
    done.
  - intros ?. by destruct Hfin.
Qed.

Lemma prompt_check_actions_valid : valid_actions ∅ PromptCheckActions = true.
Proof. by_compute. Qed.

(** Also: the check run Village posts is one GitHub accepts: with the menu's
    actions, a chosen conclusion, a head and an absolute page URL, the request
    is never refused, whatever the mode and the audience; and a refused request
    never reaches the network. *)
Theorem prompt_check_request_valid mode attached readable head ext title summary url scheme host :
  head <> "" -> title <> "" -> parse_url url = Some (scheme, host) ->
  scheme ∈ ["https"; "http"] -> host <> "" ->
  (forall creating, validateCheckRunRequest (mkCheckRequest head ext
    (PromptCheckConclusion mode attached readable) title summary url PromptCheckActions) creating = true) /\
  (forall id owner name req w, validateCheckRunRequest req true = false ->
    CreateCheckRun id owner name req w = (Err ECheckRequest, w)).
Proof.
  intros Hhead%String.eqb_neq Htitle%String.eqb_neq Hurl Hscheme Hhost%String.eqb_neq. split.
  - intros creating. unfold validateCheckRunRequest.
    cbn [Conclusion Title DetailsURL Actions ReqHeadSHA].
    assert (Hcon : existsb (String.eqb (PromptCheckConclusion mode attached readable))
      [CheckConclusionSuccess; CheckConclusionFailure; CheckConclusionNeutral] = true).
    { unfold PromptCheckConclusion. destruct attached, readable; try done; by case_match. }
    assert (Hsch : String.eqb scheme "https" || String.eqb scheme "http" = true).
    { by apply elem_of_cons in Hscheme as [->| ->%list_elem_of_singleton]. }
    by rewrite Hhead, Htitle, Hurl, Hhost, Hcon, Hsch, prompt_check_actions_valid,
      andb_false_r, orb_true_r.
  - intros id owner name req w Hv. unfold CreateCheckRun. by rewrite Hv.
Qed.
End client.
(** ** A concrete server

    Bodies are decoded to fixed values by their text; the commit list has two
    pages, linked by the header. *)
Definition demo_commit (sha : string) : Commit := mkCommit sha "" "" "" 0 0.
#[local] Instance demo_wire : Wire := {|
  decode_token body := if String.eqb body "token" then Some ("tok", 100) else None;
  decode_repository _ := None;
  decode_comment _ := None;
  decode_check_run _ := None;
  decode_pull _ := None;
  decode_commits body := Some [demo_commit body];
  decode_login _ := None;
  decode_permission _ := None;
  parse_url u := if has_prefix "https://" u then Some ("https", "village") else None;
  sign_jwt app _ _ := Some app
|}.

Definition demo_answer (req : Request) : Response :=
  if String.eqb (Method req) "POST" then mkResponse 201 "token" "" ""
  else if String.eqb (ReqURL req) "https://api/page2" then mkResponse 200 "c2" "" ""
  else mkResponse 200 "c1" "etag1" ("<https://api/page2>; " +:+ next_attr).

#[local] Instance demo_world : HttpWorld (gmap Z cachedToken) := {|
  http_do req w := (Ok (demo_answer req), w);
  tokens w := w;
  set_tokens t _ := t;
  now _ := 7
|}.

#[local] Instance demo_laws : HttpLaws.
Proof. by split. Qed.

Lemma installation_token_witness :
  installationToken "app" "https://api" 5 ∅ =
    (Ok "tok", {[5 := mkToken "tok" (100 - tokenExpiryGuard)]}) /\
  installationToken "app" "https://api" 5 {[5 := mkToken "cached" 8]} =
    (Ok "cached", {[5 := mkToken "cached" 8]}).
Proof.
  split; [vm_compute; reflexivity|].
  apply (proj1 (installation_token_cache "app" "https://api" 5 {[5 := mkToken "cached" 8]})
    (mkToken "cached" 8)); vm_compute; reflexivity.
Defined.

Definition demo_options : ListCommitsOptions := mkListOptions 0 0 "".

Lemma pull_request_commits_witness :
  exists r w', ListPullRequestCommits "app" "https://api" 5 "acme" "app" 3 demo_options ∅ = (Ok r, w') /\
    (CommitSHA <$> Commits r) = ["c1"; "c2"] /\ Complete r = true /\
    exists tok w0 opts' url n fin,
      walked tok opts' true url w0 n (Commits r) fin w' /\ (n <= 5)%nat.
Proof.
  eexists _, _. split; [vm_compute; reflexivity|].
  split; [vm_compute; reflexivity|]. split; [reflexivity|].
  destruct (pull_request_commits_complete "app" "https://api" 5 "acme" "app" 3 demo_options ∅
    (mkListResult [demo_commit "c1"; demo_commit "c2"] "etag1" false true)
    {[5 := mkToken "tok" (100 - tokenExpiryGuard)]}) as [_ Hread];
    [vm_compute; reflexivity|vm_compute; discriminate|].
  destruct (Hread eq_refl) as (tok&w0&opts'&url&n&fin&_&Hw&Hn&_).
  exists tok, w0, opts', url, n, fin. split; [exact Hw|exact Hn].
Defined.

Lemma prompt_check_request_witness :
  validateCheckRunRequest (mkCheckRequest "abc" "village-attachment-1"
    (PromptCheckConclusion "informational" true false) "peasant / prompts" "summary"
    "https://village/pulls/acme/app/3" PromptCheckActions) true = true.
Proof.
  refine (proj1 (prompt_check_request_valid "app" "https://api" "informational" true false "abc"
    "village-attachment-1" "peasant / prompts" "summary" "https://village/pulls/acme/app/3"
    "https" "village" _ _ _ _ _) true); first [discriminate|reflexivity|set_solver].
Defined.
End GitHub.
