(* ===== verification/Access.v ===== *)
(** * What one server process remembers about readers and pull requests

    The three in-process tables behind the pull request page: the refusals
    GitHub gave ([handler/repository_access_cache.go]), how often each viewer may
    ask ([repository_access_limiter.go]), and the titles GitHub last reported,
    with the reads in flight ([pull_request_details.go]). Each is a value handed
    on by its operations, one operation per critical section of its mutex.
    Instants and durations are nanoseconds. The limiter counts in Go's float64,
    the binary64 of [SpecFloat]. *)
From S2P Require Import Prelude GoText.
From Stdlib Require Import SpecFloat.

Open Scope string_scope.
Open Scope list_scope.
Open Scope Z_scope.

Module Access.
Definition second : Z := 1000000000.

(** Both caches drop what has expired when they are full, and then everything
    when all of it is live. *)
Definition make_room {V} (expired : V -> bool) (max : nat) (m : gmap string V) : gmap string V :=
  if (max <=? size m)%nat then
    let live := filter (fun p => expired p.2 = false) m in
    if (max <=? size live)%nat then ∅ else live
  else m.

(** ** Refusals: [repositoryAccessCache] *)
Record repositoryAccessEntry : Type := mkAccess { admits : bool; expires : Z }.
Definition repositoryAccessCache := gmap string repositoryAccessEntry.
Definition repositoryAccessTTL : Z := 60 * second.
Definition repositoryAccessMaxEntries : nat := 4096.

Definition access_lookup (c : repositoryAccessCache) (key : string) (now : Z) : option bool :=
  match c !! key with
  | Some entry => if now <? expires entry then Some (admits entry) else None
  | None => None
  end.

Definition access_store (c : repositoryAccessCache) (key : string) (answer : bool) (now : Z) :
    repositoryAccessCache :=
  <[key := mkAccess answer (now + repositoryAccessTTL)]>
    (make_room (fun e => negb (now <? expires e)) repositoryAccessMaxEntries c).

(** ** Questions: [repositoryAccessLimiter] *)
Definition float64 := spec_float.
Definition f_add : float64 -> float64 -> float64 := SFadd 53 1024.
Definition f_sub : float64 -> float64 -> float64 := SFsub 53 1024.
Definition f_mul : float64 -> float64 -> float64 := SFmul 53 1024.
Definition f_div : float64 -> float64 -> float64 := SFdiv 53 1024.
(** [float64(n)] *)
Definition f_of_Z (n : Z) : float64 := binary_normalize 53 1024 n 0 false.

(** [now.Sub(u)] saturates at the ends of [int64]. *)
Definition duration_since (now u : Z) : Z :=
  Z.max (- 2 ^ 63) (Z.min (2 ^ 63 - 1) (now - u)).
(** [Duration.Seconds] *)
Definition seconds (d : Z) : float64 :=
  f_add (f_of_Z (Z.quot d second)) (f_div (f_of_Z (Z.rem d second)) (f_of_Z second)).

Record repositoryAccessBucket : Type := mkBucket { tokens : float64; refill : Z }.
(** A viewer is keyed by the text of their account id, or by the empty text
    when there is none. *)
Record repositoryAccessLimiter : Type := mkLimiter {
  buckets : gmap string repositoryAccessBucket;
  burst : float64;
  perSecond : float64
}.

Definition repositoryAccessBurst : float64 := f_of_Z 100.
Definition repositoryAccessPerSecond : float64 := f_div (f_of_Z 1) (f_of_Z 10).
Definition repositoryAccessMaxViewers : nat := 4096.
Definition repositoryAccessIdle : Z := 600 * second.

Definition limits (l : repositoryAccessLimiter) : float64 * float64 :=
  (if negb (SFltb (S754_zero false) (burst l)) then repositoryAccessBurst else burst l,
   if negb (SFltb (S754_zero false) (perSecond l)) then repositoryAccessPerSecond else perSecond l).

Definition pruneLocked (bs : gmap string repositoryAccessBucket) (now : Z) :
    gmap string repositoryAccessBucket :=
  let live := filter (fun p => duration_since now (refill p.2) <= repositoryAccessIdle) bs in
  if (repositoryAccessMaxViewers <=? size live)%nat then ∅ else live.

(** The tokens a bucket holds [elapsed] seconds after its refill. *)
Definition refilled (held elapsed most rate : float64) : float64 :=
  let tokens := f_add held (f_mul elapsed rate) in
  if SFltb most tokens then most else tokens.

Definition with_buckets (l : repositoryAccessLimiter) bs := mkLimiter bs (burst l) (perSecond l).

Definition allow (l : repositoryAccessLimiter) (key : string) (now : Z) : bool * repositoryAccessLimiter :=
  let '(most, rate) := limits l in
  match buckets l !! key with
  | None =>
    let bs := if (repositoryAccessMaxViewers <=? size (buckets l))%nat
      then pruneLocked (buckets l) now else buckets l in
    (true, with_buckets l (<[key := mkBucket (f_sub most (f_of_Z 1)) now]> bs))
  | Some bucket =>
    let elapsed := seconds (duration_since now (refill bucket)) in
    let bucket := if SFltb (S754_zero false) elapsed
      then mkBucket (refilled (tokens bucket) elapsed most rate) now else bucket in
    if SFltb (tokens bucket) (f_of_Z 1)
    then (false, with_buckets l (<[key := bucket]> (buckets l)))
    else (true, with_buckets l (<[key := mkBucket (f_sub (tokens bucket) (f_of_Z 1)) (refill bucket)]> (buckets l)))
  end.

Definition overBudget (l : repositoryAccessLimiter) (key : string) (now : Z) : bool :=
  let '(most, rate) := limits l in
  match buckets l !! key with
  | None => false
  | Some bucket =>
    let elapsed := seconds (duration_since now (refill bucket)) in
    if SFleb elapsed (S754_zero false) then SFltb (tokens bucket) (f_of_Z 1)
    else SFltb (refilled (tokens bucket) elapsed most rate) (f_of_Z 1)
  end.

(** ** Titles: [pullRequestDetailCache] *)
Record pullRequestDetail : Type := mkDetail { title : option string; headRef : option string }.
Record pullRequestDetailEntry : Type := mkDetailEntry {
  entryTitle : string;
  entryHeadRef : string;
  entryExpires : Z
}.
Definition noDetail : pullRequestDetail := mkDetail None None.
Definition emptyEntry : pullRequestDetailEntry := mkDetailEntry "" "" 0.

Definition detail (e : pullRequestDetailEntry) : pullRequestDetail :=
  mkDetail (if String.eqb (entryTitle e) "" then None else Some (entryTitle e))
    (if String.eqb (entryHeadRef e) "" then None else Some (entryHeadRef e)).

Definition pullRequestDetailTTL : Z := 120 * second.
Definition pullRequestDetailFailureTTL : Z := 30 * second.
Definition pullRequestDetailMaxEntries : nat := 4096.

Record pullRequestDetailCache : Type := mkDetails {
  entries : gmap string pullRequestDetailEntry;
  inflight : gset string
}.

(** What [claim] answers: a live entry, the read another caller started, or a
    read this caller must perform. *)
Inductive Claim : Type :=
| Remembered (e : pullRequestDetailEntry)
| InFlight
| Started.

Definition peek (c : pullRequestDetailCache) (key : string) (now : Z) : option pullRequestDetailEntry :=
  match entries c !! key with
  | Some e => if now <? entryExpires e then Some e else None
  | None => None
  end.

Definition claim (c : pullRequestDetailCache) (key : string) (now : Z) : Claim * pullRequestDetailCache :=
  match peek c key now with
  | Some e => (Remembered e, c)
  | None =>
    if bool_decide (key ∈ inflight c) then (InFlight, c)
    else (Started, mkDetails (entries c) ({[key]} ∪ inflight c))
  end.

Definition storeLocked (es : gmap string pullRequestDetailEntry) (key : string)
    (e : pullRequestDetailEntry) (now ttl : Z) : gmap string pullRequestDetailEntry :=
  let es := match es !! key with
    | Some _ => es
    | None => make_room (fun e => negb (now <? entryExpires e)) pullRequestDetailMaxEntries es
    end in
  <[key := mkDetailEntry (entryTitle e) (entryHeadRef e) (now + ttl)]> es.

Definition settle (c : pullRequestDetailCache) (key : string) (e : pullRequestDetailEntry) (now ttl : Z) :
    pullRequestDetailCache :=
  mkDetails (storeLocked (entries c) key e now ttl) (inflight c ∖ {[key]}).

(** ** The process's memory *)
Record Memory : Type := mkMemory {
  repoAccess : repositoryAccessCache;
  repoAccessLimiter : repositoryAccessLimiter;
  pullDetails : pullRequestDetailCache
}.
Definition no_memory : Memory :=
  mkMemory ∅ (mkLimiter ∅ (S754_zero false) (S754_zero false)) (mkDetails ∅ ∅).
Definition set_repoAccess c m := mkMemory c (repoAccessLimiter m) (pullDetails m).
Definition set_limiter l m := mkMemory (repoAccess m) l (pullDetails m).
Definition set_pullDetails c m := mkMemory (repoAccess m) (repoAccessLimiter m) c.

(** ** Room in the tables *)
Lemma make_room_size {V} (expired : V -> bool) max m :
  (0 < max)%nat -> (size (make_room expired max m) < max)%nat \/ make_room expired max m = m /\ (size m < max)%nat.
Proof.
  intros Hmax. unfold make_room. destruct (Nat.leb_spec max (size m)); [|by right].
  left. cbv zeta. destruct (Nat.leb_spec max (size (filter (fun p => expired p.2 = false) m))); [|done].
  by rewrite map_size_empty.
Qed.

Lemma make_room_bound {V} (expired : V -> bool) max m :
  (0 < max)%nat -> (size (make_room expired max m) < max)%nat.
Proof. intros Hmax. by destruct (make_room_size expired max m Hmax) as [|[-> ?]]. Qed.

Lemma size_insert_bound {V} (m : gmap string V) k v n :
  (size m < n)%nat -> (size (<[k := v]> m) <= n)%nat.
Proof. intros Hm. rewrite map_size_insert. destruct (m !! k); simpl; lia. Qed.

Lemma access_store_bound c key answer now :
  (size (access_store c key answer now) <= repositoryAccessMaxEntries)%nat.
Proof. apply size_insert_bound, make_room_bound. unfold repositoryAccessMaxEntries. lia. Qed.

Lemma access_lookup_store c key answer now later :
  access_lookup (access_store c key answer now) key later =
  (if later <? now + repositoryAccessTTL then Some answer else None).
Proof. unfold access_lookup, access_store, repositoryAccessCache in *. by rewrite lookup_insert_eq. Qed.

(** What another key answers after a store was answered before it. *)
Lemma access_lookup_store_ne c key key' answer now later b :
  key <> key' -> access_lookup (access_store c key answer now) key' later = Some b ->
  access_lookup c key' later = Some b.
Proof.
  intros Hne. unfold access_lookup, access_store, repositoryAccessCache in *.
  rewrite lookup_insert_ne by done. set (room := make_room _ _ _).
  assert (Hroom : forall e, room !! key' = Some e -> c !! key' = Some e).
  { intros e. subst room. unfold make_room. destruct (_ <=? size c)%nat; [|done]. cbv zeta.
    destruct (_ <=? _)%nat; [by rewrite lookup_empty|]. by intros [He _]%map_lookup_filter_Some. }
  destruct (room !! key') as [e|]; [|done]. by rewrite (Hroom e).
Qed.

(** ** Binary64, as far as the limiter needs it: no NaN arises from a duration *)
Definition sf_number (s : bool) (x : float64) : Prop :=
  match x with
  | S754_zero _ => True
  | S754_infinity s' | S754_finite s' _ _ => s' = s
  | S754_nan => False
  end.

Lemma shr_1_nonneg r : 0 <= shr_m r -> 0 <= shr_m (shr_1 r).
Proof. destruct r as [[|[]|] ??]; simpl; lia. Qed.

Lemma iter_shr_nonneg p r : 0 <= shr_m r -> 0 <= shr_m (iter_pos shr_1 p r).
Proof.
  revert r. induction p as [p IH|p IH|]; intros r Hr; simpl.
  - by apply IH, IH, shr_1_nonneg.
  - by apply IH, IH.
  - by apply shr_1_nonneg.
Qed.

Lemma shr_fexp_nonneg m e l : 0 <= m -> 0 <= shr_m (shr_fexp 53 1024 m e l).1.
Proof.
  intros Hm. assert (Hr : 0 <= shr_m (shr_record_of_loc m l)) by (by destruct l as [|[]]).
  unfold shr_fexp, shr. destruct (_ - _); simpl; [done|by apply iter_shr_nonneg|done].
Qed.

Lemma round_number s m e l : 0 <= m -> sf_number s (binary_round_aux 53 1024 s m e l).
Proof.
  intros Hm. unfold binary_round_aux.
  pose proof (shr_fexp_nonneg m e l Hm) as H1. destruct (shr_fexp 53 1024 m e l) as [r1 e1]. simpl in H1.
  assert (Hn : 0 <= round_nearest_even (shr_m r1) (loc_of_shr_record r1)).
  { unfold round_nearest_even. destruct (loc_of_shr_record r1) as [|[]]; [..|lia]; try done.
    destruct (Z.even _); lia. }
  pose proof (shr_fexp_nonneg _ e1 loc_Exact Hn) as H2.
  destruct (shr_fexp _ _ _ _ _) as [r2 e2]. simpl in H2.
  destruct (shr_m r2); [done| |lia]. by destruct (_ <=? _).
Qed.

Lemma normalize_number m e : sf_number (m <? 0) (binary_normalize 53 1024 m e false).
Proof.
  unfold binary_normalize, binary_round. destruct m; [done|..];
    destruct (shl_align _ _ _); by apply round_number.
Qed.

Lemma div_core_nonneg m1 e1 m2 e2 : 0 <= m1 -> 0 < m2 ->
  match SFdiv_core_binary 53 1024 m1 e1 m2 e2 with (q, _, _) => 0 <= q end.
Proof.
  intros H1 H2. unfold SFdiv_core_binary. cbv zeta.
  set (m' := match _ with Z0 => m1 | _ => _ end).
  assert (Hm' : 0 <= m').
  { subst m'. destruct (_ - _); [done|by apply Z.shiftl_nonneg|done]. }
  pose proof (Z_div_mod m' m2 ltac:(lia)) as Hd. destruct (Z.div_eucl m' m2) as [q r]. nia.
Qed.

Lemma div_number s x m e : sf_number s x -> sf_number s (f_div x (S754_finite false m e)).
Proof.
  unfold f_div. destruct x as [s'|s'| |s' mx ex]; simpl; [done|intros ->; by destruct s|done|intros ->].
  pose proof (div_core_nonneg (Zpos mx) ex (Zpos m) e ltac:(lia) ltac:(lia)) as Hq.
  change (SFdiv 53 1024 (S754_finite s mx ex) (S754_finite false m e)) with
    (let '(mz, ez, lz) := SFdiv_core_binary 53 1024 (Zpos mx) ex (Zpos m) e in
     binary_round_aux 53 1024 (xorb s false) mz ez lz).
  destruct (SFdiv_core_binary _ _ _ _ _ _) as [[q e'] l]. rewrite xorb_false_r. by apply round_number.
Qed.

Lemma add_number s x y : sf_number s x -> sf_number s y -> f_add x y <> S754_nan.
Proof.
  unfold f_add. destruct x as [sx|sx| |sx mx ex], y as [sy|sy| |sy my ey]; simpl; try done.
  - by intros _ _; destruct sx, sy.
  - intros -> ->. by destruct s.
  - intros _ _ Hn. pose proof (normalize_number
      (cond_Zopp sx (Zpos (shl_align mx ex (Z.min ex ey)).1) +
       cond_Zopp sy (Zpos (shl_align my ey (Z.min ex ey)).1)) (Z.min ex ey)) as Hs.
    by rewrite Hn in Hs.
Qed.

Lemma seconds_not_nan d : seconds d <> S754_nan.
Proof.
  unfold seconds, f_of_Z at 3. 
  assert (Hsec : exists m e, binary_normalize 53 1024 second 0 false = S754_finite false m e) by (by do 2 eexists).
  destruct Hsec as (m&e&->).
  assert (Hs : forall n, n <> 0 \/ (0 <=? d) = true -> (0 <=? n) = (0 <=? d) ->
    sf_number (d <? 0) (f_of_Z n)).
  { intros n Hn Hsign. pose proof (normalize_number n 0) as Hnum. unfold f_of_Z.
    replace (d <? 0) with (n <? 0); [done|]. destruct (Z.ltb_spec n 0), (Z.ltb_spec d 0); try done;
      destruct (Z.leb_spec 0 n), (Z.leb_spec 0 d); done || lia. }
  assert (Hz : forall n, (n = 0 \/ (0 <=? n) = (0 <=? d)) -> sf_number (d <? 0) (f_of_Z n)).
  { intros n [->|Hsign]; [done|]. destruct (Z.eq_dec n 0) as [->|]; [done|]. apply Hs; [by left|done]. }
  assert (Hpos : 0 < second) by done.
  apply (add_number (d <? 0)); [|apply div_number]; apply Hz.
  - destruct (Z.leb_spec 0 d); [right; apply Z.leb_le, Z.quot_pos; lia|].
    destruct (Z.eq_dec (Z.quot d second) 0); [by left|right]. apply Z.leb_gt.
    pose proof (Z.quot_opp_l d second ltac:(lia)). pose proof (Z.quot_pos (- d) second ltac:(lia) ltac:(lia)). lia.
  - destruct (Z.leb_spec 0 d); [right; apply Z.leb_le, Z.rem_nonneg; lia|].
    destruct (Z.eq_dec (Z.rem d second) 0); [by left|right]. apply Z.leb_gt.
    pose proof (Z.rem_nonpos d second ltac:(lia) ltac:(lia)). lia.
Qed.

Lemma positive_or_not x : x <> S754_nan ->
  SFleb x (S754_zero false) = negb (SFltb (S754_zero false) x).
Proof. unfold SFleb, SFltb. by destruct x as [[]|[]| |[]]. Qed.
(** ** The limiter *)

(** Also: the limiter's two questions agree: [overBudget] says, without
    spending, exactly when [allow] would refuse at that instant; a refusal
    leaves every bucket of the table in place, an admission of a known viewer
    touches no other viewer's bucket, and the table never outgrows its bound. *)
Theorem limiter_agrees l key now :
  (size (buckets l) <= repositoryAccessMaxViewers)%nat ->
  overBudget l key now = negb (allow l key now).1 /\
  (size (buckets (allow l key now).2) <= repositoryAccessMaxViewers)%nat /\
  (forall other, other <> key -> is_some_b (buckets l !! key) = true ->
    buckets (allow l key now).2 !! other = buckets l !! other) /\
  ((allow l key now).1 = false -> dom (buckets (allow l key now).2) = dom (buckets l)).
Proof.
  intros Hsize. unfold overBudget, allow. destruct (limits l) as [most rate].
  destruct (buckets l !! key) as [b|] eqn:Hb; cbn [fst snd buckets with_buckets negb].
  2:{ split_and!; [done| |done|done]. apply size_insert_bound. unfold pruneLocked.
      destruct (Nat.leb_spec repositoryAccessMaxViewers (size (buckets l))); [|done]. cbv zeta.
      match goal with |- context [(_ <=? ?n)%nat] => destruct (Nat.leb_spec repositoryAccessMaxViewers n) as [|Hlt] end;
        [|exact Hlt].
      rewrite map_size_empty. by apply Nat.ltb_lt. }
  rewrite positive_or_not by apply seconds_not_nan.
  assert (Hdom : forall b', dom (<[key := b']> (buckets l)) = dom (buckets l)).
  { intros b'. apply dom_insert_lookup_L. by rewrite Hb. }
  assert (Hin : forall b', (size (<[key := b']> (buckets l)) <= repositoryAccessMaxViewers)%nat).
  { intros b'. by rewrite map_size_insert, Hb. }
  assert (Hne : forall b' other, other <> key -> true = true ->
    <[key := b']> (buckets l) !! other = buckets l !! other).
  { intros b' other Hne _. by rewrite lookup_insert_ne. }
  destruct (SFltb (S754_zero false) (seconds _)); cbn [negb tokens];
    match goal with |- context [SFltb ?x (f_of_Z 1)] => destruct (SFltb x (f_of_Z 1)) end;
    cbn [fst snd buckets with_buckets negb]; split_and!; auto; done.
Qed.

(** ** The reads in flight

    Callers interleave: each asks with [claim], and the one told [Started] reads
    and settles once. [readers] are those reads still running. *)
Inductive caches : pullRequestDetailCache -> list string -> Prop :=
| caches_empty : caches (mkDetails ∅ ∅) []
| caches_claim c readers key now answer c' :
    caches c readers -> claim c key now = (answer, c') ->
    caches c' (match answer with Started => key :: readers | _ => readers end)
| caches_settle c before after key e now ttl :
    caches c (before ++ key :: after) -> ttl <= pullRequestDetailTTL ->
    caches (settle c key e now ttl) (before ++ after).

Lemma caches_inv c readers : caches c readers ->
  NoDup readers /\ (forall k, k ∈ readers <-> k ∈ inflight c) /\
  (size (entries c) <= pullRequestDetailMaxEntries)%nat.
Proof.
  induction 1 as [|c readers key now answer c' _ (Hnd&Hin&Hsize) Hclaim|c before after key e now ttl _ (Hnd&Hin&Hsize) _].
  - split_and!; [apply NoDup_nil_2|set_solver|cbn [entries]; rewrite map_size_empty; unfold pullRequestDetailMaxEntries; lia].
  - unfold claim in Hclaim. destruct (peek c key now); [by injection Hclaim as <- <-|].
    case_bool_decide as Hk; injection Hclaim as <- <-; [done|]. simpl. split_and!; [|set_solver|done].
    constructor; [by rewrite Hin|done].
  - rewrite NoDup_app in Hnd. destruct Hnd as (Hb&Hdisj&[Hka Ha]%NoDup_cons). simpl. split_and!.
    + apply NoDup_app. split_and!; [done|set_solver|done].
    + intros k. rewrite elem_of_difference, elem_of_singleton, <- Hin, !elem_of_app, elem_of_cons.
      assert (Hkb : key ∉ before) by (intros Hkey; by apply (Hdisj _ Hkey), list_elem_of_here).
      split; [|tauto]. intros [Hk|Hk]; (split; [tauto|]); by intros ->.
    + unfold storeLocked. destruct (entries c !! key) eqn:Hk; [by rewrite map_size_insert, Hk|].
      apply size_insert_bound, make_room_bound. unfold pullRequestDetailMaxEntries. lia.
Qed.

(** Also: however callers interleave, one pull request is never read twice
    at the same time, a read that is not running does not block anyone, the
    table stays within its bound, and what a read settled is answered to
    everyone, without another read, exactly until it expires. *)
Theorem one_read_per_pull c readers key now :
  caches c readers ->
  NoDup readers /\ (size (entries c) <= pullRequestDetailMaxEntries)%nat /\
  ((claim c key now).1 = InFlight -> key ∈ readers) /\
  ((claim c key now).1 = Started -> key ∉ readers) /\
  (forall e at_ ttl, let told := (claim (settle c key e at_ ttl) key now).1 in
    if now <? at_ + ttl
    then exists e', told = Remembered e' /\ detail e' = detail e
    else told = Started).
Proof.
  intros (Hnd&Hin&Hsize)%caches_inv. split_and!; [done..| | |].
  - unfold claim. destruct (peek c key now); [done|]. case_bool_decide; [by rewrite Hin|done].
  - unfold claim. destruct (peek c key now); [done|]. case_bool_decide; [done|by rewrite Hin].
  - intros e at_ ttl. cbv zeta. unfold claim, peek, settle, storeLocked. simpl.
    rewrite lookup_insert_eq. simpl. destruct (now <? at_ + ttl); [by eexists|].
    rewrite bool_decide_eq_false_2 by set_solver. done.
Qed.

(** A loop of one viewer at one instant is admitted the burst and no more. *)
Definition questions (n : nat) (l : repositoryAccessLimiter) : list bool * repositoryAccessLimiter :=
  Nat.iter n (fun p => let '(b, l') := allow p.2 "7" 0 in (p.1 ++ [b], l')) ([], l).

Lemma limiter_witness :
  let l := (questions 100 (repoAccessLimiter no_memory)).2 in
  (questions 100 (repoAccessLimiter no_memory)).1 = replicate 100 true /\
  (allow l "7" 0).1 = false /\ overBudget l "7" (10 * second) = false /\
  overBudget l "7" 0 = negb (allow l "7" 0).1.
Proof.
  cbv zeta. split; [by vm_compute|]. split; [by vm_compute|]. split; [by vm_compute|].
  apply (limiter_agrees (questions 100 (repoAccessLimiter no_memory)).2 "7" 0).
  apply Nat.leb_le. by vm_compute.
Defined.

Lemma one_read_witness :
  let c := (claim (mkDetails ∅ ∅) "acme/app#3" 0).2 in
  (claim c "acme/app#3" 1).1 = InFlight /\ NoDup ["acme/app#3"].
Proof.
  cbv zeta. split; [by vm_compute|].
  apply (one_read_per_pull (claim (mkDetails ∅ ∅) "acme/app#3" 0).2 ["acme/app#3"] "acme/app#3" 1).
  exact (caches_claim _ [] "acme/app#3" 0 Started _ caches_empty eq_refl).
Defined.
End Access.
