(* ===== verification/AttachStore.v ===== *)
(** * The store behind the attachment lifecycle

    The tables the lifecycle reads and writes, the SQL statements of
    [internal/database/queries] over them, and the world they run in: other
    writers act before each of our statements, any statement may fail at the
    connection, GitHub answers each request as it likes, and everything we do is
    recorded in order in a log. The lifecycle itself is [Attachment]. *)
From S2P Require Import Prelude GoText RepoName PromptAttach Matcher Digest GitHub Access.

Open Scope string_scope.
Open Scope list_scope.
Open Scope Z_scope.

Module AttachStore.
Import PromptAttach.

(** ** Tables *)
Record User : Type := mkUser {
  UserID : Z;
  GithubUsername : string;
  AutoAttachPullRequests : bool;
  Provider : string;
  ProviderUserID : string;
  DisplayName : option string;
  AvatarURL : option string;
  IsDiscoverable : bool
}.

Record Group : Type := mkGroup { PromptsCheckMode : string; PostPromptsCheck : bool }.

Record CollectiveRepository : Type := mkLink {
  LinkID : Z;
  LinkGroup : Z;
  LinkOwner : string;
  LinkName : string;
  InstallationID : Z;
  LinkPrivate : bool;
  LinkCreatedAt : option Z
}.

Record TranscriptRow : Type := mkTranscriptRow {
  TrID : string;
  OwnerID : Z;
  LocalID : string;
  Visibility : string;
  TrTitle : option string;
  ModelProvider : string;
  TrStart : option Z;
  TrRemote : string;
  TrBranch : string;
  TrCommits : list Matcher.RecordedCommit
}.

Record Share : Type := mkShare { ShTranscript : string; ShGroup : Z; ShStatus : string }.
Record Member : Type := mkMember { MemGroup : Z; MemUser : Z; MemRole : string; MemOrigin : string }.
Record Binding : Type := mkBinding {
  BTranscript : string; BPosition : Z; BPreviousVisibility : string
}.

Record Db : Type := mkDb {
  attachments : gmap Z Row;
  (** keyed by the attachment and the transcript *)
  bindings : gmap (Z * string) Binding;
  transcripts : gmap string TranscriptRow;
  users : gmap Z User;
  groups : gmap Z Group;
  links : list CollectiveRepository;
  shares : list Share;
  members : list Member;
  next_id : Z;
  db_now : Z
}.

Definition set_attachments (a : gmap Z Row) (d : Db) : Db :=
  mkDb a (bindings d) (transcripts d) (users d) (groups d) (links d) (shares d) (members d)
    (next_id d) (db_now d).
Definition set_bindings (b : gmap (Z * string) Binding) (d : Db) : Db :=
  mkDb (attachments d) b (transcripts d) (users d) (groups d) (links d) (shares d) (members d)
    (next_id d) (db_now d).

(** The table's primary key: a row is found where its own id says. *)
Definition row_by_id (id : Z) (d : Db) : option Row :=
  match attachments d !! id with Some r => if ID r =? id then Some r else None | None => None end.
Definition stored_rows (d : Db) : list Row := omap (fun p => row_by_id p.1 d) (map_to_list (attachments d)).
Lemma row_by_id_some id d row : row_by_id id d = Some row -> attachments d !! id = Some row /\ ID row = id.
Proof. unfold row_by_id. destruct (attachments d !! id) as [r|]; [|done]. destruct (Z.eqb_spec (ID r) id); [|done]. by intros [= <-]. Qed.
Lemma stored_rows_some row d : row ∈ stored_rows d -> row_by_id (ID row) d = Some row.
Proof. intros ([id r] & _ & Hr)%list_elem_of_omap. cbn in Hr. by destruct (row_by_id_some _ _ _ Hr) as [_ ->]. Qed.

(** ** Row updates *)
Definition row_with_artifacts (r : Row) (head : string) (comment check : option Z) (digest : string)
    (now : Z) : Row :=
  mkRow (ID r) (GroupID r) (RepoOwner r) (RepoName r) (GithubRepoID r) (Number r) head
    (BaseRemote r) (HeadRemote r) (AuthorID r) (RequesterGithubID r) (RowState r) comment check
    (RequestedAt r) (WaitingAt r) (PreviewAt r) (AttachedAt r) (DetachedAt r) digest (CreatedAt r) now.
Definition row_with_requester (r : Row) (github : Z) (now : Z) : Row :=
  mkRow (ID r) (GroupID r) (RepoOwner r) (RepoName r) (GithubRepoID r) (Number r) (HeadSha r)
    (BaseRemote r) (HeadRemote r) (AuthorID r) (Some github) (RowState r) (CommentID r) (CheckRunID r)
    (RequestedAt r) (WaitingAt r) (PreviewAt r) (AttachedAt r) (DetachedAt r) (StoredDigest r)
    (CreatedAt r) now.
Definition row_with_head (r : Row) (head : string) : Row :=
  mkRow (ID r) (GroupID r) (RepoOwner r) (RepoName r) (GithubRepoID r) (Number r) head
    (BaseRemote r) (HeadRemote r) (AuthorID r) (RequesterGithubID r) (RowState r) (CommentID r)
    (CheckRunID r) (RequestedAt r) (WaitingAt r) (PreviewAt r) (AttachedAt r) (DetachedAt r)
    (StoredDigest r) (CreatedAt r) (UpdatedAt r).
(** [ON CONFLICT (github_repo_id, number) DO UPDATE] *)
Definition row_reobserved (r new : Row) (now : Z) : Row :=
  mkRow (ID r) (GroupID r) (RepoOwner new) (RepoName new) (GithubRepoID r) (Number r) (HeadSha new)
    (BaseRemote new) (HeadRemote new) (AuthorID r) (RequesterGithubID r) (RowState r) (CommentID r)
    (CheckRunID r) (RequestedAt r) (WaitingAt r) (PreviewAt r) (AttachedAt r) (DetachedAt r)
    (StoredDigest r) (CreatedAt r) now.

(** ** Failures of the lifecycle *)
Inductive AttachError : Type :=
| EUnbound                       (** [errAttachmentUnbound] *)
| EGitHubUnavailable
| EGitHub                        (** [errAttachmentGitHub] *)
| ENothingAccepted
| ENotAllowed                    (** [promptattach.ErrTransitionNotAllowed], from a route *)
| ECheckMode
| EQuery (q : QueryError)
| ETransition (e : TransitionError)
| EUUID
| ENotOwner
| EContent
| EDigest
| ERender
| EEncode
| EAuthorMismatch
| ENoAccount
| EResponse                      (** a stored value no reader could interpret *)
| EKeptBindings (e : AttachError) (** [e], and the bindings could not be removed *)
| EJoined (errs : list AttachError).

(** ** The log *)
Inductive Event : Type :=
| EvRead (statement : string)       (** or a look at the process's memory *)
| EvBroken (statement : string)
| EvHttp (req : GitHub.Request) (answer : result unit GitHub.Response)
| EvCreated (id author : Z)
| EvReobserved (id : Z)
| EvBound (id : Z) (transcript : string) (position : Z) (visibility : string)
| EvUnbound (id : Z) (transcript : string)
| EvCleared (id : Z)
| EvArtifacts (id : Z) (head : string) (comment check : option Z) (digest : string)
| EvRequester (id github : Z)
| EvMoved (id : Z) (from to : string)
| EvLocked (id : Z)
| EvUnlocked (id : Z).

(** What other writers, the connection, GitHub and the other requests of the
    process do, as functions of what has happened so far: [meanwhile] is what
    the others do to the process's memory, [awaited] what comes of a read
    another request started, [patient] whether a caller waits for its own. *)
Class Env : Type := {
  interfere : list Event -> Db -> Db;
  broken : list Event -> bool;
  service : list Event -> GitHub.Request -> result unit GitHub.Response;
  clock : list Event -> Z;
  meanwhile : list Event -> Access.Memory -> Access.Memory;
  awaited : list Event -> string -> option Access.pullRequestDetailEntry;
  patient : list Event -> bool
}.

Record World : Type := mkWorld {
  db : Db;
  toks : gmap Z GitHub.cachedToken;
  mem : Access.Memory;
  log : list Event
}.

Section store.
Context `{Env}.

(** One statement, or one transaction of several, over the tables as other
    writers left them. [f] answers the value, the tables and what to record. *)
Definition stmt {E A} (lost : E) (name : string) (f : Db -> result E (A * Db * Event)) :
    M World E A := fun w =>
  let d := interfere (log w) (db w) in
  if broken (log w) then (Err lost, mkWorld d (toks w) (mem w) (log w ++ [EvBroken name]))
  else match f d with
       | Ok (a, d', ev) => (Ok a, mkWorld d' (toks w) (mem w) (log w ++ [ev]))
       | Err e => (Err e, mkWorld d (toks w) (mem w) (log w ++ [EvRead name]))
       end.

Definition read {E A} (lost : E) (name : string) (f : Db -> result E A) : M World E A :=
  stmt lost name (fun d => match f d with
    | Ok a => Ok (a, d, EvRead name) | Err e => Err e end).

Definition some_row {A} (o : option A) : result QueryError A :=
  match o with Some a => Ok a | None => Err NoRows end.

#[export] Instance attach_http : GitHub.HttpWorld World := {|
  GitHub.http_do := fun req w =>
    let answer := service (log w) req in
    (answer, mkWorld (db w) (toks w) (mem w) (log w ++ [EvHttp req answer]));
  GitHub.tokens := toks;
  GitHub.set_tokens := fun t w => mkWorld (db w) t (mem w) (log w);
  GitHub.now := fun w => clock (log w)
|}.

#[export] Instance attach_http_laws : GitHub.HttpLaws (W:=World).
Proof. by split. Qed.

(** ** The statements *)
Definition sql_get_attachment (id : Z) : M World QueryError Row :=
  read QueryFailed "GetPullRequestAttachment" (fun d => some_row (row_by_id id d)).

Definition sql_update_state (new : string) (id : Z) (expected : string) : M World QueryError Row :=
  stmt QueryFailed "UpdatePullRequestAttachmentState" (fun d =>
    match row_by_id id d with
    | Some row =>
      if String.eqb (RowState row) expected then
        let row' := row_with_state row new (db_now d) in
        Ok (row', set_attachments (<[id := row']> (attachments d)) d, EvMoved id expected new)
      else Err NoRows
    | None => Err NoRows
    end).

#[export] Instance attach_querier : Querier World := {|
  GetPullRequestAttachment := sql_get_attachment;
  UpdatePullRequestAttachmentState := sql_update_state
|}.

Section unicode.
Context `{UnicodeTables}.

Definition same_name (a b : string) : bool := String.eqb (to_lower a) (to_lower b).

(** ORDER BY created_at DESC, id DESC *)
Definition newer (a b : Row) : bool :=
  (CreatedAt b <? CreatedAt a) || ((CreatedAt a =? CreatedAt b) && (ID b <? ID a)).

Definition sql_get_for_pull (owner name : string) (number : Z) : M World QueryError Row :=
  read QueryFailed "GetPullRequestAttachmentForPull" (fun d =>
    some_row (head (sort_stable newer (List.filter (fun r => same_name (RepoOwner r) owner &&
      same_name (RepoName r) name && (Number r =? number)) (stored_rows d))))).

Definition sql_create (new : Row) : M World QueryError Row :=
  stmt QueryFailed "CreatePullRequestAttachment" (fun d =>
    match List.filter (fun r => (GithubRepoID r =? GithubRepoID new) && (Number r =? Number new))
            (stored_rows d) with
    | r :: _ =>
      let r' := row_reobserved r new (db_now d) in
      Ok (r', set_attachments (<[ID r := r']> (attachments d)) d, EvReobserved (ID r))
    | [] =>
      match users d !! AuthorID new with
      | None => Err QueryFailed
      | Some _ =>
        let id := next_id d in
        if is_some_b (attachments d !! id) then Err QueryFailed else
        let r := mkRow id (GroupID new) (RepoOwner new) (RepoName new) (GithubRepoID new) (Number new)
          (HeadSha new) (BaseRemote new) (HeadRemote new) (AuthorID new) (RequesterGithubID new)
          "requested" None None (Some (db_now d)) None None None None "" (db_now d) (db_now d) in
        Ok (r, mkDb (<[id := r]> (attachments d)) (bindings d) (transcripts d) (users d) (groups d)
          (links d) (shares d) (members d) (id + 1) (db_now d), EvCreated id (AuthorID new))
      end
    end).

Definition position_before (a b : Binding) : bool :=
  (BPosition a <? BPosition b) ||
  ((BPosition a =? BPosition b) && String.ltb (BTranscript a) (BTranscript b)).

Definition bindings_of (id : Z) (d : Db) : list Binding :=
  sort_stable position_before
    (snd <$> List.filter (fun p => p.1.1 =? id) (map_to_list (bindings d))).

Definition sql_list_bindings (id : Z) : M World QueryError (list Binding) :=
  read QueryFailed "ListPullRequestAttachmentTranscripts" (fun d => Ok (bindings_of id d)).

Definition sql_unbind (id : Z) (transcript : string) : M World QueryError unit :=
  stmt QueryFailed "DeletePullRequestAttachmentTranscript" (fun d =>
    Ok (tt, set_bindings (delete (id, transcript) (bindings d)) d, EvUnbound id transcript)).

Definition sql_clear (id : Z) : M World QueryError unit :=
  stmt QueryFailed "DeletePullRequestAttachmentTranscripts" (fun d =>
    Ok (tt, set_bindings (filter (fun p => p.1.1 <> id) (bindings d)) d, EvCleared id)).

(** [GetTranscriptGovernanceForUpdate] then [AttachPullRequestTranscript] in one
    transaction: the visibility is read under the row lock, a repeated binding
    keeps the visibility it recorded, and a position another binding of the
    attachment holds is refused. *)
Definition tx_bind (id : Z) (transcript : string) (position : Z) : M World QueryError unit :=
  stmt QueryFailed "AttachPullRequestTranscript" (fun d =>
    match transcripts d !! transcript with
    | None => Err NoRows
    | Some pre =>
      let taken := existsb (fun b => (BPosition b =? position) &&
        negb (String.eqb (BTranscript b) transcript)) (bindings_of id d) in
      match attachments d !! id with
      | Some _ =>
        if taken || (position <? 0) then Err QueryFailed
        else
          let previous := match bindings d !! (id, transcript) with
            | Some b => BPreviousVisibility b | None => Visibility pre end in
          Ok (tt, set_bindings (<[(id, transcript) := mkBinding transcript position previous]> (bindings d)) d,
              EvBound id transcript position previous)
      | None => Err QueryFailed
      end
    end).

Definition sql_set_requester (id github : Z) : M World QueryError Row :=
  stmt QueryFailed "SetPullRequestAttachmentRequester" (fun d =>
    match row_by_id id d with
    | Some row =>
      let row' := row_with_requester row github (db_now d) in
      Ok (row', set_attachments (<[id := row']> (attachments d)) d, EvRequester id github)
    | None => Err NoRows
    end).

Definition sql_get_link (group : Z) (owner name : string) : M World QueryError CollectiveRepository :=
  read QueryFailed "GetCollectiveRepository" (fun d => some_row (find (fun l => (LinkGroup l =? group) &&
    same_name (LinkOwner l) owner && same_name (LinkName l) name) (links d))).

(** ORDER BY created_at ASC NULLS LAST, id ASC *)
Definition earlier_link (a b : CollectiveRepository) : bool :=
  match LinkCreatedAt a, LinkCreatedAt b with
  | Some x, Some y => (x <? y) || ((x =? y) && (LinkID a <? LinkID b))
  | Some _, None => true
  | None, Some _ => false
  | None, None => LinkID a <? LinkID b
  end.

Definition sql_get_link_by_repo (owner name : string) : M World QueryError CollectiveRepository :=
  read QueryFailed "GetCollectiveRepositoryByRepo" (fun d => some_row (head (sort_stable earlier_link
    (List.filter (fun l => same_name (LinkOwner l) owner && same_name (LinkName l) name) (links d))))).

Definition sql_get_group (id : Z) : M World QueryError Group :=
  read QueryFailed "GetGroupByID" (fun d => some_row (groups d !! id)).
Definition sql_get_user (id : Z) : M World QueryError User :=
  read QueryFailed "GetUserByID" (fun d => some_row (users d !! id)).
Definition sql_get_transcript (id : string) : M World QueryError TranscriptRow :=
  read QueryFailed "GetTranscriptByID" (fun d => some_row (transcripts d !! id)).

Definition sql_user_by_identity (provider provider_user_id : string) : M World QueryError User :=
  read QueryFailed "GetUserByProviderIdentity" (fun d => some_row (find (fun u =>
    String.eqb (Provider u) provider && String.eqb (ProviderUserID u) provider_user_id)
    (snd <$> map_to_list (users d)))).

Definition sql_group_member (group user : Z) : M World QueryError Member :=
  read QueryFailed "GetGroupMember" (fun d => some_row (find (fun m => (MemGroup m =? group) &&
    (MemUser m =? user)) (members d))).

(** ORDER BY session_start ASC NULLS LAST, id ASC *)
Definition starts_before (a b : TranscriptRow) : bool :=
  match TrStart a, TrStart b with
  | Some x, Some y => (x <? y) || ((x =? y) && String.ltb (TrID a) (TrID b))
  | Some _, None => true
  | None, Some _ => false
  | None, None => String.ltb (TrID a) (TrID b)
  end.

Definition sql_owner_transcripts (owner : Z) : M World QueryError (list TranscriptRow) :=
  read QueryFailed "ListOwnerTranscriptsForMatching" (fun d => Ok (sort_stable starts_before
    (List.filter (fun t => (OwnerID t =? owner) && negb (String.eqb (TrRemote t) ""))
      (snd <$> map_to_list (transcripts d))))).

(** The recorded commits of each transcript, in payload order. *)
Definition sql_commits_for (ids : list string) :
    M World QueryError (gmap string (list Matcher.RecordedCommit)) :=
  read QueryFailed "ListTranscriptCommitsForTranscripts" (fun d =>
    Ok (TrCommits <$> filter (fun p => p.1 ∈ ids) (transcripts d))).

Definition sql_group_owners (transcript : string) : M World QueryError (list Z) :=
  read QueryFailed "ListGroupOwnersForTranscript" (fun d => Ok (remove_dups (concat ((fun s =>
    MemUser <$> List.filter (fun m => (MemGroup m =? ShGroup s) && String.eqb (MemRole m) "owner") (members d))
    <$> List.filter (fun s => String.eqb (ShTranscript s) transcript) (shares d))))).

Definition sql_approved_groups (transcript : string) : M World QueryError (list Z) :=
  read QueryFailed "ListApprovedTranscriptShareGroups" (fun d => Ok (ShGroup <$> List.filter (fun s =>
    String.eqb (ShTranscript s) transcript && String.eqb (ShStatus s) "approved") (shares d))).

(** [ListGroupMembers] as its owners see it: everyone who is not pending. *)
Definition sql_group_members (group : Z) : M World QueryError (list Member) :=
  read QueryFailed "ListGroupMembers" (fun d => Ok (List.filter (fun m => (MemGroup m =? group) &&
    negb (String.eqb (MemRole m) "pending") && is_some_b (users d !! MemUser m)) (members d))).

(** ORDER BY updated_at ASC, id ASC *)
Definition updated_before (a b : Row) : bool :=
  (UpdatedAt a <? UpdatedAt b) || ((UpdatedAt a =? UpdatedAt b) && (ID a <? ID b)).

Definition sql_author_attachments (author : Z) (name : string) (states : list string) :
    M World QueryError (list Row) :=
  read QueryFailed "ListAuthorAttachmentsForRepo" (fun d => Ok (sort_stable updated_before
    (List.filter (fun r => (AuthorID r =? author) && same_name (RepoName r) name &&
      existsb (String.eqb (RowState r)) states) (stored_rows d)))).

Definition sql_attachments_binding (transcript : string) : M World QueryError (list Row) :=
  read QueryFailed "ListAttachmentsBindingTranscript" (fun d => Ok (sort_stable (fun a b => ID a <? ID b)
    (List.filter (fun r => is_some_b (bindings d !! (ID r, transcript)) && String.eqb (RowState r) "attached")
      (stored_rows d)))).
End unicode.
End store.
End AttachStore.
