(* ===== verification/Attachment.v ===== *)
(** * The attachment lifecycle ([internal/handler/attachment_*.go])

    Resolving the linked repository, matching the author's candidates, building
    the digests, attaching, previewing, refreshing, posting and detaching, and
    the webhook and publish entry points over them, in the order the code makes
    its calls. The store and its world are [AttachStore], the GitHub client is
    [GitHub], the state changes are [PromptAttach.Transition], the acceptance is
    [Matcher.Match] and what is posted is [Render.Render]. *)
From S2P Require Import Prelude GoText RepoName PromptAttach Matcher Digest Render GitHub AttachStore.

Open Scope string_scope.
Open Scope list_scope.
Open Scope Z_scope.

Module Attachment.
Import RepoName PromptAttach AttachStore.

(** What the lifecycle gets from the rest of the process: the decrypting
    transcript read with its decoder, the digest column's codec, the wire
    contract's check, the order of map ranges, and the configuration. *)
Class Deps : Type := {
  read_turns : list Event -> TranscriptRow -> option (list Digest.Turn);
  encode_digest : Digest.PromptDigest -> option string;
  decode_digest : string -> option Digest.PromptDigest;
  validate : Digest.PromptDigest -> bool;
  range_orders : nat -> list string -> list string;
  parse_uuid : string -> option string;
  uuid_text : Z -> string;
  FrontendURL : string;
  AppID : string;
  ApiURL : string;
  gh_configured : bool
}.

Definition attachmentRedactionLevel : string := "standard".
Definition attachmentCheckTitle : string := "peasant / prompts".
Definition dbVisibilityPublic : string := "public".
Definition dbVisibilityShared : string := "shared".
Definition dbVisibilityPrivate : string := "private".

Record attachmentRepository : Type := mkRepo {
  groupID : Z;
  installationID : Z;
  isPrivate : bool;
  checkMode : CheckMode;
  postCheck : bool
}.

Record attachmentPull : Type := mkPullFacts {
  repoOwner : string;
  repoName : string;
  githubRepoID : Z;
  number : Z;
  headSHA : string;
  headRef : string;
  baseRemote : string;
  headRemote : string;
  isFork : bool;
  authorID : Z;
  pullState : string
}.

Record attachmentDigests : Type := mkDigests {
  complete : Digest.PromptDigest;
  rows : list Render.Row;
  commitSet : list string;
  readableBeyondAuthor : bool;
  visibility : gmap string string;
  readable : gmap string bool
}.

(** ** Error handling *)
Definition failing {E A} (e : AttachError) (m : M World E A) : M World AttachError A :=
  r ← attempt m; match r with Ok a => mret a | Err _ => throw e end.
Definition query {A} (m : M World QueryError A) : M World AttachError A :=
  r ← attempt m; match r with Ok a => mret a | Err e => throw (EQuery e) end.
Definition from {A} (e : AttachError) (o : option A) : M World AttachError A :=
  match o with Some a => mret a | None => throw e end.
Definition skip : M World AttachError unit := mret tt.

(** [errors.Join] *)
Definition join_errors (errs : list AttachError) : M World AttachError unit :=
  match errs with [] => skip | _ => throw (EJoined errs) end.

Section lifecycle.
Context `{Env, UnicodeTables, GitHub.Wire, Deps}.

Definition forPullRequest (d : attachmentDigests) : Render.PullRequest :=
  Render.mkPullRequest (complete d) (rows d) (commitSet d).

(** ** The lock *)
Definition withAttachmentLock {A} (id : Z) (fn : M World AttachError A) : M World AttachError A :=
  _ ← query (stmt QueryFailed "pg_advisory_lock" (fun d => Ok (tt, d, EvLocked id)));
  r ← attempt fn;
  _ ← (fun w => (Ok tt, mkWorld (db w) (toks w) (mem w) (log w ++ [EvUnlocked id])) : result AttachError unit * World);
  match r with Ok a => mret a | Err e => throw e end.

(** ** Repository and pull request *)
Definition check_mode_for (g : Group) : M World AttachError CheckMode :=
  from ECheckMode (check_mode_of (PromptsCheckMode g)).

Definition resolveAttachmentRepository (attachment : Row) : M World AttachError attachmentRepository :=
  match GroupID attachment with
  | None => throw EUnbound
  | Some group =>
    repo ← failing EUnbound (sql_get_link group (to_lower (RepoOwner attachment))
      (to_lower (RepoName attachment)));
    g ← failing EUnbound (sql_get_group group);
    mode ← check_mode_for g;
    mret (mkRepo group (InstallationID repo) (LinkPrivate repo) mode (PostPromptsCheck g))
  end.

Definition resolveAttachmentRepositoryForLink (link : CollectiveRepository) :
    M World AttachError attachmentRepository :=
  g ← failing EUnbound (sql_get_group (LinkGroup link));
  mode ← check_mode_for g;
  mret (mkRepo (LinkGroup link) (InstallationID link) (LinkPrivate link) mode (PostPromptsCheck g)).

(** A client call; without a configured client it is refused before any call. *)
Definition gh_call {A} (m : M World GitHub.GhError A) : M World AttachError A :=
  if gh_configured then failing EGitHub m else throw EGitHubUnavailable.

Definition resolveAttachmentPull (repo : attachmentRepository) (owner name : string) (n : Z) :
    M World AttachError attachmentPull :=
  pr ← gh_call (GitHub.GetPullRequest AppID ApiURL (installationID repo) owner name n);
  let base := owner +:+ "/" +:+ name in
  let head := if GitHub.IsFork pr && negb (String.eqb (GitHub.HeadRepoFullName pr) "")
    then GitHub.HeadRepoFullName pr else base in
  mret (mkPullFacts owner name (GitHub.RepoID pr) n (GitHub.PullHeadSHA pr) (GitHub.PullHeadRef pr)
    base head (GitHub.IsFork pr) (GitHub.PullAuthorID pr) "").

(** ** Matching *)
Definition candidate_of_row (commits : gmap string (list Matcher.RecordedCommit)) (row : TranscriptRow) :
    Matcher.Transcript :=
  Matcher.mkTranscript (TrID row) "" (TrRemote row) (TrBranch row) (default 0 (TrStart row))
    ((fun c => Matcher.mkRecordedCommit (Matcher.SHA c) (Matcher.AuthoredAt c) (Matcher.Additions c)
       (Matcher.Deletions c) None) <$> default [] (commits !! TrID row)).

Definition loadAttachmentCandidates (author : Z) : M World AttachError (list Matcher.Transcript) :=
  found ← query (sql_owner_transcripts author);
  commits ← match found with
    | [] => mret ∅
    | _ => query (sql_commits_for (TrID <$> found))
    end;
  mret (candidate_of_row commits <$> found).

Definition pull_of (attachment : Row) (listed : GitHub.ListCommitsResult) : Matcher.PullRequest :=
  let baseRepo := normalize_remote (BaseRemote attachment) in
  let headRepo := normalize_remote (HeadRemote attachment) in
  Matcher.mkPullRequest baseRepo headRepo ""
    (negb (String.eqb headRepo "") && negb (String.eqb headRepo baseRepo))
    (GitHub.Complete listed) (GitHub.CommitSHA <$> GitHub.Commits listed).

Definition matchAttachmentCandidates (attachment : Row) (repo : attachmentRepository) :
    M World AttachError (Matcher.Result * list string) :=
  listed ← gh_call (GitHub.ListPullRequestCommits AppID ApiURL (installationID repo)
    (RepoOwner attachment) (RepoName attachment) (Number attachment) (GitHub.mkListOptions 0 0 ""));
  candidates ← loadAttachmentCandidates (AuthorID attachment);
  mret (Matcher.Match (pull_of attachment listed) candidates,
        GitHub.CommitSHA <$> GitHub.Commits listed).

Definition acceptedTranscriptIDs (accepted : list Matcher.AcceptedTranscript) : list string :=
  Matcher.AcceptedID <$> accepted.

(** ** Who can read a transcript *)
Definition listedOnPullRequest (visibility : string) : bool :=
  String.eqb visibility dbVisibilityPublic.

Definition canReadData (role dataAccess : string) : bool :=
  if String.eqb dataAccess "public" then true
  else if String.eqb dataAccess "contributors"
  then existsb (String.eqb role) ["contributor"; "member"; "owner"]
  else existsb (String.eqb role) ["member"; "owner"].

(** How widely a visibility discloses; an unknown one ranks above the menu. *)
Definition disclosureRank (value : string) : Z :=
  if String.eqb value dbVisibilityPrivate then 0
  else if String.eqb value dbVisibilityShared then 1
  else if String.eqb value dbVisibilityPublic then 2
  else 3.

Definition narrowestVisibility (current recorded : string) : string :=
  if 3 <=? disclosureRank current then current
  else if disclosureRank recorded <? disclosureRank current then recorded
  else current.

(** The loop over the groups a share was approved for. *)
Fixpoint any_member_reads (owner : Z) (approved : list Z) : M World AttachError bool :=
  match approved with
  | [] => mret false
  | group :: rest =>
    found ← query (sql_group_members group);
    if existsb (fun m => negb (MemUser m =? owner) && canReadData (MemRole m) "contributors") found
    then mret true else any_member_reads owner rest
  end.

Definition readableBeyondItsAuthor (transcript : TranscriptRow) : M World AttachError bool :=
  if String.eqb (Visibility transcript) dbVisibilityPublic then mret true
  else
    owners ← query (sql_group_owners (TrID transcript));
    if existsb (fun o => negb (o =? OwnerID transcript)) owners then mret true
    else if negb (String.eqb (Visibility transcript) dbVisibilityShared) then mret false
    else
      approved ← query (sql_approved_groups (TrID transcript));
      any_member_reads (OwnerID transcript) approved.

(** ** The digests *)
Definition pullRequestPageURL (attachment : Row) : string :=
  trim_right_byte 47 FrontendURL +:+ "/pulls/" +:+ path_escape (RepoOwner attachment) +:+ "/" +:+
  path_escape (RepoName attachment) +:+ "/" +:+ itoa (Number attachment).

Definition transcriptFrontendURL (id : string) : string :=
  trim_right_byte 47 FrontendURL +:+ "/transcripts/" +:+ path_escape id.

Definition anchorsByTranscript (accepted : list Matcher.AcceptedTranscript) :
    gmap string (list Matcher.Anchor) :=
  foldl (fun m a => <[Matcher.AcceptedID a := Matcher.Anchors a]> m) ∅ accepted.

Definition commit_match (id : string) (a : Matcher.Anchor) : Digest.CommitMatch :=
  Digest.mkCommitMatch id (Matcher.AnchorSHA a) (Matcher.AnchorAt a) (Matcher.AnchorAdditions a)
    (Matcher.AnchorDeletions a) (Matcher.AnchorFiles a).

Definition digest_row (row : TranscriptRow) (id author : string) : Render.Row :=
  if listedOnPullRequest (Visibility row)
  then Render.mkRow id (default "" (TrTitle row)) author true (transcriptFrontendURL id)
  else Render.mkRow id "" author false "".

(** What the loop over the transcripts has gathered. *)
Record Gathered : Type := mkGathered {
  g_sessions : list Digest.Session;
  g_commits : list Digest.CommitMatch;
  g_rows : list Render.Row;
  g_readable_beyond : bool;
  g_visibility : gmap string string;
  g_readable : gmap string bool;
  g_handles : gmap Z string
}.

Definition author_handle (owner : Z) (handles : gmap Z string) : M World AttachError string :=
  match handles !! owner with
  | Some h => mret h
  | None => u ← query (sql_get_user owner); mret (GithubUsername u)
  end.

Definition gather_one (anchors : gmap string (list Matcher.Anchor)) (id : string) (g : Gathered) :
    M World AttachError Gathered :=
  uuid ← from EUUID (parse_uuid id);
  row ← query (sql_get_transcript uuid);
  turns ← (fun w => match read_turns (log w) row with
    | Some t => (Ok t, mkWorld (db w) (toks w) (mem w) (log w ++ [EvRead "readEncryptedTranscript"]))
    | None => (Err EContent, mkWorld (db w) (toks w) (mem w) (log w ++ [EvBroken "readEncryptedTranscript"]))
    end);
  let session := Digest.mkSession id (ModelProvider row) attachmentRedactionLevel
    (default 0 (TrStart row)) turns in
  let commits := commit_match id <$> default [] (anchors !! id) in
  author ← author_handle (OwnerID row) (g_handles g);
  let entry := digest_row row id author in
  reads ← readableBeyondItsAuthor row;
  mret (mkGathered (g_sessions g ++ [session]) (g_commits g ++ commits) (g_rows g ++ [entry])
    (g_readable_beyond g || reads) (<[id := Visibility row]> (g_visibility g))
    (<[id := reads]> (g_readable g)) (<[OwnerID row := author]> (g_handles g))).

Fixpoint gather (anchors : gmap string (list Matcher.Anchor)) (ids : list string) (g : Gathered) :
    M World AttachError Gathered :=
  match ids with
  | [] => mret g
  | id :: rest => g' ← gather_one anchors id g; gather anchors rest g'
  end.

Definition buildAttachmentDigests (attachment : Row) (transcriptIDs commits : list string)
    (accepted : list Matcher.AcceptedTranscript) : M World AttachError attachmentDigests :=
  g ← gather (anchorsByTranscript accepted) transcriptIDs (mkGathered [] [] [] false ∅ ∅ ∅);
  match Digest.Build validate range_orders
    (Digest.mkInput (pullRequestPageURL attachment) commits (g_sessions g) (g_commits g)) with
  | Ok d => mret (mkDigests d (g_rows g) commits (g_readable_beyond g) (g_visibility g) (g_readable g))
  | Err _ => throw EDigest
  end.

(** ** Storing what was posted *)

(** The first occurrence of each transcript the items name. *)
Definition item_transcripts (d : Digest.PromptDigest) : list string :=
  foldl (fun seen i => if existsb (String.eqb (Digest.ItemTranscript i)) seen then seen
    else seen ++ [Digest.ItemTranscript i]) [] (Digest.Items d).

(** [ListLiveOwnedDigestTranscripts] *)
Definition live_owned (d : Db) (owner : Z) (ids : list string) (id : string) : bool :=
  existsb (String.eqb id) ids &&
  match transcripts d !! id with Some t => OwnerID t =? owner | None => false end.

(** The digest narrowed to the transcripts still there and still the author's. *)
Definition pruned_digest (d : Db) (attachment : Row) (encoded : string) : result AttachError string :=
  if String.eqb encoded "" then Ok ""
  else match decode_digest encoded with
  | None => Err EEncode
  | Some stored =>
    match mapM parse_uuid (item_transcripts stored) with
    | None => Err EUUID
    | Some ids =>
      match Digest.Restrict validate stored (live_owned d (AuthorID attachment) ids) with
      | Err _ => Err EDigest
      | Ok pruned => match encode_digest pruned with Some e => Ok e | None => Err EEncode end
      end
    end
  end.

(** One system transaction: lock the row, prune, write. *)
Definition storeAttachmentArtifacts (id : Z) (head : string) (comment check : option Z)
    (encoded : string) : M World AttachError unit :=
  stmt (EQuery QueryFailed) "SetPullRequestAttachmentArtifacts" (fun d =>
    match row_by_id id d with
    | None => Err (EQuery NoRows)
    | Some row =>
      match pruned_digest d row encoded with
      | Err e => Err e
      | Ok pruned =>
        Ok (tt, set_attachments (<[id := row_with_artifacts row head comment check pruned (db_now d)]>
          (attachments d)) d, EvArtifacts id head comment check pruned)
      end
    end).

Definition optionalInt8 (value : Z) : option Z := if value =? 0 then None else Some value.
Definition int8_value (value : option Z) : Z := default 0 value.

(** ** Binding *)
Definition bindOneTranscript (attachment : Row) (id : string) (position : Z) : M World AttachError unit :=
  transcript ← query (sql_get_transcript id);
  if negb (OwnerID transcript =? AuthorID attachment) then throw ENotOwner
  else
    _ ← query (read QueryFailed "withPublishLocks" (fun _ => Ok tt));
    query (tx_bind (ID attachment) id position).

Fixpoint bindAcceptedTranscripts (attachment : Row) (accepted : list Matcher.AcceptedTranscript)
    (position : Z) : M World AttachError unit :=
  match accepted with
  | [] => skip
  | item :: rest =>
    id ← from EUUID (parse_uuid (Matcher.AcceptedID item));
    _ ← bindOneTranscript attachment id position;
    bindAcceptedTranscripts attachment rest (position + 1)
  end.

Fixpoint unbindTranscripts (id : Z) (ids : list string) : M World AttachError unit :=
  match ids with
  | [] => skip
  | t :: rest =>
    parsed ← from EUUID (parse_uuid t);
    _ ← query (sql_unbind id parsed);
    unbindTranscripts id rest
  end.

Definition clearEarlierBindings (attachment : Row) : M World AttachError unit :=
  found ← query (sql_list_bindings (ID attachment));
  match found with [] => skip | _ => query (sql_clear (ID attachment)) end.

(** ** Posting *)
Definition attachmentExternalID (attachment : Row) : string :=
  "village-attachment-" +:+ uuid_text (ID attachment).

Definition render (d : attachmentDigests) (tier : Render.Tier) : M World AttachError string :=
  match Render.Render validate (forPullRequest d) tier with
  | Ok text => mret text
  | Err _ => throw ERender
  end.

Definition check_request (attachment : Row) (repo : attachmentRepository) (d : attachmentDigests)
    (summary : string) : GitHub.CheckRunRequest :=
  GitHub.mkCheckRequest (HeadSha attachment) (attachmentExternalID attachment)
    (GitHub.PromptCheckConclusion (check_mode_string (checkMode repo)) true (readableBeyondAuthor d))
    attachmentCheckTitle summary (pullRequestPageURL attachment) GitHub.PromptCheckActions.

(** Whether the recorded run cannot be updated for this head; the read of an
    existing run may say so. *)
Definition needs_new_run (attachment : Row) (repo : attachmentRepository) (headChanged : bool) :
    M World AttachError bool :=
  match CheckRunID attachment with
  | None => mret true
  | Some run =>
    if headChanged then mret true
    else
      r ← attempt (GitHub.GetCheckRun AppID ApiURL (installationID repo) (RepoOwner attachment)
        (RepoName attachment) run);
      match r with
      | Ok found => mret (negb (String.eqb (GitHub.HeadSHA found) (HeadSha attachment)))
      | Err e => if GitHub.IsNotFound e then mret true else throw EGitHub
      end
  end.

Definition emptyNote : string := "No transcripts remain attached to this pull request.".

(** The ids to record, comment first. *)
Definition postAttachment (attachment : Row) (repo : attachmentRepository) (d : attachmentDigests)
    (headChanged : bool) : M World AttachError (Z * Z) :=
  if negb (postCheck repo)
  then mret (int8_value (CommentID attachment), int8_value (CheckRunID attachment))
  else if negb gh_configured then throw EGitHubUnavailable
  else
    rendered ← render d Render.CommentTier;
    summarised ← render d Render.CheckRunTier;
    let empty := match Digest.Items (complete d) with [] => true | _ => false end in
    let comment := if empty then emptyNote else rendered in
    let summary := if empty then emptyNote else summarised in
    let request := check_request attachment repo d summary in
    create ← needs_new_run attachment repo headChanged;
    run ← failing EGitHub (if create : bool
      then GitHub.CreateCheckRun AppID ApiURL (installationID repo) (RepoOwner attachment)
        (RepoName attachment) request
      else GitHub.UpdateCheckRun AppID ApiURL (installationID repo) (RepoOwner attachment)
        (RepoName attachment) (int8_value (CheckRunID attachment)) request);
    posted ← failing EGitHub (GitHub.UpsertIssueComment AppID ApiURL (installationID repo)
      (RepoOwner attachment) (RepoName attachment) (Number attachment)
      (int8_value (CommentID attachment)) comment);
    mret (GitHub.CommentID posted, GitHub.RunID run).

Definition postPreviewComment (attachment : Row) (repo : attachmentRepository) (matches : Z) :
    M World AttachError Z :=
  if negb (postCheck repo) then mret (int8_value (CommentID attachment))
  else
    posted ← gh_call (GitHub.UpsertIssueComment AppID ApiURL (installationID repo)
      (RepoOwner attachment) (RepoName attachment) (Number attachment)
      (int8_value (CommentID attachment)) (Render.RenderPreview matches (pullRequestPageURL attachment)));
    mret (GitHub.CommentID posted).

Definition transition (id : Z) (next : State) : M World AttachError Row :=
  r ← attempt (Transition id (state_string next));
  match r with Ok row => mret row | Err e => throw (ETransition e) end.

(** The [unbind] that follows a failed post, and the error both make. *)
Definition undo_bindings {A} (id : Z) (ids : list string) (e : AttachError) : M World AttachError A :=
  u ← attempt (unbindTranscripts id ids);
  match u with Ok _ => throw e | Err _ => throw (EKeptBindings e) end.

(** ** Refreshing an attached attachment *)
Definition next_position (bound : list Binding) : Z :=
  foldl (fun next b => if next <? BPosition b + 1 then BPosition b + 1 else next) 0 bound.

Definition refreshAttachedAttachment (attachment : Row) (repo : attachmentRepository) (headSHA : string)
    (forceRepost : bool) : M World AttachError unit :=
  '(matched, commits) ← matchAttachmentCandidates attachment repo;
  bound ← query (sql_list_bindings (ID attachment));
  let boundIDs := BTranscript <$> bound in
  let newlyAccepted := List.filter
    (fun a => negb (existsb (String.eqb (Matcher.AcceptedID a)) boundIDs)) (Matcher.Accepted matched) in
  if bool_decide (newlyAccepted = []) && negb forceRepost &&
     (String.eqb headSHA "" || String.eqb headSHA (HeadSha attachment))
  then skip
  else
    _ ← bindAcceptedTranscripts attachment newlyAccepted (next_position bound);
    let ordered := boundIDs ++ acceptedTranscriptIDs newlyAccepted in
    if bool_decide (ordered = []) && negb forceRepost then skip
    else
      digests ← buildAttachmentDigests attachment ordered commits (Matcher.Accepted matched);
      let head := if String.eqb headSHA "" then HeadSha attachment else headSHA in
      posted ← attempt (postAttachment (row_with_head attachment head) repo digests
        (negb (String.eqb head (HeadSha attachment))));
      match posted with
      | Err e => undo_bindings (ID attachment) (acceptedTranscriptIDs newlyAccepted) e
      | Ok (comment, check) =>
        encoded ← from EEncode (encode_digest (complete digests));
        _ ← storeAttachmentArtifacts (ID attachment) head (optionalInt8 comment) (optionalInt8 check) encoded;
        _ ← transition (ID attachment) Attached;
        skip
      end.

(** ** Attaching *)

(** [None] when everything still reads as it did; the first transcript that does
    not, or that cannot be read, decides. *)
Fixpoint audience_moved (d : attachmentDigests) (before : list (string * string)) :
    M World AttachError bool :=
  match before with
  | [] => mret false
  | (id, visibility_before) :: rest =>
    match parse_uuid id with
    | None => mret true
    | Some uuid =>
      r ← attempt (sql_get_transcript uuid);
      match r with
      | Err _ => mret true
      | Ok row =>
        reads ← attempt (readableBeyondItsAuthor row);
        match reads with
        | Err _ => mret true
        | Ok reads =>
          if negb (Bool.eqb (listedOnPullRequest (Visibility row)) (listedOnPullRequest visibility_before)) ||
             negb (Bool.eqb reads (default false (readable d !! id)))
          then mret true else audience_moved d rest
        end
      end
    end
  end.

Definition audienceMovedSince (d : attachmentDigests) : M World AttachError bool :=
  audience_moved d (map_to_list (visibility d)).

Definition attachAcceptedAndPost (attachment : Row) : M World AttachError Row :=
  repo ← resolveAttachmentRepository attachment;
  '(matched, commits) ← matchAttachmentCandidates attachment repo;
  if bool_decide (Matcher.Accepted matched = []) then throw ENothingAccepted
  else
    let acceptedIDs := acceptedTranscriptIDs (Matcher.Accepted matched) in
    digests ← buildAttachmentDigests attachment acceptedIDs commits (Matcher.Accepted matched);
    _ ← clearEarlierBindings attachment;
    _ ← bindAcceptedTranscripts attachment (Matcher.Accepted matched) 0;
    posted ← attempt (postAttachment attachment repo digests false);
    match posted with
    | Err e => undo_bindings (ID attachment) acceptedIDs e
    | Ok (comment, check) =>
      encoded ← from EEncode (encode_digest (complete digests));
      _ ← storeAttachmentArtifacts (ID attachment) (HeadSha attachment) (optionalInt8 comment)
        (optionalInt8 check) encoded;
      updated ← transition (ID attachment) Attached;
      moved ← audienceMovedSince digests;
      _ ← (if moved : bool
        then _ ← attempt (refreshAttachedAttachment updated repo (HeadSha updated) true) : M World AttachError _;
             skip
        else skip);
      mret updated
    end.

(** ** Previewing *)
Definition previewWithMatch (attachment : Row) (repo : attachmentRepository)
    (accepted : list Matcher.AcceptedTranscript) (commits : list string) : M World AttachError unit :=
  let acceptedIDs := acceptedTranscriptIDs accepted in
  digests ← buildAttachmentDigests attachment acceptedIDs commits accepted;
  encoded ← from EEncode (encode_digest (complete digests));
  comment ← postPreviewComment attachment repo (Z.of_nat (length acceptedIDs));
  _ ← storeAttachmentArtifacts (ID attachment) (HeadSha attachment) (optionalInt8 comment)
    (CheckRunID attachment) encoded;
  if negb (String.eqb (RowState attachment) (state_string Preview))
  then _ ← transition (ID attachment) Preview; skip
  else skip.

(** The author's click, or with [consented] the author's publish or setting. *)
Definition authorAttachOrPreview (attachment : Row) (repo : attachmentRepository) (headSHA : string)
    (consented : bool) : M World AttachError unit :=
  if String.eqb (RowState attachment) (state_string Attached)
  then refreshAttachedAttachment attachment repo headSHA false
  else
    '(matched, commits) ← matchAttachmentCandidates attachment repo;
    if bool_decide (Matcher.Accepted matched = []) then
      if String.eqb (RowState attachment) (state_string Waiting) ||
         negb (CanTransition (RowState attachment) (state_string Waiting))
      then skip
      else _ ← transition (ID attachment) Waiting; skip
    else if consented && (String.eqb (RowState attachment) (state_string Requested) ||
                          String.eqb (RowState attachment) (state_string Waiting))
    then _ ← attachAcceptedAndPost attachment; skip
    else previewWithMatch attachment repo (Matcher.Accepted matched) commits.

(** ** Detaching *)
Definition not_found_is_fine {A} (m : M World GitHub.GhError A) : M World AttachError unit :=
  r ← attempt m;
  match r with
  | Ok _ => skip
  | Err e => if GitHub.IsNotFound e then skip else throw EGitHub
  end.

Definition detachedSummary : string := "Prompts are no longer attached to this pull request.".

Definition detachAttachment (attachment : Row) : M World AttachError Row :=
  repo ← resolveAttachmentRepository attachment;
  if negb gh_configured then throw EGitHubUnavailable
  else
    _ ← match CommentID attachment with
        | None => skip
        | Some c => not_found_is_fine (GitHub.DeleteIssueComment AppID ApiURL (installationID repo)
            (RepoOwner attachment) (RepoName attachment) c)
        end;
    _ ← match CheckRunID attachment with
        | None => skip
        | Some run => not_found_is_fine (GitHub.UpdateCheckRun AppID ApiURL (installationID repo)
            (RepoOwner attachment) (RepoName attachment) run
            (GitHub.mkCheckRequest "" "" GitHub.CheckConclusionNeutral attachmentCheckTitle
              detachedSummary "" []))
        end;
    _ ← storeAttachmentArtifacts (ID attachment) (HeadSha attachment) None None (StoredDigest attachment);
    transition (ID attachment) Detached.

(** ** The entry points *)

(** The sender's account, if anyone signed in with that GitHub id. *)
Definition resolveGitHubActor (githubID : Z) : M World AttachError (option Z) :=
  r ← attempt (sql_user_by_identity "github" (itoa githubID));
  match r with
  | Ok u => mret (Some (UserID u))
  | Err NoRows => mret None
  | Err e => throw (EQuery e)
  end.

Definition userByGitHubID (githubID : Z) : M World AttachError Z :=
  u ← resolveGitHubActor githubID; from ENoAccount u.

Definition ensureAttachment (group author : Z) (pull : attachmentPull) (requester : option Z) :
    M World AttachError Row :=
  r ← attempt (sql_get_for_pull (repoOwner pull) (repoName pull) (wrap32 (number pull)));
  match r with
  | Ok existing => mret existing
  | Err NoRows => query (sql_create (mkRow 0 (Some group) (repoOwner pull) (repoName pull)
      (githubRepoID pull) (wrap32 (number pull)) (headSHA pull) (baseRemote pull) (headRemote pull)
      author requester "requested" None None None None None None None "" 0 0))
  | Err e => throw (EQuery e)
  end.

Definition ensureRequestRecorded (attachment : Row) (requester : Z) : M World AttachError unit :=
  if bool_decide (RequesterGithubID attachment = Some requester) then skip
  else _ ← query (sql_set_requester (ID attachment) requester); skip.

Definition applyPromptCommand (command : string) (owner name : string) (n senderID : Z)
    (association : string) : M World AttachError unit :=
  found ← attempt (sql_get_link_by_repo owner name);
  match found with
  | Err _ => skip
  | Ok link =>
    repo ← resolveAttachmentRepositoryForLink link;
    pull ← resolveAttachmentPull repo owner name n;
    sender ← resolveGitHubActor senderID;
    let action := Matcher.Authorize (Matcher.mkActor (is_some_b sender) senderID (authorID pull)
      association) command in
    match action with
    | Matcher.ActionIgnore => skip
    | _ =>
      author ← userByGitHubID (authorID pull);
      let asks := match action with Matcher.ActionRequest => true | _ => false end in
      attachment ← ensureAttachment (LinkGroup link) author pull (if asks then Some senderID else None);
      if negb (AuthorID attachment =? author) then throw EAuthorMismatch
      else if asks then ensureRequestRecorded attachment senderID
      else if String.eqb command (Matcher.command_string Matcher.CommandDetach) then
        if negb (CanTransition (RowState attachment) (state_string Detached)) then skip
        else _ ← detachAttachment attachment; skip
      else if String.eqb command (Matcher.command_string Matcher.CommandAttach)
      then authorAttachOrPreview attachment repo (headSHA pull) false
      else skip
    end
  end.

(** One attachment of a batch: an unlinked one is passed over, the rest is done
    under its lock on a fresh read. *)
Definition under_lock (attachment : Row) (work : attachmentRepository -> Row -> M World AttachError unit) :
    M World AttachError (option AttachError) :=
  repo ← attempt (resolveAttachmentRepository attachment);
  match repo with
  | Err _ => mret None
  | Ok repo =>
    r ← attempt (withAttachmentLock (ID attachment)
      (fresh ← query (GetPullRequestAttachment (ID attachment)); work repo fresh));
    mret (match r with Ok _ => None | Err e => Some e end)
  end.

Fixpoint refresh_each (attachments : list Row) : M World AttachError (list AttachError) :=
  match attachments with
  | [] => mret []
  | a :: rest =>
    failed ← (if negb (String.eqb (RowState a) (state_string Attached)) then mret None
      else under_lock a (fun repo fresh =>
        if negb (String.eqb (RowState fresh) (state_string Attached)) then skip
        else refreshAttachedAttachment fresh repo (HeadSha fresh) true));
    failures ← refresh_each rest;
    mret (match failed with Some e => e :: failures | None => failures end)
  end.

Definition refreshKnownAttachments (attachments : list Row) : M World AttachError unit :=
  failures ← refresh_each attachments; join_errors failures.

(** Each affected attachment once, in the order it is first seen. *)
Fixpoint affected_attachments (ids : list string) (seen : list Row) (failures : list AttachError) :
    M World AttachError (list Row * list AttachError) :=
  match ids with
  | [] => mret (seen, failures)
  | id :: rest =>
    r ← attempt (sql_attachments_binding id);
    match r with
    | Err e => affected_attachments rest seen (failures ++ [EQuery e])
    | Ok found => affected_attachments rest
        (foldl (fun seen r => if existsb (fun s => ID s =? ID r) seen then seen else seen ++ [r]) seen found)
        failures
    end
  end.

Definition refreshAttachmentsForTranscripts (ids : list string) : M World AttachError unit :=
  '(found, failures) ← affected_attachments ids [] [];
  r ← attempt (refreshKnownAttachments found);
  join_errors (failures ++ match r with Ok _ => [] | Err e => [e] end).

Definition refreshAttachmentsForTranscriptVisibility (id : string) : M World AttachError unit :=
  refreshAttachmentsForTranscripts [id].

Fixpoint complete_each (attachments : list Row) : M World AttachError (list AttachError) :=
  match attachments with
  | [] => mret []
  | a :: rest =>
    failed ← under_lock a (fun repo fresh =>
      if String.eqb (RowState fresh) (state_string Attached)
      then refreshAttachedAttachment fresh repo (HeadSha fresh) false
      else authorAttachOrPreview fresh repo (HeadSha fresh) true);
    failures ← complete_each rest;
    mret (match failed with Some e => e :: failures | None => failures end)
  end.

Definition completeAttachmentsForPublishedTranscript (owner : Z) (name : string) :
    M World AttachError unit :=
  if String.eqb name "" then skip
  else
    candidates ← query (sql_author_attachments owner name [state_string Waiting; state_string Attached]);
    failures ← complete_each candidates;
    join_errors failures.

Definition isCollectiveMember (user group : Z) : M World AttachError bool :=
  r ← attempt (sql_group_member group user);
  mret (match r with Ok m => negb (String.eqb (MemRole m) "pending") | Err _ => false end).

(** The outcome says whether the pull request was taken on. *)
Definition autoAttachOpenedPullRequest (link : CollectiveRepository) (pull : attachmentPull) :
    M World AttachError (bool * option AttachError) :=
  actor ← attempt (resolveGitHubActor (authorID pull));
  match actor with
  | Err e => mret (false, Some e)
  | Ok None => mret (false, None)
  | Ok (Some authorUser) =>
    author ← attempt (sql_get_user authorUser);
    match author with
    | Err e => mret (false, Some (EQuery e))
    | Ok u =>
      if negb (AutoAttachPullRequests u) then mret (false, None)
      else
        belongs ← isCollectiveMember authorUser (LinkGroup link);
        if negb belongs then mret (false, None)
        else
          r ← attempt (
            repo ← resolveAttachmentRepositoryForLink link;
            attachment ← ensureAttachment (LinkGroup link) authorUser pull None;
            if negb (AuthorID attachment =? authorUser) then throw EAuthorMismatch
            else withAttachmentLock (ID attachment) (
              fresh ← query (GetPullRequestAttachment (ID attachment));
              if String.eqb (RowState fresh) (state_string Preview) ||
                 String.eqb (RowState fresh) (state_string Detached) then skip
              else authorAttachOrPreview fresh repo (headSHA pull) true));
          mret (true, match r with Ok _ => None | Err e => Some e end)
    end
  end.

Definition syncAttachmentForPullRequest (pull : attachmentPull) : M World AttachError unit :=
  if negb (String.eqb (pullState pull) "") && negb (String.eqb (pullState pull) "open") then skip
  else
    r ← attempt (sql_get_for_pull (repoOwner pull) (repoName pull) (wrap32 (number pull)));
    match r with
    | Err _ => skip
    | Ok attachment =>
      if negb (String.eqb (RowState attachment) (state_string Attached)) then skip
      else
        repo ← resolveAttachmentRepository attachment;
        refreshAttachedAttachment attachment repo (headSHA pull) false
    end.

Definition refreshAttachmentForCommand (owner name : string) (n senderID : Z) : M World AttachError unit :=
  r ← attempt (sql_get_for_pull owner name (wrap32 n));
  match r with
  | Err _ => skip
  | Ok attachment =>
    if negb (String.eqb (RowState attachment) (state_string Attached)) then skip
    else
      sender ← resolveGitHubActor senderID;
      if negb (bool_decide (sender = Some (AuthorID attachment))) then skip
      else
        repo ← resolveAttachmentRepository attachment;
        pull ← resolveAttachmentPull repo owner name n;
        withAttachmentLock (ID attachment) (
          fresh ← query (GetPullRequestAttachment (ID attachment));
          if negb (String.eqb (RowState fresh) (state_string Attached)) then skip
          else refreshAttachedAttachment fresh repo (headSHA pull) true)
  end.

End lifecycle.
End Attachment.
