(* ===== verification/PullRoutes.v ===== *)
(** * The pull request page and its actions

    What a reader may see of a transcript ([handler/transcripts.go],
    [transcriptViewAccess]) and of a person ([public_owner.go]), whether GitHub
    admits a reader to a private repository
    ([pull_request_repository_access.go]), the titles GitHub is asked for
    ([pull_request_details.go]), the response body ([attachment_wire.go]) and the
    routes ([pull_requests.go]); and, at the end, every way into the lifecycle. *)
From S2P Require Import Prelude GoText PromptAttach Digest GitHub Access AttachStore Attachment.

Open Scope string_scope.
Open Scope list_scope.
Open Scope Z_scope.

Module PullRoutes.
Import PromptAttach AttachStore Attachment.

(** ** What the response says *)
Inductive PublicOwner : Type :=
| Anonymous
| Profile (id username : string) (display avatar : option string).

#[export] Instance public_owner_eq_dec : EqDecision PublicOwner.
Proof. solve_decision. Defined.

(** [schema.VillagePullRequestAttachment] *)
Record WireAttachment : Type := mkWire {
  WireID : string;
  WireOwner : string;
  WireName : string;
  WireNumber : Z;
  WireHeadSHA : string;
  WirePrivate : bool;
  WireState : string;
  WireAuthor : PublicOwner;
  WireRequestedBy : option PublicOwner;
  WireTitle : option string;
  WireHeadRef : option string;
  WireCommentID : option Z;
  WireCheckRunID : option Z;
  WireConfirmedAt : option Z;
  WireDetachedAt : option Z;
  WireCreatedAt : Z;
  WireUpdatedAt : Z
}.

Record WireTranscript : Type := mkWireTranscript {
  WireTranscriptID : string;
  WirePosition : Z;
  WirePreviousVisibility : string;
  WireTranscriptTitle : option string;
  WireSessionStart : option Z
}.

Record AttachmentResponse : Type := mkAttachmentResponse {
  RespAttachment : WireAttachment;
  RespDigest : option Digest.PromptDigest;
  RespTranscripts : list WireTranscript;
  ViewerIsAuthor : bool
}.

Record WireRequest : Type := mkWireRequest {
  ReqOwner : string;
  ReqName : string;
  ReqNumber : Z;
  ReqState : string;
  ReqRemote : string;
  ReqHeadRemote : string;
  ReqRequestedAt : Z
}.

(** ** The statements *)
Section statements.
Context `{Env}.

(** [ListPullRequestAttachmentTranscriptSummaries]: the bindings with their
    transcripts, in attachment order. *)
Definition sql_summaries (id : Z) : M World QueryError (list (Binding * TranscriptRow)) :=
  read QueryFailed "ListPullRequestAttachmentTranscriptSummaries" (fun d =>
    Ok (omap (fun b => (fun t => (b, t)) <$> transcripts d !! BTranscript b) (bindings_of id d))).

(** Did this person take an act of their own in a collective the viewer owns? *)
Definition acted_in (d : Db) (person : Z) (group : Z) : bool :=
  existsb (fun m => (MemGroup m =? group) && (MemUser m =? person) &&
    (existsb (String.eqb (MemOrigin m)) ["creator"; "self_join"; "invitation"] ||
     String.eqb (MemRole m) "pending")) (members d) ||
  existsb (fun s => (ShGroup s =? group) && existsb (String.eqb (ShStatus s)) ["pending"; "approved"] &&
    match transcripts d !! ShTranscript s with Some t => OwnerID t =? person | None => false end) (shares d).

Definition profile_visible (d : Db) (viewer : option Z) (u : User) : bool :=
  IsDiscoverable u ||
  match viewer with
  | None => false
  | Some v => (UserID u =? v) ||
      existsb (fun m => (MemUser m =? v) && String.eqb (MemRole m) "owner" && acted_in d (UserID u) (MemGroup m))
        (members d)
  end.

(** [ListPublicOwnersForViewer] *)
Definition sql_public_owners (viewer : option Z) (people : list Z) : M World QueryError (list (User * bool)) :=
  read QueryFailed "ListPublicOwnersForViewer" (fun d =>
    Ok ((fun u => (u, profile_visible d viewer u)) <$> omap (fun id => users d !! id) people)).

(** [ListAuthorWaitingPromptRequests]: ORDER BY requested_at ASC NULLS LAST,
    updated_at ASC, id ASC *)
Definition requested_before (a b : Row) : bool :=
  match RequestedAt a, RequestedAt b with
  | Some x, Some y => (x <? y) || ((x =? y) && updated_before a b)
  | Some _, None => true
  | None, Some _ => false
  | None, None => updated_before a b
  end.

Definition sql_author_waiting (author : Z) : M World QueryError (list Row) :=
  read QueryFailed "ListAuthorWaitingPromptRequests" (fun d => Ok (sort_stable requested_before
    (List.filter (fun r => (AuthorID r =? author) && String.eqb (RowState r) "waiting")
      (snd <$> map_to_list (attachments d))))).
End statements.

Section routes.
Context `{Env, UnicodeTables, GitHub.Wire, Deps}.

(** ** Who may open a transcript *)
Fixpoint any_group_reads (user : Z) (shared : list Z) : M World QueryError bool :=
  match shared with
  | [] => mret false
  | group :: rest =>
    member ← attempt (sql_group_member group user);
    match member with
    | Ok m => if canReadData (MemRole m) "contributors" then mret true else any_group_reads user rest
    | Err NoRows => any_group_reads user rest
    | Err e => throw e
    end
  end.

(** A transcript is what a binding's summary knows of it: id, owner, visibility. *)
Definition transcriptViewAccess (user : option Z) (t : TranscriptRow) : M World QueryError bool :=
  if String.eqb (Visibility t) "public" then mret true
  else match user with
  | None => mret false
  | Some u =>
    if OwnerID t =? u then mret true
    else
      reads ← (if String.eqb (Visibility t) "shared"
        then shared ← sql_approved_groups (TrID t); any_group_reads u shared
        else mret false);
      if reads : bool then mret true
      else owners ← sql_group_owners (TrID t); mret (existsb (Z.eqb u) owners)
  end.

(** A failed read is a refusal. *)
Definition canViewTranscript {E} (user : option Z) (t : TranscriptRow) : M World E bool :=
  r ← attempt (transcriptViewAccess user t);
  mret (match r with Ok b => b | Err _ => false end).

(** ** People *)
Definition publicProfile (u : User) : PublicOwner :=
  if String.eqb (trim_space (GithubUsername u)) "" then Anonymous
  else Profile (uuid_text (UserID u)) (GithubUsername u) (DisplayName u) (AvatarURL u).

Definition publicOwnerFromRow (row : User * bool) : PublicOwner :=
  if row.2 then publicProfile row.1 else Anonymous.

Definition publicOwners := gmap Z PublicOwner.
Definition owner_of (p : publicOwners) (id : option Z) : PublicOwner :=
  match id with
  | Some id => match (p : gmap Z PublicOwner) !! id with Some o => o | None => Anonymous end
  | None => Anonymous
  end.

Fixpoint unique_people (seen : gset Z) (ids : list (option Z)) : list Z :=
  match ids with
  | [] => []
  | None :: rest => unique_people seen rest
  | Some id :: rest =>
    if bool_decide (id ∈ seen) then unique_people seen rest
    else id :: unique_people ({[id]} ∪ seen) rest
  end.

Definition resolvePublicOwners (viewer : option Z) (ids : list (option Z)) : M World AttachError publicOwners :=
  match unique_people ∅ ids with
  | [] => mret ∅
  | unique =>
    rows ← query (sql_public_owners viewer unique);
    mret (foldl (fun p row => <[UserID row.1 := publicOwnerFromRow row]> p) (∅ : gmap Z PublicOwner) rows)
  end.

(** The author and the requester as the viewer may see them. *)
Definition resolveAttachmentPeople (attachment : Row) (viewer : option Z) :
    M World AttachError (PublicOwner * option PublicOwner) :=
  requester ← match RequesterGithubID attachment with
    | None => mret None
    | Some github =>
      account ← attempt (sql_user_by_identity "github" (itoa github));
      match account with
      | Ok u => mret (Some (UserID u))
      | Err NoRows => mret None
      | Err e => throw (EQuery e)
      end
    end;
  owners ← resolvePublicOwners viewer [Some (AuthorID attachment); requester];
  mret (owner_of owners (Some (AuthorID attachment)),
        match RequesterGithubID attachment with Some _ => Some (owner_of owners requester) | None => None end).

(** ** The process's memory *)
Definition time_now : M World AttachError Z := fun w => (Ok (clock (log w)), w).

(** One critical section over the memory as the other requests left it. *)
Definition locked {A} (table : string) (f : Access.Memory -> A * Access.Memory) : M World AttachError A := fun w =>
  let '(a, m) := f (meanwhile (log w) (mem w)) in
  (Ok a, mkWorld (db w) (toks w) m (log w ++ [EvRead table])).

Definition claim_detail (key : string) (now : Z) : M World AttachError Access.Claim :=
  locked "pullDetails" (fun m => let '(answer, c) := Access.claim (Access.pullDetails m) key now in
    (answer, Access.set_pullDetails c m)).
Definition settle_detail (key : string) (e : Access.pullRequestDetailEntry) (now ttl : Z) : M World AttachError unit :=
  locked "pullDetails" (fun m =>
    (tt, Access.set_pullDetails (Access.settle (Access.pullDetails m) key e now ttl) m)).
Definition lookup_refusal (key : string) (now : Z) : M World AttachError (option bool) :=
  locked "repoAccess" (fun m => (Access.access_lookup (Access.repoAccess m) key now, m)).
Definition store_refusal (key : string) (admits : bool) (now : Z) : M World AttachError unit :=
  locked "repoAccess" (fun m =>
    (tt, Access.set_repoAccess (Access.access_store (Access.repoAccess m) key admits now) m)).
Definition spend_question (viewer : string) (now : Z) : M World AttachError bool :=
  locked "repoAccessLimiter" (fun m => let '(ok, l) := Access.allow (Access.repoAccessLimiter m) viewer now in
    (ok, Access.set_limiter l m)).
Definition over_budget (viewer : string) (now : Z) : M World AttachError bool :=
  locked "repoAccessLimiter" (fun m => (Access.overBudget (Access.repoAccessLimiter m) viewer now, m)).

(** ** The pull request's title and head branch

    A read this request starts is made here in full: a caller that stops waiting
    for it ([patient]) is told nothing, and the outcome is remembered all the
    same. *)
Definition await_read (key : string) : M World AttachError Access.pullRequestDetail := fun w =>
  (Ok (match awaited (log w) key with Some e => Access.detail e | None => Access.noDetail end), w).
Definition if_patient (e : Access.pullRequestDetailEntry) : M World AttachError Access.pullRequestDetail :=
  fun w => (Ok (if patient (log w) then Access.detail e else Access.noDetail), w).

Definition pullRequestKeyOf (owner name : string) (number : Z) : string :=
  to_lower owner +:+ "/" +:+ to_lower name +:+ "#" +:+ itoa number.

Definition pullRequestDetail (installation : Z) (owner name : string) (number : Z) :
    M World AttachError Access.pullRequestDetail :=
  if negb gh_configured then mret Access.noDetail
  else
    let key := pullRequestKeyOf owner name number in
    now ← time_now;
    claimed ← claim_detail key now;
    match claimed with
    | Access.Remembered e => mret (Access.detail e)
    | Access.InFlight => await_read key
    | Access.Started =>
      pr ← attempt (GitHub.GetPullRequest AppID ApiURL installation owner name number);
      now ← time_now;
      let '(entry, ttl) := match pr with
        | Ok p => (Access.mkDetailEntry (GitHub.PullTitle p) (GitHub.PullHeadRef p) 0, Access.pullRequestDetailTTL)
        | Err _ => (Access.emptyEntry, Access.pullRequestDetailFailureTTL)
        end in
      _ ← settle_detail key entry now ttl;
      if_patient entry
    end.

(** ** Readers GitHub admits *)
Definition askGitHubAboutRepository (installation : Z) (owner name accountID : string) :
    M World AttachError bool :=
  login ← attempt (GitHub.GetUserLogin AppID ApiURL installation accountID);
  match login with
  | Err _ => mret false
  | Ok login =>
    permission ← attempt (GitHub.GetCollaboratorPermission AppID ApiURL installation owner name login);
    mret (match permission with
      | Ok p => existsb (String.eqb p) ["admin"; "write"; "read"]
      | Err _ => false
      end)
  end.

Definition access_key (accountID owner name : string) : string :=
  accountID +:+ of_bytes [0] +:+ to_lower owner +:+ "/" +:+ to_lower name.

(** [viewerKey] of a viewer that is there *)
Definition viewerKey (viewer : Z) : string := uuid_text viewer.

(** The two answers are whether the reader is admitted and whether they asked
    too often. *)
Definition githubAdmitsReader (installation : Z) (owner name accountID : string) (viewer : Z) :
    M World AttachError (bool * bool) :=
  let key := access_key accountID owner name in
  now ← time_now;
  cached ← lookup_refusal key now;
  match cached with
  | Some answer => mret (answer, false)
  | None =>
    allowed ← spend_question (viewerKey viewer) now;
    if negb allowed then mret (false, true)
    else
      admits ← askGitHubAboutRepository installation owner name accountID;
      _ ← (if admits : bool then skip else store_refusal key admits now);
      mret (admits, false)
  end.

Definition repositoryAdmitsViewer (viewer : Z) (installation : Z) (owner name : string) :
    M World AttachError (bool * bool) :=
  if negb gh_configured then mret (false, false)
  else
    reader ← attempt (sql_get_user viewer);
    match reader with
    | Err _ => mret (false, false)
    | Ok u =>
      if negb (String.eqb (Provider u) "github") || String.eqb (ProviderUserID u) "" then mret (false, false)
      else githubAdmitsReader installation owner name (ProviderUserID u) viewer
    end.

(** ** The response *)
Definition mapVillageAttachment (a : Row) (isPrivate : bool) (people : PublicOwner * option PublicOwner)
    (detail : Access.pullRequestDetail) : WireAttachment :=
  mkWire (uuid_text (ID a)) (RepoOwner a) (RepoName a) (Number a) (HeadSha a) isPrivate (RowState a)
    people.1 people.2 (Access.title detail) (Access.headRef detail) (CommentID a) (CheckRunID a)
    (AttachedAt a) (DetachedAt a) (CreatedAt a) (UpdatedAt a).

Definition mapVillageAttachedTranscript (b : Binding) (t : TranscriptRow) : option WireTranscript :=
  if existsb (String.eqb (BPreviousVisibility b)) ["private"; "shared"; "public"]
  then Some (mkWireTranscript (BTranscript b) (BPosition b) (BPreviousVisibility b) (TrTitle t) (TrStart t))
  else None.

(** What a viewer who may not open the transcript gets of it. *)
Definition withheld (t : WireTranscript) : WireTranscript :=
  mkWireTranscript (WireTranscriptID t) (WirePosition t) (WirePreviousVisibility t) None None.

(** The loop over the summaries: the entries, and which transcripts the viewer
    can open. *)
Fixpoint wire_transcripts (viewer : option Z) (summaries : list (Binding * TranscriptRow))
    (readable : gset string) : M World AttachError (list WireTranscript * gset string) :=
  match summaries with
  | [] => mret ([], readable)
  | (b, t) :: rest =>
    wire ← from EResponse (mapVillageAttachedTranscript b t);
    opens ← canViewTranscript viewer t;
    others ← wire_transcripts viewer rest
      (if opens : bool then {[WireTranscriptID wire]} ∪ readable else readable);
    mret ((if opens : bool then wire else withheld wire) :: others.1, others.2)
  end.

(** Which transcripts the digest may show: the readable ones, and in the
    author's own preview also their live ones. The answers are memoised, so each
    transcript is looked up once, at the first item that names it. *)
Fixpoint preview_readable (own_preview : bool) (viewer : option Z) (readable : gset string)
    (checked : gmap string bool) (items : list Digest.Item) : M World AttachError (gmap string bool) :=
  match items with
  | [] => mret checked
  | i :: rest =>
    let id := Digest.ItemTranscript i in
    if bool_decide (id ∈ readable) || negb own_preview || is_some_b (checked !! id)
    then preview_readable own_preview viewer readable checked rest
    else
      own ← match parse_uuid id with
        | None => mret false
        | Some parsed =>
          t ← attempt (sql_get_transcript parsed);
          mret (match t with Ok t => bool_decide (viewer = Some (OwnerID t)) | Err _ => false end)
        end;
      preview_readable own_preview viewer readable (<[id := own]> checked) rest
  end.

Definition restricted_digest (attachment : Row) (viewer : option Z) (readable : gset string) (text : string) :
    M World AttachError Digest.PromptDigest :=
  parsed ← from EResponse (decode_digest text);
  let own_preview := bool_decide (viewer = Some (AuthorID attachment)) &&
    String.eqb (RowState attachment) (state_string Preview) in
  checked ← preview_readable own_preview viewer readable ∅ (Digest.Items parsed);
  match Digest.Restrict validate parsed
    (fun id => bool_decide (id ∈ readable) || default false (checked !! id)) with
  | Ok d => mret d
  | Err _ => throw EResponse
  end.

Definition attachmentResponseOf (attachment : Row) (repo : attachmentRepository) (viewer : option Z) :
    M World AttachError AttachmentResponse :=
  if negb (is_ok (Parse (RowState attachment))) then throw EResponse
  else
    people ← resolveAttachmentPeople attachment viewer;
    detail ← pullRequestDetail (installationID repo) (RepoOwner attachment) (RepoName attachment)
      (Number attachment);
    summaries ← query (sql_summaries (ID attachment));
    shown ← wire_transcripts viewer summaries ∅;
    let viewerIsAuthor := bool_decide (viewer = Some (AuthorID attachment)) in
    let includeDigest := viewerIsAuthor || String.eqb (RowState attachment) (state_string Attached) in
    digest ← (if includeDigest && negb (String.eqb (StoredDigest attachment) "")
      then d ← restricted_digest attachment viewer shown.2 (StoredDigest attachment); mret (Some d)
      else mret None);
    mret (mkAttachmentResponse (mapVillageAttachment attachment (isPrivate repo) people detail)
      digest shown.1 viewerIsAuthor).

(** ** The routes ([pull_requests.go])

    An answer is the HTTP status with the body, if it has one. *)
Definition pullRequestTarget (owner name number : string) : option (string * string * Z) :=
  let owner := trim_space owner in
  let name := trim_space name in
  let raw := trim_space number in
  if String.eqb owner "" || String.eqb name "" || String.eqb raw "" then None
  else match atoi raw with
    | Some n => if n <=? 0 then None else Some (owner, name, n)
    | None => None
    end.

Definition loadAttachmentForAction (owner name number : string) (user : Z) :
    M World AttachError (Row + Z) :=
  match pullRequestTarget owner name number with
  | None => mret (inr 400)
  | Some (o, n, num) =>
    r ← attempt (sql_get_for_pull (to_lower o) (to_lower n) (wrap32 num));
    match r with
    | Err NoRows => mret (inr 404)
    | Err QueryFailed => mret (inr 500)
    | Ok attachment => if negb (AuthorID attachment =? user) then mret (inr 403) else mret (inl attachment)
    end
  end.

(** [writeAttachmentActionError]; [errors.Is] looks through a wrapped error. *)
Fixpoint actionStatus (e : AttachError) : Z :=
  match e with
  | ENotAllowed | ENothingAccepted | EUnbound => 409
  | ETransition (ETransitionNotAllowed _ _) | ETransition (EStaleState _ _) => 409
  | EGitHub | EGitHubUnavailable => 502
  | EKeptBindings e => actionStatus e
  | _ => 500
  end.

Definition confirmLocked (id : Z) : M World AttachError Row :=
  withAttachmentLock id (
    fresh ← query (GetPullRequestAttachment id);
    if negb (String.eqb (RowState fresh) (state_string Preview)) then throw ENotAllowed
    else attachAcceptedAndPost fresh).

Definition detachLocked (id : Z) : M World AttachError Row :=
  withAttachmentLock id (
    fresh ← query (GetPullRequestAttachment id);
    if negb (CanTransition (RowState fresh) (state_string Detached)) then throw ENotAllowed
    else detachAttachment fresh).

Definition action_route (act : Z -> M World AttachError Row) (owner name number : string)
    (user : option Z) : M World AttachError (Z * option AttachmentResponse) :=
  match user with
  | None => mret (401, None)
  | Some u =>
    loaded ← loadAttachmentForAction owner name number u;
    match loaded with
    | inr status => mret (status, None)
    | inl attachment =>
      r ← attempt (act (ID attachment));
      match r with
      | Err e => mret (actionStatus e, None)
      | Ok updated =>
        body ← attempt (repo ← resolveAttachmentRepository updated; attachmentResponseOf updated repo user);
        mret (match body with Ok b => (200, Some b) | Err _ => (500, None) end)
      end
    end
  end.

Definition ConfirmPullRequestAttachment := action_route confirmLocked.
Definition DetachPullRequestAttachment := action_route detachLocked.

(** May this viewer open the page of a private repository's attachment? The
    answer is the status of a refusal. *)
Definition private_page (attachment : Row) (repo : attachmentRepository) (viewer : option Z) :
    M World AttachError (option Z) :=
  match viewer with
  | None => mret (Some 404)
  | Some v =>
    member ← match GroupID attachment with Some g => isCollectiveMember v g | None => mret false end;
    if member : bool then mret None
    else
      now ← time_now;
      over ← over_budget (viewerKey v) now;
      if over : bool then mret (Some 429)
      else if negb (String.eqb (RowState attachment) (state_string Attached)) then mret (Some 404)
      else
        answer ← repositoryAdmitsViewer v (installationID repo) (RepoOwner attachment) (RepoName attachment);
        mret (if answer.2 : bool then Some 429 else if answer.1 : bool then None else Some 404)
  end.

(** [GET /pulls/{owner}/{name}/{number}] *)
Definition PullRequestPage (owner name number : string) (viewer : option Z) :
    M World AttachError (Z * option AttachmentResponse) :=
  match pullRequestTarget owner name number with
  | None => mret (400, None)
  | Some (o, n, num) =>
    found ← attempt (sql_get_for_pull (to_lower o) (to_lower n) (wrap32 num));
    match found with
    | Err NoRows => mret (404, None)
    | Err QueryFailed => mret (500, None)
    | Ok attachment =>
      repo ← attempt (resolveAttachmentRepository attachment);
      match repo with
      | Err _ => mret (404, None)
      | Ok repo =>
        refused ← (if isPrivate repo && negb (bool_decide (viewer = Some (AuthorID attachment)))
          then private_page attachment repo viewer else mret None);
        match refused with
        | Some status => mret (status, None)
        | None =>
          body ← attempt (attachmentResponseOf attachment repo viewer);
          mret (match body with Ok b => (200, Some b) | Err _ => (500, None) end)
        end
      end
    end
  end.

(** [GET /users/me/prompt-requests] *)
Definition wire_request (r : Row) : WireRequest :=
  mkWireRequest (RepoOwner r) (RepoName r) (Number r) (RowState r) (BaseRemote r) (HeadRemote r)
    (default (UpdatedAt r) (RequestedAt r)).

Definition ListMyPromptRequests (user : option Z) : M World AttachError (Z * list WireRequest) :=
  match user with
  | None => mret (401, [])
  | Some u =>
    found ← attempt (sql_author_waiting u);
    mret (match found with Ok rows => (200, wire_request <$> rows) | Err _ => (500, []) end)
  end.

(** ** Every way into the lifecycle *)
Inductive Operation : Type :=
| OpCommand (command owner name : string) (n sender : Z) (association : string)
| OpRefreshCommand (owner name : string) (n sender : Z)
| OpOpened (link : CollectiveRepository) (pull : attachmentPull)
| OpSync (pull : attachmentPull)
| OpPublished (owner : Z) (name : string)
| OpAudienceChanged (ids : list string)
| OpConfirm (owner name number : string) (user : option Z)
| OpDetach (owner name number : string) (user : option Z)
| OpPage (owner name number : string) (viewer : option Z).

Definition perform (op : Operation) : M World AttachError unit :=
  match op with
  | OpCommand command owner name n sender association =>
    applyPromptCommand command owner name n sender association
  | OpRefreshCommand owner name n sender => refreshAttachmentForCommand owner name n sender
  | OpOpened link pull => _ ← autoAttachOpenedPullRequest link pull; skip
  | OpSync pull => syncAttachmentForPullRequest pull
  | OpPublished owner name => completeAttachmentsForPublishedTranscript owner name
  | OpAudienceChanged ids => refreshAttachmentsForTranscripts ids
  | OpConfirm owner name number user => _ ← ConfirmPullRequestAttachment owner name number user; skip
  | OpDetach owner name number user => _ ← DetachPullRequestAttachment owner name number user; skip
  | OpPage owner name number viewer => _ ← PullRequestPage owner name number viewer; skip
  end.

End routes.
End PullRoutes.
