(* ===== verification/AttachmentLaws.v ===== *)
(** * What the attachment lifecycle promises

    Theorems about [Attachment], for every behaviour of the other writers, of
    the database connection and of GitHub ([AttachStore.Env]): what a run may
    append to the log ([emits]) and what it may do to the tables ([guards]). *)
From S2P Require Import Prelude GoText RepoName PromptAttach Matcher Digest Render GitHub Access AttachStore Attachment PullRoutes.

Open Scope string_scope.
Open Scope list_scope.
Open Scope Z_scope.

Module AttachmentLaws.
Import PromptAttach AttachStore Attachment PullRoutes.

Definition audience (d : Db) :=
  (transcripts d, users d, groups d, links d, shares d, members d).

(** ** What a run does

    What an event of the log says was done to the tables. *)
Definition states (d : Db) : gmap Z string := RowState <$> attachments d.
Definition changed (id : Z) (Q : Row -> Row -> Prop) (d d' : Db) : Prop :=
  bindings d' = bindings d /\ exists row row', attachments d !! id = Some row /\ ID row = id /\ ID row' = id /\ Q row row' /\
    attachments d' = <[id := row']> (attachments d).
Definition effect (e : Event) (d d' : Db) : Prop :=
  audience d' = audience d /\
  match e with
  | EvRead _ | EvBroken _ | EvHttp _ _ | EvLocked _ | EvUnlocked _ => d' = d
  | EvCreated id author => bindings d' = bindings d /\ attachments d !! id = None /\ exists row,
      ID row = id /\ AuthorID row = author /\ RowState row = state_string Requested /\ attachments d' = <[id := row]> (attachments d)
  | EvReobserved id => changed id (fun row row' => RowState row' = RowState row /\ AuthorID row' = AuthorID row) d d'
  | EvBound id t n v => attachments d' = attachments d /\ bindings d' = <[(id, t) := mkBinding t n v]> (bindings d)
  | EvUnbound id t => attachments d' = attachments d /\ bindings d' = delete (id, t) (bindings d)
  | EvCleared id => attachments d' = attachments d /\ bindings d' = filter (fun p => p.1.1 <> id) (bindings d)
  | EvArtifacts id head comment check digest => changed id (fun row row' => RowState row' = RowState row /\
      HeadSha row' = head /\ CommentID row' = comment /\ CheckRunID row' = check /\ StoredDigest row' = digest) d d'
  | EvRequester id github => changed id (fun row row' => RowState row' = RowState row /\ RequesterGithubID row' = Some github) d d'
  | EvMoved id from to => changed id (fun row row' => RowState row = from /\ RowState row' = to) d d'
  end.
(** From one content of the tables to another, by the events of a run and, in
    between, by what the other writers do. *)
Inductive did `{Env} : list Event -> Db -> Db -> Prop :=
| did_nothing d : did [] d d
| did_others l evs d d' : did evs (interfere l d) d' -> did evs d d'
| did_event e evs d d1 d' : effect e d d1 -> did evs d1 d' -> did (e :: evs) d d'.

(** [emits P m]: every run of [m] appends to the log, and only events in [P],
    and the log tells all that the run did to the tables. *)
Definition emits `{Env} {E A} (P : Event -> Prop) (m : M World E A) : Prop :=
  forall w, exists evs, log (m w).2 = log w ++ evs /\ Forall P evs /\
    did evs (db w) (db (m w).2).

Section emits.
Context `{Env}.

Lemma did_app evs evs' d d1 d' : did evs d d1 -> did evs' d1 d' -> did (evs ++ evs') d d'.
Proof. induction 1; intros; [done|eapply did_others; eauto|eapply did_event; eauto]. Qed.
Lemma did_one e l d d' : effect e (interfere l d) d' -> did [e] d d'.
Proof. intros He. eapply did_others, did_event; [done|constructor]. Qed.
Lemma did_quietly e d : effect e d d -> did [e] d d.
Proof. intros He. eapply did_event; [done|constructor]. Qed.

(** Whatever the other writers keep of who can read what, the run keeps, and
    likewise of the bindings unless an event of the run says it changed them. *)
Definition no_binding (e : Event) : Prop :=
  match e with EvBound _ _ _ _ | EvUnbound _ _ | EvCleared _ => False | _ => True end.
Lemma effect_bindings e d d' : effect e d d' -> no_binding e -> bindings d' = bindings d.
Proof. intros [_ He]. destruct e; cbn in *; try done; try (by rewrite He); by destruct He as [? _]. Qed.
Lemma did_keeps (I : Db -> Prop) evs d d' : (forall l d, I d -> I (interfere l d)) ->
  (forall d1 d2, audience d1 = audience d2 -> (Forall no_binding evs -> bindings d1 = bindings d2) -> I d1 -> I d2) ->
  did evs d d' -> I d -> I d'.
Proof.
  intros HI Ha Hd. induction Hd as [d|l evs d d' _ IH|e evs d d1 d' He _ IH]; [done|by intros; apply IH; auto|].
  intros Hd. apply IH.
  - intros e1 e2 Haud Hb. apply Ha; [done|]. intros Hall. apply Hb. by apply Forall_cons in Hall as [_ ?].
  - eapply Ha; [symmetry; apply He| |exact Hd]. intros [Hn _]%Forall_cons. symmetry. by eapply effect_bindings.
Qed.

Lemma emits_nop {E A} P (m : M World E A) :
  (forall w, log (m w).2 = log w /\ db (m w).2 = db w) -> emits P m.
Proof.
  intros Hm w. destruct (Hm w) as [Hl Hd]. exists []. rewrite Hl, Hd, app_nil_r.
  split_and!; [done|constructor|constructor].
Qed.

Lemma emits_weaken {E A} (P Q : Event -> Prop) (m : M World E A) :
  (forall e, P e -> Q e) -> emits P m -> emits Q m.
Proof.
  intros HPQ Hm w. destruct (Hm w) as (evs&Hl&HP&Hg). exists evs. split_and!; [done| |done].
  by eapply Forall_impl.
Qed.

Lemma emits_ret {E A} P (a : A) : emits P (mret a : M World E A).
Proof. by apply emits_nop. Qed.

Lemma emits_throw {E A} P (e : E) : emits P (throw e : M World E A).
Proof. by apply emits_nop. Qed.

Lemma emits_bind {E A B} P (m : M World E A) (f : A -> M World E B) :
  emits P m -> (forall a, emits P (f a)) -> emits P (m ≫= f).
Proof.
  intros Hm Hf w. rewrite M_bind_unfold. destruct (Hm w) as (evs&Hl&HP&Hg).
  destruct (m w) as [[a|e] w1]; simpl in *; [|by exists evs].
  destruct (Hf a w1) as (evs'&Hl'&HP'&Hg'). exists (evs ++ evs'). split_and!.
  - by rewrite Hl', Hl, (assoc_L (++)).
  - by apply Forall_app.
  - by eapply did_app.
Qed.
(** What follows may rely on what is known of the value. *)
Lemma emits_bind_ok {E A B} P (Q : A -> Prop) (m : M World E A) (f : A -> M World E B) :
  emits P m -> (forall w a w', m w = (Ok a, w') -> Q a) -> (forall a, Q a -> emits P (f a)) -> emits P (m ≫= f).
Proof.
  intros Hm HQ Hf w. rewrite M_bind_unfold. destruct (Hm w) as (evs&Hl&HP&Hg).
  destruct (m w) as [[a|e] w1] eqn:Hw; simpl in *; [|by exists evs].
  destruct (Hf a (HQ _ _ _ Hw) w1) as (evs'&Hl'&HP'&Hg'). exists (evs ++ evs'). split_and!.
  - by rewrite Hl', Hl, (assoc_L (++)).
  - by apply Forall_app.
  - by eapply did_app.
Qed.

Lemma emits_attempt {E F A} P (m : M World E A) :
  emits P m -> emits P (attempt m : M World F (result E A)).
Proof.
  intros Hm w. destruct (Hm w) as (evs&Hl&HP). exists evs. unfold attempt. by destruct (m w).
Qed.

Lemma emits_failing {E A} P e (m : M World E A) : emits P m -> emits P (failing e m).
Proof.
  intros Hm. apply emits_bind; [by apply emits_attempt|]. intros []; [apply emits_ret|apply emits_throw].
Qed.

Lemma emits_query {A} P (m : M World QueryError A) : emits P m -> emits P (query m).
Proof.
  intros Hm. apply emits_bind; [by apply emits_attempt|]. intros []; [apply emits_ret|apply emits_throw].
Qed.

Lemma emits_from {A} P e (o : option A) : emits P (from e o).
Proof. destruct o; [apply emits_ret|apply emits_throw]. Qed.

Lemma emits_skip P : emits P skip.
Proof. apply emits_ret. Qed.
End emits.

Create HintDb emits.
#[export] Hint Resolve emits_ret emits_throw emits_bind emits_attempt emits_failing emits_query
  emits_from emits_skip : emits.

(** Walk through a computation: binds, branches and the steps the hint
    database knows. *)
Ltac emits_walk :=
  repeat first
    [ progress intros
    | solve [auto 3 with emits nocore]
    | match goal with
      | |- emits _ (mbind _ _) => apply emits_bind
      | |- emits _ (attempt _) => apply emits_attempt
      | |- emits _ (query _) => apply emits_query
      | |- emits _ (failing _ _) => apply emits_failing
      | |- emits _ (match ?x with _ => _ end) => destruct x
      | |- emits _ (let _ := _ in _) => cbv zeta
      end ].

Section laws.
Context `{Env, UnicodeTables, GitHub.Wire, Deps}.

(** An event that changes nothing anyone can see. *)
Definition is_read (e : Event) : Prop :=
  match e with EvRead _ | EvBroken _ => True | _ => False end.

Lemma emits_stmt {E A} P (lost : E) name (f : Db -> result E (A * Db * Event)) :
  (forall e, is_read e -> P e) ->
  (forall d a d' ev, f d = Ok (a, d', ev) -> P ev /\ effect ev d d') ->
  emits P (stmt lost name f).
Proof.
  intros Hread Hf w. unfold stmt. destruct (broken (log w)).
  { exists [EvBroken name]. split_and!; [done| |by eapply did_one]. repeat constructor. by apply Hread. }
  destruct (f _) as [[[a d'] ev]|e] eqn:Hok.
  - destruct (Hf _ _ _ _ Hok) as [HP He]. exists [ev]. split_and!; [done|by repeat constructor|by eapply did_one].
  - exists [EvRead name]. split_and!; [done| |by eapply did_one]. repeat constructor. by apply Hread.
Qed.

Lemma emits_read {E A} P (lost : E) name (f : Db -> result E A) :
  (forall e, is_read e -> P e) -> emits P (read lost name f).
Proof.
  intros Hread. apply emits_stmt; [done|]. intros d a d' ev. destruct (f d); [|done].
  intros [= <- <- <-]. split; [by apply Hread|done].
Qed.

(** ** Steps that only look *)

(** A request that asks GitHub for something without a body and without
    deleting: every read, and the minting of an installation token. *)
Definition looks (req : GitHub.Request) : Prop :=
  GitHub.Payload req = None /\ GitHub.Method req <> "DELETE".

(** A property of events that allows every step of no consequence. *)
Class Quiet (P : Event -> Prop) : Prop := {
  quiet_read : forall e, is_read e -> P e;
  quiet_look : forall req answer, looks req -> P (EvHttp req answer);
  quiet_lock : forall id, P (EvLocked id);
  quiet_unlock : forall id, P (EvUnlocked id)
}.

Section quiet.
Context (P : Event -> Prop) `{HQ : !Quiet P}.

Lemma emits_read_q {E A} (lost : E) name (f : Db -> result E A) : emits P (read lost name f).
Proof. apply emits_read, quiet_read. Qed.

Lemma emits_get_world : emits P (GitHub.get_world : M World _ _).
Proof. by apply emits_nop. Qed.

Lemma emits_put_token id t : emits P (GitHub.put_token id t : M World _ _).
Proof. by apply emits_nop. Qed.

Lemma emits_of_option {A} e (o : option A) : emits P (GitHub.of_option e o : M World _ _).
Proof. destruct o; [apply emits_ret|apply emits_throw]. Qed.

(** One request, allowed whatever the token in its header. *)
Lemma emits_send method url auth etag payload :
  (forall answer, P (EvHttp (GitHub.mkRequest method url auth etag payload) answer)) ->
  emits P (GitHub.send method url auth etag payload : M World _ _).
Proof.
  intros HP. unfold GitHub.send. destruct (GitHub.parse_url url); [|apply emits_throw].
  apply emits_bind; [|intros []; [apply emits_ret|apply emits_throw]].
  apply emits_attempt. intros w. simpl. eexists [_]. split_and!; [done|by repeat constructor|by apply did_quietly].
Qed.

Lemma emits_look method url auth etag :
  method <> "DELETE" -> emits P (GitHub.send method url auth etag None : M World _ _).
Proof. intros Hm. apply emits_send. intros answer. by apply quiet_look. Qed.

Hint Extern 3 (emits _ _) => apply emits_read_q : emits.
Hint Resolve emits_read_q emits_get_world emits_put_token emits_of_option : emits.

Lemma emits_installation_token app api id :
  emits P (GitHub.installationToken app api id : M World _ _).
Proof.
  assert (Hmint : emits P (GitHub.mint_token app api id : M World _ _)).
  { unfold GitHub.mint_token, GitHub.appJWT. apply emits_bind; [emits_walk|]. intros jwt.
    apply emits_bind; [by apply emits_look|]. intros resp. emits_walk. }
  unfold GitHub.installationToken. emits_walk.
Qed.

Lemma emits_json {Out} app api id op method path payload (decode : string -> option Out) :
  (forall url auth answer, P (EvHttp (GitHub.mkRequest method url auth "" payload) answer)) ->
  emits P (GitHub.doInstallationJSON app api id op method path payload decode : M World _ _).
Proof.
  intros HP. unfold GitHub.doInstallationJSON.
  apply emits_bind; [apply emits_installation_token|]. intros tok.
  apply emits_bind; [by apply emits_send|]. intros resp. emits_walk.
Qed.

Lemma emits_commits app api id path opts pr :
  emits P (GitHub.listCommits app api id path opts pr : M World _ _).
Proof.
  assert (Hwalk : forall tok n first url acc etag,
    emits P (GitHub.commits_walk tok opts pr first n url acc etag : M World _ _)).
  { intros tok n. induction n as [|n IH]; intros first url acc etag; simpl; [apply emits_ret|].
    destruct (String.eqb url ""); [apply emits_ret|]. apply emits_bind.
    - unfold GitHub.commits_page. apply emits_bind; [by apply emits_look|]. emits_walk.
    - intros [|[[]]]; [apply emits_ret|apply IH]. }
  unfold GitHub.listCommits. apply emits_bind; [apply emits_installation_token|]. intros tok.
  apply Hwalk.
Qed.

Lemma emits_gh_call {A} (m : M World GitHub.GhError A) : emits P m -> emits P (gh_call m).
Proof. intros ?. unfold gh_call. emits_walk. Qed.

Lemma emits_get_pull app api id owner name n :
  emits P (GitHub.GetPullRequest app api id owner name n : M World _ _).
Proof.
  unfold GitHub.GetPullRequest. case_match; [apply emits_throw|].
  apply emits_bind; [|intros; apply emits_ret]. apply emits_json. intros. by apply quiet_look.
Qed.

Lemma emits_get_run app api id owner name n :
  emits P (GitHub.GetCheckRun app api id owner name n : M World _ _).
Proof.
  unfold GitHub.GetCheckRun. case_match; [apply emits_throw|].
  apply emits_json. intros. by apply quiet_look.
Qed.

Hint Resolve emits_get_pull emits_get_run : emits.

Lemma emits_resolve_repository a : emits P (resolveAttachmentRepository a).
Proof. unfold resolveAttachmentRepository, check_mode_for. emits_walk. Qed.

Lemma emits_resolve_link l : emits P (resolveAttachmentRepositoryForLink l).
Proof. unfold resolveAttachmentRepositoryForLink, check_mode_for. emits_walk. Qed.

Lemma emits_resolve_pull repo owner name n : emits P (resolveAttachmentPull repo owner name n).
Proof.
  unfold resolveAttachmentPull. apply emits_bind; [|intros; apply emits_ret].
  apply emits_gh_call, emits_get_pull.
Qed.

Lemma emits_match a repo : emits P (matchAttachmentCandidates a repo).
Proof.
  unfold matchAttachmentCandidates, loadAttachmentCandidates. apply emits_bind.
  - apply emits_gh_call. unfold GitHub.ListPullRequestCommits.
    case_match; [apply emits_throw|apply emits_commits].
  - emits_walk.
Qed.

Lemma emits_readable t : emits P (readableBeyondItsAuthor t).
Proof.
  assert (Hany : forall owner approved, emits P (any_member_reads owner approved)).
  { intros owner approved. induction approved; simpl; emits_walk. }
  unfold readableBeyondItsAuthor. emits_walk.
Qed.
Hint Resolve emits_readable : emits.

Lemma emits_build a ids commits accepted : emits P (buildAttachmentDigests a ids commits accepted).
Proof.
  unfold buildAttachmentDigests. apply emits_bind.
  - generalize (mkGathered [] [] [] false ∅ ∅ ∅) as g. induction ids as [|id ids IH]; intros g; simpl.
    { apply emits_ret. }
    apply emits_bind; [|done]. unfold gather_one, author_handle.
    apply emits_bind; [apply emits_from|]. intros uuid.
    apply emits_bind; [emits_walk|]. intros row.
    apply emits_bind.
    { intros w. destruct (read_turns _ _); eexists [_]; (split_and!;
        [done|repeat constructor; by apply quiet_read|by apply did_quietly]). }
    emits_walk.
  - intros g. case_match; [apply emits_ret|apply emits_throw].
Qed.

Lemma emits_moved_since d : emits P (audienceMovedSince d).
Proof.
  unfold audienceMovedSince. induction (map_to_list _) as [|[id v] l IH]; simpl; emits_walk.
Qed.

Lemma emits_actor id : emits P (resolveGitHubActor id).
Proof. unfold resolveGitHubActor. emits_walk. Qed.
Hint Resolve emits_actor : emits.

Lemma emits_user id : emits P (userByGitHubID id).
Proof. unfold userByGitHubID. emits_walk. Qed.

Lemma emits_member user group : emits P (isCollectiveMember user group).
Proof. unfold isCollectiveMember. emits_walk. Qed.

(** ** The page and its response only look *)
Lemma emits_time_now : emits P time_now.
Proof. by apply emits_nop. Qed.

Lemma emits_locked {A} table (f : Access.Memory -> A * Access.Memory) : emits P (locked table f).
Proof.
  intros w. unfold locked. destruct (f _). eexists [_]. split_and!; [done| |by apply did_quietly].
  repeat constructor. by apply quiet_read.
Qed.
Hint Resolve emits_time_now emits_locked emits_member : emits.

Lemma emits_group_reads u shared : emits P (any_group_reads u shared).
Proof.
  induction shared as [|g rest IH]; simpl; [apply emits_ret|].
  apply emits_bind; [apply emits_attempt, emits_read_q|]. intros [m|[]]; [|done|apply emits_throw].
  case_match; [apply emits_ret|done].
Qed.
Hint Resolve emits_group_reads : emits.

Lemma emits_view_access user t : emits P (transcriptViewAccess user t).
Proof. unfold transcriptViewAccess. emits_walk. Qed.

Lemma emits_can_view {E} user t : emits P (canViewTranscript user t : M World E bool).
Proof. apply emits_bind; [apply emits_attempt, emits_view_access|intros; apply emits_ret]. Qed.

Lemma emits_people a viewer : emits P (resolveAttachmentPeople a viewer).
Proof. unfold resolveAttachmentPeople, resolvePublicOwners. emits_walk. Qed.

Lemma emits_detail installation owner name n : emits P (pullRequestDetail installation owner name n).
Proof.
  unfold pullRequestDetail. case_match; [apply emits_ret|]. cbv zeta.
  apply emits_bind; [apply emits_time_now|]. intros now.
  apply emits_bind; [apply emits_locked|]. intros [e| |]; [apply emits_ret|by apply emits_nop|].
  apply emits_bind; [emits_walk|]. intros pr. apply emits_bind; [apply emits_time_now|]. intros now'.
  case_match. apply emits_bind; [apply emits_locked|]. intros _. by apply emits_nop.
Qed.

Lemma emits_wire_transcripts viewer summaries readable : emits P (wire_transcripts viewer summaries readable).
Proof.
  revert readable. induction summaries as [|[b t] rest IH]; intros readable; simpl; [apply emits_ret|].
  apply emits_bind; [apply emits_from|]. intros wire. apply emits_bind; [apply emits_can_view|]. intros opens.
  apply emits_bind; [apply IH|intros; apply emits_ret].
Qed.

Lemma emits_preview_readable own viewer readable checked items :
  emits P (preview_readable own viewer readable checked items).
Proof.
  revert checked. induction items as [|i rest IH]; intros checked; simpl; [apply emits_ret|].
  case_match; [apply IH|]. apply emits_bind; [emits_walk|]. intros b. apply IH.
Qed.

Lemma emits_response a repo viewer : emits P (attachmentResponseOf a repo viewer).
Proof.
  unfold attachmentResponseOf. case_match; [apply emits_throw|].
  apply emits_bind; [apply emits_people|]. intros people.
  apply emits_bind; [apply emits_detail|]. intros d.
  apply emits_bind; [apply emits_query, emits_read_q|]. intros summaries.
  apply emits_bind; [apply emits_wire_transcripts|]. intros shown. cbv zeta.
  apply emits_bind; [|intros; apply emits_ret]. case_match; [|apply emits_ret].
  apply emits_bind; [|intros; apply emits_ret]. unfold restricted_digest.
  apply emits_bind; [apply emits_from|]. intros parsed. cbv zeta.
  apply emits_bind; [apply emits_preview_readable|]. intros checked.
  case_match; [apply emits_ret|apply emits_throw].
Qed.

Lemma emits_ask installation owner name account : emits P (askGitHubAboutRepository installation owner name account).
Proof.
  unfold askGitHubAboutRepository. apply emits_bind.
  { apply emits_attempt. unfold GitHub.GetUserLogin. apply emits_bind; [|emits_walk].
    apply emits_json. intros. by apply quiet_look. }
  intros [login|]; [|apply emits_ret]. apply emits_bind; [|intros; apply emits_ret].
  apply emits_attempt, emits_json. intros. by apply quiet_look.
Qed.

Lemma emits_admits_reader installation owner name account viewer :
  emits P (githubAdmitsReader installation owner name account viewer).
Proof.
  unfold githubAdmitsReader. cbv zeta. apply emits_bind; [apply emits_time_now|]. intros now.
  apply emits_bind; [apply emits_locked|]. intros [b|]; [apply emits_ret|].
  apply emits_bind; [apply emits_locked|]. intros ok. case_match; [apply emits_ret|].
  apply emits_bind; [apply emits_ask|]. intros admits. apply emits_bind; [|intros; apply emits_ret].
  case_match; [apply emits_skip|apply emits_locked].
Qed.
Lemma emits_admits viewer installation owner name : emits P (repositoryAdmitsViewer viewer installation owner name).
Proof.
  unfold repositoryAdmitsViewer. case_match; [apply emits_ret|].
  apply emits_bind; [emits_walk|]. intros [u|]; [|apply emits_ret]. case_match; [apply emits_ret|]. apply emits_admits_reader.
Qed.

Lemma emits_private_page a repo viewer : emits P (private_page a repo viewer).
Proof.
  unfold private_page. case_match; [|apply emits_ret].
  apply emits_bind; [emits_walk|]. intros m. case_match; [apply emits_ret|].
  apply emits_bind; [apply emits_time_now|]. intros now. apply emits_bind; [apply emits_locked|]. intros over.
  case_match; [apply emits_ret|]. case_match; [apply emits_ret|].
  apply emits_bind; [apply emits_admits|intros; apply emits_ret].
Qed.

Lemma emits_page owner name n viewer : emits P (PullRequestPage owner name n viewer).
Proof.
  unfold PullRequestPage. destruct (pullRequestTarget _ _ _) as [[[o nm] num]|]; [|apply emits_ret].
  apply emits_bind; [apply emits_attempt, emits_read_q|]. intros [a|[]]; [|apply emits_ret..].
  apply emits_bind; [apply emits_attempt, emits_resolve_repository|]. intros [repo|]; [|apply emits_ret].
  apply emits_bind. { case_match; [apply emits_private_page|apply emits_ret]. }
  intros [st|]; [apply emits_ret|]. apply emits_bind; [apply emits_attempt, emits_response|].
  intros; apply emits_ret.
Qed.

Lemma emits_lock {A} id (fn : M World AttachError A) : emits P fn -> emits P (withAttachmentLock id fn).
Proof.
  intros Hfn. unfold withAttachmentLock. apply emits_bind.
  { apply emits_query, emits_stmt; [apply quiet_read|]. intros d a d' ev [= <- <- <-].
    split; [apply quiet_lock|done]. }
  intros _. apply emits_bind; [by apply emits_attempt|]. intros r. apply emits_bind.
  { intros w. eexists [_]. split_and!; [done| |by apply did_quietly]. repeat constructor. apply quiet_unlock. }
  emits_walk.
Qed.

Lemma emits_render d tier : emits P (render d tier).
Proof. unfold render. case_match; [apply emits_ret|apply emits_throw]. Qed.

Lemma changed_row id d row row' (Q : Row -> Row -> Prop) : row_by_id id d = Some row -> ID row' = ID row -> Q row row' ->
  changed id Q d (set_attachments (<[id := row']> (attachments d)) d).
Proof. intros [Hd Hid]%row_by_id_some Hr Hq. split; [done|]. exists row, row'. split_and!; [done..|by rewrite Hr|done|done]. Qed.

(** ** Steps of consequence, with what they need to be allowed *)
Lemma emits_transition id next :
  (forall from, CanTransition from (state_string next) = true ->
    P (EvMoved id from (state_string next))) ->
  emits P (transition id next).
Proof.
  intros HP. unfold transition. apply emits_bind; [|emits_walk]. apply emits_attempt.
  unfold Transition. apply emits_bind; [emits_walk|]. intros to.
  apply emits_bind; [apply emits_attempt, emits_read_q|]. intros [row|[]]; [|apply emits_throw..].
  apply emits_bind; [emits_walk|]. intros from.
  destruct (CanTransition _ _) eqn:Hcan; [|apply emits_throw].
  apply emits_bind; [|emits_walk]. apply emits_attempt.
  apply emits_stmt; [apply quiet_read|]. intros d a d' ev. destruct (row_by_id id d) as [r|] eqn:Hr; [|done].
  destruct (String.eqb_spec (RowState r) (state_string from)); [|done].
  intros [= <- <- <-]. split; [by apply HP|split; [done|by eapply changed_row]].
Qed.

Lemma emits_store id head comment check encoded :
  (forall digest, P (EvArtifacts id head comment check digest)) ->
  emits P (storeAttachmentArtifacts id head comment check encoded).
Proof.
  intros HP. apply emits_stmt; [apply quiet_read|]. intros d a d' ev.
  destruct (row_by_id id d) as [r|] eqn:Hr; [|done]. destruct (pruned_digest _ _ _); [|done].
  intros [= <- <- <-]. split; [done|]. split; [done|by eapply changed_row].
Qed.

Lemma emits_bindings a accepted position :
  (forall t n v, P (EvBound (ID a) t n v)) -> emits P (bindAcceptedTranscripts a accepted position).
Proof.
  intros HP. revert position. induction accepted as [|item rest IH]; intros position; simpl.
  { apply emits_skip. }
  apply emits_bind; [apply emits_from|]. intros id. apply emits_bind; [|done].
  unfold bindOneTranscript. apply emits_bind; [emits_walk|]. intros t.
  case_match; [apply emits_throw|]. apply emits_bind; [emits_walk|]. intros _.
  apply emits_query, emits_stmt; [apply quiet_read|]. intros d x d' ev.
  cbv zeta. repeat case_match; try done; by intros [= <- <- <-].
Qed.

Lemma emits_unbind id ids :
  (forall t, P (EvUnbound id t)) -> emits P (unbindTranscripts id ids).
Proof.
  intros HP. induction ids as [|t ids IH]; simpl; [apply emits_skip|].
  apply emits_bind; [apply emits_from|]. intros parsed. apply emits_bind; [|done].
  apply emits_query, emits_stmt; [apply quiet_read|]. by intros ? ? ? ? [= <- <- <-].
Qed.

Lemma emits_undo {A} id ids e :
  (forall t, P (EvUnbound id t)) -> emits P (undo_bindings (A:=A) id ids e).
Proof. intros HP. pose proof (emits_unbind id ids HP). unfold undo_bindings. emits_walk. Qed.

Lemma emits_clear a : P (EvCleared (ID a)) -> emits P (clearEarlierBindings a).
Proof.
  intros HP. unfold clearEarlierBindings. apply emits_bind; [emits_walk|].
  intros [|]; [apply emits_skip|]. apply emits_query, emits_stmt; [apply quiet_read|].
  by intros ? ? ? ? [= <- <- <-].
Qed.

(** A comment posted or edited with the given body. *)
Definition comment_payload (body : string) : option GitHub.json :=
  Some (GitHub.JObj [("body", GitHub.JStr body)]).

Lemma emits_upsert app api id owner name n existing body :
  (forall method url auth etag answer, method <> "DELETE" ->
    P (EvHttp (GitHub.mkRequest method url auth etag (comment_payload body)) answer)) ->
  emits P (GitHub.UpsertIssueComment app api id owner name n existing body : M World _ _).
Proof.
  intros HP. unfold GitHub.UpsertIssueComment, GitHub.UpdateIssueComment, GitHub.CreateIssueComment.
  repeat (case_match; try apply emits_throw); apply emits_json; intros; by apply HP.
Qed.

Lemma emits_preview_comment a repo n :
  (forall method url auth etag answer, method <> "DELETE" ->
    P (EvHttp (GitHub.mkRequest method url auth etag
      (comment_payload (Render.RenderPreview n (pullRequestPageURL a)))) answer)) ->
  emits P (postPreviewComment a repo n).
Proof.
  intros HP. unfold postPreviewComment. case_match; [apply emits_ret|].
  apply emits_bind; [|intros; apply emits_ret]. by apply emits_gh_call, emits_upsert.
Qed.

Lemma emits_post a repo d changed :
  (forall req answer, GitHub.Method req <> "DELETE" -> P (EvHttp req answer)) ->
  emits P (postAttachment a repo d changed).
Proof.
  intros HP. unfold postAttachment. case_match; [apply emits_ret|]. case_match; [apply emits_throw|].
  apply emits_bind; [apply emits_render|]. intros rendered.
  apply emits_bind; [apply emits_render|]. intros summarised.
  apply emits_bind; [unfold needs_new_run; emits_walk|]. intros create.
  apply emits_bind.
  { apply emits_failing. destruct create; unfold GitHub.CreateCheckRun, GitHub.UpdateCheckRun;
      repeat (case_match; try apply emits_throw); apply emits_json; intros; by apply HP. }
  intros run. apply emits_bind; [|intros; apply emits_ret].
  apply emits_failing, emits_upsert. intros. by apply HP.
Qed.

(** What binding, posting and attaching one attachment may record. *)
Record attaching (id : Z) : Prop := {
  at_bound : forall t n v, P (EvBound id t n v);
  at_unbound : forall t, P (EvUnbound id t);
  at_cleared : P (EvCleared id);
  at_artifacts : forall head comment check digest, P (EvArtifacts id head comment check digest);
  at_posted : forall req answer, GitHub.Method req <> "DELETE" -> P (EvHttp req answer);
  at_moved : forall from, CanTransition from (state_string Attached) = true ->
    P (EvMoved id from (state_string Attached))
}.

Lemma emits_refresh a repo head force :
  attaching (ID a) -> emits P (refreshAttachedAttachment a repo head force).
Proof.
  intros [HB HU _ HA HH HM]. unfold refreshAttachedAttachment.
  apply emits_bind; [apply emits_match|]. intros [matched commits].
  apply emits_bind; [emits_walk|]. intros bound. cbv zeta.
  case_match; [apply emits_skip|].
  apply emits_bind; [by apply emits_bindings|]. intros _.
  case_match; [apply emits_skip|].
  apply emits_bind; [apply emits_build|]. intros d.
  apply emits_bind; [by apply emits_attempt, emits_post|]. intros [[comment check]|e];
    [|by apply emits_undo].
  apply emits_bind; [apply emits_from|]. intros encoded.
  apply emits_bind; [by apply emits_store|]. intros _.
  apply emits_bind; [by apply emits_transition|]. intros _. apply emits_skip.
Qed.

(** The row a transition answers is the one it was asked to move, and so is the
    row a read answers. *)
Lemma transition_id id next w row w' : transition id next w = (Ok row, w') -> ID row = id.
Proof.
  unfold transition. rewrite M_bind_unfold. unfold attempt.
  destruct (Transition id (state_string next) w) as [[r|e] w1] eqn:Ht; [|done]. intros [= <- _].
  apply Transition_ok_inv in Ht as (from&to&cur&w2&_&_&_&_&Hup). simpl in Hup. unfold sql_update_state, stmt in Hup.
  destruct (broken (log w2)); [done|]. destruct (row_by_id _ _) as [r0|] eqn:Hr0; [|done].
  destruct (String.eqb _ _); [|done]. injection Hup as <- _. by apply row_by_id_some in Hr0 as [_ ?].
Qed.
Lemma get_id id w row w' : query (GetPullRequestAttachment id) w = (Ok row, w') -> ID row = id.
Proof.
  unfold query. rewrite M_bind_unfold. unfold attempt. simpl. unfold sql_get_attachment, read, stmt.
  destruct (broken _); [done|]. destruct (row_by_id id _) as [r|] eqn:Hr; [|done]. intros [= <- _]. by apply row_by_id_some in Hr as [_ ?].
Qed.
Lemma emits_fresh {A} id (f : Row -> M World AttachError A) : (forall fresh, ID fresh = id -> emits P (f fresh)) ->
  emits P (fresh ← query (GetPullRequestAttachment id); f fresh).
Proof. intros Hf. apply (emits_bind_ok P (fun r => ID r = id)); [apply emits_query, emits_read_q|by intros ? ? ?; apply get_id|done]. Qed.
Lemma emits_attach a :
  attaching (ID a) -> emits P (attachAcceptedAndPost a).
Proof.
  intros Hat. destruct Hat as [HB HU HC HA HH HM]. unfold attachAcceptedAndPost.
  apply emits_bind; [apply emits_resolve_repository|]. intros repo.
  apply emits_bind; [apply emits_match|]. intros [matched commits].
  case_match; [apply emits_throw|]. cbv zeta.
  apply emits_bind; [apply emits_build|]. intros d.
  apply emits_bind; [by apply emits_clear|]. intros _.
  apply emits_bind; [by apply emits_bindings|]. intros _.
  apply emits_bind; [by apply emits_attempt, emits_post|]. intros [[comment check]|e];
    [|by apply emits_undo].
  apply emits_bind; [apply emits_from|]. intros encoded.
  apply emits_bind; [by apply emits_store|]. intros _.
  apply (emits_bind_ok P (fun row => ID row = ID a)); [by apply emits_transition|intros ? ? ?; apply transition_id|]. intros updated Hid.
  apply emits_bind; [apply emits_moved_since|]. intros moved.
  apply emits_bind; [|intros; apply emits_ret].
  destruct moved; [|apply emits_skip]. apply emits_bind; [|intros; apply emits_skip].
  apply emits_attempt, emits_refresh. by rewrite Hid.
Qed.

Lemma emits_preview a repo accepted commits :
  (forall comment digest, P (EvArtifacts (ID a) (HeadSha a) comment (CheckRunID a) digest)) ->
  (forall method url auth etag answer, method <> "DELETE" ->
    P (EvHttp (GitHub.mkRequest method url auth etag (comment_payload
      (Render.RenderPreview (Z.of_nat (length accepted)) (pullRequestPageURL a)))) answer)) ->
  (forall from, CanTransition from (state_string Preview) = true ->
    P (EvMoved (ID a) from (state_string Preview))) ->
  emits P (previewWithMatch a repo accepted commits).
Proof.
  intros HA HH HM. unfold previewWithMatch. cbv zeta.
  apply emits_bind; [apply emits_build|]. intros d.
  apply emits_bind; [apply emits_from|]. intros encoded.
  apply emits_bind.
  { apply emits_preview_comment. unfold acceptedTranscriptIDs. by rewrite length_fmap. }
  intros comment. apply emits_bind; [by apply emits_store|]. intros _.
  case_match; [|apply emits_skip].
  apply emits_bind; [by apply emits_transition|]. intros _. apply emits_skip.
Qed.

Lemma emits_detach a :
  (forall digest, P (EvArtifacts (ID a) (HeadSha a) None None digest)) ->
  (forall req answer, P (EvHttp req answer)) ->
  (forall from, CanTransition from (state_string Detached) = true ->
    P (EvMoved (ID a) from (state_string Detached))) ->
  emits P (detachAttachment a).
Proof.
  intros HA HH HM. unfold detachAttachment, not_found_is_fine.
  apply emits_bind; [apply emits_resolve_repository|]. intros repo.
  case_match; [apply emits_throw|].
  apply emits_bind.
  { case_match; [|apply emits_skip]. apply emits_bind; [|emits_walk].
    apply emits_attempt. unfold GitHub.DeleteIssueComment. case_match; [apply emits_throw|].
    by apply emits_json. }
  intros _. apply emits_bind.
  { case_match; [|apply emits_skip]. apply emits_bind; [|emits_walk].
    apply emits_attempt. unfold GitHub.UpdateCheckRun. repeat (case_match; try apply emits_throw).
    by apply emits_json. }
  intros _. apply emits_bind; [by apply emits_store|]. intros _. by apply emits_transition.
Qed.

Lemma emits_ensure group author pull requester :
  (forall id, P (EvCreated id author)) -> (forall id, P (EvReobserved id)) ->
  emits P (ensureAttachment group author pull requester).
Proof.
  intros HC HR. unfold ensureAttachment. apply emits_bind; [emits_walk|].
  intros [row|[]]; [apply emits_ret| |apply emits_throw].
  apply emits_query, emits_stmt; [apply quiet_read|]. intros d a d' ev.
  cbv zeta. destruct (List.filter _ _) as [|r rest] eqn:Hf.
  - destruct (users d !! _); [|done]. destruct (attachments d !! next_id d) eqn:Hn; [done|]. intros [= <- <- <-].
    split; [apply HC|]. split; [done|]. split; [done|]. split; [done|]. eexists. split_and!; [| | |done]; done.
  - assert (r ∈ stored_rows d) as Hin%stored_rows_some.
    { apply list_elem_of_In. eapply (proj1 (filter_In _ _ _)). rewrite Hf. by left. }
    intros [= <- <- <-]. split; [apply HR|]. split; [done|]. by eapply changed_row.
Qed.

Lemma emits_request a github :
  P (EvRequester (ID a) github) -> emits P (ensureRequestRecorded a github).
Proof.
  intros HR. unfold ensureRequestRecorded. case_match; [apply emits_skip|].
  apply emits_bind; [|intros; apply emits_skip].
  apply emits_query, emits_stmt; [apply quiet_read|]. intros d x d' ev.
  cbv zeta. destruct (row_by_id _ d) as [r|] eqn:Hr; [|done]. intros [= <- <- <-]. split; [done|]. split; [done|by eapply changed_row].
Qed.

(** The click that is not a consent, and the one that finds nothing to decide. *)
Lemma emits_author_preview a repo head consented :
  RowState a <> state_string Attached ->
  consented && (String.eqb (RowState a) (state_string Requested) ||
                String.eqb (RowState a) (state_string Waiting)) = false ->
  (forall comment digest, P (EvArtifacts (ID a) (HeadSha a) comment (CheckRunID a) digest)) ->
  (forall method url auth etag answer n, method <> "DELETE" ->
    P (EvHttp (GitHub.mkRequest method url auth etag (comment_payload
      (Render.RenderPreview n (pullRequestPageURL a)))) answer)) ->
  (forall from to, to ∈ [Preview; Waiting] -> CanTransition from (state_string to) = true ->
    P (EvMoved (ID a) from (state_string to))) ->
  emits P (authorAttachOrPreview a repo head consented).
Proof.
  intros Hstate%String.eqb_neq Hcon HA HH HM. unfold authorAttachOrPreview. rewrite Hstate.
  apply emits_bind; [apply emits_match|]. intros [matched commits].
  case_match.
  - case_match; [apply emits_skip|]. apply emits_bind; [|intros; apply emits_skip].
    apply emits_transition. intros from. apply HM. set_solver.
  - rewrite Hcon. apply emits_preview; [done|intros; by apply HH|].
    intros from. apply HM. set_solver.
Qed.

Lemma emits_author a repo head consented :
  attaching (ID a) ->
  (forall from to, CanTransition from to = true -> P (EvMoved (ID a) from to)) ->
  emits P (authorAttachOrPreview a repo head consented).
Proof.
  intros Hat HM. destruct (String.eqb (RowState a) (state_string Attached)) eqn:Hstate.
  { unfold authorAttachOrPreview. rewrite Hstate. by apply emits_refresh. }
  destruct (consented && (String.eqb (RowState a) (state_string Requested) ||
    String.eqb (RowState a) (state_string Waiting))) eqn:Hcon.
  - unfold authorAttachOrPreview. rewrite Hstate.
    apply emits_bind; [apply emits_match|]. intros [matched commits]. case_match.
    + case_match; [apply emits_skip|]. apply emits_bind; [|intros; apply emits_skip].
      apply emits_transition. intros from. apply HM.
    + rewrite Hcon. apply emits_bind; [by apply emits_attach|]. intros; apply emits_skip.
  - destruct Hat. apply emits_author_preview; auto. by apply String.eqb_neq.
Qed.

Lemma emits_under_lock a work :
  (forall repo fresh, emits P (work repo fresh)) -> emits P (under_lock a work).
Proof.
  intros Hw. unfold under_lock. apply emits_bind; [apply emits_attempt, emits_resolve_repository|].
  intros [repo|]; [|apply emits_ret]. apply emits_bind; [|intros; apply emits_ret].
  apply emits_attempt, emits_lock. apply emits_bind; [|done]. apply emits_query, emits_read_q.
Qed.

Lemma emits_join errs : emits P (join_errors errs).
Proof. destruct errs; [apply emits_skip|apply emits_throw]. Qed.

Lemma emits_affected ids seen failures : emits P (affected_attachments ids seen failures).
Proof.
  revert seen failures. induction ids as [|id ids IH]; intros seen failures; simpl; [apply emits_ret|].
  apply emits_bind; [emits_walk|]. intros []; apply IH.
Qed.

(** ** Every operation *)
Section everything.
Context (Hat : forall id, attaching id)
  (HM : forall id from to, CanTransition from to = true -> P (EvMoved id from to))
  (Hhttp : forall req answer, P (EvHttp req answer))
  (Hcreated : forall id author, P (EvCreated id author))
  (Hseen : forall id, P (EvReobserved id))
  (Hasked : forall id github, P (EvRequester id github)).

Lemma emits_detach_any a : emits P (detachAttachment a).
Proof. apply emits_detach; intros; [apply Hat|apply Hhttp|by apply HM]. Qed.

Lemma emits_command command owner name n sender association :
  emits P (applyPromptCommand command owner name n sender association).
Proof.
  unfold applyPromptCommand. apply emits_bind; [emits_walk|]. intros [link|]; [|apply emits_skip].
  apply emits_bind; [apply emits_resolve_link|]. intros repo.
  apply emits_bind; [apply emits_resolve_pull|]. intros pull.
  apply emits_bind; [apply emits_actor|]. intros actor. cbv zeta.
  assert (Hrest : forall asks : bool, emits P (author ← userByGitHubID (authorID pull);
    attachment ← ensureAttachment (LinkGroup link) author pull (if asks then Some sender else None);
    if negb (AuthorID attachment =? author) then throw EAuthorMismatch
    else if asks then ensureRequestRecorded attachment sender
    else if String.eqb command (Matcher.command_string Matcher.CommandDetach) then
      if negb (CanTransition (RowState attachment) (state_string Detached)) then skip
      else _ ← detachAttachment attachment; skip
    else if String.eqb command (Matcher.command_string Matcher.CommandAttach)
    then authorAttachOrPreview attachment repo (headSHA pull) false
    else skip)).
  { intros asks. apply emits_bind; [apply emits_user|]. intros author.
    apply emits_bind; [by apply emits_ensure|]. intros attachment.
    case_match; [apply emits_throw|]. case_match; [by apply emits_request|].
    case_match; [|case_match; [apply emits_author; auto|apply emits_skip]].
    case_match; [apply emits_skip|].
    apply emits_bind; [apply emits_detach_any|intros; apply emits_skip]. }
  destruct (Matcher.Authorize _ _); [apply emits_skip|apply (Hrest false)|apply (Hrest true)].
Qed.

Lemma emits_refresh_command owner name n sender :
  emits P (refreshAttachmentForCommand owner name n sender).
Proof.
  unfold refreshAttachmentForCommand. apply emits_bind; [emits_walk|]. intros [a|]; [|apply emits_skip].
  case_match; [apply emits_skip|]. apply emits_bind; [apply emits_actor|]. intros s.
  case_match; [apply emits_skip|]. apply emits_bind; [apply emits_resolve_repository|]. intros repo.
  apply emits_bind; [apply emits_resolve_pull|]. intros pull. apply emits_lock.
  apply emits_bind; [apply emits_query, emits_read_q|]. intros fresh.
  case_match; [apply emits_skip|]. by apply emits_refresh.
Qed.

Lemma emits_opened link pull : emits P (autoAttachOpenedPullRequest link pull).
Proof.
  unfold autoAttachOpenedPullRequest. apply emits_bind; [apply emits_attempt, emits_actor|].
  intros [[u|]|]; try apply emits_ret. apply emits_bind; [emits_walk|].
  intros [user|]; [|apply emits_ret]. case_match; [apply emits_ret|].
  apply emits_bind; [apply emits_member|]. intros belongs. case_match; [apply emits_ret|].
  apply emits_bind; [|intros; apply emits_ret]. apply emits_attempt.
  apply emits_bind; [apply emits_resolve_link|]. intros repo.
  apply emits_bind; [by apply emits_ensure|]. intros a.
  case_match; [apply emits_throw|]. apply emits_lock.
  apply emits_bind; [apply emits_query, emits_read_q|]. intros fresh.
  case_match; [apply emits_skip|]. apply emits_author; auto.
Qed.

Lemma emits_sync pull : emits P (syncAttachmentForPullRequest pull).
Proof.
  unfold syncAttachmentForPullRequest. case_match; [apply emits_skip|].
  apply emits_bind; [emits_walk|]. intros [a|]; [|apply emits_skip].
  case_match; [apply emits_skip|]. apply emits_bind; [apply emits_resolve_repository|].
  intros repo. by apply emits_refresh.
Qed.

Lemma emits_published owner name : emits P (completeAttachmentsForPublishedTranscript owner name).
Proof.
  unfold completeAttachmentsForPublishedTranscript. case_match; [apply emits_skip|].
  apply emits_bind; [emits_walk|]. intros candidates.
  apply emits_bind; [|intros; apply emits_join].
  induction candidates as [|a rest IH]; simpl; [apply emits_ret|].
  apply emits_bind; [|intros; apply emits_bind; [done|intros; apply emits_ret]].
  apply emits_under_lock. intros repo fresh.
  case_match; [by apply emits_refresh|apply emits_author; auto].
Qed.

Lemma emits_audience ids : emits P (refreshAttachmentsForTranscripts ids).
Proof.
  unfold refreshAttachmentsForTranscripts. apply emits_bind; [apply emits_affected|].
  intros [found failures]. apply emits_bind; [|intros; apply emits_join].
  apply emits_attempt. unfold refreshKnownAttachments. apply emits_bind; [|intros; apply emits_join].
  induction found as [|a rest IH]; simpl; [apply emits_ret|].
  apply emits_bind; [|intros; apply emits_bind; [done|intros; apply emits_ret]].
  case_match; [apply emits_ret|]. apply emits_under_lock. intros repo fresh.
  case_match; [apply emits_skip|]. by apply emits_refresh.
Qed.

Lemma emits_action_route act owner name number user :
  (forall id, emits P (act id)) -> emits P (action_route act owner name number user).
Proof.
  intros Hact. unfold action_route, loadAttachmentForAction. case_match; [|apply emits_ret].
  apply emits_bind.
  { repeat case_match; try apply emits_ret. apply emits_bind; [emits_walk|].
    intros [|[]]; try apply emits_ret. case_match; apply emits_ret. }
  intros [a|status]; [|apply emits_ret].
  apply emits_bind; [by apply emits_attempt|]. intros [updated|]; [|apply emits_ret].
  apply emits_bind; [|intros; apply emits_ret]. apply emits_attempt, emits_bind; [apply emits_resolve_repository|].
  intros repo. apply emits_response.
Qed.

Lemma emits_perform op : emits P (perform op).
Proof.
  destruct op; simpl.
  - apply emits_command.
  - apply emits_refresh_command.
  - apply emits_bind; [apply emits_opened|intros; apply emits_skip].
  - apply emits_sync.
  - apply emits_published.
  - apply emits_audience.
  - apply emits_bind; [|intros; apply emits_skip]. apply emits_action_route. intros id.
    apply emits_lock, emits_bind; [apply emits_query, emits_read_q|]. intros fresh.
    case_match; [apply emits_throw|apply emits_attach; auto].
  - apply emits_bind; [|intros; apply emits_skip]. apply emits_action_route. intros id.
    apply emits_lock, emits_bind; [apply emits_query, emits_read_q|]. intros fresh.
    case_match; [apply emits_throw|apply emits_detach_any].
  - apply emits_bind; [apply emits_page|intros; apply emits_skip].
Qed.
End everything.
End quiet.

(** ** Inversion of single steps *)
Lemma failing_ok_inv {E A} e (m : M World E A) w a w' :
  failing e m w = (Ok a, w') -> m w = (Ok a, w').
Proof.
  unfold failing. rewrite M_bind_unfold. unfold attempt. destruct (m w) as [[x|] w1]; [|done].
  by intros [= -> ->].
Qed.

Lemma query_ok_inv {A} (m : M World QueryError A) w a w' :
  query m w = (Ok a, w') -> m w = (Ok a, w').
Proof.
  unfold query. rewrite M_bind_unfold. unfold attempt. destruct (m w) as [[x|] w1]; [|done].
  by intros [= -> ->].
Qed.

(** What lies between two worlds of one run. *)
Definition reach (P : Event -> Prop) (w w' : World) : Prop :=
  exists evs, log w' = log w ++ evs /\ Forall P evs /\ did evs (db w) (db w').

#[export] Instance reach_preorder P : PreOrder (reach P).
Proof.
  split.
  - intros w. exists []. rewrite app_nil_r. split_and!; [done|constructor|constructor].
  - intros w1 w2 w3 (evs&Hl&HP&Hd) (evs'&Hl'&HP'&Hd'). exists (evs ++ evs').
    rewrite Hl', Hl, (assoc_L (++)). split_and!; [done|by apply Forall_app|by eapply did_app].
Qed.

Lemma reach_weaken (P Q : Event -> Prop) w w' : (forall e, P e -> Q e) -> reach P w w' -> reach Q w w'.
Proof. intros HPQ (evs&?&?&?). exists evs. split_and!; [done|by eapply Forall_impl|done]. Qed.
Lemma reach_snoc (P : Event -> Prop) w e d : P e -> effect e (interfere (log w) (db w)) d ->
  reach P w (mkWorld d (toks w) (mem w) (log w ++ [e])).
Proof. intros HP He. exists [e]. split_and!; [done|by repeat constructor|by eapply did_one]. Qed.

Lemma emits_run {E A} P (m : M World E A) w r w' : emits P m -> m w = (r, w') -> reach P w w'.
Proof. intros Hm Hr. destruct (Hm w) as (evs&Hl&HP&Hd). rewrite Hr in Hl, Hd. by exists evs. Qed.

Lemma reach_log P w w' : reach P w w' -> exists evs, log w' = log w ++ evs /\ Forall P evs.
Proof. intros (evs & ? & ? & _). by exists evs. Qed.

Definition any_event (_ : Event) : Prop := True.
#[export] Instance quiet_any : Quiet any_event.
Proof. by split. Qed.

(** A run up to its last step: everything [m] does satisfies [P], and then [f]. *)
Lemma prefix {E A B} P (m : M World E A) (f : A -> M World E B) w r w' :
  (m ≫= f) w = (r, w') -> emits P m ->
  (exists e, r = Err e /\ reach P w w') \/
  exists a w1, m w = (Ok a, w1) /\ f a w1 = (r, w') /\ reach P w w1.
Proof.
  rewrite M_bind_unfold. intros Hrun Hm. destruct (m w) as [[a|e] w1] eqn:Hw.
  - right. exists a, w1. split_and!; [done..|by eapply emits_run].
  - left. injection Hrun as <- <-. exists e. split; [done|by eapply emits_run].
Qed.

(** A statement that fails only looked. *)
Lemma stmt_err {E A} (lost : E) name (f : Db -> result E (A * Db * Event)) w e w' : stmt lost name f w = (Err e, w') -> reach is_read w w'.
Proof.
  unfold stmt. destruct (broken _); [intros [= _ <-]; by apply reach_snoc|].
  destruct (f _) as [[[a d] ev]|]; intros [= _ <-]. by apply reach_snoc.
Qed.

(** A transition that answers a row recorded its move last, after reads, and
    stored that row; one that fails recorded no move. *)
Definition no_move (e : Event) : Prop := match e with EvMoved _ _ _ => False | _ => True end.
#[export] Instance quiet_no_move : Quiet no_move.
Proof. split; [by intros []|done..]. Qed.

Definition moved_to (id : Z) (next : State) (row : Row) (w w' : World) : Prop :=
  RowState row = state_string next /\ exists wm from, reach is_read w wm /\
    log w' = log wm ++ [EvMoved id from (state_string next)] /\
    CanTransition from (state_string next) = true /\
    effect (EvMoved id from (state_string next)) (db wm) (db w') /\ row_by_id id (db w') = Some row.
Lemma transition_run id next w r w' :
  transition id next w = (r, w') ->
  match r with Err _ => reach is_read w w' | Ok row => moved_to id next row w w' end.
Proof.
  unfold transition. rewrite M_bind_unfold. unfold attempt.
  destruct (Transition id (state_string next) w) as [[row|e] w1] eqn:Ht; intros [= <- <-].
  - apply Transition_ok_inv in Ht as (from&to&cur&w2&Hget&_&_&Hcan&Hup). simpl in Hget.
    eapply (emits_run is_read) in Hget as Hw2; [|by apply emits_read].
    simpl in Hup. unfold sql_update_state, stmt in Hup. set (d := interfere (log w2) (db w2)) in Hup.
    destruct (broken (log w2)); [done|]. destruct (row_by_id id d) as [r0|] eqn:Hr0; [|done].
    destruct (String.eqb_spec (RowState r0) (state_string from)) as [Hfrom|]; [|done]. injection Hup as <- <-.
    split; [done|]. exists (mkWorld d (toks w2) (mem w2) (log w2)), (state_string from). split_and!; [|done|done|split; [done|]|].
    + destruct Hw2 as (pre&Hl&Hp&Hd). exists pre. split_and!; [done..|]. rewrite <- (app_nil_r pre).
      eapply did_app; [exact Hd|]. eapply did_others, did_nothing.
    + by eapply changed_row.
    + unfold row_by_id. cbn. rewrite lookup_insert_eq. apply row_by_id_some in Hr0 as [_ Hid]. cbn. by rewrite Hid, Z.eqb_refl.
  - unfold Transition in Ht.
    apply (prefix is_read) in Ht as [(?&_&?)|(to&w2&_&Ht&Hw2)]; [done| |destruct (Parse _); [apply emits_ret|apply emits_throw]].
    apply (prefix is_read) in Ht as [(?&_&?)|(found&w3&_&Ht&Hw23)]; [by etrans| |by apply emits_attempt, emits_read].
    assert (reach is_read w w3) as Hw3 by by etrans. destruct found as [row|[]]; try (by injection Ht as _ <-).
    apply (prefix is_read) in Ht as [(?&_&?)|(from&w4&_&Ht&Hw34)]; [by etrans| |destruct (Parse _); [apply emits_ret|apply emits_throw]].
    destruct (CanTransition _ _); [|injection Ht as _ <-; by etrans]. rewrite M_bind_unfold in Ht. unfold attempt in Ht.
    destruct (UpdatePullRequestAttachmentState _ _ _ w4) as [[u|q] w5] eqn:Hup; [done|].
    apply stmt_err in Hup. assert (w5 = w1) as <- by (by destruct q; injection Ht). by repeat (etrans; [eassumption|]).
Qed.

(** A decoded answer was GitHub's to one request of the run. *)
Lemma json_ok_exchange {Out} app api id op method path payload (decode : string -> option Out)
    (w w' : World) out :
  GitHub.doInstallationJSON app api id op method path payload decode w = (Ok out, w') ->
  exists evs auth resp, log w' = log w ++ evs /\
    EvHttp (GitHub.mkRequest method (api +:+ path) auth "" payload) (Ok resp) ∈ evs /\
    200 <= GitHub.StatusCode resp <= 299 /\ decode (GitHub.Body resp) = Some out.
Proof.
  unfold GitHub.doInstallationJSON.
  intros (tok&w1&Htok&(resp&w2&Hsend&Hrest)%bind_ok_inv)%bind_ok_inv.
  eapply emits_run in Htok as (evs1&Hl1&_); [|apply (emits_installation_token any_event)].
  destruct (_ || _) eqn:Hstatus; [done|].
  assert (Hw : w' = w2 /\ decode (GitHub.Body resp) = Some out).
  { destruct (decode _); [|done]. by injection Hrest as -> ->. }
  destruct Hw as [-> Hdec]. revert Hsend. unfold GitHub.send. destruct (GitHub.parse_url _); [|done].
  rewrite M_bind_unfold. unfold attempt. simpl.
  destruct (service _ _) as [resp'|] eqn:Hs; [|done]. intros [= -> <-]. simpl.
  eexists (evs1 ++ [_]), _, resp. rewrite Hl1, (assoc_L (++)). split; [done|].
  split; [apply elem_of_app; right; by apply list_elem_of_singleton|]. bool_hyps. split; [lia|done].
Qed.

(** Of pull request [n] of this repository, GitHub reported this author. *)
Definition reported_author (owner name : string) (n author : Z) (w w' : World) : Prop :=
  exists evs auth resp out, log w' = log w ++ evs /\
    EvHttp (GitHub.mkRequest "GET" (ApiURL +:+ "/repos/" +:+ owner +:+ "/" +:+ name +:+ "/pulls/" +:+ itoa n) auth "" None) (Ok resp) ∈ evs /\
    GitHub.decode_pull (GitHub.Body resp) = Some out /\ GitHub.out_user_id out = author.
Lemma reported_wider owner name n author v w w' v' : reach any_event v w -> reach any_event w' v' ->
  reported_author owner name n author w w' -> reported_author owner name n author v v'.
Proof.
  intros (l & Hl & _) (l' & Hl' & _) (evs & auth & resp & out & He & Hin & ? & ?). exists (l ++ evs ++ l'), auth, resp, out.
  split_and!; [by rewrite Hl', He, Hl, !(assoc_L (++))| |done|done]. rewrite !elem_of_app. auto.
Qed.
Lemma resolve_pull_event repo owner name n w pull w' :
  resolveAttachmentPull repo owner name n w = (Ok pull, w') ->
  reported_author owner name n (authorID pull) w w' /\ repoOwner pull = owner /\ repoName pull = name /\ number pull = n.
Proof.
  unfold resolveAttachmentPull, gh_call. destruct gh_configured; [|by intros (?&?&?&_)%bind_ok_inv].
  intros (pr&w1&Hpr%failing_ok_inv&Hret)%bind_ok_inv. injection Hret as <- <-. split; [|done].
  revert Hpr. unfold GitHub.GetPullRequest. destruct (n <=? 0); [done|].
  intros (out&w2&Hout&Hret)%bind_ok_inv. injection Hret as <- <-.
  apply json_ok_exchange in Hout as (evs&auth&resp&?&Hin&_&?). exists evs, auth, resp, out. split_and!; [done| |done|done].
  revert Hin. unfold GitHub.repo_path. by rewrite !string_app_assoc.
Qed.

Lemma authorize_proceed_author actor command :
  Matcher.Authorize actor command = Matcher.ActionProceed -> Matcher.isAuthor actor = true.
Proof. unfold Matcher.Authorize. by repeat case_match. Qed.

(** Running [f] after [m], with what each of them appends. *)
Lemma emits_then {E A B} P Q (m : M World E A) (f : A -> M World E B) w r w' :
  (m ≫= f) w = (r, w') -> emits P m ->
  (forall a w1 evs, m w = (Ok a, w1) -> log w1 = log w ++ evs -> Forall P evs ->
    f a w1 = (r, w') -> exists evs', log w' = log w1 ++ evs' /\ Q (evs ++ evs')) ->
  (forall evs, Forall P evs -> Q evs) ->
  exists evs, log w' = log w ++ evs /\ Q evs.
Proof.
  rewrite M_bind_unfold. intros Hrun Hm Hf Herr. destruct (Hm w) as (evs&Hl&HP&_).
  destruct (m w) as [[a|e] w1]; simpl in Hl.
  - destruct (Hf a w1 evs eq_refl Hl HP Hrun) as (evs'&Hl'&HQ).
    exists (evs ++ evs'). split; [|done]. by rewrite Hl', Hl, (assoc_L (++)).
  - injection Hrun as <- <-. exists evs. split; [done|by apply Herr].
Qed.

(** The comment of the attachment's pull request, made or edited, with this text:
    GitHub accepted it, and gave it this id. *)
Definition commented (a : Row) (text : string) (id : Z) (evs : list Event) : Prop :=
  exists method path auth resp c,
    EvHttp (GitHub.mkRequest method (ApiURL +:+ "/repos/" +:+ RepoOwner a +:+ "/" +:+ RepoName a +:+ path) auth "" (comment_payload text)) (Ok resp) ∈ evs /\
    200 <= GitHub.StatusCode resp <= 299 /\ GitHub.decode_comment (GitHub.Body resp) = Some c /\ GitHub.CommentID c = id /\
    (method, path) = (if 0 <? int8_value (CommentID a) then ("PATCH", "/issues/comments/" +:+ itoa (int8_value (CommentID a)))
                      else ("POST", "/issues/" +:+ itoa (Number a) +:+ "/comments")).
Lemma upsert_ok a id body (w w' : World) c :
  GitHub.UpsertIssueComment AppID ApiURL id (RepoOwner a) (RepoName a) (Number a) (int8_value (CommentID a)) body w = (Ok c, w') ->
  exists evs, log w' = log w ++ evs /\ commented a body (GitHub.CommentID c) evs.
Proof.
  unfold GitHub.UpsertIssueComment, GitHub.UpdateIssueComment, GitHub.CreateIssueComment, commented.
  destruct (0 <? _) eqn:Hex; (destruct (_ <=? 0); [done|]); intros (evs&auth&resp&Hl&Hin&Hs&Hd)%json_ok_exchange;
    exists evs; (split; [done|]); eexists _, _, auth, resp, c; (split; [|split; [exact Hs|]; split; [exact Hd|]; split; [done|reflexivity]]);
    revert Hin; unfold GitHub.repo_path; by rewrite !string_app_assoc.
Qed.

(** ** Properties *)

Definition legal_move (e : Event) : Prop :=
  match e with
  | EvMoved _ from to => exists f t, from = state_string f /\ to = state_string t /\ move f t
  | _ => True
  end.
#[export] Instance quiet_legal : Quiet legal_move.
Proof. split; [by intros []|done..]. Qed.


Definition still (d d' : Db) : Prop := states d' = states d.
(** Steps of [R], and in between whatever the others do. *)
Definition among_others (R : relation Db) : relation Db := rtc (fun d d' => (exists l, d' = interfere l d) \/ R d d').
Lemma states_insert id (row : Row) (m : gmap Z Row) : RowState <$> <[id := row]> m = <[id := RowState row]> (RowState <$> m).
Proof. apply fmap_insert. Qed.
Lemma changed_states id (Q : Row -> Row -> Prop) d d' : (forall row row', Q row row' -> RowState row' = RowState row) ->
  changed id Q d d' -> still d d'.
Proof.
  intros Hq (_ & row & row' & Hrow & _ & _ & HQ & Ha). unfold still, states. rewrite Ha, states_insert, (Hq _ _ HQ).
  apply insert_id. by rewrite lookup_fmap, Hrow.
Qed.
Lemma effect_still e d d' : effect e d d' -> no_move e -> (forall id author, e <> EvCreated id author) -> still d d'.
Proof.
  intros [_ He] Hm Hc. destruct e; try done; cbn in He; try (by destruct He as [Ha _]; unfold still, states; rewrite Ha); try (by rewrite He).
  - by destruct (Hc id author).
  - eapply changed_states; [|exact He]. by intros ? ? [? _].
  - eapply changed_states; [|exact He]. by intros ? ? [? _].
  - eapply changed_states; [|exact He]. by intros ? ? [? _].
Qed.
Lemma did_among (R : relation Db) (P : Event -> Prop) evs d d' : (forall e d d', P e -> effect e d d' -> R d d') ->
  Forall P evs -> did evs d d' -> among_others R d d'.
Proof.
  intros HR HP Hd. induction Hd as [d|l evs d d' _ IH|e evs d d1 d' He _ IH]; [apply rtc_refl|..].
  - eapply rtc_l; [left; by exists l|by apply IH].
  - apply Forall_cons in HP as [? ?]. eapply rtc_l; [right; by eapply HR|by apply IH].
Qed.


(** If the other writers leave the audience alone, so does a run. *)
Lemma run_keeps_audience {E A} P (m : M World E A) w :
  emits P m -> (forall l d, audience (interfere l d) = audience d) -> audience (db (m w).2) = audience (db w).
Proof.
  intros Hm Henv. destruct (Hm w) as (evs&_&_&Hg).
  eapply (did_keeps (fun d => audience d = audience (db w))); [|by intros ?? -> _|done|done]. intros l d <-. apply Henv.
Qed.

(** Also: attaching, previewing, refreshing and detaching never change who can
    read a transcript: if the other writers leave the transcripts, accounts,
    collectives, links, shares and memberships alone, so does every operation. *)
Theorem lifecycle_keeps_audience op w :
  (forall l d, audience (interfere l d) = audience d) ->
  audience (db (perform op w).2) = audience (db w).
Proof. apply (run_keeps_audience any_event). by apply (emits_perform any_event). Qed.

(** What a click that is not a consent may do: look, show the count of matches
    in the sticky comment, store the preview, and wait or preview. *)
Definition preview_only (a : Row) (e : Event) : Prop :=
  match e with
  | EvRead _ | EvBroken _ | EvLocked _ | EvUnlocked _ => True
  | EvHttp req _ => looks req \/ exists n,
      GitHub.Payload req = comment_payload (Render.RenderPreview n (pullRequestPageURL a))
  | EvArtifacts id head _ check _ => id = ID a /\ head = HeadSha a /\ check = CheckRunID a
  | EvMoved id _ to => id = ID a /\ (to = state_string Preview \/ to = state_string Waiting)
  | _ => False
  end.
#[export] Instance quiet_preview_only a : Quiet (preview_only a).
Proof. split; [by intros []|by left|done..]. Qed.

(** Also: consent: without the author's consent, or when the author was already
    asked or has detached, an attach action binds nothing, posts no prompt and
    no check, and moves the attachment at most to preview or waiting: all it
    says on GitHub is how many transcripts match. *)
Theorem author_click_previews_only a repo head consented w r w' :
  RowState a <> state_string Attached ->
  consented = false \/ RowState a = state_string Preview \/ RowState a = state_string Detached ->
  authorAttachOrPreview a repo head consented w = (r, w') ->
  exists evs, log w' = log w ++ evs /\ Forall (preview_only a) evs.
Proof.
  intros Hstate Hcon Hrun. apply reach_log. eapply emits_run; [|exact Hrun]. apply (emits_author_preview (preview_only a)); try done.
  - destruct Hcon as [-> |[-> | ->]]; [done|by destruct consented..].
  - intros method url auth etag answer n _. right. by exists n.
  - intros from to Hto _. split; [done|]. apply elem_of_cons in Hto as [->|Hto]; [by left|].
    apply list_elem_of_singleton in Hto as ->. by right.
Qed.

(** What a request by someone who is not the author may record: the request. *)
Definition asked_only (sender : Z) (e : Event) : Prop :=
  match e with
  | EvRead _ | EvBroken _ | EvLocked _ | EvUnlocked _ | EvCreated _ _ | EvReobserved _ => True
  | EvHttp req _ => looks req
  | EvRequester _ github => github = sender
  | _ => False
  end.
#[export] Instance quiet_asked sender : Quiet (asked_only sender).
Proof. split; [by intros []|done..]. Qed.

(** What looking at the tables and at GitHub records. *)
Definition looking (e : Event) : Prop :=
  match e with
  | EvRead _ | EvBroken _ | EvLocked _ | EvUnlocked _ => True
  | EvHttp req _ => looks req
  | _ => False
  end.
#[export] Instance quiet_looking : Quiet looking.
Proof. split; [by intros []|done..]. Qed.
Lemma looking_asked sender e : looking e -> asked_only sender e.
Proof. by destruct e. Qed.

(** What a run that changes one attachment records. *)
Definition touches (id : Z) (e : Event) : Prop :=
  match e with
  | EvCreated i _ | EvReobserved i | EvBound i _ _ _ | EvUnbound i _ | EvCleared i | EvArtifacts i _ _ _ _
  | EvRequester i _ | EvMoved i _ _ => i = id
  | _ => True
  end.
#[export] Instance quiet_touches id : Quiet (touches id).
Proof. split; [by intros []|done..]. Qed.
Lemma looking_touches id e : looking e -> touches id e.
Proof. by destruct e. Qed.
Lemma touches_attaching id : attaching (touches id) id.
Proof. by split. Qed.

(** The attachment of pull request [n] of a repository, numbers being stored in
    32 bits. *)
Definition of_pull (owner name : string) (n : Z) (row : Row) : Prop :=
  same_name (RepoOwner row) owner = true /\ same_name (RepoName row) name = true /\ Number row = wrap32 n.
(** All that the run changes is one attachment, which at a moment of the run was
    stored as the attachment of this pull request. *)
Definition on_pull (owner name : string) (n : Z) (w w' : World) : Prop :=
  exists w1 row, row_by_id (ID row) (db w1) = Some row /\ of_pull owner name n row /\
    reach (touches (ID row)) w w1 /\ reach (touches (ID row)) w1 w'.

Lemma get_for_pull_run owner name n w row w' : sql_get_for_pull owner name n w = (Ok row, w') ->
  reach is_read w w' /\ row_by_id (ID row) (db w') = Some row /\
  same_name (RepoOwner row) owner = true /\ same_name (RepoName row) name = true /\ Number row = n.
Proof.
  intros Hrun. split; [eapply emits_run; [|exact Hrun]; by apply emits_read|]. revert Hrun.
  unfold sql_get_for_pull, read, stmt. destruct (broken _); [done|].
  set (d := interfere (log w) (db w)). destruct (head _) as [r|] eqn:Hh; [|done]. intros [= -> <-]. cbn.
  apply head_Some_elem_of in Hh. rewrite elem_of_sort_stable in Hh. apply elem_of_list_filter in Hh as [Hin Hf].
  apply andb_true_iff in Hf as [[? ?]%andb_true_iff ?%Z.eqb_eq]. split_and!; [by apply stored_rows_some|done..].
Qed.

Lemma create_run new w row w' : sql_create new w = (Ok row, w') ->
  row_by_id (ID row) (db w') = Some row /\
  (RepoOwner row = RepoOwner new /\ RepoName row = RepoName new /\ Number row = Number new) /\ reach (touches (ID row)) w w'.
Proof.
  unfold sql_create, stmt. destruct (broken _); [done|]. set (d := interfere (log w) (db w)).
  destruct (List.filter _ _) as [|r rest] eqn:Hf.
  - destruct (users d !! _); [|done]. destruct (attachments d !! next_id d) eqn:Hn; [done|]. intros [= <- <-]. cbn.
    split; [unfold row_by_id; cbn; rewrite lookup_insert_eq; cbn; by rewrite Z.eqb_refl|]. split; [done|].
    apply reach_snoc; [done|]. split; [done|]. split; [done|]. split; [done|]. eexists. split_and!; [| | |done]; done.
  - assert (r ∈ stored_rows d /\ (GithubRepoID r =? GithubRepoID new) && (Number r =? Number new) = true) as [Hin%stored_rows_some Hk].
    { pose proof (list_elem_of_here r rest) as Hin. rewrite <- Hf in Hin. by apply elem_of_list_filter in Hin. }
    apply andb_true_iff in Hk as [_ Hk%Z.eqb_eq]. intros [= <- <-]. cbn.
    split; [unfold row_by_id; cbn; rewrite lookup_insert_eq; cbn; by rewrite Z.eqb_refl|]. split; [done|].
    apply reach_snoc; [done|]. split; [done|]. by eapply changed_row.
Qed.
(** The attachment of the pull request is found or made. *)
Lemma ensure_run group author pull requester w r w' :
  ensureAttachment group author pull requester w = (r, w') ->
  match r with
  | Err _ => reach looking w w'
  | Ok row => row_by_id (ID row) (db w') = Some row /\ of_pull (repoOwner pull) (repoName pull) (number pull) row /\
      reach (touches (ID row)) w w'
  end.
Proof.
  unfold ensureAttachment. rewrite M_bind_unfold. unfold attempt.
  destruct (sql_get_for_pull _ _ _ w) as [[row|q] w1] eqn:Hget.
  { intros [= <- <-]. apply get_for_pull_run in Hget as (Hr & ? & ? & ? & ?). split_and!; [done|done|].
    eapply reach_weaken; [|exact Hr]. by intros []. }
  assert (reach looking w w1) as Hw1 by (eapply emits_run; [|exact Hget]; by apply emits_read_q; apply _).
  destruct q; [|by intros [= <- <-]]. unfold query. rewrite M_bind_unfold. unfold attempt.
  set (new := mkRow _ _ _ _ _ _ _ _ _ _ _ _ _ _ _ _ _ _ _ _ _ _).
  destruct (sql_create new w1) as [[row|q] w2] eqn:Hc; intros [= <- <-];
    [|apply stmt_err in Hc; etrans; [done|]; eapply reach_weaken; [|exact Hc]; by intros []].
  apply create_run in Hc as (? & (Ho & Hn & Hnum) & ?). split_and!; [done| |].
  - unfold of_pull, same_name. rewrite Ho, Hn, Hnum, !String.eqb_refl. done.
  - etrans; [|done]. eapply reach_weaken; [|exact Hw1]. apply looking_touches.
Qed.

(** What a command goes on to do on the attachment. *)
Definition command_rest (command : string) (repo : attachmentRepository) (pull : attachmentPull) (author : Z) (attachment : Row)
    (sender : Z) (asks : bool) : M World AttachError unit :=
  if negb (AuthorID attachment =? author) then throw EAuthorMismatch
  else if asks then ensureRequestRecorded attachment sender
  else if String.eqb command (Matcher.command_string Matcher.CommandDetach) then
    if negb (CanTransition (RowState attachment) (state_string Detached)) then skip
    else _ ← detachAttachment attachment; skip
  else if String.eqb command (Matcher.command_string Matcher.CommandAttach)
  then authorAttachOrPreview attachment repo (headSHA pull) false
  else skip.
Lemma emits_command_rest P `{!Quiet P} command repo pull author a sender asks :
  attaching P (ID a) -> (forall from to, CanTransition from to = true -> P (EvMoved (ID a) from to)) ->
  (forall req answer, P (EvHttp req answer)) -> P (EvRequester (ID a) sender) ->
  emits P (command_rest command repo pull author a sender asks).
Proof.
  intros Hat HM HH HR. unfold command_rest. case_match; [apply emits_throw|]. case_match; [by apply emits_request|].
  case_match; [case_match; [apply emits_skip|]|case_match; [by apply emits_author|apply emits_skip]].
  apply emits_bind; [apply emits_detach; [apply _|intros; apply Hat|done|by intros; apply HM]|intros; apply emits_skip].
Qed.

(** Also: authorship: a webhook command does more than look only on the pull
    request it names, and more than record who asked only when GitHub itself
    reported, to a request of this run for that pull request, that the sender is
    its author. *)
Theorem command_acts_for_author_only command owner name n sender association w r w' :
  applyPromptCommand command owner name n sender association w = (r, w') ->
  reach looking w w' \/
  on_pull owner name n w w' /\ (reach (asked_only sender) w w' \/ reported_author owner name n sender w w').
Proof.
  intros Hrun. unfold applyPromptCommand in Hrun.
  apply (prefix looking) in Hrun as [(?&_&?)|(found&w1&_&Hrun&Hw1)]; [by left| |apply emits_attempt, emits_read_q; apply _].
  destruct found as [link|]; [|injection Hrun as <- <-; by left].
  apply (prefix looking) in Hrun as [(?&_&?)|(repo&w2&_&Hrun&Hw2)]; [left; by etrans| |apply emits_resolve_link; apply _].
  apply (prefix looking) in Hrun as [(?&_&?)|(pull&w3&Hpull&Hrun&Hw3)]; [left; by repeat (etrans; [eassumption|])| |apply emits_resolve_pull; apply _].
  apply resolve_pull_event in Hpull as (Hrep & Ho & Hn & Hnum).
  apply (prefix looking) in Hrun as [(?&_&?)|(actor&w4&_&Hrun&Hw4)]; [left; by repeat (etrans; [eassumption|])| |apply emits_actor; apply _].
  assert (Hlook : reach looking w w4) by (by repeat (etrans; [eassumption|])). cbv zeta in Hrun.
  set (action := Matcher.Authorize _ _) in Hrun. 
  assert (Hcase : skip w4 = (r, w') \/ exists asks, (asks = false -> action = Matcher.ActionProceed) /\
    (author ← userByGitHubID (authorID pull);
     attachment ← ensureAttachment (LinkGroup link) author pull (if asks then Some sender else None);
     command_rest command repo pull author attachment sender asks) w4 = (r, w')).
  { destruct action; [by left|right; by exists false|right; by exists true]. }
  destruct Hcase as [Hskip|(asks & Hasks & Hrun')]; [injection Hskip as <- <-; by left|].
  clear Hrun. apply (prefix looking) in Hrun' as [(?&_&?)|(author&w5&_&Hrun&Hw5)]; [left; by etrans| |apply emits_user; apply _].
  assert (Hlook5 : reach looking w w5) by by etrans. rewrite M_bind_unfold in Hrun.
  destruct (ensureAttachment _ _ _ _ w5) as [[att|e] w6] eqn:He; pose proof He as Hens; apply ensure_run in Hens;
    [|injection Hrun as _ <-; left; by etrans].
  destruct Hens as (Hstored & Hof & Ht). rewrite Ho, Hn, Hnum in Hof. right. split.
  - exists w6, att. split_and!; [done..| |].
    + etrans; [eapply reach_weaken; [|exact Hlook5]; apply looking_touches|done].
    + eapply emits_run; [|exact Hrun]. by apply emits_command_rest; [apply _|apply touches_attaching|..].
  - destruct asks eqn:Hreq.
    + left. etrans; [eapply reach_weaken; [|exact Hlook5]; apply looking_asked|]. etrans.
      * eapply emits_run; [|exact He]. by apply (emits_ensure (asked_only sender)).
      * eapply emits_run; [|exact Hrun]. unfold command_rest. case_match; [apply emits_throw|]. by apply (emits_request (asked_only sender)).
    + right. assert (authorID pull = sender) as <-.
      { pose proof (Hasks eq_refl) as Hp. apply authorize_proceed_author in Hp.
        unfold Matcher.isAuthor in Hp. simpl in Hp. bool_hyps. congruence. }
      eapply reported_wider; [| |exact Hrep].
      * etrans; eapply reach_weaken; [|exact Hw1| |exact Hw2]; done.
      * do 2 (etrans; [eapply reach_weaken; [|eassumption]; done|]). etrans; [eapply reach_weaken; [|exact Ht]; done|].
        eapply reach_weaken; [|eapply emits_run; [|exact Hrun]; by apply (emits_command_rest any_event)]. done.
Qed.

(** The comment a pull request shows for these digests. *)
Definition posted_text (d : attachmentDigests) : result Render.RenderError string :=
  match Digest.Items (complete d), Render.Render validate (forPullRequest d) Render.CommentTier with
  | _, Err e => Err e
  | [], Ok _ => Ok emptyNote
  | _, Ok text => Ok text
  end.

(** A post: the comment with the digests' text, when the collective posts at all;
    nothing otherwise, the stored ids standing. *)
Definition posted (a : Row) (repo : attachmentRepository) (d : attachmentDigests) (ids : Z * Z) (w w' : World) : Prop :=
  exists evs, log w' = log w ++ evs /\
    if postCheck repo then exists text, posted_text d = Ok text /\ commented a text ids.1 evs
    else evs = [] /\ ids = (int8_value (CommentID a), int8_value (CheckRunID a)).
Lemma post_ok a repo d changed w ids w' : postAttachment a repo d changed w = (Ok ids, w') -> posted a repo d ids w w'.
Proof.
  unfold postAttachment, posted. destruct (postCheck repo); simpl.
  2:{ intros [= <- <-]. exists []. by rewrite app_nil_r. }
  destruct gh_configured; [simpl|done].
  intros (rendered&w1&Hr1&Hrun)%bind_ok_inv. apply bind_ok_inv in Hrun as (summarised&w2&Hr2&Hrun).
  unfold render in Hr1, Hr2.
  destruct (Render.Render _ _ Render.CommentTier) as [text|] eqn:Htext; [|done].
  injection Hr1 as <- <-. destruct (Render.Render _ _ Render.CheckRunTier); [|done].
  injection Hr2 as _ <-. cbv zeta in Hrun.
  apply bind_ok_inv in Hrun as (create&w3&Hneeds&Hrun).
  eapply (emits_run any_event) in Hneeds as (evs3&Hl3&_); [|unfold needs_new_run; emits_walk].
  2:{ apply (emits_get_run any_event). }
  apply bind_ok_inv in Hrun as (run&w4&Hcheck&Hrun).
  eapply (emits_run any_event) in Hcheck as (evs4&Hl4&_).
  2:{ apply emits_failing. destruct create; unfold GitHub.CreateCheckRun, GitHub.UpdateCheckRun;
      repeat (case_match; try apply emits_throw); by apply (emits_json any_event). }
  apply bind_ok_inv in Hrun as (posted&w5&Hup%failing_ok_inv&Hret). injection Hret as <- <-.
  apply upsert_ok in Hup as (evs5&Hl5&method&path&auth&resp&c&Hin&?&?&?&?).
  exists (evs3 ++ evs4 ++ evs5). split; [by rewrite Hl5, Hl4, Hl3, !(assoc_L (++))|].
  exists (if match Digest.Items (complete d) with [] => true | _ => false end then emptyNote else text).
  split; [unfold posted_text; rewrite Htext; by destruct (Digest.Items (complete d))|].
  exists method, path, auth, resp, c. split; [rewrite !elem_of_app; by right; right|done].
Qed.

(** The artifacts were stored: of the digest, what of it is still there and the
    author's. *)
Definition recorded (id : Z) (head : string) (comment check : option Z) (encoded : string) (w w' : World) : Prop :=
  exists row stored, let d := interfere (log w) (db w) in
    row_by_id id d = Some row /\ pruned_digest d row encoded = Ok stored /\
    log w' = log w ++ [EvArtifacts id head comment check stored] /\ effect (EvArtifacts id head comment check stored) d (db w').
Lemma store_run id head comment check encoded w r w' :
  storeAttachmentArtifacts id head comment check encoded w = (r, w') ->
  match r with Ok _ => recorded id head comment check encoded w w' | Err _ => reach is_read w w' end.
Proof.
  destruct r as [[]|e]; [|by apply stmt_err]. unfold storeAttachmentArtifacts, stmt. destruct (broken (log w)); [done|].
  destruct (row_by_id id _) as [row|] eqn:Hr; [|done]. destruct (pruned_digest _ _ _) as [pruned|] eqn:Hp; [|done].
  intros [= <-]. exists row, pruned. split_and!; [done..|split; [done|by eapply changed_row]].
Qed.
(** What leaves every attachment in its state and starts none. *)
Definition in_place (e : Event) : Prop := match e with EvMoved _ _ _ | EvCreated _ _ => False | _ => True end.
#[export] Instance quiet_in_place : Quiet in_place.
Proof. split; [by intros []|done..]. Qed.
Lemma reach_still w w' : reach in_place w w' -> among_others still (db w) (db w').
Proof.
  intros (evs & _ & HP & Hd). eapply did_among; [|exact HP|exact Hd]. intros e d d' He Heff.
  eapply effect_still; [done|by destruct e|by intros id author ->].
Qed.
Lemma recorded_reach (P : Event -> Prop) id head comment check encoded w w' : (forall digest, P (EvArtifacts id head comment check digest)) ->
  recorded id head comment check encoded w w' -> reach P w w'.
Proof. intros HP (row & stored & _ & _ & Hl & He). eexists [_]. split_and!; [exact Hl|by repeat constructor|by eapply did_one]. Qed.

(** The check after an attach always answers: a read that fails counts as moved. *)
Lemma moved_since_total d w : exists b w', audienceMovedSince d w = (Ok b, w').
Proof.
  unfold audienceMovedSince. revert w. induction (map_to_list _) as [|[id v] l IH]; intros w; simpl.
  { by eexists _, _. }
  destruct (parse_uuid id); [|by eexists _, _]. rewrite M_bind_unfold. unfold attempt.
  destruct (sql_get_transcript _ w) as [[row|] w1]; [|by eexists _, _].
  rewrite M_bind_unfold. destruct (readableBeyondItsAuthor row w1) as [[reads|] w2]; [|by eexists _, _].
  destruct (_ || _); [by eexists _, _|apply IH].
Qed.

(** The check after an attach, and the repost it may cause, never fail it. *)
Lemma after_move_run d repo row w r w' :
  (moved ← audienceMovedSince d;
   _ ← (if moved : bool
     then _ ← attempt (refreshAttachedAttachment row repo (HeadSha row) true) : M World AttachError _;
          skip
     else skip);
   mret row) w = (r, w') -> r = Ok row /\ reach any_event w w'.
Proof.
  intros Hrun. assert (Hms : emits any_event (audienceMovedSince d)) by (apply emits_moved_since; apply _).
  rewrite M_bind_unfold in Hrun. destruct (moved_since_total d w) as (m&w1&Hm). rewrite Hm in Hrun.
  pose proof (emits_run _ _ _ _ _ Hms Hm) as Hw1. rewrite M_bind_unfold in Hrun.
  destruct m; [|by injection Hrun as <- <-].
  assert (Href : emits any_event (refreshAttachedAttachment row repo (HeadSha row) true))
    by (by apply emits_refresh; [apply _|]).
  rewrite M_bind_unfold in Hrun. unfold attempt in Hrun.
  destruct (refreshAttachedAttachment row repo (HeadSha row) true w1) as [x w2] eqn:Hx.
  injection Hrun as <- <-. split; [done|]. etrans; [done|]. by eapply emits_run.
Qed.

Lemma undo_run {A} P `{!Quiet P} id ids e w (r : result AttachError A) w' :
  (forall t, P (EvUnbound id t)) -> undo_bindings id ids e w = (r, w') ->
  (exists e', r = Err e') /\ reach P w w'.
Proof.
  intros HP Hrun. split; [|eapply emits_run; [|exact Hrun]; by apply emits_undo].
  unfold undo_bindings in Hrun. rewrite M_bind_unfold in Hrun. unfold attempt in Hrun.
  destruct (unbindTranscripts _ _ w) as [[] w1]; injection Hrun as <- _; by eexists.
Qed.

(** Recording what was posted and then moving the state: either no state moved,
    or the artifacts are recorded, then after reads alone the state moves. *)
Lemma record_then_move {A} id head comment check encoded next (k : Row -> M World AttachError A) w r w' :
  (_ ← storeAttachmentArtifacts id head comment check encoded;
   updated ← transition id next; k updated) w = (r, w') ->
  (exists e, r = Err e /\ reach in_place w w') \/
  exists row wa wt, recorded id head comment check encoded w wa /\ moved_to id next row wa wt /\ k row wt = (r, w').
Proof.
  rewrite M_bind_unfold. destruct (storeAttachmentArtifacts _ _ _ _ _ w) as [stored wa] eqn:Hstore.
  apply store_run in Hstore. destruct stored as [[]|e].
  2:{ intros [= <- <-]. left. exists e. split; [done|]. eapply reach_weaken; [|exact Hstore]. by intros []. }
  rewrite M_bind_unfold. destruct (transition id next wa) as [moved wt] eqn:Hmove.
  pose proof Hmove as Hm. apply transition_run in Hm. destruct moved as [row|e]; [intros Hk; right; by exists row, wa, wt|].
  intros [= <- <-]. left. exists e. split; [done|]. etrans; [by eapply recorded_reach|]. eapply reach_weaken; [|exact Hm]. by intros [].
Qed.

(** C1: attaching: the state moves to attached last. A failed attach left every
    stored attachment in the state it had, but for what other writers did. A
    successful one built its digests of the transcripts that its own match
    accepted, and some were; posted their text, and GitHub accepted it as the
    comment of this very pull request, when the collective posts at all; stored
    of these digests what is still there and the author's, with the id GitHub
    gave the comment; until then left every stored attachment in its state; and
    only then, after reads alone, moved this attachment's, along a legal edge,
    and answered the row it stored. *)
Theorem attach_posts_before_it_moves a w r w' :
  attachAcceptedAndPost a w = (r, w') ->
  match r with
  | Err _ => among_others still (db w) (db w')
  | Ok row => exists repo w1 matched commits w2 d w3 encoded wq ids wp ws wa wt,
      resolveAttachmentRepository a w = (Ok repo, w1) /\
      matchAttachmentCandidates a repo w1 = (Ok (matched, commits), w2) /\ Matcher.Accepted matched <> [] /\
      buildAttachmentDigests a (acceptedTranscriptIDs (Matcher.Accepted matched)) commits (Matcher.Accepted matched) w2 = (Ok d, w3) /\
      reach in_place w3 wq /\ posted a repo d ids wq wp /\
      encode_digest (complete d) = Some encoded /\ reach in_place wp ws /\
      recorded (ID a) (HeadSha a) (optionalInt8 ids.1) (optionalInt8 ids.2) encoded ws wa /\
      among_others still (db w) (db wa) /\
      moved_to (ID a) Attached row wa wt /\ reach any_event wt w'
  end.
Proof.
  intros Hrun. unfold attachAcceptedAndPost in Hrun.
  apply (prefix in_place) in Hrun as [(e&->&?)|(repo&w1&Hrepo&Hrun&Hw1)];
    [by eapply reach_still| |apply emits_resolve_repository; apply _].
  apply (prefix in_place) in Hrun as [(e&->&?)|([matched commits]&w2&Hmatch&Hrun&Hw2)];
    [apply reach_still; by etrans| |apply emits_match; apply _].
  assert (Hto2 : reach in_place w w2) by by etrans.
  destruct (bool_decide _) eqn:Hacc; [injection Hrun as <- <-; by apply reach_still|].
  apply bool_decide_eq_false in Hacc. cbv zeta in Hrun.
  apply (prefix in_place) in Hrun as [(e&->&?)|(d&w3&Hd&Hrun&Hw3)];
    [apply reach_still; by etrans| |apply emits_build; apply _].
  apply (prefix in_place) in Hrun as [(e&->&?)|(_&w4&_&Hrun&Hw4)];
    [apply reach_still; by repeat (etrans; [done|])| |by apply emits_clear; [apply _|]].
  apply (prefix in_place) in Hrun as [(e&->&?)|(_&w5&_&Hrun&Hw5)];
    [apply reach_still; by repeat (etrans; [done|])| |by apply emits_bindings; [apply _|]].
  assert (Hto5 : reach in_place w w5) by (by repeat (etrans; [done|])).
  rewrite M_bind_unfold in Hrun. unfold attempt at 1 in Hrun.
  destruct (postAttachment a repo d false w5) as [post w6] eqn:Hpost.
  assert (Hw6 : reach in_place w5 w6).
  { eapply emits_run; [|exact Hpost]. by apply emits_post; [apply _|]. }
  destruct post as [[comment check]|e].
  2:{ apply (undo_run in_place) in Hrun as [[e' ->] Hw7]; [|done]. apply reach_still. by repeat (etrans; [done|]). }
  apply (prefix in_place) in Hrun as [(e&->&?)|(encoded&w7&Henc&Hrun&Hw7)];
    [apply reach_still; by repeat (etrans; [done|])| |apply emits_from].
  assert (Hto7 : reach in_place w w7) by (by repeat (etrans; [done|])).
  apply record_then_move in Hrun as [(e&->&?)|(row&wa&wt&Hrec&Hmoved&Hrun)]; [apply reach_still; by etrans|].
  apply after_move_run in Hrun as [-> Hrest].
  exists repo, w1, matched, commits, w2, d, w3, encoded, w5, (comment, check), w6, w7, wa, wt. split_and!; try done.
  - by etrans.
  - by eapply post_ok.
  - destruct (encode_digest (complete d)); [|done]. by injection Henc as ->.
  - apply reach_still. etrans; [exact Hto7|]. by eapply recorded_reach.
Qed.

(** Binding one transcript says so in the log, or only looked. *)
Lemma bind_one_run a id position w r w' :
  bindOneTranscript a id position w = (r, w') ->
  match r with
  | Ok _ => exists evs n v, log w' = log w ++ evs /\ EvBound (ID a) id n v ∈ evs
  | Err _ => reach is_read w w'
  end.
Proof.
  unfold bindOneTranscript. intros Hrun.
  assert (Hread : forall A name (f : Db -> result QueryError A), emits is_read (query (read QueryFailed name f))).
  { intros A name f. by apply emits_query, emits_read. }
  apply (prefix is_read) in Hrun as [(e&->&?)|(t&w1&_&Hrun&Hw1)]; [done| |apply Hread].
  destruct (negb _); [by injection Hrun as <- <-|].
  apply (prefix is_read) in Hrun as [(e&->&?)|(_&w2&_&Hrun&Hw2)]; [by etrans| |apply Hread].
  assert (Hw : reach is_read w w2) by by etrans.
  revert Hrun. unfold query. rewrite M_bind_unfold. unfold attempt.
  destruct (tx_bind (ID a) id position w2) as [[u|q] w3] eqn:Ht; intros [= <- <-].
  2:{ etrans; [exact Hw|]. by eapply stmt_err. }
  revert Ht. unfold tx_bind, stmt. cbv zeta. destruct (broken _); [done|]. destruct (transcripts _ !! id); [|done].
  destruct (attachments _ !! ID a); [|done]. destruct (_ || _); [done|]. intros [= <- <-].
  destruct Hw as (evs&Hl&_). simpl. eexists (evs ++ [_]), _, _. rewrite Hl, (assoc_L (++)).
  split; [done|]. apply elem_of_app. right. by apply list_elem_of_singleton.
Qed.

(** Also: idleness: an unforced refresh on the head it already has either binds a
    newly accepted transcript or does nothing but look, so an unrelated publish
    never edits the comment, the check, the digest or the state. *)
Theorem idle_refresh_changes_nothing a repo head w r w' :
  head = "" \/ head = HeadSha a -> refreshAttachedAttachment a repo head false w = (r, w') ->
  exists evs, log w' = log w ++ evs /\
    (Forall (asked_only 0) evs \/ exists t n v, EvBound (ID a) t n v ∈ evs).
Proof.
  intros Hhead Hrun. unfold refreshAttachedAttachment in Hrun.
  assert (Hsame : String.eqb head "" || String.eqb head (HeadSha a) = true).
  { destruct Hhead as [-> | ->]; [done|]. by rewrite String.eqb_refl, orb_true_r. }
  eapply (emits_then (asked_only 0)) in Hrun; [exact Hrun|apply emits_match; apply _| |by left].
  intros [matched commits] w1 evs1 _ Hl1 HP1 Hrun1.
  eapply (emits_then (asked_only 0)) in Hrun1;
    [exact Hrun1|apply emits_query, emits_read_q; apply _| |].
  2:{ intros evs2 HP2. left. by apply Forall_app. }
  intros bound w2 evs2 _ Hl2 HP2 Hrun2. cbv zeta in Hrun2. rewrite Hsame in Hrun2.
  set (newly := List.filter _ _) in Hrun2. destruct newly as [|item rest].
  { injection Hrun2 as <- <-. exists []. rewrite !app_nil_r. split; [done|].
    left. by apply Forall_app. }
  destruct (bool_decide (item :: rest = [])) eqn:Hne.
  { by apply bool_decide_eq_true in Hne. }
  cbn [andb bindAcceptedTranscripts] in Hrun2.
  assert (Hquiet : forall w3, reach is_read w2 w3 -> exists evs', log w3 = log w2 ++ evs' /\
    (Forall (asked_only 0) (evs1 ++ evs2 ++ evs') \/ exists t n v, EvBound (ID a) t n v ∈ evs1 ++ evs2 ++ evs')).
  { intros w3 (evs3&Hl3&HP3&_). exists evs3. split; [done|]. left. rewrite !Forall_app.
    split_and!; [done..|]. eapply Forall_impl; [exact HP3|]. by intros []. }
  rewrite !M_bind_unfold in Hrun2. destruct (parse_uuid _) as [id|]; simpl in Hrun2.
  2:{ injection Hrun2 as <- <-. by apply Hquiet. }
  rewrite !M_bind_unfold in Hrun2.
  destruct (bindOneTranscript a id _ w2) as [[[]|e] w3] eqn:Hbind; apply bind_one_run in Hbind.
  2:{ injection Hrun2 as <- <-. by apply Hquiet. }
  destruct Hbind as (evs3&n&v&Hl3&Hin).
  assert (Hrest : exists evs4, log w' = log w3 ++ evs4).
  { assert (Hany : forall A B (m : M World AttachError A) (f : A -> M World AttachError B) x,
      emits any_event m -> (forall a, emits any_event (f a)) ->
      match m w3 with (Ok a, w4) => f a w4 | (Err e, w4) => (Err e, w4) end = x ->
      exists evs4, log x.2 = log w3 ++ evs4).
    { intros A B m f x Hm Hf Hx. destruct (emits_bind any_event m f Hm Hf w3) as (evs4&Hl4&_).
      rewrite M_bind_unfold, Hx in Hl4. by exists evs4. }
    eapply Hany in Hrun2; [exact Hrun2|by apply (emits_bindings any_event)|]. intros [].
    destruct (bool_decide _ && _); [apply emits_skip|]. apply emits_bind; [apply (emits_build any_event)|]. intros d.
    apply emits_bind; [by apply emits_attempt, (emits_post any_event)|]. intros [[comment check]|e];
      [|by apply (emits_undo any_event)].
    apply emits_bind; [apply emits_from|]. intros encoded.
    apply emits_bind; [by apply (emits_store any_event)|]. intros _.
    apply emits_bind; [by apply (emits_transition any_event)|]. intros _. apply emits_skip. }
  destruct Hrest as [evs4 Hl4]. exists (evs3 ++ evs4). split; [by rewrite Hl4, Hl3, (assoc_L (++))|].
  right. exists id, n, v. rewrite !elem_of_app. by right; right; left.
Qed.

(** Every step that can fail here fails with something other than a post's
    failure. *)
Definition post_error (e : AttachError) : bool :=
  match e with EGitHub | EGitHubUnavailable | ERender => true | _ => false end.

Definition fails_otherwise {A} (m : M World AttachError A) : Prop :=
  forall w e w', m w = (Err e, w') -> post_error e = false.

Lemma otherwise_bind {A B} (m : M World AttachError A) (f : A -> M World AttachError B) :
  fails_otherwise m -> (forall a, fails_otherwise (f a)) -> fails_otherwise (m ≫= f).
Proof.
  intros Hm Hf w e w'. rewrite M_bind_unfold. destruct (m w) as [[a|e1] w1] eqn:Hw; [apply Hf|].
  intros [= <- <-]. by eapply Hm.
Qed.

Lemma otherwise_query {A} (m : M World QueryError A) : fails_otherwise (query m).
Proof.
  intros w e w'. unfold query. rewrite M_bind_unfold. unfold attempt.
  destruct (m w) as [[a|q] w1]; [done|]. by intros [= <- <-].
Qed.

Lemma otherwise_from {A} e (o : option A) : post_error e = false -> fails_otherwise (from e o).
Proof. intros He w e' w'. destruct o; [done|]. by intros [= <- <-]. Qed.

Lemma otherwise_ret {A} (a : A) : fails_otherwise (mret a).
Proof. by intros w e w'. Qed.

Lemma otherwise_throw {A} e : post_error e = false -> fails_otherwise (throw (A:=A) e).
Proof. intros He w e' w'. by intros [= <- <-]. Qed.

Lemma otherwise_bindings a accepted position :
  fails_otherwise (bindAcceptedTranscripts a accepted position).
Proof.
  revert position. induction accepted as [|item rest IH]; intros position; simpl; [apply otherwise_ret|].
  apply otherwise_bind; [by apply otherwise_from|]. intros id. apply otherwise_bind; [|done].
  apply otherwise_bind; [apply otherwise_query|]. intros t. case_match; [by apply otherwise_throw|].
  apply otherwise_bind; [apply otherwise_query|]. intros _. apply otherwise_query.
Qed.

Lemma otherwise_clear a : fails_otherwise (clearEarlierBindings a).
Proof.
  apply otherwise_bind; [apply otherwise_query|]. intros []; [apply otherwise_ret|apply otherwise_query].
Qed.

Lemma otherwise_store id head comment check encoded :
  fails_otherwise (storeAttachmentArtifacts id head comment check encoded).
Proof.
  intros w e w'. unfold storeAttachmentArtifacts, stmt. destruct (broken _); [by intros [= <- <-]|].
  destruct (row_by_id id _) as [row|]; [|by intros [= <- <-]].
  assert (Hp : forall d e, pruned_digest d row encoded = Err e -> post_error e = false).
  { intros d e'. unfold pruned_digest. repeat case_match; intros [= <-]; done. }
  destruct (pruned_digest _ _ _) eqn:Hd; [done|]. intros [= <- <-]. by eapply Hp.
Qed.

Lemma otherwise_transition id next : fails_otherwise (transition id next).
Proof.
  intros w e w'. unfold transition. rewrite M_bind_unfold. unfold attempt.
  destruct (Transition _ _ w) as [[row|t] w1]; [done|]. by intros [= <- <-].
Qed.

(** ** The bindings of one attachment that no other writer touches *)
#[export] Instance quiet_no_binding : Quiet no_binding.
Proof. split; [by intros []|done..]. Qed.

Section alone.
Context (id : Z)
  (Halone : forall l d t, bindings (interfere l d) !! (id, t) = bindings d !! (id, t)).

Lemma no_binding_keeps {E A} (m : M World E A) w r w' t :
  emits no_binding m -> m w = (r, w') ->
  bindings (db w') !! (id, t) = bindings (db w) !! (id, t).
Proof.
  intros Hm Hrun. destruct (Hm w) as (evs&_&Hevs&Hg). rewrite Hrun in Hg. simpl in Hg.
  eapply (did_keeps (fun d => bindings d !! (id, t) = bindings (db w) !! (id, t))); [| |done|done].
  - intros l d <-. apply Halone.
  - intros d1 d2 _ Hb <-. by rewrite Hb.
Qed.

Lemma clear_run a w w' t :
  ID a = id -> clearEarlierBindings a w = (Ok tt, w') -> bindings (db w') !! (id, t) = None.
Proof.
  intros <-. unfold clearEarlierBindings. intros (found&w1&Hq%query_ok_inv&Hrun)%bind_ok_inv.
  unfold sql_list_bindings, read, stmt in Hq. destruct (broken _); [done|]. injection Hq as <- <-.
  set (d := interfere (log w) (db w)) in *.
  destruct (bindings_of (ID a) d) as [|b bs] eqn:Hb.
  - injection Hrun as <-. simpl. destruct (bindings d !! (ID a, t)) as [b|] eqn:Hlook; [|done].
    assert (Hin : b ∈ bindings_of (ID a) d); [|rewrite Hb in Hin; by apply elem_of_nil in Hin].
    unfold bindings_of. rewrite elem_of_sort_stable. apply list_elem_of_fmap.
    exists (ID a, t, b). split; [done|]. apply elem_of_list_filter.
    split; [by apply elem_of_map_to_list|by apply Z.eqb_eq].
  - apply query_ok_inv in Hrun. unfold sql_clear, stmt in Hrun. simpl in Hrun.
    destruct (broken _); [done|]. injection Hrun as <-. simpl.
    apply map_lookup_filter_None. right. intros x _ Hx. by apply Hx.
Qed.

Lemma bind_keys a accepted position w w' t :
  ID a = id -> bindAcceptedTranscripts a accepted position w = (Ok tt, w') ->
  t ∉ omap parse_uuid (acceptedTranscriptIDs accepted) ->
  bindings (db w') !! (id, t) = bindings (db w) !! (id, t).
Proof.
  intros Hid. revert position w. induction accepted as [|item rest IH]; intros position w Hrun Ht.
  { by injection Hrun as <-. }
  simpl in Hrun. apply bind_ok_inv in Hrun as (u&w1&Hparse&Hrun).
  apply bind_ok_inv in Hrun as ([]&w2&Hone&Hrun).
  unfold acceptedTranscriptIDs in Ht. rewrite fmap_cons, omap_cons_eq in Ht.
  destruct (parse_uuid (Matcher.AcceptedID item)) as [u'|]; [|done].
  injection Hparse as -> <-. apply not_elem_of_cons in Ht as [Hne Ht].
  rewrite (IH _ _ Hrun Ht). revert Hone. unfold bindOneTranscript.
  intros (tr&w3&Hget&Hone)%bind_ok_inv.
  apply (no_binding_keeps _ _ _ _ t) in Hget; [|apply emits_query, emits_read_q; apply _].
  destruct (negb _); [done|]. apply bind_ok_inv in Hone as (x&w4&Hlock&Hone).
  apply (no_binding_keeps _ _ _ _ t) in Hlock; [|apply emits_query, emits_read_q; apply _].
  apply query_ok_inv in Hone. unfold tx_bind, stmt in Hone. cbv zeta in Hone.
  rewrite <- Hget, <- Hlock, <- (Halone (log w4) (db w4)).
  destruct (broken _); [done|]. destruct (transcripts _ !! u); [|done].
  destruct (attachments _ !! ID a); [|done]. destruct (_ || _); [done|]. injection Hone as <-. simpl.
  rewrite lookup_insert_ne; [done|]. intros [= _ <-]. done.
Qed.

Lemma unbind_keys ids w w' t b :
  unbindTranscripts id ids w = (Ok tt, w') -> bindings (db w') !! (id, t) = Some b ->
  bindings (db w) !! (id, t) = Some b /\ t ∉ omap parse_uuid ids.
Proof.
  revert w. induction ids as [|u ids IH]; intros w Hrun Hb.
  { injection Hrun as <-. split; [done|apply not_elem_of_nil]. }
  simpl in Hrun. apply bind_ok_inv in Hrun as (p&w1&Hparse&Hrun).
  apply bind_ok_inv in Hrun as ([]&w2&Hone%query_ok_inv&Hrun).
  destruct (IH _ Hrun Hb) as [Hb2 Ht]. rewrite omap_cons_eq.
  destruct (parse_uuid u) as [p'|]; [|done]. injection Hparse as -> <-.
  unfold sql_unbind, stmt in Hone. destruct (broken _); [done|]. injection Hone as <-. simpl in Hb2.
  destruct (decide (t = p)) as [->|Hne]; [by rewrite lookup_delete_eq in Hb2|].
  rewrite lookup_delete_ne in Hb2 by congruence. rewrite Halone in Hb2.
  split; [done|]. apply not_elem_of_cons. by split.
Qed.
End alone.

(** Also: failure is undone: when an attach fails because its digest could not be
    rendered or GitHub could not be reached or refused, no binding it made is
    left, as long as no other writer touches this attachment's bindings: a
    binding that is there afterwards was there before. *)
Theorem failed_post_leaves_no_binding a w e w' t b :
  (forall l d t, bindings (interfere l d) !! (ID a, t) = bindings d !! (ID a, t)) ->
  attachAcceptedAndPost a w = (Err e, w') -> post_error e = true ->
  bindings (db w') !! (ID a, t) = Some b -> bindings (db w) !! (ID a, t) = Some b.
Proof.
  intros Halone Hrun He Hb. unfold attachAcceptedAndPost in Hrun.
  assert (Hstep : forall A B (m : M World AttachError A) (f : A -> M World AttachError B) w0,
    emits no_binding m -> bindings (db w0) !! (ID a, t) = bindings (db w) !! (ID a, t) ->
    (m ≫= f) w0 = (Err e, w') -> bindings (db w) !! (ID a, t) = Some b \/
    exists x w1, f x w1 = (Err e, w') /\ bindings (db w1) !! (ID a, t) = bindings (db w) !! (ID a, t)).
  { intros A B m f w0 Hm Hw0. rewrite M_bind_unfold. destruct (m w0) as [[x|e1] w1] eqn:Hm1;
      apply (no_binding_keeps (ID a) Halone _ _ _ _ t) in Hm1; try done; intros Hf.
    - right. exists x, w1. split; [done|congruence].
    - left. injection Hf as <- <-. congruence. }
  apply Hstep in Hrun as [?|(repo&w1&Hrun&Hw1)]; [done| |apply emits_resolve_repository; apply _|done].
  apply Hstep in Hrun as [?|([matched commits]&w2&Hrun&Hw2)]; [done| |apply emits_match; apply _|done].
  destruct (bool_decide _); [injection Hrun as <- <-; done|]. cbv zeta in Hrun.
  apply Hstep in Hrun as [?|(d&w3&Hrun&Hw3)]; [done| |apply emits_build; apply _|done].
  rewrite M_bind_unfold in Hrun. destruct (clearEarlierBindings a w3) as [[[]|e1] w4] eqn:Hclear.
  2:{ injection Hrun as -> ->. apply otherwise_clear in Hclear. congruence. }
  pose proof (fun t => clear_run (ID a) Halone a w3 w4 t eq_refl Hclear) as Hnone.
  rewrite M_bind_unfold in Hrun.
  destruct (bindAcceptedTranscripts a _ 0 w4) as [[[]|e1] w5] eqn:Hbind.
  2:{ injection Hrun as -> ->. apply otherwise_bindings in Hbind. congruence. }
  rewrite M_bind_unfold in Hrun. unfold attempt at 1 in Hrun.
  destruct (postAttachment a repo d false w5) as [[[comment check]|e1] w6] eqn:Hpost.
  - exfalso. revert Hrun.
    assert (Ho : forall m : M World AttachError Row, fails_otherwise m -> m w6 = (Err e, w') -> False).
    { intros m Hm Hr. apply Hm in Hr. congruence. }
    apply Ho. apply otherwise_bind; [by apply otherwise_from|]. intros encoded.
    apply otherwise_bind; [apply otherwise_store|]. intros _.
    apply otherwise_bind; [apply otherwise_transition|]. intros updated.
    intros w7 e7 w8. rewrite M_bind_unfold. destruct (moved_since_total d w7) as (m&w9&->).
    rewrite M_bind_unfold. destruct m; [|done]. rewrite M_bind_unfold. unfold attempt.
    by destruct (refreshAttachedAttachment _ _ _ _ w9).
  - unfold undo_bindings in Hrun. rewrite M_bind_unfold in Hrun. unfold attempt in Hrun.
    destruct (unbindTranscripts _ _ w6) as [[[]|e2] w7] eqn:Hunbind; injection Hrun as <- <-; [|done].
    eapply unbind_keys in Hb as [Hb Ht]; [|done..].
    apply (no_binding_keeps (ID a) Halone _ _ _ _ t) in Hpost; [|by apply emits_post; [apply _|]].
    rewrite Hpost in Hb. rewrite (bind_keys (ID a) Halone a _ 0 w4 w5 t eq_refl Hbind Ht) in Hb.
    by rewrite Hnone in Hb.
Qed.

(** Also: a stored digest never brings back a deleted transcript: what is recorded
    after a post names only transcripts that exist and belong to the attachment's
    author at the moment of the write, and the recorded head and ids are the ones
    given; the state is not touched. *)
Theorem stored_digest_names_live_transcripts id head comment check encoded w w' :
  (forall d e, encode_digest d = Some e -> decode_digest e = Some d /\ e <> "") ->
  storeAttachmentArtifacts id head comment check encoded w = (Ok tt, w') ->
  exists before row, attachments (interfere (log w) (db w)) !! id = Some before /\
    attachments (db w') !! id = Some row /\
    HeadSha row = head /\ CommentID row = comment /\ CheckRunID row = check /\
    RowState row = RowState before /\
    (encoded = "" -> StoredDigest row = "") /\
    (encoded <> "" -> exists stored, decode_digest (StoredDigest row) = Some stored /\
      forall i, i ∈ Digest.Items stored -> exists t,
        transcripts (db w') !! Digest.ItemTranscript i = Some t /\ OwnerID t = AuthorID row).
Proof.
  intros Hcodec. unfold storeAttachmentArtifacts, stmt. destruct (broken _); [done|].
  set (d := interfere (log w) (db w)). destruct (row_by_id id d) as [before|] eqn:Hbefore; [|done].
  apply row_by_id_some in Hbefore as [Hbefore _].
  destruct (pruned_digest d before encoded) as [pruned|] eqn:Hp; [|done]. intros [= <-]. simpl.
  exists before. eexists. split; [done|]. split; [apply lookup_insert_eq|]. simpl.
  split_and!; try done; unfold pruned_digest in Hp.
  - intros ->. by injection Hp as <-.
  - intros Hne%String.eqb_neq. rewrite Hne in Hp.
    destruct (decode_digest encoded) as [stored|]; [|done].
    destruct (mapM parse_uuid _) as [ids|]; [|done].
    destruct (Digest.Restrict _ _ _) as [narrowed|] eqn:Hr; [|done].
    destruct (encode_digest narrowed) as [e|] eqn:Henc; [|done]. injection Hp as <-.
    exists narrowed. split; [by apply Hcodec|]. intros i Hi.
    pose proof (Digest.Restrict_keeps _ _ _ _ _ Hr Hi) as Hk. unfold live_owned in Hk.
    apply andb_true_iff in Hk as [_ Hk].
    destruct (transcripts d !! Digest.ItemTranscript i) as [t|]; [|done].
    exists t. split; [done|]. by apply Z.eqb_eq.
Qed.

(** ** The rows of a post *)
Definition row_hides (row : Render.Row) : Prop :=
  Render.Listed row = false -> Render.Title row = "" /\ Render.URL row = "".

Lemma gather_one_rows anchors id g w g' w' :
  gather_one anchors id g w = (Ok g', w') -> exists tr author,
    g_rows g' = g_rows g ++ [digest_row tr id author] /\
    g_visibility g' = <[id := Visibility tr]> (g_visibility g).
Proof.
  unfold gather_one. intros (uuid&w1&_&(tr&w2&_&(turns&w3&_&(author&w4&_&Hrun)%bind_ok_inv)%bind_ok_inv)%bind_ok_inv)%bind_ok_inv.
  cbv zeta in Hrun. apply bind_ok_inv in Hrun as (reads&w5&_&Hret). injection Hret as <- <-.
  by exists tr, author.
Qed.

Lemma gather_rows anchors ids g w g' w' :
  gather anchors ids g w = (Ok g', w') -> Forall row_hides (g_rows g) ->
  Forall row_hides (g_rows g') /\
  (Render.RowTranscript <$> g_rows g') = (Render.RowTranscript <$> g_rows g) ++ ids.
Proof.
  revert g w. induction ids as [|id ids IH]; intros g w Hrun Hg.
  { injection Hrun as <- <-. by rewrite app_nil_r. }
  simpl in Hrun. apply bind_ok_inv in Hrun as (g1&w1&(tr&author&Hrows&_)%gather_one_rows&Hrun).
  destruct (IH _ _ Hrun) as [Hh Ht].
  { rewrite Hrows. apply Forall_app. split; [done|]. constructor; [|constructor].
    unfold row_hides, digest_row. by destruct (listedOnPullRequest _). }
  split; [done|]. rewrite Ht, Hrows, fmap_app, <- (assoc_L (++)). f_equal. simpl.
  unfold digest_row. by destruct (listedOnPullRequest _).
Qed.

(** Each row is listed exactly when the visibility recorded for it is public,
    when no transcript is given twice. *)
Lemma gather_listed anchors ids g w g' w' :
  gather anchors ids g w = (Ok g', w') -> NoDup ids ->
  (forall row, row ∈ g_rows g' -> row ∈ g_rows g \/
    exists v, g_visibility g' !! Render.RowTranscript row = Some v /\
      Render.Listed row = listedOnPullRequest v) /\
  (forall t, t ∉ ids -> g_visibility g' !! t = g_visibility g !! t).
Proof.
  revert g w. induction ids as [|id ids IH]; intros g w Hrun Hnd.
  { injection Hrun as <- <-. split; [by left|done]. }
  simpl in Hrun. apply bind_ok_inv in Hrun as (g1&w1&(tr&author&Hrows&Hvis)%gather_one_rows&Hrun).
  apply NoDup_cons in Hnd as [Hnin Hnd]. destruct (IH _ _ Hrun Hnd) as [Hr Hv]. split.
  - intros row Hrow. destruct (Hr row Hrow) as [Hin|?]; [|by right].
    rewrite Hrows in Hin. apply elem_of_app in Hin as [?| ->%list_elem_of_singleton]; [by left|right].
    exists (Visibility tr). split; [|by unfold digest_row; destruct (listedOnPullRequest _)].
    assert (Render.RowTranscript (digest_row tr id author) = id) as ->
      by (by unfold digest_row; destruct (listedOnPullRequest _)).
    rewrite Hv by done. by rewrite Hvis, lookup_insert_eq.
  - intros t Ht. apply not_elem_of_cons in Ht as [Hne Ht]. rewrite Hv by done.
    rewrite Hvis. by rewrite lookup_insert_ne.
Qed.

(** Also: the pull request's comment and check say of a transcript that is not
    public nothing but its author and commits: the digests carry one row per
    transcript in order, listed exactly when the visibility read for it is
    public, and an unlisted row holds neither title nor page. *)
Theorem digest_rows_list_only_public a ids commits accepted w d w' :
  buildAttachmentDigests a ids commits accepted w = (Ok d, w') -> NoDup ids ->
  (Render.RowTranscript <$> rows d) = ids /\
  forall row, row ∈ rows d ->
    (Render.Listed row = false -> Render.Title row = "" /\ Render.URL row = "") /\
    exists v, visibility d !! Render.RowTranscript row = Some v /\
      (Render.Listed row = true <-> v = dbVisibilityPublic).
Proof.
  intros Hrun Hnd. unfold buildAttachmentDigests in Hrun. apply bind_ok_inv in Hrun as (g&w1&Hg&Hrun).
  pose proof (gather_rows _ _ _ _ _ _ Hg (Forall_nil_2 _)) as [Hh Ht].
  pose proof (gather_listed _ _ _ _ _ _ Hg Hnd) as [Hl _].
  destruct (Digest.Build _ _ _) as [built|]; [|done]. injection Hrun as <- <-. simpl.
  split; [done|]. intros row Hrow. split.
  - rewrite Forall_forall in Hh. by apply Hh.
  - destruct (Hl row Hrow) as [Hnil|(v&Hv&Hlisted)]; [by apply elem_of_nil in Hnil|].
    exists v. split; [done|]. rewrite Hlisted. unfold listedOnPullRequest. apply String.eqb_eq.
Qed.

(** ** The routes *)

(** Also: the author's routes: no one but the author gets past the load. Whoever
    is not signed in, asks for a malformed or unknown target or is not the author
    is answered 401, 400, 403, 404 or 500 after reads alone. *)
Theorem routes_are_for_the_author act owner name number user w status row w' :
  action_route act owner name number user w = (Ok (status, row), w') ->
  (row = None /\ reach is_read w w' /\ status ∈ [401; 400; 403; 404; 500]) \/
  exists u attachment w1, user = Some u /\ AuthorID attachment = u /\ reach is_read w w1 /\
    loadAttachmentForAction owner name number u w = (Ok (inl attachment), w1).
Proof.
  unfold action_route. destruct user as [u|].
  2:{ intros [= <- <- <-]. left. split_and!; [done| |set_solver]. done. }
  intros (loaded&w1&Hload&Hrun)%bind_ok_inv.
  assert (Hl : reach is_read w w1 /\ match loaded with
    | inl a => AuthorID a = u | inr status => status ∈ [400; 403; 404; 500] end).
  { unfold loadAttachmentForAction in Hload. destruct (pullRequestTarget _ _ _) as [[[o n] num]|].
    2:{ injection Hload as <- <-. split; [done|set_solver]. }
    rewrite M_bind_unfold in Hload. unfold attempt in Hload.
    destruct (sql_get_for_pull _ _ _ w) as [r w2] eqn:Hget.
    assert (Hw2 : reach is_read w w2) by (eapply emits_run; [|exact Hget]; by apply emits_read).
    destruct r as [a|[]]; [destruct (Z.eqb_spec (AuthorID a) u)|..]; injection Hload as <- <-;
      (split; [done|]); [done|set_solver..]. }
  destruct Hl as [Hread Hl]. destruct loaded as [a|st].
  - right. by exists u, a, w1.
  - injection Hrun as <- <- <-. left. split_and!; [done..|set_solver].
Qed.

(** Also: a pull request number beyond 32 bits is not refused but truncated: the
    page of pull request 4294967299 answers for pull request 3. *)
Theorem pull_number_is_truncated owner name user :
  loadAttachmentForAction owner name "4294967299" user = loadAttachmentForAction owner name "3" user.
Proof.
  unfold loadAttachmentForAction, pullRequestTarget.
  assert (trim_space "4294967299" = "4294967299") as -> by by_compute.
  assert (trim_space "3" = "3") as -> by by_compute.
  assert (atoi "4294967299" = Some 4294967299) as -> by by_compute.
  assert (atoi "3" = Some 3) as -> by by_compute.
  change (wrap32 4294967299) with (wrap32 3).
  by destruct (String.eqb (trim_space owner) ""), (String.eqb (trim_space name) "").
Qed.

(** ** What a failed refresh leaves behind *)
Definition no_unbind (e : Event) : Prop := match e with EvUnbound _ _ => False | _ => True end.
#[export] Instance quiet_no_unbind : Quiet no_unbind.
Proof. split; [by intros []|done..]. Qed.

Lemma post_fails a repo d changed w e w' :
  postAttachment a repo d changed w = (Err e, w') -> post_error e = true.
Proof.
  assert (Hbind : forall A B (m : M World AttachError A) (f : A -> M World AttachError B),
    (forall w e w', m w = (Err e, w') -> post_error e = true) ->
    (forall x w e w', f x w = (Err e, w') -> post_error e = true) ->
    forall w e w', (m ≫= f) w = (Err e, w') -> post_error e = true).
  { intros A B m f Hm Hf w0 e0 w0'. rewrite M_bind_unfold.
    destruct (m w0) as [[x|e1] w1] eqn:Hw; [apply Hf|]. intros [= <- <-]. by eapply Hm. }
  assert (Hrender : forall tier w e w', render d tier w = (Err e, w') -> post_error e = true).
  { intros tier w0 e0 w0'. unfold render. case_match; [done|]. by intros [= <- <-]. }
  assert (Hfail : forall A (m : M World GitHub.GhError A) w e w',
    failing EGitHub m w = (Err e, w') -> post_error e = true).
  { intros A m w0 e0 w0'. unfold failing. rewrite M_bind_unfold. unfold attempt.
    destruct (m w0) as [[x|e1] w1]; [done|]. by intros [= <- <-]. }
  unfold postAttachment. destruct (negb _); [done|]. destruct (negb _); [by intros [= <- <-]|].
  revert w e w'. apply Hbind; [apply Hrender|]. intros rendered. apply Hbind; [apply Hrender|].
  intros summarised. cbv zeta. apply Hbind.
  { intros w e w'. unfold needs_new_run. destruct (CheckRunID a) as [run|]; [|done].
    destruct changed; [done|]. rewrite M_bind_unfold. unfold attempt.
    destruct (GitHub.GetCheckRun _ _ _ _ _ _ w) as [[found|e1] w1]; [done|].
    destruct (GitHub.IsNotFound e1); [done|]. by intros [= <- <-]. }
  intros create. apply Hbind; [apply Hfail|]. intros run. apply Hbind; [apply Hfail|]. by intros posted.
Qed.

(** Also: only a failed post removes the bindings a refresh made. A refresh that
    fails for any other reason, after it bound newly accepted transcripts, leaves
    them bound though nothing was posted for them. *)
Theorem refresh_undoes_only_a_failed_post a repo head force w e w' :
  refreshAttachedAttachment a repo head force w = (Err e, w') ->
  post_error e = false -> (forall e', e <> EKeptBindings e') ->
  exists evs, log w' = log w ++ evs /\ Forall no_unbind evs.
Proof.
  intros Hrun He Hkept. apply reach_log. unfold refreshAttachedAttachment in Hrun.
  apply (prefix no_unbind) in Hrun as [(e0&_&?)|([matched commits]&w1&_&Hrun&Hw1)];
    [done| |apply emits_match; apply _].
  apply (prefix no_unbind) in Hrun as [(e0&_&?)|(bound&w2&_&Hrun&Hw2)];
    [by etrans| |apply emits_query, emits_read_q; apply _].
  cbv zeta in Hrun. destruct (_ && _); [done|].
  apply (prefix no_unbind) in Hrun as [(e0&_&?)|(_&w3&_&Hrun&Hw3)];
    [by repeat (etrans; [done|])| |by apply emits_bindings; [apply _|]].
  destruct (_ && _); [done|].
  apply (prefix no_unbind) in Hrun as [(e0&_&?)|(d&w4&_&Hrun&Hw4)];
    [by repeat (etrans; [done|])| |apply emits_build; apply _].
  rewrite M_bind_unfold in Hrun. unfold attempt at 1 in Hrun.
  set (scoped := row_with_head _ _) in Hrun.
  destruct (postAttachment scoped repo d _ w4) as [[[comment check]|e1] w5] eqn:Hpost.
  - apply (emits_run no_unbind) in Hpost; [|by apply emits_post; [apply _|]].
    repeat (etrans; [done|]). eapply (emits_run no_unbind); [|exact Hrun].
    apply emits_bind; [apply emits_from|]. intros encoded.
    apply emits_bind; [by apply emits_store; [apply _|]|]. intros _.
    apply emits_bind; [by apply emits_transition; [apply _|]|]. intros _. apply emits_skip.
  - exfalso. apply post_fails in Hpost. unfold undo_bindings in Hrun. rewrite M_bind_unfold in Hrun.
    unfold attempt in Hrun. destruct (unbindTranscripts _ _ w5) as [[] w6].
    + injection Hrun as <- _. congruence.
    + injection Hrun as <- _. by eapply Hkept.
Qed.

(** Also: the restore rule never widens: it answers the narrower of the two known
    tiers, and leaves a tier it does not know alone. *)
Theorem restore_never_widens current recorded :
  let v := narrowestVisibility current recorded in
  (disclosureRank v <= disclosureRank current) /\
  (disclosureRank current = 3 -> v = current) /\
  (disclosureRank current < 3 -> disclosureRank v = Z.min (disclosureRank recorded) (disclosureRank current)) /\
  (v = current \/ v = recorded).
Proof.
  unfold narrowestVisibility.
  assert (Hrank : forall s, 0 <= disclosureRank s <= 3) by (intros s; unfold disclosureRank; repeat case_match; lia).
  pose proof (Hrank current). pose proof (Hrank recorded).
  destruct (Z.leb_spec 3 (disclosureRank current)); [split_and!; (done || lia || (intros; exfalso; lia) || by left)|].
  destruct (Z.ltb_spec (disclosureRank recorded) (disclosureRank current)) as [Hlt|Hge].
  - split_and!; [lia|intros; lia|lia|by right].
  - split_and!; [lia|intros; lia|lia|by left].
Qed.
End laws.

(** ** A concrete village

    One collective that linked acme/app, one author with a public and a private
    transcript that share the pull request's commits, and a GitHub that accepts
    everything ([calm]) or refuses comments ([refusing]). *)
Definition sha1 : string := "aaaaaaaaaaaaaaaaaaaaaaaaaaaaaaaaaaaaaaaa".
Definition sha2 : string := "bbbbbbbbbbbbbbbbbbbbbbbbbbbbbbbbbbbbbbbb".

#[local] Instance demo_wire : GitHub.Wire := {|
  GitHub.decode_token _ := Some ("tok", 1000000000000);
  GitHub.decode_repository _ := None;
  GitHub.decode_comment _ := Some (GitHub.mkComment 71 "" "");
  GitHub.decode_check_run _ := Some (GitHub.mkCheckRun sha1 72 "" "completed" "success");
  GitHub.decode_pull _ := Some (GitHub.mkPullResponse 3 "Fix" sha1 "fix" 9 "app" "acme/app" 9 "app" 501 "open");
  GitHub.decode_commits _ := Some ((fun sha => GitHub.mkCommit sha "" "" "" 0 0) <$> [sha1; sha2]);
  GitHub.decode_login _ := Some "bob";
  GitHub.decode_permission _ := Some "read";
  GitHub.parse_url _ := Some ("https", "village");
  GitHub.sign_jwt _ _ _ := Some "jwt"
|}.

Definition answers (refuse : bool) (_ : list Event) (req : GitHub.Request) : result unit GitHub.Response :=
  match GitHub.Payload req with
  | Some (GitHub.JObj [_]) =>
    if refuse then Ok (GitHub.mkResponse 503 "" "" "") else Ok (GitHub.mkResponse 201 "" "" "")
  | _ => Ok (GitHub.mkResponse 200 "" "" "")
  end.

Definition env_of (refuse : bool) : Env := {|
  interfere _ d := d;
  broken _ := false;
  service := answers refuse;
  clock _ := 5;
  meanwhile _ m := m;
  awaited _ _ := None;
  patient _ := true
|}.

Definition demo_transcript (id visibility sha : string) (start : Z) : TranscriptRow :=
  mkTranscriptRow id 1 ("local-" +:+ id) visibility (Some ("Title of " +:+ id)) "codex" (Some start)
    "https://github.com/acme/app.git" "fix" [Matcher.mkRecordedCommit sha (start + 5) None None None].

Definition demo_attachment (state : string) : Row :=
  mkRow 7 (Some 1) "acme" "app" 9 3 sha1 "acme/app" "acme/app" 1 None state None None
    (Some 1) None None None None "" 1 1.

Definition demo_db (state : string) : Db :=
  mkDb {[7 := demo_attachment state]} ∅
    (<["t1" := demo_transcript "t1" "public" sha1 10]>
      {["t2" := demo_transcript "t2" "private" sha2 20]})
    {[1 := mkUser 1 "alice" true "github" "501" None None true]}
    {[1 := mkGroup "informational" true]}
    [mkLink 1 1 "acme" "app" 42 false (Some 1)] [] [mkMember 1 1 "owner" "creator"] 8 100.

Definition demo_world (state : string) : World := mkWorld (demo_db state) ∅ Access.no_memory [].

(** The digest column's codec, as far as the example goes. *)
Definition demo_digest : Digest.PromptDigest :=
  @Digest.build_core ascii_tables (fun _ l => l) (Digest.mkInput "https://village/pulls/acme/app/3"
    [sha1; sha2]
    [Digest.mkSession "t1" "codex" "standard" 10 [Digest.mkTurn 0 Digest.RoleUser "do it" 11 None];
     Digest.mkSession "t2" "codex" "standard" 20 [Digest.mkTurn 0 Digest.RoleUser "do it" 11 None]]
    [Digest.mkCommitMatch "t1" sha1 15 None None None; Digest.mkCommitMatch "t2" sha2 25 None None None]).

#[local] Instance demo_deps : Deps := {|
  read_turns _ _ := Some [Digest.mkTurn 0 Digest.RoleUser "do it" 11 None];
  encode_digest d := if @bool_decide (d = demo_digest) (Digest.prompt_digest_eq_dec _ _) then Some "digest" else None;
  decode_digest e := if String.eqb e "digest" then Some demo_digest else None;
  validate _ := true;
  range_orders _ l := l;
  parse_uuid := Some;
  uuid_text := itoa;
  FrontendURL := "https://village/";
  AppID := "app";
  ApiURL := "https://api";
  gh_configured := true
|}.

(** A reader whose stored content cannot be read. *)
#[local] Instance unreadable_deps : Deps := {|
  read_turns _ _ := None;
  encode_digest := @encode_digest demo_deps;
  decode_digest := @decode_digest demo_deps;
  validate _ := true;
  range_orders _ l := l;
  parse_uuid := Some;
  uuid_text := itoa;
  FrontendURL := "https://village/";
  AppID := "app";
  ApiURL := "https://api";
  gh_configured := true
|}.

Definition demo_repo : attachmentRepository := mkRepo 1 42 false Informational true.

Definition is_bound (e : Event) : bool := match e with EvBound _ _ _ _ => true | _ => false end.
Definition is_posted (e : Event) : bool :=
  match e with EvHttp req _ => is_some_b (GitHub.Payload req) | _ => false end.

Lemma keeps_audience_witness :
  audience (db (@perform (env_of false) ascii_tables demo_wire demo_deps
    (OpConfirm "acme" "app" "3" (Some 1)) (demo_world "preview")).2) = audience (demo_db "preview").
Proof.
  exact (@lifecycle_keeps_audience (env_of false) ascii_tables demo_wire demo_deps
    (OpConfirm "acme" "app" "3" (Some 1)) (demo_world "preview") (fun l d => eq_refl)).
Defined.

Lemma author_click_witness :
  exists evs, log (@authorAttachOrPreview (env_of false) ascii_tables demo_wire demo_deps
    (demo_attachment "requested") demo_repo sha1 false (demo_world "requested")).2 = evs /\
    length (List.filter is_posted evs) = 1%nat /\ Forall (@preview_only demo_deps (demo_attachment "requested")) evs.
Proof.
  destruct (@author_click_previews_only (env_of false) ascii_tables demo_wire demo_deps
    (demo_attachment "requested") demo_repo sha1 false (demo_world "requested") _ _
    ltac:(discriminate) (or_introl eq_refl) (surjective_pairing _)) as (evs&Hl&HP).
  exists evs. split; [exact Hl|]. split; [|exact HP].
  rewrite <- (app_nil_l evs). change (@nil Event) with (log (demo_world "requested")). rewrite <- Hl.
  vm_compute. reflexivity.
Defined.

(** Somebody else asks: the request is recorded, on the attachment of the pull
    request, after reads. *)
Lemma command_witness :
  let w := demo_world "requested" in
  let w' := (@applyPromptCommand (env_of false) ascii_tables demo_wire demo_deps "attach" "acme" "app" 3 600 "MEMBER" w).2 in
  @reach (env_of false) looking w w' \/
  @on_pull (env_of false) ascii_tables "acme" "app" 3 w w' /\
    (@reach (env_of false) (asked_only 600) w w' \/ @reported_author demo_wire demo_deps "acme" "app" 3 600 w w').
Proof.
  exact (@command_acts_for_author_only (env_of false) ascii_tables demo_wire demo_deps
    "attach" "acme" "app" 3 600 "MEMBER" (demo_world "requested") _ _ (surjective_pairing _)).
Defined.

Lemma attach_posts_witness :
  exists row w', @attachAcceptedAndPost (env_of false) ascii_tables demo_wire demo_deps
    (demo_attachment "preview") (demo_world "preview") = (Ok row, w') /\
  exists repo d ids wq wp wa wt, postCheck repo = true /\ @posted ascii_tables demo_wire demo_deps (demo_attachment "preview") repo d ids wq wp /\
    @among_others (env_of false) still (demo_db "preview") (db wa) /\ @moved_to (env_of false) 7 Attached row wa wt /\
    @reach (env_of false) any_event wt w'.
Proof.
  destruct (@attachAcceptedAndPost (env_of false) ascii_tables demo_wire demo_deps
    (demo_attachment "preview") (demo_world "preview")) as [[row|e] w'] eqn:Hrun.
  - exists row, w'. split; [reflexivity|].
    destruct (@attach_posts_before_it_moves (env_of false) ascii_tables demo_wire demo_deps
      (demo_attachment "preview") (demo_world "preview") (Ok row) w' Hrun)
      as (repo&w1&matched&commits&w2&d&w3&encoded&wq&ids&wp&ws&wa&wt&Hrepo&_&_&_&_&Hposted&_&_&_&Hstill&Hmoved&Hafter).
    exists repo, d, ids, wq, wp, wa, wt. split; [|split; [exact Hposted|split; [exact Hstill|split; [exact Hmoved|exact Hafter]]]].
    revert Hrepo. vm_compute. intros [= <- _]. reflexivity.
  - exfalso. revert Hrun. vm_compute. discriminate.
Defined.

Definition bound_db : Db :=
  set_bindings {[(7, "t1") := mkBinding "t1" 0 "public"]} (demo_db "attached").

Lemma idle_refresh_witness :
  exists evs, log (@refreshAttachedAttachment (env_of false) ascii_tables demo_wire demo_deps
    (demo_attachment "attached") demo_repo sha1 false (mkWorld bound_db ∅ Access.no_memory [])).2 = evs /\
    (Forall (asked_only 0) evs \/ exists t n v, EvBound 7 t n v ∈ evs).
Proof.
  destruct (@idle_refresh_changes_nothing (env_of false) ascii_tables demo_wire demo_deps
    (demo_attachment "attached") demo_repo sha1 (mkWorld bound_db ∅ Access.no_memory []) _ _
    (or_intror eq_refl) (surjective_pairing _)) as (evs&Hl&HP).
  exists evs. split; [exact Hl|exact HP].
Defined.

Lemma failed_post_witness :
  (@attachAcceptedAndPost (env_of true) ascii_tables demo_wire demo_deps
    (demo_attachment "preview") (demo_world "preview")).1 = Err EGitHub /\
  forall b, bindings (db (@attachAcceptedAndPost (env_of true) ascii_tables demo_wire demo_deps
    (demo_attachment "preview") (demo_world "preview")).2) !! (7, "t1") = Some b -> False.
Proof.
  split; [vm_compute; reflexivity|]. intros b Hb.
  pose proof (@failed_post_leaves_no_binding (env_of true) ascii_tables demo_wire demo_deps
    (demo_attachment "preview") (demo_world "preview") EGitHub
    (@attachAcceptedAndPost (env_of true) ascii_tables demo_wire demo_deps
      (demo_attachment "preview") (demo_world "preview")).2 "t1" b (fun l d t => eq_refl)
    ltac:(vm_compute; reflexivity) eq_refl Hb) as Hbefore.
  vm_compute in Hbefore. discriminate.
Defined.

Lemma stored_digest_witness :
  exists row, attachments (db (@storeAttachmentArtifacts (env_of false) demo_deps 7 sha1 (Some 71)
    (Some 72) "digest" (demo_world "preview")).2) !! 7 = Some row /\ HeadSha row = sha1.
Proof.
  destruct (@stored_digest_names_live_transcripts (env_of false) demo_deps 7 sha1 (Some 71)
    (Some 72) "digest" (demo_world "preview")
    (@storeAttachmentArtifacts (env_of false) demo_deps 7 sha1 (Some 71)
      (Some 72) "digest" (demo_world "preview")).2)
    as (before&row&_&Hrow&Hhead&_).
  - intros d e. simpl. case_bool_decide as Hd; [|discriminate]. intros [= <-].
    split; [rewrite Hd; reflexivity|discriminate].
  - vm_compute. reflexivity.
  - exists row. split; [exact Hrow|exact Hhead].
Defined.

Lemma digest_rows_witness :
  exists d w', @buildAttachmentDigests (env_of false) ascii_tables demo_deps
    (demo_attachment "preview") ["t1"; "t2"] [sha1; sha2] [] (demo_world "preview") = (Ok d, w') /\
    (Render.RowTranscript <$> rows d) = ["t1"; "t2"].
Proof.
  destruct (@buildAttachmentDigests (env_of false) ascii_tables demo_deps
    (demo_attachment "preview") ["t1"; "t2"] [sha1; sha2] [] (demo_world "preview"))
    as [[d|e] w'] eqn:Hrun.
  - exists d, w'. split; [reflexivity|].
    refine (proj1 (@digest_rows_list_only_public (env_of false) ascii_tables demo_deps
      (demo_attachment "preview") ["t1"; "t2"] [sha1; sha2] [] (demo_world "preview") d w' Hrun _)).
    apply (bool_decide_unpack _). vm_compute. exact I.
  - exfalso. revert Hrun. vm_compute. discriminate.
Defined.

Lemma routes_witness :
  exists w', @DetachPullRequestAttachment (env_of false) ascii_tables demo_wire demo_deps
    "acme" "app" "3" (Some 2) (demo_world "attached") = (Ok (403, None), w') /\
    ((@None AttachmentResponse = None /\ @reach (env_of false) is_read (demo_world "attached") w' /\ 403 ∈ [401; 400; 403; 404; 500]) \/
     exists u attachment w1, Some 2 = Some u /\ AuthorID attachment = u /\
       @reach (env_of false) is_read (demo_world "attached") w1 /\
       @loadAttachmentForAction (env_of false) ascii_tables "acme" "app" "3" u (demo_world "attached") =
         (Ok (inl attachment), w1)).
Proof.
  destruct (@DetachPullRequestAttachment (env_of false) ascii_tables demo_wire demo_deps
    "acme" "app" "3" (Some 2) (demo_world "attached")) as [r w'] eqn:Hrun.
  assert (r = Ok (403, None)) as -> by (apply (f_equal fst) in Hrun; vm_compute in Hrun; exact (eq_sym Hrun)).
  exists w'. split; [reflexivity|].
  exact (@routes_are_for_the_author (env_of false) ascii_tables demo_wire demo_deps
    (@detachLocked (env_of false) ascii_tables demo_wire demo_deps)
    "acme" "app" "3" (Some 2) (demo_world "attached") 403 None w' Hrun).
Defined.

(** A refresh that accepted the second transcript and could not read its
    content: it stays bound, and the next unforced refresh, with everything
    readable again, posts nothing. *)
Lemma refresh_undoes_witness :
  exists e w' evs, @refreshAttachedAttachment (env_of false) ascii_tables demo_wire unreadable_deps
      (demo_attachment "attached") demo_repo sha1 false (mkWorld bound_db ∅ Access.no_memory []) = (Err e, w') /\
    log w' = evs /\ Forall no_unbind evs /\
    length (List.filter is_bound evs) = 1%nat /\
    (@refreshAttachedAttachment (env_of false) ascii_tables demo_wire demo_deps
      (demo_attachment "attached") demo_repo sha1 false (mkWorld (db w') ∅ Access.no_memory [])).1 = Ok tt /\
    List.filter is_posted (log (@refreshAttachedAttachment (env_of false) ascii_tables demo_wire demo_deps
      (demo_attachment "attached") demo_repo sha1 false (mkWorld (db w') ∅ Access.no_memory [])).2) = [].
Proof.
  destruct (@refreshAttachedAttachment (env_of false) ascii_tables demo_wire unreadable_deps
      (demo_attachment "attached") demo_repo sha1 false (mkWorld bound_db ∅ Access.no_memory [])) as [r w'] eqn:Hrun.
  assert (r = Err EContent) as -> by (apply (f_equal fst) in Hrun; vm_compute in Hrun; exact (eq_sym Hrun)).
  destruct (@refresh_undoes_only_a_failed_post (env_of false) ascii_tables demo_wire unreadable_deps
    (demo_attachment "attached") demo_repo sha1 false (mkWorld bound_db ∅ Access.no_memory []) EContent w' Hrun eq_refl)
    as (evs&Hl&HP); [discriminate|].
  exists EContent, w', evs. split; [reflexivity|]. split; [exact Hl|]. split; [exact HP|].
  assert (Hw : w' = (@refreshAttachedAttachment (env_of false) ascii_tables demo_wire unreadable_deps
      (demo_attachment "attached") demo_repo sha1 false (mkWorld bound_db ∅ Access.no_memory [])).2) by (rewrite Hrun; reflexivity).
  simpl in Hl. rewrite <- Hl, Hw. split; [vm_compute; reflexivity|]. split; vm_compute; reflexivity.
Defined.
End AttachmentLaws.
