(* ===== verification/PageLaws.v ===== *)
(** * What the pull request page shows, and to whom

    Theorems about [PullRoutes], for every behaviour of GitHub, of the database
    connection, of the other requests of the process and of every other writer:
    who can read what may change while one page is served, and what is said of it
    is of moments of the request ([during]). *)
From S2P Require Import Prelude GoText PromptAttach Digest GitHub Access AttachStore Attachment PullRoutes AttachmentLaws.

Open Scope string_scope.
Open Scope list_scope.
Open Scope Z_scope.

Module PageLaws.
Import PromptAttach AttachStore Attachment PullRoutes AttachmentLaws.

(** ** The rules, as the documentation states them *)

(** A transcript may be opened by anyone when it is public, by its owner, by a
    data reader of a collective that approved it while it is shared, and by an
    owner of a collective it was submitted to: [D] holds of the contents of the
    tables that may be consulted. *)
Definition may_open (D : Db -> Prop) (viewer : option Z) (t : TranscriptRow) : Prop :=
  Visibility t = "public" \/
  exists v, viewer = Some v /\
    (OwnerID t = v \/
     (exists d s m, D d /\ s ∈ shares d /\ m ∈ members d /\ ShTranscript s = TrID t /\ MemGroup m = ShGroup s /\
       MemUser m = v /\ MemRole m = "owner") \/
     Visibility t = "shared" /\ exists d d' s m, D d /\ D d' /\ s ∈ shares d /\ m ∈ members d' /\ ShTranscript s = TrID t /\
       ShStatus s = "approved" /\ MemGroup m = ShGroup s /\ MemUser m = v /\ MemRole m ∈ ["contributor"; "member"; "owner"]).
(** The viewer may open the transcript stored under this id. *)
Definition opens (D : Db -> Prop) (viewer : option Z) (id : string) : Prop :=
  exists d row, D d /\ transcripts d !! id = Some row /\ may_open D viewer row.

(** Only refusals are remembered of GitHub's answers about a repository. *)
Definition only_refusals (m : Access.Memory) : Prop :=
  forall key now b, Access.access_lookup (Access.repoAccess m) key now = Some b -> b = false.

Section laws.
Context `{Env, UnicodeTables, GitHub.Wire, Deps}.

(** The contents of the tables at the moments of a run. *)
Definition during (w w' : World) (d : Db) : Prop := exists w1, reach any_event w w1 /\ reach any_event w1 w' /\ d = db w1.
Lemma during_wider v w w' v' d : reach any_event v w -> reach any_event w' v' -> during w w' d -> during v v' d.
Proof. intros Hv Hw (w1 & ? & ? & ->). exists w1. split_and!; [by etrans..|done]. Qed.
Lemma during_later v w w' d : reach any_event v w -> during w w' d -> during v w' d.
Proof. intros Hv. by apply during_wider. Qed.
Lemma during_earlier w w' v' d : reach any_event w' v' -> during w w' d -> during w v' d.
Proof. intros Hv. by apply during_wider. Qed.
Lemma during_end w w' : reach any_event w w' -> during w w' (db w').
Proof. intros Hr. by exists w'. Qed.
Lemma may_open_wider (D D' : Db -> Prop) viewer t : (forall d, D d -> D' d) -> may_open D viewer t -> may_open D' viewer t.
Proof.
  intros HD [?|(v & ? & [?|[(d & s & m & ? & ?)|(? & d & d' & s & m & ? & ? & ?)]])]; [by left|..]; right; exists v; (split; [done|]).
  - by left.
  - right. left. exists d, s, m. auto.
  - right. right. split; [done|]. exists d, d', s, m. auto.
Qed.
Lemma opens_wider (D D' : Db -> Prop) viewer id : (forall d, D d -> D' d) -> opens D viewer id -> opens D' viewer id.
Proof. intros HD (d & row & ? & ? & ?). exists d, row. split_and!; [auto|done|by eapply may_open_wider]. Qed.

(** ** Single statements *)
Lemma read_ok_inv {E A} (lost : E) name (f : Db -> result E A) w a w' :
  read lost name f w = (Ok a, w') -> f (db w') = Ok a /\ mem w' = mem w.
Proof.
  unfold read, stmt. destruct (broken _); [done|]. destruct (f _) eqn:Hf; [|done].
  by intros [= <- <-].
Qed.
Lemma read_reach {E A} (lost : E) name (f : Db -> result E A) w r w' : read lost name f w = (r, w') -> reach any_event w w'.
Proof. intros Hr. eapply emits_run; [|exact Hr]. apply (emits_read_q any_event). Qed.

Lemma find_elem {A} (f : A -> bool) l x : find f l = Some x -> x ∈ l /\ f x = true.
Proof. intros Hf. apply find_some in Hf as [Hin ?]. by rewrite list_elem_of_In. Qed.

(** ** Opening a transcript *)
Lemma group_reads_reach u shared w r w' : any_group_reads u shared w = (r, w') -> reach any_event w w'.
Proof. intros Hr. eapply emits_run; [|exact Hr]. apply (emits_group_reads any_event). Qed.
Lemma any_group_reads_sound u shared w w' :
  any_group_reads u shared w = (Ok true, w') ->
  exists d g m, during w w' d /\ g ∈ shared /\ m ∈ members d /\ MemGroup m = g /\ MemUser m = u /\
    canReadData (MemRole m) "contributors" = true.
Proof.
  revert w. induction shared as [|g rest IH]; intros w; simpl; [done|].
  intros (r&w1&Hr%attempt_inv&Hrun)%bind_ok_inv. eapply read_reach in Hr as Ha1.
  assert (Hrest : any_group_reads u rest w1 = (Ok true, w') ->
    exists d g' m, during w w' d /\ g' ∈ g :: rest /\ m ∈ members d /\ MemGroup m = g' /\ MemUser m = u /\
      canReadData (MemRole m) "contributors" = true).
  { intros (d&g'&m&Hd&Hg&?)%IH. exists d, g', m. split; [by eapply during_later|]. split; [by right|done]. }
  destruct r as [m|[]]; [|by apply Hrest|done].
  destruct (canReadData (MemRole m) "contributors") eqn:Hdata; [|by apply Hrest].
  injection Hrun as <-. apply read_ok_inv in Hr as [Hf _]. unfold some_row in Hf. destruct (find _ _) as [m'|] eqn:Hfind; [|done].
  injection Hf as ->. apply find_elem in Hfind as [Hin Hp]. bool_hyps.
  exists (db w1), g, m. split_and!; [by apply during_end|by left|done..].
Qed.

Lemma role_reads m : canReadData (MemRole m) "contributors" = true -> MemRole m ∈ ["contributor"; "member"; "owner"].
Proof.
  unfold canReadData. simpl. rewrite !orb_true_iff, !String.eqb_eq. set_solver.
Qed.

Lemma can_view_sound {E} viewer t w w' :
  (canViewTranscript viewer t : M World E bool) w = (Ok true, w') -> may_open (during w w') viewer t.
Proof.
  intros (r&w1&Hr%attempt_inv&Hret)%bind_ok_inv. destruct r as [b|]; [|done]. injection Hret as -> ->.
  unfold transcriptViewAccess in Hr. destruct (String.eqb_spec (Visibility t) "public"); [by left|].
  destruct viewer as [v|]; [|done]. right. exists v. split; [done|].
  destruct (Z.eqb_spec (OwnerID t) v); [by left|]. right.
  apply bind_ok_inv in Hr as (reads&w2&Hreads&Hr).
  assert (Hw2 : reach any_event w w2).
  { eapply emits_run; [|exact Hreads]. destruct (String.eqb _ _); [|apply emits_ret].
    apply emits_bind; [apply (emits_read_q any_event)|]. intros shared. apply (emits_group_reads any_event). }
  destruct reads.
  - destruct (String.eqb_spec (Visibility t) "shared") as [Hsh|]; [|done]. right. split; [done|].
    injection Hr as <-. apply bind_ok_inv in Hreads as (groups&w3&Hg&Hany).
    eapply read_reach in Hg as Hw3. pose proof (group_reads_reach _ _ _ _ _ Hany) as Hw32.
    apply any_group_reads_sound in Hany as (d&g&m&Hd&Hin&Hm&Hmg&Hmu&Hrole%role_reads).
    apply read_ok_inv in Hg as [Hf _]. injection Hf as <-.
    apply list_elem_of_fmap in Hin as (s&->&[Hst Hs]%elem_of_list_filter).
    apply andb_true_iff in Hs as [Hid Hok]. apply String.eqb_eq in Hid, Hok.
    exists (db w3), d, s, m. split_and!; [by exists w3|by eapply during_later|done..].
  - left. apply bind_ok_inv in Hr as (owners&w3&Ho&Hret). injection Hret as Hin <-.
    apply existsb_exists in Hin as (o&Hin%list_elem_of_In&<-%Z.eqb_eq).
    eapply read_reach in Ho as Hw3. apply read_ok_inv in Ho as [Hf _]. injection Hf as <-.
    apply elem_of_remove_dups, list_elem_of_In, in_concat in Hin as (l&Hl%list_elem_of_In&Hin%list_elem_of_In).
    apply list_elem_of_fmap in Hl as (s&->&[Hsin Hsid]%elem_of_list_filter).
    apply list_elem_of_fmap in Hin as (m&->&[Hmin Hmid]%elem_of_list_filter).
    apply andb_true_iff in Hmid as [Hmid Hrole]. bool_hyps. apply String.eqb_eq in Hsid, Hrole.
    exists (db w3), s, m. split_and!; [apply during_end; by etrans|done..].
Qed.
Lemma can_view_reach {E} viewer t w r w' : (canViewTranscript viewer t : M World E bool) w = (r, w') -> reach any_event w w'.
Proof. intros Hr. eapply emits_run; [|exact Hr]. apply (emits_can_view any_event). Qed.

(** ** The entries and the digest of a response *)
Definition from_binding (D : Db -> Prop) (p : Binding * TranscriptRow) : Prop :=
  exists d, D d /\ transcripts d !! BTranscript p.1 = Some p.2.

Lemma summaries_found id w found w' :
  sql_summaries id w = (Ok found, w') -> Forall (from_binding (during w w')) found.
Proof.
  intros Hrun. eapply read_reach in Hrun as Hw. apply read_ok_inv in Hrun as [Hf _].
  injection Hf as <-. apply Forall_forall. intros [b t].
  rewrite list_elem_of_omap. intros (b'&_&Hb). exists (db w'). split; [by apply during_end|]. simpl.
  destruct (transcripts (db w') !! BTranscript b') eqn:Hlook; [|done]. by injection Hb as <- <-.
Qed.

Lemma wire_transcripts_sound (D : Db -> Prop) viewer found readable w out rd w' :
  (forall d, during w w' d -> D d) -> Forall (from_binding D) found ->
  wire_transcripts viewer found readable w = (Ok (out, rd), w') ->
  (forall t, t ∈ out -> WireTranscriptTitle t <> None \/ WireSessionStart t <> None ->
    opens D viewer (WireTranscriptID t)) /\
  (forall id, id ∈ rd -> id ∈ readable \/ opens D viewer id).
Proof.
  revert readable w out rd w'. induction found as [|[b t] rest IH]; intros readable w out rd w' HD Hfound; simpl.
  { intros [= <- <- <-]. split; [set_solver|by left]. }
  apply Forall_cons in Hfound as [Hb Hfound].
  intros (wire&w1&Hwire&(o&w2&Ho&([out' rd']&w3&Hrest&Hret)%bind_ok_inv)%bind_ok_inv)%bind_ok_inv.
  injection Hret as <- <- <-.
  unfold mapVillageAttachedTranscript in Hwire. destruct (existsb _ _); [|done]. injection Hwire as <- <-.
  assert (Hw2 : reach any_event w w2) by by eapply can_view_reach.
  assert (Hw3 : reach any_event w2 w3).
  { eapply emits_run; [|exact Hrest]. apply (emits_wire_transcripts any_event). }
  assert (Hthis : o = true -> opens D viewer (BTranscript b)).
  { intros ->. destruct Hb as (d&Hd&Ht). exists d, t. split_and!; [done..|]. eapply may_open_wider; [|by eapply can_view_sound].
    intros d' Hd'. apply HD. by eapply during_earlier. }
  destruct (IH _ _ _ _ _ (fun d Hd => HD d (during_wider _ _ _ _ d Hw2 (reflexivity _) Hd)) Hfound Hrest) as [Hout Hrd]. split.
  - intros x [->|Hx]%elem_of_cons Hshown; [|by apply Hout].
    destruct o; simpl in *; [by apply Hthis|by destruct Hshown].
  - intros id Hid. apply Hrd in Hid as [Hid|Hid]; [|by right].
    destruct o; simpl in *; [|by left]. apply elem_of_union in Hid as [->%elem_of_singleton|]; [|by left].
    right. by apply Hthis.
Qed.

Lemma preview_readable_sound own viewer readable checked items w res w' :
  preview_readable own viewer readable checked items w = (Ok res, w') ->
  forall id, res !! id = Some true -> checked !! id = Some true \/
    own = true /\ exists d key row, during w w' d /\ parse_uuid id = Some key /\ transcripts d !! key = Some row /\
      viewer = Some (OwnerID row).
Proof.
  revert checked w. induction items as [|i rest IH]; intros checked w; simpl.
  { intros [= <- <-] id Hid. by left. }
  destruct (_ || _) eqn:Hskip; [apply IH|].
  intros (b&w1&Hb&Hrun)%bind_ok_inv id Hid. bool_hyps.
  assert (Hw1 : reach any_event w w1).
  { eapply emits_run; [|exact Hb]. case_match; [|apply emits_ret].
    apply emits_bind; [apply emits_attempt, (emits_read_q any_event)|intros; apply emits_ret]. }
  assert (Hw' : reach any_event w1 w') by (eapply emits_run; [|exact Hrun]; apply (emits_preview_readable any_event)).
  destruct (IH _ _ Hrun id Hid) as [Hlook|(?&d&key&row&Hd&?)].
  2:{ right. split; [done|]. exists d, key, row. split; [by eapply during_later|done]. }
  destruct (decide (id = Digest.ItemTranscript i)) as [->|Hne].
  2:{ rewrite lookup_insert_ne in Hlook by done. by left. }
  rewrite lookup_insert_eq in Hlook. injection Hlook as ->. right. split; [done|].
  destruct (parse_uuid _) as [key|]; [|done].
  apply bind_ok_inv in Hb as (r&w2&Hr%attempt_inv&Hret). destruct r as [row|]; [|done].
  injection Hret as Hv <-. apply bool_decide_eq_true in Hv. apply read_ok_inv in Hr as [Hf _].
  destruct (transcripts (db w2) !! key) as [row'|] eqn:Hk; [|done].
  injection Hf as ->. exists (db w2), key, row. split_and!; [by exists w2|done..].
Qed.

Lemma restricted_digest_sound a viewer readable text w d w' :
  restricted_digest a viewer readable text w = (Ok d, w') ->
  forall i, i ∈ Digest.Items d -> Digest.ItemTranscript i ∈ readable \/
    exists key, parse_uuid (Digest.ItemTranscript i) = Some key /\ opens (during w w') viewer key.
Proof.
  unfold restricted_digest. intros (parsed&w1&Hp&(checked&w2&Hc&Hrun)%bind_ok_inv)%bind_ok_inv i Hi.
  assert (w1 = w) as -> by (by destruct (decode_digest text); [injection Hp|]).
  destruct (Digest.Restrict _ _ _) as [d'|] eqn:Hr; [|done]. injection Hrun as <- <-.
  eapply Digest.Restrict_keeps in Hr; [|exact Hi]. apply orb_true_iff in Hr as [Hr|Hr].
  { left. by apply bool_decide_eq_true in Hr. }
  right. destruct (checked !! Digest.ItemTranscript i) as [[]|] eqn:Hlook; try done.
  eapply preview_readable_sound in Hc; [|exact Hlook].
  destruct Hc as [Hc|(_&d&key&row&Hd&Hk&Hrow&->)]; [by rewrite lookup_empty in Hc|].
  exists key. split; [done|]. exists d, row. split_and!; [done..|]. right. exists (OwnerID row). split; [done|by left].
Qed.

(** C4: what a served page says of a transcript beyond its place in the
    attachment (its title, when it started, its prompts and commits in the
    digest) is only of transcripts this viewer may open on their own, by the
    tables as they were while the page was served: the transcript read at one of
    its moments, and what makes it theirs to open, its visibility then, its owner,
    a collective's approval or a membership, each at one of its moments; other
    writers may change any of it meanwhile. The digest is served to no one but
    the author before the attachment is attached and after it is detached. Being
    let onto the page is not being let into a transcript. *)
Theorem page_shows_only_readable a repo viewer w resp w' :
  attachmentResponseOf a repo viewer w = (Ok resp, w') ->
  (forall t, t ∈ RespTranscripts resp -> WireTranscriptTitle t <> None \/ WireSessionStart t <> None ->
    opens (during w w') viewer (WireTranscriptID t)) /\
  (forall d, RespDigest resp = Some d ->
    (viewer = Some (AuthorID a) \/ RowState a = state_string Attached) /\
    forall i, i ∈ Digest.Items d -> exists key,
      (key = Digest.ItemTranscript i \/ parse_uuid (Digest.ItemTranscript i) = Some key) /\
      opens (during w w') viewer key).
Proof.
  unfold attachmentResponseOf. destruct (negb _); [done|].
  intros (people&w1&Hp&(det&w2&Hd&(found&w3&Hf%query_ok_inv&(shown&w4&Hs&(digest&w5&Hg&Hret)
    %bind_ok_inv)%bind_ok_inv)%bind_ok_inv)%bind_ok_inv)%bind_ok_inv.
  injection Hret as <- <-. simpl.
  assert (Ha1 : reach any_event w w1) by (eapply emits_run; [|exact Hp]; apply (emits_people any_event)).
  assert (Ha2 : reach any_event w1 w2) by (eapply emits_run; [|exact Hd]; apply (emits_detail any_event)).
  eapply read_reach in Hf as Ha3.
  assert (Ha4 : reach any_event w3 w4) by (eapply emits_run; [|exact Hs]; apply (emits_wire_transcripts any_event)).
  assert (Ha5 : reach any_event w4 w5).
  { eapply emits_run; [|exact Hg]. case_match; [|apply emits_ret]. apply emits_bind; [|intros; apply emits_ret].
    unfold restricted_digest. apply emits_bind; [apply emits_from|]. intros parsed. cbv zeta.
    apply emits_bind; [apply (emits_preview_readable any_event)|]. intros checked. case_match; [apply emits_ret|apply emits_throw]. }
  assert (Hto2 : reach any_event w w2) by by etrans. assert (Hto3 : reach any_event w w3) by by etrans.
  assert (Hto4 : reach any_event w w4) by by etrans. assert (Hto5 : reach any_event w w5) by by etrans.
  assert (Ha35 : reach any_event w3 w5) by by etrans.
  assert (Hfound : Forall (from_binding (during w w5)) found).
  { eapply Forall_impl; [by eapply summaries_found|]. intros p (d&?&?). exists d. split; [|done]. by apply (during_wider _ w2 w3). }
  destruct shown as [out rd].
  destruct (wire_transcripts_sound (during w w5) _ _ _ _ _ _ _ (fun d => during_wider _ _ _ _ d Hto3 Ha5) Hfound Hs) as [Hout Hrd].
  split; [done|]. intros d ->.
  destruct (_ && _) eqn:Hinc; [|done]. apply andb_true_iff in Hinc as [Hinc _].
  apply bind_ok_inv in Hg as (d'&w6&Hg&Hret). injection Hret as -> ->. split.
  - apply orb_true_iff in Hinc as [Hi|Hi]; [left; by apply bool_decide_eq_true in Hi|right; by apply String.eqb_eq].
  - intros i Hi. eapply restricted_digest_sound in Hg as [Hin|(key&Hk&Ho)]; [..|exact Hi].
    + apply Hrd in Hin as [Hin|Hin]; [set_solver|]. exists (Digest.ItemTranscript i). split; [by left|done].
    + exists key. split; [by right|]. eapply opens_wider; [|exact Ho]. intros d0. by apply during_wider.
Qed.

(** ** People *)
Lemma unique_people_in seen ids id : id ∈ unique_people seen ids -> Some id ∈ ids.
Proof.
  revert seen. induction ids as [|[x|] ids IH]; intros seen; simpl; [set_solver| |set_solver].
  case_bool_decide; [set_solver|]. intros [->|]%elem_of_cons; set_solver.
Qed.

Lemma public_owners_found viewer people w rows w' :
  sql_public_owners viewer people w = (Ok rows, w') ->
  Forall (fun row => exists d, during w w' d /\ (exists key, users d !! key = Some row.1) /\
    row.2 = profile_visible d viewer row.1) rows.
Proof.
  intros Hrun. eapply read_reach in Hrun as Hw. apply read_ok_inv in Hrun as [Hf _]. injection Hf as <-.
  apply Forall_forall. intros row (u&->&(k&_&Hk)%list_elem_of_omap)%list_elem_of_fmap. simpl.
  exists (db w'). split; [by apply during_end|]. split; [by exists k|done].
Qed.

Lemma owners_fold rows id (p : gmap Z PublicOwner) :
  let q := foldl (fun p row => <[UserID row.1 := publicOwnerFromRow row]> p) p rows in
  q !! id = p !! id \/
  exists row, row ∈ rows /\ UserID row.1 = id /\ q !! id = Some (publicOwnerFromRow row).
Proof.
  cbv zeta. revert p. induction rows as [|row rows IH]; intros p; simpl; [by left|].
  destruct (IH (<[UserID row.1 := publicOwnerFromRow row]> p)) as [->|(r&?&?&->)];
    [|right; exists r; split; [by right|done]].
  destruct (decide (UserID row.1 = id)) as [<-|]; [|left; by rewrite lookup_insert_ne].
  right. exists row. rewrite lookup_insert_eq. split_and!; [by left|done..].
Qed.

Lemma resolve_owners_sound viewer ids w owners w' id name user display avatar :
  resolvePublicOwners viewer ids w = (Ok owners, w') ->
  owner_of owners (Some id) = Profile name user display avatar ->
  exists d u, during w w' d /\ UserID u = id /\ (exists key, users d !! key = Some u) /\
    profile_visible d viewer u = true /\ Profile name user display avatar = publicProfile u.
Proof.
  unfold resolvePublicOwners. intros Hrun Hof.
  assert (Hrows : exists rows, owners = foldl (fun p row => <[UserID row.1 := publicOwnerFromRow row]> p)
      (∅ : gmap Z PublicOwner) rows /\
    Forall (fun row => exists d, during w w' d /\ (exists key, users d !! key = Some row.1) /\
      row.2 = profile_visible d viewer row.1) rows).
  { destruct (unique_people ∅ ids) as [|p ps]; [by injection Hrun as <- <-; exists []|].
    apply bind_ok_inv in Hrun as (rows&w1&Hq%query_ok_inv&Hret). injection Hret as <- <-.
    exists rows. split; [done|]. by eapply public_owners_found. }
  destruct Hrows as (rows&->&Hall). unfold owner_of in Hof.
  destruct (owners_fold rows id ∅) as [Hnone|(row&Hin&Hid&Hsome)].
  { rewrite Hnone in Hof. by rewrite lookup_empty in Hof. }
  rewrite Hsome in Hof. rewrite Forall_forall in Hall. destruct (Hall row Hin) as (d&Hd&Hkey&Hvis).
  unfold publicOwnerFromRow in Hof. destruct (row.2) eqn:Hv; [|done]. exists d, row.1. by rewrite <- Hvis.
Qed.

(** Also: the page names its author or its requester only as a profile this viewer
    may see: a person who is discoverable, the viewer themselves, or one who
    took an act of their own in a collective the viewer owns. Everyone else,
    with or without an account, is anonymous. *)
Theorem page_names_only_visible_people a repo viewer w resp w' :
  attachmentResponseOf a repo viewer w = (Ok resp, w') ->
  forall id name display avatar,
    WireAuthor (RespAttachment resp) = Profile id name display avatar \/
    WireRequestedBy (RespAttachment resp) = Some (Profile id name display avatar) ->
  exists d u key, during w w' d /\ users d !! key = Some u /\ profile_visible d viewer u = true /\
    Profile id name display avatar = publicProfile u.
Proof.
  intros Hresp. pose proof Hresp as Hw. eapply emits_run in Hw; [|apply (emits_response any_event)]. revert Hresp.
  unfold attachmentResponseOf. destruct (negb _); [done|].
  intros (people&w1&Hp&Hrun)%bind_ok_inv id name display avatar.
  assert (Hw1 : reach any_event w w1) by (eapply emits_run; [|exact Hp]; apply (emits_people any_event)).
  assert (Hrest : reach any_event w1 w').
  { eapply emits_run; [|exact Hrun]. apply emits_bind; [apply (emits_detail any_event)|]. intros det.
    apply emits_bind; [apply emits_query, (emits_read_q any_event)|]. intros summaries.
    apply emits_bind; [apply (emits_wire_transcripts any_event)|]. intros shown. cbv zeta.
    apply emits_bind; [|intros; apply emits_ret]. case_match; [|apply emits_ret].
    apply emits_bind; [|intros; apply emits_ret]. unfold restricted_digest.
    apply emits_bind; [apply emits_from|]. intros parsed. cbv zeta.
    apply emits_bind; [apply (emits_preview_readable any_event)|]. intros checked. case_match; [apply emits_ret|apply emits_throw]. }
  apply bind_ok_inv in Hrun as (det&w2&_&(found&w3&_&(shown&w4&_&(digest&w5&_&Hret)%bind_ok_inv)%bind_ok_inv)%bind_ok_inv).
  injection Hret as <- ->. simpl. unfold resolveAttachmentPeople in Hp.
  apply bind_ok_inv in Hp as (requester&w6&Hreq&(owners&w7&Ho&Hret)%bind_ok_inv). injection Hret as <- <-.
  assert (Hw6 : reach any_event w w6).
  { eapply emits_run; [|exact Hreq]. case_match; [|apply emits_ret].
    apply emits_bind; [apply emits_attempt, (emits_read_q any_event)|].
    intros [u|[]]; [apply emits_ret..|apply emits_throw]. }
  assert (Hdone : forall who, owner_of owners (Some who) = Profile id name display avatar ->
    exists d u key, during w w' d /\ users d !! key = Some u /\ profile_visible d viewer u = true /\
      Profile id name display avatar = publicProfile u).
  { intros who Hwho. eapply resolve_owners_sound in Ho as (d&u&Hd&_&(key&Hk)&Hv&Heq); [|exact Hwho].
    exists d, u, key. split; [apply (during_wider _ w6 w7); [done|done|exact Hd]|done]. }
  intros [Hauthor|Hreqd]; [by eapply Hdone|]. destruct (RequesterGithubID a); [|done].
  injection Hreqd as Hr. destruct requester as [who|]; [by eapply Hdone|done].
Qed.

(** ** The process remembers refusals only *)
Section memory.
Context (Hmem : forall l m, only_refusals m -> only_refusals (meanwhile l m)).

Definition forgets (w : World) : Prop := only_refusals (mem w).

Lemma keeps_same_mem {E A} (m : M World E A) : (forall w, mem (m w).2 = mem w) -> keeps forgets m.
Proof. intros Hm w Hw. unfold forgets. by rewrite Hm. Qed.

Lemma keeps_stmt {E A} (lost : E) name (f : Db -> result E (A * Db * Event)) : keeps forgets (stmt lost name f).
Proof.
  apply keeps_same_mem. intros w. unfold stmt. destruct (broken _); [done|]. by destruct (f _) as [[[]]|].
Qed.

Lemma keeps_read {E A} (lost : E) name (f : Db -> result E A) : keeps forgets (read lost name f).
Proof. apply keeps_stmt. Qed.

Ltac keeps_end := first [apply keeps_ret | apply keeps_throw].

Lemma keeps_from {A} e (o : option A) : keeps forgets (from e o).
Proof. destruct o; keeps_end. Qed.

Lemma keeps_query {A} (m : M World QueryError A) : keeps forgets m -> keeps forgets (query m).
Proof. intros Hm. apply keeps_bind; [by apply keeps_attempt|]. intros []; keeps_end. Qed.

Lemma keeps_failing {E A} e (m : M World E A) : keeps forgets m -> keeps forgets (failing e m).
Proof. intros Hm. apply keeps_bind; [by apply keeps_attempt|]. intros []; keeps_end. Qed.

Lemma keeps_locked {A} table (f : Access.Memory -> A * Access.Memory) :
  (forall m, only_refusals m -> only_refusals (f m).2) -> keeps forgets (locked table f).
Proof.
  intros Hf w Hw. unfold locked. specialize (Hf _ (Hmem (log w) _ Hw)). by destruct (f _).
Qed.

Lemma keeps_get_world : keeps forgets (GitHub.get_world : M World _ _).
Proof. by apply keeps_same_mem. Qed.

Lemma keeps_put_token id t : keeps forgets (GitHub.put_token id t : M World _ _).
Proof. by apply keeps_same_mem. Qed.

Lemma keeps_of_option {A} e (o : option A) : keeps forgets (GitHub.of_option e o : M World _ _).
Proof. destruct o; keeps_end. Qed.

Lemma keeps_http req : keeps forgets (GitHub.http_do req : M World _ _).
Proof. by apply keeps_same_mem. Qed.
Hint Resolve keeps_get_world keeps_put_token keeps_of_option keeps_http keeps_from : keeps.
Hint Extern 3 (keeps _ _) => apply keeps_read : keeps.

Ltac keeps_walk :=
  repeat first
    [ progress intros
    | solve [auto 2 with keeps nocore]
    | match goal with
      | |- keeps _ (mbind _ _) => apply keeps_bind
      | |- keeps _ (attempt _) => apply keeps_attempt
      | |- keeps _ (query _) => apply keeps_query
      | |- keeps _ (failing _ _) => apply keeps_failing
      | |- keeps _ (match ?x with _ => _ end) => destruct x
      | |- keeps _ (let _ := _ in _) => cbv zeta
      end ].

Lemma keeps_json {Out} app api id op method path payload (decode : string -> option Out) :
  keeps forgets (GitHub.doInstallationJSON app api id op method path payload decode : M World _ _).
Proof.
  unfold GitHub.doInstallationJSON, GitHub.installationToken, GitHub.mint_token, GitHub.appJWT, GitHub.send.
  keeps_walk.
Qed.
Hint Resolve keeps_json : keeps.

Lemma keeps_detail installation owner name n : keeps forgets (pullRequestDetail installation owner name n).
Proof.
  unfold pullRequestDetail, claim_detail, settle_detail, GitHub.GetPullRequest. case_match; [keeps_end|]. cbv zeta.
  apply keeps_bind; [by apply keeps_same_mem|]. intros now. apply keeps_bind.
  { apply keeps_locked. intros m Hm. by destruct (Access.claim _ _ _). }
  intros [e| |]; [keeps_end|by apply keeps_same_mem|]. apply keeps_bind; [keeps_walk|]. intros pr.
  apply keeps_bind; [by apply keeps_same_mem|]. intros now'. case_match.
  apply keeps_bind; [by apply keeps_locked|]. intros _. by apply keeps_same_mem.
Qed.

Lemma keeps_response a repo viewer : keeps forgets (attachmentResponseOf a repo viewer).
Proof.
  unfold attachmentResponseOf. case_match; [keeps_end|].
  apply keeps_bind; [unfold resolveAttachmentPeople, resolvePublicOwners; keeps_walk|]. intros people.
  apply keeps_bind; [apply keeps_detail|]. intros d. apply keeps_bind; [keeps_walk|]. intros found.
  apply keeps_bind.
  { generalize (∅ : gset string) as rd. induction found as [|[b t] rest IH]; intros rd; simpl; [keeps_end|].
    apply keeps_bind; [apply keeps_from|]. intros wire. apply keeps_bind.
    - unfold canViewTranscript, transcriptViewAccess. keeps_walk.
      match goal with |- keeps _ (any_group_reads _ ?l) => generalize l as shared end.
      intros shared. induction shared; simpl; keeps_walk; done.
    - intros o. apply keeps_bind; [apply IH|intros; keeps_end]. }
  intros shown. cbv zeta. apply keeps_bind; [|intros; keeps_end]. case_match; [|keeps_end]. apply keeps_bind; [|intros; keeps_end].
  unfold restricted_digest. apply keeps_bind; [apply keeps_from|]. intros parsed. cbv zeta.
  apply keeps_bind; [|intros; case_match; keeps_end].
  generalize (∅ : gmap string bool) as checked. induction (Digest.Items parsed) as [|i rest IH];
    intros checked; simpl; [keeps_end|]. case_match; [apply IH|]. apply keeps_bind; [keeps_walk|]. intros b. apply IH.
Qed.

Lemma refusals_store m key now :
  only_refusals m -> only_refusals (Access.set_repoAccess (Access.access_store (Access.repoAccess m) key false now) m).
Proof.
  intros Hm key' later b Hb. simpl in Hb. destruct (decide (key = key')) as [<-|Hne].
  - rewrite Access.access_lookup_store in Hb. destruct (_ <? _); [by injection Hb|done].
  - eapply Hm, Access.access_lookup_store_ne; [exact Hne|exact Hb].
Qed.

Lemma keeps_admits viewer installation owner name :
  keeps forgets (repositoryAdmitsViewer viewer installation owner name).
Proof.
  unfold repositoryAdmitsViewer, githubAdmitsReader, lookup_refusal, spend_question, store_refusal. cbv zeta.
  case_match; [keeps_end|]. apply keeps_bind; [keeps_walk|]. intros [u|]; [|keeps_end].
  case_match; [keeps_end|]. apply keeps_bind; [by apply keeps_same_mem|]. intros now.
  apply keeps_bind; [by apply keeps_locked|]. intros [b|]; [keeps_end|].
  apply keeps_bind. { apply keeps_locked. intros m Hm. by destruct (Access.allow _ _ _). }
  intros ok. case_match; [keeps_end|].
  apply keeps_bind; [unfold askGitHubAboutRepository, GitHub.GetUserLogin, GitHub.GetCollaboratorPermission; keeps_walk|].
  intros b. apply keeps_bind; [|intros; keeps_end]. destruct b; [keeps_end|].
  apply keeps_locked. intros m Hm. by apply refusals_store.
Qed.

Lemma keeps_repository a : keeps forgets (resolveAttachmentRepository a).
Proof. unfold resolveAttachmentRepository, check_mode_for. keeps_walk. Qed.

Lemma keeps_member v g : keeps forgets (isCollectiveMember v g).
Proof. unfold isCollectiveMember. keeps_walk. Qed.

Lemma keeps_private_page a repo viewer : keeps forgets (private_page a repo viewer).
Proof.
  unfold private_page, over_budget. destruct viewer as [v|]; [|keeps_end].
  apply keeps_bind; [case_match; [apply keeps_member|keeps_end]|]. intros m. case_match; [keeps_end|].
  apply keeps_bind; [by apply keeps_same_mem|]. intros now. apply keeps_bind; [by apply keeps_locked|]. intros o.
  case_match; [keeps_end|]. case_match; [keeps_end|]. apply keeps_bind; [apply keeps_admits|intros; keeps_end].
Qed.

Lemma keeps_page owner name n viewer : keeps forgets (PullRequestPage owner name n viewer).
Proof.
  unfold PullRequestPage. destruct (pullRequestTarget _ _ _) as [[[o nm] num]|]; [|keeps_end].
  apply keeps_bind; [keeps_walk|]. intros [a|[]]; [|keeps_end..].
  apply keeps_bind; [apply keeps_attempt, keeps_repository|]. intros [repo|]; [|keeps_end].
  apply keeps_bind; [case_match; [apply keeps_private_page|keeps_end]|]. intros [st|]; [keeps_end|].
  apply keeps_bind; [apply keeps_attempt, keeps_response|intros; keeps_end].
Qed.

(** ** Who is let onto the page *)

(** GitHub said, in these events, that this account may read the repository. *)
Definition github_admits (u : User) (owner name : string) (evs : list Event) : Prop :=
  Provider u = "github" /\
  exists auth auth' login permission answer answer',
    EvHttp (GitHub.mkRequest "GET" (ApiURL +:+ "/user/" +:+ ProviderUserID u) auth "" None) (Ok answer) ∈ evs /\
    GitHub.decode_login (GitHub.Body answer) = Some login /\
    EvHttp (GitHub.mkRequest "GET" (ApiURL +:+ GitHub.repo_path owner name +:+ "/collaborators/" +:+ login +:+
      "/permission") auth' "" None) (Ok answer') ∈ evs /\
    GitHub.decode_permission (GitHub.Body answer') = Some permission /\
    permission ∈ ["admin"; "write"; "read"].

Lemma github_admits_app u owner name evs evs' :
  github_admits u owner name evs' -> github_admits u owner name (evs ++ evs').
Proof.
  intros (Hp&auth&auth'&login&permission&answer&answer'&?&?&?&?&?). split; [done|].
  exists auth, auth', login, permission, answer, answer'. rewrite !elem_of_app. split_and!; eauto.
Qed.

Lemma ask_true installation owner name u w w' :
  Provider u = "github" ->
  askGitHubAboutRepository installation owner name (ProviderUserID u) w = (Ok true, w') ->
  exists evs, log w' = log w ++ evs /\ github_admits u owner name evs.
Proof.
  intros Hp. unfold askGitHubAboutRepository.
  intros (r&w1&Hr%attempt_inv&Hrun)%bind_ok_inv. destruct r as [login|]; [|done].
  apply bind_ok_inv in Hrun as (r&w2&Hr'%attempt_inv&Hret). destruct r as [permission|]; [|done].
  injection Hret as Hin <-. unfold GitHub.GetUserLogin in Hr.
  apply bind_ok_inv in Hr as (login'&w3&Hlogin&Hret).
  assert (login' = login /\ w3 = w1) as [-> ->] by (destruct (String.eqb login' ""); [done|by injection Hret]).
  apply json_ok_exchange in Hlogin as (evs&auth&resp&Hl&Hev&_&Hdec).
  apply json_ok_exchange in Hr' as (evs'&auth'&resp'&Hl'&Hev'&_&Hdec').
  exists (evs ++ evs'). split; [by rewrite Hl', Hl, (assoc_L (++))|]. split; [done|].
  exists auth, auth', login, permission, resp, resp'. rewrite !elem_of_app.
  split_and!; [by left|done|by right|done|]. rewrite !orb_true_iff, !String.eqb_eq in Hin. set_solver.
Qed.
End memory.

Section admission.
Context (Hmem : forall l m, only_refusals m -> only_refusals (meanwhile l m)).

Lemma admits_true v installation owner name w b w' :
  forgets w -> repositoryAdmitsViewer v installation owner name w = (Ok (true, b), w') ->
  exists d u evs, during w w' d /\ users d !! v = Some u /\ log w' = log w ++ evs /\ github_admits u owner name evs.
Proof.
  intros Hw Hrun. pose proof Hrun as Hall. eapply emits_run in Hall; [|apply (emits_admits any_event)]. revert Hrun.
  unfold repositoryAdmitsViewer. destruct (negb _); [done|].
  intros (r&w1&Hr%attempt_inv&Hrun)%bind_ok_inv. destruct r as [u|]; [|done].
  destruct (_ || _) eqn:Hprov; [done|]. apply orb_false_iff in Hprov as [Hprov _].
  assert (Provider u = "github") as Hgh by (apply negb_false_iff in Hprov; by apply String.eqb_eq).
  assert (Hw1 : reach any_event w w1) by (eapply read_reach, Hr). destruct Hw1 as (evs1&Hl1&HP1&Hd1).
  assert (Hrest : reach any_event w1 w') by (eapply emits_run; [|exact Hrun]; apply (emits_admits_reader any_event)).
  pose proof Hr as Hf. apply read_ok_inv in Hf as [Hf _].
  destruct (users (db w1) !! v) as [u'|] eqn:Hv; [|done]. injection Hf as ->. exists (db w1), u.
  unfold githubAdmitsReader in Hrun. cbv zeta in Hrun.
  apply bind_ok_inv in Hrun as (now&w2&Hnow&Hrun). injection Hnow as <- <-.
  apply bind_ok_inv in Hrun as (cached&w3&Hc&Hrun). destruct cached as [answer|].
  { injection Hrun as -> _ _. injection Hc as Hc _.
    assert (Hfw1 : forgets w1) by (eapply keeps_run; [apply keeps_read|exact Hw|exact Hr]).
    by apply (Hmem (log w1) (mem w1) Hfw1) in Hc. }
  eapply emits_run in Hc as (evs2&Hl2&_); [|apply (emits_locked any_event)].
  apply bind_ok_inv in Hrun as (ok&w4&Hok&Hrun). destruct ok; [|done]. simpl in Hrun.
  eapply emits_run in Hok as (evs3&Hl3&_); [|apply (emits_locked any_event)].
  apply bind_ok_inv in Hrun as (admitted&w5&Hask&Hrun).
  apply bind_ok_inv in Hrun as ([]&w6&Hstore&Hret). injection Hret as -> <- <-.
  injection Hstore as <-. apply ask_true in Hask as (evs4&Hl4&Had); [|done..].
  exists (evs1 ++ evs2 ++ evs3 ++ evs4). split; [exists w1; split; [by exists evs1|done]|]. split; [done|]. split.
  { by rewrite Hl4, Hl3, Hl2, Hl1, !(assoc_L (++)). }
  by do 3 apply github_admits_app.
Qed.

(** The attachment of the asked pull request, and the repository the collective
    linked it under, as they were stored. *)
Definition linked (D : Db -> Prop) (owner name number : string) (a : Row) (l : CollectiveRepository) : Prop :=
  exists o nm num d d', pullRequestTarget owner name number = Some (o, nm, num) /\
    D d /\ row_by_id (ID a) d = Some a /\ of_pull (to_lower o) (to_lower nm) num a /\
    D d' /\ l ∈ links d' /\ GroupID a = Some (LinkGroup l) /\
    same_name (LinkOwner l) (to_lower (RepoOwner a)) = true /\ same_name (LinkName l) (to_lower (RepoName a)) = true.
(** Why a viewer may be on the page. *)
Definition let_in (D : Db -> Prop) (a : Row) (private : bool) (viewer : option Z) (evs : list Event) : Prop :=
  private = false \/ viewer = Some (AuthorID a) \/
  exists v, viewer = Some v /\
    ((exists d m, D d /\ m ∈ members d /\ MemUser m = v /\ GroupID a = Some (MemGroup m) /\ MemRole m <> "pending") \/
     RowState a = state_string Attached /\
     exists d u, D d /\ users d !! v = Some u /\ github_admits u (RepoOwner a) (RepoName a) evs).

Lemma let_in_wider (D D' : Db -> Prop) a private viewer evs evs' : (forall d, D d -> D' d) ->
  let_in D a private viewer evs -> let_in D' a private viewer (evs' ++ evs).
Proof.
  intros HD [?|[?|(v&Hv&[(d&m&?&?)|(Hs&d&u&?&Hu&Hg)])]]; [by left|by right; left|..]; right; right; exists v; (split; [done|]).
  - left. exists d, m. auto.
  - right. split; [done|]. exists d, u. split_and!; [auto|done|by apply github_admits_app].
Qed.
Lemma repository_linked a w repo w' : resolveAttachmentRepository a w = (Ok repo, w') ->
  exists d l, during w w' d /\ l ∈ links d /\ GroupID a = Some (LinkGroup l) /\ isPrivate repo = LinkPrivate l /\
    same_name (LinkOwner l) (to_lower (RepoOwner a)) = true /\ same_name (LinkName l) (to_lower (RepoName a)) = true.
Proof.
  unfold resolveAttachmentRepository. destruct (GroupID a) as [g|]; [|done]. intros Hrun.
  apply bind_ok_inv in Hrun as (l&w1&Hl%failing_ok_inv&Hrun).
  assert (Hw1 : reach any_event w w1) by (eapply read_reach, Hl).
  assert (Hw2 : reach any_event w1 w').
  { eapply emits_run; [|exact Hrun]. apply emits_bind; [apply emits_failing, (emits_read_q any_event)|]. intros gr.
    apply emits_bind; [apply emits_from|]. intros m. apply emits_ret. }
  apply bind_ok_inv in Hrun as (gr&w2&_&Hrun). apply bind_ok_inv in Hrun as (m&w3&_&Hret). injection Hret as <- _.
  apply read_ok_inv in Hl as [Hf _]. unfold some_row in Hf. destruct (find _ _) as [l'|] eqn:Hfind; [|done]. injection Hf as ->.
  apply find_elem in Hfind as [Hin Hp]. apply andb_true_iff in Hp as [[Hg Ho]%andb_true_iff Hn]. apply Z.eqb_eq in Hg.
  exists (db w1), l. split_and!; [by exists w1|done|by rewrite Hg|done..].
Qed.

Lemma private_page_status a repo viewer w st w' :
  private_page a repo viewer w = (Ok (Some st), w') -> st ∈ [404; 429].
Proof.
  unfold private_page. destruct viewer as [v|]; [|intros [= <- _]; set_solver].
  intros (member&w1&_&Hrun)%bind_ok_inv. destruct member; [done|].
  apply bind_ok_inv in Hrun as (now&w2&_&Hrun). apply bind_ok_inv in Hrun as (over&w3&_&Hrun).
  destruct over; [injection Hrun as <- _; set_solver|]. destruct (negb _); [injection Hrun as <- _; set_solver|].
  apply bind_ok_inv in Hrun as ([admitted throttled]&w4&_&Hret). simpl in Hret.
  destruct throttled, admitted; try done; injection Hret as <- _; set_solver.
Qed.

Lemma private_page_lets_in a repo viewer w w' :
  forgets w -> private_page a repo viewer w = (Ok None, w') ->
  exists evs, log w' = log w ++ evs /\ let_in (during w w') a true viewer evs.
Proof.
  intros Hw. unfold private_page. destruct viewer as [v|]; [|done].
  intros (member&w1&Hm&Hrun)%bind_ok_inv.
  assert (Hem : emits any_event (match GroupID a with Some g => isCollectiveMember v g | None => mret false end)).
  { destruct (GroupID a); [apply (emits_member any_event)|apply emits_ret]. }
  assert (Hto1 : reach any_event w w1) by (by eapply emits_run). pose proof Hto1 as (evs1&Hl1&_).
  assert (Hw1 : forgets w1).
  { assert (Hk : keeps forgets (match GroupID a with Some g => isCollectiveMember v g | None => mret false end)).
    { destruct (GroupID a); [apply keeps_member|apply keeps_ret]. }
    by eapply keeps_run. }
  destruct member.
  { injection Hrun as <-. exists evs1. split; [done|]. right; right. exists v. split; [done|]. left.
    destruct (GroupID a) as [g|]; [|done]. unfold isCollectiveMember in Hm.
    apply bind_ok_inv in Hm as (r&w2&Hr%attempt_inv&Hret). destruct r as [m|]; [|done]. injection Hret as Hp <-.
    apply read_ok_inv in Hr as [Hf _]. unfold some_row in Hf. destruct (find _ _) eqn:Hfind; [|done].
    injection Hf as ->. apply find_elem in Hfind as [Hin Hmatch]. bool_hyps.
    exists (db w2), m. apply negb_true_iff, String.eqb_neq in Hp || apply String.eqb_neq in Hp.
    split_and!; [by apply during_end|done|done|congruence|done]. }
  apply bind_ok_inv in Hrun as (now&w2&Hnow&Hrun). injection Hnow as <- <-.
  apply bind_ok_inv in Hrun as (over&w3&Hover&Hrun). destruct over; [done|].
  assert (Hto3 : reach any_event w1 w3) by (eapply emits_run; [|exact Hover]; apply (emits_locked any_event)).
  pose proof Hto3 as (evs3&Hl3&_).
  assert (Hw3 : forgets w3).
  { eapply keeps_run; [|exact Hw1|exact Hover]. by apply keeps_locked. }
  destruct (negb _) eqn:Hstate; [done|]. apply negb_false_iff, String.eqb_eq in Hstate.
  apply bind_ok_inv in Hrun as ([admitted throttled]&w4&Had&Hret). simpl in Hret.
  destruct throttled; [done|]. destruct admitted; [|done]. injection Hret as <-.
  apply admits_true in Had as (d&u&evs4&Hd&Hu&Hl4&Had); [|done].
  exists (evs1 ++ evs3 ++ evs4). split; [by rewrite Hl4, Hl3, Hl1, !(assoc_L (++))|].
  right; right. exists v. split; [done|]. right. split; [done|]. exists d, u.
  split; [apply (during_wider _ w3 w4); [by etrans|done|done]|]. split; [done|]. by do 2 apply github_admits_app.
Qed.

(** C27: who the page is served to. A page that is served is the one of the
    attachment stored for the asked pull request, and it is served to anyone when
    the collective's link says the repository is public, and when it says private
    to the attachment's author, to a member of the linking collective, or, once
    attached, to an account whose permission on the repository GitHub itself
    reported while this request was served; no remembered answer ever admits.
    Everyone else is answered 400, 404, 429 or 500 without a body, never 403. The
    tables may change meanwhile: each reading is of a moment of the request. Of
    the process's memory it is supposed that it holds refusals only when the
    request begins and that the other requests keep it so, as this one does. *)
Theorem page_admission owner name n viewer w status body w' :
  forgets w ->
  PullRequestPage owner name n viewer w = (Ok (status, body), w') ->
  forgets w' /\
  match body with
  | None => status ∈ [400; 404; 429; 500]
  | Some resp => status = 200 /\ exists a repo l w1 evs,
      linked (during w w') owner name n a l /\ isPrivate repo = LinkPrivate l /\
      attachmentResponseOf a repo viewer w1 = (Ok resp, w') /\
      log w1 = log w ++ evs /\ let_in (during w w1) a (LinkPrivate l) viewer evs
  end.
Proof.
  intros Hw Hrun. split; [eapply keeps_run; [by apply keeps_page|done..]|].
  unfold PullRequestPage in Hrun. destruct (pullRequestTarget _ _ _) as [[[o nm] num]|] eqn:Htarget.
  2:{ injection Hrun as <- <- _. set_solver. }
  apply bind_ok_inv in Hrun as (found&w1&Hfound%attempt_inv&Hrun).
  assert (Hto1 : reach any_event w w1) by (eapply read_reach, Hfound). pose proof Hto1 as (evs1&Hl1&_).
  assert (Hw1 : forgets w1) by (eapply keeps_run; [apply keeps_read|exact Hw|exact Hfound]).
  destruct found as [a|[]]; [|injection Hrun as <- <- _; set_solver..]. apply get_for_pull_run in Hfound as (_&Hrow&Hof).
  apply bind_ok_inv in Hrun as (r&w2&Hrepo%attempt_inv&Hrun).
  assert (Hto2 : reach any_event w1 w2) by (eapply emits_run; [|exact Hrepo]; apply (emits_resolve_repository any_event)).
  pose proof Hto2 as (evs2&Hl2&_).
  assert (Hw2 : forgets w2) by (eapply keeps_run; [apply keeps_repository|exact Hw1|exact Hrepo]).
  destruct r as [repo|]; [|injection Hrun as <- <- _; set_solver].
  apply bind_ok_inv in Hrun as (refused&w3&Hgate&Hrun).
  assert (Hto3 : reach any_event w2 w3).
  { eapply emits_run; [|exact Hgate]. destruct (isPrivate repo && _); [apply (emits_private_page any_event)|apply emits_ret]. }
  apply repository_linked in Hrepo as (dl&l&Hdl&Hl&Hg&Hpub&Hown&Hname).
  assert (Hin : match refused with
    | Some st => st ∈ [404; 429]
    | None => exists evs, log w3 = log w2 ++ evs /\ let_in (during w2 w3) a (LinkPrivate l) viewer evs end).
  { rewrite <- Hpub. destruct (_ && _) eqn:Hpriv.
    - apply andb_true_iff in Hpriv as [-> _]. destruct refused as [st|]; [by eapply private_page_status|by eapply private_page_lets_in].
    - injection Hgate as <- <-. exists []. rewrite app_nil_r. split; [done|].
      apply andb_false_iff in Hpriv as [Hp|Hv]; [by left|]. right; left.
      apply negb_false_iff in Hv. by apply bool_decide_eq_true in Hv. }
  destruct refused as [st|]; [injection Hrun as <- <- _; set_solver|].
  destruct Hin as (evs3&Hl3&Hin). apply bind_ok_inv in Hrun as (b&w4&Hbody%attempt_inv&Hret).
  assert (Hto4 : reach any_event w3 w4) by (eapply emits_run; [|exact Hbody]; apply (emits_response any_event)).
  destruct b as [resp|]; injection Hret as <- <- <-; [|set_solver]. split; [done|].
  assert (Hto02 : reach any_event w w2) by by etrans. assert (Hto24 : reach any_event w2 w4) by by etrans.
  exists a, repo, l, w3, ((evs1 ++ evs2) ++ evs3). split; [|split; [done|]; split; [exact Hbody|]; split; [by rewrite Hl3, Hl2, Hl1, !(assoc_L (++))|]].
  - exists o, nm, num, (db w1), dl. split_and!; try done.
    + exists w1. split_and!; [done|by etrans|done].
    + apply (during_wider _ w1 w2); done.
  - eapply let_in_wider; [|exact Hin]. intros d. by apply during_later.
Qed.
End admission.
End laws.

(** ** A private repository's page, and a reader of the repository

    Alice attached a public and a private transcript; Bob has an account, is in
    no collective, and may read the repository on GitHub. *)
Definition page_attachment (state : string) : Row :=
  mkRow 7 (Some 1) "acme" "app" 9 3 sha1 "acme/app" "acme/app" 1 (Some 777) state (Some 71) (Some 72)
    (Some 1) None None None None "digest" 1 1.

Definition page_db (attached : gmap Z Row) : Db :=
  mkDb attached
    (<[(7, "t1") := mkBinding "t1" 0 "public"]> {[(7, "t2") := mkBinding "t2" 1 "private"]})
    (transcripts (demo_db "attached"))
    (<[2 := mkUser 2 "bob" true "github" "777" None None false]> (users (demo_db "attached")))
    (groups (demo_db "attached")) [mkLink 1 1 "acme" "app" 42 true (Some 1)] []
    (members (demo_db "attached")) 8 100.

Definition page_world (state : string) : World :=
  mkWorld (page_db {[7 := page_attachment state]}) ∅ Access.no_memory [].

Definition page_repo : attachmentRepository := mkRepo 1 42 true Informational true.

Definition bob_page (w : World) : result AttachError (Z * option AttachmentResponse) * World :=
  @PullRequestPage (env_of false) ascii_tables demo_wire demo_deps "acme" "app" "3" (Some 2) w.
Definition bob_response : result AttachError AttachmentResponse * World :=
  @attachmentResponseOf (env_of false) ascii_tables demo_wire demo_deps (page_attachment "attached") page_repo
    (Some 2) (page_world "attached").

Lemma no_memory_forgets : only_refusals Access.no_memory.
Proof. intros key now b Hb. by change (None = Some b) in Hb. Qed.

(** Bob is shown the title and the prompts of the public transcript alone. *)
Lemma page_shows_witness :
  exists resp w', bob_response = (Ok resp, w') /\
    (WireTranscriptTitle <$> RespTranscripts resp) = [Some "Title of t1"; None] /\
    (Digest.ItemTranscript <$> default [] (Digest.Items <$> RespDigest resp)) = ["t1"; "t1"; "t1"] /\
    forall t, t ∈ RespTranscripts resp -> WireTranscriptTitle t <> None \/ WireSessionStart t <> None ->
      opens (@during (env_of false) (page_world "attached") w') (Some 2) (WireTranscriptID t).
Proof.
  destruct bob_response as [[resp|e] w'] eqn:Hrun.
  2:{ exfalso. apply (f_equal (fun p => is_ok p.1)) in Hrun. vm_compute in Hrun. discriminate. }
  exists resp, w'. split; [reflexivity|]. split.
  { apply (f_equal (fun p => match p.1 with Ok r => WireTranscriptTitle <$> RespTranscripts r | _ => [] end)) in Hrun.
    vm_compute in Hrun. exact (eq_sym Hrun). }
  split.
  { apply (f_equal (fun p => match p.1 with
      | Ok r => Digest.ItemTranscript <$> default [] (Digest.Items <$> RespDigest r) | _ => [] end)) in Hrun.
    vm_compute in Hrun. exact (eq_sym Hrun). }
  exact (proj1 (@page_shows_only_readable (env_of false) ascii_tables demo_wire demo_deps (page_attachment "attached") page_repo (Some 2) (page_world "attached") resp w' Hrun)).
Defined.

(** Alice is discoverable, so Bob sees her profile; Bob asked for the prompts,
    and sees himself though he is not discoverable. *)
Lemma page_people_witness :
  exists resp w', bob_response = (Ok resp, w') /\
    WireAuthor (RespAttachment resp) = Profile "1" "alice" None None /\
    WireRequestedBy (RespAttachment resp) = Some (Profile "2" "bob" None None) /\
    exists d u key, @during (env_of false) (page_world "attached") w' d /\ users d !! key = Some u /\ profile_visible d (Some 2) u = true /\
      Profile "1" "alice" None None = @publicProfile demo_deps u.
Proof.
  destruct bob_response as [[resp|e] w'] eqn:Hrun.
  2:{ exfalso. apply (f_equal (fun p => is_ok p.1)) in Hrun. vm_compute in Hrun. discriminate. }
  exists resp, w'. split; [reflexivity|].
  assert (Ha : WireAuthor (RespAttachment resp) = Profile "1" "alice" None None).
  { pose proof Hrun as Hr.
    apply (f_equal (fun p => match p.1 with Ok r => WireAuthor (RespAttachment r) | _ => Anonymous end)) in Hr.
    vm_compute in Hr. exact (eq_sym Hr). }
  split; [exact Ha|]. split.
  { pose proof Hrun as Hr.
    apply (f_equal (fun p => match p.1 with Ok r => WireRequestedBy (RespAttachment r) | _ => None end)) in Hr.
    vm_compute in Hr. exact (eq_sym Hr). }
  exact (@page_names_only_visible_people (env_of false) ascii_tables demo_wire demo_deps (page_attachment "attached") page_repo (Some 2) (page_world "attached") resp w' Hrun
    "1" "alice" None None (or_introl Ha)).
Defined.

Lemma page_admission_witness :
  exists resp w', bob_page (page_world "attached") = (Ok (200, Some resp), w') /\ forgets w' /\
    exists a repo l w1 evs, @linked ascii_tables (@during (env_of false) (page_world "attached") w') "acme" "app" "3" a l /\
      isPrivate repo = LinkPrivate l /\
      @attachmentResponseOf (env_of false) ascii_tables demo_wire demo_deps a repo (Some 2) w1 = (Ok resp, w') /\
      log w1 = evs /\ @let_in demo_wire demo_deps (@during (env_of false) (page_world "attached") w1) a (LinkPrivate l) (Some 2) evs.
Proof.
  destruct (bob_page (page_world "attached")) as [[[status body]|e] w'] eqn:Hrun.
  2:{ exfalso. apply (f_equal (fun p => is_ok p.1)) in Hrun. vm_compute in Hrun. discriminate. }
  destruct body as [resp|].
  2:{ exfalso. apply (f_equal (fun p => match p.1 with Ok (_, Some _) => true | _ => false end)) in Hrun.
      vm_compute in Hrun. discriminate. }
  destruct (@page_admission (env_of false) ascii_tables demo_wire demo_deps (fun l m Hm => Hm)
    "acme" "app" "3" (Some 2) (page_world "attached") status (Some resp) w' no_memory_forgets Hrun)
    as (Hw'&->&a&repo&l&w1&evs&?&?&?&?&?).
  exists resp, w'. split; [reflexivity|]. split; [exact Hw'|]. exists a, repo, l, w1, evs. auto.
Defined.

(** Bob has asked a hundred times already. *)
Definition exhausted : Access.Memory :=
  Access.set_limiter (Access.mkLimiter {["2" := Access.mkBucket (Access.f_of_Z 0) 5]}
    (Access.f_of_Z 0) (Access.f_of_Z 0)) Access.no_memory.

(** Also: a viewer over budget is told 429 for a pull request that has an attachment,
    in whatever state, and 404 for one that has none: the two answers differ, so
    the refusal does confirm that an attachment exists. *)
Theorem throttled_answer_tells_existence :
  (bob_page (mkWorld (page_db {[7 := page_attachment "attached"]}) ∅ exhausted [])).1 = Ok (429, None) /\
  (bob_page (mkWorld (page_db {[7 := page_attachment "preview"]}) ∅ exhausted [])).1 = Ok (429, None) /\
  (bob_page (mkWorld (page_db ∅) ∅ exhausted [])).1 = Ok (404, None).
Proof. split_and!; by_compute. Qed.
End PageLaws.
