(* ===== verification/PullReads.v ===== *)
(** * Which pull requests a reader is shown ([handler/pull_request_reads.go])

    The one visibility rule over the candidate bindings, the distinct pull
    requests it leaves, their count, the summary of each transcript on a page,
    and the three candidate statements behind them. *)
From S2P Require Import Prelude GoText PromptAttach AttachStore Attachment PullRoutes AttachmentLaws PageLaws.

Open Scope string_scope.
Open Scope list_scope.
Open Scope Z_scope.

Module PullReads.
Import PromptAttach AttachStore Attachment PullRoutes AttachmentLaws.

Definition pullRequestSummaryRecentLimit : nat := 3.

Record pullRequestCandidate : Type := mkCandidate {
  transcriptID : string;
  owner : string;
  name : string;
  number : Z;
  state : string;
  authorID : Z;
  candInstallationID : Z;
  candPrivate : bool;
  viewerIsMember : bool
}.

(** [schema.VillagePullRequestRef] and [schema.VillagePullRequestsSummary] *)
Record PullRequestRef : Type := mkRef { RefOwner : string; RefName : string; RefNumber : Z }.
Record PullRequestsSummary : Type := mkSummary { Count : Z; Recent : list PullRequestRef }.

Definition pullRequestRefOf (c : pullRequestCandidate) : PullRequestRef :=
  mkRef (owner c) (name c) (number c).
Definition emptyPullRequestsSummary : PullRequestsSummary := mkSummary 0 [].

(** Every requested transcript gets a summary. *)
Definition emptySummaries (ids : list string) : gmap string PullRequestsSummary :=
  list_to_map ((fun id => (id, emptyPullRequestsSummary)) <$> ids).

Definition pullRequestReadable (viewer : option Z) (c : pullRequestCandidate) : bool :=
  if negb (candPrivate c) then true
  else match viewer with
  | None => false
  | Some v => (v =? authorID c) || viewerIsMember c
  end.

Section reads.
Context `{UnicodeTables}.

Definition pullRequestKey (c : pullRequestCandidate) : string := pullRequestKeyOf (owner c) (name c) (number c).

(** The loop; [seen] are the (transcript, pull request) pairs already kept. *)
Fixpoint readable_from (viewer : option Z) (seen : gset (string * string))
    (candidates : list pullRequestCandidate) : list pullRequestCandidate :=
  match candidates with
  | [] => []
  | c :: rest =>
    let key := (transcriptID c, pullRequestKey c) in
    if bool_decide (key ∈ seen) || negb (pullRequestReadable viewer c) then readable_from viewer seen rest
    else c :: readable_from viewer ({[key]} ∪ seen) rest
  end.
Definition readablePullRequests (viewer : option Z) (candidates : list pullRequestCandidate) :
    list pullRequestCandidate := readable_from viewer ∅ candidates.

Definition countReadablePullRequests (viewer : option Z) (candidates : list pullRequestCandidate) : Z :=
  wrap32 (Z.of_nat (size (list_to_set (pullRequestKey <$> readablePullRequests viewer candidates) : gset string))).

Definition summarise (summaries : gmap string PullRequestsSummary) (c : pullRequestCandidate) :
    gmap string PullRequestsSummary :=
  match summaries !! transcriptID c with
  | None => summaries
  | Some s =>
    <[transcriptID c := mkSummary (Count s + 1)
      (if (length (Recent s) <? pullRequestSummaryRecentLimit)%nat then Recent s ++ [pullRequestRefOf c]
       else Recent s)]> summaries
  end.

(** ** The candidate statements *)
Section statements.
Context `{Env}.

(** One row per binding, attachment and link of the attachment's collective. *)
Definition rows_of (d : Db) (viewer : option Z) (b : (Z * string) * Binding) :
    list (Row * pullRequestCandidate) :=
  match attachments d !! b.1.1 with
  | None => []
  | Some a =>
    match GroupID a with
    | None => []
    | Some g =>
      (fun l => (a, mkCandidate b.1.2 (RepoOwner a) (RepoName a) (Number a) (RowState a) (AuthorID a)
         (InstallationID l) (LinkPrivate l)
         (match viewer with
          | None => false
          | Some v => existsb (fun m => (MemGroup m =? g) && (MemUser m =? v) &&
              negb (String.eqb (MemRole m) "pending")) (members d)
          end))) <$>
      List.filter (fun l => (LinkGroup l =? g) && same_name (LinkOwner l) (RepoOwner a) &&
        same_name (LinkName l) (RepoName a)) (links d)
    end
  end.

(** GREATEST ignores NULL *)
Definition latest_move (a : Row) : option Z :=
  match AttachedAt a, DetachedAt a with
  | Some x, Some y => Some (Z.max x y)
  | Some x, None => Some x
  | None, y => y
  end.

(** One sort key after another; [lt] decides unless the keys are equal. *)
Definition by_key {A K} (key : A -> K) (lt : K -> K -> bool) (rest : A -> A -> bool) (a b : A) : bool :=
  lt (key a) (key b) || (negb (lt (key b) (key a)) && rest a b).
(** DESC NULLS LAST *)
Definition later_first (x y : option Z) : bool :=
  match x, y with Some x, Some y => y <? x | Some _, None => true | None, _ => false end.

(** ORDER BY pt.transcript_id, GREATEST(a.attached_at, a.detached_at) DESC NULLS
    LAST, lower(a.repo_owner), lower(a.repo_name), a.number, a.id *)
Definition moved_later : Row * pullRequestCandidate -> Row * pullRequestCandidate -> bool :=
  by_key (fun p => transcriptID p.2) String.ltb (by_key (fun p => latest_move p.1) later_first
    (by_key (fun p => to_lower (RepoOwner p.1)) String.ltb (by_key (fun p => to_lower (RepoName p.1)) String.ltb
      (by_key (fun p => Number p.1) Z.ltb (fun p q => ID p.1 <? ID q.1))))).
(** ORDER BY a.id, pt.transcript_id *)
Definition earlier_id (p q : Row * pullRequestCandidate) : bool :=
  (ID p.1 <? ID q.1) || ((ID p.1 =? ID q.1) && String.ltb (transcriptID p.2) (transcriptID q.2)).

Definition candidate_rows (d : Db) (viewer : option Z) (wanted : string -> bool) (states : list string)
    (before : Row * pullRequestCandidate -> Row * pullRequestCandidate -> bool) : list pullRequestCandidate :=
  snd <$> sort_stable before (List.filter (fun p => existsb (String.eqb (state p.2)) states)
    (concat (rows_of d viewer <$> List.filter (fun b => wanted b.1.2) (map_to_list (bindings d))))).

Definition sql_candidates_by_transcripts (viewer : option Z) (ids states : list string) :
    M World QueryError (list pullRequestCandidate) :=
  read QueryFailed "ListPullRequestCandidatesByTranscripts" (fun d =>
    Ok (candidate_rows d viewer (fun t => existsb (String.eqb t) ids) states moved_later)).

Definition sql_candidates_by_owner (viewer : option Z) (person : Z) : M World QueryError (list pullRequestCandidate) :=
  read QueryFailed "ListAttachedPullRequestCandidatesByOwner" (fun d =>
    Ok (candidate_rows d viewer (fun t => match transcripts d !! t with
      | Some row => OwnerID row =? person | None => false end) ["attached"] earlier_id)).

Definition sql_candidates_by_group (viewer : option Z) (group : Z) : M World QueryError (list pullRequestCandidate) :=
  read QueryFailed "ListAttachedPullRequestCandidatesByGroup" (fun d =>
    Ok (candidate_rows d viewer (fun t => existsb (fun s => String.eqb (ShTranscript s) t &&
      (ShGroup s =? group) && String.eqb (ShStatus s) "approved") (shares d)) ["attached"] earlier_id)).

(** ** The reads *)
Definition pullRequestSummaries (viewer : option Z) (ids : list string) :
    M World QueryError (gmap string PullRequestsSummary) :=
  match ids with
  | [] => mret ∅
  | _ =>
    rows ← sql_candidates_by_transcripts viewer ids [state_string Attached];
    mret (foldl summarise (emptySummaries ids) (readablePullRequests viewer rows))
  end.

Definition collectivePullRequestCountFor (viewer : option Z) (group : Z) (canRead : bool) : M World QueryError Z :=
  if negb canRead then mret 0
  else rows ← sql_candidates_by_group viewer group; mret (countReadablePullRequests viewer rows).

(** The pull request total of [GetMyStats]. *)
Definition myPullRequestCount (user : Z) : M World QueryError Z :=
  rows ← sql_candidates_by_owner (Some user) user;
  mret (countReadablePullRequests (Some user) rows).
End statements.

(** ** The distinct readable pull requests *)
Definition pair_of (c : pullRequestCandidate) : string * string := (transcriptID c, pullRequestKey c).

Lemma readable_from_spec viewer seen cs :
  let out := readable_from viewer seen cs in
  out `sublist_of` cs /\ NoDup (pair_of <$> out) /\
  (forall c, c ∈ out -> pullRequestReadable viewer c = true /\ pair_of c ∉ seen) /\
  (forall c, c ∈ cs -> pullRequestReadable viewer c = true ->
    pair_of c ∈ seen \/ pair_of c ∈ pair_of <$> out).
Proof.
  cbv zeta. revert seen. induction cs as [|c cs IH]; intros seen; cbn [readable_from]; cbv zeta.
  { split_and!; [constructor|apply NoDup_nil_2|set_solver|set_solver]. }
  fold (pair_of c). case_bool_decide as Hseen; simpl.
  { destruct (IH seen) as (Hs&Hn&Ho&Hc). split_and!; [by constructor|done|done|].
    intros x [->|Hx]%elem_of_cons Hr; [by left|by apply Hc]. }
  destruct (pullRequestReadable viewer c) eqn:Hread; simpl.
  2:{ destruct (IH seen) as (Hs&Hn&Ho&Hc). split_and!; [by constructor|done|done|].
      intros x [->|Hx]%elem_of_cons Hr; [congruence|by apply Hc]. }
  destruct (IH ({[pair_of c]} ∪ seen)) as (Hs&Hn&Ho&Hc). split_and!.
  - by constructor.
  - apply NoDup_cons. split; [|done]. intros (x&Hx&Hin)%list_elem_of_fmap. apply Ho in Hin as [_ Hin].
    rewrite <- Hx in Hin. set_solver.
  - intros x [->|Hx]%elem_of_cons; [done|]. apply Ho in Hx as [? ?]. set_solver.
  - intros x [->|Hx]%elem_of_cons Hr; [right; by left|]. destruct (Hc x Hx Hr) as [Hin|Hin].
    + apply elem_of_union in Hin as [->%elem_of_singleton|]; [right; by left|by left].
    + right. by right.
Qed.

(** ** The candidates, declaratively *)
Section seen.
Context (d : Db) (viewer : option Z).

(** The viewer belongs to the collective; asking to join is not belonging. *)
Definition belongs (g : Z) : Prop :=
  exists v m, viewer = Some v /\ m ∈ members d /\ MemGroup m = g /\ MemUser m = v /\ MemRole m <> "pending".

(** [c] is the pull request of an attachment that binds [c]'s transcript and
    whose repository its collective links now. *)
Definition bound_candidate (c : pullRequestCandidate) : Prop :=
  exists aid b a g l, bindings d !! (aid, transcriptID c) = Some b /\ attachments d !! aid = Some a /\
    GroupID a = Some g /\ l ∈ links d /\ LinkGroup l = g /\
    same_name (LinkOwner l) (RepoOwner a) = true /\ same_name (LinkName l) (RepoName a) = true /\
    owner c = RepoOwner a /\ name c = RepoName a /\ number c = Number a /\ state c = RowState a /\
    authorID c = AuthorID a /\ candInstallationID c = InstallationID l /\ candPrivate c = LinkPrivate l /\
    (viewerIsMember c = true <-> belongs g).

(** What the viewer may be shown: attached, and public, their own, or of a
    collective they belong to. *)
Definition shown (c : pullRequestCandidate) : Prop :=
  bound_candidate c /\ state c = "attached" /\
  (candPrivate c = false \/ exists v, viewer = Some v /\ (authorID c = v \/ viewerIsMember c = true)).

Lemma member_flag g :
  (match viewer with
   | None => false
   | Some v => existsb (fun m => (MemGroup m =? g) && (MemUser m =? v) && negb (String.eqb (MemRole m) "pending"))
       (members d)
   end) = true <-> belongs g.
Proof.
  unfold belongs. destruct viewer as [v|]; [|split; [done|by intros (?&?&?&_)]].
  rewrite existsb_exists. split.
  - intros (m&Hin%list_elem_of_In&Hm). exists v, m. bool_hyps.
    apply String.eqb_neq in H1. done.
  - intros (?&m&[= <-]&Hin%list_elem_of_In&<-&<-&Hp). exists m. split; [done|].
    rewrite !Z.eqb_refl. simpl. by apply negb_true_iff, String.eqb_neq.
Qed.

Lemma rows_of_elem b p :
  b ∈ map_to_list (bindings d) -> p ∈ rows_of d viewer b -> bound_candidate p.2 /\ transcriptID p.2 = b.1.2.
Proof.
  destruct b as [[aid t] b]. intros Hb%elem_of_map_to_list. unfold rows_of. simpl.
  destruct (attachments d !! aid) as [a|] eqn:Ha; [|set_solver]. destruct (GroupID a) as [g|] eqn:Hg; [|set_solver].
  intros (l&->&[Hin Hl]%elem_of_list_filter)%list_elem_of_fmap. split; [|done].
  apply andb_true_iff in Hl as [[Hlg Hlo]%andb_true_iff Hln]. apply Z.eqb_eq in Hlg.
  exists aid, b, a, g, l. split_and!; try done. apply member_flag.
Qed.

Lemma rows_of_complete c : bound_candidate c ->
  exists b p, b ∈ map_to_list (bindings d) /\ b.1.2 = transcriptID c /\ p ∈ rows_of d viewer b /\ p.2 = c.
Proof.
  intros (aid&b&a&g&l&Hb&Ha&Hg&Hin&Hlg&Hlo&Hln&Ho&Hn&Hnum&Hst&Hau&Hinst&Hpr&Hmem).
  exists ((aid, transcriptID c), b), (a, c). split; [by apply elem_of_map_to_list|]. split; [done|]. split; [|done].
  unfold rows_of. simpl. rewrite Ha, Hg. apply list_elem_of_fmap. exists l. split.
  - f_equal. destruct c; simpl in *; subst. f_equal.
    match goal with |- ?x = ?y => destruct x eqn:Hx, y eqn:Hy; try done end.
    + by rewrite <- Hy; symmetry; apply member_flag, Hmem.
    + apply member_flag, Hmem in Hy. done.
  - apply elem_of_list_filter. split; [done|]. by rewrite Hlo, Hln, Hlg, Z.eqb_refl.
Qed.

Lemma candidate_rows_elem wanted states before c :
  c ∈ candidate_rows d viewer wanted states before <->
  bound_candidate c /\ wanted (transcriptID c) = true /\ state c ∈ states.
Proof.
  unfold candidate_rows. rewrite list_elem_of_fmap. split.
  - intros (p&->&Hp). apply elem_of_sort_stable, elem_of_list_filter in Hp as [Hp Hst].
    apply list_elem_of_In, in_concat in Hp as (rows&Hrows%list_elem_of_In&Hp%list_elem_of_In).
    apply list_elem_of_fmap in Hrows as (b&->&[Hb Hw]%elem_of_list_filter).
    destruct (rows_of_elem _ _ Hb Hp) as [Hbound Ht]. rewrite Ht. split_and!; [done..|].
    apply existsb_exists in Hst as (x&Hx%list_elem_of_In&->%String.eqb_eq). done.
  - intros (Hbound&Hw&Hst). destruct (rows_of_complete c Hbound) as (b&p&Hb&Hbt&Hp&<-).
    exists p. split; [done|]. apply elem_of_sort_stable, elem_of_list_filter. split.
    + apply list_elem_of_In, in_concat. exists (rows_of d viewer b). rewrite <- !list_elem_of_In. split; [|done].
      apply list_elem_of_fmap. exists b. split; [done|]. apply elem_of_list_filter. by rewrite Hbt.
    + apply existsb_exists. exists (state p.2). rewrite <- list_elem_of_In. split; [done|apply String.eqb_refl].
Qed.

Lemma readable_shown c : pullRequestReadable viewer c = true <->
  candPrivate c = false \/ exists v, viewer = Some v /\ (authorID c = v \/ viewerIsMember c = true).
Proof.
  unfold pullRequestReadable. destruct (candPrivate c); simpl; [|by split; [left|]].
  destruct viewer as [v|]; [|split; [done|by intros [|(?&?&_)]]].
  rewrite orb_true_iff, Z.eqb_eq. split.
  - intros [Hv|Hv]; right; exists v; eauto.
  - intros [|(?&[= <-]&[|])]; [done|by left|by right].
Qed.
End seen.

(** ** Summaries and counts *)
Lemma summarise_lookup cs (m : gmap string PullRequestsSummary) id :
  let mine := List.filter (fun c => String.eqb (transcriptID c) id) cs in
  foldl summarise m cs !! id =
  (fun s => mkSummary (Count s + Z.of_nat (length mine))
     (Recent s ++ take (pullRequestSummaryRecentLimit - length (Recent s)) (pullRequestRefOf <$> mine))) <$> m !! id.
Proof.
  cbv zeta. revert m. induction cs as [|c cs IH]; intros m; simpl.
  { destruct (m !! id) as [[n r]|]; simpl; [|done]. by rewrite take_nil, app_nil_r, Z.add_0_r. }
  rewrite IH. unfold summarise. destruct (String.eqb_spec (transcriptID c) id) as [<-|Hne].
  - destruct (m !! transcriptID c) as [[n r]|] eqn:Hm; rewrite ?lookup_insert_eq, ?Hm; simpl; [|done].
    do 2 f_equal; [lia|]. destruct (Nat.ltb_spec (length r) pullRequestSummaryRecentLimit) as [Hlt|Hge].
    + rewrite length_app, <- (assoc_L (++)). simpl.
      replace (pullRequestSummaryRecentLimit - length r)%nat with
        (S (pullRequestSummaryRecentLimit - (length r + 1)))%nat by lia. done.
    + by replace (pullRequestSummaryRecentLimit - length r)%nat with 0%nat by lia.
  - destruct (m !! transcriptID c) as [s|]; [|done]. by rewrite lookup_insert_ne.
Qed.

Lemma fresh_summaries ids id :
  emptySummaries ids !! id =
  (if decide (id ∈ ids) then Some emptyPullRequestsSummary else None).
Proof.
  unfold emptySummaries. induction ids as [|i ids IH]; [done|]. rewrite fmap_cons, list_to_map_cons.
  destruct (decide (i = id)) as [->|Hne].
  - rewrite lookup_insert_eq, decide_True; [done|]. by left.
  - rewrite lookup_insert_ne by done. rewrite IH. destruct (decide (id ∈ ids)), (decide (id ∈ i :: ids)); try done; set_solver.
Qed.

(** The kept candidates of one transcript, in order. *)
Definition kept (viewer : option Z) (rows : list pullRequestCandidate) (id : string) : list pullRequestCandidate :=
  List.filter (fun c => String.eqb (transcriptID c) id) (readablePullRequests viewer rows).

Lemma kept_spec viewer rows id :
  NoDup (pullRequestKey <$> kept viewer rows id) /\
  forall key, key ∈ pullRequestKey <$> kept viewer rows id <->
    exists c, c ∈ rows /\ pullRequestReadable viewer c = true /\ transcriptID c = id /\ pullRequestKey c = key.
Proof.
  destruct (readable_from_spec viewer ∅ rows) as (Hsub&Hnd&Hout&Hcomp). cbv zeta in *.
  fold (readablePullRequests viewer rows) in *. unfold kept. split.
  - clear Hsub Hout Hcomp. induction (readablePullRequests viewer rows) as [|c out IH]; simpl; [apply NoDup_nil_2|].
    apply NoDup_cons in Hnd as [Hc Hnd]. destruct (String.eqb_spec (transcriptID c) id) as [<-|]; [|by apply IH].
    simpl. apply NoDup_cons. split; [|by apply IH]. intros (x&Hx&[Hin Hid]%elem_of_list_filter)%list_elem_of_fmap.
    apply Hc, list_elem_of_fmap. exists x. split; [|done]. apply String.eqb_eq in Hid.
    unfold pair_of. by rewrite Hid, Hx.
  - intros key. rewrite list_elem_of_fmap. split.
    + intros (c&->&[Hin Hid%String.eqb_eq]%elem_of_list_filter). exists c. apply Hout in Hin as Hr.
      split_and!; [by eapply elem_of_submseteq, sublist_submseteq|by destruct Hr|done..].
    + intros (c&Hin&Hr&<-&<-). destruct (Hcomp c Hin Hr) as [|(x&Hx&Hxin)%list_elem_of_fmap]; [set_solver|].
      unfold pair_of in Hx. injection Hx as Ht Hk. exists x. split; [done|]. apply elem_of_list_filter.
      split; [done|]. by apply String.eqb_eq.
Qed.

Lemma count_spec viewer rows :
  exists keys : gset string, countReadablePullRequests viewer rows = wrap32 (Z.of_nat (size keys)) /\
    forall key, key ∈ keys <-> exists c, c ∈ rows /\ pullRequestReadable viewer c = true /\ pullRequestKey c = key.
Proof.
  eexists. split; [done|]. intros key. rewrite elem_of_list_to_set, list_elem_of_fmap.
  destruct (readable_from_spec viewer ∅ rows) as (Hsub&_&Hout&Hcomp). cbv zeta in *.
  fold (readablePullRequests viewer rows) in *. split.
  - intros (c&->&Hin). exists c. split_and!; [by eapply elem_of_submseteq, sublist_submseteq|by apply Hout|done].
  - intros (c&Hin&Hr&<-). destruct (Hcomp c Hin Hr) as [|(x&Hx&Hxin)%list_elem_of_fmap]; [set_solver|].
    injection Hx as Ht Hk. by exists x.
Qed.

Section reading.
Context `{Env}.

Lemma shown_iff d viewer wanted before c :
  c ∈ candidate_rows d viewer wanted ["attached"] before /\ pullRequestReadable viewer c = true <->
  shown d viewer c /\ wanted (transcriptID c) = true.
Proof.
  rewrite candidate_rows_elem, readable_shown. unfold shown. rewrite list_elem_of_singleton. tauto.
Qed.

(** Also: the summary on a transcript's row counts exactly the distinct pull
    requests, attached now, that the viewer may read, and names up to three of
    them, each once: a pull request of a private repository is counted for its
    author and for members of the linking collective and for no one else,
    however many attachments and links lead to it. *)
Theorem summaries_count_readable viewer ids w res w' :
  ids <> [] -> pullRequestSummaries viewer ids w = (Ok res, w') ->
  let d := db w' in
  forall id, match res !! id with
  | None => id ∉ ids
  | Some s => id ∈ ids /\ exists cs, Count s = Z.of_nat (length cs) /\
      Recent s = take 3 (pullRequestRefOf <$> cs) /\ NoDup (pullRequestKey <$> cs) /\
      forall key, key ∈ pullRequestKey <$> cs <->
        exists c, shown d viewer c /\ transcriptID c = id /\ pullRequestKey c = key
  end.
Proof.
  intros Hids Hrun d id. unfold pullRequestSummaries in Hrun. destruct ids as [|i ids]; [done|].
  apply bind_ok_inv in Hrun as (rows&w1&Hrows&Hret). injection Hret as <- <-.
  apply PageLaws.read_ok_inv in Hrows as [Hrows _]. injection Hrows as Hrows. fold d in Hrows.
  rewrite summarise_lookup, fresh_summaries. destruct (decide (id ∈ i :: ids)) as [Hin|]; simpl; [|done].
  split; [done|]. destruct (kept_spec viewer rows id) as [Hnd Hkeys]. exists (kept viewer rows id).
  split_and!; [done|done|done|]. intros key. rewrite Hkeys. split.
  - intros (c&Hc&Hr&<-&<-). exists c. split; [|done]. subst rows. by eapply shown_iff.
  - intros (c&Hs&<-&<-). exists c. subst rows.
    assert (Hw : existsb (String.eqb (transcriptID c)) (i :: ids) = true).
    { apply existsb_exists. exists (transcriptID c). rewrite <- list_elem_of_In. split; [done|apply String.eqb_refl]. }
    destruct (proj2 (shown_iff d viewer (fun t => existsb (String.eqb t) (i :: ids)) moved_later c)
      (conj Hs Hw)) as [? ?]. done.
Qed.

(** Also: the collective's total and the caller's own count the distinct pull
    requests the viewer may be shown among the transcripts in question, and the
    collective's is zero, without a look, for a viewer it withholds its
    transcripts from. *)
Theorem totals_count_readable viewer group canRead w n w' :
  collectivePullRequestCountFor viewer group canRead w = (Ok n, w') ->
  let d := db w' in
  if canRead then exists keys : gset string, n = wrap32 (Z.of_nat (size keys)) /\
    forall key, key ∈ keys <-> exists c s, shown d viewer c /\ pullRequestKey c = key /\ s ∈ shares d /\
      ShTranscript s = transcriptID c /\ ShGroup s = group /\ ShStatus s = "approved"
  else n = 0 /\ w' = w.
Proof.
  unfold collectivePullRequestCountFor. destruct canRead; simpl; [|by intros [= <- <-]].
  intros (rows&w1&Hrows&Hret)%bind_ok_inv. injection Hret as <- <-.
  apply PageLaws.read_ok_inv in Hrows as [Hrows _]. injection Hrows as Hrows.
  destruct (count_spec viewer rows) as (keys&Hn&Hkeys). exists keys. split; [done|].
  intros key. rewrite Hkeys. subst rows. split.
  - intros (c&Hc&Hr&<-). destruct (proj1 (shown_iff _ _ _ _ _) (conj Hc Hr)) as [Hs Hw].
    apply existsb_exists in Hw as (s&Hin&Hs'). rewrite <- list_elem_of_In in Hin.
    apply andb_true_iff in Hs' as [[Ht Hg]%andb_true_iff Hst]. apply String.eqb_eq in Ht, Hst. apply Z.eqb_eq in Hg.
    by exists c, s.
  - intros (c&s&Hs&<-&Hin&Ht&Hg&Hst). exists c.
    match goal with |- c ∈ candidate_rows ?d ?v ?wanted _ ?before /\ _ =>
      assert (Hw : wanted (transcriptID c) = true);
        [|destruct (proj2 (shown_iff d v wanted before c) (conj Hs Hw)) as [? ?]; done] end.
    apply existsb_exists. exists s. rewrite <- list_elem_of_In. split; [done|].
    by rewrite Ht, Hg, Hst, !String.eqb_refl, Z.eqb_refl.
Qed.
End reading.
End reads.

(** Bob is not in the collective that linked the private repository; Alice is. *)
Lemma summaries_witness :
  exists res w', @pullRequestSummaries ascii_tables (env_of false) (Some 1) ["t1"; "t2"]
      (PageLaws.page_world "attached") = (Ok res, w') /\
    res !! "t1" = Some (mkSummary 1 [mkRef "acme" "app" 3]) /\
    exists cs, 1 = Z.of_nat (length cs) /\ [mkRef "acme" "app" 3] = take 3 (pullRequestRefOf <$> cs).
Proof.
  destruct (@pullRequestSummaries ascii_tables (env_of false) (Some 1) ["t1"; "t2"]
    (PageLaws.page_world "attached")) as [[res|e] w'] eqn:Hrun.
  2:{ exfalso. apply (f_equal (fun p => is_ok p.1)) in Hrun. vm_compute in Hrun. discriminate. }
  assert (Hr : res !! "t1" = Some (mkSummary 1 [mkRef "acme" "app" 3])).
  { pose proof Hrun as Hr.
    apply (f_equal (fun p => match p.1 with Ok r => (r : gmap string _) !! "t1" | _ => None end)) in Hr.
    vm_compute in Hr. exact (eq_sym Hr). }
  exists res, w'. split; [reflexivity|]. split; [exact Hr|].
  pose proof (@summaries_count_readable ascii_tables (env_of false) (Some 1) ["t1"; "t2"]
    (PageLaws.page_world "attached") res w' ltac:(discriminate) Hrun "t1") as Hs.
  cbv zeta in Hs. rewrite Hr in Hs. destruct Hs as (_&cs&Hn&Hrec&_). exists cs. split; [exact Hn|exact Hrec].
Defined.

Lemma totals_witness :
  exists w', @collectivePullRequestCountFor ascii_tables (env_of false) (Some 2) 1 true
      (PageLaws.page_world "attached") = (Ok 0, w') /\
    exists keys : gset string, 0 = wrap32 (Z.of_nat (size keys)).
Proof.
  destruct (@collectivePullRequestCountFor ascii_tables (env_of false) (Some 2) 1 true
    (PageLaws.page_world "attached")) as [r w'] eqn:Hrun.
  assert (r = Ok 0) as -> by (apply (f_equal fst) in Hrun; vm_compute in Hrun; exact (eq_sym Hrun)).
  exists w'. split; [reflexivity|].
  destruct (@totals_count_readable ascii_tables (env_of false) (Some 2) 1 true
    (PageLaws.page_world "attached") 0 w' Hrun) as (keys&Hn&_). exists keys. exact Hn.
Defined.
End PullReads.
