(* ===== verification/BlobStore.v ===== *)
(** * Transcript bodies at rest ([internal/storage], [config/transcript_keyring.go])

    A transcript generation is sealed under a fresh data key, the data key is
    wrapped by the key ring, and the sealed bytes go to an object store; the row
    keeps the descriptor. AES-GCM, SHA3 and the system's random source are the
    interface [Crypto]; object storage, with everyone else who writes there, is
    [BlobEnv]. A transcript's UUID is its canonical text, and [[]byte] a string. *)
From S2P Require Import Prelude GoText Regex.

Open Scope string_scope.
Open Scope list_scope.
Open Scope Z_scope.

Module BlobStore.

(** ** Cryptography *)

(** [Seal] of [cipher.NewGCMWithRandomNonce] puts the nonce it drew in front;
    [Open] finds it there. *)
Class Crypto : Type := {
  gcm_seal : string -> string -> string -> string -> string;  (** key, nonce, plaintext, aad *)
  gcm_open : string -> string -> string -> option string;     (** key, sealed, aad *)
  sha3_256 : string -> string
}.

(** AES-GCM opens what it sealed, and nothing else: the tag of a sealed text is
    a function of key, nonce, plaintext and associated data, and [Open]
    recomputes it. The output carries nonce and tag beside the plaintext. *)
Class CryptoLaws `{Crypto} : Prop := {
  open_seal : forall k n p a, gcm_open k (gcm_seal k n p a) a = Some p;
  open_sound : forall k c a p, gcm_open k c a = Some p -> exists n, c = gcm_seal k n p a;
  seal_longer : forall k n p a, blen p < blen (gcm_seal k n p a);
  sha3_length : forall p, blen (sha3_256 p) = 32
}.

(** The security AES-GCM is used for, taken as perfect: a sealed text does not
    authenticate under other associated data. *)
Class CryptoBinds `{Crypto} : Prop := {
  seal_binds : forall k n p a n' p' a', gcm_seal k n p a = gcm_seal k n' p' a' -> a = a'
}.

(** ** Descriptors ([storage/contracts.go]) *)
Definition EncryptionAES256GCMRandomNonceV1 : string := "aes-256-gcm-random-nonce-v1".
Definition ciphertextContentType : string := "application/octet-stream".

Definition hexes (n : nat) : regex := rrep (RClass cls_hex) n.
Definition canonicalContentHash : regex := hexes 64.
(** [^transcripts/[0-9a-f]{8}-[0-9a-f]{4}-[1-8][0-9a-f]{3}-[89ab][0-9a-f]{3}-[0-9a-f]{12}\.bin$] *)
Definition opaqueObjectKey : regex := foldr RSeq REps
  [rstr "transcripts/"; hexes 8; rlit 45; hexes 4; rlit 45; RClass (between 49 56); hexes 3; rlit 45;
   RClass (cls_in "89ab"); hexes 3; rlit 45; hexes 12; rstr ".bin"].

Record BlobDescriptor : Type := mkDescriptor {
  objectKey : string;
  wrappedDEK : string;
  algorithm : string;
  keyVersion : Z
}.
#[export] Instance descriptor_eq_dec : EqDecision BlobDescriptor.
Proof. solve_decision. Defined.

Record ContentIdentity : Type := mkIdentity { hash : string; plaintextSize : Z }.
#[export] Instance identity_eq_dec : EqDecision ContentIdentity.
Proof. solve_decision. Defined.
Definition zeroIdentity : ContentIdentity := mkIdentity "" 0.

Record MetadataObject : Type := mkMetadata { metadataKey : string; metadataIdentity : ContentIdentity }.

(** [ContentIdentityStatus] with the identity it goes with; any other status is
    an identity no reader accepts. *)
Inductive LoadedContentIdentity : Type :=
| LoadedKnown (i : ContentIdentity)
| LoadedPending (i : ContentIdentity)
| LoadedOther.

Inductive KeyError : Type := EKeyVersion | EKeyAuth | EKeyCipher.

Inductive BlobError : Type :=
| ENilID
| ERandom
| EKey (e : KeyError)
| EDescriptor
| EIdentity
| ESameKey
| EMetadataKey
| EPut
| EPutMetadata
| ECleanup (key : string)   (** [UncommittedObjectCleanupError] *)
| ELoaded
| EAlgorithm
| EObjectNotFound
| EGet
| EContentType
| EDEKLength
| EAuthentication
| EMismatch
| EDelete.

Definition NewBlobDescriptor (key wrapped algorithm : string) (version : Z) : option BlobDescriptor :=
  if negb (match_full opaqueObjectKey key) || String.eqb wrapped "" ||
     negb (String.eqb algorithm EncryptionAES256GCMRandomNonceV1) || (version <=? 0)
  then None else Some (mkDescriptor key wrapped algorithm version).

Definition validIdentity (i : ContentIdentity) : bool :=
  match_full canonicalContentHash (hash i) && (0 <=? plaintextSize i).
Definition NewContentIdentity (hash : string) (size : Z) : option ContentIdentity :=
  if validIdentity (mkIdentity hash size) then Some (mkIdentity hash size) else None.

Definition NewMetadataObject (key hash : string) (size : Z) : option MetadataObject :=
  if negb (match_full opaqueObjectKey key) then None
  else mkMetadata key <$> NewContentIdentity hash size.

(** A NULL hash is pending whatever the size, unless the size is negative. *)
Definition NewLoadedContentIdentity (hash : option string) (size : option Z) : option LoadedContentIdentity :=
  match hash with
  | None => match size with
    | Some n => if n <? 0 then None else Some (LoadedPending zeroIdentity)
    | None => Some (LoadedPending zeroIdentity)
    end
  | Some h => match size with
    | None => None
    | Some n => LoadedKnown <$> NewContentIdentity h n
    end
  end.

Definition loadedValid (i : LoadedContentIdentity) : bool :=
  match i with
  | LoadedPending i => bool_decide (i = zeroIdentity)
  | LoadedKnown i => validIdentity i
  | LoadedOther => false
  end.

(** ** Key custody *)

(** The interface the store declares. A custodian that draws randomness of its
    own is handed it. *)
Class KeyCustodian : Type := {
  Wrap : string -> string -> string -> result KeyError (string * Z);         (** entropy, key, aad *)
  Unwrap : string -> Z -> string -> result KeyError string;                  (** wrapped, version, aad *)
  Rewrap : string -> string -> Z -> string -> result KeyError (string * Z)   (** entropy, wrapped, version, aad *)
}.

(** What a custodian promises: a wrapped key is unwrapped again, under the same
    associated data; rewrapping keeps the key; what it hands out can be put in a
    descriptor. *)
Class CustodianLaws `{KeyCustodian} : Prop := {
  wrap_unwrap : forall n k a w v, Wrap n k a = Ok (w, v) -> Unwrap w v a = Ok k;
  wrap_usable : forall n k a w v, Wrap n k a = Ok (w, v) -> w <> "" /\ 0 < v;
  rewrap_unwrap : forall n w v a w' v', Rewrap n w v a = Ok (w', v') ->
    w' <> "" /\ 0 < v' /\ exists k, Unwrap w v a = Ok k /\ Unwrap w' v' a = Ok k
}.

(** A wrapped key is unwrapped for what it was wrapped for only. *)
Class CustodianBinds `{KeyCustodian} : Prop := {
  wrap_binds : forall n k a w v a' k', Wrap n k a = Ok (w, v) -> Unwrap w v a' = Ok k' -> a' = a
}.

(** ** The key ring ([config/transcript_keyring.go]) *)
Record TranscriptKeyring : Type := mkKeyring { active : Z; keys : gmap Z string }.

(** [strconv.ParseInt(s, 10, 32)] *)
Definition parse_int32 (s : string) : option Z :=
  match atoi s with
  | Some n => if (- 2 ^ 31 <=? n) && (n <? 2 ^ 31) then Some n else None
  | None => None
  end.
Definition parse_version (s : string) : option Z :=
  match parse_int32 s with Some v => if v <=? 0 then None else Some v | None => None end.

(** [base64.StdEncoding.Strict()]: line breaks are skipped, the last quantum is
    padded, and its unused bits are zero. *)
Definition b64_value (c : Z) : option Z :=
  if between 65 90 c then Some (c - 65)
  else if between 97 122 c then Some (c - 71)
  else if between 48 57 c then Some (c + 4)
  else if c =? 43 then Some 62
  else if c =? 47 then Some 63
  else None.

Fixpoint b64_quanta (l : list Z) : option (list Z) :=
  match l with
  | [] => Some []
  | a :: b :: c :: d :: rest =>
    a ← b64_value a;
    b ← b64_value b;
    if (c =? 61) && (d =? 61) then
      if bool_decide (rest = []) && (b mod 16 =? 0) then Some [a * 4 + b / 16] else None
    else
      c ← b64_value c;
      if d =? 61 then
        if bool_decide (rest = []) && (c mod 4 =? 0)
        then Some [a * 4 + b / 16; (b mod 16) * 16 + c / 4] else None
      else
        d ← b64_value d;
        rest ← b64_quanta rest;
        Some (a * 4 + b / 16 :: (b mod 16) * 16 + c / 4 :: (c mod 4) * 64 + d :: rest)
  | _ => None
  end.
Definition base64_decode (s : string) : option string :=
  of_bytes <$> b64_quanta (List.filter (fun c => negb ((c =? 10) || (c =? 13))) (bytes s)).

(** What the JSON decoder finds, token by token: a document that is no object;
    or its members in order, a member that cannot be decoded being [None] and a
    value that is not a string likewise; and whether the object closes and the
    text ends there. *)
Record KeyringDocument : Type := mkDocument {
  docIsObject : bool;
  docMembers : list (option (string * option string));
  docCloses : bool;
  docEnds : bool
}.

Fixpoint parse_members (found : gmap Z string) (members : list (option (string * option string))) :
    option (gmap Z string) :=
  match members with
  | [] => Some found
  | None :: _ => None
  | Some (name, value) :: rest =>
    v ← parse_version name;
    if is_some_b (found !! v) then None
    else
      encoded ← value;
      key ← base64_decode encoded;
      if negb (blen key =? 32) then None else parse_members (<[v := key]> found) rest
  end.

Definition ParseTranscriptKeyring (activeText : string) (doc : KeyringDocument) : option TranscriptKeyring :=
  act ← parse_version activeText;
  if negb (docIsObject doc) then None
  else
    found ← parse_members ∅ (docMembers doc);
    if negb (docCloses doc) || negb (docEnds doc) then None
    else if is_some_b (found !! act) then Some (mkKeyring act found) else None.

Section crypto.
Context `{Crypto}.

(** [aes.NewCipher] takes a key of 16, 24 or 32 bytes. *)
Definition cipher_key (key : string) : bool := existsb (Z.eqb (blen key)) [16; 24; 32].
Definition seal (nonce key plain aad : string) : result KeyError string :=
  if cipher_key key then Ok (gcm_seal key nonce plain aad) else Err EKeyCipher.
Definition open (key sealed aad : string) : result KeyError string :=
  if cipher_key key
  then match gcm_open key sealed aad with Some p => Ok p | None => Err EKeyAuth end
  else Err EKeyCipher.

Definition keyring_wrap (k : TranscriptKeyring) (nonce plaintext aad : string) : result KeyError (string * Z) :=
  out ← seal nonce (default "" (keys k !! active k)) plaintext aad; mret (out, active k).
Definition keyring_unwrap (k : TranscriptKeyring) (wrapped : string) (version : Z) (aad : string) :
    result KeyError string :=
  match keys k !! version with None => Err EKeyVersion | Some key => open key wrapped aad end.
Definition keyring_rewrap (k : TranscriptKeyring) (nonce wrapped : string) (version : Z) (aad : string) :
    result KeyError (string * Z) :=
  plain ← keyring_unwrap k wrapped version aad; keyring_wrap k nonce plain aad.

Definition keyring_custodian (k : TranscriptKeyring) : KeyCustodian := {|
  Wrap := keyring_wrap k;
  Unwrap := keyring_unwrap k;
  Rewrap := keyring_rewrap k
|}.

(** ** Object storage *)
Inductive BlobEvent : Type :=
| BvRandom
| BvPut (key : string)
| BvGet (key : string)
| BvDelete (key : string).

(** A request is served; or it fails, and may all the same have been carried
    out. *)
Inductive Served : Type := Served_ok | Served_lost (carried_out : bool).

Definition Objects := gmap string (string * string).

(** What other clients of the bucket do before each request, how each request
    is served, and the system's random source, as functions of what this
    process did so far. *)
Class BlobEnv : Type := {
  elsewhere : list BlobEvent -> Objects -> Objects;
  served : list BlobEvent -> Served;
  random_key : list BlobEvent -> option string;
  random_nonce : list BlobEvent -> string;
  random_uuid : list BlobEvent -> string
}.

Record BlobWorld : Type := mkBlobWorld { objects : Objects; blog : list BlobEvent }.

Section store.
Context `{BlobEnv, KeyCustodian}.

Notation B := (M BlobWorld BlobError).

Definition random {A} (f : list BlobEvent -> A) : B A := fun w =>
  (Ok (f (blog w)), mkBlobWorld (objects w) (blog w ++ [BvRandom])).

(** A request that changes the bucket by [f] and fails with [lost]. *)
Definition change (event : BlobEvent) (lost : BlobError) (f : Objects -> Objects) : B unit := fun w =>
  let o := elsewhere (blog w) (objects w) in
  let l := blog w ++ [event] in
  match served (blog w) with
  | Served_ok => (Ok tt, mkBlobWorld (f o) l)
  | Served_lost carried_out => (Err lost, mkBlobWorld (if carried_out then f o else o) l)
  end.

Definition Put (lost : BlobError) (key body contentType : string) : B unit :=
  change (BvPut key) lost (fun o => <[key := (body, contentType)]> (o : gmap string _)).
Definition Remove (key : string) : B unit :=
  change (BvDelete key) EDelete (fun o => delete key (o : gmap string (string * string))).
Definition Get (key : string) : B (string * string) := fun w =>
  let o := elsewhere (blog w) (objects w) in
  (match served (blog w) with
   | Served_ok => match (o : gmap string (string * string)) !! key with
     | Some found => Ok found | None => Err EObjectNotFound end
   | Served_lost _ => Err EGet
   end, mkBlobWorld o (blog w ++ [BvGet key])).

Definition of_some {A} (e : BlobError) (o : option A) : B A :=
  match o with Some a => mret a | None => throw e end.
Definition key_result {A} (r : result KeyError A) : B A :=
  match r with Ok a => mret a | Err e => throw (EKey e) end.

(** ** The encrypted store ([storage/encrypted.go]) *)
Definition nilUUID : string := "00000000-0000-0000-0000-000000000000".
Definition bodyAAD (id : string) : string := "village:transcript-body:v1:" +:+ id.
Definition dekAAD (id : string) : string := "village:transcript-dek:v1:" +:+ id.
Definition metadataAAD (id : string) : string := "village:transcript-publish-metadata:v1:" +:+ id.

Definition identity (body : string) : ContentIdentity :=
  default zeroIdentity (NewContentIdentity (hex_encode (sha3_256 body)) (blen body)).

Definition generation_key : B string :=
  u ← random random_uuid; mret ("transcripts/" +:+ u +:+ ".bin").

(** The metadata object of a generation that has one. *)
Definition metadata_object (key : string) (metadata : option string) : B (option MetadataObject) :=
  match metadata with
  | None => mret None
  | Some text =>
    mkey ← generation_key;
    if String.eqb mkey key then throw ESameKey
    else
      let mi := identity text in
      m ← of_some EIdentity (NewMetadataObject mkey (hash mi) (plaintextSize mi));
      mret (Some m)
  end.

(** The upload of the sealed metadata; when it fails the body goes again. *)
Definition put_metadata (key : string) (m : option MetadataObject) (sealed : string) : B unit :=
  match m with
  | None => mret tt
  | Some m =>
    put ← attempt (Put EPutMetadata (metadataKey m) sealed ciphertextContentType);
    match put with
    | Ok _ => mret tt
    | Err e =>
      gone ← attempt (Remove key);
      match gone with Ok _ => throw e | Err _ => throw (ECleanup key) end
    end
  end.

Definition WriteGeneration (id plaintext : string) (metadata : option string) :
    B (BlobDescriptor * ContentIdentity * option MetadataObject) :=
  if String.eqb id nilUUID then throw ENilID
  else
    drawn ← random random_key;
    dek ← of_some ERandom drawn;
    nonce ← random random_nonce;
    let ciphertext := gcm_seal dek nonce plaintext (bodyAAD id) in
    sealed ← match metadata with
      | Some text => n ← random random_nonce; mret (gcm_seal dek n text (metadataAAD id))
      | None => mret ""
      end;
    entropy ← random random_nonce;
    '(wrapped, version) ← key_result (Wrap entropy dek (dekAAD id));
    key ← generation_key;
    d ← of_some EDescriptor (NewBlobDescriptor key wrapped EncryptionAES256GCMRandomNonceV1 version);
    m ← metadata_object key metadata;
    _ ← Put EPut key ciphertext ciphertextContentType;
    _ ← put_metadata key m sealed;
    mret (d, identity plaintext, m).

Definition Write (id plaintext : string) : B (BlobDescriptor * ContentIdentity) :=
  '(d, i, _) ← WriteGeneration id plaintext None; mret (d, i).

Definition openDEK (id : string) (d : BlobDescriptor) : B string :=
  dek ← key_result (Unwrap (wrappedDEK d) (keyVersion d) (dekAAD id));
  if negb (blen dek =? 32) then throw EDEKLength else mret dek.

(** Fetch, unwrap, authenticate. *)
Definition open_object (id key aad : string) (d : BlobDescriptor) : B string :=
  if negb (String.eqb (algorithm d) EncryptionAES256GCMRandomNonceV1) then throw EAlgorithm
  else
    '(ciphertext, contentType) ← Get key;
    if negb (String.eqb contentType ciphertextContentType) then throw EContentType
    else
      dek ← openDEK id d;
      of_some EAuthentication (gcm_open dek ciphertext aad).

Definition Read (id : string) (d : BlobDescriptor) (loaded : LoadedContentIdentity) :
    B (string * ContentIdentity) :=
  if negb (loadedValid loaded) then throw ELoaded
  else
    plaintext ← open_object id (objectKey d) (bodyAAD id) d;
    let actual := identity plaintext in
    match loaded with
    | LoadedKnown expected =>
      if bool_decide (expected = actual) then mret (plaintext, actual) else throw EMismatch
    | _ => mret (plaintext, actual)
    end.

Definition validMetadata (m : MetadataObject) : bool :=
  match_full opaqueObjectKey (metadataKey m) && validIdentity (metadataIdentity m).

Definition ReadMetadata (id : string) (d : BlobDescriptor) (m : MetadataObject) : B string :=
  if negb (validMetadata m) then throw EMetadataKey
  else
    plaintext ← open_object id (metadataKey m) (metadataAAD id) d;
    if bool_decide (identity plaintext = metadataIdentity m) then mret plaintext else throw EMismatch.

Definition RewrapDescriptor (id : string) (d : BlobDescriptor) : B BlobDescriptor :=
  entropy ← random random_nonce;
  '(wrapped, version) ← key_result (Rewrap entropy (wrappedDEK d) (keyVersion d) (dekAAD id));
  of_some EDescriptor (NewBlobDescriptor (objectKey d) wrapped (algorithm d) version).

Definition Delete (d : BlobDescriptor) : B unit := Remove (objectKey d).

Definition DeleteMetadata (m : MetadataObject) : B unit :=
  if negb (match_full opaqueObjectKey (metadataKey m)) then throw EMetadataKey
  else Remove (metadataKey m).
End store.
End crypto.
End BlobStore.
