(* ===== verification/BlobLaws.v ===== *)
(** * What the encrypted store promises

    Theorems about [BlobStore]: round trips, authenticity, the separation of
    object roles, what a failed write leaves behind, key rotation, and the key
    ring behind the custodian interface. *)
From S2P Require Import Prelude GoText Regex BlobStore.

Open Scope string_scope.
Open Scope list_scope.
Open Scope Z_scope.

Module BlobLaws.
Import BlobStore.

(** ** Hexadecimal *)
Lemma hex_lower_ascii n : 0 <= n < 16 -> 0 <= hex_lower n < 128 /\ cls_hex (hex_lower n) = true.
Proof.
  intros Hn. unfold hex_lower, cls_hex, between. destruct (Z.ltb_spec n 10).
  - split; [lia|]. apply orb_true_iff. left. apply andb_true_iff. split; apply Z.leb_le; lia.
  - split; [lia|]. apply orb_true_iff. right. apply andb_true_iff. split; apply Z.leb_le; lia.
Qed.

Lemma hex_digits bs : Forall (fun b => 0 <= b < 256) bs ->
  let l := concat ((fun b => [hex_lower (b / 16); hex_lower (b mod 16)]) <$> bs) in
  Forall (fun b => 0 <= b < 128 /\ cls_hex b = true) l /\ length l = (2 * length bs)%nat.
Proof.
  cbv zeta. induction 1 as [|b bs Hb Hbs [IH1 IH2]]; [split; [constructor|done]|].
  rewrite fmap_cons. cbn [concat app length]. split; [|rewrite IH2; lia]. apply Forall_cons. split.
  { apply hex_lower_ascii. split; [apply Z.div_pos; lia|apply Z.div_lt_upper_bound; lia]. }
  apply Forall_cons. split; [|done]. apply hex_lower_ascii, Z.mod_pos_bound. lia.
Qed.

Lemma hex_encode_matches s n : String.length s = n ->
  match_full (hexes (2 * n)) (hex_encode s) = true.
Proof.
  intros <-. unfold match_full, hex_encode, hexes.
  destruct (hex_digits (bytes s) (bytes_bound s)) as [Hl Hlen]. rewrite length_bytes in Hlen.
  rewrite runes_of_bytes by (eapply Forall_impl; [exact Hl|]; by intros ? []).
  apply re_match_spec, matches_rrep. split; [done|]. apply forallb_forall. intros b Hin%list_elem_of_In.
  rewrite Forall_forall in Hl. by apply Hl.
Qed.

(** ** Descriptors *)
Lemma new_descriptor_inv key wrapped alg version d :
  NewBlobDescriptor key wrapped alg version = Some d <->
  d = mkDescriptor key wrapped alg version /\ match_full opaqueObjectKey key = true /\ wrapped <> "" /\
  alg = EncryptionAES256GCMRandomNonceV1 /\ 0 < version.
Proof.
  unfold NewBlobDescriptor. destruct (match_full opaqueObjectKey key); simpl; [|naive_solver].
  destruct (String.eqb_spec wrapped ""); simpl; [naive_solver|].
  destruct (String.eqb_spec alg EncryptionAES256GCMRandomNonceV1); simpl; [|naive_solver].
  destruct (Z.leb_spec version 0); simpl; [split; [done|naive_solver lia]|]. naive_solver.
Qed.

(** ** The key ring *)
Section ring.
Context `{CryptoLaws}.

Record ring_ok (k : TranscriptKeyring) : Prop := {
  ring_active : is_Some (keys k !! active k);
  ring_versions : map_Forall (fun v _ => 0 < v < 2 ^ 31) (keys k);
  ring_keys : map_Forall (fun _ key => blen key = 32) (keys k)
}.

Lemma cipher_key_32 key : blen key = 32 -> cipher_key key = true.
Proof. intros Hl. unfold cipher_key. by rewrite Hl. Qed.

Lemma open_of_seal key n p a : blen key = 32 -> open key (gcm_seal key n p a) a = Ok p.
Proof. intros Hl. unfold open. by rewrite cipher_key_32, open_seal. Qed.

Lemma wrap_runs k n p a : ring_ok k ->
  exists key, keys k !! active k = Some key /\ blen key = 32 /\
    keyring_wrap k n p a = Ok (gcm_seal key n p a, active k).
Proof.
  intros [[key Hkey] Hv Hk]. exists key. pose proof (Hk _ _ Hkey) as Hl.
  unfold keyring_wrap, seal. rewrite Hkey. simpl. by rewrite (cipher_key_32 key Hl).
Qed.

Lemma unwrap_wrap k n p a w v : ring_ok k -> keyring_wrap k n p a = Ok (w, v) ->
  keyring_unwrap k w v a = Ok p /\ w <> "" /\ 0 < v.
Proof.
  intros Hok. destruct (wrap_runs k n p a Hok) as (key&Hkey&Hl&->). intros [= <- <-].
  unfold keyring_unwrap. rewrite Hkey, open_of_seal by done. split_and!; [done| |].
  - intros Hnil. pose proof (seal_longer key n p a) as Hlong. rewrite Hnil in Hlong.
    pose proof (blen_nonneg p). unfold blen in *. simpl in *. lia.
  - destruct Hok as [_ Hv _]. by apply Hv in Hkey as [? _].
Qed.

(** The key ring keeps the promises of a custodian. *)
Lemma keyring_laws k : ring_ok k -> @CustodianLaws (keyring_custodian k).
Proof.
  intros Hok. constructor; simpl.
  - intros n p a w v Hw. by apply unwrap_wrap in Hw as [? _].
  - intros n p a w v Hw. by apply unwrap_wrap in Hw as [_ ?].
  - intros n w v a w' v' Hw. unfold keyring_rewrap in Hw.
    destruct (keyring_unwrap k w v a) as [p|] eqn:Hu; simpl in Hw; [|done].
    apply unwrap_wrap in Hw as (Hu'&Hne&Hv); [|done]. eauto.
Qed.

Lemma keyring_binds `{!CryptoBinds} k : ring_ok k -> @CustodianBinds (keyring_custodian k).
Proof.
  intros Hok. constructor; simpl. intros n p a w v a' p' Hw.
  destruct (wrap_runs k n p a Hok) as (key&Hkey&Hl&Heq). rewrite Heq in Hw. injection Hw as <- <-.
  unfold keyring_unwrap, open. rewrite Hkey, (cipher_key_32 key Hl).
  destruct (gcm_open key _ a') as [q|] eqn:Ho; [|done]. intros _.
  apply open_sound in Ho as [n' Hs]. by apply seal_binds in Hs.
Qed.

(** ** Parsing the key ring *)
Lemma parse_version_bounds s v : parse_version s = Some v -> 0 < v < 2 ^ 31.
Proof.
  unfold parse_version, parse_int32. destruct (atoi s) as [n|]; [|done].
  destruct (_ && _) eqn:Hb; [|done]. apply andb_true_iff in Hb as [_ Hlt%Z.ltb_lt].
  destruct (Z.leb_spec n 0); [done|]. intros [= <-]. lia.
Qed.

(** One member of the document. *)
Definition member_key (member : option (string * option string)) : option (Z * string) :=
  '(name, value) ← member;
  v ← parse_version name;
  encoded ← value;
  key ← base64_decode encoded;
  if blen key =? 32 then Some (v, key) else None.

Lemma union_step v key (l : list (Z * string)) (found : gmap Z string) : v ∉ l.*1 ->
  (list_to_map ((v, key) :: l) ∪ found : gmap Z string) = list_to_map l ∪ <[v := key]> found.
Proof.
  intros Hv%not_elem_of_list_to_map_1. rewrite list_to_map_cons. simpl.
  by rewrite <- insert_union_l, insert_union_r.
Qed.

(** A document is accepted when all its members are, under different versions,
    and the keys found are theirs. *)
Lemma parse_members_spec members : forall found out,
  parse_members found members = Some out <->
  exists l, mapM member_key members = Some l /\ NoDup l.*1 /\ (forall v, v ∈ l.*1 -> found !! v = None) /\
    out = (list_to_map l ∪ found : gmap Z string).
Proof.
  induction members as [|[[name value]|] members IH]; intros found out; simpl.
  - split; [|by intros (l&[= <-]&_&_&->); rewrite list_to_map_nil, (left_id_L ∅ (∪))].
    intros [= <-]. exists [].
    split_and!; [done|constructor|by intros v Hv%elem_of_nil|by rewrite list_to_map_nil, (left_id_L ∅ (∪))].
  - unfold member_key. simpl. destruct (parse_version name) as [v|]; simpl; [|by split; [|intros (?&?&_)]].
    destruct (found !! v) as [k0|] eqn:Hv; simpl.
    { split; [done|]. intros (l&Hl&_&Hnone&_). destruct value as [e|]; simpl in Hl; [|done].
      destruct (base64_decode e) as [key|]; simpl in Hl; [|done]. destruct (blen key =? 32); simpl in Hl; [|done].
      destruct (mapM _ members) as [l'|] in Hl; simpl in Hl; [|done]. injection Hl as <-.
      specialize (Hnone v (list_elem_of_here _ _)). congruence. }
    destruct value as [e|]; simpl; [|by split; [|intros (?&?&_)]].
    destruct (base64_decode e) as [key|]; simpl; [|by split; [|intros (?&?&_)]].
    destruct (blen key =? 32); simpl; [|by split; [|intros (?&?&_)]].
    rewrite IH. fold member_key. split.
    + intros (l&Hl&Hnd&Hnone&->). exists ((v, key) :: l). rewrite Hl.
      assert (Hv' : v ∉ l.*1) by (intros Hin; specialize (Hnone _ Hin); by rewrite lookup_insert_eq in Hnone).
      split_and!; [done|by constructor| |by rewrite union_step].
      intros v' [->|Hin]%elem_of_cons; [done|]. specialize (Hnone _ Hin). by apply lookup_insert_None in Hnone as [? _].
    + intros (l&Hl&Hnd&Hnone&->). destruct (mapM _ members) as [l'|]; simpl in Hl; [|done]. injection Hl as <-.
      apply NoDup_cons in Hnd as [Hv' Hnd]. exists l'. split_and!; [done|done| |by rewrite union_step].
      intros v' Hin. rewrite lookup_insert_ne by (by intros ->). apply Hnone. by right.
  - split; [done|]. by intros (l&[=]&_).
Qed.

Lemma member_key_ok member v key : member_key member = Some (v, key) -> 0 < v < 2 ^ 31 /\ blen key = 32.
Proof.
  unfold member_key. destruct member as [[name value]|]; simpl; [|done].
  destruct (parse_version name) as [v0|] eqn:Hv; simpl; [|done]. destruct value as [e|]; simpl; [|done].
  destruct (base64_decode e) as [key0|]; simpl; [|done].
  destruct (Z.eqb_spec (blen key0) 32); [|done]. intros [= <- <-]. by apply parse_version_bounds in Hv.
Qed.

(** C34: the key ring is read exactly. A configuration is accepted if and only if
    the document is one whole JSON object whose members all are a positive
    32-bit version and a strict base64 key of 32 bytes, no version twice (however
    it is spelled), and the active version, itself a positive 32-bit integer, is
    among them; what is accepted is those keys and no others, and such a ring
    can always wrap. *)
Theorem keyring_parsed_exactly activeText doc k :
  ParseTranscriptKeyring activeText doc = Some k <->
  docIsObject doc = true /\ docCloses doc = true /\ docEnds doc = true /\
  (exists l, mapM member_key (docMembers doc) = Some l /\ NoDup l.*1 /\ keys k = list_to_map l) /\
  parse_version activeText = Some (active k) /\ ring_ok k.
Proof.
  unfold ParseTranscriptKeyring. split.
  - destruct (parse_version activeText) as [act|]; simpl; [|done].
    destruct (docIsObject doc); simpl; [|done].
    destruct (parse_members ∅ (docMembers doc)) as [found|] eqn:Hf; simpl; [|done].
    destruct (docCloses doc), (docEnds doc); simpl; try done.
    destruct (found !! act) as [key|] eqn:Hact; simpl; [|done]. intros [= <-]. simpl.
    apply parse_members_spec in Hf as (l&Hl&Hnd&_&->). rewrite (right_id_L ∅ (∪)) in *.
    split_and!; try done; [by exists l|]. apply mapM_Some_1 in Hl.
    assert (Hall : forall v key', (list_to_map l : gmap Z string) !! v = Some key' -> 0 < v < 2 ^ 31 /\ blen key' = 32).
    { intros v key' Hin%elem_of_list_to_map_2. apply list_elem_of_lookup in Hin as [i Hi].
      destruct (Forall2_lookup_r _ _ _ _ _ Hl Hi) as (mem&_&Hm). by eapply member_key_ok. }
    constructor; simpl; [by eexists|intros v key' Hv; by apply Hall in Hv as [? _]|intros v key' Hv; by apply Hall in Hv as [_ ?]].
  - intros (->&Hc&He&(l&Hl&Hnd&Hk)&->&Hok). simpl.
    assert (Hf : parse_members ∅ (docMembers doc) = Some (keys k)).
    { apply parse_members_spec. exists l. by rewrite (right_id_L ∅ (∪)). }
    rewrite Hf. simpl. rewrite Hc, He. simpl. destruct Hok as [[key ->] _ _]. by destruct k.
Qed.

(** Also: a key that rotates out stays readable and can be moved. Once a ring has
    gained versions (and perhaps another active one), whatever the old ring
    wrapped still unwraps to the same key, and rewrapping it always succeeds,
    under the new active version, to the same key again: the old version can be
    retired when nothing names it any more. *)
Theorem rotation_moves_keys k k' n n' p aad w v :
  ring_ok k -> ring_ok k' -> keys k ⊆ keys k' -> keyring_wrap k n p aad = Ok (w, v) ->
  keyring_unwrap k' w v aad = Ok p /\
  exists w', keyring_rewrap k' n' w v aad = Ok (w', active k') /\ keyring_unwrap k' w' (active k') aad = Ok p.
Proof.
  intros Hk Hk' Hsub Hw.
  assert (Hu : keyring_unwrap k' w v aad = Ok p).
  { apply unwrap_wrap in Hw as [Hu _]; [|done]. unfold keyring_unwrap in *.
    destruct (keys k !! v) as [key|] eqn:Hkey; [|done]. by rewrite (lookup_weaken _ _ _ _ Hkey Hsub). }
  split; [done|]. unfold keyring_rewrap. rewrite Hu.
  destruct (wrap_runs k' n' p aad Hk') as (key&_&_&Hwrap). exists (gcm_seal key n' p aad).
  split; [exact Hwrap|]. by apply unwrap_wrap in Hwrap as [? _].
Qed.
End ring.

Section laws.
Context `{CryptoLaws, BlobEnv, CustodianLaws}.

Lemma identity_valid body : NewContentIdentity (hex_encode (sha3_256 body)) (blen body) = Some (identity body) /\
  validIdentity (identity body) = true.
Proof.
  assert (Hv : validIdentity (mkIdentity (hex_encode (sha3_256 body)) (blen body)) = true).
  { unfold validIdentity, canonicalContentHash. simpl. apply andb_true_iff. split.
    - apply (hex_encode_matches _ 32). pose proof (sha3_length body) as Hl. unfold blen in Hl. lia.
    - apply Z.leb_le, blen_nonneg. }
  unfold identity, NewContentIdentity. by rewrite Hv.
Qed.

(** ** Associated data *)
Lemma bodyAAD_inj id id' : bodyAAD id = bodyAAD id' -> id = id'.
Proof. intros Heq. by injection Heq. Qed.

Lemma metadataAAD_inj id id' : metadataAAD id = metadataAAD id' -> id = id'.
Proof. intros Heq. by injection Heq. Qed.

Lemma roles_differ id id' : bodyAAD id <> metadataAAD id' /\ bodyAAD id <> dekAAD id' /\ metadataAAD id <> dekAAD id'.
Proof. split_and!; done. Qed.

(** ** Runs *)
Lemma open_object_ok id key aad d w p w' :
  open_object id key aad d w = (Ok p, w') ->
  algorithm d = EncryptionAES256GCMRandomNonceV1 /\
  exists c dek, (elsewhere (blog w) (objects w) : gmap string (string * string)) !! key = Some (c, ciphertextContentType) /\
    Unwrap (wrappedDEK d) (keyVersion d) (dekAAD id) = Ok dek /\ blen dek = 32 /\ gcm_open dek c aad = Some p.
Proof.
  unfold open_object. destruct (String.eqb_spec (algorithm d) EncryptionAES256GCMRandomNonceV1) as [Halg|]; simpl; [|done].
  rewrite M_bind_unfold. unfold Get. destruct (served (blog w)); [|done].
  destruct ((_ : gmap string (string * string)) !! key) as [[c ct]|]; [|done].
  destruct (String.eqb_spec ct ciphertextContentType) as [->|]; simpl; [|done].
  rewrite M_bind_unfold. unfold openDEK. rewrite M_bind_unfold.
  destruct (Unwrap _ _ _) as [dek|e] eqn:Hu; simpl; [|done].
  destruct (Z.eqb_spec (blen dek) 32) as [Hl|]; simpl; [|done].
  destruct (gcm_open dek c aad) as [p'|] eqn:Ho; simpl; [|done]. intros [= -> _]. split; [done|]. by exists c, dek.
Qed.

Lemma open_object_run id key aad d w c dek p :
  algorithm d = EncryptionAES256GCMRandomNonceV1 -> served (blog w) = Served_ok ->
  (elsewhere (blog w) (objects w) : gmap string (string * string)) !! key = Some (c, ciphertextContentType) ->
  Unwrap (wrappedDEK d) (keyVersion d) (dekAAD id) = Ok dek -> blen dek = 32 -> gcm_open dek c aad = Some p ->
  exists w', open_object id key aad d w = (Ok p, w').
Proof.
  intros Halg Hs Hobj Hu Hl Ho. unfold open_object. rewrite Halg, String.eqb_refl. simpl.
  rewrite M_bind_unfold. unfold Get. rewrite Hs, Hobj. simpl.
  rewrite M_bind_unfold. unfold openDEK. rewrite M_bind_unfold, Hu. simpl. rewrite Hl. simpl. rewrite Ho. by eexists.
Qed.

(** ** What a write leaves *)
Lemma of_some_inv {A} e (o : option A) (w w' : BlobWorld) a :
  (of_some e o : M BlobWorld BlobError A) w = (Ok a, w') -> o = Some a /\ w' = w.
Proof. destruct o; [by intros [= -> ->]|done]. Qed.

Lemma random_inv {A} (f : list BlobEvent -> A) w a w' :
  random f w = (Ok a, w') -> a = f (blog w) /\ objects w' = objects w.
Proof. by intros [= <- <-]. Qed.

Lemma generation_key_inv w k w' : generation_key w = (Ok k, w') ->
  objects w' = objects w /\ exists l, k = "transcripts/" +:+ random_uuid l +:+ ".bin".
Proof. intros (u&w1&[-> Ho]%random_inv&Hret)%bind_ok_inv. injection Hret as <- <-. eauto. Qed.

Definition put_at (w w' : BlobWorld) (key : string) (body : string) : Prop :=
  objects w' = <[key := (body, ciphertextContentType)]> (elsewhere (blog w) (objects w) : gmap string _).

Lemma put_ok e key body w w' :
  Put e key body ciphertextContentType w = (Ok tt, w') -> put_at w w' key body.
Proof. unfold Put, change. destruct (served _); [|done]. by intros [= <-]. Qed.

(** The metadata object a generation of [meta] has, beside its body at [key]. *)
Definition metadata_of (meta : option string) (key : string) (m : option MetadataObject) : Prop :=
  match meta, m with
  | None, None => True
  | Some text, Some mo => validMetadata mo = true /\ metadataIdentity mo = identity text /\ metadataKey mo <> key
  | _, _ => False
  end.

Lemma metadata_made mkey key text mo : mkey <> key ->
  NewMetadataObject mkey (hash (identity text)) (plaintextSize (identity text)) = Some mo ->
  metadata_of (Some text) key (Some mo).
Proof.
  intros Hne Hmo. unfold NewMetadataObject in Hmo. destruct (match_full opaqueObjectKey mkey) eqn:Hkey; simpl in Hmo; [|done].
  assert (Hid : NewContentIdentity (hash (identity text)) (plaintextSize (identity text)) = Some (identity text)).
  { unfold NewContentIdentity. destruct (identity_valid text) as [_ Hv]. destruct (identity text). simpl. by rewrite Hv. }
  rewrite Hid in Hmo. injection Hmo as <-. unfold metadata_of, validMetadata. simpl.
  by rewrite Hkey, (proj2 (identity_valid text)).
Qed.

Lemma metadata_object_inv key meta w m w' :
  metadata_object key meta w = (Ok m, w') -> objects w' = objects w /\ metadata_of meta key m.
Proof.
  unfold metadata_object. destruct meta as [text|]; [|by intros [= <- <-]].
  intros (mkey&w1&[Ho _]%generation_key_inv&Hrun)%bind_ok_inv. destruct (String.eqb_spec mkey key) as [|Hne]; [done|].
  apply bind_ok_inv in Hrun as (mo&w2&[Hmo ->]%of_some_inv&Hret). injection Hret as <- <-.
  split; [done|]. by eapply metadata_made.
Qed.

Context (Hlength : forall l k, random_key l = Some k -> blen k = 32).

(** What is known of a generation once it is written. *)
Definition written (id plain : string) (meta : option string) (d : BlobDescriptor) (i : ContentIdentity)
    (m : option MetadataObject) (o : Objects) : Prop :=
  i = identity plain /\ algorithm d = EncryptionAES256GCMRandomNonceV1 /\ metadata_of meta (objectKey d) m /\
  exists dek, blen dek = 32 /\ Unwrap (wrappedDEK d) (keyVersion d) (dekAAD id) = Ok dek /\
    (exists n, (o : gmap string _) !! objectKey d = Some (gcm_seal dek n plain (bodyAAD id), ciphertextContentType)) /\
    (forall text mo, meta = Some text -> m = Some mo -> exists n,
      (o : gmap string _) !! metadataKey mo = Some (gcm_seal dek n text (metadataAAD id), ciphertextContentType)).

(** Nobody else overwrites or deletes a generation while this runs. *)
Definition others_keep : Prop :=
  forall l (o : gmap string (string * string)) k v, o !! k = Some v -> (elsewhere l o : gmap string _) !! k = Some v.

Lemma write_inv id plain meta w d i m w' :
  WriteGeneration id plain meta w = (Ok (d, i, m), w') ->
  exists dek n entropy sealed w1 w2,
    (exists l, random_key l = Some dek) /\
    Wrap entropy dek (dekAAD id) = Ok (wrappedDEK d, keyVersion d) /\
    i = identity plain /\ algorithm d = EncryptionAES256GCMRandomNonceV1 /\ metadata_of meta (objectKey d) m /\
    (forall text, meta = Some text -> exists n', sealed = gcm_seal dek n' text (metadataAAD id)) /\
    put_at w1 w2 (objectKey d) (gcm_seal dek n plain (bodyAAD id)) /\
    put_metadata (objectKey d) m sealed w2 = (Ok tt, w').
Proof.
  unfold WriteGeneration. destruct (String.eqb id nilUUID); [done|].
  intros (drawn&w1&[-> _]%random_inv&(dek&w2&[Hdek ->]%of_some_inv&(n&w3&_&Hrun)%bind_ok_inv)%bind_ok_inv)%bind_ok_inv.
  cbv zeta in Hrun. apply bind_ok_inv in Hrun as (sealed&w4&Hsealed&Hrun).
  apply bind_ok_inv in Hrun as (entropy&w5&_&Hrun).
  apply bind_ok_inv in Hrun as ([wrapped version]&w6&Hwrap&Hrun).
  apply bind_ok_inv in Hrun as (key&w7&_&Hrun).
  apply bind_ok_inv in Hrun as (d'&w8&[Hd ->]%of_some_inv&Hrun).
  apply bind_ok_inv in Hrun as (m'&w9&[_ Hm]%metadata_object_inv&Hrun).
  apply bind_ok_inv in Hrun as ([]&w10&Hput%put_ok&Hrun).
  apply bind_ok_inv in Hrun as ([]&w11&Hmeta&Hret). injection Hret as <- <- <- <-.
  unfold NewBlobDescriptor in Hd. destruct (_ || _) in Hd; [done|]. injection Hd as <-. simpl.
  exists dek, n, entropy, sealed, w9, w10. split_and!; try done.
  - eauto.
  - destruct (Wrap _ _ _) as [p|]; [by injection Hwrap as ->|done].
  - intros text ->. apply bind_ok_inv in Hsealed as (n'&w12&_&Hret). injection Hret as <- _. eauto.
Qed.

Lemma write_wraps id plain meta w d i m w' : WriteGeneration id plain meta w = (Ok (d, i, m), w') ->
  exists dek entropy, Wrap entropy dek (dekAAD id) = Ok (wrappedDEK d, keyVersion d).
Proof. intros (dek&n&entropy&_&_&_&_&Hw&_)%write_inv. eauto. Qed.

Lemma write_ok id plain meta w d i m w' :
  others_keep -> WriteGeneration id plain meta w = (Ok (d, i, m), w') -> written id plain meta d i m (objects w').
Proof.
  intros Hkeep (dek&n&entropy&sealed&w1&w2&[l Hdek]&Hw&->&Halg&Hm&Hsealed&Hput&Hmeta)%write_inv.
  split_and!; [done|done|done|]. exists dek. split; [by eapply Hlength|]. split; [by eapply wrap_unwrap|].
  assert (Hbody : (objects w2 : gmap string _) !! objectKey d =
    Some (gcm_seal dek n plain (bodyAAD id), ciphertextContentType)).
  { rewrite Hput. apply lookup_insert_eq. }
  destruct meta as [text|], m as [mo|]; try done; simpl in Hmeta.
  - destruct (Hsealed text eq_refl) as [n' ->].
    apply bind_ok_inv in Hmeta as (r&w3&Hr%attempt_inv&Hret). destruct r as [[]|e].
    + injection Hret as <-. apply put_ok in Hr. unfold put_at in Hr. destruct Hm as (_&_&Hne). split.
      * exists n. rewrite Hr, lookup_insert_ne by done. by apply Hkeep.
      * intros text' mo' [= <-] [= <-]. exists n'. rewrite Hr. apply lookup_insert_eq.
    + apply bind_ok_inv in Hret as (gone&w4&_&Hret). by destruct gone.
  - injection Hmeta as <-. split; [by exists n|done].
Qed.

Lemma write_descriptor id plain meta w d i m w' : WriteGeneration id plain meta w = (Ok (d, i, m), w') ->
  NewBlobDescriptor (objectKey d) (wrappedDEK d) (algorithm d) (keyVersion d) = Some d.
Proof.
  unfold WriteGeneration. destruct (String.eqb id nilUUID); [done|]. intros (x1&w1&_&Hrun)%bind_ok_inv.
  do 4 (apply bind_ok_inv in Hrun as (?&?&_&Hrun); cbv zeta in Hrun).
  apply bind_ok_inv in Hrun as ([wrapped version]&w6&_&Hrun). apply bind_ok_inv in Hrun as (key&w7&_&Hrun).
  apply bind_ok_inv in Hrun as (d'&w8&[Hd ->]%of_some_inv&Hrun). do 3 (apply bind_ok_inv in Hrun as (?&?&_&Hrun)).
  injection Hrun as <- _ _ _. pose proof Hd as (-> & _)%new_descriptor_inv. exact Hd.
Qed.
Lemma valid_metadata m : validMetadata m = true -> NewMetadataObject (metadataKey m) (hash (metadataIdentity m)) (plaintextSize (metadataIdentity m)) = Some m.
Proof.
  unfold validMetadata, NewMetadataObject, NewContentIdentity. intros [-> Hv]%andb_prop. destruct m as [k [h n]]. simpl in *. by rewrite Hv.
Qed.

Lemma written_weaken id plain meta d i m (o o' : gmap string (string * string)) :
  (forall k x, k = objectKey d \/ (exists mo, m = Some mo /\ k = metadataKey mo) -> o !! k = Some x -> o' !! k = Some x) ->
  written id plain meta d i m o -> written id plain meta d i m o'.
Proof.
  intros Hsub (Hi&Halg&Hm&dek&Hl&Hu&[n Hb]&Hmd). split_and!; [done..|]. exists dek. split_and!; [done..| |].
  - exists n. apply Hsub; [by left|done].
  - intros text mo Ht Hmo. destruct (Hmd text mo Ht Hmo) as [n' Hn']. exists n'. apply Hsub; [right; by exists mo|done].
Qed.
Lemma written_reads id plain meta d i m w : others_keep -> written id plain meta d i m (objects w) -> served (blog w) = Served_ok ->
  (Read id d (LoadedKnown i) w).1 = Ok (plain, i) /\
  (Read id d (LoadedPending zeroIdentity) w).1 = Ok (plain, i) /\
  match meta, m with
  | Some text, Some mo => (ReadMetadata id d mo w).1 = Ok text
  | None, None => True
  | _, _ => False
  end.
Proof.
  intros Hkeep (->&Halg&Hm&dek&Hl&Hu&(n&Hb)&Hmd) Hs. apply (Hkeep (blog w)) in Hb.
  destruct (open_object_run id (objectKey d) (bodyAAD id) d w _ dek plain Halg Hs Hb Hu Hl (open_seal _ _ _ _)) as [w3 Hopen].
  destruct (identity_valid plain) as [_ Hv]. unfold Read. simpl. rewrite Hv. simpl.
  rewrite !M_bind_unfold, Hopen, bool_decide_eq_true_2 by done. split_and!; [done..|].
  destruct meta as [text|], m as [mo|]; try done. destruct Hm as (Hvalid&Hid&_).
  destruct (Hmd text mo eq_refl eq_refl) as [n' Hn']. apply (Hkeep (blog w)) in Hn'.
  destruct (open_object_run id (metadataKey mo) (metadataAAD id) d w _ dek text Halg Hs Hn' Hu Hl (open_seal _ _ _ _)) as [w4 Hopen'].
  unfold ReadMetadata. rewrite Hvalid. simpl. by rewrite M_bind_unfold, Hopen', bool_decide_eq_true_2.
Qed.

(** Also: a generation reads back. What a write returned, however long ago and
    whatever else the bucket has come to hold, opens to exactly the body and
    exactly the metadata that were written, and passes the identity the row
    stored; a row whose identity is still pending reads the same. *)
Theorem generation_reads_back id plain meta w d i m w1 w2 :
  others_keep -> WriteGeneration id plain meta w = (Ok (d, i, m), w1) ->
  (objects w1 : gmap string _) ⊆ (objects w2 : gmap string _) -> served (blog w2) = Served_ok ->
  (Read id d (LoadedKnown i) w2).1 = Ok (plain, i) /\
  (Read id d (LoadedPending zeroIdentity) w2).1 = Ok (plain, i) /\
  match meta, m with
  | Some text, Some mo => (ReadMetadata id d mo w2).1 = Ok text
  | None, None => True
  | _, _ => False
  end.
Proof.
  intros Hkeep Hw Hsub Hs. apply written_reads; [done| |done]. eapply written_weaken; [|by eapply write_ok]. intros k x _ Hk. by eapply lookup_weaken.
Qed.

(** ** Authenticity *)

Lemma read_authentic_run id d loaded p i w w' :
  Read id d loaded w = (Ok (p, i), w') ->
  i = identity p /\ algorithm d = EncryptionAES256GCMRandomNonceV1 /\ loaded <> LoadedOther /\
  (forall e, loaded = LoadedKnown e -> e = i) /\
  exists dek n, Unwrap (wrappedDEK d) (keyVersion d) (dekAAD id) = Ok dek /\ blen dek = 32 /\
    (elsewhere (blog w) (objects w) : gmap string _) !! objectKey d =
      Some (gcm_seal dek n p (bodyAAD id), ciphertextContentType).
Proof.
  unfold Read. destruct (loadedValid loaded) eqn:Hv; [|done]. simpl.
  intros (q&w1&(Halg&c&dek&Hobj&Hu&Hl&[n ->]%open_sound)%open_object_ok&Hrun)%bind_ok_inv.
  assert (Hend : (q, identity q) = (p, i) /\ forall e, loaded = LoadedKnown e -> e = identity q).
  { destruct loaded as [e|e|]; [|by injection Hrun as -> <- _|done].
    destruct (bool_decide_reflect (e = identity q)) as [->|]; [|done].
    injection Hrun as -> <- _. split; [done|]. by intros e [= ->]. }
  destruct Hend as [[= -> <-] Hknown]. split_and!; [done|done|by intros ->|done|]. by exists dek, n.
Qed.

(** Also: what is read is what was sealed for this transcript. A body is returned
    only when the object at the descriptor's key is, byte for byte, that body
    sealed under the data key the descriptor unwraps to for this transcript, as
    a transcript body; the identity that goes with it is the body's own, and the
    one the row stored when it stored one. *)
Theorem read_authentic id d loaded p i w w' :
  Read id d loaded w = (Ok (p, i), w') ->
  i = identity p /\ algorithm d = EncryptionAES256GCMRandomNonceV1 /\ loaded <> LoadedOther /\
  (forall e, loaded = LoadedKnown e -> e = i) /\
  exists dek n, Unwrap (wrappedDEK d) (keyVersion d) (dekAAD id) = Ok dek /\ blen dek = 32 /\
    (elsewhere (blog w) (objects w) : gmap string _) !! objectKey d =
      Some (gcm_seal dek n p (bodyAAD id), ciphertextContentType).
Proof. apply read_authentic_run. Qed.

(** The same for the metadata. *)
Lemma metadata_authentic id d m p w w' :
  ReadMetadata id d m w = (Ok p, w') -> identity p = metadataIdentity m /\
  exists dek n, Unwrap (wrappedDEK d) (keyVersion d) (dekAAD id) = Ok dek /\
    (elsewhere (blog w) (objects w) : gmap string _) !! metadataKey m =
      Some (gcm_seal dek n p (metadataAAD id), ciphertextContentType).
Proof.
  unfold ReadMetadata. destruct (validMetadata m); [|done]. simpl.
  intros (q&w1&(_&c&dek&Hobj&Hu&_&[n ->]%open_sound)%open_object_ok&Hrun)%bind_ok_inv.
  destruct (bool_decide_reflect (identity q = metadataIdentity m)); [|done]. injection Hrun as -> _. eauto.
Qed.

Lemma sealed_role `{!CryptoBinds} id d dek n text a w :
  Unwrap (wrappedDEK d) (keyVersion d) (dekAAD id) = Ok dek ->
  (forall loaded r,
    (elsewhere (blog w) (objects w) : gmap string _) !! objectKey d = Some (gcm_seal dek n text a, ciphertextContentType) ->
    (Read id d loaded w).1 = Ok r -> a = bodyAAD id) /\
  (forall m p,
    (elsewhere (blog w) (objects w) : gmap string _) !! metadataKey m = Some (gcm_seal dek n text a, ciphertextContentType) ->
    (ReadMetadata id d m w).1 = Ok p -> a = metadataAAD id).
Proof.
  intros Hu. split.
  - intros loaded [p i] Hobj Hread. destruct (Read id d loaded w) as [r w'] eqn:Hr. simpl in Hread. subst r.
    apply read_authentic_run in Hr as (_&_&_&_&dek'&n'&Hu'&_&Hobj'). rewrite Hu in Hu'. injection Hu' as <-.
    rewrite Hobj in Hobj'. injection Hobj' as Hs. by eapply seal_binds.
  - intros m p Hobj Hread. destruct (ReadMetadata id d m w) as [r w'] eqn:Hr. simpl in Hread. subst r.
    apply metadata_authentic in Hr as (_&dek'&n'&Hu'&Hobj'). rewrite Hu in Hu'. injection Hu' as <-.
    rewrite Hobj in Hobj'. injection Hobj' as Hs. by eapply seal_binds.
Qed.

(** Also: an object plays one role for one transcript. Wherever a sealed object is
    put in the bucket, under whatever key, and whatever descriptor of whichever
    transcript points at it: sealed as a body it is returned as the body of its
    own transcript or not at all, sealed as metadata as the metadata of its own
    transcript or not at all, though one data key seals both. *)
Theorem object_has_one_role `{!CryptoBinds} id id' d dek n text w :
  let stored key aad := (elsewhere (blog w) (objects w) : gmap string _) !! key =
    Some (gcm_seal dek n text aad, ciphertextContentType) in
  Unwrap (wrappedDEK d) (keyVersion d) (dekAAD id) = Ok dek ->
  (forall loaded r, stored (objectKey d) (metadataAAD id') -> (Read id d loaded w).1 <> Ok r) /\
  (forall loaded r, stored (objectKey d) (bodyAAD id') -> (Read id d loaded w).1 = Ok r -> id' = id) /\
  (forall m p, stored (metadataKey m) (bodyAAD id') -> (ReadMetadata id d m w).1 <> Ok p) /\
  (forall m p, stored (metadataKey m) (metadataAAD id') -> (ReadMetadata id d m w).1 = Ok p -> id' = id).
Proof.
  intros stored Hu. split_and!.
  - intros loaded r Hs Hr. pose proof (proj1 (sealed_role id d dek n text _ w Hu) loaded r Hs Hr). done.
  - intros loaded r Hs Hr. by apply bodyAAD_inj, (proj1 (sealed_role id d dek n text _ w Hu) loaded r Hs Hr).
  - intros m p Hs Hr. pose proof (proj2 (sealed_role id d dek n text _ w Hu) m p Hs Hr). done.
  - intros m p Hs Hr. by apply metadataAAD_inj, (proj2 (sealed_role id d dek n text _ w Hu) m p Hs Hr).
Qed.

(** Also: a generation belongs to its transcript. The descriptor a write returned
    opens nothing for any other transcript: not its body and not its metadata,
    at any time and whatever the bucket holds. *)
Theorem generation_bound_to_transcript `{!CustodianBinds} id id' plain meta w d i m w1 w2 :
  WriteGeneration id plain meta w = (Ok (d, i, m), w1) -> id' <> id ->
  (forall loaded r, (Read id' d loaded w2).1 <> Ok r) /\ (forall mo p, (ReadMetadata id' d mo w2).1 <> Ok p).
Proof.
  intros (dek&entropy&Hw)%write_wraps Hne.
  assert (Hno : forall k, Unwrap (wrappedDEK d) (keyVersion d) (dekAAD id') <> Ok k).
  { intros k Hk. apply (wrap_binds _ _ _ _ _ _ _ Hw) in Hk. by injection Hk. }
  split.
  - intros loaded [p q] Hr. destruct (Read id' d loaded w2) as [r w3] eqn:Heq. simpl in Hr. subst r.
    apply read_authentic_run in Heq as (_&_&_&_&k&_&Hk&_). by apply Hno in Hk.
  - intros mo p Hr. destruct (ReadMetadata id' d mo w2) as [r w3] eqn:Heq. simpl in Hr. subst r.
    apply metadata_authentic in Heq as (_&k&_&Hk&_). by apply Hno in Hk.
Qed.

(** ** A write that fails *)
Definition residue (o : Objects) (r : result BlobError (BlobDescriptor * ContentIdentity * option MetadataObject))
    (o' : Objects) : Prop :=
  match r with
  | Ok (d, _, m) => exists body sealed,
      o' = match m with
           | Some mo => <[metadataKey mo := (sealed, ciphertextContentType)]>
                        (<[objectKey d := (body, ciphertextContentType)]> (o : gmap string (string * string)))
           | None => <[objectKey d := (body, ciphertextContentType)]> (o : gmap string (string * string))
           end
  | Err (ECleanup key) => (o : gmap string (string * string)) !! key = None /\
      exists body, o' = <[key := (body, ciphertextContentType)]> (o : gmap string (string * string))
  | Err _ => o' = o
  end.

(** Nobody else writes, and a request that fails was not carried out. *)
Record alone : Prop := {
  alone_elsewhere : forall l o, elsewhere l o = o;
  alone_served : forall l, served l <> Served_lost true
}.

Section residue.
Context (Halone : alone) (o : Objects).
Context (Hfresh : forall l, (o : gmap string (string * string)) !! ("transcripts/" +:+ random_uuid l +:+ ".bin") = None).

Definition untouched (w : BlobWorld) : Prop := objects w = o.

(** Before the first upload nothing is written, and no failure is a cleanup. *)
Definition prepares {A} (Q : A -> Prop) (r : result BlobError A) (w : BlobWorld) : Prop :=
  untouched w /\ match r with Ok a => Q a | Err (ECleanup _) => False | Err _ => True end.

Lemma prepares_bind {A C} (Q : A -> Prop) (m : M BlobWorld BlobError A) (f : A -> M BlobWorld BlobError C) (R : _ -> _ -> Prop) :
  triple untouched m (prepares Q) ->
  (forall e w, untouched w -> match e with ECleanup _ => False | _ => True end -> R (Err e) w) ->
  (forall a, Q a -> triple untouched (f a) R) -> triple untouched (m ≫= f) R.
Proof.
  intros Hm He Hf w Hw. specialize (Hm w Hw). rewrite M_bind_unfold.
  destruct (m w) as [[a|e] w']; destruct Hm as [Hu Hq]; simpl in *; [by apply Hf|by apply He].
Qed.

Lemma random_prepares {A} (f : list BlobEvent -> A) : triple untouched (random f) (prepares (fun a => exists l, a = f l)).
Proof. intros w Hw. split; [done|]. by exists (blog w). Qed.

Lemma of_some_prepares {A} e (x : option A) : match e with ECleanup _ => False | _ => True end ->
  triple untouched (of_some e x) (prepares (fun a => x = Some a)).
Proof. intros He w Hw. by destruct x. Qed.

Lemma key_result_prepares {A} (x : result KeyError A) : triple untouched (key_result x) (prepares (fun _ => True)).
Proof. intros w Hw. by destruct x. Qed.

Lemma generation_key_prepares :
  triple untouched generation_key (prepares (fun k => (o : gmap string (string * string)) !! k = None)).
Proof. intros w Hw. split; [done|]. apply Hfresh. Qed.

Lemma metadata_prepares key meta : triple untouched (metadata_object key meta) (prepares (fun _ => True)).
Proof.
  unfold metadata_object. destruct meta as [text|]; [|by intros w Hw].
  eapply prepares_bind; [apply generation_key_prepares|by intros []|]. intros mkey _.
  destruct (String.eqb mkey key); [by intros w Hw|].
  eapply prepares_bind; [by apply of_some_prepares|by intros []|]. by intros mo _ w Hw.
Qed.

Lemma change_alone event lost f w :
  exists w', (change event lost f w = (Ok tt, w') /\ objects w' = f (objects w)) \/
    (change event lost f w = (Err lost, w') /\ objects w' = objects w).
Proof.
  unfold change. pose proof (alone_served Halone (blog w)) as Hs. rewrite (alone_elsewhere Halone).
  destruct (served (blog w)) as [|[]]; [eexists; by left|done|eexists; by right].
Qed.

(** The two uploads, and what undoes the first when the second fails. *)
Lemma uploads_residue d i m body sealed : (o : gmap string (string * string)) !! objectKey d = None ->
  triple untouched (_ ← Put EPut (objectKey d) body ciphertextContentType;
    _ ← put_metadata (objectKey d) m sealed; mret (d, i, m)) (fun r w => residue o r (objects w)).
Proof.
  intros Hnone w Hw. unfold Put. rewrite M_bind_unfold.
  destruct (change_alone (BvPut (objectKey d)) EPut (fun o => <[objectKey d := (body, ciphertextContentType)]> (o : gmap string _)) w)
    as [w1 [[-> Ho1]|[-> Ho1]]]; rewrite Hw in Ho1; [|exact Ho1].
  rewrite M_bind_unfold. destruct m as [mo|]; [|by exists body, sealed]. unfold put_metadata, Put.
  rewrite M_bind_unfold.
  destruct (change_alone (BvPut (metadataKey mo)) EPutMetadata
    (fun o => <[metadataKey mo := (sealed, ciphertextContentType)]> (o : gmap string _)) w1)
    as [w2 [[Hm Ho2]|[Hm Ho2]]]; rewrite Ho1 in Ho2; rewrite (attempt_run _ _ _ _ Hm); [by exists body, sealed|].
  rewrite M_bind_unfold. unfold Remove.
  destruct (change_alone (BvDelete (objectKey d)) EDelete
    (fun o => delete (objectKey d) (o : gmap string (string * string))) w2)
    as [w3 [[Hd Ho3]|[Hd Ho3]]]; rewrite Ho2 in Ho3; rewrite (attempt_run _ _ _ _ Hd); simpl.
  - by rewrite Ho3, delete_insert_id.
  - split; [done|]. by exists body.
Qed.
End residue.

(** Also: a write that fails leaves nothing behind, or says what. When requests
    that fail were not carried out and nobody else writes, a generation that is
    written adds its own one or two objects to the bucket and nothing else, and
    one that is not leaves the bucket as it was, except in one case: the
    metadata upload failed and so did the removal of the body, and then the
    error is the one that names the body's key and that one object, under a key
    that was free, is all there is. *)
Theorem write_residue id plain meta w :
  alone ->
  (forall l, (objects w : gmap string (string * string)) !! ("transcripts/" +:+ random_uuid l +:+ ".bin") = None) ->
  let '(r, w') := WriteGeneration id plain meta w in residue (objects w) r (objects w').
Proof.
  intros Halone Hfresh. set (o := objects w) in *.
  enough (Ht : triple (untouched o) (WriteGeneration id plain meta) (fun r w => residue o r (objects w))).
  { specialize (Ht w eq_refl). by destruct (WriteGeneration id plain meta w). }
  assert (Herr : forall e w, untouched o w -> match e with ECleanup _ => False | _ => True end -> residue o (Err e) (objects w)).
  { intros e w0 Hu He. by destruct e. }
  unfold WriteGeneration. destruct (String.eqb id nilUUID); [by intros w0|].
  eapply prepares_bind; [apply random_prepares|done|]. intros drawn _.
  eapply prepares_bind; [by apply of_some_prepares|done|]. intros dek _.
  eapply prepares_bind; [apply random_prepares|done|]. intros n _.
  apply (prepares_bind _ (fun _ => True)); [by destruct meta; intros w0|done|]. intros sealed _.
  eapply prepares_bind; [apply random_prepares|done|]. intros entropy _.
  eapply prepares_bind; [apply key_result_prepares|done|]. intros [wrapped version] _.
  eapply prepares_bind; [by apply generation_key_prepares|done|]. intros key Hkey.
  eapply prepares_bind; [by apply of_some_prepares|done|]. intros d Hd.
  eapply prepares_bind; [by apply metadata_prepares|done|]. intros m _ w0 Hw0.
  unfold NewBlobDescriptor in Hd. destruct (_ || _) in Hd; [done|].
  pose proof (uploads_residue Halone o d (identity plain) m (gcm_seal dek n plain (bodyAAD id)) sealed) as Hup.
  injection Hd as <-. by apply Hup.
Qed.

(** ** Key rotation *)

Lemma rewrap_inv id d w d' w' : RewrapDescriptor id d w = (Ok d', w') ->
  objects w' = objects w /\ exists entropy,
    Rewrap entropy (wrappedDEK d) (keyVersion d) (dekAAD id) = Ok (wrappedDEK d', keyVersion d') /\
    NewBlobDescriptor (objectKey d) (wrappedDEK d') (algorithm d) (keyVersion d') = Some d'.
Proof.
  unfold RewrapDescriptor.
  intros (entropy&w1&[-> Ho]%random_inv&([wrapped version]&w2&Hrw&[Hd ->]%of_some_inv)%bind_ok_inv)%bind_ok_inv.
  destruct (Rewrap _ _ _ _) as [p|] eqn:Hr; [|done]. injection Hrw as -> <-. split; [done|].
  pose proof Hd as (->&_)%new_descriptor_inv. simpl. eauto.
Qed.

Lemma rewrap_usable id d w d' w' : RewrapDescriptor id d w = (Ok d', w') -> wrappedDEK d' <> "" /\ 0 < keyVersion d'.
Proof. by intros (_&entropy&_&(_&_&?&_&?)%new_descriptor_inv)%rewrap_inv. Qed.

Lemma rewrap_keeps_reads id d w d' w' : RewrapDescriptor id d w = (Ok d', w') ->
  objects w' = objects w /\ objectKey d' = objectKey d /\ algorithm d' = algorithm d /\
  (forall loaded w2, Read id d' loaded w2 = Read id d loaded w2) /\
  (forall m w2, ReadMetadata id d' m w2 = ReadMetadata id d m w2).
Proof.
  intros (Ho&entropy&(_&_&k&Hold&Hnew)%rewrap_unwrap&(Hd&_&_&Halg&_)%new_descriptor_inv)%rewrap_inv.
  assert (Hk : objectKey d' = objectKey d) by by rewrite Hd. assert (Ha : algorithm d' = algorithm d) by by rewrite Hd.
  assert (Hopen : forall key aad w3, open_object id key aad d' w3 = open_object id key aad d w3).
  { intros key aad w3. unfold open_object, openDEK. by rewrite Ha, Hold, Hnew. }
  split_and!; [done|done|done|intros loaded w2|intros m w2].
  - unfold Read. destruct (negb (loadedValid loaded)); [done|]. by rewrite !M_bind_unfold, Hk, Hopen.
  - unfold ReadMetadata. destruct (negb (validMetadata m)); [done|]. by rewrite !M_bind_unfold, Hopen.
Qed.
End laws.
End BlobLaws.
