(* ===== verification/KeyRotation.v ===== *)
(** * Maintenance of the descriptors ([internal/backfill])

    Rewrapping the data keys under the active version of the key ring
    ([rewrap.go]) and installing content identities that are still pending
    ([content_hash.go]), with the statements they run ([transcripts_pull.sql]).
    Other writers change rows before each statement, and a transaction can fail
    at any of its steps. *)
From S2P Require Import Prelude GoText BlobStore.

Open Scope string_scope.
Open Scope list_scope.
Open Scope Z_scope.

Module KeyRotation.
Import BlobStore.

(** ** The rows *)

(** The columns of [transcripts] these statements name. *)
Record BlobRow : Type := mkRow {
  rowBlobKey : string;
  rowWrapped : string;
  rowAlgorithm : string;
  rowVersion : Z;
  rowHash : option string;
  rowSize : option Z;
  rowPublished : Z
}.

Notation Rows := (gmap string BlobRow).

Definition row_descriptor (r : BlobRow) : option BlobDescriptor :=
  NewBlobDescriptor (rowBlobKey r) (rowWrapped r) (rowAlgorithm r) (rowVersion r).

Definition row_with_key (r : BlobRow) (wrapped : string) (version : Z) : BlobRow :=
  mkRow (rowBlobKey r) wrapped (rowAlgorithm r) version (rowHash r) (rowSize r) (rowPublished r).
Definition row_with_identity (r : BlobRow) (i : ContentIdentity) : BlobRow :=
  mkRow (rowBlobKey r) (rowWrapped r) (rowAlgorithm r) (rowVersion r)
    (Some (hash i)) (Some (plaintextSize i)) (rowPublished r).

(** [ORDER BY key_version, id], and [ORDER BY published_at ASC, id]. *)
Definition by_key (key : BlobRow -> Z) (a b : string * BlobRow) : bool :=
  (key a.2 <? key b.2) || ((key a.2 =? key b.2) && String.ltb a.1 b.1).

(** [id > @after_id]: no row is after a NULL. *)
Definition id_after (after : option string) (id : string) : bool :=
  match after with Some a => String.ltb a id | None => false end.
Definition listed_for_rewrap (active afterVersion : Z) (afterID : option string) (r : string * BlobRow) : bool :=
  (rowVersion r.2 <? active) &&
  ((afterVersion <? rowVersion r.2) || ((rowVersion r.2 =? afterVersion) && id_after afterID r.1)).
Definition ListTranscriptDescriptorsForRewrap (active afterVersion : Z) (afterID : option string) (batch : Z)
    (rows : Rows) : list (string * BlobRow) :=
  take (Z.to_nat batch) (sort_stable (by_key rowVersion)
    (List.filter (listed_for_rewrap active afterVersion afterID) (map_to_list rows))).
Definition ListTranscriptsMissingContentHash (rows : Rows) : list (string * BlobRow) :=
  sort_stable (by_key rowPublished)
    (List.filter (fun r => bool_decide (rowHash r.2 = None)) (map_to_list rows)).

Definition same_descriptor (a b : BlobRow) : bool :=
  bool_decide (rowBlobKey a = rowBlobKey b) && bool_decide (rowWrapped a = rowWrapped b) &&
  bool_decide (rowAlgorithm a = rowAlgorithm b) && (rowVersion a =? rowVersion b).

(** The row a compare-and-swap finds, when it finds one. *)
Definition CompareAndSwapWrappedDataKey (id : string) (expected : BlobRow) (rows : Rows) : option BlobRow :=
  r ← rows !! id; if same_descriptor r expected then Some r else None.
Definition CompareAndSwapContentIdentity (id : string) (expected : BlobRow) (rows : Rows) : option BlobRow :=
  r ← rows !! id;
  if same_descriptor r expected && bool_decide (rowHash r = None) && bool_decide (rowSize r = rowSize expected)
  then Some r else None.

(** ** Transactions *)

(** [MvInstall]: a row was [old] and is [new] now. *)
Inductive MaintEvent : Type :=
| MvList
| MvTry (id : string)
| MvInstall (id : string) (old new : BlobRow).

(** A transaction fails before its statement, at it, or at commit, which may
    have been carried out all the same. *)
Inductive Fate : Type := FateDone | FateFailed | FateUncertain (carried_out : bool).

Class MaintEnv : Type := {
  rows_elsewhere : list MaintEvent -> Rows -> Rows;
  listing : list MaintEvent -> bool;
  fate : list MaintEvent -> Fate
}.

Record MaintWorld : Type := mkMaint { mrows : Rows; mblob : BlobWorld; mlog : list MaintEvent }.

(** The fuel of a loop ran out. *)
Inductive OutOfFuel : Type := EFuel.
Inductive MaintError : Type := ELimit | EListing.

Section maintenance.
Context `{Crypto, BlobEnv, KeyCustodian, MaintEnv}.

Notation T := (M MaintWorld OutOfFuel).

Definition blob {A} (m : M BlobWorld BlobError A) : T (result BlobError A) := fun w =>
  let '(r, b) := m (mblob w) in (Ok r, mkMaint (mrows w) b (mlog w)).

Definition select (query : Rows -> list (string * BlobRow)) : T (option (list (string * BlobRow))) := fun w =>
  let rows := rows_elsewhere (mlog w) (mrows w) in
  (Ok (if listing (mlog w) then Some (query rows) else None), mkMaint rows (mblob w) (mlog w ++ [MvList])).

(** A transaction that swaps the row [find] finds for [f] of it: whether a row
    was changed, whether the outcome is unknown, and whether it failed. *)
Definition swap (id : string) (find : Rows -> option BlobRow) (f : BlobRow -> BlobRow) : T (bool * bool * bool) :=
  fun w =>
  let rows := rows_elsewhere (mlog w) (mrows w) in
  let kept := mkMaint rows (mblob w) (mlog w ++ [MvTry id]) in
  let swapped := match find rows with
    | Some old => mkMaint (<[id := f old]> rows) (mblob w) (mlog w ++ [MvTry id; MvInstall id old (f old)])
    | None => kept
    end in
  match fate (mlog w) with
  | FateDone => (Ok (is_some_b (find rows), false, false), swapped)
  | FateFailed => (Ok (false, false, true), kept)
  | FateUncertain carried_out => (Ok (false, true, true), if carried_out then swapped else kept)
  end.

(** ** [rewrap.go] *)
Record RewrapResult : Type := mkRewrap {
  Scanned : Z; Installed : Z; Stale : Z; Failed : Z; Uncertain : Z; Remaining : Z; ActiveVersion : Z
}.
Definition rewrap_start (active : Z) : RewrapResult := mkRewrap 0 0 0 0 0 0 active.

Definition installRewrap (id : string) (row : BlobRow) (next : BlobDescriptor) : T (bool * bool * bool) :=
  swap id (CompareAndSwapWrappedDataKey id row) (fun r => row_with_key r (wrappedDEK next) (keyVersion next)).

(** The body of the inner loop. *)
Definition rewrap_row (res : RewrapResult) (id : string) (row : BlobRow) : T RewrapResult :=
  let '(mkRewrap scanned installed stale failed uncertain remaining active) := res in
  let scanned := scanned + 1 in
  match row_descriptor row with
  | None => mret (mkRewrap scanned installed stale (failed + 1) uncertain remaining active)
  | Some d =>
    next ← blob (RewrapDescriptor id d);
    match next with
    | Err _ => mret (mkRewrap scanned installed stale (failed + 1) uncertain remaining active)
    | Ok next =>
      '(ok, unknown, err) ← installRewrap id row next;
      if (unknown : bool) then mret (mkRewrap scanned installed stale failed (uncertain + 1) remaining active)
      else if (err : bool) then mret (mkRewrap scanned installed stale (failed + 1) uncertain remaining active)
      else if (ok : bool) then mret (mkRewrap scanned (installed + 1) stale failed uncertain remaining active)
      else mret (mkRewrap scanned installed (stale + 1) failed uncertain remaining active)
    end
  end.

(** The inner loop, which leaves the key of the last row it saw. *)
Fixpoint rewrap_rows (res : RewrapResult) (afterVersion : Z) (afterID : option string)
    (rows : list (string * BlobRow)) : T (RewrapResult * Z * option string) :=
  match rows with
  | [] => mret (res, afterVersion, afterID)
  | (id, row) :: rest =>
    res ← rewrap_row res id row;
    rewrap_rows res (rowVersion row) (Some id) rest
  end.

Definition with_remaining (res : RewrapResult) : RewrapResult :=
  mkRewrap (Scanned res) (Installed res) (Stale res) (Failed res) (Uncertain res) 1 (ActiveVersion res).

Fixpoint rewrap_loop (fuel : nat) (active limit : Z) (res : RewrapResult) (afterVersion : Z)
    (afterID : option string) : T (RewrapResult * option MaintError) :=
  if negb (Scanned res <? limit) then mret (res, None)
  else match fuel with
  | O => throw EFuel
  | S fuel =>
    rows ← select (ListTranscriptDescriptorsForRewrap active afterVersion afterID (limit - Scanned res + 1));
    match rows with
    | None => mret (res, Some EListing)
    | Some [] => mret (res, None)
    | Some rows =>
      let room := limit - Scanned res in
      let over := room <? Z.of_nat (length rows) in
      let res := if over then with_remaining res else res in
      let rows := if over then take (Z.to_nat room) rows else rows in
      '(res, afterVersion, afterID) ← rewrap_rows res afterVersion afterID rows;
      if 0 <? Remaining res then mret (res, None) else rewrap_loop fuel active limit res afterVersion afterID
    end
  end.

(** Each turn of the loop scans a row, so [limit] turns are enough. *)
Definition Rewrap (active limit : Z) : T (RewrapResult * option MaintError) :=
  if (limit <? 1) || (1000 <? limit) then mret (rewrap_start 0, Some ELimit)
  else rewrap_loop (Z.to_nat limit) active limit (rewrap_start active) 0 None.

(** ** [content_hash.go] *)
Record IdentityResult : Type := mkIdentityResult {
  iScanned : Z; iInstalled : Z; iStale : Z; iFailed : Z
}.

Definition installIdentity (id : string) (row : BlobRow) (i : ContentIdentity) : T (bool * bool * bool) :=
  swap id (CompareAndSwapContentIdentity id row) (fun r => row_with_identity r i).

Definition identity_row (res : IdentityResult) (id : string) (row : BlobRow) : T IdentityResult :=
  let '(mkIdentityResult scanned installed stale failed) := res in
  let fail := mkIdentityResult scanned installed stale (failed + 1) in
  match row_descriptor row, NewLoadedContentIdentity None None with
  | Some d, Some loaded =>
    read ← blob (Read id d loaded);
    match read with
    | Err _ => mret fail
    | Ok (_, i) =>
      '(ok, _, err) ← installIdentity id row i;
      if (err : bool) then mret fail
      else if (ok : bool) then mret (mkIdentityResult scanned (installed + 1) stale failed)
      else mret (mkIdentityResult scanned installed (stale + 1) failed)
    end
  | _, _ => mret fail
  end.

Fixpoint identity_rows (res : IdentityResult) (rows : list (string * BlobRow)) : T IdentityResult :=
  match rows with
  | [] => mret res
  | (id, row) :: rest => res ← identity_row res id row; identity_rows res rest
  end.

Definition BackfillContentIdentity : T (IdentityResult * option MaintError) :=
  rows ← select ListTranscriptsMissingContentHash;
  match rows with
  | None => mret (mkIdentityResult 0 0 0 0, Some EListing)
  | Some rows => res ← identity_rows (mkIdentityResult (Z.of_nat (length rows)) 0 0 0) rows; mret (res, None)
  end.
End maintenance.
End KeyRotation.
