(* ===== verification/KeyRotationLaws.v ===== *)
(** * What descriptor maintenance promises

    Theorems about [KeyRotation], on top of the laws of the encrypted store. *)
From S2P Require Import Prelude GoText BlobStore BlobLaws KeyRotation.

Open Scope string_scope.
Open Scope list_scope.
Open Scope Z_scope.

Module KeyRotationLaws.
Import BlobStore BlobLaws KeyRotation.

Section laws.
Context `{CryptoLaws, BlobEnv, CustodianLaws, MaintEnv}.

Notation T := (M MaintWorld OutOfFuel).

(** ** Accounting and termination *)

(** Every scanned row has one fate. *)
Definition accounted (r : RewrapResult) : Prop :=
  Scanned r = Installed r + Stale r + Failed r + Uncertain r /\
  0 <= Installed r /\ 0 <= Stale r /\ 0 <= Failed r /\ 0 <= Uncertain r /\ 0 <= Remaining r <= 1.

(** One more row was seen. *)
Definition one_more (r r' : RewrapResult) : Prop :=
  Scanned r' = Scanned r + 1 /\ Remaining r' = Remaining r /\ (accounted r -> accounted r').

Lemma rewrap_row_total res id row w :
  exists res' w', rewrap_row res id row w = (Ok res', w') /\ one_more res res'.
Proof.
  unfold rewrap_row. destruct res as [s i st f u r a].
  destruct (row_descriptor row) as [d|]; [|by do 2 eexists; split; [done|]; unfold one_more, accounted; simpl; lia].
  rewrite M_bind_unfold. unfold blob at 1. destruct (RewrapDescriptor id d (mblob w)) as [[next|e] b];
    [|by do 2 eexists; split; [done|]; unfold one_more, accounted; simpl; lia].
  rewrite M_bind_unfold. destruct (installRewrap id row next _) as [[[[ok unknown] err]|[]] w'] eqn:Hi.
  - destruct unknown, err, ok; do 2 eexists; (split; [done|]); unfold one_more, accounted; simpl; lia.
  - unfold installRewrap, swap in Hi. by destruct (fate _).
Qed.

Lemma rewrap_rows_total rows : forall res v a w,
  exists res' v' a' w', rewrap_rows res v a rows w = (Ok (res', v', a'), w') /\
    Scanned res' = Scanned res + Z.of_nat (length rows) /\ Remaining res' = Remaining res /\ (accounted res -> accounted res').
Proof.
  induction rows as [|[id row] rows IH]; intros res v a w; simpl.
  { do 4 eexists. split; [done|]. split; [lia|done]. }
  destruct (rewrap_row_total res id row w) as (res1&w1&Hrow&Hs&Hr&Ha). rewrite M_bind_unfold, Hrow.
  destruct (IH res1 (rowVersion row) (Some id) w1) as (res2&v2&a2&w2&Hrows&Hs2&Hr2&Ha2).
  do 4 eexists. split; [exact Hrows|]. split; [lia|]. split; [congruence|auto].
Qed.

Lemma rewrap_loop_total active limit : forall fuel res v a w,
  accounted res -> Scanned res <= limit -> limit - Scanned res <= Z.of_nat fuel ->
  exists res' e w', rewrap_loop fuel active limit res v a w = (Ok (res', e), w') /\
    accounted res' /\ Scanned res' <= limit.
Proof.
  induction fuel as [|fuel IH]; intros res v a w Ha Hle Hfuel; simpl.
  { destruct (Z.ltb_spec (Scanned res) limit); [lia|]. simpl. eauto 6. }
  destruct (Z.ltb_spec (Scanned res) limit) as [Hlt|]; simpl; [|eauto 6].
  rewrite M_bind_unfold. simpl. destruct (listing (mlog w)); [|eauto 6].
  destruct (ListTranscriptDescriptorsForRewrap _ _ _ _ _) as [|r0 rows]; [eauto 6|].
  rewrite M_bind_unfold. set (over := limit - Scanned res <? Z.of_nat (length (r0 :: rows))).
  set (res1 := if over then with_remaining res else res).
  set (rows1 := if over then take _ _ else _).
  assert (Hres1 : accounted res1 /\ Scanned res1 = Scanned res).
  { subst res1. destruct over; [|done]. split; [|done]. unfold accounted in *. simpl. lia. }
  assert (Hrows1 : 1 <= Z.of_nat (length rows1) <= limit - Scanned res).
  { subst rows1 over. destruct (Z.ltb_spec (limit - Scanned res) (Z.of_nat (length (r0 :: rows)))).
    - rewrite length_take. lia.
    - simpl length in *. lia. }
  destruct (rewrap_rows_total rows1 res1 v a (mkMaint (rows_elsewhere (mlog w) (mrows w)) (mblob w) (mlog w ++ [MvList])))
    as (res2&v2&a2&w2&Hrun&Hs2&_&Ha2).
  rewrite Hrun. destruct (0 <? Remaining res2).
  - do 3 eexists. split; [done|]. split; [apply Ha2, Hres1|lia].
  - apply IH; [apply Ha2, Hres1|lia|lia].
Qed.

(** C33: rewrapping ends, within its limit, and accounts for every row. Whatever
    other writers do to the rows, the database to the transactions and the bucket
    to the requests, a run returns (the loop needs no more turns than its
    limit), it has seen at most [limit] rows, and every row it has seen is counted
    once: installed, stale, failed or of unknown outcome. A limit outside 1..1000
    is refused before anything is read. *)
Theorem rewrap_ends_and_accounts active limit w :
  (1 <= limit <= 1000 -> exists res e w', Rewrap active limit w = (Ok (res, e), w') /\ accounted res /\ Scanned res <= limit) /\
  (limit < 1 \/ 1000 < limit -> Rewrap active limit w = (Ok (rewrap_start 0, Some ELimit), w)).
Proof.
  unfold Rewrap. split.
  - intros Hlimit. destruct (Z.ltb_spec limit 1); [lia|]. destruct (Z.ltb_spec 1000 limit); [lia|]. simpl.
    apply rewrap_loop_total; [unfold accounted; simpl; lia|simpl; lia|simpl; lia].
  - intros [Hl|Hl]; [by destruct (Z.ltb_spec limit 1); [|lia]|].
    destruct (Z.ltb_spec 1000 limit); [|lia]. by rewrite orb_true_r.
Qed.

(** ** What a run changes *)
Section installs.
Context (P : string -> BlobRow -> BlobRow -> Prop) (w0 : MaintWorld).

(** Every row a run changed is one [P] speaks of. *)
Definition installs (w : MaintWorld) : Prop :=
  forall id old new, MvInstall id old new ∈ mlog w -> MvInstall id old new ∈ mlog w0 \/ P id old new.

Lemma installs_blob {A} (m : M BlobWorld BlobError A) : keeps installs (blob m).
Proof. intros w Hw. unfold blob. by destruct (m (mblob w)). Qed.

Lemma installs_select query : keeps installs (select query).
Proof. intros w Hw id old new. simpl. intros [Hin|Hin%list_elem_of_singleton]%elem_of_app; [by apply Hw|done]. Qed.

Lemma installs_swap id find f :
  (forall rows old, find rows = Some old -> P id old (f old)) -> keeps installs (swap id find f).
Proof.
  intros Hf w Hw. unfold swap.
  assert (Hkept : forall rows, installs (mkMaint rows (mblob w) (mlog w ++ [MvTry id]))).
  { intros rows id' old new [Hin|Hin%list_elem_of_singleton]%elem_of_app; [by apply Hw|done]. }
  assert (Hswap : installs (match find (rows_elsewhere (mlog w) (mrows w)) with
    | Some old => mkMaint (<[id := f old]> (rows_elsewhere (mlog w) (mrows w))) (mblob w) (mlog w ++ [MvTry id; MvInstall id old (f old)])
    | None => mkMaint (rows_elsewhere (mlog w) (mrows w)) (mblob w) (mlog w ++ [MvTry id]) end)).
  { destruct (find _) as [old|] eqn:Hfind; [|apply Hkept]. intros id' old' new [Hin|Hin]%elem_of_app; [by apply Hw|].
    apply elem_of_cons in Hin as [?|[= -> -> ->]%list_elem_of_singleton]; [done|]. right. by eapply Hf. }
  destruct (fate (mlog w)) as [| |[]]; simpl; try apply Hkept; exact Hswap.
Qed.
End installs.
#[local] Hint Resolve installs_blob installs_select installs_swap : keeps.

Lemma same_descriptor_eq a b : same_descriptor a b = true ->
  rowBlobKey a = rowBlobKey b /\ rowWrapped a = rowWrapped b /\ rowAlgorithm a = rowAlgorithm b /\ rowVersion a = rowVersion b.
Proof. unfold same_descriptor. intros Hs. bool_hyps. done. Qed.

Lemma swapped_row id row rows old : CompareAndSwapWrappedDataKey id row rows = Some old ->
  rows !! id = Some old /\ row_descriptor old = row_descriptor row.
Proof.
  unfold CompareAndSwapWrappedDataKey. destruct (rows !! id) as [r|]; simpl; [|done].
  destruct (same_descriptor r row) eqn:Hs; [|done]. intros [= ->]. apply same_descriptor_eq in Hs as (Hk&Hw&Ha&Hv).
  unfold row_descriptor. by rewrite Hk, Hw, Ha, Hv.
Qed.

(** The row reads as it did: same object, same columns but the key's. *)
Definition reads_as_before (id : string) (old new : BlobRow) : Prop :=
  rowBlobKey new = rowBlobKey old /\ rowAlgorithm new = rowAlgorithm old /\
  rowHash new = rowHash old /\ rowSize new = rowSize old /\ rowPublished new = rowPublished old /\
  exists d d', row_descriptor old = Some d /\ row_descriptor new = Some d' /\
    (forall loaded w, Read id d' loaded w = Read id d loaded w) /\
    (forall m w, ReadMetadata id d' m w = ReadMetadata id d m w).

Lemma rewrapped_reads id d next b b' row old : row_descriptor row = Some d -> row_descriptor old = row_descriptor row ->
  RewrapDescriptor id d b = (Ok next, b') ->
  reads_as_before id old (row_with_key old (wrappedDEK next) (keyVersion next)).
Proof.
  intros Hrow Hold Hrw. split_and!; [done..|]. exists d, next. rewrite Hold.
  pose proof Hrw as (_&Hkey&Halg&Hread&Hmeta)%rewrap_keeps_reads. split_and!; [done| |done|done].
  rewrite <- Hold in Hrow. apply new_descriptor_inv in Hrow as (->&Hm&_&Ha&_). simpl in *.
  unfold row_descriptor, row_with_key. simpl. apply new_descriptor_inv.
  destruct (rewrap_usable _ _ _ _ _ Hrw) as [Hne Hpos]. split_and!; [|done|done|done|done].
  destruct next. simpl in *. by subst.
Qed.

Lemma rewrap_row_keeps w0 res id row : keeps (installs reads_as_before w0) (rewrap_row res id row).
Proof.
  unfold rewrap_row. destruct res as [s i st f u r a]. destruct (row_descriptor row) as [d|] eqn:Hrow; [|apply keeps_ret].
  intros w Hw. rewrite M_bind_unfold. unfold blob.
  destruct (RewrapDescriptor id d (mblob w)) as [[next|e] b] eqn:Hrw; [|by apply keeps_ret].
  apply keeps_bind; [|by intros [[[] []] []]; apply keeps_ret|done].
  apply installs_swap. intros rows old [_ Hold]%swapped_row. by eapply rewrapped_reads.
Qed.

Lemma rewrap_rows_keeps w0 rows : forall res v a, keeps (installs reads_as_before w0) (rewrap_rows res v a rows).
Proof.
  induction rows as [|[id row] rows IH]; intros res v a; simpl; [apply keeps_ret|].
  apply keeps_bind; [apply rewrap_row_keeps|]. intros res'. apply IH.
Qed.

Lemma rewrap_loop_keeps w0 active limit : forall fuel res v a,
  keeps (installs reads_as_before w0) (rewrap_loop fuel active limit res v a).
Proof.
  induction fuel as [|fuel IH]; intros res v a; simpl; destruct (negb _); try apply keeps_ret; [apply keeps_throw|].
  apply keeps_bind; [apply installs_select|]. intros [[|r rows]|]; [apply keeps_ret| |apply keeps_ret].
  apply keeps_bind; [apply rewrap_rows_keeps|]. intros [[res' v'] a']. destruct (_ <? _); [apply keeps_ret|apply IH].
Qed.

(** C31: rewrapping never loses a transcript. Every row a run changes, whoever
    else is writing and wherever the run stops, was at that moment the row whose
    key was unwrapped, and it reads as before: the same object, hash and size,
    and every read of body or metadata through it ends exactly as through the
    old one. A row someone else changed in between is left to them. *)
Theorem rewrap_preserves_rows active limit w r w' id old new :
  Rewrap active limit w = (r, w') -> MvInstall id old new ∈ mlog w' ->
  MvInstall id old new ∈ mlog w \/ reads_as_before id old new.
Proof.
  intros Hrun. assert (Hk : keeps (installs reads_as_before w) (Rewrap active limit)).
  { unfold Rewrap. destruct (_ || _); [apply keeps_ret|apply rewrap_loop_keeps]. }
  assert (Hw' : installs reads_as_before w w').
  { eapply keeps_run; [exact Hk| |exact Hrun]. intros ???. by left. }
  apply Hw'.
Qed.

(** ** Progress *)

(** Nobody else writes, and the database answers. *)
Record undisturbed : Prop := {
  quiet_rows : forall l rows, rows_elsewhere l rows = rows;
  quiet_listing : forall l, listing l = true;
  quiet_fate : forall l, fate l = FateDone
}.

(** The rows that still name an older key version, and that the custodian can
    bring to the active one. *)
Definition outdated (active : Z) (r : string * BlobRow) : Prop := rowVersion r.2 < active.
#[local] Instance outdated_dec active r : Decision (outdated active r) := decide (rowVersion r.2 < active).
Definition pending (active : Z) (rows : Rows) : gset string := dom (filter (outdated active) rows).
Definition rewrappable (active : Z) (rows : Rows) : Prop :=
  forall id row, rows !! id = Some row -> rowVersion row < active ->
    exists d, row_descriptor row = Some d /\
      forall entropy, exists wrapped, BlobStore.Rewrap entropy (wrappedDEK d) (keyVersion d) (dekAAD id) = Ok (wrapped, active).

Lemma elem_of_pending active rows id :
  id ∈ pending active rows <-> exists row, rows !! id = Some row /\ rowVersion row < active.
Proof.
  unfold pending. rewrite elem_of_dom. unfold is_Some. setoid_rewrite map_lookup_filter_Some. done.
Qed.

Lemma pending_insert active rows id row : active <= rowVersion row ->
  pending active (<[id := row]> rows) = pending active rows ∖ {[id]}.
Proof.
  intros Hv. apply set_eq. intros x. rewrite elem_of_difference, !elem_of_pending, elem_of_singleton.
  destruct (decide (x = id)) as [->|Hne].
  - rewrite lookup_insert_eq. split; [intros (r&[= <-]&?); lia|naive_solver].
  - rewrite lookup_insert_ne by done. naive_solver.
Qed.

Lemma rewrappable_insert active rows id row : active <= rowVersion row ->
  rewrappable active rows -> rewrappable active (<[id := row]> rows).
Proof.
  intros Hv Hr id' row'. destruct (decide (id' = id)) as [->|]; [rewrite lookup_insert_eq; intros [= <-]; lia|].
  rewrite lookup_insert_ne by done. apply Hr.
Qed.

(** [k] more rows were installed. *)
Definition installed_more (k : Z) (r : RewrapResult) : RewrapResult :=
  mkRewrap (Scanned r + k) (Installed r + k) (Stale r) (Failed r) (Uncertain r) (Remaining r) (ActiveVersion r).

Lemma installed_more_more k j r : installed_more j (installed_more k r) = installed_more (k + j) r.
Proof. unfold installed_more. simpl. f_equal; lia. Qed.

Section quiet.
Context (Hquiet : undisturbed) (active : Z).

Lemma rewrap_row_quiet res id row w :
  rewrappable active (mrows w) -> mrows w !! id = Some row -> rowVersion row < active ->
  exists row' w', rewrap_row res id row w = (Ok (installed_more 1 res), w') /\
    mrows w' = <[id := row']> (mrows w) /\ rowVersion row' = active.
Proof.
  intros Hr Hrow Hv. destruct (Hr id row Hrow Hv) as (d&Hd&Hrw).
  unfold rewrap_row. destruct res as [s i st f u r a]. rewrite Hd, M_bind_unfold. unfold blob.
  destruct (RewrapDescriptor id d (mblob w)) as [[next|e] b] eqn:Hnext.
  - pose proof Hnext as (_&entropy&Hn&_)%rewrap_inv. destruct (Hrw entropy) as [wrapped Hw]. rewrite Hw in Hn.
    injection Hn as _ Hn. rewrite M_bind_unfold. unfold installRewrap, swap. simpl.
    rewrite (quiet_fate Hquiet), (quiet_rows Hquiet). unfold CompareAndSwapWrappedDataKey. rewrite Hrow. simpl.
    assert (Hsame : same_descriptor row row = true).
    { unfold same_descriptor. rewrite !bool_decide_eq_true_2, Z.eqb_refl by done. done. }
    rewrite Hsame. simpl. do 2 eexists. split; [done|]. split; [done|]. by simpl.
  - exfalso. unfold RewrapDescriptor in Hnext. rewrite M_bind_unfold in Hnext. simpl in Hnext.
    destruct (Hrw (random_nonce (blog (mblob w)))) as [wrapped Hw]. rewrite Hw, M_bind_unfold in Hnext. simpl in Hnext.
    destruct (rewrap_unwrap _ _ _ _ _ _ Hw) as (Hne&Hpos&_).
    apply new_descriptor_inv in Hd as (->&Hkey&_&Halg&_). simpl in *.
    rewrite (proj2 (new_descriptor_inv _ _ _ _ (mkDescriptor (rowBlobKey row) wrapped (rowAlgorithm row) active))) in Hnext; done.
Qed.

Lemma rewrap_rows_quiet rows : forall res v a w,
  rewrappable active (mrows w) -> NoDup rows.*1 ->
  (forall id row, (id, row) ∈ rows -> mrows w !! id = Some row /\ rowVersion row < active) ->
  exists v' a' w', rewrap_rows res v a rows w = (Ok (installed_more (Z.of_nat (length rows)) res, v', a'), w') /\
    rewrappable active (mrows w') /\ pending active (mrows w') = pending active (mrows w) ∖ list_to_set rows.*1.
Proof.
  induction rows as [|[id row] rows IH]; intros res v a w Hr Hnd Hin; simpl.
  { do 3 eexists. split_and!; [|done|set_solver]. unfold installed_more. destruct res. simpl.
    rewrite !Z.add_0_r. done. }
  apply NoDup_cons in Hnd as [Hid Hnd]. destruct (Hin id row) as [Hrow Hv]; [by left|].
  destruct (rewrap_row_quiet res id row w Hr Hrow Hv) as (row'&w1&Hrun&Hw1&Hv').
  rewrite M_bind_unfold, Hrun.
  destruct (IH (installed_more 1 res) (rowVersion row) (Some id) w1) as (v2&a2&w2&Hrun2&Hr2&Hp2).
  - rewrite Hw1. apply rewrappable_insert; [lia|done].
  - done.
  - intros id2 row2 Hin2. rewrite Hw1, lookup_insert_ne; [by apply Hin; right|].
    intros ->. apply Hid. apply list_elem_of_fmap. by exists (id2, row2).
  - do 3 eexists. split_and!; [|exact Hr2|].
    + rewrite Hrun2, installed_more_more. by replace (1 + Z.of_nat (length rows)) with (Z.of_nat (S (length rows))) by lia.
    + rewrite Hp2, Hw1, pending_insert by lia. set_solver.
Qed.

(** What the first statement of a run lists: every pending row, by version and
    identifier, one more than the limit at most. *)
Lemma listed_pending rows : rewrappable active rows ->
  List.filter (listed_for_rewrap active 0 None) (map_to_list rows) =
  List.filter (fun r => rowVersion r.2 <? active) (map_to_list rows).
Proof.
  intros Hr. apply list_filter_ext. intros [id row] Hin%elem_of_map_to_list. unfold listed_for_rewrap. simpl.
  destruct (Z.ltb_spec (rowVersion row) active) as [Hv|]; [|done].
  destruct (Hr id row Hin Hv) as (d&Hd&_). apply new_descriptor_inv in Hd as (_&_&_&_&Hpos).
  by rewrite (proj2 (Z.ltb_lt 0 (rowVersion row)) Hpos).
Qed.

Definition worklist (rows : Rows) : list (string * BlobRow) :=
  sort_stable (by_key rowVersion) (List.filter (fun r => rowVersion r.2 <? active) (map_to_list rows)).

Lemma elem_of_worklist rows id row : (id, row) ∈ worklist rows <-> rows !! id = Some row /\ rowVersion row < active.
Proof.
  unfold worklist. rewrite elem_of_sort_stable, elem_of_list_filter, elem_of_map_to_list. simpl.
  by rewrite Z.ltb_lt.
Qed.

Lemma worklist_nodup rows : NoDup (worklist rows).*1.
Proof.
  unfold worklist. rewrite sort_stable_perm.
  eapply sublist_NoDup; [exact (NoDup_fst_map_to_list rows)|apply fmap_sublist, list_filter_sublist].
Qed.

Lemma worklist_pending rows : pending active rows = list_to_set (worklist rows).*1.
Proof.
  apply set_eq. intros id. rewrite elem_of_pending, elem_of_list_to_set, list_elem_of_fmap. split.
  - intros (row&Hrow). exists (id, row). split; [done|]. by apply elem_of_worklist.
  - intros ([id' row]&->&Hin%elem_of_worklist). eauto.
Qed.

Lemma worklist_length rows : size (pending active rows) = length (worklist rows).
Proof. by rewrite worklist_pending, size_list_to_set, length_fmap by apply worklist_nodup. Qed.

(** The rows a run of [limit] works on, out of those listed. *)
Lemma worked_on limit (l : list (string * BlobRow)) : 0 <= limit ->
  let listed := take (Z.to_nat (limit + 1)) l in
  let over := limit <? Z.of_nat (length listed) in
  over = (limit <? Z.of_nat (length l)) /\
  (if over then take (Z.to_nat limit) listed else listed) = take (Z.to_nat limit) l.
Proof.
  intros Hlimit listed over. subst over listed. rewrite length_take.
  destruct (Z.ltb_spec limit (Z.of_nat (length l))); destruct (Z.ltb_spec limit (Z.of_nat (Z.to_nat (limit + 1) `min` length l))); try lia.
  - split; [done|]. rewrite take_take. f_equal. lia.
  - split; [done|]. by rewrite !take_ge by lia.
Qed.

Lemma pending_take rows k :
  Z.of_nat (size (pending active rows ∖ list_to_set (take k (worklist rows)).*1)) =
  Z.of_nat (size (pending active rows)) - Z.of_nat (k `min` length (worklist rows)).
Proof.
  pose proof (worklist_nodup rows) as Hnd.
  assert (Hsub : list_to_set (take k (worklist rows)).*1 ⊆@{gset string} pending active rows).
  { rewrite worklist_pending. rewrite fmap_take. intros id. rewrite !elem_of_list_to_set.
    intros (i&Hi&_)%elem_of_take. by eapply list_elem_of_lookup_2. }
  rewrite size_difference by done.
  rewrite size_list_to_set by (rewrite fmap_take; eapply sublist_NoDup; [done|apply sublist_take]).
  rewrite length_fmap, length_take. pose proof (subseteq_size _ _ Hsub) as Hle.
  rewrite size_list_to_set, length_fmap, length_take in Hle by (rewrite fmap_take; eapply sublist_NoDup; [done|apply sublist_take]).
  lia.
Qed.

(** Nothing is pending: the loop stops at the next listing. *)
Lemma loop_done fuel limit res v a w : pending active (mrows w) = ∅ -> (Scanned res < limit -> fuel <> O) ->
  exists w', rewrap_loop fuel active limit res v a w = (Ok (res, None), w') /\ mrows w' = mrows w.
Proof.
  intros Hnone Hfuel. destruct fuel as [|fuel]; simpl; destruct (Z.ltb_spec (Scanned res) limit); simpl; try by eexists.
  { by destruct (Hfuel ltac:(done)). }
  rewrite M_bind_unfold. unfold select. rewrite (quiet_listing Hquiet), (quiet_rows Hquiet).
  assert (Hempty : List.filter (listed_for_rewrap active v a) (map_to_list (mrows w)) = []).
  { apply elem_of_nil_inv. intros [id row] [Hin%elem_of_map_to_list Hl]%elem_of_list_filter.
    unfold listed_for_rewrap in Hl. bool_hyps. apply (not_elem_of_empty (C:=gset string) id). rewrite <- Hnone. apply elem_of_pending. eauto. }
  unfold ListTranscriptDescriptorsForRewrap. rewrite Hempty. simpl. rewrite take_nil. by eexists.
Qed.

(** One run: it installs as many pending rows as its limit allows. *)
Lemma rewrap_run limit w : 1 <= limit <= 1000 -> rewrappable active (mrows w) ->
  let n := Z.of_nat (size (pending active (mrows w))) in
  exists w', Rewrap active limit w =
      (Ok (mkRewrap (n `min` limit) (n `min` limit) 0 0 0 (if limit <? n then 1 else 0) active, None), w') /\
    rewrappable active (mrows w') /\
    Z.of_nat (size (pending active (mrows w'))) = n - n `min` limit.
Proof.
  intros Hlimit Hr n. unfold Rewrap. destruct (Z.ltb_spec limit 1); [lia|]. destruct (Z.ltb_spec 1000 limit); [lia|]. simpl.
  destruct (Z.to_nat limit) as [|fuel] eqn:Hfuel; [lia|]. cbn [rewrap_loop]. change (Scanned (rewrap_start active)) with 0.
  rewrite (proj2 (Z.ltb_lt 0 limit)) by lia. cbv iota beta delta [negb].
  rewrite M_bind_unfold. unfold select at 1. rewrite (quiet_listing Hquiet), (quiet_rows Hquiet).
  unfold ListTranscriptDescriptorsForRewrap. rewrite listed_pending by done. fold (worklist (mrows w)).
  assert (Hn : n = Z.of_nat (length (worklist (mrows w)))) by by unfold n; rewrite worklist_length.
  rewrite Z.sub_0_r. destruct (worked_on limit (worklist (mrows w))) as [Hover Hwork]; [lia|].
  set (listed := take (Z.to_nat (limit + 1)) (worklist (mrows w))) in *.
  destruct listed as [|r0 rest] eqn:Hlisted.
  { assert (worklist (mrows w) = []) as Hnil.
    { subst listed. destruct (worklist (mrows w)); [done|]. destruct (Z.to_nat (limit + 1)) eqn:?; [lia|done]. }
    rewrite Hnil in Hn. simpl in Hn. exists (mkMaint (mrows w) (mblob w) (mlog w ++ [MvList])). split; [|split; [done|]].
    - rewrite Hn, Z.min_l by lia. change (Z.of_nat 0) with 0. destruct (Z.ltb_spec limit 0); [lia|done].
    - simpl. fold n. lia. }
  rewrite <- Hlisted in *. rewrite Hwork, Hover. rewrite M_bind_unfold.
  set (res := if limit <? Z.of_nat (length (worklist (mrows w))) then _ else _).
  destruct (rewrap_rows_quiet (take (Z.to_nat limit) (worklist (mrows w))) res 0 None
    (mkMaint (mrows w) (mblob w) (mlog w ++ [MvList]))) as (v'&a'&w1&Hrun&Hr1&Hp1).
  { done. }
  { rewrite fmap_take. eapply sublist_NoDup; [apply worklist_nodup|apply sublist_take]. }
  { intros id row (i&Hi&_)%elem_of_take. apply elem_of_worklist. by eapply list_elem_of_lookup_2. }
  rewrite Hrun. apply (f_equal (Z.of_nat ∘ size)) in Hp1. simpl in Hp1. rewrite pending_take in Hp1. fold n in Hp1.
  rewrite length_take. subst res. rewrite <- Hn.
  assert (Hpos : 0 < n). { rewrite Hn. destruct (worklist (mrows w)); [by subst listed; rewrite take_nil in Hlisted|simpl; lia]. }
  assert (Hcount : Z.of_nat (Z.to_nat limit `min` length (worklist (mrows w))) = n `min` limit) by lia.
  rewrite Hcount in *. destruct (Z.ltb_spec limit n); simpl.
  - exists w1. split; [done|]. split; [done|lia].
  - destruct (loop_done fuel limit (installed_more (n `min` limit) (rewrap_start active)) v' a' w1) as (w2&Hdone&Hrows).
    { apply leibniz_equiv, size_empty_inv. lia. } { simpl. lia. }
    exists w2. rewrite Hrows. split; [exact Hdone|]. split; [done|lia].
Qed.

(** [k] runs one after the other. *)
Fixpoint rewrap_runs (k : nat) (limit : Z) (w : MaintWorld) : MaintWorld :=
  match k with O => w | S k => rewrap_runs k limit (Rewrap active limit w).2 end.

(** C32: repeating the job retires the old keys. When nobody else writes, the
    database answers, and every row that names a version below the active one has
    a descriptor whose data key the custodian brings to the active version
    ([rewrappable]), a run installs [limit] of those rows, or all of them, fails
    none, leaves exactly the others, and says whether there are any; so as many
    runs as it takes for their limits to add up to the rows that were pending end
    with none. *)
Theorem rotation_completes limit w :
  1 <= limit <= 1000 -> rewrappable active (mrows w) ->
  let n := Z.of_nat (size (pending active (mrows w))) in
  (exists w', Rewrap active limit w =
      (Ok (mkRewrap (n `min` limit) (n `min` limit) 0 0 0 (if limit <? n then 1 else 0) active, None), w') /\
    Z.of_nat (size (pending active (mrows w'))) = n - n `min` limit) /\
  (forall k, n <= Z.of_nat k * limit -> pending active (mrows (rewrap_runs k limit w)) = ∅).
Proof.
  intros Hlimit Hr n. split.
  { destruct (rewrap_run limit w Hlimit Hr) as (w'&Hrun&_&Hn'). eauto. }
  subst n. intros k. revert w Hr. induction k as [|k IH]; intros w Hr Hn; simpl.
  { apply leibniz_equiv, size_empty_inv. lia. }
  destruct (rewrap_run limit w Hlimit Hr) as (w'&Hrun&Hr'&Hn').
  apply IH; rewrite Hrun; simpl; [done|]. rewrite Hn'. lia.
Qed.
End quiet.

(** ** Content identities *)

(** The row got the identity of the body it holds. *)
Definition identified (id : string) (old new : BlobRow) : Prop :=
  rowHash old = None /\ row_descriptor new = row_descriptor old /\
  exists d p, row_descriptor old = Some d /\
    NewLoadedContentIdentity (rowHash new) (rowSize new) = Some (LoadedKnown (identity p)) /\
    (exists b b', Read id d (LoadedPending zeroIdentity) b = (Ok (p, identity p), b')) /\
    (forall b b', Read id d (LoadedPending zeroIdentity) b = (Ok (p, identity p), b') ->
      Read id d (LoadedKnown (identity p)) b = (Ok (p, identity p), b')).

Lemma read_pending_known id d p b b' : Read id d (LoadedPending zeroIdentity) b = (Ok (p, identity p), b') ->
  Read id d (LoadedKnown (identity p)) b = (Ok (p, identity p), b').
Proof.
  unfold Read. change (loadedValid (LoadedPending zeroIdentity)) with true.
  change (loadedValid (LoadedKnown (identity p))) with (validIdentity (identity p)).
  rewrite (proj2 (identity_valid p)). cbv iota beta delta [negb].
  intros (q&b1&Hopen&Hret)%bind_ok_inv. injection Hret as -> _ ->. rewrite M_bind_unfold, Hopen.
  by rewrite bool_decide_eq_true_2.
Qed.

Lemma read_known_identity p : NewLoadedContentIdentity (Some (hash (identity p))) (Some (plaintextSize (identity p))) =
  Some (LoadedKnown (identity p)).
Proof.
  unfold NewLoadedContentIdentity, NewContentIdentity. pose proof (proj2 (identity_valid p)) as Hv.
  destruct (identity p). simpl. by rewrite Hv.
Qed.

Lemma identity_row_keeps w0 res id row : keeps (installs identified w0) (identity_row res id row).
Proof.
  unfold identity_row. destruct res as [s i st f]. destruct (row_descriptor row) as [d|] eqn:Hrow; [|apply keeps_ret].
  simpl NewLoadedContentIdentity. cbv iota beta. intros w Hw. rewrite M_bind_unfold. unfold blob.
  destruct (Read id d (LoadedPending zeroIdentity) (mblob w)) as [[[p j]|e] b] eqn:Hread; [|by apply keeps_ret].
  pose proof Hread as (->&_)%read_authentic_run.
  apply keeps_bind; [|by intros [[[] []] []]; apply keeps_ret|done].
  apply installs_swap. intros rows old. unfold CompareAndSwapContentIdentity.
  destruct (rows !! id) as [r|]; simpl; [|done]. destruct (same_descriptor r row) eqn:Hs; simpl; [|done].
  destruct (bool_decide_reflect (rowHash r = None)) as [Hnone|]; simpl; [|done].
  destruct (bool_decide _); [|done]. intros [= ->]. apply same_descriptor_eq in Hs as (Hk&Hwr&Ha&Hv).
  assert (Hd : row_descriptor old = Some d) by by unfold row_descriptor in *; rewrite Hk, Hwr, Ha, Hv.
  split_and!; [done|done|]. exists d, p. split_and!; [done|apply read_known_identity|eauto|]. apply read_pending_known.
Qed.

(** Also: a backfilled identity is the body's own. Every row the job changes had no
    identity, keeps its descriptor, and gets the hash and size of the very body
    that its descriptor was read to, under its transcript, while the job ran; a
    read that returned that body while the identity was pending returns it, in
    the same way, now that it is known. *)
Theorem backfilled_identity_true w r w' id old new :
  BackfillContentIdentity w = (r, w') -> MvInstall id old new ∈ mlog w' ->
  MvInstall id old new ∈ mlog w \/ identified id old new.
Proof.
  intros Hrun. assert (Hk : keeps (installs identified w) BackfillContentIdentity).
  { unfold BackfillContentIdentity. apply keeps_bind; [apply installs_select|].
    intros [rows|]; [|apply keeps_ret]. apply keeps_bind; [|intros; apply keeps_ret].
    generalize (mkIdentityResult (Z.of_nat (length rows)) 0 0 0). induction rows as [|[id' row] rows IH]; intros res; simpl.
    { apply keeps_ret. }
    apply keeps_bind; [apply identity_row_keeps|]. apply IH. }
  assert (Hw' : installs identified w w').
  { eapply keeps_run; [exact Hk| |exact Hrun]. intros ???. by left. }
  apply Hw'.
Qed.
End laws.
End KeyRotationLaws.
