(* ===== verification/BlobWitness.v ===== *)
(** * The encrypted store on concrete inputs

    A symbolic instance of the cryptographic interface, a key ring of two
    versions, a bucket nobody else writes to, and the theorems of [BlobLaws] and
    [KeyRotationLaws] at concrete writes and rotations. *)
From S2P Require Import Prelude GoText BlobStore BlobLaws KeyRotation KeyRotationLaws.

Open Scope string_scope.
Open Scope list_scope.
Open Scope Z_scope.

Module BlobWitness.
Import BlobStore BlobLaws KeyRotation KeyRotationLaws.

(** ** Symbolic sealing: the parts one after the other, each self-delimiting *)
Fixpoint enc (s : string) : string :=
  match s with "" => "0" | String c r => String "1" (String c (enc r)) end.
Fixpoint dec (s : string) : option (string * string) :=
  match s with
  | String "0" r => Some ("", r)
  | String "1" (String c r) => match dec r with Some (x, r') => Some (String c x, r') | None => None end
  | _ => None
  end.

Lemma dec_enc s r : dec (enc s +:+ r) = Some (s, r).
Proof. induction s as [|c s IH]; [done|]. change (dec (enc (String c s) +:+ r)) with (match dec (enc s +:+ r) with Some (x, r') => Some (String c x, r') | None => None end). by rewrite IH. Qed.

Lemma enc_dec_n n : forall s x r, (String.length s <= n)%nat -> dec s = Some (x, r) -> s = enc x +:+ r.
Proof.
  induction n as [|n IH]; intros [|a s] x r Hl Hd; simpl in *; try done; [lia|].
  destruct (decide (a = "0"%char)) as [->|]; [by injection Hd as <- <-|].
  destruct (decide (a = "1"%char)) as [->|]; [|by destruct a as [[] [] [] [] [] [] [] []]].
  destruct s as [|c s]; [done|]. destruct (dec s) as [[y r']|] eqn:Hs; [|done]. injection Hd as <- <-.
  assert (Heq : s = enc y +:+ r') by (simpl in Hl; apply IH; [lia|done]). rewrite Heq at 1. done.
Qed.

Lemma enc_dec s x r : dec s = Some (x, r) -> s = enc x +:+ r.
Proof. by apply (enc_dec_n (String.length s)). Qed.

#[export] Instance symbolic : Crypto := {|
  gcm_seal := fun k n p a => enc k +:+ enc n +:+ enc a +:+ p;
  gcm_open := fun k c a =>
    '(k', c) ← dec c; '(n, c) ← dec c; '(a', p) ← dec c;
    if String.eqb k' k && String.eqb a' a then Some p else None;
  sha3_256 := fun p => repeat_string (match p with String c _ => String c "" | "" => " " end) 32
|}.

#[export] Instance symbolic_laws : CryptoLaws.
Proof.
  constructor; simpl.
  - intros k n p a. rewrite dec_enc. simpl. rewrite dec_enc. simpl. rewrite dec_enc. simpl. by rewrite !String.eqb_refl.
  - intros k c a p. destruct (dec c) as [[k' c1]|] eqn:H1; simpl; [|done].
    destruct (dec c1) as [[n c2]|] eqn:H2; simpl; [|done]. destruct (dec c2) as [[a' p']|] eqn:H3; simpl; [|done].
    destruct (String.eqb_spec k' k) as [->|]; simpl; [|done]. destruct (String.eqb_spec a' a) as [->|]; simpl; [|done].
    intros [= ->]. exists n. apply enc_dec in H1, H2, H3. by rewrite H1, H2, H3.
  - intros k n p a. rewrite !blen_app.
    assert (Hpos : forall s, 0 < blen (enc s)) by (intros []; unfold blen; simpl; lia).
    pose proof (Hpos k). pose proof (Hpos n). pose proof (Hpos a). lia.
  - intros p. by destruct p.
Qed.

#[export] Instance symbolic_binds : CryptoBinds.
Proof.
  constructor; simpl. intros k n p a n' p' a' Heq. apply (f_equal dec) in Heq. rewrite !dec_enc in Heq. injection Heq as Heq.
  apply (f_equal dec) in Heq. rewrite !dec_enc in Heq. injection Heq as _ Heq. apply (f_equal dec) in Heq.
  rewrite !dec_enc in Heq. by injection Heq.
Qed.

(** ** A key ring, a bucket and a process *)
Definition ring1 : TranscriptKeyring := mkKeyring 1 {[ 1 := repeat_string "a" 32 ]}.
Definition ring2 : TranscriptKeyring := mkKeyring 2 {[ 1 := repeat_string "a" 32; 2 := repeat_string "b" 32 ]}.

Lemma ring1_ok : ring_ok ring1.
Proof.
  constructor; [by eexists| |]; intros v k Hk; unfold ring1 in Hk; simpl in Hk;
    apply lookup_singleton_Some in Hk as [<- <-]; [lia|done].
Qed.
Lemma ring2_ok : ring_ok ring2.
Proof.
  constructor; [by eexists| |]; intros v k; unfold ring2; simpl;
    (destruct (decide (v = 1)) as [->|]; [rewrite lookup_insert_eq; intros [= <-]; first [lia|done]|]);
    rewrite lookup_insert_ne by done; intros [<- <-]%lookup_singleton_Some; first [lia|done].
Qed.

(** Alone with the bucket; UUIDs differ in their last digit. *)
#[export] Instance quiet_bucket : BlobEnv := {|
  elsewhere := fun _ o => o;
  served := fun _ => Served_ok;
  random_key := fun _ => Some (repeat_string "k" 32);
  random_nonce := fun _ => "nonce";
  random_uuid := fun l => "01234567-89ab-4def-8123-45678901234" +:+ itoa (Z.of_nat (length l) mod 10)
|}.

(** The same bucket when the second upload and the removal both fail. *)
Definition failing_bucket : BlobEnv := {|
  elsewhere := fun _ o => o;
  served := fun l => if existsb (fun e => match e with BvPut _ => true | _ => false end) l then Served_lost false else Served_ok;
  random_key := fun _ => Some (repeat_string "k" 32);
  random_nonce := fun _ => "nonce";
  random_uuid := fun l => "01234567-89ab-4def-8123-45678901234" +:+ itoa (Z.of_nat (length l) mod 10)
|}.

#[export] Instance custodian1 : KeyCustodian := keyring_custodian ring1.
#[export] Instance custodian1_laws : CustodianLaws := keyring_laws ring1 ring1_ok.
#[export] Instance custodian1_binds : CustodianBinds := keyring_binds ring1 ring1_ok.
#[export] Instance quiet_db : MaintEnv := {| rows_elsewhere := fun _ r => r; listing := fun _ => true; fate := fun _ => FateDone |}.

Definition empty_bucket : BlobWorld := mkBlobWorld ∅ [].
Definition id1 : string := "11111111-1111-4111-8111-111111111111".
Definition id2 : string := "22222222-2222-4222-8222-222222222222".

(** What a run returns, and the world it leaves. *)
Definition value {W E A} (default : A) (r : result E A * W) : A := match r.1 with Ok a => a | Err _ => default end.
Definition write1 := WriteGeneration id1 "body" (Some "meta") empty_bucket.
Definition none : BlobDescriptor * ContentIdentity * option MetadataObject :=
  (mkDescriptor "" "" "" 0, zeroIdentity, None).
Definition desc1 : BlobDescriptor := Eval vm_compute in (value none write1).1.1.
Definition ident1 : ContentIdentity := Eval vm_compute in (value none write1).1.2.
Definition meta1 : MetadataObject := Eval vm_compute in default (mkMetadata "" zeroIdentity) (value none write1).2.
Definition bucket1 : BlobWorld := write1.2.

Lemma write1_ok : WriteGeneration id1 "body" (Some "meta") empty_bucket = (Ok (desc1, ident1, Some meta1), bucket1).
Proof. by vm_compute. Qed.

Lemma keys_32 : forall l k, random_key (BlobEnv := quiet_bucket) l = Some k -> blen k = 32.
Proof. by intros l k [= <-]. Qed.
Lemma kept : others_keep.
Proof. by intros l o k v. Qed.

Example generation_reads_back_witness :
  (Read id1 desc1 (LoadedKnown ident1) bucket1).1 = Ok ("body", ident1) /\
  (Read id1 desc1 (LoadedPending zeroIdentity) bucket1).1 = Ok ("body", ident1) /\
  (ReadMetadata id1 desc1 meta1 bucket1).1 = Ok "meta".
Proof.
  apply (generation_reads_back keys_32 id1 "body" (Some "meta") empty_bucket desc1 ident1 (Some meta1) bucket1 bucket1);
    [exact kept|exact write1_ok|done|done].
Defined.

Example read_authentic_witness :
  ident1 = identity "body" /\
  exists dek n, Unwrap (wrappedDEK desc1) (keyVersion desc1) (dekAAD id1) = Ok dek /\
    (objects bucket1 : gmap string _) !! objectKey desc1 = Some (gcm_seal dek n "body" (bodyAAD id1), ciphertextContentType).
Proof.
  destruct (read_authentic id1 desc1 (LoadedKnown ident1) "body" ident1 bucket1
    (Read id1 desc1 (LoadedKnown ident1) bucket1).2) as (Hi&_&_&_&dek&n&Hu&_&Ho); [by vm_compute|].
  split; [exact Hi|]. exists dek, n. split; [exact Hu|exact Ho].
Defined.

(** The metadata object is not a body, though the same key opens it. *)
Example object_has_one_role_witness :
  let swapped := mkDescriptor (metadataKey meta1) (wrappedDEK desc1) (algorithm desc1) (keyVersion desc1) in
  Unwrap (wrappedDEK swapped) (keyVersion swapped) (dekAAD id1) = Ok (repeat_string "k" 32) /\
  (forall loaded p i, (Read id1 swapped loaded bucket1).1 <> Ok (p, i)).
Proof.
  cbv zeta. split; [by vm_compute|]. intros loaded p i.
  apply (object_has_one_role id1 id1 (mkDescriptor (metadataKey meta1) (wrappedDEK desc1) (algorithm desc1) (keyVersion desc1))
    (repeat_string "k" 32) "nonce" "meta" bucket1 ltac:(by vm_compute)). by vm_compute.
Defined.

Example generation_bound_witness :
  id2 <> id1 /\ (forall loaded r, (Read id2 desc1 loaded bucket1).1 <> Ok r).
Proof.
  split; [done|].
  apply (generation_bound_to_transcript id1 id2 "body" (Some "meta") empty_bucket desc1 ident1 (Some meta1) bucket1 bucket1);
    [exact write1_ok|done].
Defined.

(** The second upload fails, and so does the removal: one object stays, under
    the key the error names. *)
Example write_residue_witness :
  exists key w', WriteGeneration (H0 := failing_bucket) id1 "body" (Some "meta") empty_bucket = (Err (ECleanup key), w') /\
    residue (objects empty_bucket) (Err (ECleanup key)) (objects w').
Proof.
  pose proof (write_residue (H1 := failing_bucket) id1 "body" (Some "meta") empty_bucket) as Hres.
  destruct (WriteGeneration (H0 := failing_bucket) id1 "body" (Some "meta") empty_bucket) as [r w'] eqn:Hrun.
  assert (Hr : exists key, r = Err (ECleanup key)).
  { eexists. vm_compute in Hrun. injection Hrun as <- _. reflexivity. }
  destruct Hr as [key ->]. exists key, w'. split; [reflexivity|]. apply Hres.
  - constructor; [reflexivity|]. intros l. simpl. destruct (existsb _ l); discriminate.
  - intros l. apply lookup_empty.
Defined.

Example rotation_moves_keys_witness :
  exists w, keyring_wrap ring1 "n" "key" (dekAAD id1) = Ok (w, 1) /\
    keyring_unwrap ring2 w 1 (dekAAD id1) = Ok "key" /\
    exists w', keyring_rewrap ring2 "m" w 1 (dekAAD id1) = Ok (w', 2) /\ keyring_unwrap ring2 w' 2 (dekAAD id1) = Ok "key".
Proof.
  eexists. split; [reflexivity|].
  apply (rotation_moves_keys ring1 ring2 "n" "m" "key" (dekAAD id1)); [exact ring1_ok|exact ring2_ok| |reflexivity].
  apply map_singleton_subseteq_l. reflexivity.
Defined.

(** ** Maintenance *)
Definition row1 (v : Z) (wrapped : string) (h : option string) : BlobRow :=
  mkRow (objectKey desc1) wrapped EncryptionAES256GCMRandomNonceV1 v h None 0.
Definition maint1 : MaintWorld :=
  mkMaint {[ id1 := row1 (keyVersion desc1) (wrappedDEK desc1) None ]} bucket1 [].

Section under_ring2.
#[local] Instance custodian2 : KeyCustodian := keyring_custodian ring2.
#[local] Instance custodian2_laws : CustodianLaws := keyring_laws ring2 ring2_ok.

Lemma maint1_rewrappable : rewrappable 2 (mrows maint1).
Proof.
  intros id row Hrow _. simpl in Hrow. apply lookup_singleton_Some in Hrow as [<- <-].
  eexists. split; [by vm_compute|]. intros entropy. eexists. by vm_compute.
Qed.

Lemma quiet_undisturbed : undisturbed.
Proof. by constructor. Qed.

Example rotation_completes_witness :
  size (pending 2 (mrows maint1)) = 1%nat /\ pending 2 (mrows (rewrap_runs 2 1 5 maint1)) = ∅.
Proof.
  split; [by vm_compute|].
  apply (rotation_completes quiet_undisturbed 2 5 maint1); [lia|exact maint1_rewrappable|].
  replace (size (pending 2 (mrows maint1))) with 1%nat by (by vm_compute). lia.
Defined.

Example rewrap_preserves_rows_witness :
  exists old new, MvInstall id1 old new ∈ mlog (KeyRotation.Rewrap 2 5 maint1).2 /\ reads_as_before id1 old new.
Proof.
  destruct (KeyRotation.Rewrap 2 5 maint1) as [r w'] eqn:Hrun.
  assert (Hlog : exists old new, MvInstall id1 old new ∈ mlog w').
  { vm_compute in Hrun. injection Hrun as _ <-. do 2 eexists. simpl. do 2 right. left. }
  destruct Hlog as (old&new&Hin). exists old, new. split; [exact Hin|].
  destruct (rewrap_preserves_rows 2 5 maint1 r w' id1 old new Hrun Hin) as [Hold|Hreads]; [|exact Hreads].
  exfalso. by apply elem_of_nil in Hold.
Defined.
End under_ring2.

Example backfilled_identity_true_witness :
  exists old new, MvInstall id1 old new ∈ mlog (BackfillContentIdentity maint1).2 /\ identified id1 old new.
Proof.
  destruct (BackfillContentIdentity maint1) as [r w'] eqn:Hrun.
  assert (Hlog : exists old new, MvInstall id1 old new ∈ mlog w').
  { vm_compute in Hrun. injection Hrun as _ <-. do 2 eexists. simpl. do 2 right. left. }
  destruct Hlog as (old&new&Hin). exists old, new. split; [exact Hin|].
  destruct (backfilled_identity_true maint1 r w' id1 old new Hrun Hin) as [Hold|Hid]; [|exact Hid].
  exfalso. by apply elem_of_nil in Hold.
Defined.

Example rewrap_ends_witness :
  exists res e w', KeyRotation.Rewrap 2 5 maint1 = (Ok (res, e), w') /\ accounted res /\ Scanned res <= 5.
Proof. apply (proj1 (rewrap_ends_and_accounts 2 5 maint1)). lia. Defined.
End BlobWitness.
