(* ===== verification/Governance.v ===== *)
(** * The governed columns of a transcript ([handler/metadata_patch.go])

    Title, description, visibility and license change through one writer, which
    resolves what a patch omits against the row as it is under its lock. A
    republish takes the audience away before it replaces the content, and puts it
    back. The statements are the interface [GovernanceRows], so the writer serves
    every store that has the row. *)
From S2P Require Import Prelude.

Open Scope string_scope.
Open Scope list_scope.

Module Governance.

(** [GetTranscriptGovernanceForUpdate], [UpdateTranscriptMetadata] and the
    columns of the row they answer. *)
Class GovernanceRows (W E T : Type) : Type := {
  lock_row : string -> M W E T;
  update_row : string -> option string -> option string -> string -> option string -> M W E T;
  row_title : T -> option string;
  row_description : T -> option string;
  row_visibility : T -> string;
  row_license : T -> option string
}.

Inductive PatchError (E : Type) : Type := PQuery (e : E) | PSharedVisibilityRequiresNarrowing | PUnlicenseBlocked.
Arguments PQuery {E} e.
Arguments PSharedVisibilityRequiresNarrowing {E}.
Arguments PUnlicenseBlocked {E}.

Definition toPgText (s : string) : option string := if String.eqb s "" then None else Some s.

(** [pLicense] is [None] when no license is provided. *)
Record metadataPatch : Type := mkPatch {
  pTitle : option string;
  pDescription : option string;
  pVisibility : option string;
  pLicense : option (option string)
}.
Definition visibilityPatch (v : string) : metadataPatch := mkPatch None None (Some v) None.

Definition republishRestoreTarget (locked narrowedFrom : string) : string :=
  if negb (String.eqb narrowedFrom "") && String.eqb locked "private" then narrowedFrom else locked.

Section patch.
Context {W E T : Type} `{GovernanceRows W E T}.

Definition patched {A} (m : M W E A) : M W (PatchError E) A :=
  r ← attempt m; match r with Ok a => mret a | Err e => throw (PQuery e) end.

Definition applyMetadataPatch (t : string) (p : metadataPatch) : M W (PatchError E) T :=
  pre ← patched (lock_row t);
  if String.eqb (row_visibility pre) "shared" && negb (is_some_b (pVisibility p))
  then throw PSharedVisibilityRequiresNarrowing
  else
    let title := match pTitle p with Some s => toPgText s | None => row_title pre end in
    let description := match pDescription p with Some s => toPgText s | None => row_description pre end in
    let visibility := default (row_visibility pre) (pVisibility p) in
    match pLicense p with
    | Some None =>
      if is_some_b (row_license pre) then throw PUnlicenseBlocked
      else patched (update_row t title description visibility None)
    | Some (Some l) => patched (update_row t title description visibility (Some l))
    | None => patched (update_row t title description visibility (row_license pre))
    end.

(** The visibility a republish narrowed away; empty when it narrowed nothing. *)
Definition narrowForRepublish (t : string) : M W (PatchError E) string :=
  pre ← patched (lock_row t);
  if String.eqb (row_visibility pre) "private" then mret ""
  else _ ← applyMetadataPatch t (visibilityPatch "private"); mret (row_visibility pre).

Definition restoreNarrowedVisibility (t narrowedFrom : string) : M W (PatchError E) unit :=
  pre ← patched (lock_row t);
  let target := republishRestoreTarget (row_visibility pre) narrowedFrom in
  if String.eqb target (row_visibility pre) then mret tt
  else _ ← applyMetadataPatch t (visibilityPatch target); mret tt.
End patch.
End Governance.
