(* ===== verification/CollectiveStore.v ===== *)
(** * The store behind collectives and sharing

    The tables of collectives, their members and invitations, and the ledger of
    share attempts with the current-state table a trigger derives from it
    ([migrations/036_transcript_share_attempts.up.sql],
    [047_collective_invitations.up.sql]), and every SQL statement the handlers of
    [Collectives] run over them. A statement is atomic; the trigger that derives
    the current state and its constraints are part of it. The trigger
    [guard_share_attempt_immutable] refuses an update of a decided event; it is
    left out, so that what keeps decided events as they are
    ([ledger_never_drifts] of [CollectiveLaws]) is the statements alone: none of
    them gives the trigger anything to refuse. *)
From S2P Require Import Prelude GoText.

Open Scope string_scope.
Open Scope list_scope.
Open Scope Z_scope.

Module CollectiveStore.

(** ** Tables *)

(** [CHECK (status IN ('pending', 'approved', 'rejected', 'retracted', 'revoked'))] *)
Inductive ShareState : Type := Pending | Approved | Rejected | Retracted | Revoked.
#[export] Instance share_state_dec : EqDecision ShareState.
Proof. solve_decision. Defined.

Record Attempt : Type := mkAttempt {
  Status : ShareState;
  RecordedAt : Z;
  DecidedAt : option Z;
  DecidedBy : option Z
}.

(** The events of one transcript in one collective, by [event_num]: the key of
    the map is the constraint UNIQUE (transcript_id, group_id, event_num). *)
Notation History := (gmap Z Attempt).

Record Transcript : Type := mkTranscript {
  OwnerID : Z;
  LocalID : string;
  ProjectHash : string;
  PublishedAt : Z;
  Title : option string;
  Description : option string;
  Visibility : string;
  LicenseID : option string
}.

Record Group : Type := mkGroup {
  Name : string;
  GDescription : option string;
  CreatedBy : Z;
  AcceptanceMode : string;
  DataAccess : string;
  LinkedGithubOrg : option string;
  DisplayMembers : bool;
  TranscriptDeletionPolicy : string;
  PostPromptsCheck : bool;
  PromptsCheckMode : string
}.

Record Member : Type := mkMember { Role : string; Origin : string }.

Record Invitation : Type := mkInvitation {
  InvGroup : Z;
  InviteeID : option Z;
  InvitedUsername : string;
  InvitedBy : option Z;
  InvStatus : string;
  CreatedAt : Z;
  ExpiresAt : Z
}.

Record Account : Type := mkAccount { GithubUsername : string; OrgLogins : list string }.

Record Db : Type := mkDb {
  accounts : gmap Z Account;
  groups : gmap Z Group;
  members : gmap (Z * Z) Member;            (** collective, person *)
  invitations : gmap Z Invitation;
  quotas : gmap (Z * string * Z) Z;         (** person, limit, UTC day *)
  transcripts : gmap string Transcript;
  ledger : gmap (string * Z) History;       (** transcript, collective *)
  shares : gmap (string * Z) (ShareState * Z);
  now : Z;
  next_id : Z
}.

Definition set_groups x (d : Db) : Db := mkDb (accounts d) x (members d) (invitations d) (quotas d)
  (transcripts d) (ledger d) (shares d) (now d) (next_id d).
Definition set_members x (d : Db) : Db := mkDb (accounts d) (groups d) x (invitations d) (quotas d)
  (transcripts d) (ledger d) (shares d) (now d) (next_id d).
Definition set_invitations x (d : Db) : Db := mkDb (accounts d) (groups d) (members d) x (quotas d)
  (transcripts d) (ledger d) (shares d) (now d) (next_id d).
Definition set_quotas x (d : Db) : Db := mkDb (accounts d) (groups d) (members d) (invitations d) x
  (transcripts d) (ledger d) (shares d) (now d) (next_id d).
Definition set_transcripts x (d : Db) : Db := mkDb (accounts d) (groups d) (members d) (invitations d) (quotas d)
  x (ledger d) (shares d) (now d) (next_id d).
Definition set_ledger x y (d : Db) : Db := mkDb (accounts d) (groups d) (members d) (invitations d) (quotas d)
  (transcripts d) x y (now d) (next_id d).
Definition fresh (d : Db) : Db := mkDb (accounts d) (groups d) (members d) (invitations d) (quotas d)
  (transcripts d) (ledger d) (shares d) (now d) (next_id d + 1).

(** ** Errors and statements *)

(** A unique violation carries the constraint's name. *)
Inductive Constraint : Type := OpenAttempt | EventNum | OtherConstraint.
Inductive DbError : Type := NoRows | Unique (c : Constraint) | Broken.

(** How the connection serves the next statement. A COMMIT that fails may have
    been carried out, and so may a statement that is its own transaction. *)
Inductive Served : Type := Fine | Lost | LostButDone.
Class Env : Type := served : list string -> Served.

Record World : Type := mkWorld { db : Db; statements : list string }.

Section statements.
Context `{Env}.

Definition stmt {A} (name : string) (f : Db -> result DbError (A * Db)) : M World DbError A := fun w =>
  let s := statements w ++ [name] in
  match served (statements w) with
  | Fine => match f (db w) with
    | Ok (a, d) => (Ok a, mkWorld d s)
    | Err e => (Err e, mkWorld (db w) s)
    end
  | _ => (Err Broken, mkWorld (db w) s)
  end.
Definition query {A} (name : string) (f : Db -> result DbError A) : M World DbError A :=
  stmt name (fun d => match f d with Ok a => Ok (a, d) | Err e => Err e end).
(** A statement outside a transaction is one of its own, whose commit may have
    been carried out when its answer is lost. *)
Definition autocommitted {A} (name : string) (f : Db -> result DbError (A * Db)) : M World DbError A := fun w =>
  match served (statements w), f (db w) with
  | LostButDone, Ok (_, d) => (Err Broken, mkWorld d (statements w ++ [name]))
  | _, _ => stmt name f w
  end.
Definition one {A} (o : option A) : result DbError A := match o with Some a => Ok a | None => Err NoRows end.

(** ** The ledger ([shares.sql]) *)
Definition history (d : Db) (t : string) (g : Z) : History := default ∅ (ledger d !! (t, g)).

(** [ORDER BY event_num DESC LIMIT 1], among the events [f] admits. *)
Definition latest_step (f : Attempt -> bool) (n : Z) (a : Attempt) (best : option (Z * Attempt)) : option (Z * Attempt) :=
  if f a then
    match best with Some (m, _) => if m <? n then Some (n, a) else best | None => Some (n, a) end
  else best.
Definition latest_where (f : Attempt -> bool) (h : History) : option (Z * Attempt) := map_fold (latest_step f) None h.
Definition latest (h : History) : option (Z * Attempt) := latest_where (fun _ => true) h.

Definition is_live (s : ShareState) : bool := match s with Pending | Approved => true | _ => false end.
Definition is_pending (s : ShareState) : bool := bool_decide (s = Pending).

(** The trigger [trg_derive_transcript_share]: the current-state row of the pair
    from its latest event. *)
Definition project (h : History) : option (ShareState * Z) :=
  match latest h with
  | Some (_, a) => match Status a with
    | Pending | Approved | Rejected => Some (Status a, RecordedAt a)
    | _ => None
    end
  | None => None
  end.
Definition set_history (t : string) (g : Z) (h : History) (d : Db) : Db :=
  set_ledger (<[(t, g) := h]> (ledger d)) (partial_alter (fun _ => project h) (t, g) (shares d)) d.

(** One new event. The unique index on the ordinal is checked before the partial
    one on open attempts. *)
Definition insert_attempt (t : string) (g n : Z) (a : Attempt) (d : Db) : result DbError Db :=
  let h := history d t g in
  if negb (is_some_b (transcripts d !! t)) || negb (is_some_b (groups d !! g)) || (n <? 1) then Err Broken
  else if is_some_b (h !! n) then Err (Unique EventNum)
  else if is_pending (Status a) && is_some_b (latest_where (fun a => is_pending (Status a)) h)
       then Err (Unique OpenAttempt)
  else Ok (set_history t g (<[n := a]> h) d).

Definition decide_attempt (s : ShareState) (at_ : Z) (by_ : option Z) (a : Attempt) : Attempt :=
  mkAttempt s (RecordedAt a) (Some at_) (match by_ with Some b => Some b | None => DecidedBy a end).

Definition share_with_status (t : string) (g : Z) (s : ShareState) (d : Db) : result DbError Db :=
  let next := match latest (history d t g) with Some (n, _) => n | None => 0 end + 1 in
  insert_attempt t g next (mkAttempt s (now d) None None) d.

(** Withdrawal and removal: an open submission is closed in place, an accepted
    one gets a further event. Both start from the latest LIVE event. *)
Definition close_live (s : ShareState) (t : string) (g : Z) (d : Db) : result DbError Db :=
  let h := history d t g in
  match latest_where (fun a => is_live (Status a)) h with
  | None => Ok d
  | Some (n, a) =>
    if is_pending (Status a) then Ok (set_history t g (<[n := decide_attempt s (now d) None a]> h) d)
    else insert_attempt t g (n + 1) (mkAttempt s (now d) (Some (now d)) None) d
  end.

Fixpoint close_all (s : ShareState) (g : Z) (ts : list string) (d : Db) : result DbError Db :=
  match ts with
  | [] => Ok d
  | t :: ts => d ← close_live s t g d; close_all s g ts d
  end.
Definition owned_by (owner : Z) (d : Db) : list string :=
  fst <$> List.filter (fun p => OwnerID p.2 =? owner) (map_to_list (transcripts d)).

(** [WHERE status = 'pending']: the open attempt of a pair is decided. *)
Definition decide_open (s : ShareState) (by_ : Z) (t : string) (g : Z) (d : Db) : Db :=
  let h := history d t g in
  if is_some_b (latest_where (fun a => is_pending (Status a)) h) then
    set_history t g ((fun a => if is_pending (Status a) then decide_attempt s (now d) (Some by_) a else a) <$> h) d
  else d.

Definition unit_of (r : result DbError Db) : result DbError (unit * Db) := d ← r; Ok (tt, d).

Definition GetLatestShareAttempt (t : string) (g : Z) : M World DbError (Z * Attempt) :=
  query "GetLatestShareAttempt" (fun d => one (latest (history d t g))).
Definition ShareTranscriptWithStatus (t : string) (g : Z) (s : ShareState) : M World DbError unit :=
  stmt "ShareTranscriptWithStatus" (fun d => unit_of (share_with_status t g s d)).
Definition UnshareTranscript (t : string) (g : Z) : M World DbError unit :=
  stmt "UnshareTranscript" (fun d => unit_of (close_live Retracted t g d)).
Definition sql_RemoveGroupTranscript (g : Z) (t : string) : M World DbError unit :=
  stmt "RemoveGroupTranscript" (fun d => unit_of (close_live Revoked t g d)).
Definition RetractUserSharesInGroup (g owner : Z) : M World DbError unit :=
  stmt "RetractUserSharesInGroup" (fun d => unit_of (close_all Retracted g (owned_by owner d) d)).
Definition UpdateShareStatus (t : string) (g : Z) (s : ShareState) (by_ : Z) : M World DbError unit :=
  stmt "UpdateShareStatus" (fun d => Ok (tt, decide_open s by_ t g d)).
(** [transcript_id = ANY(ids)]: a repeated identifier names one row. *)
Definition BatchUpdateShareStatus (s : ShareState) (by_ : Z) (ts : list string) (g : Z) : M World DbError (list string) :=
  stmt "BatchUpdateShareStatus" (fun d =>
    let open t := is_some_b (latest_where (fun a => is_pending (Status a)) (history d t g)) in
    let ts := remove_dups ts in
    Ok (List.filter open ts, foldr (fun t d => decide_open s by_ t g d) d ts)).

Definition live_now (h : History) : bool :=
  match latest h with Some (_, a) => is_live (Status a) | None => false end.
Definition ListLiveShareAttemptsForGroup (g : Z) (ts : list string) : M World DbError (list string) :=
  query "ListLiveShareAttemptsForGroup" (fun d => Ok (List.filter (fun t => live_now (history d t g)) (remove_dups ts))).
Definition has_live (d : Db) (t : string) : bool :=
  existsb (fun p => bool_decide (p.1.1 = t) && live_now p.2) (map_to_list (ledger d)).
Definition TranscriptHasLiveShareAttempt (t : string) : M World DbError bool :=
  query "TranscriptHasLiveShareAttempt" (fun d => Ok (has_live d t)).
Definition ListTranscriptShares (t : string) : M World DbError (list (Z * Z)) :=
  query "ListTranscriptShares" (fun d =>
    Ok ((fun p => (p.1.2, p.2.2)) <$> List.filter (fun p => bool_decide (p.1.1 = t)) (map_to_list (shares d)))).

(** ** Transcripts ([transcripts.sql]) *)
Definition with_metadata (title description : option string) (visibility : string) (license : option string)
    (t : Transcript) : Transcript :=
  mkTranscript (OwnerID t) (LocalID t) (ProjectHash t) (PublishedAt t) title description visibility license.
Definition GetTranscriptByID (t : string) : M World DbError Transcript :=
  query "GetTranscriptByID" (fun d => one (transcripts d !! t)).
Definition GetTranscriptGovernanceForUpdate (t : string) : M World DbError Transcript :=
  query "GetTranscriptGovernanceForUpdate" (fun d => one (transcripts d !! t)).
Definition UpdateTranscriptMetadata (t : string) (title description : option string) (visibility : string)
    (license : option string) : M World DbError Transcript :=
  stmt "UpdateTranscriptMetadata" (fun d =>
    match transcripts d !! t with
    | Some row =>
      let row' := with_metadata title description visibility license row in
      Ok (row', set_transcripts (<[t := row']> (transcripts d)) d)
    | None => Err NoRows
    end).
(** [ORDER BY t.published_at DESC, t.id ASC] *)
Definition published_before (a b : string * Transcript) : bool :=
  (PublishedAt b.2 <? PublishedAt a.2) || ((PublishedAt a.2 =? PublishedAt b.2) && String.ltb a.1 b.1).
Definition ListOwnerProjectShareCandidates (owner : Z) (project : string) : M World DbError (list (string * Transcript)) :=
  query "ListOwnerProjectShareCandidates" (fun d => Ok (sort_stable published_before
    (List.filter (fun p => (OwnerID p.2 =? owner) && String.eqb (ProjectHash p.2) project) (map_to_list (transcripts d))))).

(** ** Collectives and members ([groups.sql], [user_orgs.sql]) *)
Definition sql_CreateGroup (g : Group) : M World DbError Z :=
  autocommitted "CreateGroup" (fun d =>
    if negb (is_some_b (accounts d !! CreatedBy g)) then Err Broken
    else if is_some_b (groups d !! next_id d) then Err (Unique OtherConstraint)
    else Ok (next_id d, fresh (set_groups (<[next_id d := g]> (groups d)) d))).
Definition GetGroupByID (g : Z) : M World DbError Group := query "GetGroupByID" (fun d => one (groups d !! g)).
Definition sql_UpdateGroup (g : Z) (row : Group) : M World DbError unit :=
  stmt "UpdateGroup" (fun d =>
    if is_some_b (groups d !! g) then Ok (tt, set_groups (<[g := row]> (groups d)) d) else Err NoRows).
(** The foreign keys cascade. *)
Definition drop_group (g : Z) (d : Db) : Db :=
  mkDb (accounts d) (delete g (groups d))
    (filter (fun p => negb (p.1.1 =? g) = true) (members d))
    (filter (fun p => negb (InvGroup p.2 =? g) = true) (invitations d))
    (quotas d) (transcripts d)
    (filter (fun p => negb (p.1.2 =? g) = true) (ledger d))
    (filter (fun p => negb (p.1.2 =? g) = true) (shares d)) (now d) (next_id d).
Definition sql_DeleteGroup (g : Z) : M World DbError unit := stmt "DeleteGroup" (fun d => Ok (tt, drop_group g d)).

Definition insert_member (g u : Z) (m : Member) (d : Db) : result DbError Db :=
  if negb (is_some_b (groups d !! g)) || negb (is_some_b (accounts d !! u)) then Err Broken
  else if is_some_b (members d !! (g, u)) then Err (Unique OtherConstraint)
  else Ok (set_members (<[(g, u) := m]> (members d)) d).
Definition AddGroupCreator (g u : Z) : M World DbError unit :=
  autocommitted "AddGroupCreator" (fun d => unit_of (insert_member g u (mkMember "owner" "creator") d)).
Definition JoinGroupSelf (g u : Z) : M World DbError unit :=
  stmt "JoinGroupSelf" (fun d => unit_of (insert_member g u (mkMember "contributor" "self_join") d)).
Definition sql_RemoveGroupMember (g u : Z) : M World DbError unit :=
  stmt "RemoveGroupMember" (fun d => Ok (tt, set_members (delete (g, u) (members d)) d)).
Definition GetGroupMember (g u : Z) : M World DbError Member :=
  query "GetGroupMember" (fun d => one (members d !! (g, u))).
(** [CHECK (origin <> 'creator' OR role = 'owner')] *)
Definition UpdateMemberRole (g u : Z) (role : string) : M World DbError unit :=
  stmt "UpdateMemberRole" (fun d =>
    match members d !! (g, u) with
    | Some m =>
      if String.eqb (Origin m) "creator" && negb (String.eqb role "owner") then Err Broken
      else Ok (tt, set_members (<[(g, u) := mkMember role (Origin m)]> (members d)) d)
    | None => Ok (tt, d)
    end).
(** The trigger [guard_group_member_origin] lets only a legacy origin become an
    invitation one. *)
Definition AcceptInvitationMembership (g u : Z) : M World DbError string :=
  stmt "AcceptInvitationMembership" (fun d =>
    match members d !! (g, u) with
    | None => d ← insert_member g u (mkMember "member" "invitation") d; Ok ("member", d)
    | Some m =>
      if String.eqb (Origin m) "legacy" || String.eqb (Origin m) "invitation" then
        let role := if String.eqb (Role m) "pending" then "member" else Role m in
        Ok (role, set_members (<[(g, u) := mkMember role "invitation"]> (members d)) d)
      else Err Broken
    end).
Definition ListUserAllOrgs (u : Z) : M World DbError (list string) :=
  query "ListUserAllOrgs" (fun d => Ok (match accounts d !! u with Some a => OrgLogins a | None => [] end)).

(** ** Invitations and quotas ([invitations.sql], [daily_quotas.sql]) *)
Definition invitation_where (f : Invitation -> bool) (d : Db) : option (Z * Invitation) :=
  head (List.filter (fun p => f p.2) (map_to_list (invitations d))).
Definition GetOpenGroupInvitationByUsername (g : Z) (name : string) : M World DbError (Z * Invitation) :=
  query "GetOpenGroupInvitationByUsername" (fun d => one (invitation_where (fun i =>
    (InvGroup i =? g) && String.eqb (InvitedUsername i) name && (now d <? ExpiresAt i)) d)).
Definition invitation_for (invitee : option Z) (status : string) (i : Invitation) : Invitation :=
  mkInvitation (InvGroup i) invitee (InvitedUsername i) (InvitedBy i) status (CreatedAt i) (ExpiresAt i).
Definition RelinkGroupInvitation (id : Z) (invitee : option Z) : M World DbError unit :=
  stmt "RelinkGroupInvitation" (fun d =>
    match invitations d !! id with
    | Some i =>
      if bool_decide (InviteeID i = invitee) then Ok (tt, d)
      else Ok (tt, set_invitations (<[id := invitation_for invitee "pending" i]> (invitations d)) d)
    | None => Ok (tt, d)
    end).
Definition DeleteExpiredGroupInvitationByUsername (g : Z) (name : string) : M World DbError unit :=
  stmt "DeleteExpiredGroupInvitationByUsername" (fun d => Ok (tt, set_invitations (filter (fun p =>
    negb ((InvGroup p.2 =? g) && String.eqb (InvitedUsername p.2) name && (ExpiresAt p.2 <=? now d)) = true)
    (invitations d)) d)).
Definition CountOpenGroupInvitations (g : Z) : M World DbError Z :=
  query "CountOpenGroupInvitations" (fun d => Ok (Z.of_nat (length (List.filter (fun p =>
    (InvGroup p.2 =? g) && (now d <? ExpiresAt p.2)) (map_to_list (invitations d)))))).
Definition hour : Z := 3600 * 1000000000.
Definition sql_CreateGroupInvitation (g : Z) (invitee : option Z) (name : string) (by_ lifetimeDays : Z) :
    M World DbError (Z * Invitation) :=
  stmt "CreateGroupInvitation" (fun d =>
    if negb (is_some_b (groups d !! g)) then Err Broken
    else if is_some_b (invitation_where (fun i => (InvGroup i =? g) && String.eqb (InvitedUsername i) name) d) then Err NoRows
    else if is_some_b (invitations d !! next_id d) then Err (Unique OtherConstraint)
    else
      let i := mkInvitation g invitee name (Some by_) "pending" (now d) (now d + 24 * lifetimeDays * hour) in
      Ok ((next_id d, i), fresh (set_invitations (<[next_id d := i]> (invitations d)) d))).
Definition invitation_sent_before (a b : Z * Invitation) : bool :=
  (CreatedAt b.2 <? CreatedAt a.2) || ((CreatedAt a.2 =? CreatedAt b.2) && (a.1 <? b.1)).
(** The columns the owners' list selects. *)
Definition sent_row (p : Z * Invitation) : Z * string * option Z * Z * Z :=
  (p.1, InvitedUsername p.2, InvitedBy p.2, CreatedAt p.2, ExpiresAt p.2).
Definition sql_ListGroupInvitations (g : Z) : M World DbError (list (Z * string * option Z * Z * Z)) :=
  query "ListGroupInvitations" (fun d => Ok (sent_row <$> sort_stable invitation_sent_before (List.filter (fun p =>
    (InvGroup p.2 =? g) && (now d <? ExpiresAt p.2)) (map_to_list (invitations d))))).
Definition sql_RevokeGroupInvitation (id g : Z) : M World DbError Z :=
  stmt "RevokeGroupInvitation" (fun d =>
    match invitations d !! id with
    | Some i => if (InvGroup i =? g) && (now d <? ExpiresAt i)
                then Ok (1, set_invitations (delete id (invitations d)) d) else Ok (0, d)
    | None => Ok (0, d)
    end).
Definition my_pending (id u : Z) (d : Db) : option Invitation :=
  i ← invitations d !! id;
  if bool_decide (InviteeID i = Some u) && String.eqb (InvStatus i) "pending" && (now d <? ExpiresAt i)
  then Some i else None.
Definition GetMyPendingInvitation (id u : Z) : M World DbError Invitation :=
  query "GetMyPendingInvitation" (fun d => one (my_pending id u d)).
Definition GetMyPendingInvitationForUpdate (id u : Z) : M World DbError Invitation :=
  query "GetMyPendingInvitationForUpdate" (fun d => one (my_pending id u d)).
Definition DeleteInvitation (id : Z) : M World DbError unit :=
  stmt "DeleteInvitation" (fun d => Ok (tt, set_invitations (delete id (invitations d)) d)).
Definition sql_DeclineMyInvitation (id u : Z) : M World DbError Z :=
  autocommitted "DeclineMyInvitation" (fun d =>
    match my_pending id u d with
    | Some i => Ok (1, set_invitations (<[id := invitation_for (InviteeID i) "declined" i]> (invitations d)) d)
    | None => Ok (0, d)
    end).

Definition today (d : Db) : Z := now d / (24 * hour).
Definition DeleteStaleDailyQuotas : M World DbError unit :=
  stmt "DeleteStaleDailyQuotas" (fun d =>
    Ok (tt, set_quotas (filter (fun p => negb (p.1.2 <? today d - 1) = true) (quotas d)) d)).
Definition TakeDailyQuota (u : Z) (quota : string) (limit : Z) : M World DbError Z :=
  stmt "TakeDailyQuota" (fun d =>
    let k := (u, quota, today d) in
    match quotas d !! k with
    | None => Ok (1, set_quotas (<[k := 1]> (quotas d)) d)
    | Some used => if used <? limit then Ok (used + 1, set_quotas (<[k := used + 1]> (quotas d)) d) else Err NoRows
    end).

Section unicode.
Context `{UnicodeTables}.
(** [WHERE lower(github_username) = lower($1)]; the handle is unique. *)
Definition account_named (name : string) (d : Db) : option Z :=
  fst <$> head (List.filter (fun p => String.eqb (to_lower (GithubUsername p.2)) (to_lower name)) (map_to_list (accounts d))).
Definition GetUserByUsername (name : string) : M World DbError Z :=
  query "GetUserByUsername" (fun d => one (account_named name d)).
End unicode.
End statements.
End CollectiveStore.
