(* ===== verification/Collectives.v ===== *)
(** * Collectives and sharing

    The handlers that change a collective, its members, its invitations and what
    is shared with it ([handler/groups.go], [group_shares.go],
    [shares_attempts.go], [invitations.go], [collective_authority.go],
    [org_membership.go], [daily_quota.go], and the share and
    unshare routes of [transcripts.go]).

    A handler is a computation that may end early with a response; the texts of
    refusals are not modelled, a refusal is its status. A route parameter is
    [None] when it does not parse. A transaction runs on its own: what its locks
    keep others from changing does not change under it. *)
From S2P Require Import Prelude GoText Regex PromptAttach Governance CollectiveStore.

Open Scope string_scope.
Open Scope list_scope.
Open Scope Z_scope.

Module Collectives.
Import Governance CollectiveStore.

Inductive Body : Type :=
| BError
| BStatus (status : string)
| BRole (status role : string)
| BRemoved (retracted : bool)
| BReviewed (decided already_decided : list string)
| BGroup (id : Z)
| BShares (rows : list (Z * Z))
| BBatch (shared : list (string * ShareState)) (already_shared : list string)
| BInvitations (rows : list (Z * string * option Z * Z * Z)).
Record Response : Type := mkResponse { code : Z; body : Body }.
Definition writeError (status : Z) : Response := mkResponse status BError.

(** The one decision a share operation can be refused with inside its
    transaction ([shareOperationRefusal], [batchShareConflict],
    [batchConsentRefusal]), and any other error. *)
Inductive TxError : Type := TxRefused (r : Response) | TxBroken.
#[export] Instance collective_rows `{Env} : GovernanceRows World DbError Transcript := {|
  lock_row := GetTranscriptGovernanceForUpdate;
  update_row := UpdateTranscriptMetadata;
  row_title := Title;
  row_description := Description;
  row_visibility := Visibility;
  row_license := LicenseID
|}.

Section handlers.
Context `{Env, UnicodeTables}.
(** Whether the server has a GitHub client. *)
Context (gh : bool).

Notation Handler := (M World Response).
Notation Query := (M World DbError).
Notation Tx := (M World TxError).

(** [if err != nil { writeError(...); return }] *)
Definition or_refuse {A} (m : Query A) (e : DbError -> Response) : Handler A :=
  r ← attempt m; match r with Ok a => mret a | Err err => throw (e err) end.
Definition refuse_if (c : bool) (r : Response) : Handler unit := if c then throw r else mret tt.
Definition param {A} (o : option A) : Handler A := match o with Some a => mret a | None => throw (writeError 400) end.
(** any error of the query fails the transaction *)
Definition in_x {A} (m : Query A) : Tx A :=
  r ← attempt m; match r with Ok a => mret a | Err _ => throw TxBroken end.

(** ** Transactions ([tx.go], [collective_authority.go]) *)

(** [inTxRawOnConn]: begin and markers, the body, commit. A body that fails is
    rolled back; so is a failed commit, unless it had been carried out. *)
Definition in_tx {A} (m : Tx A) : Tx A := fun w =>
  match served (statements w) with
  | Fine =>
    match m (mkWorld (db w) (statements w ++ ["BEGIN"])) with
    | (Err e, w') => (Err e, mkWorld (db w) (statements w' ++ ["ROLLBACK"]))
    | (Ok a, w') =>
      match served (statements w') with
      | Fine => (Ok a, mkWorld (db w') (statements w' ++ ["COMMIT"]))
      | Lost => (Err TxBroken, mkWorld (db w) (statements w' ++ ["COMMIT"]))
      | LostButDone => (Err TxBroken, mkWorld (db w') (statements w' ++ ["COMMIT"]))
      end
    end
  | _ => (Err TxBroken, mkWorld (db w) (statements w ++ ["BEGIN"]))
  end.

Definition nothing (name : string) : Query unit := query name (fun _ => Ok tt).

Definition inCollectiveAuthorityTx {A} (m : Tx A) : Tx A :=
  in_tx (_ ← in_x (nothing "pg_advisory_xact_lock"); m).

(** A mutation's response is buffered until the transaction ends: a refusal
    rolls it back. What else the mutation hands over ([none] when it refuses) is
    for the caller. *)
Definition mutate_with {X} (none : X) (id : option Z) (mutation : Z -> Handler (Response * X)) (refreshGrants : bool) :
    Handler (Response * X) :=
  g ← param id;
  r ← attempt (inCollectiveAuthorityTx (
    _ ← (if refreshGrants && gh then in_x (nothing "ListAttachmentsForCollectiveGrants") else mret tt);
    buffered ← attempt (mutation g);
    let '(r, x) := match buffered with Ok rx => rx | Err r => (r, none) end in
    if 400 <=? code r then throw (TxRefused r) else mret (r, x)));
  match r with
  | Ok rx => mret rx
  | Err (TxRefused r) => mret (r, none)
  | Err TxBroken => throw (writeError 500)
  end.
Definition mutateCollective (id : option Z) (mutation : Z -> Handler Response) (refreshGrants : bool) : Handler Response :=
  '(r, _) ← mutate_with tt id (fun g => r ← mutation g; mret (r, tt)) refreshGrants;
  mret r.

(** ** Organization membership ([org_membership.go]) *)
Definition hasOrgMembership (u : Z) (org : string) : Query bool :=
  orgs ← ListUserAllOrgs u; mret (existsb (fun o => equal_fold o org) orgs).
Definition hasAnyOrgMembership (u : Z) : Query bool :=
  orgs ← ListUserAllOrgs u; mret (negb (bool_decide (orgs = []))).

Definition patch_x (t : string) (p : metadataPatch) : Tx Transcript :=
  r ← attempt (applyMetadataPatch t p); match r with Ok a => mret a | Err _ => throw TxBroken end.

(** ** Share attempts ([shares_attempts.go], [group_shares.go]) *)
Definition shareAttemptIsLive (s : ShareState) : bool := match s with Pending | Approved => true | _ => false end.

Inductive shareAttemptConflict : Type := ConflictNone | ConflictOpen | ConflictEventNum.
Definition classifyShareAttemptConflict (e : DbError) : shareAttemptConflict :=
  match e with
  | Unique OpenAttempt => ConflictOpen
  | Unique EventNum => ConflictEventNum
  | _ => ConflictNone
  end.

(** Whether the pair's latest attempt is live; no row is not. *)
Definition latest_is_live (t : string) (g : Z) : Tx bool :=
  r ← attempt (GetLatestShareAttempt t g);
  match r with
  | Ok (_, a) => mret (shareAttemptIsLive (Status a))
  | Err NoRows => mret false
  | Err _ => throw TxBroken
  end.

Definition withdrawLiveShare (t : string) (g : Z) : Tx bool :=
  live ← latest_is_live t g;
  if (live : bool) then _ ← in_x (UnshareTranscript t g); mret true else mret false.

(** The state a new submission opens in, or [None] for a refusal. *)
Definition shareStatusForGroup {E} (u : Z) (group : Group) : M World E (option ShareState) :=
  if String.eqb (AcceptanceMode group) "verified_only" then
    verified ← attempt (match LinkedGithubOrg group with
      | Some org => if String.eqb org "" then hasAnyOrgMembership u else hasOrgMembership u org
      | None => hasAnyOrgMembership u
      end);
    mret (match verified with Ok true => Some Approved | _ => None end)
  else if String.eqb (AcceptanceMode group) "curated" then mret (Some Pending)
  else mret (Some Approved).

Definition member_role (r : string) : bool :=
  String.eqb r "owner" || String.eqb r "member" || String.eqb r "contributor".

Definition finalShareStatus (u g : Z) : Tx ShareState :=
  r ← attempt (GetGroupMember g u);
  match r with
  | Err NoRows => throw (TxRefused (writeError 403))
  | Err _ => throw TxBroken
  | Ok m =>
    if negb (member_role (Role m)) then throw (TxRefused (writeError 403))
    else
      group ← in_x (GetGroupByID g);
      status ← shareStatusForGroup u group;
      match status with Some s => mret s | None => throw (TxRefused (writeError 403)) end
  end.

(** A new attempt; a conflict with another writer's is a refusal. *)
Definition open_attempt (t : string) (g : Z) (s : ShareState) : Tx unit :=
  r ← attempt (ShareTranscriptWithStatus t g s);
  match r with
  | Ok _ => mret tt
  | Err e => match classifyShareAttemptConflict e with
    | ConflictNone => throw TxBroken
    | _ => throw (TxRefused (writeError 409))
    end
  end.

(** ** Sharing one transcript ([transcripts.go]) *)
Fixpoint dedup {A} `{EqDecision A} (seen l : list A) : list A :=
  match l with
  | [] => []
  | x :: l => if bool_decide (x ∈ seen) then dedup seen l else x :: dedup (x :: seen) l
  end.

(** What every requested collective takes the transcript as, and whether it is
    live there, read under the locks before anything is written. *)
Fixpoint read_targets (u : Z) (t : string) (gs : list Z) : Tx (list (Z * ShareState * bool)) :=
  match gs with
  | [] => mret []
  | g :: gs =>
    s ← finalShareStatus u g;
    live ← latest_is_live t g;
    rest ← read_targets u t gs;
    mret ((g, s, live) :: rest)
  end.

Fixpoint open_targets (t : string) (targets : list (Z * ShareState * bool)) : Tx Z :=
  match targets with
  | [] => mret 0
  | (g, s, live) :: rest =>
    if (live : bool) then open_targets t rest
    else _ ← open_attempt t g s; n ← open_targets t rest; mret (n + 1)
  end.

Definition share_in_tx (u : Z) (t : string) (gs : list Z) : Tx (list (Z * Z)) :=
  current ← in_x (GetTranscriptByID t);
  if negb (OwnerID current =? u) then throw (TxRefused (writeError 403))
  else
    targets ← read_targets u t gs;
    opened ← open_targets t targets;
    if (opened =? 0) && negb (String.eqb (Visibility current) "private") then throw (TxRefused (writeError 409))
    else
      _ ← (if String.eqb (Visibility current) "private" then _ ← patch_x t (visibilityPatch "shared"); mret tt else mret tt);
      in_x (ListTranscriptShares t).

Definition shareTranscriptLocked (u : Z) (t : string) (group_ids : option (list (option Z))) : Handler Response :=
  transcript ← or_refuse (GetTranscriptByID t) (fun _ => writeError 404);
  _ ← refuse_if (negb (OwnerID transcript =? u)) (writeError 403);
  ids ← param group_ids;
  parsed ← param (mapM id ids);
  let gs := dedup [] parsed in
  _ ← refuse_if (bool_decide (gs = [])) (writeError 400);
  r ← attempt (inCollectiveAuthorityTx (share_in_tx u t gs));
  match r with
  | Ok rows => mret (mkResponse 200 (BShares rows))
  | Err (TxRefused r) => throw r
  | Err TxBroken => throw (writeError 500)
  end.

(** [group_ids] is [None] when the body is not the contract's. *)
Definition ShareTranscript (u : Z) (tid : option string) (group_ids : option (list (option Z))) : Handler Response :=
  t ← param tid;
  transcript ← or_refuse (GetTranscriptByID t) (fun _ => writeError 404);
  _ ← refuse_if (negb (OwnerID transcript =? u)) (writeError 403);
  _ ← param group_ids;
  _ ← or_refuse (nothing "publish locks") (fun _ => writeError 500);
  shareTranscriptLocked u t group_ids.

Definition unshareAndNarrow (t : string) (g : Z) : Tx bool :=
  _ ← withdrawLiveShare t g;
  live ← in_x (TranscriptHasLiveShareAttempt t);
  if (live : bool) then mret false
  else
    pre ← in_x (GetTranscriptGovernanceForUpdate t);
    if negb (String.eqb (Visibility pre) "shared") then mret false
    else _ ← patch_x t (visibilityPatch "private"); mret true.

Definition UnshareRoute (u : Z) (tid : option string) (gid : option Z) : Handler Response :=
  t ← param tid;
  g ← param gid;
  transcript ← or_refuse (GetTranscriptByID t) (fun _ => writeError 404);
  _ ← refuse_if (negb (OwnerID transcript =? u)) (writeError 403);
  _ ← or_refuse (nothing "publish locks") (fun _ => writeError 500);
  r ← attempt (in_tx (unshareAndNarrow t g));
  match r with
  | Ok _ => mret (mkResponse 200 (BStatus "unshared"))
  | Err _ => throw (writeError 500)
  end.

(** ** Sharing a project ([group_shares.go]) *)
Definition projectHashPattern : regex := rrep (RClass cls_hex) 64.

(** The contract-checked body: whether it names undeclared fields, and the
    identifiers with those that do not parse as [None]. *)
Record batchShareRequest : Type := mkBatchRequest {
  Undeclared : bool;
  RProjectHash : string;
  TranscriptIDs : list (option string);
  VisibilityConfirmed : bool
}.

Definition decodeBatchShareRequest (r : batchShareRequest) : option (string * list string * bool) :=
  if Undeclared r || negb (match_full projectHashPattern (RProjectHash r)) then None
  else ids ← mapM id (TranscriptIDs r); Some (RProjectHash r, dedup [] ids, VisibilityConfirmed r).

Definition selectBatchCandidates (candidates : list (string * Transcript)) (requested : list string) :
    option (list (string * Transcript)) :=
  if bool_decide (requested = []) then Some candidates
  else if existsb (fun id => negb (bool_decide (id ∈ candidates.*1))) requested then None
  else Some (List.filter (fun c => bool_decide (c.1 ∈ requested)) candidates).

(** Whether consent is missing for some of them. *)
Definition consentRefusalForPrivate (candidates : list (string * Transcript)) (confirmed : bool) : bool :=
  negb confirmed && existsb (fun c => String.eqb (Visibility c.2) "private") candidates.

(** One transcript of the batch: whether this request submitted it. *)
Definition batch_one (u g : Z) (status : ShareState) (confirmed : bool) (project : string) (preflightLive : list string)
    (t : string) : Tx bool :=
  current ← in_x (GetTranscriptByID t);
  if negb (OwnerID current =? u) || negb (String.eqb (ProjectHash current) project) then throw (TxRefused (writeError 403))
  else
    live ← latest_is_live t g;
    if negb (Bool.eqb live (bool_decide (t ∈ preflightLive))) then throw (TxRefused (writeError 409))
    else if (live : bool) then mret false
    else
      _ ← open_attempt t g status;
      locked ← in_x (GetTranscriptGovernanceForUpdate t);
      if negb (String.eqb (Visibility locked) "private") then mret true
      else if negb confirmed then throw (TxRefused (writeError 422))
      else _ ← patch_x t (visibilityPatch "shared"); mret true.

Fixpoint batch_all (u g : Z) (status : ShareState) (confirmed : bool) (project : string) (preflightLive : list string)
    (ts : list string) : Tx (list (string * ShareState) * list string) :=
  match ts with
  | [] => mret ([], [])
  | t :: ts =>
    submitted ← batch_one u g status confirmed project preflightLive t;
    '(shared, already) ← batch_all u g status confirmed project preflightLive ts;
    mret (if (submitted : bool) then ((t, status) :: shared, already) else (shared, t :: already))
  end.

Definition writeBatchShare (u g : Z) (status : ShareState) (ts : list string) (confirmed : bool) (project : string)
    (preflightLive : list string) : Tx (list (string * ShareState) * list string) :=
  inCollectiveAuthorityTx (
    currentStatus ← finalShareStatus u g;
    if negb (bool_decide (currentStatus = status)) then throw (TxRefused (writeError 409))
    else
      '(shared, already) ← batch_all u g status confirmed project preflightLive ts;
      if bool_decide (shared = []) then throw (TxRefused (writeError 409)) else mret (shared, already)).

Definition BatchShareProject (u : Z) (gid : option Z) (req : option batchShareRequest) : Handler Response :=
  g ← param gid;
  req ← param req;
  '(project, requested, confirmed) ← param (decodeBatchShareRequest req);
  _ ← or_refuse (GetGroupMember g u) (fun _ => writeError 403);
  group ← or_refuse (GetGroupByID g) (fun _ => writeError 404);
  preflight ← shareStatusForGroup u group;
  status ← (match preflight with Some s => mret s | None => throw (writeError 403) end);
  candidates ← or_refuse (ListOwnerProjectShareCandidates u project) (fun _ => writeError 500);
  _ ← refuse_if (bool_decide (candidates = [])) (writeError 422);
  selected ← (match selectBatchCandidates candidates requested with
    | Some l => mret l | None => throw (writeError 422) end);
  alreadyLive ← or_refuse (ListLiveShareAttemptsForGroup g selected.*1) (fun _ => writeError 500);
  let remaining := List.filter (fun c => negb (bool_decide (c.1 ∈ alreadyLive))) selected in
  _ ← refuse_if (consentRefusalForPrivate remaining confirmed) (writeError 422);
  _ ← or_refuse (nothing "publish locks") (fun _ => writeError 500);
  r ← attempt (writeBatchShare u g status selected.*1 confirmed project alreadyLive);
  match r with
  | Ok (shared, already) => mret (mkResponse 200 (BBatch shared already))
  | Err (TxRefused r) => throw r
  | Err TxBroken => throw (writeError 500)
  end.

(** ** Review ([groups.go]) *)

(** A failed read is refused like a missing membership. *)
Definition require_owner (u g : Z) : Handler unit :=
  m ← or_refuse (GetGroupMember g u) (fun _ => writeError 403);
  refuse_if (negb (String.eqb (Role m) "owner")) (writeError 403).

Definition decision_of (status : string) : option ShareState :=
  if String.eqb status "approved" then Some Approved
  else if String.eqb status "rejected" then Some Rejected else None.

Definition reviewShareLocked (u : Z) (tid : option string) (status : option string) (g : Z) : Handler Response :=
  t ← param tid;
  _ ← require_owner u g;
  status ← param status;
  s ← param (decision_of status);
  _ ← or_refuse (UpdateShareStatus t g s u) (fun _ => writeError 500);
  mret (mkResponse 200 (BStatus status)).

Definition batchReviewSharesLocked (u : Z) (req : option (list (option string) * string)) (g : Z) : Handler Response :=
  _ ← require_owner u g;
  '(raw, status) ← param req;
  s ← param (decision_of status);
  requested ← param (mapM id raw);
  if bool_decide (requested = []) then mret (mkResponse 200 (BReviewed [] []))
  else
    decided ← or_refuse (BatchUpdateShareStatus s u requested g) (fun _ => writeError 500);
    mret (mkResponse 200 (BReviewed decided (List.filter (fun t => negb (bool_decide (t ∈ decided))) requested))).

Definition removeGroupTranscriptLocked (u : Z) (tid : option string) (g : Z) : Handler Response :=
  t ← param tid;
  _ ← require_owner u g;
  _ ← or_refuse (sql_RemoveGroupTranscript g t) (fun _ => writeError 500);
  mret (mkResponse 200 (BStatus "removed")).

(** ** Members *)
Definition joinGroupLocked (u g : Z) : Handler Response :=
  group ← or_refuse (GetGroupByID g) (fun _ => writeError 404);
  _ ← (if String.eqb (AcceptanceMode group) "open" then mret tt
       else if String.eqb (AcceptanceMode group) "verified_only" then
         ok ← or_refuse (match LinkedGithubOrg group with
           | Some org => if String.eqb org "" then hasAnyOrgMembership u else hasOrgMembership u org
           | None => hasAnyOrgMembership u
           end) (fun _ => writeError 500);
         refuse_if (negb ok) (writeError 403)
       else throw (writeError 403));
  member ← attempt (GetGroupMember g u);
  match member with
  | Ok _ => throw (writeError 409)
  | Err _ =>
    _ ← or_refuse (JoinGroupSelf g u) (fun _ => writeError 500);
    mret (mkResponse 200 (BRole "joined" "contributor"))
  end.

Definition promoteMemberLocked (u : Z) (target : option Z) (role : option string) (g : Z) : Handler Response :=
  target ← param target;
  _ ← require_owner u g;
  role ← param role;
  _ ← refuse_if (negb (String.eqb role "contributor" || String.eqb role "member")) (writeError 400);
  m ← or_refuse (GetGroupMember g target) (fun _ => writeError 404);
  _ ← refuse_if (String.eqb (Origin m) "creator") (writeError 400);
  _ ← or_refuse (UpdateMemberRole g target role) (fun _ => writeError 500);
  mret (mkResponse 200 (BRole "updated" role)).

Definition removeGroupMemberLocked (u : Z) (target : option Z) (retractParam : bool) (g : Z) : Handler Response :=
  target ← param target;
  _ ← (if target =? u then mret tt else require_owner u g);
  member ← attempt (GetGroupMember g target);
  _ ← (match member with
    | Ok m => refuse_if (String.eqb (Origin m) "creator") (writeError 400)
    | Err NoRows => mret tt
    | Err _ => throw (writeError 500)
    end);
  group ← attempt (GetGroupByID g);
  let retract := retractParam || match group with
    | Ok group => String.eqb (TranscriptDeletionPolicy group) "mandatory" | Err _ => false end in
  _ ← or_refuse (sql_RemoveGroupMember g target) (fun _ => writeError 500);
  _ ← (if retract then or_refuse (RetractUserSharesInGroup g target) (fun _ => writeError 500) else mret tt);
  mret (mkResponse 200 (BRemoved retract)).

(** ** Collectives *)
Definition validAcceptanceModes (s : string) : bool := existsb (String.eqb s) ["open"; "verified_only"; "curated"].
Definition validDataAccess (s : string) : bool := existsb (String.eqb s) ["members_only"; "contributors"; "public"].
Definition validDeletionPolicies (s : string) : bool := existsb (String.eqb s) ["user_choice"; "mandatory"].

Definition valid_when_sent (valid : string -> bool) (s : string) : bool := String.eqb s "" || valid s.
Definition sent_or (s stored : string) : string := if String.eqb s "" then stored else s.

(** The organization a caller may link: a failed read is a 500, an organization
    they are not in a 400. *)
Definition linked_org (u : Z) (raw : string) : Handler (option string) :=
  let trimmed := trim_space raw in
  if String.eqb trimmed "" then mret None
  else
    ok ← or_refuse (hasOrgMembership u trimmed) (fun _ => writeError 500);
    _ ← refuse_if (negb ok) (writeError 400);
    mret (Some trimmed).

Record createRequest : Type := mkCreate {
  CName : string; CDescription : string; CAcceptanceMode : string; CDataAccess : string; CLinkedGitHubOrg : string
}.

(** The row a valid request asks for; the other columns have their defaults. *)
Definition new_group (u : Z) (req : option createRequest) : Handler Group :=
  req ← param req;
  _ ← refuse_if (String.eqb (CName req) "") (writeError 400);
  _ ← refuse_if (negb (valid_when_sent validAcceptanceModes (CAcceptanceMode req))) (writeError 400);
  _ ← refuse_if (negb (valid_when_sent validDataAccess (CDataAccess req))) (writeError 400);
  org ← linked_org u (CLinkedGitHubOrg req);
  mret (mkGroup (CName req) (toPgText (CDescription req)) u (sent_or (CAcceptanceMode req) "open")
    (sent_or (CDataAccess req) "members_only") org true "user_choice" true "informational").

(** Not one transaction: the collective is there before its owner is. *)
Definition CreateGroup (u : Z) (req : option createRequest) : Handler Response :=
  group ← new_group u req;
  g ← or_refuse (sql_CreateGroup group) (fun _ => writeError 500);
  _ ← or_refuse (AddGroupCreator g u) (fun _ => writeError 500);
  _ ← or_refuse (nothing "ListPublicOwnersForViewer") (fun _ => writeError 500);
  mret (mkResponse 201 (BGroup g)).

Record updateRequest : Type := mkUpdate {
  UName : option string;
  UDescription : option string;
  UDataAccess : string;
  UAcceptanceMode : string;
  ULinkedGitHubOrg : option string;
  UDisplayMembers : option bool;
  UTranscriptDeletionPolicy : string;
  UPostPromptsCheck : option bool;
  UPromptsCheckMode : string
}.

Definition updateGroupLocked (u : Z) (req : option updateRequest) (g : Z) : Handler Response :=
  _ ← require_owner u g;
  req ← param req;
  _ ← refuse_if (negb (valid_when_sent validDataAccess (UDataAccess req))) (writeError 400);
  _ ← refuse_if (negb (valid_when_sent validAcceptanceModes (UAcceptanceMode req))) (writeError 400);
  _ ← refuse_if (negb (valid_when_sent validDeletionPolicies (UTranscriptDeletionPolicy req))) (writeError 400);
  _ ← refuse_if (negb (valid_when_sent (fun s => PromptAttach.CheckModeValid s) (UPromptsCheckMode req))) (writeError 400);
  current ← or_refuse (GetGroupByID g) (fun _ => writeError 404);
  org ← (match ULinkedGitHubOrg req with
    | Some raw => linked_org u raw
    | None => mret (LinkedGithubOrg current)
    end);
  _ ← or_refuse (sql_UpdateGroup g (mkGroup
        (default (CollectiveStore.Name current) (UName req))
        (match UDescription req with Some s => toPgText s | None => GDescription current end)
        (CreatedBy current)
        (sent_or (UAcceptanceMode req) (AcceptanceMode current))
        (sent_or (UDataAccess req) (DataAccess current))
        org
        (default (DisplayMembers current) (UDisplayMembers req))
        (sent_or (UTranscriptDeletionPolicy req) (TranscriptDeletionPolicy current))
        (default (PostPromptsCheck current) (UPostPromptsCheck req))
        (sent_or (UPromptsCheckMode req) (PromptsCheckMode current)))) (fun _ => writeError 500);
  _ ← or_refuse (nothing "ListPublicOwnersForViewer") (fun _ => writeError 500);
  mret (mkResponse 200 (BGroup g)).

Definition deleteGroupLocked (u g : Z) : Handler Response :=
  _ ← require_owner u g;
  _ ← or_refuse (sql_DeleteGroup g) (fun _ => writeError 500);
  mret (mkResponse 200 (BStatus "deleted")).

(** ** Routes *)
Definition UpdateGroup (u : Z) (id : option Z) (req : option updateRequest) : Handler Response :=
  mutateCollective id (updateGroupLocked u req) false.
Definition DeleteGroup (u : Z) (id : option Z) : Handler Response := mutateCollective id (deleteGroupLocked u) false.
Definition ReviewShare (u : Z) (id : option Z) (tid status : option string) : Handler Response :=
  mutateCollective id (reviewShareLocked u tid status) true.
Definition BatchReviewShares (u : Z) (id : option Z) (req : option (list (option string) * string)) : Handler Response :=
  mutateCollective id (batchReviewSharesLocked u req) true.
Definition JoinGroup (u : Z) (id : option Z) : Handler Response := mutateCollective id (joinGroupLocked u) true.
Definition PromoteMember (u : Z) (id target : option Z) (role : option string) : Handler Response :=
  mutateCollective id (promoteMemberLocked u target role) true.
Definition RemoveGroupTranscript (u : Z) (id : option Z) (tid : option string) : Handler Response :=
  mutateCollective id (removeGroupTranscriptLocked u tid) true.
Definition RemoveGroupMember (u : Z) (id target : option Z) (retract : bool) : Handler Response :=
  mutateCollective id (removeGroupMemberLocked u target retract) true.
End handlers.
End Collectives.
