(* ===== verification/Invitations.v ===== *)
(** * Invitations to a collective

    [handler/invitations.go] and [daily_quota.go]: an owner invites a handle,
    the person who holds it accepts or declines, an owner lists and revokes. The
    email a sent invitation dispatches after its commit is the value the invite
    hands over. *)
From S2P Require Import Prelude GoText Governance CollectiveStore Collectives.

Open Scope string_scope.
Open Scope list_scope.
Open Scope Z_scope.

Module Invitations.
Import Governance CollectiveStore Collectives.

Definition invitationLifetimeDays : Z := 30.
Definition invitationsPerInviterPerDay : Z := 20.
Definition openInvitationsPerCollective : Z := 50.
Definition invitedUsernameMaxLength : Z := 100.
Definition quotaInvitationSent : string := "invitation_sent".

Definition originCreator : string := "creator".
Definition originSelfJoin : string := "self_join".
Definition originInvitation : string := "invitation".

Definition consentedMembership (m : Member) : bool :=
  if String.eqb (Role m) "pending" then false
  else String.eqb (Origin m) originCreator || String.eqb (Origin m) originSelfJoin
       || String.eqb (Origin m) originInvitation.

(** [unicode.IsControl]. *)
Definition is_control (r : Z) : bool := between 0 31 r || between 127 159 r.

Record invitationNotice : Type := mkNotice {
  invitationID : Z;
  inviteeID : option Z;
  inviterID : Z;
  collectiveName : string
}.

Section handlers.
Context `{Env, UnicodeTables}.
Context (gh : bool).

Notation Handler := (M World Response).
Notation Query := (M World DbError).
Notation Tx := (M World TxError).

Definition normalizeInvitedUsername (typed : string) : option string :=
  let handle := to_lower (trim_prefix "@" (trim_space typed)) in
  if String.eqb handle "" || (invitedUsernameMaxLength <? rune_count handle) then None
  else if existsb (fun r => is_space r || is_control r || (r =? 47)) (runes handle) then None
  else Some handle.

Definition takeDailyQuota (account : Z) (quota : string) (limit : Z) : Query bool :=
  _ ← DeleteStaleDailyQuotas;
  r ← attempt (TakeDailyQuota account quota limit);
  match r with
  | Ok _ => mret true
  | Err NoRows => mret false
  | Err e => throw e
  end.

(** [Ok None] for no row, a refusal for any other error. *)
Definition row_if_any {A} (m : Query A) : Handler (option A) :=
  r ← attempt m;
  match r with
  | Ok a => mret (Some a)
  | Err NoRows => mret None
  | Err _ => throw (writeError 500)
  end.

(** A NULL person is in no row. *)
Definition GetGroupMemberOf (g : Z) (u : option Z) : Query Member :=
  match u with
  | Some u => GetGroupMember g u
  | None => query "GetGroupMember" (fun _ => Err NoRows)
  end.

Definition invited : Response := mkResponse 202 (BStatus "invited").

(** What follows once no open invitation names the handle. *)
Definition send_invitation (u g : Z) (group : Group) (handle : string) (invitee : option Z) :
    Handler (Response * option invitationNotice) :=
  open ← or_refuse (CountOpenGroupInvitations g) (fun _ => writeError 500);
  _ ← refuse_if (openInvitationsPerCollective <=? open) (writeError 429);
  allowed ← or_refuse (takeDailyQuota u quotaInvitationSent invitationsPerInviterPerDay) (fun _ => writeError 500);
  _ ← refuse_if (negb allowed) (writeError 429);
  _ ← or_refuse (DeleteExpiredGroupInvitationByUsername g handle) (fun _ => writeError 500);
  created ← row_if_any (sql_CreateGroupInvitation g invitee handle u invitationLifetimeDays);
  match created with
  | None => mret (invited, None)
  | Some (id, row) => mret (invited, Some (mkNotice id (InviteeID row) u (CollectiveStore.Name group)))
  end.

Definition createGroupInvitationLocked (u : Z) (username : option string) (g : Z) :
    Handler (Response * option invitationNotice) :=
  _ ← require_owner u g;
  typed ← param username;
  handle ← param (normalizeInvitedUsername typed);
  group ← or_refuse (GetGroupByID g) (fun _ => writeError 500);
  existingInvitation ← row_if_any (GetOpenGroupInvitationByUsername g handle);
  invitee ← row_if_any (GetUserByUsername handle);
  existing ← row_if_any (GetGroupMemberOf g invitee);
  _ ← refuse_if (match existing with Some m => consentedMembership m | None => false end) (writeError 409);
  match existingInvitation with
  | Some (id, _) =>
    _ ← or_refuse (RelinkGroupInvitation id invitee) (fun _ => writeError 500);
    mret (invited, None)
  | None => send_invitation u g group handle invitee
  end.

(** The response, and the email dispatched once the response says it committed. *)
Definition CreateGroupInvitation (u : Z) (id : option Z) (username : option string) :
    Handler (Response * option invitationNotice) :=
  '(r, notice) ← mutate_with gh None id (createGroupInvitationLocked u username) false;
  mret (r, if code r =? 202 then notice else None).

(** Each row with its sender's identifier, shown as [public_owner.go] lets this
    viewer see them. *)
Definition ListGroupInvitations (u : Z) (id : option Z) : Handler Response :=
  g ← param id;
  _ ← require_owner u g;
  rows ← or_refuse (sql_ListGroupInvitations g) (fun _ => writeError 500);
  _ ← or_refuse (nothing "ListPublicOwnersForViewer") (fun _ => writeError 500);
  mret (mkResponse 200 (BInvitations rows)).

Definition revokeGroupInvitationLocked (u : Z) (invitation : option Z) (g : Z) : Handler Response :=
  i ← param invitation;
  _ ← require_owner u g;
  revoked ← or_refuse (sql_RevokeGroupInvitation i g) (fun _ => writeError 500);
  _ ← refuse_if (revoked =? 0) (writeError 404);
  mret (mkResponse 200 (BStatus "revoked")).
Definition RevokeGroupInvitation (u : Z) (id invitation : option Z) : Handler Response :=
  mutateCollective gh id (revokeGroupInvitationLocked u invitation) false.

(** The membership an accepted invitation leaves: the one the person chose
    already, or the invitation's. *)
Definition accept_in_tx (u i g : Z) : Tx string :=
  pending ← attempt (GetMyPendingInvitationForUpdate i u);
  match pending with
  | Err NoRows => throw (TxRefused (writeError 404))
  | Err _ => throw TxBroken
  | Ok _ =>
    existing ← attempt (GetGroupMember g u);
    role ← (match existing with
      | Ok m => if consentedMembership m then mret (Role m) else in_x (AcceptInvitationMembership g u)
      | Err NoRows => in_x (AcceptInvitationMembership g u)
      | Err _ => throw TxBroken
      end);
    _ ← in_x (DeleteInvitation i);
    _ ← (if gh then in_x (nothing "ListAttachmentsForCollectiveGrants") else mret tt);
    mret role
  end.

Definition AcceptMyInvitation (u : Z) (invitation : option Z) : Handler Response :=
  i ← param invitation;
  row ← or_refuse (GetMyPendingInvitation i u) (fun e => match e with NoRows => writeError 404 | _ => writeError 500 end);
  r ← attempt (inCollectiveAuthorityTx (accept_in_tx u i (InvGroup row)));
  match r with
  | Ok role => mret (mkResponse 200 (BRole "joined" role))
  | Err (TxRefused r) => throw r
  | Err TxBroken => throw (writeError 500)
  end.

Definition DeclineMyInvitation (u : Z) (invitation : option Z) : Handler Response :=
  i ← param invitation;
  declined ← or_refuse (sql_DeclineMyInvitation i u) (fun _ => writeError 500);
  _ ← refuse_if (declined =? 0) (writeError 404);
  mret (mkResponse 200 (BStatus "declined")).
End handlers.
End Invitations.
