(* ===== verification/CollectiveRoutes.v ===== *)
(** * The operations on collectives

    One constructor per mutating route of collectives, sharing and invitations
    ([router.go]), and the logic their proofs share: what a statement, a guard
    and a transaction leave of the database. *)
From S2P Require Import Prelude GoText Regex Governance CollectiveStore Collectives Invitations.

Open Scope string_scope.
Open Scope list_scope.
Open Scope Z_scope.

Module CollectiveRoutes.
Import Governance CollectiveStore Collectives Invitations.

Inductive Operation : Type :=
| OpShare (t : option string) (group_ids : option (list (option Z)))
| OpUnshare (t : option string) (g : option Z)
| OpBatchShare (g : option Z) (req : option batchShareRequest)
| OpReview (g : option Z) (t status : option string)
| OpBatchReview (g : option Z) (req : option (list (option string) * string))
| OpRemoveTranscript (g : option Z) (t : option string)
| OpJoin (g : option Z)
| OpPromote (g target : option Z) (role : option string)
| OpRemoveMember (g target : option Z) (retract : bool)
| OpCreate (req : option createRequest)
| OpUpdate (g : option Z) (req : option updateRequest)
| OpDelete (g : option Z)
| OpInvite (g : option Z) (username : option string)
| OpRevokeInvitation (g invitation : option Z)
| OpAccept (invitation : option Z)
| OpDecline (invitation : option Z).

Section routes.
Context `{Env, UnicodeTables}.
Context (gh : bool).

Definition perform (u : Z) (op : Operation) : M World Response Response :=
  match op with
  | OpShare t gs => ShareTranscript u t gs
  | OpUnshare t g => UnshareRoute u t g
  | OpBatchShare g req => BatchShareProject u g req
  | OpReview g t status => ReviewShare gh u g t status
  | OpBatchReview g req => BatchReviewShares gh u g req
  | OpRemoveTranscript g t => RemoveGroupTranscript gh u g t
  | OpJoin g => JoinGroup gh u g
  | OpPromote g target role => PromoteMember gh u g target role
  | OpRemoveMember g target retract => RemoveGroupMember gh u g target retract
  | OpCreate req => CreateGroup u req
  | OpUpdate g req => UpdateGroup gh u g req
  | OpDelete g => DeleteGroup gh u g
  | OpInvite g username => '(r, _) ← CreateGroupInvitation gh u g username; mret r
  | OpRevokeInvitation g i => RevokeGroupInvitation gh u g i
  | OpAccept i => AcceptMyInvitation gh u i
  | OpDecline i => DeclineMyInvitation u i
  end.

(** The response a person gets, whichever way the handler ended. *)
Definition answer {A} (r : result Response A) (of_ : A -> Response) : Response :=
  match r with Ok a => of_ a | Err r => r end.
Definition responds (u : Z) (op : Operation) (w : World) : Response * World :=
  let '(r, w') := perform u op w in (answer r (fun r => r), w').
End routes.

(** ** Statements *)
Section logic.
Context `{Env}.

Lemma stmt_cases {A} name (f : Db -> result DbError (A * Db)) w r w' :
  stmt name f w = (r, w') ->
  (exists a d', f (db w) = Ok (a, d') /\ r = Ok a /\ db w' = d') \/ (exists e, r = Err e /\ db w' = db w).
Proof.
  unfold stmt. destruct (served _); [|naive_solver..]. destruct (f (db w)) as [[a d']|e]; naive_solver.
Qed.

(** The statements that are a commit. *)
Definition commits : list string := ["COMMIT"; "CreateGroup"; "AddGroupCreator"; "DeclineMyInvitation"].
(** The last statement was a commit whose answer was lost and that may have been
    carried out. *)
Definition unconfirmed (w : World) : Prop :=
  exists s name, statements w = s ++ [name] /\ name ∈ commits /\ served s = LostButDone.

Lemma auto_cases {A} name (f : Db -> result DbError (A * Db)) w r w' :
  name ∈ commits -> autocommitted name f w = (r, w') ->
  (exists a d', f (db w) = Ok (a, d') /\ db w' = d' /\ (r = Ok a \/ r = Err Broken /\ unconfirmed w')) \/
  (exists e, r = Err e /\ db w' = db w).
Proof.
  intros Hname Hr. unfold autocommitted in Hr.
  assert (stmt name f w = (r, w') \/
    exists a d', f (db w) = Ok (a, d') /\ served (statements w) = LostButDone /\
      r = Err Broken /\ w' = mkWorld d' (statements w ++ [name])) as [Hst|(a & d' & Hf & Hs & -> & ->)].
  { destruct (served (statements w)); [by left|by left|]. destruct (f (db w)) as [[a d']|e]; [|by left].
    injection Hr as <- <-. right. eauto 10. }
  - apply stmt_cases in Hst as [(a & d' & Hfa & -> & Hd)|(e0 & -> & Hd)]; [left; exists a, d'; eauto|right; eauto].
  - left. exists a, d'. split_and!; [done..|]. right. split; [done|]. by exists (statements w), name.
Qed.

Lemma query_cases {A} name (f : Db -> result DbError A) w r w' :
  query name f w = (r, w') -> db w' = db w /\ forall a, r = Ok a -> f (db w) = Ok a.
Proof.
  intros [(a & d1 & Hf & -> & ->)|(e & -> & ->)]%stmt_cases; [|done].
  destruct (f (db w)); naive_solver.
Qed.

(** [m] writes nothing. *)
Definition reads {E A} (m : M World E A) : Prop := forall w, db (m w).2 = db w.
Lemma reads_run {E A} (m : M World E A) w r w' : reads m -> m w = (r, w') -> db w' = db w.
Proof. intros Hm Hr. specialize (Hm w). by rewrite Hr in Hm. Qed.
Lemma reads_query {A} name (f : Db -> result DbError A) : reads (query name f).
Proof. intros w. destruct (query name f w) eqn:Hq. by apply query_cases in Hq as [? _]. Qed.
Lemma reads_ret {E A} (a : A) : reads (mret a : M World E A).
Proof. done. Qed.
Lemma reads_throw {E A} (e : E) : reads (throw e : M World E A).
Proof. done. Qed.
Lemma reads_bind {E A B} (m : M World E A) (f : A -> M World E B) :
  reads m -> (forall a, reads (f a)) -> reads (m ≫= f).
Proof.
  intros Hm Hf w. rewrite M_bind_unfold. specialize (Hm w). destruct (m w) as [[a|e] w']; cbn in *; [|done].
  by rewrite Hf.
Qed.
Lemma reads_bind_run {E A B} (m : M World E A) (f : A -> M World E B) w r w' :
  reads m -> (m ≫= f) w = (r, w') ->
  (exists e w1, m w = (Err e, w1) /\ r = Err e /\ db w' = db w) \/
  (exists a w1, m w = (Ok a, w1) /\ db w1 = db w /\ f a w1 = (r, w')).
Proof.
  intros Hm. rewrite M_bind_unfold. destruct (m w) as [[a|e] w1] eqn:Hr; apply (reads_run _ _ _ _ Hm) in Hr as Hd; [eauto 6|].
  intros [= <- <-]. left. eauto.
Qed.
Lemma reads_attempt {E F A} (m : M World E A) : reads m -> reads (attempt m : M World F (result E A)).
Proof. intros Hm w. unfold attempt. specialize (Hm w). by destruct (m w). Qed.

Lemma reads_keeps {E A} (I : Db -> Prop) (m : M World E A) : reads m -> keeps (fun w => I (db w)) m.
Proof. intros Hm w Hw. by rewrite Hm. Qed.

Lemma keeps_statement {A} (I : Db -> Prop) name (f : Db -> result DbError (A * Db)) :
  (forall d a d', I d -> f d = Ok (a, d') -> I d') -> keeps (fun w => I (db w)) (stmt name f).
Proof.
  intros Hf w Hw. destruct (stmt name f w) as [r w'] eqn:Hs. cbn.
  apply stmt_cases in Hs as [(a & d' & Hd & _ & ->)|(e & _ & ->)]; [eauto|done].
Qed.

Lemma keeps_auto {A} (I : Db -> Prop) name (f : Db -> result DbError (A * Db)) :
  (forall d a d', I d -> f d = Ok (a, d') -> I d') -> keeps (fun w => I (db w)) (autocommitted name f).
Proof.
  intros Hf w Hw. unfold autocommitted. destruct (served (statements w)); [by apply keeps_statement..|].
  destruct (f (db w)) as [[a d']|e] eqn:Hfw; [by eapply Hf|by apply keeps_statement].
Qed.

(** [m] keeps [I], and what it returns satisfies [phi]. *)
Definition learns {E A} (I : Db -> Prop) (m : M World E A) (phi : A -> Prop) : Prop :=
  forall w r w', I (db w) -> m w = (r, w') -> I (db w') /\ forall a, r = Ok a -> phi a.

Lemma learns_keeps {E A} I (m : M World E A) phi : learns I m phi -> keeps (fun w => I (db w)) m.
Proof. intros Hm w Hw. destruct (m w) as [r w'] eqn:Hr. by destruct (Hm w r w' Hw Hr). Qed.
Lemma keeps_learns {E A} (I : Db -> Prop) (m : M World E A) :
  keeps (fun w => I (db w)) m -> learns I m (fun _ => True).
Proof. intros Hm w r w' Hw Hr. split; [|done]. exact (keeps_run (fun w => I (db w)) m w r w' Hm Hw Hr). Qed.

Lemma keeps_learn {E A B} I (m : M World E A) phi (f : A -> M World E B) :
  learns I m phi -> (forall a, phi a -> keeps (fun w => I (db w)) (f a)) -> keeps (fun w => I (db w)) (m ≫= f).
Proof.
  intros Hm Hf w Hw. rewrite M_bind_unfold. destruct (m w) as [r w'] eqn:Hr.
  destruct (Hm w r w' Hw Hr) as [Hw' Hphi]. destruct r as [a|e]; [by apply Hf; [apply Hphi|]|done].
Qed.

Lemma learns_query {A} (I : Db -> Prop) name (f : Db -> result DbError A) phi :
  (forall d a, I d -> f d = Ok a -> phi a) -> learns I (query name f) phi.
Proof. intros Hf w r w' Hw [Hd Hr]%query_cases. rewrite Hd. split; [done|eauto]. Qed.

Lemma learns_or_refuse {A} I (m : M World DbError A) e phi : learns I m phi -> learns I (or_refuse m e) phi.
Proof.
  intros Hm w r w' Hw. unfold or_refuse, attempt. rewrite M_bind_unfold. destruct (m w) as [r1 w1] eqn:Hr.
  destruct (Hm w r1 w1 Hw Hr) as [Hw1 Hphi]. destruct r1 as [a|err]; unfold mret, M_ret, throw; naive_solver.
Qed.
Lemma learns_in_x {A} I (m : M World DbError A) phi : learns I m phi -> learns I (in_x m) phi.
Proof.
  intros Hm w r w' Hw. unfold in_x, attempt. rewrite M_bind_unfold. destruct (m w) as [r1 w1] eqn:Hr.
  destruct (Hm w r1 w1 Hw Hr) as [Hw1 Hphi]. destruct r1 as [a|err]; unfold mret, M_ret, throw; naive_solver.
Qed.

Lemma keeps_or_refuse {A} I (m : M World DbError A) e : keeps I m -> keeps I (or_refuse m e).
Proof. intros Hm. unfold or_refuse. apply keeps_bind; [by apply keeps_attempt|]. intros [a|?]; eauto with keeps. Qed.
Lemma keeps_in_x {A} I (m : M World DbError A) : keeps I m -> keeps I (in_x m).
Proof. intros Hm. unfold in_x. apply keeps_bind; [by apply keeps_attempt|]. intros [a|?]; eauto with keeps. Qed.
Lemma keeps_param {A} I (o : option A) : keeps I (param o).
Proof. destruct o; eauto with keeps. Qed.
Lemma keeps_refuse_if I c r : keeps I (refuse_if c r).
Proof. destruct c; cbv [refuse_if]; eauto with keeps. Qed.
Lemma learns_param {A} (I : Db -> Prop) (o : option A) : learns I (param o) (fun a => o = Some a).
Proof. intros w r w' Hw. destruct o; unfold param, mret, M_ret, throw; naive_solver. Qed.
Lemma learns_refuse_if (I : Db -> Prop) c r : learns I (refuse_if c r) (fun _ => c = false).
Proof. intros w r' w' Hw. destruct c; unfold refuse_if, mret, M_ret, throw; naive_solver. Qed.
Lemma reads_param {A} (o : option A) : reads (param o).
Proof. by destruct o. Qed.
Lemma reads_refuse_if c r : reads (refuse_if c r).
Proof. by destruct c. Qed.
Lemma reads_or_refuse {A} (m : M World DbError A) e : reads m -> reads (or_refuse m e).
Proof. intros Hm. unfold or_refuse. apply reads_bind; [by apply reads_attempt|]. by intros [a|?]. Qed.
Lemma reads_in_x {A} (m : M World DbError A) : reads m -> reads (in_x m).
Proof. intros Hm. unfold in_x. apply reads_bind; [by apply reads_attempt|]. by intros [a|?]. Qed.

Lemma in_x_cases {A} (m : M World DbError A) w r w' :
  in_x m w = (r, w') -> exists r1, m w = (r1, w') /\ forall a, r = Ok a -> r1 = Ok a.
Proof.
  unfold in_x, attempt. rewrite M_bind_unfold. destruct (m w) as [[a|e] w1]; unfold mret, M_ret, throw; intros [= <- <-]; eexists; (split; [done|]); congruence.
Qed.
Lemma in_x_query {A} name (f : Db -> result DbError A) w r w' :
  in_x (query name f) w = (r, w') -> db w' = db w /\ forall a, r = Ok a -> f (db w) = Ok a.
Proof. intros (r1 & [Hd Hq]%query_cases & Hr)%in_x_cases. split; [done|]. intros a Ha. by apply Hq, Hr. Qed.

Lemma param_inv {A} (o : option A) w a w' : param o w = (Ok a, w') -> o = Some a /\ w' = w.
Proof. destruct o; unfold param, mret, M_ret, throw; by intros [= -> ->]. Qed.
Lemma refuse_if_inv c r w a w' : refuse_if c r w = (Ok a, w') -> c = false /\ w' = w.
Proof. destruct c; unfold refuse_if, mret, M_ret, throw; [done|]. by intros [= _ ->]. Qed.
Lemma or_refuse_query {A} name (f : Db -> result DbError A) e w a w' :
  or_refuse (query name f) e w = (Ok a, w') -> db w' = db w /\ f (db w) = Ok a.
Proof.
  unfold or_refuse, attempt. rewrite M_bind_unfold. destruct (query name f w) as [[b|x] w1] eqn:Hq;
    unfold mret, M_ret, throw; [|done]. intros [= <- <-]. apply query_cases in Hq as [Hd Hq]. auto.
Qed.
(** ** Transactions *)
Definition begun (w : World) : World := mkWorld (db w) (statements w ++ ["BEGIN"]).

(** A transaction ends in its body's state exactly when its commit was carried
    out, and an answer other than an error says that it was. *)
Lemma in_tx_run {A} (m : M World TxError A) w r w' :
  in_tx m w = (r, w') ->
  (exists a w1, m (begun w) = (Ok a, w1) /\ db w' = db w1 /\
     (r = Ok a \/ r = Err TxBroken /\ unconfirmed w')) \/
  (db w' = db w /\ exists e, r = Err e /\ (e = TxBroken \/ exists w1, m (begun w) = (Err e, w1))).
Proof.
  unfold in_tx, begun. destruct (served (statements w)); [|naive_solver..].
  destruct (m _) as [[a|e] w1] eqn:Hm; [|naive_solver].
  destruct (served (statements w1)) eqn:Hs; [naive_solver..|]. intros [= <- <-]. left. exists a, w1. split_and!; [done..|].
  right. split; [done|]. exists (statements w1), "COMMIT". split_and!; [done|by left|done].
Qed.

Lemma or_refuse_inv {A} (m : M World DbError A) e w a w' : or_refuse m e w = (Ok a, w') -> m w = (Ok a, w').
Proof.
  unfold or_refuse, attempt. rewrite M_bind_unfold. destruct (m w) as [[b|x] w1]; unfold mret, M_ret, throw; [|done].
  by intros [= -> ->].
Qed.
Lemma require_owner_inv u g w w' :
  require_owner u g w = (Ok tt, w') -> db w' = db w /\ exists m, members (db w) !! (g, u) = Some m /\ Role m = "owner".
Proof.
  unfold require_owner. intros (m & w1 & [Hd Hm]%or_refuse_query & [Hrole ->]%refuse_if_inv)%bind_ok_inv.
  apply negb_false_iff, String.eqb_eq in Hrole. split; [done|]. exists m. split; [|done].
  by destruct (members (db w) !! (g, u)); simplify_eq/=.
Qed.
Lemma authority_tx_ok `{UnicodeTables} {A} (m : M World TxError A) w a w' :
  inCollectiveAuthorityTx m w = (Ok a, w') ->
  exists w1 w2, db w1 = db w /\ m w1 = (Ok a, w2) /\ db w' = db w2.
Proof.
  unfold inCollectiveAuthorityTx. intros [(b & w2 & Hrun & Hd & [[= <-]|[? _]])|[_ (? & ? & _)]]%in_tx_run; [|done..].
  apply bind_ok_inv in Hrun as (x & w1 & Hlock & Hrun). apply in_x_query in Hlock as [Hd1 _]. eauto.
Qed.

Lemma keeps_in_tx {A} (I : Db -> Prop) (m : M World TxError A) :
  keeps (fun w => I (db w)) m -> keeps (fun w => I (db w)) (in_tx m).
Proof.
  intros Hm w Hw. destruct (in_tx m w) as [r w'] eqn:Hr. cbn.
  apply in_tx_run in Hr as [(a & w1 & Hrun & -> & _)|[-> _]]; [|done].
  exact (keeps_run (fun w => I (db w)) m (begun w) _ _ Hm Hw Hrun).
Qed.

Lemma keeps_authority_tx {A} (I : Db -> Prop) (m : M World TxError A) :
  keeps (fun w => I (db w)) m -> keeps (fun w => I (db w)) (inCollectiveAuthorityTx m).
Proof.
  intros Hm. apply keeps_in_tx, keeps_bind; [|done]. apply keeps_in_x, reads_keeps, reads_query.
Qed.

Lemma keeps_mutate {X} gh (I : Db -> Prop) (none : X) id mutation refresh :
  (forall g, keeps (fun w => I (db w)) (mutation g)) ->
  keeps (fun w => I (db w)) (mutate_with gh none id mutation refresh).
Proof.
  intros Hm. unfold mutate_with. apply keeps_bind; [apply keeps_param|]. intros g.
  apply keeps_bind; [|intros [?|[?|]]; eauto with keeps]. apply keeps_attempt, keeps_authority_tx.
  apply keeps_bind; [destruct (refresh && gh); [apply keeps_in_x, reads_keeps, reads_query|apply keeps_ret]|].
  intros _. apply keeps_bind; [by apply keeps_attempt|]. intros [[r x]|r]; case_match; eauto with keeps.
Qed.
Lemma keeps_mutateCollective gh (I : Db -> Prop) id mutation refresh :
  (forall g, keeps (fun w => I (db w)) (mutation g)) ->
  keeps (fun w => I (db w)) (mutateCollective gh id mutation refresh).
Proof.
  intros Hm. unfold mutateCollective. apply keeps_bind; [|intros [? ?]; apply keeps_ret].
  apply keeps_mutate. intros g. apply keeps_bind; [apply Hm|]. intros r. apply keeps_ret.
Qed.

End logic.

#[export] Hint Resolve reads_query reads_ret reads_throw reads_attempt reads_param
  reads_refuse_if reads_or_refuse reads_in_x : reads.
#[export] Hint Resolve keeps_or_refuse keeps_in_x keeps_param keeps_refuse_if keeps_in_tx keeps_authority_tx
  keeps_mutateCollective : keeps.

#[export] Hint Extern 2 (reads _) => apply reads_query : reads.

(** [m] fails only with errors in [P]. *)
Definition fails_with {E A} (P : E -> Prop) (m : M World E A) : Prop := forall w e w', m w = (Err e, w') -> P e.
Definition refusal (r : Response) : Prop := 400 <= code r.
Definition tx_refusal (e : TxError) : Prop := match e with TxRefused r => refusal r | TxBroken => True end.

Section failures.
Context {E : Type} (P : E -> Prop).
Lemma fails_bind {A B} (m : M World E A) (f : A -> M World E B) :
  fails_with P m -> (forall a, fails_with P (f a)) -> fails_with P (m ≫= f).
Proof.
  intros Hm Hf w e w'. rewrite M_bind_unfold. destruct (m w) as [[a|e1] w1] eqn:Hr; [apply Hf|].
  intros [= <- <-]. by eapply Hm.
Qed.
Lemma fails_ret {A} (a : A) : fails_with P (mret a).
Proof. by intros w e w' ?. Qed.
Lemma fails_throw {A} e : P e -> fails_with (A:=A) P (throw e).
Proof. by intros Hp w e' w' [= <- _]. Qed.
Lemma fails_attempt {F A} (m : M World F A) : fails_with P (attempt m).
Proof. intros w e w'. unfold attempt. by destruct (m w). Qed.
End failures.
Lemma fails_or_refuse {A} (m : M World DbError A) e : (forall x, refusal (e x)) -> fails_with refusal (or_refuse m e).
Proof.
  intros He. unfold or_refuse. apply fails_bind; [apply fails_attempt|]. intros [a|x]; [apply fails_ret|by apply fails_throw].
Qed.
Lemma fails_param {A} (o : option A) : fails_with refusal (param o).
Proof. destruct o; [apply fails_ret|by apply fails_throw]. Qed.
Lemma fails_refuse_if c r : refusal r -> fails_with refusal (refuse_if c r).
Proof. intros Hr. destruct c; [by apply fails_throw|apply fails_ret]. Qed.
Lemma fails_in_x {A} (m : M World DbError A) : fails_with tx_refusal (in_x m).
Proof. unfold in_x. apply fails_bind; [apply fails_attempt|]. intros [a|x]; [apply fails_ret|by apply fails_throw]. Qed.
Lemma fails_in_tx `{Env} {A} (m : M World TxError A) : fails_with tx_refusal m -> fails_with tx_refusal (in_tx m).
Proof.
  intros Hm w e w' Hr. apply in_tx_run in Hr as [(a & w1 & _ & _ & [?|[[= ->] _]])|(_ & e' & [= ->] & [->|[w1 Hrun]])];
    [done..|]. by eapply Hm.
Qed.
(** the handler's end after its transaction *)
Lemma fails_after_tx `{Env} {A B} (m : M World TxError A) (f : result TxError A -> M World Response B) :
  fails_with tx_refusal m -> (forall a, fails_with refusal (f (Ok a))) ->
  (forall e, tx_refusal e -> fails_with refusal (f (Err e))) ->
  fails_with refusal (r ← attempt (in_tx m); f r).
Proof.
  intros Hm Hok Herr w e w'. rewrite M_bind_unfold. unfold attempt. destruct (in_tx m w) as [[a|x] w1] eqn:Hr; [apply Hok|].
  apply Herr. by eapply fails_in_tx.
Qed.

(** Walk the binds and cases of a computation, each error in sight. *)
Ltac fails_walk :=
  repeat first
    [ progress intros
    | apply fails_bind
    | apply fails_ret
    | apply fails_param
    | apply fails_in_x
    | apply fails_attempt
    | apply fails_or_refuse
    | apply fails_refuse_if
    | solve [apply fails_throw; done]
    | solve [unfold refusal; cbn; lia]
    | case_match
    | done ].

(** How a mutation ends: its body ran to a success that was committed (the answer
    says so, or that it could not be confirmed), or nothing changed and the answer
    is an error. *)
Lemma mutate_run `{Env, UnicodeTables} {X} gh (none : X) id mutation refresh w r w' :
  mutate_with gh none id mutation refresh w = (r, w') ->
  (exists g w1 rx w2, id = Some g /\ db w1 = db w /\ mutation g w1 = (rx, w2) /\ db w' = db w2 /\
     code (answer rx fst) < 400 /\
     (r = Ok match rx with Ok rx => rx | Err r => (r, none) end \/ r = Err (writeError 500) /\ unconfirmed w')) \/
  (db w' = db w /\ 400 <= code (answer r fst)).
Proof.
  unfold mutate_with. rewrite M_bind_unfold. destruct id as [g|]; [|intros [= <- <-]; right; by split].
  unfold param, mret, M_ret. rewrite M_bind_unfold. unfold attempt at 1, inCollectiveAuthorityTx.
  destruct (in_tx _ w) as [res w1] eqn:Htx. intros Hr.
  assert (db w' = db w1) as -> by (by destruct res as [[? ?]|[?|]]; unfold mret, M_ret, throw in Hr; simplify_eq).
  pose proof Htx as Hfail. apply in_tx_run in Htx as [(a & w2 & Hrun & Hd & Hres)|(Hd & e & -> & He)].
  - left. apply bind_ok_inv in Hrun as (? & w3 & [Hd3 _]%in_x_query & Hrun).
    apply bind_ok_inv in Hrun as (? & w4 & Hgrants & Hrun).
    assert (db w4 = db w3) as Hd4. { destruct (refresh && gh); [by apply in_x_query in Hgrants as [? _]|by injection Hgrants as _ ->]. }
    apply bind_ok_inv in Hrun as (rx & w5 & Hmut & Hrun). apply attempt_inv in Hmut.
    exists g, w4, rx, w5. rewrite Hd4, Hd3, Hd.
    assert (a = match rx with Ok rx => rx | Err r => (r, none) end /\ code (answer rx fst) < 400 /\ db w2 = db w5) as (-> & ? & ?).
    { destruct rx as [[r0 y]|r0]; cbn in Hrun; destruct (400 <=? code r0) eqn:Hcode; unfold throw, mret, M_ret in Hrun;
        simplify_eq; bool_hyps; cbn; (split_and!; [done|lia|done]). }
    assert (w' = w1) as -> by (by destruct Hres as [->|[-> _]]; unfold mret, M_ret, throw in Hr; simplify_eq).
    split_and!; [done..|]. destruct Hres as [->|[-> ?]]; unfold mret, M_ret, throw in Hr; simplify_eq; [by left|by right].
  - right. split; [done|]. apply fails_in_tx in Hfail.
    + destruct e as [r0|]; unfold mret, M_ret, throw in Hr; by simplify_eq.
    + repeat (apply fails_bind; [solve [fails_walk]|intros ?]).
      match goal with |- context [match ?b with Ok _ => _ | Err _ => _ end] => destruct b as [[r0 y]|r0] end;
        destruct (400 <=? code r0) eqn:Hcode; first [apply fails_ret | apply fails_throw; bool_hyps; unfold tx_refusal, refusal; lia].
Qed.

Lemma mutateCollective_run `{Env, UnicodeTables} gh id mutation refresh w r w' :
  mutateCollective gh id mutation refresh w = (r, w') ->
  (exists g w1 rr w2, id = Some g /\ db w1 = db w /\ mutation g w1 = (rr, w2) /\ db w' = db w2 /\
     code (answer rr (fun r => r)) < 400 /\
     (r = Ok (answer rr (fun r => r)) \/ r = Err (writeError 500) /\ unconfirmed w')) \/
  (db w' = db w /\ 400 <= code (answer r (fun r => r))).
Proof.
  unfold mutateCollective. rewrite M_bind_unfold. destruct (mutate_with _ _ _ _ _ w) as [rm w1] eqn:Hm. intros Hr.
  assert (w' = w1 /\ r = match rm with Ok rx => Ok rx.1 | Err e => Err e end) as [-> ->]
    by (by destruct rm as [[? ?]|?]; unfold mret, M_ret in Hr; simplify_eq).
  apply mutate_run in Hm as [(g & w2 & rx & w3 & -> & Hd & Hmut & Hd' & Hc & Hres)|[Hd Hc]]; [left|right; by destruct rm as [[? ?]|?]].
  rewrite M_bind_unfold in Hmut. destruct (mutation g w2) as [rr w4] eqn:Hrun. exists g, w2, rr, w4.
  assert (w3 = w4 /\ rx = match rr with Ok r => Ok (r, tt) | Err e => Err e end) as [-> ->]
    by (by destruct rr; unfold mret, M_ret in Hmut; simplify_eq).
  split_and!; [done..|by destruct rr|]. destruct Hres as [->|[-> ?]]; [left|by right]. by destruct rr.
Qed.

(** Walk the binds and cases of a computation that only reads. *)
Ltac reads_walk :=
  repeat first
    [ progress intros
    | solve [eauto with reads]
    | apply reads_bind
    | apply reads_attempt
    | case_match ].
End CollectiveRoutes.
