(* ===== verification/LedgerLaws.v ===== *)
(** * The share ledger

    What the statements of [CollectiveStore] do to one pair's history. The
    specification is the abstract machine [share_step]: who may submit, decide,
    withdraw and remove, and what each writes; a well-formed history stays one
    along it, and the current-state table stays the projection of the ledger. *)
From S2P Require Import Prelude GoText Regex Governance CollectiveStore Collectives Invitations CollectiveRoutes.

Open Scope string_scope.
Open Scope list_scope.
Open Scope Z_scope.

Module LedgerLaws.
Import Governance CollectiveStore Collectives Invitations CollectiveRoutes.

(** ** The latest event *)
Section latest.
Context (f : Attempt -> bool).

Lemma latest_where_spec h : match latest_where f h with
  | Some (n, a) => h !! n = Some a /\ f a = true /\ forall m b, h !! m = Some b -> f b = true -> m <= n
  | None => forall m b, h !! m = Some b -> f b = false
  end.
Proof.
  unfold latest_where. apply (map_fold_weak_ind (fun r h => match r with
    | Some (n, a) => h !! n = Some a /\ f a = true /\ forall m b, h !! m = Some b -> f b = true -> m <= n
    | None => forall m b, h !! m = Some b -> f b = false
    end)); [by intros|].
  intros n a h' r Hn IH. unfold latest_step. destruct (f a) eqn:Ha.
  - destruct r as [[m b]|].
    + destruct IH as (Hm & Hb & Hall). destruct (m <? n) eqn:Hlt; bool_hyps.
      * split; [by rewrite lookup_insert_eq|]. split; [done|]. intros k c [[-> ->]|[? Hk]]%lookup_insert_Some ?; [lia|].
        specialize (Hall k c Hk). naive_solver lia.
      * split; [by rewrite lookup_insert_ne; naive_solver|]. split; [done|].
        intros k c [[-> ->]|[? Hk]]%lookup_insert_Some ?; [lia|eauto].
    + split; [by rewrite lookup_insert_eq|]. split; [done|].
      intros k c [[-> ->]|[? Hk]]%lookup_insert_Some ?; [lia|]. specialize (IH k c Hk). congruence.
  - destruct r as [[m b]|].
    + destruct IH as (Hm & Hb & Hall). split; [by rewrite lookup_insert_ne; naive_solver|]. split; [done|].
      intros k c [[-> ->]|[? Hk]]%lookup_insert_Some ?; [congruence|eauto].
    + intros k c [[-> ->]|[? Hk]]%lookup_insert_Some; [done|eauto].
Qed.

Lemma latest_where_some h n a :
  latest_where f h = Some (n, a) <->
  h !! n = Some a /\ f a = true /\ forall m b, h !! m = Some b -> f b = true -> m <= n.
Proof.
  pose proof (latest_where_spec h) as Hspec. destruct (latest_where f h) as [[m b]|].
  - destruct Hspec as (Hm & Hb & Hall). split; [by intros [= <- <-]|]. intros (Hn & Ha & Hle).
    assert (m = n) as -> by (apply Z.le_antisymm; eauto). congruence.
  - split; [done|]. intros (Hn & Ha & _). specialize (Hspec n a Hn). congruence.
Qed.

Lemma latest_where_none h : latest_where f h = None <-> forall m b, h !! m = Some b -> f b = false.
Proof.
  pose proof (latest_where_spec h) as Hspec. destruct (latest_where f h) as [[m b]|]; [|done].
  split; [done|]. intros Hall. destruct Hspec as (Hm & Hb & _). rewrite (Hall m b Hm) in Hb. done.
Qed.
End latest.

Lemma latest_some h n a :
  latest h = Some (n, a) <-> h !! n = Some a /\ forall m b, h !! m = Some b -> m <= n.
Proof. unfold latest. rewrite latest_where_some. naive_solver. Qed.
Lemma latest_none h : latest h = None <-> h = ∅.
Proof.
  unfold latest. rewrite latest_where_none. split; [|intros ->; by intros ?? ?%lookup_empty_Some].
  intros Hall. apply map_empty. intros n. destruct (h !! n) eqn:Hn; [|done]. by specialize (Hall n _ Hn).
Qed.

(** ** Well-formed histories *)

(** The ordinals are 1, 2, ..., [k]. *)
Definition dense (h : History) (k : Z) : Prop := 0 <= k /\ forall n, is_Some (h !! n) <-> 1 <= n <= k.
(** Only the last event is undecided. *)
Definition open_is_last (h : History) : Prop :=
  forall n a, h !! n = Some a -> Status a = Pending -> latest h = Some (n, a).
Definition hist_ok (h : History) : Prop := (exists k, dense h k) /\ open_is_last h.

Definition last_num (h : History) : Z := match latest h with Some (n, _) => n | None => 0 end.

Lemma dense_last h k : dense h k -> last_num h = k.
Proof.
  intros [Hk Hd]. unfold last_num. destruct (latest h) as [[n a]|] eqn:Hl.
  - apply latest_some in Hl as [Hn Hmax]. assert (1 <= n <= k) by (apply Hd; eauto).
    assert (is_Some (h !! k)) as [b Hb] by (apply Hd; lia). specialize (Hmax k b Hb). lia.
  - apply latest_none in Hl as ->. destruct (decide (k = 0)) as [->|]; [done|].
    assert (is_Some ((∅ : History) !! k)) as [? Hx] by (apply Hd; lia). by rewrite lookup_empty in Hx.
Qed.

Lemma latest_update h n a b : latest h = Some (n, a) -> latest (<[n := b]> h) = Some (n, b).
Proof.
  intros [Hn Hmax]%latest_some. apply latest_some. split; [by rewrite lookup_insert_eq|].
  intros m c [[-> _]|[? Hm]]%lookup_insert_Some; [lia|eauto].
Qed.

Lemma latest_append h k a : dense h k -> latest (<[k + 1 := a]> h) = Some (k + 1, a).
Proof.
  intros [Hk Hd]. apply latest_some. split; [by rewrite lookup_insert_eq|].
  intros m c [[-> _]|[? Hm]]%lookup_insert_Some; [lia|].
  assert (1 <= m <= k) by (apply Hd; eauto). lia.
Qed.

Lemma hist_ok_empty : hist_ok ∅.
Proof.
  split.
  - exists 0. split; [done|]. intros n. rewrite lookup_empty. split; [by intros [? ?]|lia].
  - by intros n a ?%lookup_empty_Some.
Qed.

Lemma hist_ok_update h n a b :
  hist_ok h -> latest h = Some (n, a) -> hist_ok (<[n := b]> h).
Proof.
  intros [[k Hd] Hopen] Hl. pose proof (latest_update _ _ _ b Hl) as Hl'.
  apply latest_some in Hl as Hn. destruct Hn as [Hn _]. split.
  - exists k. destruct Hd as [Hk Hd]. split; [done|]. intros m. rewrite lookup_insert_is_Some, <- Hd.
    destruct (decide (n = m)) as [<-|]; [|naive_solver]. split; [eauto|by left].
  - intros m c [[<- <-]|[Hne Hm]]%lookup_insert_Some Hc; [done|].
    rewrite (Hopen m c Hm Hc) in Hl. congruence.
Qed.

Lemma hist_ok_append h k a :
  hist_ok h -> dense h k -> (forall n b, h !! n = Some b -> Status b <> Pending) -> hist_ok (<[k + 1 := a]> h).
Proof.
  intros [_ _] Hd Hnone. split.
  - exists (k + 1). destruct Hd as [Hk Hd]. split; [lia|]. intros m. rewrite lookup_insert_is_Some, Hd.
    destruct (decide (k + 1 = m)) as [<-|]; [split; [lia|by left]|]. split; [intros [?|[_ ?]]; lia|].
    intros ?. right. split; [done|lia].
  - intros m c [[<- <-]|[Hne Hm]]%lookup_insert_Some Hc; [by apply latest_append|].
    by destruct (Hnone m c Hm).
Qed.

Lemma live_now_spec h : live_now h = true <-> exists n a, latest h = Some (n, a) /\ is_live (Status a) = true.
Proof. unfold live_now. destruct (latest h) as [[n a]|]; naive_solver. Qed.

Lemma not_live_none_open h : hist_ok h -> live_now h = false -> forall n a, h !! n = Some a -> Status a <> Pending.
Proof.
  intros [_ Hopen] Hl n a Hn Hp. unfold live_now in Hl. rewrite (Hopen n a Hn Hp), Hp in Hl. done.
Qed.

Lemma decided_none_open h n a :
  hist_ok h -> latest h = Some (n, a) -> Status a <> Pending -> forall m b, h !! m = Some b -> Status b <> Pending.
Proof. intros [_ Hopen] Hl Ha m b Hm Hb. rewrite (Hopen m b Hm Hb) in Hl. congruence. Qed.

(** ** The abstract machine *)
Definition owner_of (d : Db) (t : string) : option Z := OwnerID <$> transcripts d !! t.
Definition group_owner (d : Db) (g u : Z) : Prop := exists m, members d !! (g, u) = Some m /\ Role m = "owner".
Definition accepted_member (d : Db) (g u : Z) : Prop :=
  exists m, members d !! (g, u) = Some m /\ member_role (Role m) = true.

Definition project_of (d : Db) (t : string) : option string := ProjectHash <$> transcripts d !! t.

(** The state a submission to a collective opens in: a curated one reviews it
    first. *)
Definition opening_status (group : Group) : ShareState :=
  if String.eqb (AcceptanceMode group) "curated" then Pending else Approved.
Section machine.
Context `{UnicodeTables}.

(** A collective of verified people takes submissions of people of its
    organization, or of any when it names none. *)
Definition admits (d : Db) (u : Z) (group : Group) : Prop :=
  AcceptanceMode group = "verified_only" ->
  exists a, accounts d !! u = Some a /\
    match LinkedGithubOrg group with
    | Some org => if String.eqb org "" then OrgLogins a <> [] else exists o, o ∈ OrgLogins a /\ equal_fold o org = true
    | None => OrgLogins a <> []
    end.
Definition opens_as (d : Db) (u g : Z) (s : ShareState) : Prop :=
  exists group, groups d !! g = Some group /\ s = opening_status group /\ admits d u group.

(** The request submits [t] to [g]: it shares that transcript with that
    collective among others, or a project of the person's own, of which it names
    that transcript or none. *)
Definition submits (d : Db) (u : Z) (op : Operation) (t : string) (g : Z) : Prop :=
  owner_of d t = Some u /\
  match op with
  | OpShare t' (Some gs) => t' = Some t /\ Some g ∈ gs
  | OpBatchShare g' (Some req) => g' = Some g /\ project_of d t = Some (RProjectHash req) /\
      (TranscriptIDs req = [] \/ Some t ∈ TranscriptIDs req)
  | _ => False
  end.

(** The request decides what is open of [t] in [g], as [s]. *)
Definition decides (op : Operation) (t : string) (g : Z) (s : ShareState) : Prop :=
  match op with
  | OpReview g' t' (Some status) => g' = Some g /\ t' = Some t /\ decision_of status = Some s
  | OpBatchReview g' (Some (ts, status)) => g' = Some g /\ Some t ∈ ts /\ decision_of status = Some s
  | _ => False
  end.

(** Who may end a submission, and how: the transcript's owner withdraws it; what
    a member shared is withdrawn as they leave or an owner of the collective
    removes them, when the request or the collective's policy says so; an owner of
    the collective revokes it. *)
Definition may_end (d : Db) (u : Z) (op : Operation) (t : string) (g : Z) (s : ShareState) : Prop :=
  match op with
  | OpUnshare t' g' => s = Retracted /\ t' = Some t /\ g' = Some g /\ owner_of d t = Some u
  | OpRemoveMember g' p retract => s = Retracted /\ g' = Some g /\
      (exists v, p = Some v /\ owner_of d t = Some v /\ (v = u \/ group_owner d g u)) /\
      (retract = true \/ exists group, groups d !! g = Some group /\ TranscriptDeletionPolicy group = "mandatory")
  | OpRemoveTranscript g' t' => s = Revoked /\ g' = Some g /\ t' = Some t /\ group_owner d g u
  | _ => False
  end.

(** One move of the history of transcript [t] in collective [g] by person [u]'s
    request [op], with the authority [d] records. *)
Inductive share_step (d : Db) (u : Z) (op : Operation) (t : string) (g : Z) (h : History) : History -> Prop :=
| Submitted s at_ :
    submits d u op t g -> accepted_member d g u -> opens_as d u g s -> live_now h = false ->
    share_step d u op t g h (<[last_num h + 1 := mkAttempt s at_ None None]> h)
| Decided n a s at_ :
    decides op t g s -> group_owner d g u -> latest h = Some (n, a) -> Status a = Pending ->
    share_step d u op t g h (<[n := decide_attempt s at_ (Some u) a]> h)
| Closed n a s at_ :
    may_end d u op t g s -> latest h = Some (n, a) -> Status a = Pending ->
    share_step d u op t g h (<[n := decide_attempt s at_ None a]> h)
| Ended n a s at_ :
    may_end d u op t g s -> latest h = Some (n, a) -> Status a = Approved ->
    share_step d u op t g h (<[n + 1 := mkAttempt s at_ (Some at_) None]> h)
| Dropped :
    op = OpDelete (Some g) -> group_owner d g u -> share_step d u op t g h ∅.

Lemma opening_status_live group : is_live (opening_status group) = true.
Proof. unfold opening_status. by case_match. Qed.
Lemma opens_live d u g s : opens_as d u g s -> is_live s = true.
Proof. intros (group & _ & -> & _). apply opening_status_live. Qed.

Lemma may_end_decided d u op t g s : may_end d u op t g s -> s = Retracted \/ s = Revoked.
Proof. destruct op; cbn; naive_solver. Qed.
Lemma decision_spec status s : decision_of status = Some s -> s = Approved \/ s = Rejected.
Proof. unfold decision_of. repeat case_match; naive_solver. Qed.

Lemma share_step_ok d u op t g h h' : hist_ok h -> share_step d u op t g h h' -> hist_ok h'.
Proof.
  intros Hok Hs. destruct (proj1 Hok) as [k Hk].
  destruct Hs as [s at_ _ _ _ Hlive|n a s at_ _ _ Hl _|n a s at_ _ Hl _|n a s at_ _ Hl Ha|_ _].
  - rewrite (dense_last _ _ Hk). apply hist_ok_append; [done..|]. by apply not_live_none_open.
  - by eapply hist_ok_update.
  - by eapply hist_ok_update.
  - assert (n = k) as ->.
    { rewrite <- (dense_last _ _ Hk). unfold last_num. by rewrite Hl. }
    apply hist_ok_append; [done..|]. eapply decided_none_open; [done..|congruence].
  - apply hist_ok_empty.
Qed.

(** The events of [h] are those of [h'], the decided ones unchanged and the open
    one decided at most, and then nothing else of it changed. *)
Definition extends (h h' : History) : Prop := forall n a, h !! n = Some a ->
  exists a', h' !! n = Some a' /\ RecordedAt a' = RecordedAt a /\ (Status a <> Pending -> a' = a).
#[export] Instance extends_preorder : PreOrder extends.
Proof.
  split; [by intros h n a Hn; exists a|]. intros h1 h2 h3 H12 H23 n a Hn.
  destruct (H12 n a Hn) as (a2 & Hn2 & Hr2 & Hd2). destruct (H23 n a2 Hn2) as (a3 & Hn3 & Hr3 & Hd3).
  exists a3. split_and!; [done|congruence|]. intros Ha. specialize (Hd2 Ha). subst. by apply Hd3.
Qed.

Lemma extends_append h k a : dense h k -> extends h (<[k + 1 := a]> h).
Proof.
  intros [_ Hk] n b Hn. exists b. split_and!; [|done..]. assert (1 <= n <= k) by (apply Hk; eauto).
  rewrite lookup_insert_ne; [done|lia].
Qed.
Lemma extends_decide h n a s at_ by_ :
  latest h = Some (n, a) -> Status a = Pending -> extends h (<[n := decide_attempt s at_ by_ a]> h).
Proof.
  intros [Hn _]%latest_some Ha m b Hm. destruct (decide (n = m)) as [<-|Hne].
  - rewrite lookup_insert_eq. exists (decide_attempt s at_ by_ a). assert (a = b) as -> by congruence. naive_solver.
  - rewrite lookup_insert_ne by done. by exists b.
Qed.

(** What was decided is never rewritten, and no event disappears but with its
    collective. *)
Lemma share_step_extends d u op t g h h' :
  share_step d u op t g h h' -> hist_ok h -> extends h h' \/ op = OpDelete (Some g).
Proof.
  intros Hs [[k Hk] _]. pose proof (dense_last _ _ Hk) as Hlast.
  destruct Hs as [s at_ _ _ _ _|m b s at_ _ _ Hl Hb|m b s at_ _ Hl Hb|m b s at_ _ Hl Hb|Hop _];
    [left..|by right].
  - rewrite Hlast. by apply extends_append.
  - by apply extends_decide.
  - by apply extends_decide.
  - unfold last_num in Hlast. rewrite Hl in Hlast. subst. by apply extends_append.
Qed.
Lemma share_steps_extend d u op t g h h' :
  rtc (share_step d u op t g) h h' -> hist_ok h -> extends h h' \/ op = OpDelete (Some g).
Proof.
  induction 1 as [h|h1 h2 h3 Hs Hrest IH]; intros Hok; [by left|].
  pose proof (share_step_ok _ _ _ _ _ _ _ Hok Hs) as Hok2. apply share_step_extends in Hs as [H12|?]; [|by right|done].
  destruct (IH Hok2) as [H23|?]; [left; by etrans|by right].
Qed.

(** ** The statements move along it *)

(** [trg_derive_transcript_share] has kept the current-state table. *)
Definition projected (d : Db) : Prop := forall t g, shares d !! (t, g) = project (history d t g).
Definition ledger_ok (d : Db) : Prop := projected d /\ forall t g, hist_ok (history d t g).

(** From [d] to [d'] every pair moved along the machine, under the authority of
    [d0]. *)
Definition moved (d0 : Db) (u : Z) (op : Operation) (d d' : Db) : Prop :=
  ledger_ok d -> ledger_ok d' /\ forall t g, rtc (share_step d0 u op t g) (history d t g) (history d' t g).

#[export] Instance moved_preorder d0 u op : PreOrder (moved d0 u op).
Proof.
  split; [by intros d Hok|]. intros d1 d2 d3 H12 H23 Hok. destruct (H12 Hok) as [Hok2 Hs12].
  destruct (H23 Hok2) as [Hok3 Hs23]. split; [done|]. intros t g. transitivity (history d2 t g); [apply Hs12|apply Hs23].
Qed.

Lemma history_set t g h d t' g' :
  history (set_history t g h d) t' g' = if decide ((t, g) = (t', g')) then h else history d t' g'.
Proof.
  unfold history, set_history. cbn [ledger set_ledger]. destruct (decide ((t, g) = (t', g'))) as [<-|Hne].
  - by rewrite lookup_insert_eq.
  - by rewrite lookup_insert_ne.
Qed.

Lemma projected_set t g h d : projected d -> projected (set_history t g h d).
Proof.
  intros Hp t' g'. rewrite history_set. unfold set_history. cbn [shares set_ledger].
  destruct (decide ((t, g) = (t', g'))) as [<-|Hne].
  - by rewrite lookup_partial_alter_eq.
  - by rewrite lookup_partial_alter_ne.
Qed.

Lemma moved_set d0 u op t g h d :
  (ledger_ok d -> share_step d0 u op t g (history d t g) h) -> moved d0 u op d (set_history t g h d).
Proof.
  intros Hstep [Hp Hh]. specialize (Hstep (conj Hp Hh)). split; [split; [by apply projected_set|]|].
  - intros t' g'. rewrite history_set. destruct (decide ((t, g) = (t', g'))) as [[= <- <-]|]; [|apply Hh]. eapply share_step_ok; [apply Hh|exact Hstep].
  - intros t' g'. rewrite history_set. destruct (decide ((t, g) = (t', g'))) as [[= <- <-]|]; [|done]. by apply rtc_once.
Qed.

Lemma moved_same d0 u op d d' : ledger d' = ledger d -> shares d' = shares d -> moved d0 u op d d'.
Proof.
  intros Hl Hs [Hp Hh]. unfold ledger_ok, projected, history in *. rewrite Hl, Hs. split; [by split|]. intros t g. apply rtc_refl.
Qed.

Lemma insert_attempt_inv t g n a d d' :
  insert_attempt t g n a d = Ok d' ->
  history d t g !! n = None /\ d' = set_history t g (<[n := a]> (history d t g)) d /\
  is_Some (transcripts d !! t) /\ is_Some (groups d !! g) /\ 1 <= n.
Proof.
  unfold insert_attempt. intros Hi. destruct (transcripts d !! t) as [row|]; [|done].
  destruct (groups d !! g) as [grp|]; [|done]. destruct (n <? 1) eqn:Hn; [done|]. bool_hyps. cbn in Hi.
  destruct (history d t g !! n) eqn:Hh; [done|]. cbn in Hi. case_match; [done|]. simplify_eq. eauto 10.
Qed.

Lemma share_with_status_moved d0 u op t g s d d' :
  submits d0 u op t g -> accepted_member d0 g u -> opens_as d0 u g s -> live_now (history d t g) = false ->
  share_with_status t g s d = Ok d' -> moved d0 u op d d'.
Proof.
  unfold share_with_status. intros Ho Hm Hs Hl (_ & -> & _)%insert_attempt_inv. apply moved_set. intros _.
  by apply (Submitted d0 u op t g (history d t g) s (now d)).
Qed.

(** The latest live event of a well-formed history is undecided only if it is
    the last. *)
Lemma close_live_moved d0 u op s t g d d' :
  may_end d0 u op t g s -> close_live s t g d = Ok d' -> moved d0 u op d d'.
Proof.
  unfold close_live. intros Hm Hc. destruct (latest_where _ _) as [[n a]|] eqn:Hl; [|by simplify_eq].
  apply latest_where_some in Hl as (Hn & Hlive & Hmax). destruct (is_pending (Status a)) eqn:Hp.
  - unfold is_pending in Hp. bool_hyps. simplify_eq. apply moved_set. intros [_ Hok].
    destruct (Hok t g) as [_ Hopen]. by apply (Closed d0 u op t g _ n a s (now d)); [|apply Hopen|].
  - unfold is_pending in Hp. bool_hyps. apply insert_attempt_inv in Hc as (Hfree & -> & _).
    apply moved_set. intros [_ Hok]. destruct (Hok t g) as [[k [Hk Hd]] _]. apply (Ended d0 u op t g _ n a s (now d)); [done| |by destruct (Status a)].
    assert (1 <= n <= k) by (apply Hd; eauto). assert (n = k) as ->.
    { destruct (decide (n = k)); [done|]. assert (is_Some (history d t g !! (n + 1))) as [? ?] by (apply Hd; lia). congruence. }
    apply latest_some. split; [done|]. intros m b Hb. assert (1 <= m <= k) by (apply Hd; eauto). lia.
Qed.

Lemma close_all_moved d0 u op s g ts d d' :
  (forall t, t ∈ ts -> may_end d0 u op t g s) -> close_all s g ts d = Ok d' -> moved d0 u op d d'.
Proof.
  revert d. induction ts as [|t ts IH]; intros d Hm Hc; [by simplify_eq/=|].
  cbn in Hc. apply result_bind_ok in Hc as (d1 & H1 & H2). transitivity d1.
  - eapply close_live_moved; [|done]. apply Hm. left.
  - eapply IH; [|done]. intros t' ?. apply Hm. by right.
Qed.

(** Only the one open event of a well-formed history is decided. *)
Lemma decide_fmap h n a s at_ by_ :
  hist_ok h -> latest h = Some (n, a) -> Status a = Pending ->
  (fun b => if is_pending (Status b) then decide_attempt s at_ by_ b else b) <$> h = <[n := decide_attempt s at_ by_ a]> h.
Proof.
  intros [_ Hopen] Hl Ha. apply latest_some in Hl as Hn. destruct Hn as [Hn _]. apply map_eq. intros m.
  rewrite lookup_fmap. destruct (decide (n = m)) as [<-|Hne].
  - rewrite lookup_insert_eq, Hn. cbn. unfold is_pending. by rewrite bool_decide_eq_true_2.
  - rewrite lookup_insert_ne by done. destruct (h !! m) as [b|] eqn:Hb; [|done]. cbn. f_equal.
    unfold is_pending. rewrite bool_decide_eq_false_2; [done|]. intros Hp. rewrite (Hopen m b Hb Hp) in Hl. congruence.
Qed.

Lemma decide_open_moved d0 u op s t g d :
  group_owner d0 g u -> decides op t g s -> moved d0 u op d (decide_open s u t g d).
Proof.
  intros Ho Hs. unfold decide_open. destruct (latest_where _ _) as [[n a]|] eqn:Hl; [|done]. cbn [is_some_b].
  apply moved_set. intros [_ Hok]. apply latest_where_some in Hl as (Hn & Hp & _).
  unfold is_pending in Hp. bool_hyps. assert (latest (history d t g) = Some (n, a)) as Hlast by (by apply (Hok t g)).
  rewrite (decide_fmap _ n a) by done. by apply Decided.
Qed.

Lemma decide_all_moved d0 u op s ts g d :
  group_owner d0 g u -> (forall t, t ∈ ts -> decides op t g s) ->
  moved d0 u op d (foldr (fun t d => decide_open s u t g d) d ts).
Proof.
  intros Ho Hs. induction ts as [|t ts IH]; [done|]. cbn [foldr]. etrans; [apply IH; intros; apply Hs; by right|].
  apply decide_open_moved; [done|]. apply Hs. by left.
Qed.

Lemma history_drop g d t g' : history (drop_group g d) t g' = if decide (g' = g) then ∅ else history d t g'.
Proof.
  unfold history, drop_group. cbn [ledger]. case_decide as Hg.
  - subst. assert (filter (fun p : string * Z * History => negb (p.1.2 =? g) = true) (ledger d) !! (t, g) = None) as ->; [|done].
    apply map_lookup_filter_None. right. intros h _. cbn. by rewrite Z.eqb_refl.
  - f_equal. apply option_eq. intros h. rewrite map_lookup_filter_Some. cbn.
    rewrite (proj2 (Z.eqb_neq g' g) Hg). naive_solver.
Qed.

Lemma drop_group_moved d0 u g d : group_owner d0 g u -> moved d0 u (OpDelete (Some g)) d (drop_group g d).
Proof.
  intros Ho [Hp Hh]. split; [split|].
  - intros t g'. rewrite history_drop. unfold drop_group. cbn [shares]. case_decide as Hg.
    + subst. apply map_lookup_filter_None. right. intros h _. cbn. by rewrite Z.eqb_refl.
    + rewrite <- Hp. apply option_eq. intros x. rewrite map_lookup_filter_Some. cbn.
      rewrite (proj2 (Z.eqb_neq g' g) Hg). naive_solver.
  - intros t g'. rewrite history_drop. case_decide; [apply hist_ok_empty|done].
  - intros t g'. rewrite history_drop. case_decide; [|done]. subst. apply rtc_once. by apply Dropped.
Qed.

End machine.

(** ** They write nothing else *)
Definition ledger_only (d d' : Db) : Prop := d' = set_ledger (ledger d') (shares d') d.
#[export] Instance ledger_only_preorder : PreOrder ledger_only.
Proof.
  split; [by intros []|]. intros d1 d2 d3 H12 H23. unfold ledger_only in *.
  rewrite H23. rewrite H12 at 1. done.
Qed.

Lemma set_history_only t g h d : ledger_only d (set_history t g h d).
Proof. done. Qed.
Lemma insert_attempt_only t g n a d d' : insert_attempt t g n a d = Ok d' -> ledger_only d d'.
Proof. by intros (_ & -> & _)%insert_attempt_inv. Qed.
Lemma close_live_only s t g d d' : close_live s t g d = Ok d' -> ledger_only d d'.
Proof.
  unfold close_live. destruct (latest_where _ _) as [[n a]|]; [|by intros [= ->]].
  case_match; [by intros [= <-]|apply insert_attempt_only].
Qed.
Lemma close_all_only s g ts d d' : close_all s g ts d = Ok d' -> ledger_only d d'.
Proof.
  revert d. induction ts as [|t ts IH]; intros d; [by intros [= ->]|].
  intros (d1 & H1 & H2)%result_bind_ok. transitivity d1; [by eapply close_live_only|eauto].
Qed.
Lemma decide_open_only s u t g d : ledger_only d (decide_open s u t g d).
Proof. unfold decide_open. by case_match. Qed.
Lemma decide_all_only s u g ts d : ledger_only d (foldr (fun t d => decide_open s u t g d) d ts).
Proof. induction ts as [|t ts IH]; [done|]. cbn [foldr]. etrans; [apply IH|apply decide_open_only]. Qed.

Lemma insert_member_inv g v m d d' :
  insert_member g v m d = Ok d' ->
  d' = set_members (<[(g, v) := m]> (members d)) d /\ members d !! (g, v) = None /\ is_Some (groups d !! g).
Proof.
  unfold insert_member. intros Hi. destruct (groups d !! g); [|done]. destruct (accounts d !! v); [|done]. cbn in Hi.
  destruct (members d !! (g, v)); [done|]. by simplify_eq/=.
Qed.

(** ** What a run leaves alone *)
Section fixes.
Context `{Env} {T : Type} (V : Db -> T) (x : T).
Lemma fixes_stmt {A} name (f : Db -> result DbError (A * Db)) :
  (forall d a d', f d = Ok (a, d') -> V d' = V d) -> keeps (fun w => V (db w) = x) (stmt name f).
Proof. intros Hf. apply (keeps_statement (fun d => V d = x)). intros d a d' <- Hd. by eapply Hf. Qed.
Lemma fixes_auto {A} name (f : Db -> result DbError (A * Db)) :
  (forall d a d', f d = Ok (a, d') -> V d' = V d) -> keeps (fun w => V (db w) = x) (autocommitted name f).
Proof. intros Hf. apply (keeps_auto (fun d => V d = x)). intros d a d' <- Hd. by eapply Hf. Qed.
Lemma fixes_reads {E A} (m : M World E A) : reads m -> keeps (fun w => V (db w) = x) m.
Proof. apply (reads_keeps (fun d => V d = x)). Qed.
Lemma fixes_tx {A} (m : M World TxError A) :
  keeps (fun w => V (db w) = x) m -> keeps (fun w => V (db w) = x) (in_tx m).
Proof. apply (keeps_in_tx (fun d => V d = x)). Qed.
Lemma fixes_authority_tx {A} (m : M World TxError A) :
  keeps (fun w => V (db w) = x) m -> keeps (fun w => V (db w) = x) (inCollectiveAuthorityTx m).
Proof. apply (keeps_authority_tx (fun d => V d = x)). Qed.
Lemma fixes_mutate {X} gh (none : X) id mutation refresh :
  (forall g, keeps (fun w => V (db w) = x) (mutation g)) ->
  keeps (fun w => V (db w) = x) (mutate_with gh none id mutation refresh).
Proof. apply (keeps_mutate gh (fun d => V d = x)). Qed.
Lemma fixes_mutateCollective gh id mutation refresh :
  (forall g, keeps (fun w => V (db w) = x) (mutation g)) ->
  keeps (fun w => V (db w) = x) (mutateCollective gh id mutation refresh).
Proof. apply (keeps_mutateCollective gh (fun d => V d = x)). Qed.
End fixes.

(** ** When a withdrawal fails *)

(** The latest live event is not the last one, and it was accepted. *)
Definition stale_acceptance (h : History) : bool :=
  match latest_where (fun a => is_live (Status a)) h with
  | Some (n, a) => negb (is_pending (Status a)) && is_some_b (h !! (n + 1))
  | None => false
  end.

Lemma close_live_fails s t g d :
  stale_acceptance (history d t g) = true -> exists e, close_live s t g d = Err e.
Proof.
  unfold stale_acceptance, close_live. destruct (latest_where _ _) as [[n a]|]; [|done]. intros Hb. bool_hyps.
  rewrite H. cbn [negb]. unfold insert_attempt. case_match; [eauto|]. rewrite H0. eauto.
Qed.

(** Close a goal about a statement that leaves a table alone. *)
Ltac fixes_stmt_tac :=
  first [apply fixes_stmt | apply fixes_auto]; let Hf := fresh "Hf" in intros ? ? ? Hf; cbn in Hf;
  repeat match type of Hf with
  | context [insert_member ?g ?v ?m ?d] =>
      let Hi := fresh "Hi" in destruct (insert_member g v m d) eqn:Hi; [apply insert_member_inv in Hi as [-> _]|]; cbn in Hf
  | context [share_with_status ?t ?g ?s ?d] =>
      let Hi := fresh "Hi" in destruct (share_with_status t g s d) eqn:Hi;
      [apply insert_attempt_only in Hi; rewrite Hi in Hf|done]; cbn in Hf
  | context [close_live ?s ?t ?g ?d] =>
      let Hi := fresh "Hi" in destruct (close_live s t g d) eqn:Hi; [apply close_live_only in Hi; rewrite Hi in Hf|done]; cbn in Hf
  | context [close_all ?s ?g ?ts ?d] =>
      let Hi := fresh "Hi" in destruct (close_all s g ts d) eqn:Hi; [apply close_all_only in Hi; rewrite Hi in Hf|done]; cbn in Hf
  | context [decide_open ?s ?v ?t ?g ?d] => rewrite (decide_open_only s v t g d) in Hf; cbn in Hf
  | context [foldr ?f ?d ?ts] => rewrite (decide_all_only _ _ _ ts d : foldr f d ts = _) in Hf; cbn in Hf
  end;
  repeat (case_match; simplify_eq/=; try done); simplify_eq/=; try done.
Ltac fixes_walk :=
  repeat first
    [ progress intros
    | solve [eauto with keeps]
    | apply fixes_mutate
    | apply fixes_mutateCollective
    | apply keeps_bind
    | apply keeps_attempt
    | apply keeps_or_refuse
    | apply keeps_in_x
    | apply fixes_authority_tx
    | apply fixes_tx
    | solve [apply fixes_reads; reads_walk]
    | solve [fixes_stmt_tac]
    | case_match ].
End LedgerLaws.
