(* ===== verification/CollectiveLaws.v ===== *)
(** * What the operations on collectives guarantee

    Every operation moves every share along the abstract machine of
    [LedgerLaws] under its caller's own authority, keeps the ledger well formed
    and the current-state table its projection; a refused one changed nothing;
    visibility is widened by the owner alone. *)
From S2P Require Import Prelude GoText Regex Governance CollectiveStore Collectives Invitations CollectiveRoutes LedgerLaws.

Open Scope string_scope.
Open Scope list_scope.
Open Scope Z_scope.

Module CollectiveLaws.
Import Governance CollectiveStore Collectives Invitations CollectiveRoutes LedgerLaws.

Section refinement.
Context `{Env, UnicodeTables}.
Context (d0 : Db) (u : Z) (op : Operation).

(** The state of a run that began in [d0]: shares moved, the authority they are
    judged by did not. *)
Definition tracks (d : Db) : Prop :=
  (members d = members d0 /\ groups d = groups d0 /\ accounts d = accounts d0) /\
  (forall t, owner_of d t = owner_of d0 t /\ project_of d t = project_of d0 t) /\ moved d0 u op d0 d.
Notation Tracks := (fun w => tracks (db w)).

Lemma tracks_refl : tracks d0.
Proof. by split_and!. Qed.

Lemma tracks_moved d d' : tracks d -> ledger_only d d' -> moved d0 u op d d' -> tracks d'.
Proof.
  intros (Hsame & Ho & Hmv) Honly Hstep. split; [by rewrite Honly|]. split; [|by transitivity d].
  intros t. rewrite Honly. apply Ho.
Qed.

Lemma learns_owner_of (I : Db -> Prop) g :
  (forall d, I d -> members d = members d0) -> learns I (require_owner u g) (fun _ => group_owner d0 g u).
Proof.
  intros HI w r w' Hw. unfold require_owner, or_refuse, attempt. rewrite !M_bind_unfold.
  destruct (GetGroupMember g u w) as [rm w1] eqn:Hq. apply query_cases in Hq as [Hd Hr].
  destruct rm as [m|e]; unfold mret, M_ret, throw, refuse_if.
  - specialize (Hr m eq_refl). cbv [negb]. destruct (String.eqb (Role m) "owner") eqn:Hrole.
    + intros [= <- <-]. rewrite Hd. split; [done|]. intros _ _.
      rewrite (HI _ Hw) in Hr. apply String.eqb_eq in Hrole. exists m. split; [|done].
      by destruct (members d0 !! (g, u)); simplify_eq/=.
    + intros [= <- <-]. rewrite Hd. by split.
  - intros [= <- <-]. rewrite Hd. by split.
Qed.

Lemma learns_owner g : learns tracks (require_owner u g) (fun _ => group_owner d0 g u).
Proof. apply learns_owner_of. by intros d ((? & _) & _). Qed.

Lemma reads_membership v org : reads (hasOrgMembership v org).
Proof. unfold hasOrgMembership, ListUserAllOrgs. reads_walk. Qed.
Lemma reads_any_membership v : reads (hasAnyOrgMembership v).
Proof. unfold hasAnyOrgMembership, ListUserAllOrgs. reads_walk. Qed.
#[local] Hint Resolve reads_membership reads_any_membership : reads.
Lemma reads_shareStatus {E} v grp : reads (shareStatusForGroup v grp : M World E _).
Proof. unfold shareStatusForGroup. reads_walk. Qed.
#[local] Hint Resolve reads_shareStatus : reads.
Lemma reads_finalShareStatus g : reads (finalShareStatus u g).
Proof. unfold finalShareStatus, GetGroupMember, GetGroupByID. reads_walk. Qed.
Lemma reads_latest t g : reads (latest_is_live t g).
Proof. unfold latest_is_live, GetLatestShareAttempt. reads_walk. Qed.
#[local] Hint Resolve reads_finalShareStatus reads_latest : reads.

Lemma membership_spec v org w w' :
  hasOrgMembership v org w = (Ok true, w') ->
  exists a, accounts (db w) !! v = Some a /\ exists o, o ∈ OrgLogins a /\ equal_fold o org = true.
Proof.
  unfold hasOrgMembership, ListUserAllOrgs. intros (orgs & w1 & [_ Hq]%query_cases & Hr)%bind_ok_inv.
  specialize (Hq _ eq_refl). injection Hq as <-. unfold mret, M_ret in Hr. injection Hr as Hr _.
  destruct (accounts (db w) !! v) as [a|]; [|done]. exists a. split; [done|].
  apply existsb_exists in Hr as (o & Ho%list_elem_of_In & Hfold). eauto.
Qed.
Lemma any_membership_spec v w w' :
  hasAnyOrgMembership v w = (Ok true, w') -> exists a, accounts (db w) !! v = Some a /\ OrgLogins a <> [].
Proof.
  unfold hasAnyOrgMembership, ListUserAllOrgs. intros (orgs & w1 & [_ Hq]%query_cases & Hr)%bind_ok_inv.
  specialize (Hq _ eq_refl). injection Hq as <-. unfold mret, M_ret in Hr. injection Hr as Hr _. bool_hyps.
  destruct (accounts (db w) !! v) as [a|]; [|done]. eauto.
Qed.

Lemma shareStatus_spec {E} v grp w s w' :
  (shareStatusForGroup v grp : M World E _) w = (Ok (Some s), w') -> s = opening_status grp /\ admits (db w) v grp.
Proof.
  unfold shareStatusForGroup, opening_status, admits. destruct (String.eqb_spec (AcceptanceMode grp) "verified_only") as [->|Hne];
    [|case_match; intros [= <- _]; (split; [done|]); intros Hv; by rewrite Hv in Hne].
  intros (verified & w1 & Hv%attempt_inv & Hr)%bind_ok_inv. unfold mret, M_ret in Hr.
  destruct verified as [[|]|]; simplify_eq. split; [done|]. intros _.
  destruct (LinkedGithubOrg grp) as [org|]; [destruct (String.eqb org "")|].
  - by apply any_membership_spec in Hv.
  - by apply membership_spec in Hv.
  - by apply any_membership_spec in Hv.
Qed.

Lemma final_status_spec g w s w' :
  finalShareStatus u g w = (Ok s, w') -> accepted_member (db w) g u /\ opens_as (db w) u g s.
Proof.
  unfold finalShareStatus. intros (rm & w1 & Hm & Hr)%bind_ok_inv. apply attempt_inv in Hm.
  apply query_cases in Hm as [Hd Hm]. destruct rm as [m|e]; [|by case_match].
  specialize (Hm m eq_refl). destruct (negb (member_role (Role m))) eqn:Hrole; [done|].
  apply bind_ok_inv in Hr as (grp & w2 & Hg & Hr). apply in_x_query in Hg as [Hd2 Hg].
  apply bind_ok_inv in Hr as (st & w3 & Hs & Hr). destruct st as [s'|]; [|done]. unfold mret, M_ret in Hr. simplify_eq.
  specialize (Hg _ eq_refl). apply shareStatus_spec in Hs as [Hs Hadm]. rewrite Hd2, Hd in Hadm. rewrite Hd in Hg. split.
  - exists m. bool_hyps. split; [|done]. by destruct (members (db w) !! (g, u)); simplify_eq/=.
  - exists grp. split_and!; [by destruct (groups (db w) !! g); simplify_eq/=|done|done].
Qed.

Lemma latest_live_spec t g w b w' :
  latest_is_live t g w = (Ok b, w') -> b = live_now (history (db w) t g).
Proof.
  unfold latest_is_live. intros (r & w1 & Hq & Hr)%bind_ok_inv. apply attempt_inv in Hq.
  pose proof Hq as Hq'. apply query_cases in Hq as [Hd Hq]. unfold live_now.
  destruct r as [[n a]|[| |]]; try done.
  - specialize (Hq _ eq_refl). destruct (latest _) as [[m b']|]; simplify_eq/=. unfold mret, M_ret in Hr. by simplify_eq.
  - unfold mret, M_ret in Hr. simplify_eq. unfold GetLatestShareAttempt, query, stmt in Hq'.
    destruct (served _); [|done..]. by destruct (latest _) as [[? ?]|].
Qed.

(** ** Sharing *)
Definition target_ok (d : Db) (t : string) (x : Z * ShareState * bool) : Prop :=
  accepted_member d x.1.1 u /\ opens_as d u x.1.1 x.1.2 /\ x.2 = live_now (history d t x.1.1).

Lemma reads_targets t gs : reads (read_targets u t gs).
Proof. induction gs as [|g gs IH]; cbn [read_targets]; reads_walk. Qed.

Lemma read_targets_spec t gs : forall w targets w',
  read_targets u t gs w = (Ok targets, w') ->
  targets.*1.*1 = gs /\ Forall (target_ok (db w) t) targets.
Proof.
  induction gs as [|g gs IH]; cbn [read_targets]; intros w targets w' Hr; [by unfold mret, M_ret in Hr; simplify_eq|].
  apply bind_ok_inv in Hr as (s & w1 & Hs & Hr). apply bind_ok_inv in Hr as (live & w2 & Hl & Hr).
  apply bind_ok_inv in Hr as (rest & w3 & Hrest & Hr). unfold mret, M_ret in Hr. simplify_eq.
  apply (reads_run _ _ _ _ (reads_finalShareStatus g)) in Hs as Hd1.
  apply (reads_run _ _ _ _ (reads_latest t g)) in Hl as Hd2.
  apply final_status_spec in Hs as [Hacc Hlive]. apply latest_live_spec in Hl.
  destruct (IH _ _ _ Hrest) as [<- Hall]. rewrite Hd2, Hd1 in Hall. rewrite Hd1 in Hl. split; [done|]. constructor; [|done]. by split_and!.
Qed.

Lemma open_attempt_cases t g s w r w' :
  open_attempt t g s w = (r, w') ->
  (r = Ok tt /\ share_with_status t g s (db w) = Ok (db w')) \/ (db w' = db w /\ exists e, r = Err e).
Proof.
  unfold open_attempt, attempt. rewrite M_bind_unfold. destruct (ShareTranscriptWithStatus t g s w) as [r1 w1] eqn:Hs.
  apply stmt_cases in Hs as [(a & d' & Hf & -> & Hd)|(e & -> & Hd)].
  - unfold mret, M_ret. intros [= <- <-]. left. apply result_bind_ok in Hf as (d1 & Hf & Hd'). rewrite Hd. by simplify_eq/=.
  - intros Hr. right. by repeat case_match; unfold throw in Hr; simplify_eq; eauto.
Qed.

Lemma share_with_status_other t g s d d' t' g' :
  share_with_status t g s d = Ok d' -> (t', g') <> (t, g) -> history d' t' g' = history d t' g'.
Proof. intros (_ & -> & _)%insert_attempt_inv Hne. rewrite history_set. by rewrite decide_False. Qed.

Lemma open_targets_tracks t targets : forall w r w',
  (forall g, g ∈ targets.*1.*1 -> submits d0 u op t g) -> NoDup targets.*1.*1 -> Forall (target_ok (db w) t) targets ->
  tracks (db w) -> open_targets t targets w = (r, w') -> tracks (db w').
Proof.
  induction targets as [|[[g s] live] rest IH]; cbn [open_targets]; intros w r w' Ho Hnd Hall Hw Hr; [by unfold mret, M_ret in Hr; simplify_eq|].
  apply NoDup_cons in Hnd as [Hnotin Hnd]. apply Forall_cons in Hall as [(Hacc & Hlive & Hnow) Hall]. cbn in *.
  assert (forall g, g ∈ rest.*1.*1 -> submits d0 u op t g) as Hrestok by (intros g' ?; apply Ho; by right).
  destruct live; [by eapply IH|].
  rewrite M_bind_unfold in Hr. destruct (open_attempt t g s w) as [r1 w1] eqn:Hopen.
  apply open_attempt_cases in Hopen as [[-> Hs]|[Hd [e ->]]]; [|simplify_eq; by rewrite Hd].
  assert (tracks (db w1)) as Hw1.
  { eapply tracks_moved; [done|by eapply insert_attempt_only|]. destruct Hw as ((Hm & Hg & Hacs) & _).
    eapply share_with_status_moved; [|..|done|done].
    - apply Ho. by left.
    - unfold accepted_member in *. by rewrite <- Hm.
    - unfold opens_as, admits in *. by rewrite <- Hg, <- Hacs. }
  assert (Forall (target_ok (db w1) t) rest) as Hrest.
  { apply Forall_forall. intros [[g' s'] live'] Hin. rewrite Forall_forall in Hall. destruct (Hall _ Hin) as (Ha & Hl & Hn).
    cbn in *. split_and!; cbn; [| |].
    - unfold accepted_member in *. destruct Hw1 as ((Hm1 & _) & _), Hw as ((Hm & _) & _). by rewrite Hm1, <- Hm.
    - unfold opens_as, admits. by rewrite (insert_attempt_only _ _ _ _ _ _ Hs).
    - erewrite share_with_status_other; [done..|]. intros [= <-]. apply Hnotin.
      apply list_elem_of_fmap. exists (g', s'). split; [done|]. apply list_elem_of_fmap. by exists (g', s', live'). }
  rewrite M_bind_unfold in Hr. destruct (open_targets t rest w1) as [r2 w2] eqn:Hrest2.
  specialize (IH _ _ _ Hrestok Hnd Hrest Hw1 Hrest2). destruct r2; unfold mret, M_ret in Hr; by simplify_eq.
Qed.

Lemma learns_transcript_owner t :
  learns tracks (GetTranscriptByID t) (fun row => owner_of d0 t = Some (OwnerID row) /\ project_of d0 t = Some (ProjectHash row)).
Proof.
  apply learns_query. intros d row (_ & Ho & _) Hr. rewrite <- (proj1 (Ho t)), <- (proj2 (Ho t)). unfold owner_of, project_of.
  by destruct (transcripts d !! t); simplify_eq/=.
Qed.

Lemma metadata_tracks t title description visibility license :
  keeps Tracks (UpdateTranscriptMetadata t title description visibility license).
Proof.
  apply (keeps_statement tracks). intros d a d' (Hm & Ho & Hmv) Hf. destruct (transcripts d !! t) as [row|] eqn:Ht; [|done].
  injection Hf as <- <-. split; [exact Hm|]. split; [|by (etrans; [exact Hmv|by apply moved_same])].
  intros t'. rewrite <- (proj1 (Ho t')), <- (proj2 (Ho t')). unfold owner_of, project_of. cbn [transcripts set_transcripts].
  destruct (decide (t = t')) as [<-|Hne]; [by rewrite lookup_insert_eq, Ht|by rewrite lookup_insert_ne].
Qed.

Lemma patched_tracks {A} (m : M World DbError A) : keeps Tracks m -> keeps Tracks (patched m).
Proof. intros Hm. unfold patched. apply keeps_bind; [by apply keeps_attempt|]. intros [?|?]; eauto with keeps. Qed.

Lemma patch_tracks t p : keeps Tracks (patch_x t p).
Proof.
  unfold patch_x, applyMetadataPatch. apply keeps_bind; [|intros [?|?]; eauto with keeps]. apply keeps_attempt, keeps_bind.
  - apply patched_tracks, (reads_keeps tracks), reads_query.
  - intros pre. repeat case_match; first [apply keeps_throw | apply patched_tracks, metadata_tracks].
Qed.

Lemma keeps_targets {E} t gs (K : Z -> M World TxError E) :
  (forall g, g ∈ gs -> submits d0 u op t g) -> NoDup gs -> (forall n, keeps Tracks (K n)) ->
  keeps Tracks (targets ← read_targets u t gs; opened ← open_targets t targets; K opened).
Proof.
  intros Ho Hnd HK w Hw. rewrite M_bind_unfold. destruct (read_targets u t gs w) as [r w1] eqn:Hr.
  apply (reads_run _ _ _ _ (reads_targets t gs)) in Hr as Hd. destruct r as [targets|]; [|cbn; by rewrite Hd].
  apply read_targets_spec in Hr as [<- Hall]. rewrite <- Hd in Hall, Hw. rewrite M_bind_unfold.
  destruct (open_targets t targets w1) as [r2 w2] eqn:Hopen. apply open_targets_tracks in Hopen; [|done..].
  destruct r2; [by apply HK|done].
Qed.

Lemma share_tracks t gs : (forall g, g ∈ gs -> owner_of d0 t = Some u -> submits d0 u op t g) ->
  NoDup gs -> keeps Tracks (share_in_tx u t gs).
Proof.
  intros Hop Hnd. unfold share_in_tx. eapply (keeps_learn tracks); [apply learns_in_x, learns_transcript_owner|].
  intros row [Ho _]. destruct (negb (OwnerID row =? u)) eqn:Hown; [apply keeps_throw|]. bool_hyps. rewrite Hown in Ho.
  apply keeps_targets; [by intros; apply Hop|done|]. intros opened. case_match; [apply keeps_throw|]. apply keeps_bind.
  - case_match; [|apply keeps_ret]. apply keeps_bind; [apply patch_tracks|]. intros ?. apply keeps_ret.
  - intros _. apply keeps_in_x, (reads_keeps tracks), reads_query.
Qed.

Lemma dedup_spec {A} `{EqDecision A} (l : list A) : forall seen,
  NoDup (dedup seen l) /\ forall x, x ∈ dedup seen l <-> x ∈ l /\ x ∉ seen.
Proof.
  induction l as [|a l IH]; intros seen; cbn [dedup]; [split; [constructor|]; set_solver|].
  destruct (bool_decide (a ∈ seen)) eqn:Ha; bool_hyps.
  - destruct (IH seen) as [Hnd Hin]. split; [done|]. set_solver.
  - destruct (IH (a :: seen)) as [Hnd Hin]. split; [constructor; [set_solver|done]|].
    intros x. rewrite elem_of_cons, Hin. destruct (decide (x = a)); set_solver.
Qed.

Lemma mapM_id_elem {A} (l : list (option A)) l' x : mapM id l = Some l' -> x ∈ l' <-> Some x ∈ l.
Proof.
  intros Hl%mapM_Some. induction Hl as [|o a l l' Ha Hl IH]; [set_solver|]. unfold id in Ha. subst o.
  rewrite !elem_of_cons, IH. naive_solver.
Qed.

Lemma ShareTranscript_tracks tid gs : op = OpShare tid gs -> keeps Tracks (ShareTranscript u tid gs).
Proof.
  intros Hop. unfold ShareTranscript, shareTranscriptLocked.
  eapply (keeps_learn tracks); [apply learns_param|]. intros t ->.
  do 6 (apply keeps_bind; [solve [eauto with keeps | apply keeps_or_refuse, (reads_keeps tracks), reads_query]|intros ?]).
  eapply (keeps_learn tracks); [apply learns_param|]. intros ids ->.
  eapply (keeps_learn tracks); [apply learns_param|]. intros parsed Hparsed. cbn beta in Hparsed.
  apply keeps_bind; [eauto with keeps|intros ?].
  apply keeps_bind; [|intros [?|[?|]]; eauto with keeps].
  apply keeps_attempt, (keeps_authority_tx tracks), share_tracks; [|apply dedup_spec].
  intros g [Hg _]%(proj2 (dedup_spec parsed [])) Ho. split; [done|]. rewrite Hop. split; [done|].
  by apply (mapM_id_elem _ _ _ Hparsed).
Qed.

(** ** Withdrawal *)
Lemma unshare_tracks t g : may_end d0 u op t g Retracted -> keeps Tracks (unshareAndNarrow t g).
Proof.
  intros Hend. unfold unshareAndNarrow, withdrawLiveShare. apply keeps_bind.
  - apply keeps_bind; [apply (reads_keeps tracks), reads_latest|]. intros [|]; [|apply keeps_ret].
    apply keeps_bind; [|intros ?; apply keeps_ret]. apply keeps_in_x, (keeps_statement tracks). intros d a d' Hd Hf.
    apply result_bind_ok in Hf as (d1 & Hf & Hd'). simplify_eq/=. eapply tracks_moved; [done|by eapply close_live_only|].
    by eapply close_live_moved.
  - intros _. apply keeps_bind; [apply keeps_in_x, (reads_keeps tracks), reads_query|]. intros [|]; [apply keeps_ret|].
    apply keeps_bind; [apply keeps_in_x, (reads_keeps tracks), reads_query|]. intros pre. case_match; [apply keeps_ret|].
    apply keeps_bind; [apply patch_tracks|]. intros ?. apply keeps_ret.
Qed.

Lemma UnshareRoute_tracks tid gid : op = OpUnshare tid gid -> keeps Tracks (UnshareRoute u tid gid).
Proof.
  intros Hop. unfold UnshareRoute.
  eapply (keeps_learn tracks); [apply learns_param|]. intros t ->.
  eapply (keeps_learn tracks); [apply learns_param|]. intros g ->.
  eapply (keeps_learn tracks); [apply learns_or_refuse, learns_transcript_owner|]. intros row [Ho _].
  unfold refuse_if. destruct (negb (OwnerID row =? u)) eqn:Hown; [by intros w ?|]. bool_hyps. rewrite Hown in Ho.
  do 2 (apply keeps_bind; [solve [eauto with keeps | apply keeps_or_refuse, (reads_keeps tracks), reads_query]|intros ?]).
  apply keeps_bind; [|intros [?|?]; eauto with keeps]. apply keeps_attempt, (keeps_in_tx tracks), unshare_tracks.
  by rewrite Hop.
Qed.

(** ** A project *)
Lemma keeps_submission {E} t g s (c : bool -> bool) (refusal already : M World TxError E) (K : M World TxError E) :
  submits d0 u op t g -> accepted_member d0 g u -> opens_as d0 u g s ->
  keeps Tracks refusal -> keeps Tracks already -> keeps Tracks K ->
  keeps Tracks (live ← latest_is_live t g;
    if c live then refusal else if (live : bool) then already else _ ← open_attempt t g s; K).
Proof.
  intros Ho Hacc Hs Hrefuse Halready HK w Hw. rewrite M_bind_unfold. destruct (latest_is_live t g w) as [r w1] eqn:Hr.
  apply (reads_run _ _ _ _ (reads_latest t g)) in Hr as Hd. rewrite <- Hd in Hw. destruct r as [live|]; [|done].
  apply latest_live_spec in Hr. rewrite <- Hd in Hr. destruct (c live); [by apply Hrefuse|]. destruct live; [by apply Halready|].
  rewrite M_bind_unfold. destruct (open_attempt t g s w1) as [r2 w2] eqn:Hopen.
  apply open_attempt_cases in Hopen as [[-> Hss]|[Hd2 [e ->]]]; [|cbn; by rewrite Hd2].
  apply HK. eapply tracks_moved; [done|by eapply insert_attempt_only|]. by eapply share_with_status_moved.
Qed.

Definition chosen (g : Z) (project : string) (t : string) : Prop :=
  owner_of d0 t = Some u -> project_of d0 t = Some project -> submits d0 u op t g.

Lemma batch_one_tracks g s confirmed project live t :
  accepted_member d0 g u -> opens_as d0 u g s -> chosen g project t ->
  keeps Tracks (batch_one u g s confirmed project live t).
Proof.
  intros Hacc Hs Hop. unfold batch_one. eapply (keeps_learn tracks); [apply learns_in_x, learns_transcript_owner|].
  intros row [Ho Hp]. destruct (negb (OwnerID row =? u)) eqn:Hown; [apply keeps_throw|]. bool_hyps. rewrite Hown in Ho.
  cbn [orb]. destruct (negb (String.eqb (ProjectHash row) project)) eqn:Hproject; [apply keeps_throw|].
  apply negb_false_iff, String.eqb_eq in Hproject.
  rewrite Hproject in Hp. specialize (Hop Ho Hp).
  apply (keeps_submission t g s (fun l => negb (Bool.eqb l (bool_decide (t ∈ live))))); try done; [apply keeps_throw|apply keeps_ret|].
  apply keeps_bind; [apply keeps_in_x, (reads_keeps tracks), reads_query|]. intros locked.
  case_match; [apply keeps_ret|]. case_match; [apply keeps_throw|]. apply keeps_bind; [apply patch_tracks|].
  intros ?. apply keeps_ret.
Qed.

Lemma batch_all_tracks g s confirmed project live ts :
  accepted_member d0 g u -> opens_as d0 u g s -> (forall t, t ∈ ts -> chosen g project t) ->
  keeps Tracks (batch_all u g s confirmed project live ts).
Proof.
  intros Hacc Hs Hop. induction ts as [|t ts IH]; cbn [batch_all]; [apply keeps_ret|].
  apply keeps_bind; [apply batch_one_tracks; [done..|]; apply Hop; by left|]. intros b.
  apply keeps_bind; [apply IH; intros; apply Hop; by right|]. intros [? ?]. apply keeps_ret.
Qed.

Lemma learns_final_status g : learns tracks (finalShareStatus u g) (fun s => accepted_member d0 g u /\ opens_as d0 u g s).
Proof.
  intros w r w' Hw Hr. apply (reads_run _ _ _ _ (reads_finalShareStatus g)) in Hr as Hd. rewrite Hd. split; [done|].
  intros s ->. apply final_status_spec in Hr as [Hacc Hs]. destruct Hw as ((Hm & Hg & Hacs) & _).
  unfold accepted_member, opens_as, admits in *. by rewrite <- Hm, <- Hg, <- Hacs.
Qed.

Lemma decoded_request req project requested confirmed :
  decodeBatchShareRequest req = Some (project, requested, confirmed) ->
  RProjectHash req = project /\ forall t, (requested = [] \/ t ∈ requested) -> TranscriptIDs req = [] \/ Some t ∈ TranscriptIDs req.
Proof.
  unfold decodeBatchShareRequest. case_match; [done|]. destruct (mapM id (TranscriptIDs req)) as [ids|] eqn:Hids; [|done].
  intros [= <- <- <-]. split; [done|]. destruct (dedup_spec ids []) as [_ Hin]. intros t [Hnil|Ht].
  - left. assert (ids = []) as ->.
    { destruct ids as [|i ids]; [done|]. assert (i ∈ dedup [] (i :: ids)) as Hi by (apply Hin; set_solver). rewrite Hnil in Hi. set_solver. }
    apply mapM_Some in Hids. by inversion Hids.
  - right. apply Hin in Ht as [Ht _]. by apply (mapM_id_elem _ _ _ Hids).
Qed.
Lemma selected_requested candidates requested selected t :
  selectBatchCandidates candidates requested = Some selected -> t ∈ selected.*1 -> requested = [] \/ t ∈ requested.
Proof.
  unfold selectBatchCandidates. case_bool_decide; [by left|]. case_match; [done|]. intros [= <-].
  intros ([t' row] & -> & Hin)%list_elem_of_fmap. apply list_elem_of_In, filter_In in Hin as [_ Hin]. bool_hyps. by right.
Qed.

Lemma BatchShareProject_tracks gid req : op = OpBatchShare gid req -> keeps Tracks (BatchShareProject u gid req).
Proof.
  intros Hop. unfold BatchShareProject.
  eapply (keeps_learn tracks); [apply learns_param|]. intros g ->.
  eapply (keeps_learn tracks); [apply learns_param|]. intros rq ->.
  eapply (keeps_learn tracks); [apply learns_param|]. intros [[project requested] confirmed] [Hproject Hids]%decoded_request.
  do 2 (apply keeps_bind; [apply keeps_or_refuse, (reads_keeps tracks), reads_query|intros ?]).
  apply keeps_bind; [apply (reads_keeps tracks), reads_shareStatus|]. intros preflight.
  apply keeps_bind; [case_match; eauto with keeps|]. intros status.
  apply keeps_bind; [apply keeps_or_refuse, (reads_keeps tracks), reads_query|]. intros candidates.
  apply keeps_bind; [apply keeps_refuse_if|]. intros _.
  apply (keeps_learn tracks _ (fun l => selectBatchCandidates candidates requested = Some l)).
  { intros w r w' Hw. case_match; unfold mret, M_ret, throw; naive_solver. }
  intros selected Hselected. cbn beta in Hselected.
  apply keeps_bind; [apply keeps_or_refuse, (reads_keeps tracks), reads_query|]. intros live. cbv zeta.
  apply keeps_bind; [apply keeps_refuse_if|]. intros _.
  apply keeps_bind; [apply keeps_or_refuse, (reads_keeps tracks), reads_query|]. intros _.
  apply keeps_bind; [|intros [[? ?]|[?|]]; eauto with keeps]. apply keeps_attempt, (keeps_authority_tx tracks).
  eapply (keeps_learn tracks); [apply learns_final_status|]. intros s [Hacc Hs]. case_match eqn:Hstatus; [apply keeps_throw|].
  bool_hyps. subst. apply keeps_bind.
  - apply batch_all_tracks; [done..|]. intros t Ht Ho Hp. split; [done|]. rewrite Hop. split_and!; [done..|].
    apply Hids. by eapply selected_requested.
  - intros [? ?]. case_match; eauto with keeps.
Qed.

(** ** Decisions and removals *)
Lemma decide_tracks g name (f : Db -> list string) s {A} (out : Db -> A) :
  group_owner d0 g u -> (forall d t, t ∈ f d -> decides op t g s) ->
  keeps Tracks (stmt name (fun d => Ok (out d, foldr (fun t d => decide_open s u t g d) d (f d)))).
Proof.
  intros Hg Hs. apply (keeps_statement tracks). intros d a d' Hd [= _ <-].
  eapply tracks_moved; [done|apply decide_all_only|apply decide_all_moved; [done|by apply Hs]].
Qed.

Lemma review_tracks tid status g : op = OpReview (Some g) tid status -> keeps Tracks (reviewShareLocked u tid status g).
Proof.
  intros Hop. unfold reviewShareLocked. eapply (keeps_learn tracks); [apply learns_param|]. intros t ->.
  eapply (keeps_learn tracks); [apply learns_owner|]. intros x Hg. cbn beta in Hg.
  eapply (keeps_learn tracks); [apply learns_param|]. intros st ->.
  eapply (keeps_learn tracks); [apply learns_param|]. intros s Hs. cbn beta in Hs.
  apply keeps_bind; [|intros _; apply keeps_ret]. apply keeps_or_refuse.
  apply (decide_tracks g "UpdateShareStatus" (fun _ => [t]) s (fun _ => tt)); [done|].
  intros _ t' ->%list_elem_of_singleton. by rewrite Hop.
Qed.

Lemma batch_review_tracks req g : op = OpBatchReview (Some g) req -> keeps Tracks (batchReviewSharesLocked u req g).
Proof.
  intros Hop. unfold batchReviewSharesLocked. eapply (keeps_learn tracks); [apply learns_owner|]. intros x Hg. cbn beta in Hg.
  eapply (keeps_learn tracks); [apply learns_param|]. intros [raw status] ->.
  eapply (keeps_learn tracks); [apply learns_param|]. intros s Hs. cbn beta in Hs.
  eapply (keeps_learn tracks); [apply learns_param|]. intros requested Hreq. cbn beta in Hreq. case_match; [apply keeps_ret|].
  apply keeps_bind; [|intros decided; apply keeps_ret]. apply keeps_or_refuse.
  apply (decide_tracks g "BatchUpdateShareStatus" (fun _ => remove_dups requested) s); [done|].
  intros _ t Ht. rewrite elem_of_remove_dups in Ht. rewrite Hop. split_and!; [done| |done]. by apply (mapM_id_elem _ _ _ Hreq).
Qed.

Lemma remove_transcript_tracks tid g :
  op = OpRemoveTranscript (Some g) tid -> keeps Tracks (removeGroupTranscriptLocked u tid g).
Proof.
  intros Hop. unfold removeGroupTranscriptLocked. eapply (keeps_learn tracks); [apply learns_param|]. intros t ->.
  eapply (keeps_learn tracks); [apply learns_owner|]. intros x Hg. cbn beta in Hg.
  apply keeps_bind; [|intros _; apply keeps_ret]. apply keeps_or_refuse, (keeps_statement tracks). intros d a d' Hd Hf.
  apply result_bind_ok in Hf as (d1 & Hf & Hd'). simplify_eq/=.
  eapply tracks_moved; [done|by eapply close_live_only|eapply close_live_moved; [|exact Hf]]. by rewrite Hop.
Qed.

(** ** Members who leave *)

(** As [tracks], while the members change. *)
Definition follows (d : Db) : Prop := (forall t, owner_of d t = owner_of d0 t) /\ moved d0 u op d0 d.

Lemma leave_follows target g (retract : bool) :
  (retract = true -> forall t, owner_of d0 t = Some target -> may_end d0 u op t g Retracted) ->
  keeps (fun w => follows (db w)) (
    _ ← or_refuse (sql_RemoveGroupMember g target) (fun _ => writeError 500);
    _ ← (if retract then or_refuse (RetractUserSharesInGroup g target) (fun _ => writeError 500) else mret tt);
    mret (mkResponse 200 (BRemoved retract))).
Proof.
  intros Hend. apply keeps_bind.
  - apply keeps_or_refuse, (keeps_statement follows). intros d a d' [Ho Hmv] [= _ <-]. split; [exact Ho|].
    etrans; [exact Hmv|by apply moved_same].
  - intros _. apply keeps_bind; [|intros _; apply keeps_ret]. destruct retract; [|apply keeps_ret].
    apply keeps_or_refuse, (keeps_statement follows). intros d a d' [Ho Hmv] Hf.
    apply result_bind_ok in Hf as (d1 & Hf & Hd'). simplify_eq/=. apply close_all_only in Hf as Honly.
    split; [intros t; rewrite Honly; apply Ho|]. etrans; [exact Hmv|]. eapply close_all_moved; [|exact Hf].
    intros t Ht. apply list_elem_of_fmap in Ht as ([t' row] & -> & Hin). apply list_elem_of_In, filter_In in Hin as [Hin Hrow].
    apply list_elem_of_In, elem_of_map_to_list in Hin. bool_hyps. cbn in Hrow. apply Hend; [done|]. rewrite <- Ho.
    unfold owner_of. cbn. rewrite Hin. cbn. congruence.
Qed.

(** Run from [d0] itself. *)
Definition from {E A} (m : M World E A) (Q : Db -> Prop) : Prop :=
  triple (fun w => db w = d0) m (fun _ w => Q (db w)).
Lemma from_keeps {E A} (m : M World E A) (Q : Db -> Prop) : Q d0 -> keeps (fun w => Q (db w)) m -> from m Q.
Proof. intros HQ Hm w Hw. apply Hm. by rewrite Hw. Qed.
Lemma from_learn {E A B} (m : M World E A) phi (f : A -> M World E B) (Q : Db -> Prop) :
  Q d0 -> learns (fun d => d = d0) m phi -> (forall a, phi a -> from (f a) Q) -> from (m ≫= f) Q.
Proof.
  intros HQ Hm Hf w Hw. rewrite M_bind_unfold. destruct (m w) as [r w1] eqn:Hr.
  destruct (Hm w r w1 Hw Hr) as [Hd Hphi]. destruct r as [a|e]; [by apply (Hf a (Hphi a eq_refl))|cbn; by rewrite Hd].
Qed.
Lemma learns_reads {E A} (I : Db -> Prop) (m : M World E A) : reads m -> learns I m (fun _ => True).
Proof. intros Hm. by apply keeps_learns, reads_keeps. Qed.

Lemma follows_refl : follows d0.
Proof. by split. Qed.

Lemma remove_member_follows target retract g :
  op = OpRemoveMember (Some g) target retract -> from (removeGroupMemberLocked u target retract g) follows.
Proof.
  intros Hop. unfold removeGroupMemberLocked.
  eapply from_learn; [apply follows_refl|apply learns_param|]. intros p ->.
  eapply (from_learn _ (fun _ => p = u \/ group_owner d0 g u)); [apply follows_refl| |].
  { destruct (p =? u) eqn:Hp; bool_hyps.
    - intros w r w' Hw. unfold mret, M_ret. naive_solver.
    - intros w r w' Hw Hr. destruct (learns_owner_of (fun d => d = d0) g ltac:(by intros ? ->) w r w' Hw Hr). naive_solver. }
  intros _ Hauth. eapply from_learn; [apply follows_refl|apply learns_reads, reads_attempt, reads_query|]. intros member _.
  eapply from_learn; [apply follows_refl|apply learns_reads; reads_walk|]. intros _ _.
  eapply (from_learn _ (fun r => forall group, r = Ok group -> groups d0 !! g = Some group)); [apply follows_refl| |].
  { intros w r w' Hw. unfold attempt. destruct (GetGroupByID g w) as [rg w1] eqn:Hq. apply query_cases in Hq as [Hd Hq].
    intros [= <- <-]. rewrite Hd. split; [done|]. intros ? [= <-] group ->. specialize (Hq _ eq_refl). rewrite Hw in Hq.
    by destruct (groups d0 !! g); simplify_eq/=. }
  intros group Hgroup. cbn beta in Hgroup. apply from_keeps; [apply follows_refl|apply leave_follows].
  intros Hretract t Ho. rewrite Hop. split_and!; [done..|by exists p|].
  apply orb_true_iff in Hretract as [?|Hpolicy]; [by left|right]. destruct group as [group|]; [|done]. exists group.
  split; [by apply Hgroup|by apply String.eqb_eq].
Qed.

Lemma from_in_tx {A} (m : M World TxError A) Q : Q d0 -> from m Q -> from (in_tx m) Q.
Proof.
  intros HQ Hm w Hw. destruct (in_tx m w) as [r w'] eqn:Hr. cbn.
  apply in_tx_run in Hr as [(a & w1 & Hrun & -> & _)|[-> _]]; [|by rewrite Hw].
  specialize (Hm (begun w) Hw). by rewrite Hrun in Hm.
Qed.
Lemma from_attempt {E F A} (m : M World E A) Q : from m Q -> from (attempt m : M World F _) Q.
Proof. intros Hm w Hw. specialize (Hm w Hw). unfold attempt. by destruct (m w). Qed.
(** what follows only shapes the answer *)
Lemma from_then {E A B} (m : M World E A) (f : A -> M World E B) Q :
  from m Q -> (forall a, reads (f a)) -> from (m ≫= f) Q.
Proof.
  intros Hm Hf w Hw. specialize (Hm w Hw). rewrite M_bind_unfold. destruct (m w) as [[a|e] w1]; [|done]. cbn in *.
  by rewrite Hf.
Qed.

Lemma from_mutate gh id mutation refresh Q :
  Q d0 -> (forall g, id = Some g -> from (mutation g) Q) -> from (mutateCollective gh id mutation refresh) Q.
Proof.
  intros HQ Hm. unfold mutateCollective. apply from_then; [|by intros [? ?]]. unfold mutate_with.
  eapply from_learn; [done|apply learns_param|]. intros g Hg.
  apply from_then; [|intros [?|[?|]]; reads_walk]. apply from_attempt, from_in_tx; [done|].
  eapply from_learn; [done|apply learns_reads, reads_in_x, reads_query|]. intros ? _.
  eapply from_learn; [done|apply learns_reads; reads_walk|]. intros ? _.
  apply from_then; [|intros [[? ?]|?]; reads_walk]. apply from_attempt, from_then; [by apply Hm|]. reads_walk.
Qed.

(** ** The operations that share nothing *)

(** The ledger with the table derived from it. *)
Definition ledgers (d : Db) := (ledger d, shares d).
Lemma aside_moved d : ledgers d = ledgers d0 -> moved d0 u op d0 d.
Proof. intros [= ? ?]. by apply moved_same. Qed.
End refinement.

Section refinement_all.
Context `{Env, UnicodeTables}.
Context (gh : bool) (d0 : Db) (u : Z).
Notation Aside := (fun w => ledgers (db w) = ledgers d0).

Lemma join_aside id : keeps Aside (JoinGroup gh u id).
Proof. unfold JoinGroup, joinGroupLocked. fixes_walk. Qed.
Lemma promote_aside id target role : keeps Aside (PromoteMember gh u id target role).
Proof. unfold PromoteMember, promoteMemberLocked, require_owner. fixes_walk. Qed.
Lemma create_aside req : keeps Aside (CreateGroup u req).
Proof. unfold CreateGroup, new_group, linked_org. fixes_walk. Qed.
Lemma update_aside id req : keeps Aside (UpdateGroup gh u id req).
Proof. unfold UpdateGroup, updateGroupLocked, require_owner, linked_org. fixes_walk. Qed.
Lemma invite_aside id username : keeps Aside (CreateGroupInvitation gh u id username).
Proof.
  unfold CreateGroupInvitation, createGroupInvitationLocked, send_invitation, require_owner, row_if_any, takeDailyQuota, GetGroupMemberOf.
  fixes_walk.
Qed.
Lemma revoke_aside id i : keeps Aside (RevokeGroupInvitation gh u id i).
Proof. unfold RevokeGroupInvitation, revokeGroupInvitationLocked, require_owner. fixes_walk. Qed.
Lemma accept_aside i : keeps Aside (AcceptMyInvitation gh u i).
Proof. unfold AcceptMyInvitation, accept_in_tx. fixes_walk. Qed.
Lemma decline_aside i : keeps Aside (DeclineMyInvitation u i).
Proof. unfold DeclineMyInvitation. fixes_walk. Qed.

Lemma delete_moves id : from d0 (DeleteGroup gh u id) (moved d0 u (OpDelete id) d0).
Proof.
  unfold DeleteGroup. apply from_mutate; [done|]. intros g ->. unfold deleteGroupLocked.
  eapply from_learn; [done|by apply (learns_owner_of d0 u (fun d => d = d0)); intros ? ->|]. intros x Hg. cbn beta in Hg.
  apply from_then; [|by intros ?]. intros w Hw. destruct (or_refuse _ _ w) as [r w'] eqn:Hr. cbn.
  unfold or_refuse, attempt in Hr. rewrite M_bind_unfold in Hr. destruct (sql_DeleteGroup g w) as [r1 w1] eqn:Hs.
  apply stmt_cases in Hs as [(a & d' & [= _ <-] & -> & Hd)|(e & -> & Hd)];
    unfold mret, M_ret, throw in Hr; injection Hr as <- <-; rewrite Hd, Hw; [by apply drop_group_moved|done].
Qed.

Lemma perform_moves op : from d0 (perform gh u op) (moved d0 u op d0).
Proof.
  assert (forall A (m : M World Response A), keeps (fun w => tracks d0 u op (db w)) m -> from d0 m (moved d0 u op d0)) as Htracks.
  { intros A m Hm w Hw. assert (tracks d0 u op (db w)) as Ht by (rewrite Hw; apply tracks_refl).
    by destruct (Hm w Ht) as (_ & _ & ?). }
  assert (forall id mutation refresh, (forall g, id = Some g -> keeps (fun w => tracks d0 u op (db w)) (mutation g)) ->
    from d0 (mutateCollective gh id mutation refresh) (moved d0 u op d0)) as Hmutate.
  { intros id mutation refresh Hm. apply from_mutate; [done|]. intros g Hg. by apply Htracks, Hm. }
  assert (forall A (m : M World Response A), keeps Aside m -> from d0 m (moved d0 u op d0)) as Haside.
  { intros A m Hm w Hw. apply aside_moved, Hm. cbn. by rewrite Hw. }
  destruct op; cbn [perform].
  - by apply Htracks, ShareTranscript_tracks.
  - by apply Htracks, UnshareRoute_tracks.
  - by apply Htracks, BatchShareProject_tracks.
  - apply Hmutate. intros g' ->. by apply review_tracks.
  - apply Hmutate. intros g' ->. by apply batch_review_tracks.
  - apply Hmutate. intros g' ->. by apply remove_transcript_tracks.
  - apply Haside, join_aside.
  - apply Haside, promote_aside.
  - unfold RemoveGroupMember. intros w Hw.
    apply (from_mutate d0 gh _ _ _ (follows d0 u (OpRemoveMember g target retract))); [apply follows_refl|..|done].
    intros g' ->. by apply remove_member_follows.
  - apply Haside, create_aside.
  - apply Haside, update_aside.
  - apply delete_moves.
  - apply from_then; [apply Haside, invite_aside|by intros [? ?]].
  - apply Haside, revoke_aside.
  - apply Haside, accept_aside.
  - apply Haside, decline_aside.
Qed.
End refinement_all.

(** ** The properties *)

(** C35: whatever a person asks, and whatever the database does, every share of a
    transcript in a collective moves only along the share machine. Its owner, an
    accepted member, submits it by sharing it or its project with that collective,
    when nothing of it is open there, as pending in a curated collective and as
    accepted elsewhere, a collective of verified people taking only theirs. An
    owner of the collective who reviews it decides an open submission. It is ended
    as retracted by its owner's unsharing or with its owner's leaving, or removal by
    an owner of the collective, that withdraws what they shared; and as revoked by
    an owner of the collective who removes it. An open submission is closed in
    place, an acceptance gets a further event. All of it goes when an owner
    dissolves the collective. The refinement of the handlers and their SQL by
    [share_step]. *)
Theorem shares_move_by_authority `{Env, UnicodeTables} (gh : bool) (u : Z) (op : Operation) (w : World) :
  ledger_ok (db w) ->
  forall t g, rtc (share_step (db w) u op t g) (history (db w) t g) (history (db (responds gh u op w).2) t g).
Proof.
  intros Hok t g. unfold responds. pose proof (perform_moves gh (db w) u op w eq_refl Hok) as Hm.
  destruct (perform gh u op w) as [r w']. by destruct Hm.
Qed.

(** Requests as they arrive: after how long, from whom, and what for. *)
Definition later (elapsed : Z) (w : World) : World :=
  let d := db w in
  mkWorld (mkDb (accounts d) (groups d) (members d) (invitations d) (quotas d) (transcripts d) (ledger d) (shares d)
    (now d + Z.max 0 elapsed) (next_id d)) (statements w).
Fixpoint serve_in_time `{Env, UnicodeTables} (gh : bool) (requests : list (Z * (Z * Operation))) (w : World) : World :=
  match requests with
  | [] => w
  | (elapsed, (u, op)) :: requests => serve_in_time gh requests (responds gh u op (later elapsed w)).2
  end.
(** Some of them asks for the collective to be dissolved. *)
Definition asked_to_dissolve (g : Z) (requests : list (Z * (Z * Operation))) : Prop :=
  Exists (fun r => r.2.2 = OpDelete (Some g)) requests.

Lemma ledger_runs `{Env, UnicodeTables} (gh : bool) (requests : list (Z * (Z * Operation))) (w : World) :
  ledger_ok (db w) -> let w' := serve_in_time gh requests w in
  ledger_ok (db w') /\
  forall t g, extends (history (db w) t g) (history (db w') t g) \/ asked_to_dissolve g requests.
Proof.
  revert w. induction requests as [|[elapsed [u op]] requests IH]; intros w Hok; [split; [done|by left]|].
  set (w0 := later elapsed w). assert (ledger_ok (db w0)) as Hok0 by done.
  pose proof (perform_moves gh (db w0) u op w0 eq_refl Hok0) as Hm.
  assert (db (responds gh u op w0).2 = db (perform gh u op w0).2) as Hd
    by (unfold responds; by destruct (perform gh u op w0)).
  cbn in Hm. rewrite <- Hd in Hm. destruct Hm as [Hok1 Hmoves]. destruct (IH (responds gh u op w0).2 Hok1) as [Hok2 Hrest].
  cbn [serve_in_time]. fold w0. split; [exact Hok2|]. intros t g.
  destruct (share_steps_extend _ _ _ _ _ _ _ (Hmoves t g)) as [Hext|Hop]; [by apply Hok0| |right; by left].
  destruct (Hrest t g) as [Hext'|Hop]; [left; by etrans|right; by right].
Qed.

(** C36: through any sequence of requests the ledger stays well formed (ordinals
    without gaps, at most the last event of a pair undecided), the table of
    current shares is exactly what the ledger's latest events say, and no event
    goes or changes but for the decision of an open one, unless the collective was
    to be dissolved. *)
Theorem ledger_never_drifts `{Env, UnicodeTables} (gh : bool) (requests : list (Z * (Z * Operation))) (w : World) :
  ledger_ok (db w) -> let w' := serve_in_time gh requests w in
  ledger_ok (db w') /\
  forall t g, extends (history (db w) t g) (history (db w') t g) \/ asked_to_dissolve g requests.
Proof. apply ledger_runs. Qed.

(** ** A village *)

(** Collective 1 is curated and 2 is open; person 10 owns both, person 11 is a
    member of both and owns transcript ["t"]. *)
Definition village : Db :=
  let person n := mkAccount n [] in
  let collective mode policy := mkGroup "c" None 10 mode "members_only" None true policy true "informational" in
  mkDb (<[10 := person "ada"]> (<[11 := person "bo"]> (<[12 := person "cy"]> ∅)))
    (<[1 := collective "curated" "user_choice"]> (<[2 := collective "open" "mandatory"]> ∅))
    (<[(1, 10) := mkMember "owner" "creator"]> (<[(2, 10) := mkMember "owner" "creator"]>
      (<[(1, 11) := mkMember "member" "invitation"]> (<[(2, 11) := mkMember "contributor" "self_join"]> ∅))))
    ∅ ∅
    (<["t" := mkTranscript 11 "local" "hash" 5 (Some "title") None "private" None]> ∅)
    ∅ ∅ 1000 100.
Definition settled : Env := fun _ => Fine.
Definition at_village : World := mkWorld village [].

Lemma village_ok : ledger_ok village.
Proof. split; [done|]. intros t g. apply hist_ok_empty. Qed.

(** It is shared with both, the curated collective's owner accepts it, and then it
    is withdrawn there. *)
Definition shared_and_reviewed : list (Z * (Z * Operation)) :=
  [(0, (11, OpShare (Some "t") (Some [Some 1; Some 2; Some 1])));
   (5, (10, OpReview (Some 1) (Some "t") (Some "approved")))].
Definition then_withdrawn : list (Z * (Z * Operation)) := [(5, (11, OpUnshare (Some "t") (Some 1)))].
Definition after (requests : list (Z * (Z * Operation))) (w : World) : World :=
  @serve_in_time settled ascii_tables true requests w.

Example shared_and_reviewed_runs :
  map_to_list (shares (db (after shared_and_reviewed at_village))) = [(("t", 1), (Approved, 1000)); (("t", 2), (Approved, 1000))] /\
  map_to_list (shares (db (after then_withdrawn (after shared_and_reviewed at_village)))) = [(("t", 2), (Approved, 1000))] /\
  history (db (after then_withdrawn (after shared_and_reviewed at_village))) "t" 1 =
    <[1 := mkAttempt Approved 1000 (Some 1005) (Some 10)]> (<[2 := mkAttempt Retracted 1010 (Some 1010) None]> ∅).
Proof. by vm_compute. Qed.

Lemma shares_move_by_authority_witness :
  exists h, rtc (@share_step ascii_tables village 11 (OpShare (Some "t") (Some [Some 1])) "t" 1) ∅ h /\
    Status <$> h !! 1 = Some Pending.
Proof.
  exists (history (db (@responds settled ascii_tables true 11 (OpShare (Some "t") (Some [Some 1])) at_village).2) "t" 1).
  split; [|by vm_compute].
  exact (@shares_move_by_authority settled ascii_tables true 11 (OpShare (Some "t") (Some [Some 1])) at_village village_ok "t" 1).
Defined.

Lemma ledger_never_drifts_witness :
  let reviewed := after shared_and_reviewed at_village in let withdrawn := after then_withdrawn reviewed in
  ledger_ok (db withdrawn) /\ extends (history (db reviewed) "t" 1) (history (db withdrawn) "t" 1).
Proof.
  intros reviewed withdrawn.
  destruct (@ledger_never_drifts settled ascii_tables true shared_and_reviewed at_village village_ok) as [Hok _].
  destruct (@ledger_never_drifts settled ascii_tables true then_withdrawn reviewed Hok) as [Hend Hext].
  split; [exact Hend|]. destruct (Hext "t" 1) as [?|Hno]; [done|]. exfalso.
  apply Exists_exists in Hno as (x & Hx & Hop). apply list_elem_of_singleton in Hx. by subst.
Defined.
End CollectiveLaws.
