(* ===== verification/ShareLaws.v ===== *)
(** * Sharing: all or nothing, consent, withdrawal

    A refused request changed nothing; a share that is answered put the
    transcript in every requested collective; only the owner changes who may see
    a transcript; and the one case in which a withdrawal cannot succeed. *)
From S2P Require Import Prelude GoText Regex Governance CollectiveStore Collectives Invitations CollectiveRoutes LedgerLaws CollectiveLaws.

Open Scope string_scope.
Open Scope list_scope.
Open Scope Z_scope.

Module ShareLaws.
Import Governance CollectiveStore Collectives Invitations CollectiveRoutes LedgerLaws CollectiveLaws.

(** ** A refusal changes nothing *)
Section refusal.
Context `{Env, UnicodeTables}.

(** An answer of 400 or more leaves the database as it was; a 500 may also mean
    that the last statement was a commit, carried out with its answer lost. *)
Definition harmless {A} (m : M World Response A) (of_ : A -> Response) : Prop :=
  forall w r w', m w = (r, w') -> 400 <= code (answer r of_) ->
    db w' = db w \/ code (answer r of_) = 500 /\ unconfirmed w'.
Notation Harmless m := (harmless m (fun r => r)).

Lemma harmless_bind {A B} (m : M World Response A) (f : A -> M World Response B) of_ :
  reads m -> (forall a, harmless (f a) of_) -> harmless (m ≫= f) of_.
Proof.
  intros Hm Hf w r w' Hr Hc. rewrite M_bind_unfold in Hr. destruct (m w) as [[a|e] w1] eqn:Hrun;
    apply (reads_run _ _ _ _ Hm) in Hrun; [rewrite <- Hrun; by apply (Hf a)|left; by simplify_eq].
Qed.

(** A transaction, and then a success for its value, the refusal or a 500. *)
Definition closes {A B} (f : result TxError A -> M World Response B) (of_ : B -> Response) : Prop :=
  (forall a w r w', f (Ok a) w = (r, w') -> code (answer r of_) < 400) /\
  forall e, exists r, code (answer r of_) = (match e with TxRefused x => code x | TxBroken => 500 end) /\
    forall w, f (Err e) w = (r, w).
Lemma harmless_tx {A B} (m : M World TxError A) (f : result TxError A -> M World Response B) of_ :
  closes f of_ -> harmless (r ← attempt (in_tx m); f r) of_.
Proof.
  intros [Hok Herr] w r w' Hr Hc. rewrite M_bind_unfold in Hr. unfold attempt in Hr.
  destruct (in_tx m w) as [[a|e] w1] eqn:Htx; [specialize (Hok _ _ _ _ Hr); lia|].
  destruct (Herr e) as (r0 & Hcode & Hf). rewrite Hf in Hr. injection Hr as <- <-.
  apply in_tx_run in Htx as [(a & w2 & _ & _ & [?|[[= ->] Hlost]])|[? _]]; [done|right; by split|by left].
Qed.

Lemma harmless_mutate {X} gh (none : X) id mutation refresh :
  harmless (mutate_with gh none id mutation refresh) fst.
Proof.
  intros w r w' [(g & w1 & rx & w2 & _ & _ & _ & _ & Hc & [->|[-> Hlost]])|[? _]]%mutate_run Hcode;
    [|right; by split|by left]. destruct rx; cbn in *; lia.
Qed.
Lemma harmless_mutateCollective gh id mutation refresh : Harmless (mutateCollective gh id mutation refresh).
Proof.
  intros w r w' [(g & w1 & rx & w2 & _ & _ & _ & _ & Hc & [->|[-> Hlost]])|[? _]]%mutateCollective_run Hcode;
    [|right; by split|by left]. cbn in Hcode. lia.
Qed.

Lemma harmless_share u tid gs : Harmless (ShareTranscript u tid gs).
Proof.
  unfold ShareTranscript, shareTranscriptLocked.
  repeat (apply harmless_bind; [solve [reads_walk]|intros ?]).
  apply harmless_tx. split; [by intros b w r w' [= <- _]|]. intros [x|]; [exists (Err x)|exists (Err (writeError 500))]; by split.
Qed.
Lemma harmless_unshare u tid gid : Harmless (UnshareRoute u tid gid).
Proof.
  unfold UnshareRoute. repeat (apply harmless_bind; [solve [reads_walk]|intros ?]).
  intros w r w' Hr Hc. rewrite M_bind_unfold in Hr. unfold attempt in Hr.
  destruct (in_tx _ w) as [[b|e] w1] eqn:Htx; unfold mret, M_ret, throw in Hr; injection Hr as <- <-; [done|].
  apply in_tx_run in Htx as [(? & w2 & _ & _ & [?|[_ Hlost]])|[? _]]; [done|right; by split|by left].
Qed.
Lemma harmless_batch u gid req : Harmless (BatchShareProject u gid req).
Proof.
  unfold BatchShareProject. do 2 (apply harmless_bind; [solve [reads_walk]|intros ?]).
  apply harmless_bind; [solve [reads_walk]|intros [[project requested] confirmed]]. cbv zeta.
  repeat (apply harmless_bind; [solve [unfold shareStatusForGroup, hasOrgMembership, hasAnyOrgMembership; reads_walk]|intros ?]).
  unfold writeBatchShare, inCollectiveAuthorityTx.
  apply harmless_tx. split; [by intros [? ?] w r w' [= <- _]|]. intros [x|]; [exists (Err x)|exists (Err (writeError 500))]; by split.
Qed.
Lemma harmless_accept gh u i : Harmless (AcceptMyInvitation gh u i).
Proof.
  unfold AcceptMyInvitation, inCollectiveAuthorityTx.
  do 2 (apply harmless_bind; [solve [reads_walk]|intros ?]).
  apply harmless_tx. split; [by intros b w r w' [= <- _]|]. intros [x|]; [exists (Err x)|exists (Err (writeError 500))]; by split.
Qed.

(** A statement of its own, and then what depends on its answer alone. *)
Lemma or_refuse_auto {A} name (f : Db -> result DbError (A * Db)) e w r w' :
  name ∈ commits -> or_refuse (autocommitted name f) (fun _ => writeError e) w = (r, w') ->
  (exists a d', f (db w) = Ok (a, d') /\ r = Ok a /\ db w' = d') \/
  r = Err (writeError e) /\ (db w' = db w \/ unconfirmed w' /\ exists a d', f (db w) = Ok (a, d') /\ db w' = d').
Proof.
  intros Hname. unfold or_refuse, attempt. rewrite M_bind_unfold. destruct (autocommitted name f w) as [r1 w1] eqn:Hs.
  apply auto_cases in Hs as [(a & d' & Hf & Hd & [->|[-> Hlost]])|(x & -> & Hd)]; [| | |done];
    unfold mret, M_ret, throw; intros [= <- <-]; [left; eauto|right..]; (split; [done|]); [right|by left]. eauto.
Qed.

Lemma harmless_decline u i : Harmless (DeclineMyInvitation u i).
Proof.
  unfold DeclineMyInvitation. apply harmless_bind; [apply reads_param|]. intros id w r w' Hr Hc.
  rewrite M_bind_unfold in Hr. destruct (or_refuse (sql_DeclineMyInvitation id u) _ w) as [r1 w1] eqn:Hs.
  apply or_refuse_auto in Hs as [(n & d' & Hf & -> & Hd)|[-> Hd]]; [| |set_solver].
  - rewrite M_bind_unfold in Hr. destruct (my_pending id u (db w)); injection Hf as <- <-; cbn in Hr; unfold throw in Hr;
      injection Hr as <- <-; [done|by left].
  - injection Hr as <- <-. destruct Hd as [?|[? _]]; [by left|right; by split].
Qed.

(** The collective without its owner, which a founding that fails halfway leaves. *)
Definition founded_alone (u : Z) (d d' : Db) : Prop := exists group, CreatedBy group = u /\
  groups d !! next_id d = None /\ d' = fresh (set_groups (<[next_id d := group]> (groups d)) d).

Lemma new_group_spec u req w group w' : new_group u req w = (Ok group, w') -> CreatedBy group = u.
Proof.
  unfold new_group. intros Hr. repeat (apply bind_ok_inv in Hr as (? & ? & _ & Hr)). unfold mret, M_ret in Hr. by injection Hr as <- _.
Qed.
Lemma reads_new_group u req : reads (new_group u req).
Proof. unfold new_group, linked_org, hasOrgMembership. reads_walk. Qed.

(** The founding was carried out: the collective is there with its owner. *)
Definition founded_owned (u : Z) (d d' : Db) : Prop :=
  exists d1, founded_alone u d d1 /\ insert_member (next_id d) u (mkMember "owner" "creator") d1 = Ok d'.

(** How a founding ends: nothing happened; the collective is there alone; or it is
    there with its owner, whatever the answer. *)
Lemma create_ends u req w r w' :
  CreateGroup u req w = (r, w') ->
  db w' = db w /\ (exists e, r = Err e /\ 400 <= code e) \/
  founded_alone u (db w) (db w') /\ r = Err (writeError 500) \/
  founded_owned u (db w) (db w') /\ (r = Ok (mkResponse 201 (BGroup (next_id (db w)))) \/ r = Err (writeError 500)).
Proof.
  intros Hr. unfold CreateGroup in Hr.
  apply reads_bind_run in Hr as [(e & w1 & Hnew & -> & Hd)|(group & w0 & Hgroup & Hd0 & Hr)]; [| |apply reads_new_group].
  { left. split; [done|]. exists e. split; [done|].
    assert (fails_with refusal (new_group u req)) as Hf by (unfold new_group, linked_org; fails_walk). by eapply Hf. }
  apply new_group_spec in Hgroup. rewrite <- Hd0. rewrite M_bind_unfold in Hr.
  assert (forall g d', (if negb (is_some_b (accounts (db w0) !! CreatedBy group)) then Err Broken
    else if is_some_b (groups (db w0) !! next_id (db w0)) then Err (Unique OtherConstraint)
    else Ok (next_id (db w0), fresh (set_groups (<[next_id (db w0) := group]> (groups (db w0))) (db w0)))) = Ok (g, d') ->
    g = next_id (db w0) /\ founded_alone u (db w0) d') as Halone.
  { intros g d'. destruct (is_some_b (accounts _ !! _)); [|done]. destruct (groups (db w0) !! _) eqn:Hfree; [done|].
    intros [= <- <-]. split; [done|]. by exists group. }
  destruct (or_refuse (sql_CreateGroup group) _ w0) as [r1 w1] eqn:Hg.
  apply or_refuse_auto in Hg as [(g & d1 & Hf & -> & Hd1)|[-> Hg]]; [| |set_solver].
  2: { injection Hr as <- <-. destruct Hg as [Hd|[_ (g & d1 & Hf & Hd)]]; [left; split; [done|]; by eexists|].
       right; left. split; [|done]. rewrite Hd. by eapply Halone. }
  apply Halone in Hf as [-> Hf]. rewrite <- Hd1 in Hf. rewrite M_bind_unfold in Hr.
  destruct (or_refuse (AddGroupCreator _ u) _ w1) as [r2 w2] eqn:Ha.
  apply or_refuse_auto in Ha as [([] & d2 & Hf2 & -> & Hd2)|[-> Ha]]; [| |set_solver].
  - apply result_bind_ok in Hf2 as (d3 & Hi & [= ->]). rewrite <- Hd2 in Hi.
    assert (founded_owned u (db w0) (db w2)) as Hdone by (by exists (db w1)).
    rewrite M_bind_unfold in Hr. destruct (or_refuse (nothing _) _ w2) as [r3 w3] eqn:Hlist.
    apply (reads_run _ _ _ _ (reads_or_refuse _ _ (reads_query _ _))) in Hlist as Hd3. rewrite <- Hd3 in Hdone.
    right; right. destruct r3 as [x|e]; unfold mret, M_ret in Hr; injection Hr as <- <-; (split; [done|]); [by left|right].
    unfold or_refuse, attempt in Hlist. rewrite M_bind_unfold in Hlist. destruct (nothing _ w2) as [[?|?] ?]; unfold mret, M_ret, throw in Hlist; by simplify_eq.
  - injection Hr as <- <-. destruct Ha as [Hd|[_ ([] & d2 & Hf2 & Hd)]].
    + right; left. split; [by rewrite Hd|done].
    + right; right. split; [|by right]. apply result_bind_ok in Hf2 as (d3 & Hi & [= ->]). rewrite Hd. by exists (db w1).
Qed.
End refusal.

(** C37: every request but the founding of a collective is all or nothing. When the
    answer is an error the database is exactly as it was, wherever the request
    failed; only a 500 may also mean that it was carried out, and then because the
    last statement was its commit, whose answer was lost. A founding, two
    transactions, that is answered 500 may leave the collective there, without its
    owner or with. *)
Theorem refused_changes_nothing `{Env, UnicodeTables} (gh : bool) (u : Z) (op : Operation) (w : World) :
  let '(r, w') := responds gh u op w in
  400 <= code r ->
  db w' = db w \/
  code r = 500 /\
    (unconfirmed w' \/
     (exists req, op = OpCreate req) /\ (founded_alone u (db w) (db w') \/ founded_owned u (db w) (db w'))).
Proof.
  unfold responds. destruct (perform gh u op w) as [r w'] eqn:Hr. intros Hc.
  assert ((exists req, op = OpCreate req) \/ harmless (perform gh u op) (fun r => r)) as [[req ->]|Hharmless].
  { destruct op; cbn [perform]; try (right; first [apply harmless_mutateCollective | apply harmless_share | apply harmless_unshare
      | apply harmless_batch | apply harmless_accept | apply harmless_decline]); [by left; eexists|right].
    intros w1 r1 w1' Hr1 Hc1. rewrite M_bind_unfold in Hr1. unfold CreateGroupInvitation in Hr1.
    rewrite M_bind_unfold in Hr1. destruct (mutate_with _ _ _ _ _ w1) as [[[r2 n]|r2] w2] eqn:Hm;
      unfold mret, M_ret in Hr1; simplify_eq/=; by apply (harmless_mutate _ _ _ _ _ _ _ _ Hm). }
  - cbn [perform] in Hr. apply create_ends in Hr as [[? _]|[[? ->]|[? [->| ->]]]]; [by left|right..].
    + split; [done|]. right. split; [by eexists|by left].
    + cbn in Hc. lia.
    + split; [done|]. right. split; [by eexists|by right].
  - destruct (Hharmless w r w' Hr Hc) as [?|[? ?]]; [by left|right]. split; [done|by left].
Qed.

(** A review by somebody else, a review whose commit is carried out without an
    answer, and one whose commit fails. *)
Definition lost_commit (carried_out : bool) : Env :=
  fun log => if bool_decide (last log = Some "UpdateShareStatus") then (if carried_out then LostButDone else Lost) else Fine.
Definition submitted_only : World := after [(0, (11, OpShare (Some "t") (Some [Some 1])))] at_village.
Definition approve (env : Env) (u : Z) : Response * World :=
  @responds env ascii_tables true u (OpReview (Some 1) (Some "t") (Some "approved")) submitted_only.

Lemma refused_changes_nothing_witness :
  (code (approve settled 11).1 = 403 /\ db (approve settled 11).2 = db submitted_only) /\
  (code (approve (lost_commit true) 10).1 = 500 /\ unconfirmed (H := lost_commit true) (approve (lost_commit true) 10).2).
Proof.
  pose proof (@refused_changes_nothing settled ascii_tables true 11 (OpReview (Some 1) (Some "t") (Some "approved")) submitted_only) as H1.
  pose proof (@refused_changes_nothing (lost_commit true) ascii_tables true 10 (OpReview (Some 1) (Some "t") (Some "approved")) submitted_only) as H2.
  fold (approve settled 11) in H1. fold (approve (lost_commit true) 10) in H2.
  assert (code (approve settled 11).1 = 403) as Hc1 by (by vm_compute).
  assert (code (approve (lost_commit true) 10).1 = 500) as Hc2 by (by vm_compute).
  assert (Status <$> history (db (approve (lost_commit true) 10).2) "t" 1 !! 1 <> Status <$> history (db submitted_only) "t" 1 !! 1) as Hne
    by (vm_compute; done).
  destruct (approve settled 11) as [r1 w1], (approve (lost_commit true) 10) as [r2 w2]. cbn [fst snd] in *. split; (split; [done|]).
  - destruct H1 as [?|[? _]]; [by rewrite Hc1|done|congruence].
  - destruct H2 as [Hd|[_ [?|[[? ?] _]]]]; [by rewrite Hc2|by rewrite Hd in Hne|done|done].
Defined.


(** The founding of a collective is two statements: when the second fails, the
    collective is there and nobody owns it. *)
Lemma failed_founding_leaves_a_collective :
  let env : Env := fun log => if bool_decide (last log = Some "CreateGroup") then Lost else Fine in
  let '(r, w') := @responds env ascii_tables true 12 (OpCreate (Some (mkCreate "new" "" "" "" ""))) at_village in
  code r = 500 /\ is_some_b (groups (db w') !! 100) = true /\ members (db w') !! (100, 12) = None.
Proof. by vm_compute. Qed.

(** ** Visibility *)
Definition with_visibility (v : string) (t : Transcript) : Transcript :=
  with_metadata (Title t) (Description t) v (LicenseID t) t.

(** A request that asks for the transcript to be shared: a share of it, or a
    project's with the visibility change confirmed. *)
Definition asks_to_share (op : Operation) (t : string) : Prop :=
  match op with
  | OpShare (Some t') _ => t' = t
  | OpBatchShare _ (Some req) => VisibilityConfirmed req = true
  | _ => False
  end.
Definition asks_to_unshare (op : Operation) (t : string) : Prop :=
  match op with OpUnshare (Some t') _ => t' = t | _ => False end.

Section visibility.
Context `{Env, UnicodeTables}.
Context (d0 : Db) (u : Z) (op : Operation).

(** The transcripts but for what the owner's request changed. *)
Definition consented (d : Db) : Prop := forall t,
  transcripts d !! t = transcripts d0 !! t \/
  exists row, transcripts d0 !! t = Some row /\ OwnerID row = u /\
    ((asks_to_share op t /\ Visibility row = "private" /\ transcripts d !! t = Some (with_visibility "shared" row)) \/
     (asks_to_unshare op t /\ Visibility row = "shared" /\ transcripts d !! t = Some (with_visibility "private" row))).
Notation Consented := (fun w => consented (db w)).

Lemma consented_only d d' : consented d -> transcripts d' = transcripts d -> consented d'.
Proof. intros Hc Ht t. rewrite Ht. apply Hc. Qed.

Lemma consented_refl : consented d0.
Proof. intros t. by left. Qed.

Lemma patch_run t v w r w' :
  patch_x t (visibilityPatch v) w = (r, w') ->
  (db w' = db w /\ exists e, r = Err e) \/ exists row, transcripts (db w) !! t = Some row /\
    db w' = set_transcripts (<[t := with_visibility v row]> (transcripts (db w))) (db w).
Proof.
  unfold patch_x, applyMetadataPatch, patched, attempt. rewrite !M_bind_unfold.
  cbn [lock_row update_row row_visibility row_title row_description row_license collective_rows].
  destruct (GetTranscriptGovernanceForUpdate t w) as [[pre|e] w1] eqn:Hg; apply query_cases in Hg as [Hd Hg].
  - specialize (Hg _ eq_refl). destruct (transcripts (db w) !! t) as [row|] eqn:Ht; simplify_eq/=.
    replace (String.eqb (Visibility pre) "shared" && false) with false by (by destruct (String.eqb _ _)).
    rewrite M_bind_unfold. destruct (UpdateTranscriptMetadata _ _ _ _ _ w1) as [ru w2] eqn:Hu.
    apply stmt_cases in Hu as [(a & d' & Hf & -> & Hd2)|(e & -> & Hd2)]; unfold mret, M_ret, throw; intros [= <- <-].
    + rewrite Hd, Ht in Hf. injection Hf as <- <-. right. exists pre. split; [done|]. rewrite Hd2. done.
    + left. rewrite Hd2. eauto.
  - unfold throw. intros [= <- <-]. left. eauto.
Qed.

Lemma consented_owner d t : consented d -> owner_of d t = owner_of d0 t.
Proof.
  intros Hc. unfold owner_of. destruct (Hc t) as [->|(row & -> & _ & [(_ & _ & ->)|(_ & _ & ->)])]; done.
Qed.

(** the change this request may make to a row *)
Definition may_set (t : string) (row : Transcript) (v : string) : Prop :=
  (asks_to_share op t /\ Visibility row = "private" /\ v = "shared") \/
  (asks_to_unshare op t /\ Visibility row = "shared" /\ v = "private").

Lemma asks_one_thing t : asks_to_share op t -> asks_to_unshare op t -> False.
Proof. by destruct op. Qed.

Lemma set_consented d t row v :
  consented d -> transcripts d !! t = Some row -> OwnerID row = u -> may_set t row v ->
  consented (set_transcripts (<[t := with_visibility v row]> (transcripts d)) d).
Proof.
  intros Hc Ht Hown Hset t'. cbn [transcripts set_transcripts].
  destruct (decide (t = t')) as [<-|Hne]; [rewrite lookup_insert_eq|rewrite lookup_insert_ne by done; apply Hc].
  right. destruct (Hc t) as [Hsame|(row0 & Hrow0 & Hown0 & Hwas)].
  - exists row. rewrite <- Hsame. split_and!; [done..|]. destruct Hset as [(Ha & Hv & ->)|(Ha & Hv & ->)]; eauto.
  - exfalso. pose proof (asks_one_thing t).
    destruct Hwas as [(Hask & _ & Hrow)|(Hask & _ & Hrow)], Hset as [(Hask' & Hv & _)|(Hask' & Hv & _)]; try tauto;
      rewrite Ht in Hrow; injection Hrow as ->; discriminate.
Qed.

Lemma patch_consented t row v w :
  consented (db w) -> transcripts (db w) !! t = Some row -> owner_of d0 t = Some u -> may_set t row v ->
  consented (db (patch_x t (visibilityPatch v) w).2).
Proof.
  intros Hc Ht Hown Hset. destruct (patch_x _ _ w) as [r w'] eqn:Hr. cbn.
  apply patch_run in Hr as [[-> _]|(row' & Hrow' & ->)]; [done|]. assert (row' = row) as -> by congruence.
  apply set_consented; [done..| |done]. rewrite <- (consented_owner _ _ Hc) in Hown. unfold owner_of in Hown.
  rewrite Ht in Hown. by injection Hown.
Qed.

Lemma learns_consented_owner t :
  learns consented (GetTranscriptByID t) (fun row => owner_of d0 t = Some (OwnerID row)).
Proof.
  apply learns_query. intros d row Hc Hr. rewrite <- (consented_owner _ _ Hc). unfold owner_of.
  by destruct (transcripts d !! t); simplify_eq/=.
Qed.

(** The row as it is now decides what is done with it. *)
Lemma keeps_governed {E} t (K : Transcript -> M World TxError E) :
  (forall row w, consented (db w) -> transcripts (db w) !! t = Some row -> consented (db (K row w).2)) ->
  keeps Consented (pre ← in_x (GetTranscriptGovernanceForUpdate t); K pre).
Proof.
  intros HK w Hw. unfold in_x, attempt. rewrite !M_bind_unfold.
  destruct (GetTranscriptGovernanceForUpdate t w) as [[row|e] w1] eqn:Hg; apply query_cases in Hg as [Hd Hg];
    unfold mret, M_ret, throw; [|cbn; by rewrite Hd].
  specialize (Hg _ eq_refl). apply HK; rewrite Hd; [done|]. by destruct (transcripts (db w) !! t); simplify_eq/=.
Qed.

(** Statements that write the ledger alone keep it. *)
Definition ledger_stable (I : Db -> Prop) : Prop := forall d d', I d -> ledger_only d d' -> I d'.
Lemma keeps_open (I : Db -> Prop) t g s : ledger_stable I -> keeps (fun w => I (db w)) (open_attempt t g s).
Proof.
  intros HI w Hw. destruct (open_attempt t g s w) as [r w'] eqn:Hr. cbn.
  apply open_attempt_cases in Hr as [[_ Hs]|[-> _]]; [|done]. eapply HI; [done|by eapply insert_attempt_only].
Qed.
Lemma keeps_opens (I : Db -> Prop) t targets : ledger_stable I -> keeps (fun w => I (db w)) (open_targets t targets).
Proof.
  intros HI. induction targets as [|[[g s] [|]] rest IH]; cbn [open_targets]; [apply keeps_ret|done|].
  apply keeps_bind; [by apply keeps_open|]. intros _. apply keeps_bind; [done|]. intros n. apply keeps_ret.
Qed.
Lemma consented_stable : ledger_stable consented.
Proof. intros d d' Hc Honly. apply (consented_only d); [done|by rewrite Honly]. Qed.

(** From [I] to [Q], which [I] implies. *)
Definition leads {E A} (I Q : Db -> Prop) (m : M World E A) : Prop :=
  forall w, I (db w) -> Q (db (m w).2).
Lemma leads_bind {E A B} (I Q : Db -> Prop) (m : M World E A) (f : A -> M World E B) :
  (forall d, I d -> Q d) -> keeps (fun w => I (db w)) m -> (forall a, leads I Q (f a)) -> leads I Q (m ≫= f).
Proof.
  intros HIQ Hm Hf w Hw. specialize (Hm w Hw). rewrite M_bind_unfold. destruct (m w) as [[a|e] w1]; [by apply Hf|].
  cbn in *. eauto.
Qed.

Lemma share_consented t gs : asks_to_share op t -> keeps Consented (share_in_tx u t gs).
Proof.
  intros Hask. unfold share_in_tx. intros w Hw. rewrite M_bind_unfold.
  destruct (in_x (GetTranscriptByID t) w) as [[row|e] w1] eqn:Hg; apply in_x_query in Hg as [Hd Hg]; [|cbn; by rewrite Hd].
  specialize (Hg _ eq_refl). destruct (negb (OwnerID row =? u)) eqn:Hown; [cbn; by rewrite Hd|]. bool_hyps.
  assert (transcripts (db w) !! t = Some row) as Ht by (by destruct (transcripts (db w) !! t); simplify_eq/=).
  assert (owner_of d0 t = Some u) as Ho by (rewrite <- (consented_owner _ t Hw); unfold owner_of; rewrite Ht; cbn; congruence).
  set (I d := consented d /\ transcripts d !! t = Some row).
  assert (ledger_stable I) as HI. { intros d d' [Hc Hr] Honly. split; [by eapply consented_stable|by rewrite Honly]. }
  cut (leads I consented (targets ← read_targets u t gs; opened ← open_targets t targets;
    if (opened =? 0) && negb (String.eqb (Visibility row) "private") then throw (TxRefused (writeError 409))
    else _ ← (if String.eqb (Visibility row) "private" then _ ← patch_x t (visibilityPatch "shared"); mret tt else mret tt);
      in_x (ListTranscriptShares t) : M World TxError _)).
  { intros Hl. apply (Hl w1). split; [by rewrite Hd|congruence]. }
  apply leads_bind; [by intros d []|apply (reads_keeps I), reads_targets|]. intros targets.
  apply leads_bind; [by intros d []|by apply keeps_opens|]. intros opened w2 [Hc2 Hr2].
  case_match; [done|]. rewrite M_bind_unfold. destruct (String.eqb (Visibility row) "private") eqn:Hpriv.
  - rewrite M_bind_unfold. destruct (patch_x t _ w2) as [rp w3] eqn:Hp.
    assert (consented (db w3)) as Hc3.
    { replace w3 with (patch_x t (visibilityPatch "shared") w2).2 by (by rewrite Hp).
      apply (patch_consented t row); [done..|]. left. by apply String.eqb_eq in Hpriv. }
    destruct rp; [|done]. by apply (keeps_in_x _ _ (reads_keeps consented _ (reads_query _ _)) w3).
  - unfold mret at 1, M_ret. by apply (keeps_in_x _ _ (reads_keeps consented _ (reads_query _ _)) w2).
Qed.

Lemma unshare_consented t g : asks_to_unshare op t -> owner_of d0 t = Some u -> keeps Consented (unshareAndNarrow t g).
Proof.
  intros Hask Ho. unfold unshareAndNarrow, withdrawLiveShare. apply keeps_bind.
  - apply keeps_bind; [apply (reads_keeps consented), reads_latest|]. intros [|]; [|apply keeps_ret].
    apply keeps_bind; [|intros ?; apply keeps_ret]. apply keeps_in_x, (keeps_statement consented). intros d a d' Hd Hf.
    apply result_bind_ok in Hf as (d1 & Hf & Hd'). simplify_eq/=. by eapply consented_stable; [|eapply close_live_only].
  - intros _. apply keeps_bind; [apply keeps_in_x, (reads_keeps consented), reads_query|]. intros [|]; [apply keeps_ret|].
    apply keeps_governed. intros row w Hc Ht. case_match eqn:Hv; [done|]. apply negb_false_iff, String.eqb_eq in Hv.
    rewrite M_bind_unfold. destruct (patch_x t _ w) as [rp w3] eqn:Hp.
    assert (consented (db w3)); [|by destruct rp].
    replace w3 with (patch_x t (visibilityPatch "private") w).2 by (by rewrite Hp).
    apply (patch_consented t row); [done..|]. by right.
Qed.

Lemma batch_one_consented g s confirmed project live t :
  (confirmed = true -> asks_to_share op t) -> keeps Consented (batch_one u g s confirmed project live t).
Proof.
  intros Hask. unfold batch_one. eapply (keeps_learn consented); [apply learns_in_x, learns_consented_owner|].
  intros row Ho. cbn beta in Ho. destruct (negb (OwnerID row =? u)) eqn:Hown; [apply keeps_throw|]. bool_hyps. rewrite Hown in Ho.
  cbn [orb]. case_match; [apply keeps_throw|]. apply keeps_bind; [apply (reads_keeps consented), reads_latest|]. intros b.
  case_match; [apply keeps_throw|]. destruct b; [apply keeps_ret|].
  apply keeps_bind; [apply keeps_open, consented_stable|]. intros _. apply keeps_governed. intros locked w Hc Ht.
  case_match eqn:Hv; [done|]. apply negb_false_iff, String.eqb_eq in Hv. destruct confirmed; [|done]. cbn [negb].
  rewrite M_bind_unfold. destruct (patch_x t _ w) as [rp w3] eqn:Hp. assert (consented (db w3)); [|by destruct rp].
  replace w3 with (patch_x t (visibilityPatch "shared") w).2 by (by rewrite Hp).
  apply (patch_consented t locked); [done..|]. left. eauto.
Qed.

Lemma batch_all_consented g s confirmed project live ts :
  (confirmed = true -> forall t, asks_to_share op t) -> keeps Consented (batch_all u g s confirmed project live ts).
Proof.
  intros Hask. induction ts as [|t ts IH]; cbn [batch_all]; [apply keeps_ret|].
  apply keeps_bind; [apply batch_one_consented; eauto|]. intros b. apply keeps_bind; [apply IH|]. intros [? ?]. apply keeps_ret.
Qed.

Lemma still_consented {A} (m : M World Response A) :
  keeps (fun w => transcripts (db w) = transcripts d0) m -> leads (fun d => d = d0) consented m.
Proof. intros Hm w Hw. intros t. left. by rewrite (Hm w ltac:(cbn; by rewrite Hw)). Qed.
Lemma keeps_leads {A} (m : M World Response A) : keeps Consented m -> leads (fun d => d = d0) consented m.
Proof. intros Hm w Hw. apply Hm. cbn. rewrite Hw. apply consented_refl. Qed.

Notation Still := (fun w => transcripts (db w) = transcripts d0).
Lemma join_still gh id : keeps Still (JoinGroup gh u id).
Proof. unfold JoinGroup, joinGroupLocked. fixes_walk. Qed.
Lemma promote_still gh id target role : keeps Still (PromoteMember gh u id target role).
Proof. unfold PromoteMember, promoteMemberLocked, require_owner. fixes_walk. Qed.
Lemma review_still gh id t status : keeps Still (ReviewShare gh u id t status).
Proof. unfold ReviewShare, reviewShareLocked, require_owner. fixes_walk. Qed.
Lemma batch_review_still gh id req : keeps Still (BatchReviewShares gh u id req).
Proof. unfold BatchReviewShares, batchReviewSharesLocked, require_owner. fixes_walk. Qed.
Lemma remove_transcript_still gh id t : keeps Still (RemoveGroupTranscript gh u id t).
Proof. unfold RemoveGroupTranscript, removeGroupTranscriptLocked, require_owner. fixes_walk. Qed.
Lemma remove_member_still gh id target retract : keeps Still (RemoveGroupMember gh u id target retract).
Proof. unfold RemoveGroupMember, removeGroupMemberLocked, require_owner. fixes_walk. Qed.
Lemma create_still req : keeps Still (CreateGroup u req).
Proof. unfold CreateGroup, new_group, linked_org. fixes_walk. Qed.
Lemma update_still gh id req : keeps Still (UpdateGroup gh u id req).
Proof. unfold UpdateGroup, updateGroupLocked, require_owner, linked_org. fixes_walk. Qed.
Lemma delete_still gh id : keeps Still (DeleteGroup gh u id).
Proof. unfold DeleteGroup, deleteGroupLocked, require_owner. fixes_walk. Qed.
Lemma invite_still gh id username : keeps Still (CreateGroupInvitation gh u id username).
Proof.
  unfold CreateGroupInvitation, createGroupInvitationLocked, send_invitation, require_owner, row_if_any, takeDailyQuota,
    GetGroupMemberOf. fixes_walk.
Qed.
Lemma revoke_still gh id i : keeps Still (RevokeGroupInvitation gh u id i).
Proof. unfold RevokeGroupInvitation, revokeGroupInvitationLocked, require_owner. fixes_walk. Qed.
Lemma accept_still gh i : keeps Still (AcceptMyInvitation gh u i).
Proof. unfold AcceptMyInvitation, accept_in_tx. fixes_walk. Qed.
Lemma decline_still i : keeps Still (DeclineMyInvitation u i).
Proof. unfold DeclineMyInvitation. fixes_walk. Qed.

Lemma ShareTranscript_consented tid gs :
  (forall t, tid = Some t -> asks_to_share op t) -> keeps Consented (ShareTranscript u tid gs).
Proof.
  intros Hask. unfold ShareTranscript, shareTranscriptLocked.
  eapply (keeps_learn consented); [apply learns_param|]. intros t Ht. cbn beta in Ht.
  repeat (apply keeps_bind; [solve [apply (reads_keeps consented); reads_walk]|intros ?]).
  apply keeps_bind; [|intros [?|[?|]]; eauto with keeps].
  apply keeps_attempt, (keeps_authority_tx consented), share_consented. by apply Hask.
Qed.

Lemma UnshareRoute_consented tid gid :
  (forall t, tid = Some t -> asks_to_unshare op t) -> keeps Consented (UnshareRoute u tid gid).
Proof.
  intros Hask. unfold UnshareRoute.
  eapply (keeps_learn consented); [apply learns_param|]. intros t Ht. cbn beta in Ht.
  apply keeps_bind; [apply keeps_param|]. intros g.
  eapply (keeps_learn consented); [apply learns_or_refuse, learns_consented_owner|]. intros row Ho. cbn beta in Ho.
  unfold refuse_if. destruct (negb (OwnerID row =? u)) eqn:Hown; [by intros w ?|]. bool_hyps. rewrite Hown in Ho.
  do 2 (apply keeps_bind; [solve [apply (reads_keeps consented); reads_walk]|intros ?]).
  apply keeps_bind; [|intros [?|?]; eauto with keeps].
  apply keeps_attempt, (keeps_in_tx consented), unshare_consented; [by apply Hask|done].
Qed.

Lemma BatchShareProject_consented gid req :
  (forall r t, req = Some r -> VisibilityConfirmed r = true -> asks_to_share op t) ->
  keeps Consented (BatchShareProject u gid req).
Proof.
  intros Hask. unfold BatchShareProject. apply keeps_bind; [apply keeps_param|]. intros g.
  eapply (keeps_learn consented); [apply learns_param|]. intros r Hreq. cbn beta in Hreq.
  eapply (keeps_learn consented); [apply learns_param|]. intros [[project requested] confirmed] Hdec. cbn beta in Hdec.
  assert (confirmed = true -> forall t, asks_to_share op t) as Hall.
  { intros -> t. apply (Hask r); [done|]. unfold decodeBatchShareRequest in Hdec. case_match; [done|].
    destruct (mapM id (TranscriptIDs r)); by simplify_eq/=. }
  repeat (apply keeps_bind; [solve [apply (reads_keeps consented);
    unfold shareStatusForGroup, hasOrgMembership, hasAnyOrgMembership; reads_walk]|intros ?]; cbv zeta).
  apply keeps_bind; [|intros [[? ?]|[?|]]; eauto with keeps]. apply keeps_attempt, (keeps_authority_tx consented).
  apply keeps_bind; [apply (reads_keeps consented), reads_finalShareStatus|]. intros s. case_match; [apply keeps_throw|].
  apply keeps_bind; [by apply batch_all_consented|]. intros [? ?]. case_match; eauto with keeps.
Qed.
End visibility.

Lemma perform_consented `{Env, UnicodeTables} gh u op w :
  consented (db w) u op (db (perform gh u op w).2).
Proof.
  assert (leads (fun d => d = db w) (consented (db w) u op) (perform gh u op)) as Hl; [|by apply Hl].
  destruct op; cbn [perform].
  - apply keeps_leads, ShareTranscript_consented. by intros ? ->.
  - apply keeps_leads, UnshareRoute_consented. by intros ? ->.
  - apply keeps_leads, BatchShareProject_consented. by intros r t -> ?.
  - apply still_consented, review_still.
  - apply still_consented, batch_review_still.
  - apply still_consented, remove_transcript_still.
  - apply still_consented, join_still.
  - apply still_consented, promote_still.
  - apply still_consented, remove_member_still.
  - apply still_consented, create_still.
  - apply still_consented, update_still.
  - apply still_consented, delete_still.
  - apply still_consented. apply keeps_bind; [apply invite_still|]. intros [? ?]. apply keeps_ret.
  - apply still_consented, revoke_still.
  - apply still_consented, accept_still.
  - apply still_consented, decline_still.
Qed.

(** Also: on these routes a transcript changes only in its visibility, and only at
    its owner's own request: private to shared when the owner shares that
    transcript or shares a project having confirmed the visibility change, shared
    to private when the owner withdraws it. Nothing here makes one public, and
    no collective's owner can touch it. *)
Theorem only_its_owner_changes_visibility `{Env, UnicodeTables} (gh : bool) (u : Z) (op : Operation) (w : World) (t : string) :
  let d := db w in let d' := db (responds gh u op w).2 in
  transcripts d' !! t = transcripts d !! t \/
  exists row, transcripts d !! t = Some row /\ OwnerID row = u /\
    ((asks_to_share op t /\ Visibility row = "private" /\ transcripts d' !! t = Some (with_visibility "shared" row)) \/
     (asks_to_unshare op t /\ Visibility row = "shared" /\ transcripts d' !! t = Some (with_visibility "private" row))).
Proof.
  cbn zeta. unfold responds. pose proof (perform_consented gh u op w t) as Hc. by destruct (perform gh u op w) as [r w'].
Qed.
End ShareLaws.
