(* ===== verification/ShareOutcome.v ===== *)
(** * What a share and a withdrawal leave behind

    The functional behaviour of the share and unshare routes, and of a member
    who leaves: what an answered request did to every pair of transcript and
    collective, and the one history that stops a member's contributions from
    being withdrawn. *)
From S2P Require Import Prelude GoText Regex Governance CollectiveStore Collectives Invitations CollectiveRoutes LedgerLaws CollectiveLaws ShareLaws.

Open Scope string_scope.
Open Scope list_scope.
Open Scope Z_scope.

Module ShareOutcome.
Import Governance CollectiveStore Collectives Invitations CollectiveRoutes LedgerLaws CollectiveLaws ShareLaws.

(** The pair is as it was if it was open; otherwise it has one further event, in
    the state the collective takes submissions in. *)
Definition submitted (d d' : Db) (t : string) (g : Z) : Prop :=
  let h := history d t g in
  if live_now h then history d' t g = h
  else exists group, groups d !! g = Some group /\
    history d' t g = <[last_num h + 1 := mkAttempt (opening_status group) (now d) None None]> h.

Lemma latest_next h a : latest (<[last_num h + 1 := a]> h) = Some (last_num h + 1, a).
Proof.
  apply latest_some. split; [by rewrite lookup_insert_eq|]. intros m b [[-> _]|[_ Hm]]%lookup_insert_Some; [lia|].
  unfold last_num. destruct (latest h) as [[n c]|] eqn:Hl.
  - apply latest_some in Hl as [_ Hmax]. specialize (Hmax _ _ Hm). lia.
  - apply latest_none in Hl as ->. by rewrite lookup_empty in Hm.
Qed.

Lemma submitted_live d d' t g : submitted d d' t g -> live_now (history d' t g) = true.
Proof.
  unfold submitted. destruct (live_now (history d t g)) eqn:Hl; [by intros ->|]. intros (group & _ & ->).
  unfold live_now. rewrite latest_next. cbn. apply opening_status_live.
Qed.

Lemma share_with_status_spec t g s d d' :
  share_with_status t g s d = Ok d' ->
  ledger_only d d' /\ history d' t g = <[last_num (history d t g) + 1 := mkAttempt s (now d) None None]> (history d t g).
Proof.
  intros Hs. split; [by eapply insert_attempt_only|]. apply insert_attempt_inv in Hs as (_ & -> & _).
  rewrite history_set. by rewrite decide_True.
Qed.

Section outcome.
Context `{Env, UnicodeTables}.

Lemma open_targets_outcome u t targets : forall w n w',
  NoDup targets.*1.*1 -> Forall (target_ok u (db w) t) targets -> open_targets t targets w = (Ok n, w') ->
  ledger_only (db w) (db w') /\ (forall g, g ∈ targets.*1.*1 -> submitted (db w) (db w') t g) /\
  forall t' g', ~ (t' = t /\ g' ∈ targets.*1.*1) -> history (db w') t' g' = history (db w) t' g'.
Proof.
  induction targets as [|[[g s] live] rest IH]; cbn [open_targets]; intros w n w' Hnd Hall Hr.
  { unfold mret, M_ret in Hr. simplify_eq. split_and!; [done|by intros g ?%elem_of_nil|done]. }
  apply NoDup_cons in Hnd as [Hnotin Hnd]. apply Forall_cons in Hall as [(Hacc & Hopens & Hnow) Hall]. cbn in *.
  destruct live.
  - destruct (IH _ _ _ Hnd Hall Hr) as (Honly & Hsub & Hother). split_and!; [done| |].
    + intros g' [->|Hin]%elem_of_cons; [|by apply Hsub]. unfold submitted. rewrite <- Hnow. apply Hother. by intros [].
    + intros t' g' Hne. apply Hother. intros [-> Hin]. apply Hne. split; [done|by right].
  - apply bind_ok_inv in Hr as ([] & w1 & Hopen & Hr). apply bind_ok_inv in Hr as (k & w2 & Hrest & Hr).
    unfold mret, M_ret in Hr. simplify_eq. apply open_attempt_cases in Hopen as [[_ Hs]|[_ [? ?]]]; [|done].
    pose proof (share_with_status_other t g s (db w) (db w1)) as Hother1. apply share_with_status_spec in Hs as Hs'.
    destruct Hs' as [Honly1 Hhist]. assert (Forall (target_ok u (db w1) t) rest) as Hrest'.
    { apply Forall_forall. intros [[g' s'] live'] Hin. rewrite Forall_forall in Hall. destruct (Hall _ Hin) as (Ha & Ho & Hn).
      unfold target_ok, accepted_member, opens_as, admits in *. cbn in *. rewrite Honly1. cbn. split_and!; [done..|].
      rewrite <- Honly1, Hother1; [done..|]. intros [= <-]. apply Hnotin, list_elem_of_fmap. exists (g', s').
      split; [done|]. apply list_elem_of_fmap. by exists (g', s', live'). }
    destruct (IH _ _ _ Hnd Hrest' Hrest) as (Honly2 & Hsub & Hother). split_and!; [by transitivity (db w1)| |].
    + intros g' [->|Hin]%elem_of_cons.
      * unfold submitted. rewrite <- Hnow. destruct Hopens as (group & Hg & -> & _). exists group. split; [done|].
        rewrite Hother; [done|]. by intros [].
      * specialize (Hsub g' Hin). unfold submitted in *. rewrite (Hother1 t g') in Hsub; [|done|by intros [= ->]].
        assert (groups (db w1) = groups (db w) /\ now (db w1) = now (db w)) as [Hg1 Hn1] by (by rewrite Honly1).
        by rewrite Hg1, Hn1 in Hsub.
    + intros t' g' Hne. rewrite Hother; [apply Hother1; [done|]|].
      * intros [= -> ->]. apply Hne. split; [done|by left].
      * intros [-> Hin]. apply Hne. split; [done|by right].
Qed.

(** The transcript a granted share leaves. *)
Definition shared_row (row : Transcript) : Transcript :=
  if String.eqb (Visibility row) "private" then with_visibility "shared" row else row.

(** What a granted share of [t] with [gs] did. *)
Definition share_granted (d d' : Db) (u : Z) (t : string) (gs : list Z) : Prop :=
  (exists row, transcripts d !! t = Some row /\ OwnerID row = u /\ transcripts d' !! t = Some (shared_row row)) /\
  (forall g, g ∈ gs -> accepted_member d g u /\ submitted d d' t g) /\
  forall t' g', ~ (t' = t /\ g' ∈ gs) -> history d' t' g' = history d t' g'.

Lemma share_in_tx_granted u t gs w rows w' :
  NoDup gs -> share_in_tx u t gs w = (Ok rows, w') -> share_granted (db w) (db w') u t gs.
Proof.
  unfold share_in_tx. intros Hnd Hr. apply bind_ok_inv in Hr as (row & w1 & Hg & Hr). apply in_x_query in Hg as [Hd1 Hg].
  specialize (Hg _ eq_refl). destruct (negb (OwnerID row =? u)) eqn:Hown; [done|]. bool_hyps.
  apply bind_ok_inv in Hr as (targets & w2 & Ht & Hr). apply (reads_run _ _ _ _ (reads_targets u t gs)) in Ht as Hd2.
  apply read_targets_spec in Ht as [<- Hall]. rewrite <- Hd2 in Hall.
  apply bind_ok_inv in Hr as (opened & w3 & Ho & Hr). apply (open_targets_outcome u) in Ho as (Honly & Hsub & Hother); [|done..].
  rewrite Hd2, Hd1 in *. case_match; [done|]. apply bind_ok_inv in Hr as ([] & w4 & Hp & Hr).
  apply in_x_query in Hr as [Hd5 _]. rewrite Hd5.
  assert (ledger (db w4) = ledger (db w3) /\ transcripts (db w4) !! t = Some (shared_row row)) as [Hl4 Ht4].
  { assert (transcripts (db w3) !! t = Some row) as Hrow.
    { rewrite Honly. cbn. by destruct (transcripts (db w) !! t); simplify_eq/=. }
    unfold shared_row. destruct (String.eqb (Visibility row) "private").
    - apply bind_ok_inv in Hp as (row' & w5 & Hp & Hr5). unfold mret, M_ret in Hr5. simplify_eq.
      apply patch_run in Hp as [[_ [? ?]]|(row2 & Hrow2 & ->)]; [done|]. cbn. rewrite lookup_insert_eq. split; [done|congruence].
    - unfold mret, M_ret in Hp. by simplify_eq. }
  split_and!.
  - exists row. split_and!; [by destruct (transcripts (db w) !! t); simplify_eq/=|done|done].
  - intros g Hin. specialize (Hsub g Hin). split.
    + apply list_elem_of_fmap in Hin as (y & -> & (x & -> & Hin)%list_elem_of_fmap).
      rewrite Forall_forall in Hall. by destruct (Hall _ Hin).
    + unfold submitted, history in *. by rewrite Hl4.
  - intros t' g' Hne. unfold history. rewrite Hl4. by apply Hother.
Qed.

Lemma share_refuses u tid ids : fails_with refusal (ShareTranscript u tid ids).
Proof.
  unfold ShareTranscript, shareTranscriptLocked, inCollectiveAuthorityTx.
  do 10 (apply fails_bind; [solve [fails_walk]|intros ?; cbv zeta]).
  apply fails_after_tx; [|intros ?; apply fails_ret|intros [r|] Hr; by apply fails_throw].
  apply fails_bind; [apply fails_in_x|intros _].
  assert (forall g, fails_with tx_refusal (finalShareStatus u g)) as Hstatus.
  { intros g. unfold finalShareStatus, shareStatusForGroup. fails_walk. }
  assert (forall t g, fails_with tx_refusal (latest_is_live t g)) as Hlive. { intros t g. unfold latest_is_live. fails_walk. }
  assert (forall t gs, fails_with tx_refusal (read_targets u t gs)) as Hread.
  { intros t gs. induction gs as [|g gs IH]; cbn [read_targets]; [apply fails_ret|]. repeat (apply fails_bind; [done|intros ?]).
    apply fails_ret. }
  assert (forall t targets, fails_with tx_refusal (open_targets t targets)) as Hopen.
  { intros t targets. induction targets as [|[[g s] [|]] rest IH]; cbn [open_targets]; [apply fails_ret|done|].
    unfold open_attempt. repeat (apply fails_bind; [solve [fails_walk; done]|intros ?]). apply fails_ret. }
  unfold share_in_tx, patch_x. fails_walk.
Qed.

(** Also: a share answered with success put the transcript in every collective the
    request named: its owner asked, an accepted member of each; each now has it
    open, by an event added in the state that collective takes submissions in
    unless it was open there already; a private transcript became shared; no other
    pair changed. *)
Theorem share_reaches_every_collective gh u t ids w b w' :
  responds gh u (OpShare (Some t) ids) w = (mkResponse 200 b, w') ->
  exists gs, (ids ≫= mapM id) = Some gs /\ gs <> [] /\ share_granted (db w) (db w') u t gs /\
    forall g, g ∈ gs -> live_now (history (db w') t g) = true.
Proof.
  unfold responds. destruct (perform gh u (OpShare (Some t) ids) w) as [r w1] eqn:Hrun. cbn [perform] in Hrun.
  intros [= Hr ->]. destruct r as [resp|resp]; cbn in Hr; subst resp; [|by apply share_refuses in Hrun].
  unfold ShareTranscript, shareTranscriptLocked in Hrun.
  apply bind_ok_inv in Hrun as (t' & w2 & [[= <-] ->]%param_inv & Hrun).
  apply bind_ok_inv in Hrun as (row & w3 & [Hd1 _]%or_refuse_query & Hrun).
  apply bind_ok_inv in Hrun as (? & ? & [_ ->]%refuse_if_inv & Hrun).
  apply bind_ok_inv in Hrun as (ids' & ? & [-> ->]%param_inv & Hrun).
  apply bind_ok_inv in Hrun as (? & w4 & [Hd2 _]%or_refuse_query & Hrun).
  apply bind_ok_inv in Hrun as (row' & w5 & [Hd3 _]%or_refuse_query & Hrun).
  apply bind_ok_inv in Hrun as (? & ? & [_ ->]%refuse_if_inv & Hrun).
  apply bind_ok_inv in Hrun as (ids & ? & [[= ->] ->]%param_inv & Hrun).
  apply bind_ok_inv in Hrun as (parsed & ? & [Hparsed ->]%param_inv & Hrun).
  apply bind_ok_inv in Hrun as (? & ? & [Hne ->]%refuse_if_inv & Hrun). bool_hyps.
  apply bind_ok_inv in Hrun as (res & w6 & Htx & Hrun). apply attempt_inv in Htx.
  destruct res as [rows|[?|]]; [|done..]. unfold mret, M_ret in Hrun. injection Hrun as <- <-.
  apply authority_tx_ok in Htx as (w7 & w8 & Hd4 & Hshare & Hd5).
  destruct (dedup_spec parsed []) as [Hnd Hdedup].
  apply share_in_tx_granted in Hshare as (Hrow & Hall & Hother); [|done]. rewrite Hd5, <- Hd1, <- Hd2, <- Hd3, <- Hd4.
  assert (forall g, g ∈ parsed <-> g ∈ dedup [] parsed) as Hsame. { intros g. rewrite Hdedup. set_solver. }
  exists parsed. split_and!; [done|by intros ->|split_and!; [done| |]|].
  - intros g Hin%Hsame. by apply Hall.
  - intros t' g' Hnot. apply Hother. by rewrite <- Hsame.
  - intros g Hin%Hsame. eapply submitted_live. by apply Hall.
Qed.

(** ** Withdrawing *)

(** An open submission is closed in place; an accepted one gets a further
    event; what was not open is as it was. *)
Definition withdrawn (d d' : Db) (t : string) (g : Z) : Prop :=
  let h := history d t g in
  match latest h with
  | Some (n, a) => match Status a with
    | Pending => history d' t g = <[n := decide_attempt Retracted (now d) None a]> h
    | Approved => history d' t g = <[n + 1 := mkAttempt Retracted (now d) (Some (now d)) None]> h
    | _ => history d' t g = h
    end
  | None => history d' t g = h
  end.

Lemma withdrawn_not_live d d' t g : withdrawn d d' t g -> live_now (history d' t g) = false.
Proof.
  unfold withdrawn. destruct (latest (history d t g)) as [[n a]|] eqn:Hl.
  - destruct (Status a) eqn:Ha; intros ->; try (unfold live_now; by rewrite Hl, Ha).
    + unfold live_now. by rewrite (latest_update _ _ _ _ Hl).
    + replace (n + 1) with (last_num (history d t g) + 1) by (unfold last_num; by rewrite Hl).
      unfold live_now. by rewrite latest_next.
  - intros ->. unfold live_now. by rewrite Hl.
Qed.

(** The latest live event is the latest one when that one is live. *)
Lemma live_is_latest h n a :
  latest h = Some (n, a) -> is_live (Status a) = true -> latest_where (fun a => is_live (Status a)) h = Some (n, a).
Proof. intros [Hn Hmax]%latest_some Ha. apply latest_where_some. split_and!; [done..|]. intros m b Hm _. eauto. Qed.

Lemma close_live_withdraws t g d d' :
  live_now (history d t g) = true -> close_live Retracted t g d = Ok d' -> withdrawn d d' t g.
Proof.
  intros (n & a & Hl & Ha)%live_now_spec Hc. unfold close_live in Hc. rewrite (live_is_latest _ _ _ Hl Ha) in Hc.
  unfold withdrawn. rewrite Hl. unfold is_pending in Hc. destruct (Status a) eqn:Hs; try done; cbn in Hc.
  - injection Hc as <-. rewrite history_set. by rewrite decide_True.
  - apply insert_attempt_inv in Hc as (_ & -> & _). rewrite history_set. by rewrite decide_True.
Qed.

Lemma close_live_other s t g d d' t' g' :
  close_live s t g d = Ok d' -> (t', g') <> (t, g) -> history d' t' g' = history d t' g'.
Proof.
  unfold close_live. intros Hc Hne. destruct (latest_where _ _) as [[n a]|]; [|by simplify_eq]. case_match.
  - injection Hc as <-. rewrite history_set. by rewrite decide_False.
  - apply insert_attempt_inv in Hc as (_ & -> & _). rewrite history_set. by rewrite decide_False.
Qed.

Definition narrowed_row (d : Db) (t : string) (row : Transcript) : Transcript :=
  if negb (has_live d t) && String.eqb (Visibility row) "shared" then with_visibility "private" row else row.

Lemma withdrawLiveShare_spec t g w b w' :
  withdrawLiveShare t g w = (Ok b, w') ->
  ledger_only (db w) (db w') /\ withdrawn (db w) (db w') t g /\
  forall t' g', (t', g') <> (t, g) -> history (db w') t' g' = history (db w) t' g'.
Proof.
  unfold withdrawLiveShare. intros (live & w1 & Hl & Hr)%bind_ok_inv.
  apply (reads_run _ _ _ _ (reads_latest t g)) in Hl as Hd. apply latest_live_spec in Hl. destruct live.
  - apply bind_ok_inv in Hr as ([] & w2 & Hu & Hr). unfold mret, M_ret in Hr. simplify_eq.
    apply in_x_cases in Hu as (r1 & Hu & Hok). specialize (Hok _ eq_refl). subst r1.
    apply stmt_cases in Hu as [(a & d' & Hf & _ & ->)|(e & ? & _)]; [|done].
    apply result_bind_ok in Hf as (d1 & Hf & Hd'). simplify_eq/=. rewrite Hd in *.
    split_and!; [by eapply close_live_only|by apply close_live_withdraws|]. intros t' g'. by eapply close_live_other.
  - unfold mret, M_ret in Hr. simplify_eq. rewrite Hd. split_and!; [done| |done].
    unfold withdrawn. unfold live_now in Hl. destruct (latest _) as [[n a]|]; [|done]. by destruct (Status a).
Qed.

Lemma unshareAndNarrow_spec t g row w b w' :
  transcripts (db w) !! t = Some row -> unshareAndNarrow t g w = (Ok b, w') ->
  withdrawn (db w) (db w') t g /\
  (forall t' g', (t', g') <> (t, g) -> history (db w') t' g' = history (db w) t' g') /\
  transcripts (db w') !! t = Some (narrowed_row (db w') t row).
Proof.
  intros Hrow. unfold unshareAndNarrow. intros (x & w1 & Hw & Hr)%bind_ok_inv.
  apply withdrawLiveShare_spec in Hw as (Honly & Hwd & Hother).
  assert (transcripts (db w1) !! t = Some row) as Hrow1 by (rewrite Honly; done).
  apply bind_ok_inv in Hr as (live & w2 & Hl & Hr). apply in_x_query in Hl as [Hd2 Hl]. specialize (Hl _ eq_refl).
  injection Hl as Hl. assert (forall d, ledger d = ledger (db w1) -> has_live d t = live) as Hlive.
  { intros d Hled. unfold has_live in *. by rewrite Hled. }
  unfold narrowed_row. destruct live.
  { unfold mret, M_ret in Hr. simplify_eq. rewrite Hd2, Hl. by split_and!. }
  apply bind_ok_inv in Hr as (pre & w3 & Hg & Hr). apply in_x_query in Hg as [Hd3 Hg]. specialize (Hg _ eq_refl).
  rewrite Hd2 in Hd3, Hg. rewrite Hrow1 in Hg. injection Hg as <-. destruct (String.eqb (Visibility row) "shared"); cbn [negb] in Hr.
  - apply bind_ok_inv in Hr as (row' & w4 & Hp & Hr). unfold mret, M_ret in Hr. simplify_eq.
    apply patch_run in Hp as [[_ [? ?]]|(row2 & Hrow2 & ->)]; [done|]. rewrite Hd3 in *.
    rewrite (Hlive (set_transcripts _ _)) by done. cbn. rewrite lookup_insert_eq. split_and!; [done|done|congruence].
  - unfold mret, M_ret in Hr. simplify_eq. rewrite Hd3. rewrite andb_false_r. by split_and!.
Qed.

Lemma unshare_refuses u tid gid : fails_with refusal (UnshareRoute u tid gid).
Proof.
  unfold UnshareRoute, inCollectiveAuthorityTx. do 5 (apply fails_bind; [solve [fails_walk]|intros ?]).
  apply fails_after_tx; [|intros ?; apply fails_ret|intros e _; by apply fails_throw].
  unfold unshareAndNarrow, withdrawLiveShare, latest_is_live, patch_x. fails_walk.
Qed.

(** Also: a withdrawal answered with success left the transcript with nothing open
    in that collective, whatever it found: an open submission is closed, an
    acceptance kept and followed by a retraction, anything else untouched. The
    transcript is narrowed to private exactly when it was shared and no collective
    holds it open any more; no other pair changed. *)
Theorem unshare_withdraws gh u t g w b w' :
  responds gh u (OpUnshare (Some t) (Some g)) w = (mkResponse 200 b, w') ->
  exists row, transcripts (db w) !! t = Some row /\ OwnerID row = u /\
    withdrawn (db w) (db w') t g /\ live_now (history (db w') t g) = false /\
    (forall t' g', (t', g') <> (t, g) -> history (db w') t' g' = history (db w) t' g') /\
    transcripts (db w') !! t = Some (narrowed_row (db w') t row).
Proof.
  unfold responds. destruct (perform gh u (OpUnshare (Some t) (Some g)) w) as [r w1] eqn:Hrun. cbn [perform] in Hrun.
  intros [= Hr ->]. destruct r as [resp|resp]; cbn in Hr; subst resp; [|by apply unshare_refuses in Hrun].
  unfold UnshareRoute in Hrun.
  apply bind_ok_inv in Hrun as (? & ? & [[= <-] ->]%param_inv & Hrun).
  apply bind_ok_inv in Hrun as (? & ? & [[= <-] ->]%param_inv & Hrun).
  apply bind_ok_inv in Hrun as (row & w2 & [Hd1 Hrow]%or_refuse_query & Hrun).
  apply bind_ok_inv in Hrun as (? & ? & [Hown ->]%refuse_if_inv & Hrun). bool_hyps.
  apply bind_ok_inv in Hrun as (? & w3 & [Hd2 _]%or_refuse_query & Hrun).
  apply bind_ok_inv in Hrun as (res & w4 & Htx & Hrun). apply attempt_inv in Htx.
  destruct res as [narrowed|?]; [|done]. unfold mret, M_ret in Hrun. injection Hrun as _ <-.
  apply in_tx_run in Htx as [(a & w5 & Htx & Hd3 & _)|[_ (? & ? & _)]]; [|done].
  assert (transcripts (db w) !! t = Some row) as Ht by (by destruct (transcripts (db w) !! t); simplify_eq/=).
  apply (unshareAndNarrow_spec t g row) in Htx as (Hwd & Hother & Hrow'); [|cbn; by rewrite Hd2, Hd1].
  cbn [db begun] in Hwd, Hother. rewrite Hd2, Hd1 in Hwd, Hother. rewrite Hd3.
  exists row. split_and!; [done..|by eapply withdrawn_not_live|done|done].
Qed.

(** ** A member who leaves *)
Lemma close_live_leaves_nothing s t g d d' :
  ledger_ok d -> s = Retracted \/ s = Revoked -> close_live s t g d = Ok d' ->
  ledger_ok d' /\ live_now (history d' t g) = false.
Proof.
  intros Hok Hs Hc. split.
  - assert (exists d0 op, may_end d0 0 op t g s) as (d0 & op & Hmay).
    { destruct Hs as [->| ->].
      - exists (set_transcripts (<[t := mkTranscript 0 "" "" 0 None None "" None]> ∅) d), (OpUnshare (Some t) (Some g)).
        split_and!; [done..|]. unfold owner_of. cbn. by rewrite lookup_insert_eq.
      - exists (set_members (<[(g, 0) := mkMember "owner" "creator"]> ∅) d), (OpRemoveTranscript (Some g) (Some t)).
        split_and!; [done..|]. exists (mkMember "owner" "creator"). cbn. by rewrite lookup_insert_eq. }
    by destruct (close_live_moved d0 0 op s t g d d' Hmay Hc Hok).
  - destruct Hok as [_ Hok]. destruct (Hok t g) as [[k Hk] Hopen]. unfold close_live in Hc.
    destruct (latest_where _ _) as [[n a]|] eqn:Hl.
    + apply latest_where_some in Hl as (Hn & Hlive & _). destruct (is_pending (Status a)) eqn:Hp.
      * injection Hc as <-. rewrite history_set, decide_True by done. unfold is_pending in Hp. bool_hyps.
        unfold live_now. rewrite (latest_update _ _ _ _ (Hopen n a Hn Hp)). cbn. by destruct Hs as [->| ->].
      * apply insert_attempt_inv in Hc as (Hfree & -> & _). rewrite history_set, decide_True by done.
        assert (n = k) as ->.
        { destruct Hk as [_ Hk]. assert (1 <= n <= k) by (apply Hk; eauto). destruct (decide (n = k)); [done|].
          assert (is_Some (history d t g !! (n + 1))) as [? ?] by (apply Hk; lia). congruence. }
        unfold live_now. rewrite (latest_append _ _ _ Hk). cbn. by destruct Hs as [->| ->].
    + injection Hc as <-. unfold live_now. destruct (latest (history d t g)) as [[n a]|] eqn:Hlast; [|done].
      apply latest_some in Hlast as [Hn _]. by apply (proj1 (latest_where_none _ _) Hl n).
Qed.

Lemma close_all_leaves_nothing s g ts : forall d d',
  ledger_ok d -> s = Retracted \/ s = Revoked -> close_all s g ts d = Ok d' ->
  ledger_ok d' /\ forall t, t ∈ ts \/ live_now (history d t g) = false -> live_now (history d' t g) = false.
Proof.
  induction ts as [|t ts IH]; intros d d' Hok Hs Hc.
  { injection Hc as <-. split; [done|]. by intros t [?%elem_of_nil|?]. }
  cbn [close_all] in Hc. apply result_bind_ok in Hc as (d1 & H1 & H2).
  destruct (close_live_leaves_nothing _ _ _ _ _ Hok Hs H1) as [Hok1 Hnot]. destruct (IH _ _ Hok1 Hs H2) as [Hok2 Hall].
  split; [done|]. intros t' Ht'. apply Hall. destruct (decide (t' = t)) as [->|Hne]; [by right|].
  rewrite elem_of_cons in Ht'. destruct Ht' as [[?|?]|?]; [done|by left|right].
  rewrite (close_live_other _ _ _ _ _ _ _ H1); [done|]. by intros [= ->].
Qed.

(** A stale acceptance stays one while other transcripts are closed. *)
Lemma close_all_fails s g ts t : forall d,
  t ∈ ts -> stale_acceptance (history d t g) = true -> exists e, close_all s g ts d = Err e.
Proof.
  induction ts as [|t' ts IH]; intros d Hin Hstale; [by apply elem_of_nil in Hin|]. cbn [close_all]. unfold mbind.
  destruct (close_live s t' g d) as [d1|e] eqn:Hc; cbn; [|eauto]. destruct (decide (t = t')) as [<-|Hne].
  - destruct (close_live_fails s t g d Hstale). congruence.
  - apply IH; [by apply elem_of_cons in Hin as [?|?]|]. rewrite (close_live_other _ _ _ _ _ _ _ Hc); [done|]. by intros [= ->].
Qed.

Lemma elem_of_owned d u t : t ∈ owned_by u d <-> owner_of d t = Some u.
Proof.
  unfold owned_by, owner_of. rewrite list_elem_of_fmap. split.
  - intros ([t' row] & -> & Hin). apply list_elem_of_In, filter_In in Hin as [Hin Hrow]. bool_hyps. cbn in *.
    apply list_elem_of_In, elem_of_map_to_list in Hin. rewrite Hin. cbn. by rewrite Hrow.
  - destruct (transcripts d !! t) as [row|] eqn:Ht; [|done]. intros [= Hown]. exists (t, row). split; [done|].
    apply list_elem_of_In, filter_In. split; [by apply list_elem_of_In, elem_of_map_to_list|]. cbn. by apply Z.eqb_eq.
Qed.

(** Whether what the member shared is to be withdrawn when they go. *)
Definition must_retract (d : Db) (g : Z) (retract : bool) : bool :=
  retract || match groups d !! g with Some group => String.eqb (TranscriptDeletionPolicy group) "mandatory" | None => false end.

Lemma remove_member_run u target retract g w rr w' :
  removeGroupMemberLocked u (Some target) retract g w = (rr, w') -> code (answer rr (fun r => r)) < 400 ->
  exists withdraws,
    rr = Ok (mkResponse 200 (BRemoved withdraws)) /\ (retract = true -> withdraws = true) /\
    (target = u \/ group_owner (db w) g u) /\
    (forall m, members (db w) !! (g, target) = Some m -> Origin m <> "creator") /\
    let d1 := set_members (delete (g, target) (members (db w))) (db w) in
    if withdraws then close_all Retracted g (owned_by target d1) d1 = Ok (db w') else db w' = d1.
Proof.
  intros Hrun Hcode. destruct rr as [resp|resp].
  2: { assert (fails_with refusal (removeGroupMemberLocked u (Some target) retract g)) as Hf.
       { unfold removeGroupMemberLocked, require_owner. fails_walk. }
       apply Hf in Hrun. unfold refusal in Hrun. cbn in Hcode. lia. }
  unfold removeGroupMemberLocked in Hrun. apply bind_ok_inv in Hrun as (? & ? & [[= <-] ->]%param_inv & Hrun).
  apply bind_ok_inv in Hrun as ([] & w1 & Hown & Hrun).
  assert (db w1 = db w /\ (target = u \/ group_owner (db w) g u)) as [Hd1 Hauth].
  { destruct (target =? u) eqn:Ht; bool_hyps; [injection Hown as <-; auto|]. apply require_owner_inv in Hown as [? ?]. auto. }
  apply bind_ok_inv in Hrun as (member & w2 & Hmem & Hrun). apply attempt_inv in Hmem. pose proof Hmem as Hmem'.
  apply query_cases in Hmem as [Hd2 Hmem]. apply bind_ok_inv in Hrun as ([] & w3 & Hcreator & Hrun).
  assert (db w3 = db w2 /\ forall m, members (db w1) !! (g, target) = Some m -> Origin m <> "creator") as [Hd3 Horigin].
  { destruct member as [m|[| |]]; try done.
    - apply refuse_if_inv in Hcreator as [Hc ->]. split; [done|]. intros m' Hm'. specialize (Hmem m eq_refl).
      rewrite Hm' in Hmem. simplify_eq/=. by apply String.eqb_neq.
    - injection Hcreator as <-. split; [done|]. intros m' Hm'. unfold GetGroupMember, query, stmt in Hmem'.
      destruct (served _); [|done..]. by rewrite Hm' in Hmem'. }
  apply bind_ok_inv in Hrun as (group & w4 & Hgroup & Hrun). apply attempt_inv in Hgroup. apply query_cases in Hgroup as [Hd4 _].
  cbv zeta in Hrun. set (withdraws := orb _ _) in Hrun. apply bind_ok_inv in Hrun as ([] & w5 & Hdel & Hrun).
  apply or_refuse_inv in Hdel. apply stmt_cases in Hdel as [(? & d5 & [= _ <-] & _ & Hd5)|(? & ? & _)]; [|done].
  apply bind_ok_inv in Hrun as ([] & w6 & Hclose & Hrun). unfold mret, M_ret in Hrun. injection Hrun as <- <-.
  rewrite Hd4, Hd3, Hd2, Hd1 in Hd5. exists withdraws. split_and!; [done|by intros ->|done|by rewrite Hd1 in Horigin|].
  destruct withdraws.
  - apply or_refuse_inv in Hclose. apply stmt_cases in Hclose as [(? & d6 & Hf & _ & Hd6)|(? & ? & _)]; [|done].
    rewrite Hd5 in Hf. apply result_bind_ok in Hf as (d7 & Hf & [= _ <-]). by rewrite Hd6.
  - injection Hclose as <-. done.
Qed.

(** Also: a member who goes with their contributions withdrawn (at their request, or
    because the collective demands it) leaves nothing open behind: the membership
    is gone, and no transcript of theirs is pending or accepted in the collective.
    Only they or its owner can ask it, and its creator is never removed. *)
Theorem leaving_leaves_nothing_open gh u g target retract w withdraws w' :
  ledger_ok (db w) ->
  responds gh u (OpRemoveMember (Some g) (Some target) retract) w = (mkResponse 200 (BRemoved withdraws), w') ->
  (target = u \/ group_owner (db w) g u) /\
  (forall m, members (db w) !! (g, target) = Some m -> Origin m <> "creator") /\
  members (db w') !! (g, target) = None /\ (retract = true -> withdraws = true) /\
  (withdraws = true -> forall t, owner_of (db w) t = Some target -> live_now (history (db w') t g) = false).
Proof.
  intros Hok. unfold responds. destruct (perform gh u _ w) as [r w1] eqn:Hrun. intros [= Hr ->]. cbn [perform] in Hrun.
  apply mutateCollective_run in Hrun as [(g' & w2 & rr & w3 & [= <-] & Hd & Hmut & Hd' & Hcode & Hres)|[_ Hcode]];
    [|by rewrite Hr in Hcode].
  apply remove_member_run in Hmut as (b & -> & Hretract & Hauth & Horigin & Hdone); [|done]. cbn in Hres.
  destruct Hres as [->|[-> _]]; [|done]. injection Hr as ->. rewrite Hd in *. rewrite Hd'. cbv zeta in Hdone.
  set (d1 := set_members _ _) in Hdone.
  assert (members d1 !! (g, target) = None) as Hgone by apply lookup_delete_eq.
  split_and!; [done|done| |done|].
  - destruct withdraws; [|by rewrite Hdone]. by rewrite (close_all_only _ _ _ _ _ Hdone).
  - intros -> t Ht. assert (ledger_ok d1) as Hok1 by exact Hok.
    destruct (close_all_leaves_nothing _ _ _ _ _ Hok1 (or_introl eq_refl) Hdone) as [_ Hall]. apply Hall. left.
    by apply elem_of_owned.
Qed.

(** Also: the withdrawal of a departing member's contributions, and the removal of a
    contribution, start from the latest LIVE event of a pair, which need not be its
    latest event. A transcript that was accepted once and is no longer (withdrawn,
    or offered again and turned down) makes them add an event under a number
    already taken: the request is refused and rolled back, whatever the database
    does, so that member can never leave with their contributions withdrawn. *)
Theorem past_acceptance_blocks_leaving gh u g target t w :
  owner_of (db w) t = Some target -> stale_acceptance (history (db w) t g) = true ->
  (let '(r, w') := responds gh u (OpRemoveMember (Some g) (Some target) true) w in db w' = db w /\ 400 <= code r) /\
  (let '(r, w') := responds gh u (OpRemoveTranscript (Some g) (Some t)) w in db w' = db w /\ 400 <= code r).
Proof.
  intros Ht Hstale. split; unfold responds; destruct (perform gh u _ w) as [r w'] eqn:Hrun; cbn [perform] in Hrun;
    apply mutateCollective_run in Hrun as [(g' & w2 & rr & w3 & [= <-] & Hd & Hmut & Hd' & Hcode & Hres)|[? ?]]; [exfalso|done|exfalso|done].
  - apply remove_member_run in Hmut as (b & -> & Hretract & _ & _ & Hdone); [|done]. rewrite (Hretract eq_refl) in Hdone.
    cbv zeta in Hdone. rewrite Hd in Hdone. set (d1 := set_members _ _) in Hdone.
    destruct (close_all_fails Retracted g (owned_by target d1) t d1) as [e He]; [by apply elem_of_owned|done|congruence].
  - destruct rr as [resp|resp].
    + unfold removeGroupTranscriptLocked in Hmut. apply bind_ok_inv in Hmut as (? & ? & [[= <-] ->]%param_inv & Hmut).
      apply bind_ok_inv in Hmut as ([] & w4 & [Hd4 _]%require_owner_inv & Hmut).
      apply bind_ok_inv in Hmut as ([] & w5 & Hclose%or_refuse_inv & _).
      apply stmt_cases in Hclose as [(? & d6 & Hf & _ & _)|(? & ? & _)]; [|done].
      apply result_bind_ok in Hf as (d7 & Hf & _). rewrite Hd4, Hd in Hf.
      destruct (close_live_fails Revoked t g (db w) Hstale). congruence.
    + assert (fails_with refusal (removeGroupTranscriptLocked u (Some t) g)) as Hf.
      { unfold removeGroupTranscriptLocked, require_owner. fails_walk. }
      apply Hf in Hmut. unfold refusal in Hmut. cbn in Hcode. lia.
Qed.
End outcome.

(** ** Instances *)

(** Requests one right after the other. *)
Definition ran (requests : list (Z * Operation)) : World := after ((fun r => (0, r)) <$> requests) at_village.

(** The open collective accepted the transcript; its owner withdrew it. *)
Definition shared_then_withdrawn : World :=
  ran [(11, OpShare (Some "t") (Some [Some 2])); (11, OpUnshare (Some "t") (Some 2))].

Lemma share_reaches_every_collective_witness :
  exists gs, ([Some 1; Some 2] ≫= fun o => option_list o) = gs /\
    forall g, g ∈ gs -> live_now (history (db (ran [(11, OpShare (Some "t") (Some [Some 1; Some 2]))])) "t" g) = true.
Proof.
  exists [1; 2]. split; [done|]. intros g Hg.
  destruct (@share_reaches_every_collective settled ascii_tables true 11 "t" (Some [Some 1; Some 2]) at_village
    (BShares [(1, 1000); (2, 1000)]) (ran [(11, OpShare (Some "t") (Some [Some 1; Some 2]))])) as (gs & Hgs & _ & _ & Hlive);
    [by vm_compute|].
  apply Hlive. cbn in Hgs. injection Hgs as <-. done.
Defined.

Lemma unshare_withdraws_witness : live_now (history (db shared_then_withdrawn) "t" 2) = false.
Proof.
  destruct (@unshare_withdraws settled ascii_tables true 11 "t" 2 (ran [(11, OpShare (Some "t") (Some [Some 2]))])
    (BStatus "unshared") shared_then_withdrawn) as (row & _ & _ & _ & Hlive & _); [by vm_compute|exact Hlive].
Defined.

Lemma leaving_leaves_nothing_open_witness :
  live_now (history (db (ran [(11, OpShare (Some "t") (Some [Some 2])); (11, OpRemoveMember (Some 2) (Some 11) false)])) "t" 2) = false.
Proof.
  pose (w := ran [(11, OpShare (Some "t") (Some [Some 2]))]).
  assert (ledger_ok (db w)) as Hok by by apply (@ledger_runs settled ascii_tables true _ at_village village_ok).
  destruct (@leaving_leaves_nothing_open settled ascii_tables true 11 2 11 false w true
    (ran [(11, OpShare (Some "t") (Some [Some 2])); (11, OpRemoveMember (Some 2) (Some 11) false)]) Hok)
    as (_ & _ & _ & _ & Hall); [by vm_compute|]. by apply Hall.
Defined.

Lemma past_acceptance_blocks_leaving_witness :
  members (db (@responds settled ascii_tables true 11 (OpRemoveMember (Some 2) (Some 11) true) shared_then_withdrawn).2) !! (2, 11)
    = Some (mkMember "contributor" "self_join").
Proof.
  destruct (@past_acceptance_blocks_leaving settled ascii_tables true 11 2 11 "t" shared_then_withdrawn) as [Hleave _];
    [by vm_compute..|].
  destruct (responds _ _ _ _) as [r w'] eqn:Hr. destruct Hleave as [Hd _]. cbn [snd]. rewrite Hd. by vm_compute.
Defined.
End ShareOutcome.
