(* ===== verification/MemberLaws.v ===== *)
(** * Memberships

    Who may become, be made and cease to be a member, as a machine every request
    moves along; and the owner a collective always has. *)
From S2P Require Import Prelude GoText Regex Governance CollectiveStore Collectives Invitations CollectiveRoutes LedgerLaws CollectiveLaws ShareLaws ShareOutcome.

Open Scope string_scope.
Open Scope list_scope.
Open Scope Z_scope.

Module MemberLaws.
Import Governance CollectiveStore Collectives Invitations CollectiveRoutes LedgerLaws CollectiveLaws ShareLaws ShareOutcome.

(** ** The machine *)

(** An invitation to [g] that is [u]'s to accept. *)
Definition invited_to (d : Db) (g u : Z) : Prop := exists i row, invitations d !! i = Some row /\
  InvGroup row = g /\ InviteeID row = Some u /\ InvStatus row = "pending" /\ now d < ExpiresAt row.

Lemma my_pending_invited d i u row : my_pending i u d = Some row -> invited_to d (InvGroup row) u.
Proof.
  unfold my_pending. destruct (invitations d !! i) as [row'|] eqn:Hi; [|done]. cbn.
  destruct (_ && _) eqn:Hb; [|done]. intros [= ->]. apply andb_true_iff in Hb as [[Hto Hst]%andb_true_iff Ht].
  exists i, row. split_and!; [done|done|by apply bool_decide_eq_true in Hto|by apply String.eqb_eq|by apply Z.ltb_lt].
Qed.

(** One change of person [p]'s membership of [g], made by [u], from the database
    [d] to [d']. *)
Inductive member_step (d d' : Db) (u g p : Z) : option Member -> option Member -> Prop :=
| Founded :
    p = u -> groups d !! g = None -> member_step d d' u g p None (Some (mkMember "owner" "creator"))
| Joined group :
    p = u -> groups d !! g = Some group -> AcceptanceMode group <> "curated" ->
    member_step d d' u g p None (Some (mkMember "contributor" "self_join"))
| Accepted :
    p = u -> invited_to d g u -> member_step d d' u g p None (Some (mkMember "member" "invitation"))
| Confirmed m :
    p = u -> invited_to d g u -> Origin m = "legacy" \/ Origin m = "invitation" ->
    member_step d d' u g p (Some m)
      (Some (mkMember (if String.eqb (Role m) "pending" then "member" else Role m) "invitation"))
| Reassigned m role :
    group_owner d g u -> Origin m <> "creator" -> role = "contributor" \/ role = "member" ->
    member_step d d' u g p (Some m) (Some (mkMember role (Origin m)))
| Left m :
    p = u \/ group_owner d g u -> Origin m <> "creator" -> member_step d d' u g p (Some m) None
| Dissolved m :
    group_owner d g u -> groups d' !! g = None -> member_step d d' u g p (Some m) None.

(** The collectives that were there still are, each with its creator, but for the
    one the request dissolves. *)
Definition groups_kept (op : Operation) (d d' : Db) : Prop := forall g group, groups d !! g = Some group ->
  (exists group', groups d' !! g = Some group' /\ CreatedBy group' = CreatedBy group) \/ op = OpDelete (Some g).
Lemma groups_kept_same op d d' : groups d' = groups d -> groups_kept op d d'.
Proof. intros Hg g group. rewrite Hg. eauto. Qed.

Definition members_move (d : Db) (u : Z) (d' : Db) : Prop := forall g p,
  members d' !! (g, p) = members d !! (g, p) \/
  member_step d d' u g p (members d !! (g, p)) (members d' !! (g, p)).

Lemma members_same d u d' : members d' = members d -> members_move d u d'.
Proof. intros Hm g p. left. by rewrite Hm. Qed.

(** One row written. *)
Lemma members_set d u d' g p o :
  members d' = partial_alter (fun _ => o) (g, p) (members d) ->
  member_step d d' u g p (members d !! (g, p)) o -> members_move d u d'.
Proof.
  intros Hm Hs g' p'. rewrite Hm. destruct (decide ((g, p) = (g', p'))) as [[= <- <-]|Hne].
  - right. by rewrite lookup_partial_alter_eq.
  - left. by rewrite lookup_partial_alter_ne.
Qed.

Lemma insert_as_alter (m : gmap (Z * Z) Member) k x : <[k := x]> m = partial_alter (fun _ => Some x) k m.
Proof. done. Qed.
Lemma delete_as_alter (m : gmap (Z * Z) Member) k : delete k m = partial_alter (fun _ => None) k m.
Proof. done. Qed.

(** ** What sharing leaves alone *)
Section sharing.
Context `{Env, UnicodeTables} (u : Z) {T : Type} (V : Db -> T) (x : T).
Context (Hledger : forall d d', ledger_only d d' -> V d' = V d) (Hrows : forall d y, V (set_transcripts y d) = V d).
Notation Fixed := (fun w => V (db w) = x).

Lemma fixed_stable : ledger_stable (fun d => V d = x).
Proof. intros d d' <- Honly. by apply Hledger. Qed.
Lemma fixed_patch t v : keeps Fixed (patch_x t (visibilityPatch v)).
Proof.
  intros w Hw. destruct (patch_x _ _ w) as [r w'] eqn:Hr. cbn.
  apply patch_run in Hr as [[-> _]|(row & _ & ->)]; [done|by rewrite Hrows].
Qed.
Lemma fixed_share tid gs : keeps Fixed (ShareTranscript u tid gs).
Proof.
  unfold ShareTranscript, shareTranscriptLocked.
  do 10 (apply keeps_bind; [solve [apply fixes_reads; reads_walk]|intros ?]).
  apply keeps_bind; [|intros [?|[?|]]; eauto with keeps]. apply keeps_attempt, fixes_authority_tx. unfold share_in_tx.
  apply keeps_bind; [apply fixes_reads; reads_walk|]. intros row. case_match; [apply keeps_throw|].
  apply keeps_bind; [apply fixes_reads, reads_targets|]. intros targets.
  apply keeps_bind; [apply (keeps_opens (fun d => V d = x)), fixed_stable|]. intros n. case_match; [apply keeps_throw|].
  apply keeps_bind; [case_match; [|apply keeps_ret]|intros _; apply fixes_reads; reads_walk].
  apply keeps_bind; [apply fixed_patch|]. intros ?. apply keeps_ret.
Qed.
Lemma fixed_unshare tid gid : keeps Fixed (UnshareRoute u tid gid).
Proof.
  unfold UnshareRoute. do 5 (apply keeps_bind; [solve [apply fixes_reads; reads_walk]|intros ?]).
  apply keeps_bind; [|intros [?|?]; eauto with keeps]. apply keeps_attempt, fixes_tx.
  unfold unshareAndNarrow, withdrawLiveShare. apply keeps_bind.
  - apply keeps_bind; [apply fixes_reads, reads_latest|]. intros [|]; [|apply keeps_ret].
    apply keeps_bind; [|intros ?; apply keeps_ret]. apply keeps_in_x, fixes_stmt. intros d a' d' Hf.
    apply result_bind_ok in Hf as (d1 & Hf & Hd'). injection Hd' as _ <-. apply close_live_only in Hf. by apply Hledger.
  - intros _. do 2 (apply keeps_bind; [apply fixes_reads; reads_walk|]; intros ?; case_match; [apply keeps_ret|]).
    apply keeps_bind; [apply fixed_patch|]. intros ?. apply keeps_ret.
Qed.
Lemma fixed_batch gid req : keeps Fixed (BatchShareProject u gid req).
Proof.
  unfold BatchShareProject. do 2 (apply keeps_bind; [solve [apply fixes_reads; reads_walk]|intros ?]).
  apply keeps_bind; [solve [apply fixes_reads; reads_walk]|intros [[project requested] confirmed]]. cbv zeta.
  repeat (apply keeps_bind; [solve [apply fixes_reads; unfold shareStatusForGroup, hasOrgMembership, hasAnyOrgMembership; reads_walk]|intros ?]).
  apply keeps_bind; [|intros [[? ?]|[?|]]; eauto with keeps]. apply keeps_attempt, fixes_authority_tx.
  apply keeps_bind; [apply fixes_reads, reads_finalShareStatus|]. intros s. case_match; [apply keeps_throw|].
  apply keeps_bind; [|intros [? ?]; case_match; eauto with keeps].
  match goal with |- context [batch_all _ _ _ _ _ _ ?l] => induction l as [|t ts IH] end; cbn [batch_all]; [apply keeps_ret|].
  apply keeps_bind; [|intros ?; apply keeps_bind; [apply IH|intros [? ?]; apply keeps_ret]]. unfold batch_one.
  apply keeps_bind; [apply fixes_reads; reads_walk|]. intros row. case_match; [apply keeps_throw|].
  apply keeps_bind; [apply fixes_reads, reads_latest|]. intros live. case_match; [apply keeps_throw|].
  destruct live; [apply keeps_ret|]. apply keeps_bind; [apply (keeps_open (fun d => V d = x)), fixed_stable|]. intros _.
  apply keeps_bind; [apply fixes_reads; reads_walk|]. intros locked. case_match; [apply keeps_ret|].
  case_match; [apply keeps_throw|]. apply keeps_bind; [apply fixed_patch|]. intros ?. apply keeps_ret.
Qed.
End sharing.

Section moves.
Context `{Env, UnicodeTables}.
Context (gh : bool) (u : Z).

(** A mutation moves the database as the successful runs of its body do. *)
Lemma mutate_moves id mutation refresh w r w' (Q : Db -> Db -> Prop) :
  (forall d, Q d d) -> (forall g, fails_with refusal (mutation g)) ->
  (forall g w1 resp w2, id = Some g -> mutation g w1 = (Ok resp, w2) -> Q (db w1) (db w2)) ->
  mutateCollective gh id mutation refresh w = (r, w') -> Q (db w) (db w').
Proof.
  intros Hrefl Hf Hm [(g & w1 & rr & w2 & -> & Hd & Hmut & Hd' & Hcode & _)|[-> _]]%mutateCollective_run; [|done].
  rewrite Hd', <- Hd. destruct rr as [resp|resp]; [by eapply Hm|].
  apply Hf in Hmut. unfold refusal in Hmut. cbn in Hcode. lia.
Qed.

Lemma group_found d g group : one (groups d !! g) = Ok group -> groups d !! g = Some group.
Proof. by destruct (groups d !! g); intros; simplify_eq/=. Qed.
Lemma member_found d g p m : one (members d !! (g, p)) = Ok m -> members d !! (g, p) = Some m.
Proof. by destruct (members d !! (g, p)); intros; simplify_eq/=. Qed.

Lemma join_moves g w resp w' : joinGroupLocked u g w = (Ok resp, w') -> members_move (db w) u (db w') /\ groups (db w') = groups (db w).
Proof.
  unfold joinGroupLocked. intros Hr.
  apply bind_ok_inv in Hr as (group & w1 & [Hd1 Hg%group_found]%or_refuse_query & Hr).
  apply bind_ok_inv in Hr as ([] & w2 & Hmode & Hr).
  assert (db w2 = db w1) as Hd2 by (eapply reads_run; [|exact Hmode]; unfold hasOrgMembership, hasAnyOrgMembership; reads_walk).
  assert (AcceptanceMode group <> "curated") as Hcur by (intros Hcur; by rewrite Hcur in Hmode).
  apply bind_ok_inv in Hr as (member & w3 & Hmem & Hr). apply attempt_inv, query_cases in Hmem as [Hd3 _].
  destruct member as [m|e]; [done|]. apply bind_ok_inv in Hr as (? & w4 & Hj%or_refuse_inv & Hr).
  unfold mret, M_ret in Hr. injection Hr as _ <-. apply stmt_cases in Hj as [(? & d' & Hf & _ & Hd4)|(? & ? & _)]; [|done].
  apply result_bind_ok in Hf as (d1 & Hi & Hd1'). injection Hd1' as _ <-. apply insert_member_inv in Hi as (-> & Hnone & _).
  rewrite Hd3, Hd2, Hd1 in *. split; [|by rewrite Hd4].
  apply (members_set _ _ _ g u (Some (mkMember "contributor" "self_join"))); [by rewrite Hd4|].
  rewrite Hnone. by eapply Joined.
Qed.

Lemma promote_moves target role g w resp w' :
  promoteMemberLocked u target role g w = (Ok resp, w') -> members_move (db w) u (db w') /\ groups (db w') = groups (db w).
Proof.
  unfold promoteMemberLocked. intros Hr.
  apply bind_ok_inv in Hr as (p & ? & [-> ->]%param_inv & Hr).
  apply bind_ok_inv in Hr as ([] & w1 & [Hd1 Howner]%require_owner_inv & Hr).
  apply bind_ok_inv in Hr as (ro & ? & [-> ->]%param_inv & Hr).
  apply bind_ok_inv in Hr as (? & ? & [Hrole ->]%refuse_if_inv & Hr).
  apply bind_ok_inv in Hr as (m & w2 & [Hd2 Hm%member_found]%or_refuse_query & Hr).
  apply bind_ok_inv in Hr as (? & ? & [Horigin%String.eqb_neq ->]%refuse_if_inv & Hr).
  apply bind_ok_inv in Hr as (? & w3 & Hu%or_refuse_inv & Hr). unfold mret, M_ret in Hr. injection Hr as _ <-.
  apply stmt_cases in Hu as [(? & d' & Hf & _ & Hd3)|(? & ? & _)]; [|done]. rewrite Hd2 in Hf. rewrite Hm in Hf.
  rewrite (proj2 (String.eqb_neq _ _) Horigin) in Hf. cbn in Hf. injection Hf as _ <-. rewrite Hd1 in *.
  split; [|by rewrite Hd3].
  apply (members_set _ _ _ g p (Some (mkMember ro (Origin m)))); [by rewrite Hd3|]. rewrite Hm.
  apply Reassigned; [done..|]. apply negb_false_iff, orb_true_iff in Hrole as [?%String.eqb_eq|?%String.eqb_eq]; auto.
Qed.

Lemma delete_moves_members g w resp w' :
  deleteGroupLocked u g w = (Ok resp, w') -> members_move (db w) u (db w') /\ groups_kept (OpDelete (Some g)) (db w) (db w').
Proof.
  unfold deleteGroupLocked. intros Hr.
  apply bind_ok_inv in Hr as ([] & w1 & [Hd1 Howner]%require_owner_inv & Hr).
  apply bind_ok_inv in Hr as (? & w2 & Hu%or_refuse_inv & Hr). unfold mret, M_ret in Hr. injection Hr as _ <-.
  apply stmt_cases in Hu as [(? & d' & [= _ <-] & _ & Hd2)|(? & ? & _)]; [|done]. rewrite Hd1 in Hd2. rewrite Hd2.
  split.
  - intros g' p. unfold drop_group at 1 3. cbn [members]. destruct (decide (g' = g)) as [->|Hne].
    + destruct (members (db w) !! (g, p)) as [m|] eqn:Hm.
      * right. assert (filter (fun p0 : Z * Z * Member => negb (p0.1.1 =? g) = true) (members (db w)) !! (g, p) = None) as ->.
        { apply map_lookup_filter_None. right. intros y _. cbn. by rewrite Z.eqb_refl. }
        apply Dissolved; [done|]. apply lookup_delete_eq.
      * left. apply map_lookup_filter_None. by left.
    + left. apply option_eq. intros y. rewrite map_lookup_filter_Some. cbn. rewrite (proj2 (Z.eqb_neq g' g) Hne). naive_solver.
  - intros g' group Hg'. destruct (decide (g = g')) as [->|Hne]; [by right|left]. exists group.
    cbn. by rewrite lookup_delete_ne.
Qed.

Lemma leave_moves target retract g w resp w' :
  removeGroupMemberLocked u target retract g w = (Ok resp, w') -> members_move (db w) u (db w') /\ groups (db w') = groups (db w).
Proof.
  intros Hr. destruct target as [p|]; [|done]. apply remove_member_run in Hr as (b & Hresp & _ & Hauth & Horigin & Hdone).
  2: { unfold removeGroupMemberLocked in Hr. cbn. repeat (apply bind_ok_inv in Hr as (? & ? & _ & Hr)).
       cbv zeta in Hr. repeat (apply bind_ok_inv in Hr as (? & ? & _ & Hr)). unfold mret, M_ret in Hr. by injection Hr as <- <-. }
  cbv zeta in Hdone. set (d1 := set_members _ _) in Hdone.
  assert (members (db w') = members d1 /\ groups (db w') = groups (db w)) as [Hm Hg].
  { destruct b; [|by rewrite Hdone]. apply close_all_only in Hdone. by rewrite Hdone. }
  split; [|done]. destruct (members (db w) !! (g, p)) as [m|] eqn:Hp.
  - apply (members_set _ _ _ g p None); [exact Hm|]. rewrite Hp. apply Left; [|by apply Horigin].
    destruct Hauth as [->|?]; [by left|by right].
  - apply members_same. rewrite Hm. cbn. by apply delete_id.
Qed.

Lemma update_moves op req g w resp w' :
  updateGroupLocked u req g w = (Ok resp, w') -> members_move (db w) u (db w') /\ groups_kept op (db w) (db w').
Proof.
  unfold updateGroupLocked. intros Hr.
  apply bind_ok_inv in Hr as ([] & w1 & [Hd1 _]%require_owner_inv & Hr).
  apply bind_ok_inv in Hr as (rq & ? & [-> ->]%param_inv & Hr).
  do 4 (apply bind_ok_inv in Hr as (? & ? & [_ ->]%refuse_if_inv & Hr)).
  apply bind_ok_inv in Hr as (group & w2 & [Hd2 Hg%group_found]%or_refuse_query & Hr).
  apply bind_ok_inv in Hr as (org & w3 & Horg & Hr).
  assert (db w3 = db w2) as Hd3.
  { eapply reads_run; [|exact Horg]. unfold linked_org, hasOrgMembership. reads_walk. }
  apply bind_ok_inv in Hr as (? & w4 & Hu%or_refuse_inv & Hr).
  apply bind_ok_inv in Hr as (? & w5 & [Hd5 _]%or_refuse_query & Hr). unfold mret, M_ret in Hr. injection Hr as _ <-.
  apply stmt_cases in Hu as [(? & d' & Hf & _ & Hd4)|(? & ? & _)]; [|done]. rewrite Hd3, Hd2, Hd1 in Hf.
  rewrite Hd1 in Hg. rewrite Hg in Hf. cbn in Hf. injection Hf as _ <-. rewrite Hd5, Hd4. split; [by apply members_same|].
  intros g' group' Hg'. left. cbn. destruct (decide (g = g')) as [<-|Hne].
  - rewrite lookup_insert_eq. eexists. split; [done|]. cbn. congruence.
  - rewrite lookup_insert_ne by done. eauto.
Qed.

Lemma members_move_frame d d1 d2 : members d2 = members d1 -> groups d2 = groups d1 -> members_move d u d1 -> members_move d u d2.
Proof.
  intros Hm Hg Hmove g p. rewrite Hm. destruct (Hmove g p) as [?|Hstep]; [by left|right].
  inversion Hstep as [| | |m|m role|m|m Howner Hgone]; subst; try (by econstructor). apply Dissolved; [done|by rewrite Hg].
Qed.

Lemma accept_membership_moves d i row w1 x w2 :
  my_pending i u d = Some row -> db w1 = d ->
  in_x (AcceptInvitationMembership (InvGroup row) u) w1 = (Ok x, w2) -> members_move d u (db w2).
Proof.
  intros Hmine Hd1 Hx. apply in_x_cases in Hx as (r1 & Hx & Hok). specialize (Hok _ eq_refl). subst r1.
  apply stmt_cases in Hx as [(? & d9 & Hf & _ & Hd9)|(? & ? & _)]; [|done]. rewrite Hd1 in Hf. rewrite Hd9. clear Hd9.
  apply my_pending_invited in Hmine as Hinv.
  destruct (members d !! (InvGroup row, u)) as [m|] eqn:Hm.
  - destruct (String.eqb (Origin m) "legacy" || String.eqb (Origin m) "invitation") eqn:Ho; [|done]. injection Hf as _ <-.
    eapply members_set; [done|]. rewrite Hm. apply Confirmed; [done..|].
    by apply orb_true_iff in Ho as [?%String.eqb_eq|?%String.eqb_eq]; auto.
  - apply result_bind_ok in Hf as (d10 & Hi & Hf). injection Hf as _ <-. apply insert_member_inv in Hi as (-> & _ & _).
    eapply members_set; [done|]. rewrite Hm. by apply Accepted.
Qed.

Lemma accept_in_tx_moves i row w role w' :
  my_pending i u (db w) = Some row -> accept_in_tx gh u i (InvGroup row) w = (Ok role, w') -> members_move (db w) u (db w').
Proof.
  intros Hmine. unfold accept_in_tx. intros Hrun.
  apply bind_ok_inv in Hrun as (pending & w5 & Hp & Hrun). apply attempt_inv, query_cases in Hp as [Hd5 _].
  destruct pending as [row'|[| |]]; [|done..].
  apply bind_ok_inv in Hrun as (existing & w6 & He & Hrun). apply attempt_inv, query_cases in He as [Hd6 _].
  apply bind_ok_inv in Hrun as (role' & w7 & Hjoin & Hrun). apply bind_ok_inv in Hrun as (? & w8 & Hdel & Hrun).
  apply in_x_cases in Hdel as (r1 & Hdel & Hok). specialize (Hok _ eq_refl). subst r1.
  apply stmt_cases in Hdel as [(? & d8 & Hf & _ & Hd8)|(? & ? & _)]; [|done]. injection Hf as _ <-.
  apply bind_ok_inv in Hrun as (? & w9 & Hgrants & Hrun). unfold mret, M_ret in Hrun. injection Hrun as _ <-.
  assert (db w9 = db w8) as Hd9.
  { destruct gh; [by apply in_x_query in Hgrants as [? _]|]. unfold mret, M_ret in Hgrants. by simplify_eq. }
  apply (members_move_frame _ (db w7)); [by rewrite Hd9, Hd8..|]. rewrite Hd5 in Hd6.
  destruct existing as [m|[| |]]; [|by eapply accept_membership_moves|done..].
  destruct (consentedMembership m); [|by eapply accept_membership_moves].
  unfold mret, M_ret in Hjoin. injection Hjoin as _ <-. apply members_same. by rewrite Hd6.
Qed.

Lemma accept_moves i w r w' :
  AcceptMyInvitation gh u i w = (r, w') -> members_move (db w) u (db w').
Proof.
  intros Hr. unfold AcceptMyInvitation in Hr. rewrite M_bind_unfold in Hr.
  destruct i as [i|]; [|injection Hr as _ <-; by apply members_same].
  unfold param, mret, M_ret in Hr. rewrite M_bind_unfold in Hr.
  destruct (or_refuse (GetMyPendingInvitation i u) _ w) as [[row|e] w1] eqn:Hrow.
  2: { injection Hr as _ <-. apply (reads_run _ _ _ _ (reads_or_refuse _ _ (reads_query _ _))) in Hrow.
       apply members_same. by rewrite Hrow. }
  apply or_refuse_query in Hrow as [Hd1 Hrow].
  assert (my_pending i u (db w) = Some row) as Hmine by (by destruct (my_pending i u (db w)); simplify_eq/=).
  rewrite M_bind_unfold in Hr. unfold attempt at 1 in Hr. destruct (inCollectiveAuthorityTx _ w1) as [res w2] eqn:Htx.
  assert (db w' = db w2) as -> by (by destruct res as [?|[?|]]; unfold throw in Hr; simplify_eq).
  apply in_tx_run in Htx as [(role & w3 & Hrun & -> & _)|[-> _]]; [|apply members_same; by rewrite Hd1].
  apply bind_ok_inv in Hrun as (? & w4 & [Hd4 _]%in_x_query & Hrun). cbn [db begun] in Hd4. rewrite Hd1 in Hd4.
  apply accept_in_tx_moves in Hrun; [by rewrite Hd4 in Hrun|by rewrite Hd4].
Qed.

(** ** Founding *)
Lemma founded_alone_members d d' : founded_alone u d d' -> members d' = members d.
Proof. by intros (group & _ & _ & ->). Qed.
Lemma founded_alone_kept op d d' : founded_alone u d d' -> groups_kept op d d'.
Proof.
  intros (group & _ & Hfree & ->) g group' Hg. left. exists group'. split; [|done]. cbn.
  rewrite lookup_insert_ne; [done|]. congruence.
Qed.
Lemma founded_owned_inv d d' : founded_owned u d d' -> exists group, CreatedBy group = u /\ groups d !! next_id d = None /\
  groups d' = <[next_id d := group]> (groups d) /\ members d !! (next_id d, u) = None /\
  members d' = <[(next_id d, u) := mkMember "owner" "creator"]> (members d).
Proof.
  intros (d1 & (group & Hby & Hfree & ->) & (-> & Hnone & _)%insert_member_inv). by exists group.
Qed.

Lemma create_moves req w r w' :
  CreateGroup u req w = (r, w') -> members_move (db w) u (db w') /\ forall op, groups_kept op (db w) (db w').
Proof.
  intros [[Hd _]|[[Halone _]|[(group & _ & Hfree & Hg & Hnone & Hm)%founded_owned_inv _]]]%create_ends.
  - rewrite Hd. split; [by apply members_same|]. intros op. by apply groups_kept_same.
  - split; [by apply members_same, founded_alone_members|]. intros op. by apply founded_alone_kept.
  - split.
    + eapply members_set; [exact Hm|]. rewrite Hnone. by apply Founded.
    + intros op g group' Hg'. left. exists group'. split; [|done]. rewrite Hg, lookup_insert_ne; [done|]. congruence.
Qed.

(** What every request does to collectives and members. *)
Definition moves (op : Operation) (d d' : Db) : Prop := members_move d u d' /\ groups_kept op d d'.
Lemma moves_refl op d : moves op d d.
Proof. split; [by apply members_same|by apply groups_kept_same]. Qed.

(** Neither table is touched. *)
Definition roster (d : Db) := (members d, groups d).
Lemma roster_moves {A} (m : M World Response A) w r w' :
  keeps (fun w1 => roster (db w1) = roster (db w)) m -> m w = (r, w') -> forall op, moves op (db w) (db w').
Proof.
  intros Hm Hr. pose proof (keeps_run (fun w1 => roster (db w1) = roster (db w)) m w r w' Hm eq_refl Hr) as Hroster.
  injection Hroster as Hmem Hgr. intros op. split; [by apply members_same|by apply groups_kept_same].
Qed.

Ltac roster_walk := eapply roster_moves; [|eassumption]; fixes_walk.
Lemma perform_moves_roster op w r w' : perform gh u op w = (r, w') -> moves op (db w) (db w').
Proof.
  intros Hr. destruct op; cbn [perform] in Hr.
  - eapply roster_moves; [|exact Hr]. by apply (fixed_share u roster); [intros d d' ->|].
  - eapply roster_moves; [|exact Hr]. by apply (fixed_unshare u roster); [intros d d' ->|].
  - eapply roster_moves; [|exact Hr]. by apply (fixed_batch u roster); [intros d d' ->|].
  - unfold ReviewShare, reviewShareLocked, require_owner in Hr. roster_walk.
  - unfold BatchReviewShares, batchReviewSharesLocked, require_owner in Hr. roster_walk.
  - unfold RemoveGroupTranscript, removeGroupTranscriptLocked, require_owner in Hr. roster_walk.
  - eapply (mutate_moves _ _ _ _ _ _ (moves _) (moves_refl _)) in Hr; [done|unfold joinGroupLocked, hasOrgMembership; fails_walk|].
    intros g1 w1 resp w2 _ [? ?]%join_moves. split; [done|by apply groups_kept_same].
  - eapply (mutate_moves _ _ _ _ _ _ (moves _) (moves_refl _)) in Hr; [done|unfold promoteMemberLocked, require_owner; fails_walk|].
    intros g1 w1 resp w2 _ [? ?]%promote_moves. split; [done|by apply groups_kept_same].
  - eapply (mutate_moves _ _ _ _ _ _ (moves _) (moves_refl _)) in Hr; [done|unfold removeGroupMemberLocked, require_owner; fails_walk|].
    intros g1 w1 resp w2 _ [? ?]%leave_moves. split; [done|by apply groups_kept_same].
  - apply create_moves in Hr as [? Hk]. split; [done|apply Hk].
  - eapply (mutate_moves _ _ _ _ _ _ (moves _) (moves_refl _)) in Hr; [done|unfold updateGroupLocked, require_owner, linked_org; fails_walk|].
    intros g1 w1 resp w2 _ Hu. by eapply update_moves.
  - eapply (mutate_moves _ _ _ _ _ _ (moves _) (moves_refl _)) in Hr; [done|unfold deleteGroupLocked, require_owner; fails_walk|].
    intros g1 w1 resp w2 -> [? ?]%delete_moves_members. by split.
  - unfold CreateGroupInvitation, createGroupInvitationLocked, send_invitation, require_owner, row_if_any, takeDailyQuota,
      GetGroupMemberOf in Hr. roster_walk.
  - unfold RevokeGroupInvitation, revokeGroupInvitationLocked, require_owner in Hr. roster_walk.
  - split; [by eapply accept_moves|]. apply groups_kept_same.
    refine (keeps_run (fun w1 => groups (db w1) = groups (db w)) _ _ _ _ _ eq_refl Hr). unfold AcceptMyInvitation, accept_in_tx. fixes_walk.
  - unfold DeclineMyInvitation in Hr. roster_walk.
Qed.
End moves.

(** C38: nobody is made a member: a membership appears only by the person's own
    request, founding the collective, joining one that is not curated, or accepting
    an invitation addressed to them; a role is changed by the collective's owner,
    and never the creator's; a membership ends by the person or the owner, never
    the creator's, or with the collective itself. *)
Theorem memberships_move_by_consent `{Env, UnicodeTables} (gh : bool) (u : Z) (op : Operation) (w : World) :
  members_move (db w) u (db (responds gh u op w).2).
Proof.
  unfold responds. destruct (perform gh u op w) as [r w'] eqn:Hr. cbn [snd]. by apply perform_moves_roster in Hr as [? _].
Qed.

(** The collective is there, and [c], who created it, is its member and owner. *)
Definition owns (d : Db) (g c : Z) : Prop := exists group,
  groups d !! g = Some group /\ CreatedBy group = c /\ members d !! (g, c) = Some (mkMember "owner" "creator").

Lemma move_keeps_creator d u d' g p group :
  members_move d u d' -> groups d' !! g = Some group ->
  members d !! (g, p) = Some (mkMember "owner" "creator") -> members d' !! (g, p) = Some (mkMember "owner" "creator").
Proof.
  intros Hm Hg Hp. destruct (Hm g p) as [->|Hstep]; [done|]. rewrite Hp in Hstep.
  inversion Hstep as [| | |m ? ? Ho|m role ? Ho ?|m ? Ho|m ? Hgone]; subst; cbn in *; try done; [by destruct Ho|congruence].
Qed.
Lemma move_keeps_owning op d u d' g c :
  moves u op d d' -> owns d g c -> owns d' g c \/ op = OpDelete (Some g).
Proof.
  intros [Hm Hkept] (group & Hg & Hby & Hc). destruct (Hkept g group Hg) as [(group' & Hg' & Hby')|?]; [left|by right].
  exists group'. split_and!; [done|congruence|]. by eapply move_keeps_creator.
Qed.

(** C39: whoever founds a collective and is told so created it, under a name no other
    collective had, and is its owner; and from then on, through any requests of
    anyone, however far apart and whatever the database does, the creator stays its
    member and owner, until the collective is asked to be dissolved. *)
Theorem creators_keep_owning `{Env, UnicodeTables} (gh : bool) :
  (forall u req w, let '(r, w') := responds gh u (OpCreate req) w in
     code r < 400 -> exists g, r = mkResponse 201 (BGroup g) /\ groups (db w) !! g = None /\ owns (db w') g u) /\
  forall requests w g c, owns (db w) g c ->
    owns (db (serve_in_time gh requests w)) g c \/ asked_to_dissolve g requests.
Proof.
  split.
  - intros u req w. unfold responds. destruct (perform gh u (OpCreate req) w) as [r w'] eqn:Hr. intros Hc. cbn [perform] in Hr.
    apply create_ends in Hr as [[_ (e & -> & He)]|[[_ ->]|[Hdone [->| ->]]]]; cbn in Hc; [lia|lia| |lia].
    apply founded_owned_inv in Hdone as (group & Hby & Hfree & Hg & _ & Hm). exists (next_id (db w)). split_and!; [done|done|].
    exists group. by rewrite Hg, Hm, !lookup_insert_eq.
  - induction requests as [|[elapsed [u op]] requests IH]; intros w g c Hown; [by left|]. cbn [serve_in_time].
    set (w0 := later elapsed w). assert (owns (db w0) g c) as Hown0 by done.
    assert (moves u op (db w0) (db (responds gh u op w0).2)) as Hm.
    { unfold responds. destruct (perform gh u op w0) as [r w'] eqn:Hr. by eapply perform_moves_roster. }
    destruct (move_keeps_owning _ _ _ _ _ _ Hm Hown0) as [Hown1|Hop]; [|right; by left].
    destruct (IH _ g c Hown1) as [?|?]; [by left|right; by right].
Qed.

(** ** Instances *)

(** Somebody founds a collective, invites the village's owner, who joins and then
    tries to remove them. *)
Definition founding_request : Operation := OpCreate (Some (mkCreate "new" "" "curated" "" "")).
Definition taken_over : list (Z * (Z * Operation)) :=
  [(1, (12, OpInvite (Some 100) (Some "ada"))); (1, (10, OpAccept (Some 101)));
   (1, (10, OpRemoveMember (Some 100) (Some 12) true)); (1, (12, OpRemoveMember (Some 100) (Some 12) true))].

Lemma creators_keep_owning_witness :
  let founded := (@responds settled ascii_tables true 12 founding_request at_village).2 in
  owns (db (after taken_over founded)) 100 12 /\ members (db (after taken_over founded)) !! (100, 10) = Some (mkMember "member" "invitation").
Proof.
  intros founded. split; [|by vm_compute].
  destruct (@creators_keep_owning settled ascii_tables true) as [Hfound Hkeep].
  assert (owns (db founded) 100 12) as Hown.
  { specialize (Hfound 12 (Some (mkCreate "new" "" "curated" "" "")) at_village).
    assert ((@responds settled ascii_tables true 12 founding_request at_village).1 = mkResponse 201 (BGroup 100)) as Hr by (by vm_compute).
    unfold founded, founding_request in *. destruct (responds _ _ _ at_village) as [r w']. cbn [fst] in Hr. subst r.
    destruct (Hfound eq_refl) as (g & [= <-] & _ & Hown). exact Hown. }
  destruct (Hkeep taken_over founded 100 12 Hown) as [?|Hno]; [done|]. exfalso.
  apply Exists_exists in Hno as (x & Hx & Hop). unfold taken_over in Hx.
  repeat (apply elem_of_cons in Hx as [->|Hx]; [done|]). by apply elem_of_nil in Hx.
Defined.
End MemberLaws.
