(* ===== verification/InvitationLaws.v ===== *)
(** * Invitations: what they reveal

    An owner learns nothing of who holds a handle: the answers to inviting,
    listing and revoking are the same whether or not an account holds it and
    whatever its holder answered. *)
From S2P Require Import Prelude GoText Regex Governance CollectiveStore Collectives Invitations CollectiveRoutes LedgerLaws CollectiveLaws ShareLaws ShareOutcome MemberLaws.

Open Scope string_scope.
Open Scope list_scope.
Open Scope Z_scope.

Module InvitationLaws.
Import Governance CollectiveStore Collectives Invitations CollectiveRoutes LedgerLaws CollectiveLaws ShareLaws ShareOutcome MemberLaws.

(** ** What an owner can see *)

(** An invitation without its invitee and their answer. *)
Definition hide (i : Invitation) := (InvGroup i, InvitedUsername i, InvitedBy i, CreatedAt i, ExpiresAt i).

(** Databases that differ only in the accounts, in who the invitations name and
    what those people answered, and in what is shared. *)
Record owner_sees (d1 d2 : Db) : Prop := mkSees {
  sees_groups : groups d1 = groups d2;
  sees_members : members d1 = members d2;
  sees_quotas : quotas d1 = quotas d2;
  sees_now : now d1 = now d2;
  sees_ids : next_id d1 = next_id d2;
  sees_invitations : hide <$> invitations d1 = hide <$> invitations d2
}.

#[export] Instance owner_sees_equiv : Equivalence owner_sees.
Proof.
  split.
  - by intros d.
  - by intros d1 d2 [].
  - intros d1 d2 d3 [] []. split; congruence.
Qed.

Definition same_row (p q : Z * Invitation) : Prop := p.1 = q.1 /\ hide p.2 = hide q.2.

Lemma same_rows d1 d2 : owner_sees d1 d2 -> Forall2 same_row (map_to_list (invitations d1)) (map_to_list (invitations d2)).
Proof.
  intros [_ _ _ _ _ Hinv]. assert (prod_map id hide <$> map_to_list (invitations d1) = prod_map id hide <$> map_to_list (invitations d2)) as Heq
    by (by rewrite <- !map_to_list_fmap, Hinv).
  apply list_eq_Forall2, Forall2_fmap_1 in Heq. eapply Forall2_impl; [exact Heq|]. intros [i x] [j y]. cbn. intros Hij.
  unfold id in Hij. split; cbn; [exact (f_equal fst Hij)|exact (f_equal snd Hij)].
Qed.

Lemma same_lookup d1 d2 i : owner_sees d1 d2 -> hide <$> invitations d1 !! i = hide <$> invitations d2 !! i.
Proof. intros Hs. rewrite <- !lookup_fmap. by rewrite (sees_invitations _ _ Hs). Qed.

Lemma filter_same f g l1 l2 :
  (forall p q, same_row p q -> f p = g q) -> Forall2 same_row l1 l2 -> Forall2 same_row (List.filter f l1) (List.filter g l2).
Proof.
  intros Hf Hl. induction Hl as [|p q l1 l2 Hpq Hl IH]; cbn; [constructor|]. rewrite (Hf p q Hpq).
  destruct (g q); [by constructor|done].
Qed.
Lemma head_same l1 l2 : Forall2 same_row l1 l2 ->
  match head l1, head l2 with Some p, Some q => same_row p q | None, None => True | _, _ => False end.
Proof. by intros []. Qed.

Lemma insert_stable_same p q l1 l2 :
  same_row p q -> Forall2 same_row l1 l2 ->
  Forall2 same_row (insert_stable invitation_sent_before p l1) (insert_stable invitation_sent_before q l2).
Proof.
  intros Hpq Hl. induction Hl as [|p' q' l1 l2 Hpq' Hl IH]; cbn [insert_stable]; [constructor; [done|constructor]|].
  assert (invitation_sent_before p' p = invitation_sent_before q' q) as ->.
  { destruct Hpq as [H1 H2], Hpq' as [H3 H4]. unfold hide in *. unfold invitation_sent_before.
    injection H2 as _ _ _ H5 _. injection H4 as _ _ _ H6 _. by rewrite H1, H3, H5, H6. }
  case_match; (constructor; [done|]); [done|by constructor].
Qed.
Lemma sort_same l1 l2 : Forall2 same_row l1 l2 ->
  Forall2 same_row (sort_stable invitation_sent_before l1) (sort_stable invitation_sent_before l2).
Proof. intros Hl. unfold sort_stable. induction Hl; cbn [foldr]; [constructor|by apply insert_stable_same]. Qed.

(** ** Runs in step *)
Section lockstep.
Context `{Env}.

Definition in_step (w1 w2 : World) : Prop := statements w1 = statements w2 /\ owner_sees (db w1) (db w2).

(** The two runs answer alike, up to [R], and stay in step. *)
Definition lockstep {E A} (R : A -> A -> Prop) (m1 m2 : M World E A) : Prop := forall w1 w2, in_step w1 w2 ->
  in_step (m1 w1).2 (m2 w2).2 /\
  match (m1 w1).1, (m2 w2).1 with Ok a1, Ok a2 => R a1 a2 | Err e1, Err e2 => e1 = e2 | _, _ => False end.

Lemma lockstep_ret {E A} (R : A -> A -> Prop) a1 a2 : R a1 a2 -> lockstep (E:=E) R (mret a1) (mret a2).
Proof. by intros HR w1 w2 Hw. Qed.
Lemma lockstep_throw {E A} (R : A -> A -> Prop) (e : E) : lockstep R (throw e) (throw e).
Proof. by intros w1 w2 Hw. Qed.
Lemma lockstep_bind {E A B} (R : A -> A -> Prop) (Q : B -> B -> Prop) (m1 m2 : M World E A) f1 f2 :
  lockstep R m1 m2 -> (forall a1 a2, R a1 a2 -> lockstep Q (f1 a1) (f2 a2)) -> lockstep Q (m1 ≫= f1) (m2 ≫= f2).
Proof.
  intros Hm Hf w1 w2 Hw. rewrite !M_bind_unfold. destruct (Hm w1 w2 Hw) as [Hw' Hr].
  destruct (m1 w1) as [[a1|e1] w1'], (m2 w2) as [[a2|e2] w2']; cbn [fst snd] in *; [by apply Hf|done|done|by split].
Qed.
Definition same_result {E A} (R : A -> A -> Prop) (r1 r2 : result E A) : Prop :=
  match r1, r2 with Ok a1, Ok a2 => R a1 a2 | Err e1, Err e2 => e1 = e2 | _, _ => False end.
Lemma lockstep_attempt {E F A} (R : A -> A -> Prop) (m1 m2 : M World E A) :
  lockstep R m1 m2 -> lockstep (E:=F) (same_result R) (attempt m1) (attempt m2).
Proof.
  intros Hm w1 w2 Hw. unfold attempt. destruct (Hm w1 w2 Hw) as [Hw' Hr]. by destruct (m1 w1), (m2 w2).
Qed.

Lemma lockstep_stmt {A} (R : A -> A -> Prop) name (f1 f2 : Db -> result DbError (A * Db)) :
  (forall d1 d2, owner_sees d1 d2 -> same_result (fun x y => R x.1 y.1 /\ owner_sees x.2 y.2) (f1 d1) (f2 d2)) ->
  lockstep R (stmt name f1) (stmt name f2).
Proof.
  intros Hf [d1 s1] [d2 s2] [Hs Hd]. cbn in Hs, Hd. subst. unfold stmt. cbn. destruct (served s2); [|done..]. specialize (Hf _ _ Hd).
  destruct (f1 d1) as [[a1 d1']|e1], (f2 d2) as [[a2 d2']|e2]; cbn in Hf; try done.
  destruct Hf as [HR Hsees]. by split.
Qed.
Lemma lockstep_query {A} (R : A -> A -> Prop) name (f1 f2 : Db -> result DbError A) :
  (forall d1 d2, owner_sees d1 d2 -> same_result R (f1 d1) (f2 d2)) -> lockstep R (query name f1) (query name f2).
Proof.
  intros Hf. apply lockstep_stmt. intros d1 d2 Hd. specialize (Hf d1 d2 Hd).
  destruct (f1 d1), (f2 d2); cbn in *; try done.
Qed.
Lemma lockstep_query_eq {A} name (f : Db -> result DbError A) :
  (forall d1 d2, owner_sees d1 d2 -> f d1 = f d2) -> lockstep eq (query name f) (query name f).
Proof. intros Hf. apply lockstep_query. intros d1 d2 Hd. rewrite (Hf d1 d2 Hd). by destruct (f d2). Qed.

Lemma lockstep_or_refuse {A} (R : A -> A -> Prop) (m1 m2 : M World DbError A) e :
  lockstep R m1 m2 -> lockstep R (or_refuse m1 e) (or_refuse m2 e).
Proof.
  intros Hm. unfold or_refuse. eapply lockstep_bind; [by apply lockstep_attempt|]. intros [a1|e1] [a2|e2] Hr; cbn in Hr; try done.
  subst. apply lockstep_throw.
Qed.
Lemma lockstep_in_x {A} (R : A -> A -> Prop) (m1 m2 : M World DbError A) :
  lockstep R m1 m2 -> lockstep R (in_x m1) (in_x m2).
Proof.
  intros Hm. unfold in_x. eapply lockstep_bind; [by apply lockstep_attempt|]. intros [a1|e1] [a2|e2] Hr; cbn in Hr; try done.
Qed.
Lemma lockstep_param {A} (o : option A) : lockstep eq (param o) (param o).
Proof. destruct o; [apply (lockstep_ret (E:=Response) eq); done|apply lockstep_throw]. Qed.
Lemma lockstep_refuse_if c r : lockstep eq (refuse_if c r) (refuse_if c r).
Proof. destruct c; [apply lockstep_throw|apply (lockstep_ret (E:=Response) eq); done]. Qed.

Lemma lockstep_in_tx {A} (R : A -> A -> Prop) (m1 m2 : M World TxError A) :
  lockstep R m1 m2 -> lockstep R (in_tx m1) (in_tx m2).
Proof.
  intros Hm [d1 s1] [d2 s2] [Hs Hd]. cbn in Hs, Hd. subst. unfold in_tx. cbn. destruct (served s2); [|done..].
  destruct (Hm (mkWorld d1 (s2 ++ ["BEGIN"])) (mkWorld d2 (s2 ++ ["BEGIN"]))) as [[Hs Hd'] Hr]; [done|].
  destruct (m1 _) as [[a1|e1] w1], (m2 _) as [[a2|e2] w2]; cbn in *; try done.
  - rewrite Hs. by destruct (served (statements w2)).
  - rewrite Hs. by split.
Qed.

Definition same_answer {X} (p q : Response * X) : Prop := p.1 = q.1.

Lemma lockstep_nothing name : lockstep eq (nothing name) (nothing name).
Proof. by apply lockstep_query_eq. Qed.

(** ** The statements of the invitation routes *)
Section statements.
Context `{UnicodeTables}.

Lemma lockstep_member g p : lockstep eq (GetGroupMember g p) (GetGroupMember g p).
Proof. apply lockstep_query_eq. intros d1 d2 []. by rewrite sees_members0. Qed.
Lemma lockstep_group g : lockstep eq (GetGroupByID g) (GetGroupByID g).
Proof. apply lockstep_query_eq. intros d1 d2 []. by rewrite sees_groups0. Qed.
Lemma lockstep_owner u g : lockstep eq (require_owner u g) (require_owner u g).
Proof.
  unfold require_owner. eapply lockstep_bind; [apply lockstep_or_refuse, lockstep_member|]. intros m ? <-.
  apply lockstep_refuse_if.
Qed.

(** A predicate that reads only what is not hidden. *)
Ltac same_pred := intros [? p] [? q] [Hk Hh]; cbn in *; injection Hh; intros; by repeat match goal with Hx : _ = _ |- _ => rewrite Hx end.

Lemma invitation_where_same f d1 d2 :
  (forall i j, hide i = hide j -> f d1 i = f d2 j) -> owner_sees d1 d2 ->
  match invitation_where (f d1) d1, invitation_where (f d2) d2 with
  | Some p, Some q => same_row p q | None, None => True | _, _ => False
  end.
Proof.
  intros Hf Hs. unfold invitation_where. apply head_same, filter_same; [|by apply same_rows].
  intros [? i] [? j] [_ Hij]. by apply Hf.
Qed.

Lemma hidden i j : hide i = hide j ->
  InvGroup i = InvGroup j /\ InvitedUsername i = InvitedUsername j /\ InvitedBy i = InvitedBy j /\
  CreatedAt i = CreatedAt j /\ ExpiresAt i = ExpiresAt j.
Proof. unfold hide. by intros [= -> -> -> -> ->]. Qed.

Lemma lockstep_open_invitation g name :
  lockstep same_row (GetOpenGroupInvitationByUsername g name) (GetOpenGroupInvitationByUsername g name).
Proof.
  apply lockstep_query. intros d1 d2 Hs.
  pose proof (invitation_where_same (fun d i => (InvGroup i =? g) && String.eqb (InvitedUsername i) name && (now d <? ExpiresAt i)) d1 d2) as Hw.
  cbn beta in Hw. assert (forall i j, hide i = hide j ->
    (InvGroup i =? g) && String.eqb (InvitedUsername i) name && (now d1 <? ExpiresAt i) =
    (InvGroup j =? g) && String.eqb (InvitedUsername j) name && (now d2 <? ExpiresAt j)) as Hp.
  { intros i j (-> & -> & _ & _ & ->)%hidden. by rewrite (sees_now _ _ Hs). }
  specialize (Hw Hp Hs). destruct (invitation_where _ d1), (invitation_where _ d2); done.
Qed.

Lemma lockstep_count g : lockstep eq (CountOpenGroupInvitations g) (CountOpenGroupInvitations g).
Proof.
  apply lockstep_query_eq. intros d1 d2 Hs. do 2 f_equal. eapply Forall2_length, filter_same; [|by apply same_rows].
  intros [? i] [? j] [_ (-> & _ & _ & _ & ->)%hidden]. by rewrite (sees_now _ _ Hs).
Qed.

(** The invitations rewritten alike. *)
Lemma sees_set d1 d2 m1 m2 : owner_sees d1 d2 -> hide <$> m1 = hide <$> m2 ->
  owner_sees (set_invitations m1 d1) (set_invitations m2 d2).
Proof. by intros [] ?. Qed.

Lemma hide_filter (f g : Z * Invitation -> bool) (m1 m2 : gmap Z Invitation) :
  (forall i x y, hide x = hide y -> f (i, x) = g (i, y)) -> hide <$> m1 = hide <$> m2 ->
  hide <$> filter (fun p => f p = true) m1 = hide <$> filter (fun p => g p = true) m2.
Proof.
  intros Hfg Hm. apply map_eq. intros i. rewrite !lookup_fmap, !map_lookup_filter.
  assert (hide <$> m1 !! i = hide <$> m2 !! i) as Hi by (by rewrite <- !lookup_fmap, Hm).
  destruct (m1 !! i) as [x|], (m2 !! i) as [y|]; cbn [fmap option_fmap option_map] in Hi; try done. apply (inj Some) in Hi.
  specialize (Hfg i x y Hi). cbn. unfold guard. rewrite Hfg. case_decide; cbn; [by rewrite Hi|done].
Qed.

Lemma lockstep_delete_expired g name :
  lockstep eq (DeleteExpiredGroupInvitationByUsername g name) (DeleteExpiredGroupInvitationByUsername g name).
Proof.
  apply lockstep_stmt. intros d1 d2 Hs. cbn. split; [done|]. apply sees_set; [done|]. apply hide_filter; [|apply Hs].
  intros i x y Hh. cbn. apply hidden in Hh as (-> & -> & _ & _ & ->). by rewrite (sees_now _ _ Hs).
Qed.

Lemma lockstep_quota u quota limit : lockstep eq (takeDailyQuota u quota limit) (takeDailyQuota u quota limit).
Proof.
  unfold takeDailyQuota. eapply (lockstep_bind eq).
  - apply lockstep_stmt. intros d1 d2 []. cbn. split; [done|]. unfold today. rewrite sees_now0. by split; cbn; rewrite ?sees_quotas0.
  - intros _ _ _. eapply (lockstep_bind (same_result eq)).
    + apply lockstep_attempt, lockstep_stmt. intros d1 d2 []. unfold today. rewrite sees_quotas0, sees_now0.
      destruct (quotas d2 !! (u, quota, now d2 / (24 * hour))) as [used|]; [destruct (used <? limit); [|done]|];
        (split; [done|]); split; cbn; congruence.
    + intros [?|e1] [?|e2] Hr; cbn in Hr; try done. subst.
      destruct e2; [by apply (lockstep_ret (E:=DbError) eq)|apply lockstep_throw..].
Qed.

Lemma hide_insert k x y (m1 m2 : gmap Z Invitation) :
  hide x = hide y -> hide <$> m1 = hide <$> m2 -> hide <$> <[k := x]> m1 = hide <$> <[k := y]> m2.
Proof. intros Hxy Hm. by rewrite !fmap_insert, Hxy, Hm. Qed.

Lemma lockstep_create g i1 i2 name by_ days :
  lockstep same_row (sql_CreateGroupInvitation g i1 name by_ days) (sql_CreateGroupInvitation g i2 name by_ days).
Proof.
  apply lockstep_stmt. intros d1 d2 Hs. rewrite (sees_groups _ _ Hs). destruct (negb _); [done|].
  pose proof (invitation_where_same (fun _ i => (InvGroup i =? g) && String.eqb (InvitedUsername i) name) d1 d2) as Hw.
  assert (forall i j, hide i = hide j -> (InvGroup i =? g) && String.eqb (InvitedUsername i) name =
    (InvGroup j =? g) && String.eqb (InvitedUsername j) name) as Hp.
  { by intros i j (-> & -> & _)%hidden. }
  specialize (Hw Hp Hs). cbn beta in Hw. destruct (invitation_where _ d1), (invitation_where _ d2); cbn [is_some_b]; try done.
  pose proof (sees_now _ _ Hs) as Hnow. pose proof (sees_ids _ _ Hs) as Hids.
  pose proof (same_lookup d1 d2 (next_id d1) Hs) as Hfree. rewrite Hids in Hfree |- *.
  destruct (invitations d1 !! _), (invitations d2 !! _); try done.
  cbn. rewrite Hnow. split; [done|]. destruct Hs. split; cbn; try done; [congruence|]. by apply hide_insert.
Qed.

(** An update of who an invitation names, or of their answer, is hidden. *)
Lemma hide_update d k x status row : invitations d !! k = Some row ->
  owner_sees d (set_invitations (<[k := invitation_for x status row]> (invitations d)) d).
Proof.
  intros Hk. split; try done. cbn. rewrite fmap_insert. replace (hide (invitation_for x status row)) with (hide row) by done.
  symmetry. apply insert_id. by rewrite lookup_fmap, Hk.
Qed.

Lemma relink_hidden k x d : exists d', (match invitations d !! k with
    | Some i => if bool_decide (InviteeID i = x) then Ok (tt, d)
                else Ok (tt, set_invitations (<[k := invitation_for x "pending" i]> (invitations d)) d)
    | None => Ok (tt, d) end : result DbError (unit * Db)) = Ok (tt, d') /\ owner_sees d d'.
Proof.
  destruct (invitations d !! k) as [row|] eqn:Hk; [|by eexists]. case_bool_decide.
  - by eexists.
  - eexists. split; [done|]. by apply hide_update.
Qed.

Lemma lockstep_relink k x1 x2 : lockstep eq (RelinkGroupInvitation k x1) (RelinkGroupInvitation k x2).
Proof.
  apply lockstep_stmt. intros d1 d2 Hs. destruct (relink_hidden k x1 d1) as (d1' & -> & H1), (relink_hidden k x2 d2) as (d2' & -> & H2).
  cbn. split; [done|]. transitivity d2; [|done]. transitivity d1; [by symmetry|done].
Qed.

Lemma lockstep_row {A} (R : A -> A -> Prop) (m1 m2 : M World DbError A) :
  lockstep R m1 m2 -> lockstep (option_Forall2 R) (row_if_any m1) (row_if_any m2).
Proof.
  intros Hm. unfold row_if_any. eapply lockstep_bind; [by apply lockstep_attempt|].
  intros [a1|e1] [a2|e2] Hr; cbn in Hr; try done; [apply (lockstep_ret (E:=Response) (option_Forall2 R)); by constructor|].
  subst. destruct e2; [apply (lockstep_ret (E:=Response) (option_Forall2 R)); constructor|apply lockstep_throw..].
Qed.

(** Whether an account holds the handle makes no difference to how the run goes
    on. *)
Lemma lockstep_account name : lockstep (fun _ _ => True) (row_if_any (GetUserByUsername name)) (row_if_any (GetUserByUsername name)).
Proof.
  intros [d1 s1] [d2 s2] [Hs Hd]. cbn in Hs, Hd. subst. unfold row_if_any, attempt, GetUserByUsername, query, stmt. rewrite !M_bind_unfold. cbn.
  destruct (served s2); [|done..]. destruct (account_named name d1), (account_named name d2); by cbn.
Qed.

(** Nobody who holds the handle is a member who chose to be. *)
Definition unrevealing (d : Db) (g : Z) (handle : string) : Prop := forall p m,
  account_named handle d = Some p -> members d !! (g, p) = Some m -> consentedMembership m = false.

Lemma lockstep_send u g group1 group2 handle i1 i2 :
  lockstep same_answer (send_invitation u g group1 handle i1) (send_invitation u g group2 handle i2).
Proof.
  unfold send_invitation. eapply lockstep_bind; [apply lockstep_or_refuse, lockstep_count|]. intros open ? <-.
  eapply lockstep_bind; [apply lockstep_refuse_if|]. intros _ _ _.
  eapply lockstep_bind; [apply lockstep_or_refuse, lockstep_quota|]. intros allowed ? <-.
  eapply lockstep_bind; [apply lockstep_refuse_if|]. intros _ _ _.
  eapply lockstep_bind; [apply lockstep_or_refuse, lockstep_delete_expired|]. intros _ _ _.
  eapply lockstep_bind; [apply lockstep_row, lockstep_create|]. intros c1 c2 Hc.
  destruct Hc as [[id1 r1] [id2 r2] _|]; by apply (lockstep_ret (E:=Response) same_answer).
Qed.

(** *** Under a condition on both databases *)
Section under.
Context (P : Db -> Prop).
Definition lockstep_under {E A} (R : A -> A -> Prop) (m1 m2 : M World E A) : Prop := forall w1 w2,
  in_step w1 w2 -> P (db w1) -> P (db w2) -> in_step (m1 w1).2 (m2 w2).2 /\ same_result R (m1 w1).1 (m2 w2).1.

Lemma under_read {E A B} (R : A -> A -> Prop) (Q : B -> B -> Prop) (m : M World E A) f1 f2 :
  lockstep R m m -> reads m -> (forall a1 a2, R a1 a2 -> lockstep_under Q (f1 a1) (f2 a2)) ->
  lockstep_under Q (m ≫= f1) (m ≫= f2).
Proof.
  intros Hm Hreads Hf w1 w2 Hw HP1 HP2. rewrite !M_bind_unfold. destruct (Hm w1 w2 Hw) as [Hw' Hr].
  pose proof (Hreads w1) as Hd1. pose proof (Hreads w2) as Hd2.
  destruct (m w1) as [[a1|e1] w1'], (m w2) as [[a2|e2] w2']; cbn [fst snd] in *; [|done|done|by split].
  apply Hf; [done|done|by rewrite Hd1|by rewrite Hd2].
Qed.
Lemma under_bind {E A B} (R : A -> A -> Prop) (Q : B -> B -> Prop) (m1 m2 : M World E A) f1 f2 :
  lockstep_under R m1 m2 -> (forall a1 a2, R a1 a2 -> lockstep Q (f1 a1) (f2 a2)) -> lockstep_under Q (m1 ≫= f1) (m2 ≫= f2).
Proof.
  intros Hm Hf w1 w2 Hw HP1 HP2. rewrite !M_bind_unfold. destruct (Hm w1 w2 Hw HP1 HP2) as [Hw' Hr].
  destruct (m1 w1) as [[a1|e1] w1'], (m2 w2) as [[a2|e2] w2']; cbn [fst snd] in *; [by apply Hf|done|done|by split].
Qed.
Lemma under_attempt {E F A} (R : A -> A -> Prop) (m1 m2 : M World E A) :
  lockstep_under R m1 m2 -> lockstep_under (E:=F) (same_result R) (attempt m1) (attempt m2).
Proof.
  intros Hm w1 w2 Hw HP1 HP2. unfold attempt. destruct (Hm w1 w2 Hw HP1 HP2) as [Hw' Hr]. by destruct (m1 w1), (m2 w2).
Qed.
Lemma under_in_tx {A} (R : A -> A -> Prop) (m1 m2 : M World TxError A) :
  lockstep_under R m1 m2 -> lockstep_under R (in_tx m1) (in_tx m2).
Proof.
  intros Hm [d1 s1] [d2 s2] [Hs Hd] HP1 HP2. cbn in Hs, Hd. subst. unfold in_tx. cbn. destruct (served s2); [|done..].
  destruct (Hm (mkWorld d1 (s2 ++ ["BEGIN"])) (mkWorld d2 (s2 ++ ["BEGIN"]))) as [[Hs Hd'] Hr]; [done..|].
  destruct (m1 _) as [[a1|e1] w1], (m2 _) as [[a2|e2] w2]; cbn in *; try done.
  - rewrite Hs. by destruct (served (statements w2)).
  - rewrite Hs. by split.
Qed.
End under.

Lemma under_param {A B} P (Q : B -> B -> Prop) (o : option A) (f1 f2 : A -> M World Response B) :
  (forall a, o = Some a -> lockstep_under P Q (f1 a) (f2 a)) -> lockstep_under P Q (param o ≫= f1) (param o ≫= f2).
Proof. destruct o as [a|]; intros Hf w1 w2 Hw HP1 HP2; [by apply (Hf a eq_refl)|done]. Qed.

Lemma under_mutate {X} P gh (none : X) id mutation refresh :
  (forall g, id = Some g -> lockstep_under P same_answer (mutation g) (mutation g)) ->
  lockstep_under P same_answer (mutate_with gh none id mutation refresh) (mutate_with gh none id mutation refresh).
Proof.
  intros Hm. unfold mutate_with, inCollectiveAuthorityTx. apply under_param. intros g Hg. specialize (Hm g Hg).
  eapply under_bind.
  - apply under_attempt, (under_in_tx P same_answer). eapply under_read; [apply lockstep_in_x, lockstep_nothing|reads_walk|]. intros _ _ _.
    apply (under_read _ eq); [|reads_walk|].
    { destruct (refresh && gh); [apply lockstep_in_x, lockstep_nothing|by apply (lockstep_ret (E:=TxError) eq)]. }
    intros _ _ _. eapply under_bind; [apply under_attempt, Hm|].
    intros [[r1 x1]|r1] [[r2 x2]|r2] Hr; cbn in Hr; try done; unfold same_answer in Hr; cbn in Hr; subst;
      (case_match; [apply lockstep_throw|by apply (lockstep_ret (E:=TxError) same_answer)]).
  - intros [[r1 x1]|[e1|]] [[r2 x2]|[e2|]] Hr; cbn in Hr; try done.
    injection Hr as <-. by apply (lockstep_ret (E:=Response) same_answer).
Qed.

Lemma under_of_lockstep {E A} P (R : A -> A -> Prop) (m1 m2 : M World E A) : lockstep R m1 m2 -> lockstep_under P R m1 m2.
Proof. intros Hm w1 w2 Hw _ _. by apply Hm. Qed.

Lemma reads_row {A} (m : M World DbError A) : reads m -> reads (row_if_any m).
Proof. intros Hm. unfold row_if_any. reads_walk. Qed.

(** The two reads about the holder, in closed form. *)
Lemma account_row_run handle w : row_if_any (GetUserByUsername handle) w =
  (match served (statements w) with Fine => Ok (account_named handle (db w)) | _ => Err (writeError 500) end,
   mkWorld (db w) (statements w ++ ["GetUserByUsername"])).
Proof.
  unfold row_if_any, attempt, GetUserByUsername, query, stmt. rewrite M_bind_unfold.
  destruct (served (statements w)); [|done..]. by destruct (account_named handle (db w)).
Qed.
Lemma member_row_run g i w : row_if_any (GetGroupMemberOf g i) w =
  (match served (statements w) with Fine => Ok (i ≫= fun p => members (db w) !! (g, p)) | _ => Err (writeError 500) end,
   mkWorld (db w) (statements w ++ ["GetGroupMember"])).
Proof.
  unfold row_if_any, attempt, GetGroupMemberOf, GetGroupMember, query, stmt. rewrite M_bind_unfold.
  destruct i as [p|]; destruct (served (statements w)); try done. cbn. by destruct (members (db w) !! (g, p)).
Qed.

(** The account, its membership and the refusal of a member: the same in both
    runs when neither database would reveal the holder. *)
Lemma under_holder {B} g handle (Q : B -> B -> Prop) (f1 f2 : option Z -> M World Response B) :
  (forall i1 i2, lockstep Q (f1 i1) (f2 i2)) ->
  let m f :=
    invitee ← row_if_any (GetUserByUsername handle);
    existing ← row_if_any (GetGroupMemberOf g invitee);
    _ ← refuse_if (match existing with Some m => consentedMembership m | None => false end) (writeError 409);
    f invitee in
  lockstep_under (fun d => unrevealing d g handle) Q (m f1) (m f2).
Proof.
  intros Hf m [d1 s1] [d2 s2] [Hs Hd] HP1 HP2. cbn in Hs, Hd, HP1, HP2. subst.
  assert (forall d f, unrevealing d g handle -> m f (mkWorld d s2) =
    match served s2, served (s2 ++ ["GetUserByUsername"]) with
    | Fine, Fine => f (account_named handle d) (mkWorld d ((s2 ++ ["GetUserByUsername"]) ++ ["GetGroupMember"]))
    | Fine, _ => (Err (writeError 500), mkWorld d ((s2 ++ ["GetUserByUsername"]) ++ ["GetGroupMember"]))
    | _, _ => (Err (writeError 500), mkWorld d (s2 ++ ["GetUserByUsername"]))
    end) as Hm.
  { intros d f Hquiet. unfold m. rewrite M_bind_unfold, account_row_run. cbn [statements db]. destruct (served s2); [|done..].
    rewrite M_bind_unfold, member_row_run. cbn [statements db]. destruct (served (s2 ++ _)); [|done..].
    rewrite M_bind_unfold. destruct (account_named handle d) as [p|] eqn:Hp; [|done]. cbn [mbind option_bind].
    destruct (members d !! (g, p)) as [mb|] eqn:Hmb; [|done]. by rewrite (Hquiet p mb Hp Hmb). }
  rewrite !Hm by done. destruct (served s2), (served (s2 ++ ["GetUserByUsername"])); try done. by apply Hf.
Qed.

Lemma under_invite u username g :
  lockstep_under (fun d => forall typed handle, username = Some typed -> normalizeInvitedUsername typed = Some handle -> unrevealing d g handle)
    same_answer (createGroupInvitationLocked u username g) (createGroupInvitationLocked u username g).
Proof.
  unfold createGroupInvitationLocked.
  eapply under_read; [apply lockstep_owner|unfold require_owner; reads_walk|]. intros _ _ _.
  apply under_param. intros typed ->. apply under_param. intros handle Hhandle.
  eapply under_read; [apply lockstep_or_refuse, lockstep_group|reads_walk|]. intros group ? <-.
  eapply under_read; [apply lockstep_row, lockstep_open_invitation|apply reads_row, reads_query|]. intros e1 e2 He.
  intros w1 w2 Hw HP1 HP2.
  pose proof (under_holder g handle same_answer
    (fun invitee => match e1 with Some (id, _) => _ ← or_refuse (RelinkGroupInvitation id invitee) (fun _ => writeError 500); mret (invited, None)
                    | None => send_invitation u g group handle invitee end)
    (fun invitee => match e2 with Some (id, _) => _ ← or_refuse (RelinkGroupInvitation id invitee) (fun _ => writeError 500); mret (invited, None)
                    | None => send_invitation u g group handle invitee end)) as Hholder.
  cbv zeta in Hholder. apply Hholder; [|done|by apply (HP1 typed)|by apply (HP2 typed)].
  intros i1 i2. destruct He as [[k1 r1] [k2 r2] [Hk _]|]; [|apply lockstep_send]. cbn in Hk. subst k2.
  eapply lockstep_bind; [apply lockstep_or_refuse, lockstep_relink|]. intros _ _ _. by apply (lockstep_ret (E:=Response) same_answer).
Qed.

Lemma lockstep_list u id : lockstep eq (ListGroupInvitations u id) (ListGroupInvitations u id).
Proof.
  unfold ListGroupInvitations. eapply lockstep_bind; [apply lockstep_param|]. intros g ? <-.
  eapply lockstep_bind; [apply lockstep_owner|]. intros _ _ _.
  eapply lockstep_bind; [apply lockstep_or_refuse, lockstep_query_eq|].
  - intros d1 d2 Hs. f_equal. apply list_eq_Forall2, Forall2_fmap_2.
    eapply Forall2_impl; [apply sort_same, filter_same; [|by apply same_rows]|].
    + intros [? i] [? j] [_ (-> & _ & _ & _ & ->)%hidden]. by rewrite (sees_now _ _ Hs).
    + intros [k i] [k' j] [Hk (_ & Hu & Hb & Hc & He)%hidden]. cbn in *. unfold sent_row. cbn. congruence.
  - intros rows ? <-. eapply lockstep_bind; [apply lockstep_or_refuse, lockstep_nothing|]. intros _ _ _.
    by apply (lockstep_ret (E:=Response) eq).
Qed.

Lemma hide_delete k (m1 m2 : gmap Z Invitation) : hide <$> m1 = hide <$> m2 -> hide <$> delete k m1 = hide <$> delete k m2.
Proof. intros Hm. by rewrite !fmap_delete, Hm. Qed.

Lemma lockstep_revoke_statement k g : lockstep eq (sql_RevokeGroupInvitation k g) (sql_RevokeGroupInvitation k g).
Proof.
  apply lockstep_stmt. intros d1 d2 Hs. pose proof (same_lookup d1 d2 k Hs) as Hk.
  destruct (invitations d1 !! k) as [i|], (invitations d2 !! k) as [j|]; cbn [fmap option_fmap option_map] in Hk; try done.
  apply (inj Some), hidden in Hk as (-> & _ & _ & _ & ->). rewrite (sees_now _ _ Hs). case_match; [|done].
  cbn. split; [done|]. apply sees_set; [done|]. apply hide_delete, Hs.
Qed.

Lemma lockstep_revoke gh u id i : lockstep eq (RevokeGroupInvitation gh u id i) (RevokeGroupInvitation gh u id i).
Proof.
  unfold RevokeGroupInvitation, mutateCollective. eapply lockstep_bind.
  - intros w1 w2 Hw. apply (under_mutate (fun _ => True)); [|done..]. intros g _. apply under_of_lockstep.
    unfold revokeGroupInvitationLocked. eapply (lockstep_bind eq).
    + eapply lockstep_bind; [apply lockstep_param|]. intros k ? <-. eapply lockstep_bind; [apply lockstep_owner|]. intros _ _ _.
      eapply lockstep_bind; [apply lockstep_or_refuse, lockstep_revoke_statement|]. intros n ? <-.
      eapply lockstep_bind; [apply lockstep_refuse_if|]. intros _ _ _. by apply (lockstep_ret (E:=Response) eq).
    + intros r ? <-. by apply (lockstep_ret (E:=Response) same_answer).
  - intros [r1 x1] [r2 x2] Hr. unfold same_answer in Hr. cbn in Hr. subst. by apply (lockstep_ret (E:=Response) eq).
Qed.

Lemma decline_hidden p i w : owner_sees (db w) (db (DeclineMyInvitation p i w).2).
Proof.
  refine (keeps_run (fun w1 => owner_sees (db w) (db w1)) (DeclineMyInvitation p i) w _ _ _ _ (surjective_pairing _)); [|done].
  unfold DeclineMyInvitation. apply keeps_bind; [apply keeps_param|]. intros k. apply keeps_bind.
  - apply keeps_or_refuse, (keeps_auto (owner_sees (db w))). intros d a d' Hs Hf. unfold my_pending in Hf.
    destruct (invitations d !! k) as [row|] eqn:Hk; cbn in Hf; [|by injection Hf as _ <-].
    destruct (bool_decide (InviteeID row = Some p) && String.eqb (InvStatus row) "pending" && (now d <? ExpiresAt row));
      cbn in Hf; injection Hf as _ <-; [|done]. transitivity d; [done|]. by apply hide_update.
  - intros n. apply keeps_bind; [apply keeps_refuse_if|]. intros _. apply keeps_ret.
Qed.
End statements.
End lockstep.

(** Also: inviting a handle tells the owner nothing about who holds it. On two
    databases that differ only in the accounts, in whom the invitations name and
    what those people answered, the answer is the same and so is everything the
    owner can see afterwards, quotas included; the one exception is a holder who is
    already a member by their own choice, whom the owner sees as a member. *)
Theorem inviting_reveals_nothing `{Env, UnicodeTables} (gh : bool) (u g : Z) (username : option string) (w1 w2 : World) :
  statements w1 = statements w2 -> owner_sees (db w1) (db w2) ->
  (forall typed handle, username = Some typed -> normalizeInvitedUsername typed = Some handle ->
     unrevealing (db w1) g handle /\ unrevealing (db w2) g handle) ->
  let '(r1, w1') := responds gh u (OpInvite (Some g) username) w1 in
  let '(r2, w2') := responds gh u (OpInvite (Some g) username) w2 in
  r1 = r2 /\ owner_sees (db w1') (db w2').
Proof.
  intros Hs Hd Hquiet.
  assert (lockstep_under (fun d => forall typed handle, username = Some typed -> normalizeInvitedUsername typed = Some handle ->
      unrevealing d g handle) eq (perform gh u (OpInvite (Some g) username)) (perform gh u (OpInvite (Some g) username))) as Hm.
  { cbn [perform]. unfold CreateGroupInvitation. eapply under_bind.
    - eapply under_bind.
      + apply under_mutate. intros g' [= <-]. apply under_invite.
      + intros [r1 n1] [r2 n2] Hr. apply (lockstep_ret (E:=Response) same_answer). exact Hr.
    - intros [r1 n1] [r2 n2] Hr. apply (lockstep_ret (E:=Response) eq). exact Hr. }
  destruct (Hm w1 w2 (conj Hs Hd)) as [[_ Hd'] Hr].
  { intros typed handle H1 H2. by destruct (Hquiet typed handle H1 H2). }
  { intros typed handle H1 H2. by destruct (Hquiet typed handle H1 H2). }
  unfold responds. destruct (perform gh u _ w1) as [[r1|r1] w1'], (perform gh u _ w2) as [[r2|r2] w2']; cbn in *; by subst.
Qed.

(** Also: what a person does with an invitation stays theirs. A decline changes
    nothing an owner can see; and on databases an owner cannot tell apart, the list
    of a collective's invitations and the answer to revoking one are the same. *)
Theorem answers_stay_private `{Env, UnicodeTables} (gh : bool) :
  (forall p i w, owner_sees (db w) (db (responds gh p (OpDecline i) w).2)) /\
  forall u g i w1 w2, statements w1 = statements w2 -> owner_sees (db w1) (db w2) ->
    (ListGroupInvitations u g w1).1 = (ListGroupInvitations u g w2).1 /\
    (responds gh u (OpRevokeInvitation g i) w1).1 = (responds gh u (OpRevokeInvitation g i) w2).1 /\
    owner_sees (db (responds gh u (OpRevokeInvitation g i) w1).2) (db (responds gh u (OpRevokeInvitation g i) w2).2).
Proof.
  split.
  - intros p i w. unfold responds. pose proof (decline_hidden p i w) as Hd. cbn [perform]. by destruct (DeclineMyInvitation p i w).
  - intros u g i w1 w2 Hs Hd. destruct (lockstep_list u g w1 w2 (conj Hs Hd)) as [_ Hlist].
    destruct (lockstep_revoke gh u g i w1 w2 (conj Hs Hd)) as [[_ Hd'] Hrevoke]. unfold responds. cbn [perform].
    destruct (ListGroupInvitations u g w1) as [[l1|l1] ?], (ListGroupInvitations u g w2) as [[l2|l2] ?];
    destruct (RevokeGroupInvitation gh u g i w1) as [[r1|r1] ?], (RevokeGroupInvitation gh u g i w2) as [[r2|r2] ?]; cbn in *; by subst.
Qed.

(** ** Instances *)

(** The village as it would be had nobody the handle ["cy"]. *)
Definition village_without : Db :=
  mkDb (delete 12 (accounts village)) (groups village) (members village) (invitations village) (quotas village)
    (transcripts village) (ledger village) (shares village) (now village) (next_id village).

Lemma inviting_reveals_nothing_witness :
  (@responds settled ascii_tables true 10 (OpInvite (Some 1) (Some " @Cy ")) at_village).1 =
  (@responds settled ascii_tables true 10 (OpInvite (Some 1) (Some " @Cy ")) (mkWorld village_without [])).1 /\
  code (@responds settled ascii_tables true 10 (OpInvite (Some 1) (Some " @Cy ")) at_village).1 = 202.
Proof.
  split; [|by vm_compute].
  pose proof (@inviting_reveals_nothing settled ascii_tables true 10 1 (Some " @Cy ") at_village (mkWorld village_without [])) as Hr.
  destruct (responds _ _ _ at_village) as [r1 w1], (responds _ _ _ (mkWorld village_without [])) as [r2 w2].
  apply Hr; [done|by split|]. intros typed handle [= <-] Hhandle. assert (handle = "cy") as -> by (vm_compute in Hhandle; congruence).
  split; intros p m Hp Hm; vm_compute in Hp; [|done]. injection Hp as <-. by vm_compute in Hm.
Defined.

Lemma answers_stay_private_witness :
  (@ListGroupInvitations settled 10 (Some 1) at_village).1 =
  (@ListGroupInvitations settled 10 (Some 1) (mkWorld village_without [])).1.
Proof.
  destruct (@answers_stay_private settled ascii_tables true) as [_ Hp].
  by destruct (Hp 10 (Some 1) None at_village (mkWorld village_without [])) as [? _]; [done|by split|].
Defined.
End InvitationLaws.
