(* ===== verification/InvitationLimits.v ===== *)
(** * How many invitations there can be

    No collective ever has more than fifty open invitations and no person's
    requests of one day make more than twenty, whatever is asked of the server: a
    person's counter of the day pays for every row that comes to be. *)
From S2P Require Import Prelude GoText Regex Governance CollectiveStore Collectives Invitations CollectiveRoutes LedgerLaws CollectiveLaws ShareLaws ShareOutcome MemberLaws.

Open Scope string_scope.
Open Scope list_scope.
Open Scope Z_scope.

Module InvitationLimits.
Import Governance CollectiveStore Collectives Invitations CollectiveRoutes LedgerLaws CollectiveLaws ShareLaws ShareOutcome MemberLaws.

Definition open_in (d : Db) (g : Z) (p : Z * Invitation) : bool := (InvGroup p.2 =? g) && (now d <? ExpiresAt p.2).
(** What [CountOpenGroupInvitations] answers. *)
Definition open_count (d : Db) (g : Z) : Z := Z.of_nat (length (List.filter (open_in d g) (map_to_list (invitations d)))).

Definition within_limits (d : Db) : Prop :=
  (forall g, open_count d g <= openInvitationsPerCollective) /\
  forall k n, quotas d !! k = Some n -> k.1.2 = quotaInvitationSent -> 0 <= n <= invitationsPerInviterPerDay.

(** ** Counting *)
Definition open_map (d : Db) (g : Z) : gmap Z Invitation := filter (fun p => open_in d g p = true) (invitations d).
Lemma list_filter_length {A} (f : A -> bool) (l : list A) :
  length (List.filter f l) = length (base.filter (fun x => f x = true) l).
Proof.
  induction l as [|x l IH]; [done|]. rewrite filter_cons. cbn. destruct (f x) eqn:Hf; case_decide; cbn; congruence.
Qed.
Lemma open_count_size d g : open_count d g = Z.of_nat (size (open_map d g)).
Proof.
  unfold open_count, open_map. f_equal. rewrite list_filter_length, <- length_map_to_list, map_filter_alt.
  rewrite map_to_list_to_map; [done|]. eapply sublist_NoDup; [apply (NoDup_fst_map_to_list (invitations d))|].
  apply fmap_sublist, sublist_filter.
Qed.

Lemma open_count_mono d d' g :
  (forall k x, open_map d' g !! k = Some x -> is_Some (open_map d g !! k)) -> open_count d' g <= open_count d g.
Proof.
  intros Hsub. rewrite !open_count_size. apply inj_le. rewrite <- !size_dom. apply subseteq_size.
  intros k Hk. apply elem_of_dom in Hk as [x Hx]. apply elem_of_dom. eauto.
Qed.

Lemma open_map_some d g k x :
  open_map d g !! k = Some x <-> invitations d !! k = Some x /\ InvGroup x = g /\ now d < ExpiresAt x.
Proof.
  unfold open_map, open_in. rewrite map_lookup_filter_Some. cbn. rewrite andb_true_iff, Z.eqb_eq, Z.ltb_lt. done.
Qed.

(** What a person's counter of the day stands at. *)
Definition spent (d : Db) (u day : Z) : Z := default 0 (quotas d !! (u, quotaInvitationSent, day)).
Lemma spent_within d u day : within_limits d -> 0 <= spent d u day <= invitationsPerInviterPerDay.
Proof. intros [_ Hq]. unfold spent. destruct (quotas d !! _) as [n|] eqn:Hn; [by apply (Hq _ _ Hn)|done]. Qed.
Lemma spent_set q d u day : spent (set_quotas q d) u day = default 0 (q !! (u, quotaInvitationSent, day)).
Proof. done. Qed.

(** The invitations that are there and were not. *)
Definition new_invitations (d d' : Db) : gset Z := dom (invitations d') ∖ dom (invitations d).

(** Since [d0], person [u] has paid for every invitation there is more, and for
    [n] that are yet to come; nobody's counter of the day went down. *)
Definition paid (d0 : Db) (u n : Z) (d : Db) : Prop :=
  now d = now d0 /\ (forall v day, today d0 <= day -> spent d0 v day <= spent d v day) /\
  spent d0 u (today d0) + Z.of_nat (size (new_invitations d0 d)) + n <= spent d u (today d0).
Lemma paid_refl d u : paid d u 0 d.
Proof.
  split; [done|]. split; [lia|]. unfold new_invitations. rewrite difference_diag_L, size_empty. lia.
Qed.
Lemma paid_less d0 u n d : 0 <= n -> paid d0 u n d -> paid d0 u 0 d.
Proof. intros ? (? & ? & ?). split_and!; [done..|lia]. Qed.

(** ** The statements *)

(** The clock and the counters are as they were, and the invitations fewer, or the
    same with another invitee or answer. *)
Definition fewer (d d' : Db) : Prop := quotas d' = quotas d /\ now d' = now d /\
  forall k x, invitations d' !! k = Some x ->
    exists y, invitations d !! k = Some y /\ InvGroup x = InvGroup y /\ ExpiresAt x = ExpiresAt y.
Definition vault (d : Db) := (invitations d, quotas d, now d).
Lemma vault_fewer d d' : vault d' = vault d -> fewer d d'.
Proof. intros [= Hi Hq Hn]. split_and!; [done..|]. intros k x. rewrite Hi. eauto. Qed.

Lemma fewer_open d d' g : fewer d d' -> open_count d' g <= open_count d g.
Proof.
  intros (_ & Hn & Hinv). apply open_count_mono. intros k x Hx. apply open_map_some in Hx as (Hx & Hg & He).
  destruct (Hinv k x Hx) as (y & Hy & Hgy & Hey). exists y. apply open_map_some. split_and!; [done|congruence|lia].
Qed.
Lemma fewer_within d d' : within_limits d -> fewer d d' -> within_limits d'.
Proof.
  intros [Hc Hq] Hf. split; [|rewrite (proj1 Hf); exact Hq]. intros g. specialize (Hc g). pose proof (fewer_open _ _ g Hf). lia.
Qed.
Lemma fewer_paid d0 u n d d' : paid d0 u n d -> fewer d d' -> paid d0 u n d'.
Proof.
  intros (Hnow & Hall & Hpaid) (Hq & Hn & Hinv). unfold paid, spent in *. rewrite Hq, Hn. split_and!; [done..|].
  assert (size (new_invitations d0 d') <= size (new_invitations d0 d))%nat; [|lia].
  apply subseteq_size. unfold new_invitations. intros k [[x Hx]%elem_of_dom Hno]%elem_of_difference. destruct (Hinv k x Hx) as (y & Hy & _).
  apply elem_of_difference. split; [apply elem_of_dom; eauto|done].
Qed.

Lemma fewer_set d m :
  (forall k x, m !! k = Some x -> exists y, invitations d !! k = Some y /\ InvGroup x = InvGroup y /\ ExpiresAt x = ExpiresAt y) ->
  fewer d (set_invitations m d).
Proof. intros Hm. by repeat split. Qed.
Lemma fewer_update d k row invitee status : invitations d !! k = Some row ->
  fewer d (set_invitations (<[k := invitation_for invitee status row]> (invitations d)) d).
Proof.
  intros Hk. apply fewer_set. intros j x [[<- <-]|[_ Hx]]%lookup_insert_Some; [by exists row|by exists x].
Qed.

Section limits.
Context `{Env, UnicodeTables}.
(** The request began in [d0], and it is [u]'s. *)
Context (d0 : Db) (u : Z).

Definition bounded (d : Db) : Prop := within_limits d /\ paid d0 u 0 d.
Notation Limits := (fun w => bounded (db w)).
Lemma fewer_bounded d d' : bounded d -> fewer d d' -> bounded d'.
Proof. intros [? ?] Hf. split; [by eapply fewer_within|by eapply fewer_paid]. Qed.

Lemma keeps_fewer {A} name (f : Db -> result DbError (A * Db)) :
  (forall d a d', f d = Ok (a, d') -> fewer d d') -> keeps Limits (stmt name f).
Proof. intros Hf. apply (keeps_statement bounded). intros d a d' Hd Hr. eapply fewer_bounded; [done|by eapply Hf]. Qed.

Lemma keeps_vault {E A} (m : M World E A) :
  (forall x, keeps (fun w => vault (db w) = x) m) -> keeps Limits m.
Proof.
  intros Hm w Hw. eapply fewer_bounded; [exact Hw|]. apply vault_fewer. by apply (Hm (vault (db w)) w).
Qed.

Lemma limits_delete k : keeps Limits (DeleteInvitation k).
Proof.
  apply keeps_fewer. intros d a d' [= _ <-]. apply fewer_set. intros i x [_ Hx]%lookup_delete_Some. eauto.
Qed.
Lemma limits_revoke k g : keeps Limits (sql_RevokeGroupInvitation k g).
Proof.
  apply keeps_fewer. intros d a d' Hf. assert (fewer d d) as Hrefl by (by apply vault_fewer).
  destruct (invitations d !! k); [case_match|]; injection Hf as _ <-; [|done..].
  apply fewer_set. intros j x [_ Hx]%lookup_delete_Some. eauto.
Qed.
Lemma limits_decline k p : keeps Limits (sql_DeclineMyInvitation k p).
Proof.
  apply (keeps_auto bounded). intros d a d' Hd Hf. eapply fewer_bounded; [exact Hd|]. unfold my_pending in Hf.
  assert (fewer d d) as Hrefl by (by apply vault_fewer).
  destruct (invitations d !! k) as [row|] eqn:Hk; cbn in Hf; [|by injection Hf as _ <-].
  destruct (bool_decide (InviteeID row = Some p) && String.eqb (InvStatus row) "pending" && (now d <? ExpiresAt row));
    cbn in Hf; injection Hf as _ <-; [by apply fewer_update|done].
Qed.
Lemma limits_relink k invitee : keeps Limits (RelinkGroupInvitation k invitee).
Proof.
  apply keeps_fewer. intros d a d' Hf. assert (fewer d d) as Hrefl by (by apply vault_fewer).
  destruct (invitations d !! k) as [row|] eqn:Hk; [case_match|]; injection Hf as _ <-; [done|by apply fewer_update|done].
Qed.
Lemma limits_drop g : keeps Limits (sql_DeleteGroup g).
Proof.
  apply keeps_fewer. intros d a d' [= _ <-]. split_and!; [done..|].
  intros k x [Hx _]%map_lookup_filter_Some. eauto.
Qed.

(** ** Sending *)

(** Room for one more in [g], and [n] paid for. *)
Definition room (g n : Z) (d : Db) : Prop :=
  within_limits d /\ paid d0 u n d /\ open_count d g < openInvitationsPerCollective.
Lemma room_of g n d :
  (forall g', open_count d g' <= openInvitationsPerCollective) ->
  (forall k m, quotas d !! k = Some m -> k.1.2 = quotaInvitationSent -> 0 <= m <= invitationsPerInviterPerDay) ->
  now d = now d0 -> (forall v day, today d0 <= day -> spent d0 v day <= spent d v day) ->
  spent d0 u (today d0) + Z.of_nat (size (new_invitations d0 d)) + n <= spent d u (today d0) ->
  open_count d g < openInvitationsPerCollective -> room g n d.
Proof. done. Qed.
Lemma room_bounded g n d : 0 <= n -> room g n d -> bounded d.
Proof. intros ? (? & ? & _). split; [done|by eapply paid_less]. Qed.

Lemma room_expired g n name : keeps (fun w => room g n (db w)) (DeleteExpiredGroupInvitationByUsername g name).
Proof.
  apply (keeps_statement (room g n)). intros d a d' (Hl & Hp & Hr) [= _ <-].
  match goal with |- room _ _ ?d' => assert (fewer d d') as Hf end.
  { apply fewer_set. intros k x [Hx _]%map_lookup_filter_Some. eauto. }
  split; [by eapply fewer_within|]. split; [by eapply fewer_paid|]. pose proof (fewer_open _ _ g Hf). lia.
Qed.

(** Old counters go, and none of them is today's. *)
Lemma room_stale g : keeps (fun w => room g 0 (db w)) DeleteStaleDailyQuotas.
Proof.
  apply (keeps_statement (room g 0)). intros d a d' ([Hc Hq] & (Hnow & Hall & Hpaid) & Hr) [= _ <-].
  assert (today d = today d0) as Htoday by (unfold today; by rewrite Hnow).
  set (d' := set_quotas _ d).
  assert (forall v day, today d0 <= day -> spent d' v day = spent d v day) as Hsame.
  { intros v day Hday. unfold spent, d'. cbn [quotas set_quotas]. f_equal. rewrite map_lookup_filter.
    destruct (quotas d !! _) as [n|]; [|done]. cbn. rewrite option_guard_True; [done|]. rewrite negb_true_iff, Z.ltb_ge. cbn. lia. }
  apply room_of; [exact Hc|intros k n [Hk _]%map_lookup_filter_Some; by apply Hq|exact Hnow| |by rewrite Hsame|exact Hr].
  intros v day Hday. rewrite Hsame by done. by apply Hall.
Qed.
Lemma room_take g w r w' :
  room g 0 (db w) -> TakeDailyQuota u quotaInvitationSent invitationsPerInviterPerDay w = (r, w') ->
  room g 0 (db w') /\ forall n, r = Ok n -> room g 1 (db w').
Proof.
  intros Hroom [(n & d' & Hf & -> & Hd)|(e & -> & Hd)]%stmt_cases; [|by rewrite Hd].
  assert (room g 1 d') as Hone.
  { destruct Hroom as ([Hc Hq] & (Hnow & Hall & Hpaid) & Hr).
    assert (today (db w) = today d0) as Htoday by (unfold today; by rewrite Hnow). cbv zeta in Hf. rewrite Htoday in Hf.
    assert (0 <= spent (db w) u (today d0) < invitationsPerInviterPerDay /\
      d' = set_quotas (<[(u, quotaInvitationSent, today d0) := spent (db w) u (today d0) + 1]> (quotas (db w))) (db w)) as [Hlt ->].
    { unfold spent. destruct (quotas (db w) !! _) as [used|] eqn:Hu; [destruct (used <? _) eqn:Hlt; [|done]; specialize (Hq _ _ Hu eq_refl); bool_hyps|];
        injection Hf as _ <-; (split; [cbn; unfold invitationsPerInviterPerDay in *; lia|done]). }
    apply room_of; [exact Hc| |exact Hnow| | |exact Hr].
    - intros k m. cbn [quotas set_quotas]. intros [[<- <-]|[_ Hk]]%lookup_insert_Some Hkey; [lia|by apply (Hq k)].
    - intros v day Hday. specialize (Hall v day Hday). rewrite spent_set.
      destruct (decide ((u, quotaInvitationSent, today d0) = (v, quotaInvitationSent, day))) as [[= <- <-]|Hne].
      + rewrite lookup_insert_eq. cbn. lia.
      + rewrite lookup_insert_ne by done. exact Hall.
    - rewrite spent_set, lookup_insert_eq. cbn. unfold new_invitations in *. cbn in *. lia. }
  rewrite Hd. split; [|done]. destruct Hone as (Hw & Hp & Hr). split; [exact Hw|]. split; [by apply (paid_less _ _ 1)|exact Hr].
Qed.
Lemma room_quota g w r w' :
  room g 0 (db w) -> takeDailyQuota u quotaInvitationSent invitationsPerInviterPerDay w = (r, w') ->
  room g 0 (db w') /\ (r = Ok true -> room g 1 (db w')).
Proof.
  intros Hroom Hr. unfold takeDailyQuota in Hr. rewrite M_bind_unfold in Hr. pose proof (room_stale g w Hroom) as Hroom1.
  destruct (DeleteStaleDailyQuotas w) as [[[]|e] w1]; [|by injection Hr as <- <-].
  rewrite M_bind_unfold in Hr. unfold attempt in Hr. destruct (TakeDailyQuota _ _ _ w1) as [r2 w2] eqn:Htake.
  apply (room_take g) in Htake as [Hz Hone]; [|done].
  destruct r2 as [n|[| |]]; unfold mret, M_ret, throw in Hr; injection Hr as <- <-; (split; [done|]); [eauto|done..].
Qed.

Lemma create_limits g invitee name by_ w :
  room g 1 (db w) -> bounded (db (sql_CreateGroupInvitation g invitee name by_ invitationLifetimeDays w).2).
Proof.
  intros Hroom. destruct (sql_CreateGroupInvitation _ _ _ _ _ w) as [r w'] eqn:Hr. cbn.
  apply stmt_cases in Hr as [(a & d' & Hf & _ & ->)|(e & _ & ->)]; [|by eapply room_bounded; [|exact Hroom]]. destruct (negb _); [done|].
  case_match; [done|]. destruct (invitations (db w) !! next_id (db w)) eqn:Hfree; [done|].
  injection Hf as _ <-. destruct Hroom as ([Hc Hq] & (Hnow & Hall & Hpaid) & Hr).
  set (i := mkInvitation _ _ _ _ _ _ _). set (d' := fresh _). split; [split; [|exact Hq]|split; [exact Hnow|split; [exact Hall|]]].
  - intros g'. assert (open_count d' g' <= open_count (db w) g' + (if g' =? g then 1 else 0)) as Hle.
    { rewrite !open_count_size. rewrite <- !size_dom.
      assert (dom (open_map d' g') ⊆ dom (open_map (db w) g') ∪ (if g' =? g then {[next_id (db w)]} else ∅)) as Hsub.
      { intros k Hk. apply elem_of_dom in Hk as [x Hx]. apply open_map_some in Hx as (Hx & Hg & He). cbn in Hx, He.
        apply lookup_insert_Some in Hx as [[<- <-]|[_ Hx]]; apply elem_of_union.
        - right. cbn in Hg. subst g'. rewrite Z.eqb_refl. set_solver.
        - left. apply elem_of_dom. exists x. by apply open_map_some. }
      apply subseteq_size in Hsub. rewrite size_union_alt in Hsub.
      assert (size ((if Z.eqb g' g then {[next_id (db w)]} else ∅) ∖ dom (open_map (db w) g') : gset Z) <= if Z.eqb g' g then 1 else 0)%nat as Hone.
      { destruct (g' =? g).
        - rewrite <- (size_singleton (C:=gset Z) (next_id (db w))). apply subseteq_size. set_solver.
        - rewrite <- (size_empty (C:=gset Z)). apply subseteq_size. set_solver. }
      destruct (g' =? g); lia. }
    specialize (Hc g'). destruct (g' =? g) eqn:Hg; bool_hyps; [subst g'|]; lia.
  - assert (size (new_invitations d0 d') <= S (size (new_invitations d0 (db w))))%nat as Hle; [|change (spent d' u (today d0)) with (spent (db w) u (today d0)); lia].
    assert (new_invitations d0 d' ⊆ {[next_id (db w)]} ∪ new_invitations d0 (db w)) as Hsub.
    { unfold new_invitations, d'. cbn [invitations fresh set_invitations]. rewrite dom_insert_L. set_solver. }
    apply subseteq_size in Hsub. etrans; [exact Hsub|]. rewrite size_union_alt, size_singleton.
    apply le_n_S, subseteq_size. set_solver.
Qed.

(** From room for one more, sending one is within the limits. *)
Lemma limits_send g group handle invitee : keeps Limits (send_invitation u g group handle invitee).
Proof.
  unfold send_invitation. intros w [Hw Hp]. rewrite M_bind_unfold.
  destruct (or_refuse (CountOpenGroupInvitations g) _ w) as [[n|e] w1] eqn:Hn.
  2: { cbn. apply (reads_run _ _ _ _ (reads_or_refuse _ _ (reads_query _ _))) in Hn. by rewrite Hn. }
  apply or_refuse_query in Hn as [Hd Hn]. injection Hn as Hn. rewrite M_bind_unfold.
  destruct (refuse_if _ _ w1) as [[[]|e] w2] eqn:Hfull; [|cbn; apply (reads_run _ _ _ _ (reads_refuse_if _ _)) in Hfull; by rewrite Hfull, Hd].
  apply refuse_if_inv in Hfull as [Hfull ->]. bool_hyps. assert (room g 0 (db w1)) as Hroom.
  { rewrite Hd. split; [exact Hw|]. split; [exact Hp|]. unfold open_count. rewrite <- Hn in Hfull. exact Hfull. }
  clear Hw Hp Hd Hn. rewrite M_bind_unfold. unfold or_refuse at 1, attempt at 1. rewrite M_bind_unfold.
  destruct (takeDailyQuota _ _ _ w1) as [[allowed|e] w2] eqn:Htake; apply (room_quota g) in Htake as [Hroom0 Hroom1]; try done;
    [|by eapply room_bounded; [|exact Hroom0]].
  unfold mret at 1, M_ret. rewrite M_bind_unfold.
  destruct allowed; [|by eapply room_bounded; [|exact Hroom0]]. specialize (Hroom1 eq_refl). cbn [negb refuse_if].
  assert (leads (room g 1) bounded (
    _ ← or_refuse (DeleteExpiredGroupInvitationByUsername g handle) (fun _ => writeError 500);
    created ← row_if_any (sql_CreateGroupInvitation g invitee handle u invitationLifetimeDays);
    match created with
    | None => mret (invited, None)
    | Some (id, row) => mret (invited, Some (mkNotice id (InviteeID row) u (CollectiveStore.Name group)))
    end)) as Hl; [|exact (Hl w2 Hroom1)].
  apply leads_bind; [intros d; by apply room_bounded|apply keeps_or_refuse, room_expired|]. intros _ w3 Hw3.
  rewrite M_bind_unfold. unfold row_if_any, attempt. rewrite M_bind_unfold.
  pose proof (create_limits g invitee handle u w3 Hw3) as Hc.
  destruct (sql_CreateGroupInvitation _ _ _ _ _ w3) as [[[k row]|[| |]] w4]; exact Hc.
Qed.

Lemma limits_tx {A} (m : M World TxError A) : keeps Limits m -> keeps Limits (inCollectiveAuthorityTx m).
Proof. apply (keeps_authority_tx bounded). Qed.

Ltac limits_walk :=
  repeat first
    [ progress intros
    | lazymatch goal with
      | |- keeps _ (DeleteInvitation _) => apply limits_delete
      | |- keeps _ (sql_RevokeGroupInvitation _ _) => apply limits_revoke
      | |- keeps _ (sql_DeclineMyInvitation _ _) => apply limits_decline
      | |- keeps _ (RelinkGroupInvitation _ _) => apply limits_relink
      | |- keeps _ (sql_DeleteGroup _) => apply limits_drop
      | |- keeps _ (send_invitation _ _ _ _ _) => apply limits_send
      end
    | solve [eauto with keeps]
    | apply (keeps_mutate _ bounded)
    | apply (keeps_mutateCollective _ bounded)
    | apply keeps_bind
    | apply keeps_attempt
    | apply keeps_or_refuse
    | apply keeps_in_x
    | apply limits_tx
    | solve [apply (reads_keeps bounded); reads_walk]
    | solve [apply keeps_vault; intros ?; fixes_stmt_tac]
    | case_match ].

Lemma perform_limits gh op : keeps Limits (perform gh u op).
Proof.
  destruct op; cbn [perform].
  - apply keeps_vault. intros x. by apply fixed_share; [intros d d' ->|].
  - apply keeps_vault. intros x. by apply fixed_unshare; [intros d d' ->|].
  - apply keeps_vault. intros x. by apply fixed_batch; [intros d d' ->|].
  - apply keeps_vault. intros x. unfold ReviewShare, reviewShareLocked, require_owner. fixes_walk.
  - apply keeps_vault. intros x. unfold BatchReviewShares, batchReviewSharesLocked, require_owner. fixes_walk.
  - apply keeps_vault. intros x. unfold RemoveGroupTranscript, removeGroupTranscriptLocked, require_owner. fixes_walk.
  - apply keeps_vault. intros x. unfold JoinGroup, joinGroupLocked. fixes_walk.
  - apply keeps_vault. intros x. unfold PromoteMember, promoteMemberLocked, require_owner. fixes_walk.
  - apply keeps_vault. intros x. unfold RemoveGroupMember, removeGroupMemberLocked, require_owner. fixes_walk.
  - apply keeps_vault. intros x. unfold CreateGroup, new_group, linked_org. fixes_walk.
  - apply keeps_vault. intros x. unfold UpdateGroup, updateGroupLocked, require_owner, linked_org. fixes_walk.
  - unfold DeleteGroup, deleteGroupLocked, require_owner. limits_walk.
  - unfold CreateGroupInvitation, createGroupInvitationLocked, require_owner, row_if_any, GetGroupMemberOf. limits_walk.
  - unfold RevokeGroupInvitation, revokeGroupInvitationLocked, require_owner. limits_walk.
  - unfold AcceptMyInvitation, accept_in_tx. limits_walk.
  - unfold DeclineMyInvitation. limits_walk.
Qed.
End limits.

Lemma limits_run `{Env, UnicodeTables} gh u op w :
  within_limits (db w) ->
  within_limits (db (responds gh u op w).2) /\ paid (db w) u 0 (db (responds gh u op w).2).
Proof.
  intros Hw. unfold responds. pose proof (perform_limits (db w) u gh op w (conj Hw (paid_refl _ u))) as Hl.
  by destruct (perform gh u op w).
Qed.

Lemma limits_later elapsed w : within_limits (db w) -> within_limits (db (later elapsed w)).
Proof.
  intros [Hc Hq]. split; [|exact Hq]. intros g. etrans; [|apply (Hc g)]. apply open_count_mono.
  intros k x Hx. exists x. apply open_map_some in Hx as (Hk & Hg & Hn). apply open_map_some. cbn in *. split_and!; [done..|lia].
Qed.

(** How many invitations there are more on account of person [u]'s requests of one
    UTC day, whatever became of them later. *)
Fixpoint sent `{Env, UnicodeTables} (gh : bool) (requests : list (Z * (Z * Operation))) (u day : Z) (w : World) : Z :=
  match requests with
  | [] => 0
  | (elapsed, (v, op)) :: requests =>
    let w0 := later elapsed w in
    let w1 := (responds gh v op w0).2 in
    (if (v =? u) && (today (db w0) =? day) then Z.of_nat (size (new_invitations (db w0) (db w1))) else 0)
      + sent gh requests u day w1
  end.

(** What is sent today comes on top of the counter, and nothing is sent on a day
    that has passed. *)
Lemma sent_within `{Env, UnicodeTables} gh requests u day : forall w, within_limits (db w) ->
  (today (db w) <= day -> spent (db w) u day + sent gh requests u day w <= invitationsPerInviterPerDay) /\
  (day < today (db w) -> sent gh requests u day w = 0).
Proof.
  induction requests as [|[elapsed [v op]] requests IH]; intros w Hw; cbn [sent].
  { split; [|done]. intros _. rewrite Z.add_0_r. by apply spent_within. }
  set (w0 := later elapsed w). assert (within_limits (db w0)) as Hw0 by (by apply limits_later).
  destruct (limits_run gh v op w0 Hw0) as [Hw1 (Hnow & Hall & Hpaid)].
  destruct (IH _ Hw1) as [Htoday Hpast].
  assert (today (db (responds gh v op w0).2) = today (db w0)) as Hday by (unfold today; by rewrite Hnow).
  assert (today (db w) <= today (db w0)) as Hlater.
  { unfold today, w0. cbn. apply Z.div_le_mono; [done|]. lia. }
  rewrite Hday in *. set (w1 := (responds gh v op w0).2) in *. split.
  - intros Hle. destruct (decide (day < today (db w0))) as [Hlt|Hge].
    + rewrite Hpast by done. replace (today (db w0) =? day) with false by (symmetry; apply Z.eqb_neq; lia).
      rewrite andb_false_r. pose proof (spent_within (db w) u day Hw). lia.
    + specialize (Htoday ltac:(lia)). change (spent (db w) u day) with (spent (db w0) u day).
      destruct (v =? u) eqn:Hv; [destruct (today (db w0) =? day) eqn:Hd|]; bool_hyps; cbn [andb].
      * subst. lia.
      * specialize (Hall u day ltac:(lia)). lia.
      * specialize (Hall u day ltac:(lia)). lia.
  - intros Hlt. rewrite Hpast by lia. replace (today (db w0) =? day) with false by (symmetry; apply Z.eqb_neq; lia).
    by rewrite andb_false_r.
Qed.

(** C40: through any sequence of requests, by any people, however far apart and
    whatever the database does, no collective comes to have more than fifty open
    invitations, and no person's requests of one day make more than twenty
    invitations, those revoked, accepted or expired since among them. *)
Theorem invitations_stay_within_limits `{Env, UnicodeTables} (gh : bool) (requests : list (Z * (Z * Operation))) (w : World) :
  within_limits (db w) ->
  within_limits (db (serve_in_time gh requests w)) /\
  forall u day, sent gh requests u day w <= invitationsPerInviterPerDay.
Proof.
  intros Hw. split.
  - revert w Hw. induction requests as [|[elapsed [u op]] requests IH]; intros w Hw; [done|]. cbn [serve_in_time].
    by apply IH, limits_run, limits_later.
  - intros u day. destruct (sent_within gh requests u day w Hw) as [Htoday Hpast].
    destruct (decide (day < today (db w))) as [Hlt|Hge]; [by rewrite Hpast|].
    specialize (Htoday ltac:(lia)). pose proof (spent_within (db w) u day Hw). lia.
Qed.

Lemma village_limits : within_limits village.
Proof. split; [done|]. intros k n Hk. cbn in Hk. by rewrite lookup_empty in Hk. Qed.

(** Twenty-one invitations in a day, each revoked at once: the last is refused, and
    taken on the next day. *)
Definition invite_and_revoke (n : nat) : list (Z * (Z * Operation)) :=
  [(1, (10, OpInvite (Some 1) (Some (String (ascii_of_nat (97 + n)) "cy"))));
   (1, (10, OpRevokeInvitation (Some 1) (Some (100 + Z.of_nat n))))].
Definition invitation_spree : list (Z * (Z * Operation)) :=
  concat (invite_and_revoke <$> List.seq 0 21) ++ [(24 * hour, (10, OpInvite (Some 1) (Some "dee")))].
Example spree_is_cut : @sent settled ascii_tables true invitation_spree 10 0 at_village = 20 /\
  @sent settled ascii_tables true invitation_spree 10 1 at_village = 1.
Proof. by vm_compute. Qed.

Lemma invitations_stay_within_limits_witness :
  within_limits (db (after invitation_spree at_village)) /\
  @sent settled ascii_tables true invitation_spree 10 0 at_village <= 20.
Proof.
  destruct (@invitations_stay_within_limits settled ascii_tables true invitation_spree at_village village_limits) as [Hl Hs].
  split; [exact Hl|exact (Hs 10 0)].
Defined.
End InvitationLimits.
