(* ===== verification/PublishStore.v ===== *)
(** * The store behind publishing

    The rows of transcripts with the columns that name their stored objects, the
    ledger of associations, commits, integrity flags and stored digests, and the
    SQL statements that publishing, rewriting, reading and deleting a transcript
    run over them ([transcripts.sql], [transcripts_pull.sql],
    [publish_evidence.sql], [transcript_associations.sql],
    [transcript_commits.sql], [integrity.sql]), beside the bucket of [BlobStore].

    Others act on both before every transaction, every statement outside one and
    every object operation; a transaction runs on its own. Each snapshot of the
    two is kept, so that a theorem can speak of what anyone could have seen and of
    what a crash would leave. *)
From S2P Require Import Prelude GoText Regex Digest Governance BlobStore.

Open Scope string_scope.
Open Scope list_scope.
Open Scope Z_scope.

Module PublishStore.
Import Governance BlobStore.

(** ** Tables *)

(** The columns a request's mapper fills and nothing here reads, and the four an
    update leaves as they are when the request has no evidence for them. *)
Record MappedColumns : Type := mkColumns {
  Plain : string;
  InputSubmissionCount : option Z;
  RootSessionID : option string;
  SessionPurpose : option string;
  SessionRelationships : option string
}.

Record Row : Type := mkRow {
  OwnerID : Z;
  LocalID : string;
  Title : option string;
  Description : option string;
  Visibility : string;
  LicenseID : option string;
  GitRemote : string;
  Columns : MappedColumns;
  BlobKey : string;
  BlobSizeBytes : option Z;
  ContentHash : option string;
  WrappedDataKey : string;
  EncryptionAlgorithm : string;
  KeyVersion : Z;
  PublishMetadataKey : option string;
  PublishMetadataHash : option string;
  PublishMetadataSize : option Z;
  AcceptedFingerprint : option string
}.

Record Commit : Type := mkCommit { Sha : string; Details : string }.
#[export] Instance commit_eq_dec : EqDecision Commit.
Proof. solve_decision. Defined.

Record StoredAttachment : Type := mkStored {
  Author : Z;
  Bound : list string;
  StoredDigest : option Digest.PromptDigest
}.

(** [associations]: owner and association to transcript and observed commit.
    [inherited] and [checked_flags]: when a transcript was flagged, by the record
    of a deleted copy or by the checker. *)
Record Db : Type := mkDb {
  rows : gmap string Row;
  associations : gmap (Z * string) (string * string);
  commits : gmap (string * string) string;
  inherited : gmap string Z;
  checked_flags : gmap string Z;
  tombstones : gmap (Z * string) Z;
  rewrites : gmap (string * string) (string * bool);
  attached : gmap Z StoredAttachment
}.
Definition set_rows x (d : Db) : Db := mkDb x (associations d) (commits d) (inherited d) (checked_flags d)
  (tombstones d) (rewrites d) (attached d).
Definition set_associations x (d : Db) : Db := mkDb (rows d) x (commits d) (inherited d) (checked_flags d)
  (tombstones d) (rewrites d) (attached d).
Definition set_commits x (d : Db) : Db := mkDb (rows d) (associations d) x (inherited d) (checked_flags d)
  (tombstones d) (rewrites d) (attached d).
Definition set_flags x y (d : Db) : Db := mkDb (rows d) (associations d) (commits d) x (checked_flags d)
  y (rewrites d) (attached d).
Definition set_rewrites x (d : Db) : Db := mkDb (rows d) (associations d) (commits d) (inherited d) (checked_flags d)
  (tombstones d) x (attached d).
Definition set_attached x (d : Db) : Db := mkDb (rows d) (associations d) (commits d) (inherited d) (checked_flags d)
  (tombstones d) (rewrites d) x.

(** The columns of a stored generation. *)
Definition with_body (key : string) (d : BlobDescriptor) (i : ContentIdentity) (r : Row) : Row :=
  mkRow (OwnerID r) (LocalID r) (Title r) (Description r) (Visibility r) (LicenseID r) (GitRemote r) (Columns r)
    key (Some (plaintextSize i)) (Some (hash i)) (wrappedDEK d) (algorithm d) (keyVersion d)
    (PublishMetadataKey r) (PublishMetadataHash r) (PublishMetadataSize r) (AcceptedFingerprint r).
Definition with_metadata_object (key hash : option string) (size : option Z) (r : Row) : Row :=
  mkRow (OwnerID r) (LocalID r) (Title r) (Description r) (Visibility r) (LicenseID r) (GitRemote r) (Columns r)
    (BlobKey r) (BlobSizeBytes r) (ContentHash r) (WrappedDataKey r) (EncryptionAlgorithm r) (KeyVersion r)
    key hash size (AcceptedFingerprint r).
Definition with_fingerprint (f : option string) (r : Row) : Row :=
  mkRow (OwnerID r) (LocalID r) (Title r) (Description r) (Visibility r) (LicenseID r) (GitRemote r) (Columns r)
    (BlobKey r) (BlobSizeBytes r) (ContentHash r) (WrappedDataKey r) (EncryptionAlgorithm r) (KeyVersion r)
    (PublishMetadataKey r) (PublishMetadataHash r) (PublishMetadataSize r) f.
Definition with_hash (h : option string) (r : Row) : Row :=
  mkRow (OwnerID r) (LocalID r) (Title r) (Description r) (Visibility r) (LicenseID r) (GitRemote r) (Columns r)
    (BlobKey r) (BlobSizeBytes r) h (WrappedDataKey r) (EncryptionAlgorithm r) (KeyVersion r)
    (PublishMetadataKey r) (PublishMetadataHash r) (PublishMetadataSize r) (AcceptedFingerprint r).
Definition with_governance (title description : option string) (visibility : string) (license : option string)
    (r : Row) : Row :=
  mkRow (OwnerID r) (LocalID r) title description visibility license (GitRemote r) (Columns r)
    (BlobKey r) (BlobSizeBytes r) (ContentHash r) (WrappedDataKey r) (EncryptionAlgorithm r) (KeyVersion r)
    (PublishMetadataKey r) (PublishMetadataHash r) (PublishMetadataSize r) (AcceptedFingerprint r).

(** ** Runs *)

(** [removed]: the rows that were there before the transaction and not after. *)
Inductive Event : Type :=
| EvLocks
| EvProbe (id : string)
| EvRead (id : string) (row : Row)
| EvLookup
| EvTx (name : string) (removed : gmap string Row)
| EvObject
| EvReconcile (key : string)
| EvNudge
| EvRefresh (id : string)
| EvComplete (owner : Z) (repo : string).

Inductive TransactionCompletion : Type :=
| TransactionCommitted | TransactionKnownRollback | TransactionCommitAmbiguous.

(** How PostgreSQL answers a commit; one it does not answer may have been
    carried out. *)
Inductive Commitment : Type := Confirmed | RolledBack | Unanswered (carried_out : bool).

(** [TxBinding]: [ErrAssociationBinding]. [TxRaceLost]: [errRewriteRaceLost]. *)
Inductive TxError : Type := TxNoRows | TxFailed | TxBinding | TxRaceLost.

Class Env : Type := {
  others : list Event -> Db * Objects -> Db * Objects;
  answered : list Event -> bool;
  begins : list Event -> bool;
  statement_runs : list Event -> list string -> bool;
  commitment : list Event -> Commitment;
  new_uuid : list Event -> string
}.

Record World : Type := mkWorld {
  db : Db;
  blob : BlobWorld;
  log : list Event;
  past : list (Db * Objects)
}.
Record TxState : Type := mkTx { tdb : Db; outer : list Event; ran : list string }.
Notation Tx := (M TxState TxError).

Section runs.
Context `{Env}.

Definition meanwhile (w : World) : World :=
  let s := others (log w) (db w, objects (blob w)) in
  mkWorld s.1 (mkBlobWorld s.2 (blog (blob w))) (log w) (past w ++ [s]).
(** What this process did, and what there is now. *)
Definition after (e : Event) (d : Db) (b : BlobWorld) (w : World) : World :=
  mkWorld d b (log w ++ [e]) (past w ++ [(d, objects b)]).
Definition note {E} (e : Event) : M World E unit := fun w => (Ok tt, mkWorld (db w) (blob w) (log w ++ [e]) (past w)).

(** A statement outside a transaction; [e] may depend on what it answers. *)
Definition ask {E A} (e : A -> Event) (f : Db -> result TxError A) : M World E (result TxError A) := fun w =>
  let w := meanwhile w in
  match (if answered (log w) then f (db w) else Err TxFailed) with
  | Ok a => (Ok (Ok a), after (e a) (db w) (blob w) w)
  | Err x => (Ok (Err x), after EvLookup (db w) (blob w) w)
  end.

(** An operation of the encrypted store. *)
Definition stored {E A} (m : M BlobWorld BlobError A) : M World E (result BlobError A) := fun w =>
  let w := meanwhile w in
  let '(r, b) := m (blob w) in (Ok r, after EvObject (db w) b w).

Definition stmt {A} (name : string) (f : Db -> result TxError (A * Db)) : Tx A := fun s =>
  let s' d := mkTx d (outer s) (ran s ++ [name]) in
  if statement_runs (outer s) (ran s) then
    match f (tdb s) with Ok (a, d) => (Ok a, s' d) | Err e => (Err e, s' (tdb s)) end
  else (Err TxFailed, s' (tdb s)).
Definition select {A} (name : string) (f : Db -> result TxError A) : Tx A :=
  stmt name (fun d => match f d with Ok a => Ok (a, d) | Err e => Err e end).

(** [inEncryptedTxWithActor]: begin, the actor and writer markers, the body,
    commit; how it completed, and what the body left in the variables it sets
    when it came to its end, whatever became of the commit. *)
Definition transact {E A} (name : string) (m : Tx A) :
    M World E (TransactionCompletion * result TxError A * option A) := fun w =>
  let w := meanwhile w in
  let end_ c r x d := (Ok (c, r, x), after (EvTx name (rows (db w) ∖ rows d)) d (blob w) w) in
  if negb (begins (log w)) then end_ TransactionKnownRollback (Err TxFailed) None (db w)
  else match (_ ← stmt "set_config" (fun d => Ok (tt, d)); m) (mkTx (db w) (log w) []) with
    | (Err e, _) => end_ TransactionKnownRollback (Err e) None (db w)
    | (Ok a, s) => match commitment (log w) with
      | Confirmed => end_ TransactionCommitted (Ok a) (Some a) (tdb s)
      | RolledBack => end_ TransactionKnownRollback (Err TxFailed) (Some a) (db w)
      | Unanswered carried_out =>
        end_ TransactionCommitAmbiguous (Err TxFailed) (Some a) (if carried_out then tdb s else db w)
      end
    end.
Definition inEncryptedTx {E A} (name : string) (m : Tx A) : M World E (TransactionCompletion * result TxError A) :=
  '(c, r, _) ← transact name m; mret (c, r).
(** [inTxAsOnConn]: the same, without how it completed. *)
Definition inTxAs {E A} (name : string) (m : Tx A) : M World E (result TxError A * option A) :=
  '(_, r, x) ← transact name m; mret (r, x).

(** ** Statements *)
Definition one {A} (o : option A) : result TxError A := match o with Some a => Ok a | None => Err TxNoRows end.

Definition source_row (owner : Z) (localID : string) (d : Db) : option (string * Row) :=
  head (List.filter (fun r => (OwnerID r.2 =? owner) && String.eqb (LocalID r.2) localID) (map_to_list (rows d))).
Definition GetTranscriptIDByOwnerAndLocalID {E} (owner : Z) (localID : string) : M World E (result TxError string) :=
  ask EvProbe (fun d => one (fst <$> source_row owner localID d)).
Definition GetTranscriptByID {E} (id : string) : M World E (result TxError Row) :=
  ask (EvRead id) (fun d => one (rows d !! id)).

Definition GetTranscriptGovernanceForUpdate (id : string) : Tx Row :=
  select "GetTranscriptGovernanceForUpdate" (fun d => one (rows d !! id)).
Definition UpdateTranscriptMetadata (id : string) (title description : option string) (visibility : string)
    (license : option string) : Tx Row :=
  stmt "UpdateTranscriptMetadata" (fun d =>
    r ← one (rows d !! id);
    let r := with_governance title description visibility license r in Ok (r, set_rows (<[id := r]> (rows d)) d)).

(** [COALESCE($n, column)] *)
Definition coalesce {A} (new old : option A) : option A := match new with Some _ => new | None => old end.
Definition merged_columns (new old : MappedColumns) : MappedColumns :=
  mkColumns (Plain new) (coalesce (InputSubmissionCount new) (InputSubmissionCount old))
    (coalesce (RootSessionID new) (RootSessionID old)) (coalesce (SessionPurpose new) (SessionPurpose old))
    (coalesce (SessionRelationships new) (SessionRelationships old)).
(** [params] holds what is set, the key of the row included; the metadata
    object and the fingerprint are not of this statement. *)
Definition republished (params old : Row) : Row :=
  mkRow (OwnerID old) (LocalID old) (Title params) (Description params) (Visibility params) (LicenseID params)
    (GitRemote params) (merged_columns (Columns params) (Columns old))
    (BlobKey params) (BlobSizeBytes params) (ContentHash params) (WrappedDataKey params) (EncryptionAlgorithm params)
    (KeyVersion params) (PublishMetadataKey old) (PublishMetadataHash old) (PublishMetadataSize old)
    (AcceptedFingerprint old).
(** [^transcripts/[0-9a-f-]{36}\.bin$] *)
Definition metadata_key_shape : regex := foldr RSeq REps
  [rstr "transcripts/"; rrep (RClass (fun b => cls_hex b || (b =? 45))) 36; rstr ".bin"].
(** The table's CHECKs on the columns of a stored generation. *)
Definition metadata_allowed (r : Row) : bool :=
  match PublishMetadataKey r, PublishMetadataHash r, PublishMetadataSize r with
  | None, None, None => true
  | Some k, Some h, Some n =>
    match_full metadata_key_shape k && negb (String.eqb k (BlobKey r)) &&
    match_full canonicalContentHash h && (0 <=? n)
  | _, _, _ => false
  end.
Definition row_allowed (r : Row) : bool :=
  negb (String.eqb (WrappedDataKey r) "") && String.eqb (EncryptionAlgorithm r) EncryptionAES256GCMRandomNonceV1 &&
  (0 <? KeyVersion r) && metadata_allowed r.
Definition UpdateTranscriptByOwnerAndLocalID (params : Row) : Tx (string * Row) :=
  stmt "UpdateTranscriptByOwnerAndLocalID" (fun d =>
    '(id, old) ← one (source_row (OwnerID params) (LocalID params) d);
    let r := republished params old in
    if row_allowed r then Ok ((id, r), set_rows (<[id := r]> (rows d)) d) else Err TxFailed).
(** The row as it is inserted. *)
Definition created (params : Row) : Row :=
  let c := Columns params in
  mkRow (OwnerID params) (LocalID params) (Title params) (Description params) (Visibility params) (LicenseID params)
    (GitRemote params) (mkColumns (Plain c) (InputSubmissionCount c) (RootSessionID c) (SessionPurpose c)
      (coalesce (SessionRelationships c) (Some "[]")))
    (BlobKey params) (BlobSizeBytes params) (ContentHash params) (WrappedDataKey params)
    (EncryptionAlgorithm params) (KeyVersion params) None None None None.
(** [UNIQUE (owner_id, local_id)] and the primary key. *)
Definition CreateTranscript (id : string) (params : Row) : Tx (string * Row) :=
  stmt "CreateTranscript" (fun d =>
    let r := created params in
    if is_some_b (rows d !! id) || is_some_b (source_row (OwnerID params) (LocalID params) d) || negb (row_allowed r)
    then Err TxFailed else Ok ((id, r), set_rows (<[id := r]> (rows d)) d)).

Definition update_row_of (id : string) (f : Row -> Row) (d : Db) : result TxError (unit * Db) :=
  match rows d !! id with
  | Some r => if row_allowed (f r) then Ok (tt, set_rows (<[id := f r]> (rows d)) d) else Err TxFailed
  | None => Ok (tt, d)
  end.
Definition SetTranscriptPublishMetadataObject (id : string) (key hash : option string) (size : option Z) : Tx unit :=
  stmt "SetTranscriptPublishMetadataObject" (update_row_of id (with_metadata_object key hash size)).
Definition SetAcceptedRequestOperationFingerprint (id : string) (f : option string) : Tx unit :=
  stmt "SetAcceptedRequestOperationFingerprint" (update_row_of id (with_fingerprint f)).
Definition SetTranscriptContentHash (id : string) (h : option string) : Tx unit :=
  stmt "SetTranscriptContentHash" (update_row_of id (with_hash h)).

Definition row_holds (d : BlobDescriptor) (r : Row) : bool :=
  String.eqb (BlobKey r) (objectKey d) && String.eqb (WrappedDataKey r) (wrappedDEK d) &&
  String.eqb (EncryptionAlgorithm r) (algorithm d) && (KeyVersion r =? keyVersion d).
Definition CompareAndSwapTranscriptBlob (id : string) (expected next : BlobDescriptor) (i : ContentIdentity) : Tx Row :=
  stmt "CompareAndSwapTranscriptBlob" (fun d =>
    old ← one (rows d !! id);
    let r := with_body (objectKey next) next i old in
    if negb (row_holds expected old) then Err TxNoRows
    else if row_allowed r then Ok (r, set_rows (<[id := r]> (rows d)) d) else Err TxFailed).
Definition ReplaceTranscriptPublishMetadataObject (id : string) (key hash : option string) (size : option Z)
    (expected : option string) : Tx Z :=
  stmt "ReplaceTranscriptPublishMetadataObject" (fun d =>
    match rows d !! id with
    | Some r =>
      if negb (bool_decide (PublishMetadataKey r = expected)) then Ok (0, d)
      else '(_, d) ← update_row_of id (with_metadata_object key hash size) d; Ok (1, d)
    | None => Ok (0, d)
    end).
Definition RecordTranscriptContentRewrite (id replaced installed : string) (legacy : bool) : Tx unit :=
  stmt "RecordTranscriptContentRewrite" (fun d =>
    if is_some_b (rewrites d !! (id, installed)) then Ok (tt, d)
    else if is_some_b (rows d !! id) then Ok (tt, set_rewrites (<[(id, installed) := (replaced, legacy)]> (rewrites d)) d)
    else Err TxFailed).

(** ** Associations and commits *)
Definition association_of (p : (Z * string) * (string * string)) : string * string := (p.1.2, p.2.2).
Definition ListTranscriptAssociationsByOwnerAndIDs (owner : Z) (ids : list string) : Tx (list (string * (string * string))) :=
  select "ListTranscriptAssociationsByOwnerAndIDs" (fun d =>
    Ok (omap (fun p => if (p.1.1 =? owner) && bool_decide (p.1.2 ∈ ids) then Some (p.1.2, p.2) else None)
      (map_to_list (associations d)))).
Definition ListTranscriptAssociationsByOwnerTranscriptAndObservedCommitHashes (owner : Z) (id : string) (hashes : list string) :
    Tx (list (string * string)) :=
  select "ListTranscriptAssociationsByOwnerTranscriptAndObservedCommitHashes" (fun d =>
    Ok (omap (fun p => if (p.1.1 =? owner) && String.eqb p.2.1 id && bool_decide (p.2.2 ∈ hashes)
      then Some (association_of p) else None) (map_to_list (associations d)))).
(** [ORDER BY association_id, observed_commit_sha] *)
Definition listed_before (a b : string * string) : bool :=
  String.ltb a.1 b.1 || (String.eqb a.1 b.1 && String.ltb a.2 b.2).
Definition associations_of (id : string) (d : Db) : list (string * string) :=
  sort_stable listed_before (omap (fun p => if String.eqb p.2.1 id then Some (association_of p) else None)
    (map_to_list (associations d))).
Definition ListTranscriptAssociationsByTranscript (id : string) : Tx (list (string * string)) :=
  select "ListTranscriptAssociationsByTranscript" (fun d => Ok (associations_of id d)).

(** One row of the insert: the primary key, the relationship key, the foreign
    key. *)
Definition insert_association (owner : Z) (id : string) (a : string * string)
    (m : gmap (Z * string) (string * string)) : result TxError (gmap (Z * string) (string * string)) :=
  if is_some_b (m !! (owner, a.1)) ||
     existsb (fun p => (p.1.1 =? owner) && bool_decide (p.2 = (id, a.2))) (map_to_list m)
  then Err TxFailed else Ok (<[(owner, a.1) := (id, a.2)]> m).
Fixpoint insert_associations (owner : Z) (id : string) (l : list (string * string))
    (m : gmap (Z * string) (string * string)) : result TxError (gmap (Z * string) (string * string)) :=
  match l with
  | [] => Ok m
  | a :: l => m ← insert_association owner id a m; insert_associations owner id l m
  end.
Definition InsertTranscriptAssociations (owner : Z) (id : string) (l : list (string * string)) : Tx unit :=
  stmt "InsertTranscriptAssociations" (fun d =>
    match rows d !! id with
    | Some r =>
      if OwnerID r =? owner
      then m ← insert_associations owner id l (associations d); Ok (tt, set_associations m d) else Err TxFailed
    | None => Err TxFailed
    end).

Definition of_transcript {A} (id : string) (p : (string * string) * A) : Prop := p.1.1 = id.
#[global] Instance of_transcript_dec {A} id p : Decision (@of_transcript A id p).
Proof. unfold of_transcript. apply _. Defined.
Definition DeleteTranscriptCommits (id : string) : Tx unit :=
  stmt "DeleteTranscriptCommits" (fun d => Ok (tt, set_commits (filter (fun p => ~ of_transcript id p) (commits d)) d)).
(** An upsert cannot touch one row twice. *)
Definition InsertTranscriptCommits (id : string) (l : list Commit) : Tx unit :=
  stmt "InsertTranscriptCommits" (fun d =>
    if negb (bool_decide (NoDup (Sha <$> l))) || negb (is_some_b (rows d !! id)) then Err TxFailed
    else Ok (tt, set_commits (list_to_map ((fun c => ((id, Sha c), Details c)) <$> l) ∪ commits d) d)).

(** ** Deletion and flags *)

(** The view [transcript_integrity_open_flags], and [min(flagged_at)] of it. *)
Definition earlier (a b : option Z) : option Z :=
  match a, b with Some x, Some y => Some (Z.min x y) | Some x, None => Some x | None, b => b end.
Definition open_flag (d : Db) (id : string) : option Z := earlier (inherited d !! id) (checked_flags d !! id).
Definition RecordIntegrityTombstone (id : string) : Tx unit :=
  stmt "RecordIntegrityTombstone" (fun d =>
    match rows d !! id, open_flag d id with
    | Some r, Some at_ =>
      let k := (OwnerID r, LocalID r) in
      Ok (tt, set_flags (inherited d)
        (<[k := match tombstones d !! k with Some t => Z.min t at_ | None => at_ end]> (tombstones d)) d)
    | _, _ => Ok (tt, d)
    end).
Definition InheritIntegrityTombstone (id : string) (owner : Z) (localID : string) : Tx unit :=
  stmt "InheritIntegrityTombstone" (fun d =>
    match tombstones d !! (owner, localID), inherited d !! id with
    | Some at_, None => Ok (tt, set_flags (<[id := at_]> (inherited d)) (tombstones d) d)
    | _, _ => Ok (tt, d)
    end).

Definition digest_names (id : string) (g : Digest.PromptDigest) : bool :=
  existsb (fun i => String.eqb (Digest.ItemTranscript i) id) (Digest.Items g).
Definition contains_transcript (owner : Z) (id : string) (a : StoredAttachment) : bool :=
  (Author a =? owner) &&
  (match StoredDigest a with Some g => digest_names id g | None => false end || bool_decide (id ∈ Bound a)).
Definition ListAttachmentsContainingTranscript (owner : Z) (id : string) : Tx (list (Z * StoredAttachment)) :=
  select "ListAttachmentsContainingTranscript" (fun d =>
    Ok (sort_stable (fun a b => a.1 <? b.1) (List.filter (fun a => contains_transcript owner id a.2) (map_to_list (attached d))))).
Definition SetPullRequestAttachmentDigest (id : Z) (g : Digest.PromptDigest) : Tx unit :=
  stmt "SetPullRequestAttachmentArtifacts" (fun d =>
    Ok (tt, match attached d !! id with
      | Some a => set_attached (<[id := mkStored (Author a) (Bound a) (Some g)]> (attached d)) d
      | None => d
      end)).

(** The foreign keys cascade. *)
Definition drop_transcript (id : string) (d : Db) : Db :=
  mkDb (delete id (rows d)) (filter (fun p => p.2.1 <> id) (associations d))
    (filter (fun p => ~ of_transcript id p) (commits d)) (delete id (inherited d)) (delete id (checked_flags d))
    (tombstones d) (filter (fun p => ~ of_transcript id p) (rewrites d))
    ((fun a => mkStored (Author a) (List.filter (fun t => negb (String.eqb t id)) (Bound a)) (StoredDigest a)) <$> attached d).
Definition DeleteTranscriptReturningDescriptor (id : string) : Tx Row :=
  stmt "DeleteTranscriptReturningDescriptor" (fun d => r ← one (rows d !! id); Ok (r, drop_transcript id d)).
End runs.

#[export] Instance publish_rows `{Env} : GovernanceRows TxState TxError Row := {|
  lock_row := GetTranscriptGovernanceForUpdate;
  update_row := UpdateTranscriptMetadata;
  row_title := Title;
  row_description := Description;
  row_visibility := Visibility;
  row_license := LicenseID
|}.
End PublishStore.
