(* ===== verification/Publish.v ===== *)
(** * Publishing, rewriting, reading and deleting a transcript

    What the handlers do once a request is decoded and validated: the locked
    section of a publish and what follows it, the rewrite a read makes of an old
    generation, the read itself, and deletion ([handler/transcripts.go],
    [transcript_persistence.go], [transcript_read.go], [lifecycle_decisions.go],
    [associations.go], [metadata_patch.go]). The contract's own checks, which are
    outside the repository, are the class [Schema]. *)
From S2P Require Import Prelude GoText RepoName Digest Governance BlobStore PublishStore.

Open Scope string_scope.
Open Scope list_scope.
Open Scope Z_scope.

Module Publish.
Import Governance BlobStore PublishStore.

(** What the code asks of [peasant-labs/schema], which is outside the repository:
    the content hash a request declares, identifiers, the receipt, the digest and
    the content boundary of a stored body. The last, [validateContentBoundary]
    ([raw_content.go]), only picks which documents the schema decodes; nothing here
    depends on what it accepts. *)
Class Schema : Type := {
  served_hash : string -> string;
  valid_association_id : string -> bool;
  content_boundary : string -> Row -> bool;
  receipt_valid : Row -> bool;
  digest_valid : Digest.PromptDigest -> bool
}.

(** ** Persisted columns ([transcript_persistence.go]) *)
Definition descriptorFromTranscript (r : Row) : option BlobDescriptor :=
  NewBlobDescriptor (BlobKey r) (WrappedDataKey r) (EncryptionAlgorithm r) (KeyVersion r).
(** [None]: the columns cannot be used. *)
Definition metadataObjectFromTranscript (r : Row) : option (option MetadataObject) :=
  match PublishMetadataKey r, PublishMetadataHash r, PublishMetadataSize r with
  | None, None, None => Some None
  | Some k, Some h, Some n => Some <$> NewMetadataObject k h n
  | _, _, _ => None
  end.
Definition identityFromTranscript (r : Row) : option LoadedContentIdentity :=
  NewLoadedContentIdentity (ContentHash r) (BlobSizeBytes r).
Definition metadataObjectParams (m : option MetadataObject) : option string * option string * option Z :=
  match m with
  | None => (None, None, None)
  | Some m => (Some (metadataKey m), Some (hash (metadataIdentity m)), Some (plaintextSize (metadataIdentity m)))
  end.

(** ** Decisions ([lifecycle_decisions.go]) *)
Inductive Lifecycle : Type := Create | Republish | Rewrite | DeleteRow.
Record objectCleanupDecision : Type := mkDecision {
  DeleteCandidate : bool; DeleteSuperseded : bool; DeleteTarget : bool; Reconcile : bool
}.
Definition cleanupDecision (operation : Lifecycle) (completion : TransactionCompletion) (installed : bool) :
    objectCleanupDecision :=
  match completion with
  | TransactionCommitAmbiguous => mkDecision false false false true
  | _ =>
    if (match completion with TransactionKnownRollback => true | _ => false end) || negb installed
    then mkDecision (match operation with DeleteRow => false | _ => true end) false false false
    else match operation with
      | Republish | Rewrite => mkDecision false true false false
      | DeleteRow => mkDecision false false true false
      | Create => mkDecision false false false false
      end
  end.

Record Response : Type := mkResponse { code : Z; audienceNote : option string; published : option (string * Row) }.
Definition writeError (status : Z) : Response := mkResponse status None None.

Section handlers.
Context `{Crypto, BlobEnv, KeyCustodian, Env, UnicodeTables, Schema}.

Notation Handler := (M World Response).

(** ** Cleanup ([transcript_persistence.go]) *)
Definition emitMetadataReconciliation {E} (m : option MetadataObject) : M World E unit :=
  match m with Some m => note (EvReconcile (metadataKey m)) | None => mret tt end.
Definition emitUncommittedWriteReconciliation {E} (e : BlobError) : M World E unit :=
  match e with ECleanup key => note (EvReconcile key) | _ => mret tt end.

(** Whether the object is still there. *)
Definition deleteForCleanup {E} (key : string) (remove : M BlobWorld BlobError unit) : M World E bool :=
  gone ← stored remove;
  match gone with Ok _ => mret false | Err _ => _ ← note (EvReconcile key); mret true end.
(** The key of the first object it could not delete. *)
Definition deleteGenerationForCleanup {E} (d : BlobDescriptor) (m : option MetadataObject) : M World E (option string) :=
  kept ← deleteForCleanup (objectKey d) (Delete d);
  kept_metadata ← match m with
    | Some m => deleteForCleanup (metadataKey m) (DeleteMetadata m)
    | None => mret false
    end;
  mret (if (kept : bool) then Some (objectKey d)
        else if (kept_metadata : bool) then metadataKey <$> m else None).

Definition setPublishMetadataObject (id : string) (m : option MetadataObject) : Tx unit :=
  let '(key, hash, size) := metadataObjectParams m in SetTranscriptPublishMetadataObject id key hash size.

(** ** Associations ([associations.go]) *)
Notation Association := (string * string)%type.

Definition named_once (l : list Association) : bool :=
  bool_decide (NoDup l.*1) && bool_decide (NoDup l.*2).
Fixpoint new_bindings (id : option string) (by_id : list (string * (string * string))) (by_commit : list (string * string))
    (l : list Association) : Tx (list Association) :=
  match l with
  | [] => mret []
  | (a, sha) :: l =>
    match List.find (fun r => String.eqb r.1 a) by_id with
    | Some (_, (bound, observed)) =>
      if bool_decide (Some bound = id) && String.eqb observed sha then new_bindings id by_id by_commit l
      else throw TxBinding
    | None =>
      if existsb (fun r => String.eqb r.2 sha) by_commit then throw TxBinding
      else rest ← new_bindings id by_id by_commit l; mret ((a, sha) :: rest)
    end
  end.
(** [id] is [None] for a transcript that is not there yet. *)
Definition validatePublishedAssociationBindings (owner : Z) (id : option string) (l : list Association) :
    Tx (list Association) :=
  if bool_decide (l = []) then mret []
  else if negb (named_once l) then throw TxBinding
  else
    by_id ← ListTranscriptAssociationsByOwnerAndIDs owner l.*1;
    by_commit ← match id with
      | Some id => ListTranscriptAssociationsByOwnerTranscriptAndObservedCommitHashes owner id l.*2
      | None => mret []
      end;
    new_bindings id by_id by_commit l.
Definition insertPublishedAssociationBindings (owner : Z) (id : string) (l : list Association) : Tx unit :=
  if bool_decide (l = []) then mret tt else InsertTranscriptAssociations owner id l.

(** ** What a publish stores ([transcripts.go]) *)
Record PublishRequest : Type := mkRequest {
  SessionID : string;
  Associations : list Association;
  Commits : list Commit;
  RTitle : option string;
  RDescription : option string;
  RLicense : option string;
  RGitRemote : string;
  RColumns : MappedColumns;
  Content : string;
  PublishMetadata : option string;
  Fingerprint : option string      (** of an authoritative request *)
}.
Definition authoritative (req : PublishRequest) : bool := is_some_b (Fingerprint req).

(** [dedupeCommitsBySHA]: the last of each. *)
Fixpoint dedupeCommitsBySHA (l : list Commit) : list Commit :=
  match l with
  | [] => []
  | c :: l => if bool_decide (Sha c ∈ Sha <$> l) then dedupeCommitsBySHA l else c :: dedupeCommitsBySHA l
  end.
Definition persistCommits (id : string) (l : list Commit) : Tx unit :=
  _ ← DeleteTranscriptCommits id;
  let records := dedupeCommitsBySHA l in
  if bool_decide (records = []) then mret tt else InsertTranscriptCommits id records.

Definition valid_associations (l : list Association) : option (list Association) :=
  if forallb (fun a => valid_association_id a.1) l then Some l else None.
Definition readPublishedAssociations (id : string) : Tx (list Association) :=
  l ← ListTranscriptAssociationsByTranscript id;
  match valid_associations l with Some l => mret l | None => throw TxFailed end.
Definition finalizeAuthoritativePublish (id : string) (contentHash fingerprint : string) (l : list Commit) :
    Tx (list Association) :=
  _ ← SetTranscriptContentHash id (Some contentHash);
  _ ← SetAcceptedRequestOperationFingerprint id (Some fingerprint);
  _ ← persistCommits id l;
  readPublishedAssociations id.

(** The row's parameters; the metadata object is set apart. *)
Definition transcriptParams (owner : Z) (req : PublishRequest) (d : BlobDescriptor) (i : ContentIdentity) : Row :=
  mkRow owner (SessionID req) (RTitle req) (RDescription req) "private" (RLicense req) (RGitRemote req) (RColumns req)
    (objectKey d) (Some (blen (Content req))) (Some (hash i)) (wrappedDEK d) (algorithm d) (keyVersion d)
    None None None None.
(** [pinRepublishGovernance]: visibility and an absent license are the row's. *)
Definition pinRepublishGovernance (id : string) (params : Row) (narrowedFrom : string) : Tx Row :=
  pre ← GetTranscriptGovernanceForUpdate id;
  mret (with_governance (Title params) (Description params) (republishRestoreTarget (Visibility pre) narrowedFrom)
    (coalesce (LicenseID params) (LicenseID pre)) params).

Definition republish_tx (owner : Z) (id : string) (req : PublishRequest) (params : Row) (narrowedFrom : string)
    (m : option MetadataObject) : Tx ((string * Row) * list Association) :=
  params ← pinRepublishGovernance id params narrowedFrom;
  new ← validatePublishedAssociationBindings owner (Some id) (Associations req);
  '(tid, row) ← UpdateTranscriptByOwnerAndLocalID params;
  _ ← insertPublishedAssociationBindings owner tid new;
  _ ← setPublishMetadataObject tid m;
  match Fingerprint req with
  | Some f => applied ← finalizeAuthoritativePublish tid (served_hash (Content req)) f (Commits req); mret ((tid, row), applied)
  | None =>
    _ ← SetAcceptedRequestOperationFingerprint tid None;
    _ ← persistCommits tid (Commits req);
    mret ((tid, row), [])
  end.
Definition create_tx (owner : Z) (id : string) (req : PublishRequest) (params : Row) (m : option MetadataObject) :
    Tx ((string * Row) * list Association) :=
  new ← validatePublishedAssociationBindings owner None (Associations req);
  '(tid, row) ← CreateTranscript id params;
  _ ← InheritIntegrityTombstone tid owner (LocalID params);
  _ ← insertPublishedAssociationBindings owner tid new;
  _ ← setPublishMetadataObject tid m;
  match Fingerprint req with
  | Some f => applied ← finalizeAuthoritativePublish tid (served_hash (Content req)) f (Commits req); mret ((tid, row), applied)
  | None => _ ← persistCommits tid (Commits req); mret ((tid, row), [])
  end.

(** Whether the audience is back. *)
Definition restoreRepublishAudience {E} (id narrowedFrom : string) : M World E bool :=
  if String.eqb narrowedFrom "" then mret true
  else
    r ← inTxAs "restore" (r ← attempt (restoreNarrowedVisibility id narrowedFrom);
      match r with Ok _ => mret tt | Err _ => throw TxFailed end);
    mret (is_ok r.1).

(** ** The locked section *)

(** How it ends: the row is stored; a response is written; or it failed, naming
    the staged object whose removal failed too ([stagedObjectCleanupError]). *)
Inductive LockedEnd : Type := Stored | Answered (status : Z) | Failed (staged : option string).
(** The variables it leaves to the rest of the handler. *)
Record Locked : Type := mkLocked {
  ended : LockedEnd;
  isUpdate : bool;
  replayed : bool;
  narrowedFrom : string;
  narrowedID : string;
  audienceLeftPrivate : bool;
  superseded : option (BlobDescriptor * option MetadataObject);
  deleteSuperseded : bool;
  transcript : option (string * Row);
  appliedAssociations : list Association
}.
Definition before_write (update : bool) (e : LockedEnd) : Locked := mkLocked e update false "" "" false None false None [].

Definition no_association_conflict {E} (owner : Z) (id : option string) (req : PublishRequest) :
    M World E (option LockedEnd) :=
  if bool_decide (Associations req = []) then mret None
  else
    r ← inTxAs "preflight" (validatePublishedAssociationBindings owner id (Associations req));
    mret (match r.1 with Ok _ => None | Err TxBinding => Some (Answered 422) | Err _ => Some (Failed None) end).

(** The candidate is written; [persist] installs it. *)
Definition install {E} (op : Lifecycle) (owner : Z) (id : string) (req : PublishRequest)
    (from : string) (old : option (BlobDescriptor * option MetadataObject)) : M World E Locked :=
  let update := match op with Create => false | _ => true end in
  let locked e left_private drop row applied := mkLocked e update false from (if update then id else "") left_private old drop row applied in
  written ← stored (WriteGeneration id (Content req) (PublishMetadata req));
  match written with
  | Err e =>
    _ ← emitUncommittedWriteReconciliation e;
    back ← restoreRepublishAudience id from;
    mret (locked (Answered 500) (negb back) false None [])
  | Ok (candidate, i, m) =>
    let params := transcriptParams owner req candidate i in
    '(completion, saved) ← (if update then inEncryptedTx "republish" (republish_tx owner id req params from m)
                            else inEncryptedTx "create" (create_tx owner id req params m));
    left_private ← match completion, saved with
      | TransactionKnownRollback, Err _ => back ← restoreRepublishAudience id from; mret (negb back)
      | TransactionCommitAmbiguous, _ => mret (negb (String.eqb from ""))
      | _, _ => mret false
      end;
    let decision := cleanupDecision op completion (is_ok saved) in
    retained ← (if DeleteCandidate decision then deleteGenerationForCleanup candidate m
      else if Reconcile decision then
        _ ← note (EvReconcile (objectKey candidate)); _ ← emitMetadataReconciliation m; mret None
      else mret None);
    let drop := DeleteSuperseded decision in
    match saved, retained with
    | Ok (row, applied), _ => mret (locked Stored left_private drop (Some row) applied)
    | Err TxBinding, _ => mret (locked (Answered 422) left_private drop None [])
    | Err _, staged => mret (locked (Failed staged) left_private drop None [])
    end
  end.

(** The republish's own reads: what it will supersede, an exact replay, and the
    narrowing. *)
Definition republish {E} (owner : Z) (id : string) (req : PublishRequest) : M World E Locked :=
  current ← GetTranscriptByID id;
  match current with
  | Err _ => mret (before_write true (Failed None))
  | Ok row =>
    match descriptorFromTranscript row, metadataObjectFromTranscript row with
    | Some d, Some m =>
      if authoritative req && bool_decide (AcceptedFingerprint row = Fingerprint req) then
        applied ← ask (fun _ => EvLookup) (fun db => Ok (associations_of id db));
        mret (match applied with
          | Ok l => match valid_associations l with
            | Some l => mkLocked Stored true true "" "" false (Some (d, m)) false (Some (id, row)) l
            | None => before_write true (Failed None) end
          | Err _ => before_write true (Failed None)
          end)
      else if String.eqb (Visibility row) "private" then install Republish owner id req "" (Some (d, m))
      else
        narrowed ← inTxAs "narrow" (r ← attempt (narrowForRepublish id);
          match r with Ok from => mret from | Err _ => throw TxFailed end);
        match narrowed with
        | (Ok from, _) => install Republish owner id req from (Some (d, m))
        | (Err _, set) =>
          let from := default "" set in
          mret (mkLocked (Failed None) true false from id (negb (String.eqb from "")) (Some (d, m)) false None [])
        end
    | _, _ => mret (before_write true (Failed None))
    end
  end.

Definition fresh_uuid {E} : M World E string := fun w => (Ok (new_uuid (log w)), w).
Definition publishLocked {E} (owner : Z) (req : PublishRequest) : M World E Locked :=
  probe ← GetTranscriptIDByOwnerAndLocalID owner (SessionID req);
  match probe with
  | Err TxNoRows =>
    id ← fresh_uuid;
    conflict ← no_association_conflict owner None req;
    match conflict with
    | Some e => mret (before_write false e)
    | None => install Create owner id req "" None
    end
  | Ok id =>
    conflict ← no_association_conflict owner (Some id) req;
    match conflict with
    | Some e => mret (before_write true e)
    | None => republish owner id req
    end
  | Err _ => mret (before_write false (Failed None))
  end.

(** ** The rest of the handler *)
Definition note_of (l : Locked) : option string :=
  if String.eqb (narrowedFrom l) "" || negb (audienceLeftPrivate l) then None else Some (narrowedFrom l).

Definition answer_publish (owner : Z) (req : PublishRequest) (l : Locked) : Handler Response :=
  match ended l, transcript l with
  | Stored, Some (id, row) =>
    _ ← match superseded l with
      | Some (d, m) => if deleteSuperseded l then _ ← deleteGenerationForCleanup d m; mret tt else mret tt
      | None => mret tt
      end;
    _ ← (if replayed l then mret tt else note EvNudge);
    let repo := RepoName.normalize_remote (GitRemote row) in
    _ ← (if String.eqb repo "" then mret tt else note (EvComplete (OwnerID row) repo));
    let stored := mkResponse (if isUpdate l then 200 else 201) None (Some (id, row)) in
    if authoritative req then
      if receipt_valid row then mret stored else throw (writeError 500)
    else
      parents ← ask (fun _ => EvLookup) (fun _ => Ok tt);
      match parents with Ok _ => mret stored | Err _ => throw (writeError 500) end
  | Answered status, _ => throw (mkResponse status (note_of l) None)
  | _, _ => throw (mkResponse 500 (note_of l) None)
  end.

Definition locks {E} : M World E (result TxError unit) := ask (fun _ => EvLocks) (fun _ => Ok tt).
(** The refresh is deferred: it runs after the response, whatever it is. *)
Definition PublishTranscript (owner : Z) (req : PublishRequest) : Handler Response :=
  held ← locks;
  l ← match held with
    | Ok _ => publishLocked owner req
    | Err _ => mret (before_write false (Failed None))
    end;
  r ← attempt (answer_publish owner req l);
  _ ← (if String.eqb (narrowedFrom l) "" then mret tt else note (EvRefresh (narrowedID l)));
  lift r.

(** ** Deletion *)
Fixpoint prune_digests (id : string) (l : list (Z * StoredAttachment)) : Tx unit :=
  match l with
  | [] => mret tt
  | (a, row) :: l =>
    _ ← match StoredDigest row with
      | None => mret tt
      | Some g => match Digest.Restrict digest_valid g (fun t => negb (String.eqb t id)) with
        | Ok pruned => SetPullRequestAttachmentDigest a pruned
        | Err _ => throw TxFailed
        end
      end;
    prune_digests id l
  end.
Definition delete_tx (owner : Z) (id : string) : Tx (list (Z * StoredAttachment) * Row) :=
  affected ← ListAttachmentsContainingTranscript owner id;
  _ ← prune_digests id affected;
  _ ← RecordIntegrityTombstone id;
  deleted ← DeleteTranscriptReturningDescriptor id;
  mret (affected, deleted).

Definition refuse {E A} (e : E) : M World E A := throw e.
Definition DeleteTranscript (gh : bool) (owner : Z) (tid : option string) : Handler Response :=
  id ← match tid with Some id => mret id | None => refuse (writeError 400) end;
  found ← GetTranscriptByID id;
  row ← match found with Ok row => mret row | Err _ => refuse (writeError 404) end;
  _ ← (if OwnerID row =? owner then mret tt else refuse (writeError 403));
  match descriptorFromTranscript row, metadataObjectFromTranscript row with
  | Some readDescriptor, Some readMetadata =>
    '(completion, r) ← inEncryptedTx "delete" (delete_tx owner id);
    let reconcile := _ ← note (EvReconcile (objectKey readDescriptor)); emitMetadataReconciliation readMetadata in
    let decision := cleanupDecision DeleteRow completion (is_ok r) in
    match r with
    | Ok (affected, deleted) =>
      if negb (DeleteTarget decision) then throw (writeError 500)
      else
        _ ← (if gh && negb (bool_decide (affected = [])) then note (EvRefresh id) else mret tt);
        match descriptorFromTranscript deleted, metadataObjectFromTranscript deleted with
        | Some d, Some m =>
          retained ← deleteGenerationForCleanup d m;
          match retained with Some _ => throw (writeError 500) | None => mret (mkResponse 200 None None) end
        | _, _ => _ ← reconcile; throw (writeError 500)
        end
    | Err _ => _ ← (if Reconcile decision then reconcile else mret tt); throw (writeError 500)
    end
  | _, _ => refuse (writeError 500)
  end.

(** ** The read ([transcript_read.go]) and the rewrite it makes *)
Inductive ReadError : Type := RdStore (e : BlobError) | RdUnusable | RdGone | RdUnchanged.
Record encryptedReadResult : Type := mkRead {
  Plaintext : string; ReadRow : Row; ReadIdentity : ContentIdentity; NotModified : bool
}.

(** The quotes around it. *)
Definition trim_quotes (s : string) : string := srev (trim_right_byte 34 (srev (trim_right_byte 34 s))).
Definition ifNoneMatchMatches (ifNoneMatch hash : string) : bool :=
  if String.eqb ifNoneMatch "" || String.eqb hash "" then false
  else String.eqb (trim_quotes (trim_space (trim_prefix "W/" (trim_space ifNoneMatch)))) hash.

Definition read_row (id ifNoneMatch : string) (row : Row) : M World ReadError encryptedReadResult :=
  match descriptorFromTranscript row, identityFromTranscript row with
  | Some d, Some loaded =>
    match loaded with
    | LoadedKnown known =>
      if ifNoneMatchMatches ifNoneMatch (hash known) then mret (mkRead "" row known true)
      else
        r ← stored (Read id d loaded);
        match r with
        | Ok (plain, i) => if content_boundary plain row then mret (mkRead plain row i false) else throw RdUnusable
        | Err e => throw (RdStore e)
        end
    | _ =>
      r ← stored (Read id d loaded);
      match r with
      | Ok (plain, i) => if content_boundary plain row then mret (mkRead plain row i false) else throw RdUnusable
      | Err e => throw (RdStore e)
      end
    end
  | _, _ => throw RdUnusable
  end.
Definition descriptorsEqual (a b : BlobDescriptor) : bool := bool_decide (a = b).

(** [authorize] is what the caller asks of the row that is there now. *)
Definition readEncryptedTranscript (id ifNoneMatch : string) (initial : Row) (authorize : Row -> M World ReadError bool) :
    M World ReadError encryptedReadResult :=
  first ← attempt (read_row id ifNoneMatch initial);
  match first with
  | Ok r => mret r
  | Err (RdStore EObjectNotFound) =>
    fresh ← GetTranscriptByID id;
    match fresh with
    | Err _ => throw RdGone
    | Ok row =>
      allowed ← authorize row;
      if negb allowed then throw RdGone
      else match descriptorFromTranscript initial, descriptorFromTranscript row with
        | Some old, Some new => if descriptorsEqual old new then throw RdUnchanged else read_row id ifNoneMatch row
        | _, _ => throw RdUnusable
        end
    end
  | Err e => throw e
  end.

Definition rewrite_tx (id : string) (old new : BlobDescriptor) (i : ContentIdentity) (oldMeta newMeta : option MetadataObject)
    (replaced : LoadedContentIdentity) (legacy : bool) : Tx unit :=
  r ← attempt (CompareAndSwapTranscriptBlob id old new i);
  match r with
  | Err TxNoRows => throw TxRaceLost
  | Err e => throw e
  | Ok _ =>
    _ ← match oldMeta with
      | Some m =>
        let '(key, hash, size) := metadataObjectParams newMeta in
        n ← ReplaceTranscriptPublishMetadataObject id key hash size (Some (metadataKey m));
        if n =? 1 then mret tt else throw TxFailed
      | None => mret tt
      end;
    match replaced with
    | LoadedKnown k => RecordTranscriptContentRewrite id (hash k) (hash i) legacy
    | _ => mret tt
    end
  end.

(** [Ok None]: another writer moved the row first. *)
Definition rewriteCanonicalTranscript (id : string) (row : Row) (canonical : string) (legacy : bool) :
    M World unit (option ContentIdentity) :=
  match descriptorFromTranscript row with
  | None => throw tt
  | Some old =>
    found ← GetTranscriptByID id;
    current ← match found with Ok r => mret r | Err _ => refuse tt end;
    match descriptorFromTranscript current with
    | None => throw tt
    | Some now =>
      if negb (descriptorsEqual old now) then mret None
      else match metadataObjectFromTranscript current, identityFromTranscript current with
        | Some oldMeta, replaced =>
          text ← match oldMeta with
            | None => mret None
            | Some m =>
              r ← stored (ReadMetadata id old m);
              match r with Ok text => mret (Some text) | Err _ => refuse tt end
            end;
          replaced ← match replaced with Some i => mret i | None => refuse tt end;
          written ← stored (WriteGeneration id canonical text);
          match written with
          | Err e => _ ← emitUncommittedWriteReconciliation e; refuse tt
          | Ok (new, i, newMeta) =>
            '(completion, r) ← inEncryptedTx "rewrite" (rewrite_tx id old new i oldMeta newMeta replaced legacy);
            let lost := match r with Err TxRaceLost => true | _ => false end in
            let decision := cleanupDecision Rewrite completion (is_ok r) in
            _ ← (if DeleteSuperseded decision then _ ← deleteGenerationForCleanup old oldMeta; mret tt
                 else if DeleteCandidate decision then _ ← deleteGenerationForCleanup new newMeta; mret tt
                 else if Reconcile decision then _ ← note (EvReconcile (objectKey new)); emitMetadataReconciliation newMeta
                 else mret tt);
            match r with
            | Ok _ => mret (Some i)
            | Err _ => if lost then mret None else refuse tt
            end
          end
        | None, _ => refuse tt
        end
    end
  end.
End handlers.
End Publish.
