(* ===== verification/PublishBodies.v ===== *)
(** * What each transaction of [Publish] does to the tables

    How a transaction ends ([completes]), and for every body what it leaves when it
    comes to its end ([carries]): the row it stored in full, the bindings it made,
    the flags it carried over. *)
From S2P Require Import Prelude GoText RepoName Digest Governance BlobStore PublishStore Publish.

Open Scope string_scope.
Open Scope list_scope.
Open Scope Z_scope.

Module PublishBodies.
Import Governance BlobStore PublishStore Publish.

Section bodies.
Context `{Crypto, BlobEnv, KeyCustodian, Env, UnicodeTables, Schema}.

(** ** Transactions *)

(** [m] came to its end with [a], from [d] to [d']. *)
Definition carries {F A} (m : M TxState F A) (d : Db) (a : A) (d' : Db) : Prop :=
  exists s s', tdb s = d /\ m s = (Ok a, s') /\ tdb s' = d'.
Inductive completes {A} (m : Tx A) (d : Db) : TransactionCompletion -> result TxError A -> option A -> Db -> Prop :=
| completes_committed a d' : carries m d a d' -> completes m d TransactionCommitted (Ok a) (Some a) d'
| completes_rolled e x d' : d' = d -> (forall a, x = Some a -> exists d', carries m d a d') ->
    completes m d TransactionKnownRollback (Err e) x d'
| completes_ambiguous e a d' d'' : carries m d a d' -> d'' = d \/ d'' = d' ->
    completes m d TransactionCommitAmbiguous (Err e) (Some a) d''.

Definition committed (name : string) (d : Db) (w : World) : World :=
  after (EvTx name (rows (db w) ∖ rows d)) d (blob w) w.

Lemma transact_inv {E A} name (m : Tx A) w r w' :
  (transact name m : M World E _) w = (r, w') ->
  exists c x y d, r = Ok (c, x, y) /\ w' = committed name d (meanwhile w) /\
    completes m (db (meanwhile w)) c x y d.
Proof.
  unfold transact. set (w1 := meanwhile w). intros Hrun.
  destruct (negb (begins (log w1))).
  { injection Hrun as <- <-. eexists _, _, _, _. split_and!; [done..|]. by apply completes_rolled. }
  destruct ((_ ← stmt "set_config" (fun d => Ok (tt, d)); m) (mkTx (db w1) (log w1) [])) as [[a|e] s] eqn:Hm.
  2:{ injection Hrun as <- <-. eexists _, _, _, _. split_and!; [done..|]. by apply completes_rolled. }
  assert (carries m (db w1) a (tdb s)) as Hc.
  { apply bind_ok_inv in Hm as (u & s0 & Hset & Hm). exists s0, s. split_and!; [|done..].
    unfold stmt in Hset. destruct (statement_runs _ _); by injection Hset as _ <-. }
  destruct (commitment (log w1)) as [| |co]; injection Hrun as <- <-; eexists _, _, _, _; (split_and!; [done..|]).
  - by apply completes_committed.
  - apply completes_rolled; [done|]. intros ? [= <-]. eauto.
  - eapply completes_ambiguous; [done|]. destruct co; auto.
Qed.

Lemma in_encrypted_inv {E A} name (m : Tx A) w r w' :
  (inEncryptedTx name m : M World E _) w = (r, w') ->
  exists c x d, r = Ok (c, x) /\ w' = committed name d (meanwhile w) /\
    exists y, completes m (db (meanwhile w)) c x y d.
Proof.
  unfold inEncryptedTx. rewrite M_bind_unfold. destruct (transact name m w) as [r0 w0] eqn:Ht.
  apply transact_inv in Ht as (c & x & y & d & -> & -> & Hd). intros [= <- <-]. eauto 7.
Qed.
Lemma in_tx_inv {E A} name (m : Tx A) w r w' :
  (inTxAs name m : M World E _) w = (r, w') ->
  exists x y d, r = Ok (x, y) /\ w' = committed name d (meanwhile w) /\
    exists c, completes m (db (meanwhile w)) c x y d.
Proof.
  unfold inTxAs. rewrite M_bind_unfold. destruct (transact name m w) as [r0 w0] eqn:Ht.
  apply transact_inv in Ht as (c & x & y & d & -> & -> & Hd). intros [= <- <-]. eauto 7.
Qed.

(** Whatever becomes of a transaction, its table is one its body left, or the
    one it found. *)
Lemma completes_cases {A} (m : Tx A) d c x y d' :
  completes m d c x y d' -> d' = d \/ exists a, carries m d a d'.
Proof. destruct 1 as [a d' Hc|e x d' -> _|e a d' d'' Hc [->| ->]]; eauto. Qed.

(** ** Bodies, statement by statement *)
Section inversion.
Context {F : Type}.

Lemma carries_bind {A B} (m : M TxState F A) (f : A -> M TxState F B) d b d' :
  carries (m ≫= f) d b d' -> exists a d1, carries m d a d1 /\ carries (f a) d1 b d'.
Proof.
  intros (s & s' & <- & Hrun & <-). apply bind_ok_inv in Hrun as (a & s1 & Hm & Hf). exists a, (tdb s1).
  split; [by exists s, s1|by exists s1, s'].
Qed.
Lemma carries_ret {A} (a b : A) d d' : carries (mret a : M TxState F A) d b d' -> b = a /\ d' = d.
Proof. by intros (s & s' & <- & [= <- <-] & <-). Qed.
Lemma carries_throw {A} (e : F) (b : A) d d' : ~ carries (throw e) d b d'.
Proof. by intros (s & s' & _ & [=] & _). Qed.
Lemma carries_attempt {G A} (m : M TxState G A) d a d' :
  carries (attempt m : M TxState F _) d (Ok a) d' -> carries m d a d'.
Proof.
  intros (s & s' & <- & Hrun & <-). apply attempt_inv in Hrun. by exists s, s'.
Qed.
End inversion.

Lemma carries_stmt {A} name (f : Db -> result TxError (A * Db)) d a d' :
  carries (stmt name f) d a d' -> f d = Ok (a, d').
Proof.
  intros (s & s' & <- & Hrun & <-). unfold stmt in Hrun. destruct (statement_runs _ _); [|done].
  destruct (f (tdb s)) as [[a0 d0]|e]; [|done]. by injection Hrun as <- <-.
Qed.
Lemma carries_select {A} name (f : Db -> result TxError A) d a d' :
  carries (select name f) d a d' -> f d = Ok a /\ d' = d.
Proof. intros Hs%carries_stmt. destruct (f d); [by injection Hs as <- <-|done]. Qed.

(** The statement each continuation starts with, inverted. *)
Ltac carry Hrun :=
  lazymatch type of Hrun with
  | carries (mbind _ _) _ _ _ => let d := fresh "d" in
      apply carries_bind in Hrun; destruct Hrun as (? & d & ? & Hrun)
  | carries (mret _) _ _ _ => apply carries_ret in Hrun; destruct Hrun as [? ?]
  | carries (throw _) _ _ _ => by apply carries_throw in Hrun
  | carries (attempt _) _ (Ok _) _ => apply carries_attempt in Hrun
  | carries (select _ _) _ _ _ => apply carries_select in Hrun; destruct Hrun as [? ?]
  | carries (stmt _ _) _ _ _ => apply carries_stmt in Hrun
  end.

(** *** What only reads *)
Definition looks {A} (m : Tx A) : Prop := forall d a d', carries m d a d' -> d' = d.
Lemma looks_bindings id by_id by_commit l : looks (new_bindings id by_id by_commit l).
Proof.
  induction l as [|[a sha] l IH]; intros d x d' Hrun; cbn in Hrun; [by apply carries_ret in Hrun as [_ ->]|].
  destruct (find _ by_id) as [[k [bound observed]]|].
  - destruct (_ && _); [by eapply IH|by apply carries_throw in Hrun].
  - destruct (existsb _ by_commit); [by apply carries_throw in Hrun|]. carry Hrun. apply carries_ret in Hrun as [_ ->].
    by eapply IH.
Qed.
Lemma looks_validate owner id l : looks (validatePublishedAssociationBindings owner id l).
Proof.
  unfold validatePublishedAssociationBindings. intros d x d' Hrun. destruct (bool_decide _); [by apply carries_ret in Hrun as [_ ->]|].
  destruct (negb _); [by apply carries_throw in Hrun|]. apply carries_bind in Hrun as (by_id & d1 & [_ ->]%carries_select & Hrun).
  apply carries_bind in Hrun as (by_commit & d2 & Hc & Hrun). apply looks_bindings in Hrun as ->.
  destruct id; [by apply carries_select in Hc as [_ ->]|by apply carries_ret in Hc as [_ ->]].
Qed.

(** *** The end of a publish *)

(** Every table but the rows and the commits. *)
Definition same_beside (d d' : Db) : Prop :=
  associations d' = associations d /\ inherited d' = inherited d /\ checked_flags d' = checked_flags d /\
  tombstones d' = tombstones d /\ rewrites d' = rewrites d /\ attached d' = attached d.
Lemma same_beside_refl d : same_beside d d.
Proof. done. Qed.
Lemma same_beside_trans d1 d2 d3 : same_beside d1 d2 -> same_beside d2 d3 -> same_beside d1 d3.
Proof. unfold same_beside. intuition congruence. Qed.

Lemma carries_update name id f d x d' : carries (stmt name (update_row_of id f)) d x d' ->
  same_beside d d' /\ forall r, rows d !! id = Some r -> rows d' = <[id := f r]> (rows d) /\ row_allowed (f r) = true.
Proof.
  intros Hs%carries_stmt. unfold update_row_of in Hs. destruct (rows d !! id) as [r|].
  - destruct (row_allowed (f r)) eqn:Hr; [|done]. injection Hs as <- <-. split; [done|]. intros r' [= <-]. done.
  - by injection Hs as <- <-.
Qed.
Lemma persist_carries id l d x d' : carries (persistCommits id l) d x d' -> same_beside d d' /\ rows d' = rows d.
Proof.
  unfold persistCommits. intros Hrun. apply carries_bind in Hrun as (u & d1 & Hd%carries_stmt & Hrun). injection Hd as _ <-.
  destruct (bool_decide _); [by apply carries_ret in Hrun as [_ ->]|]. apply carries_stmt in Hrun.
  destruct (negb _ || negb _); [done|]. by injection Hrun as _ <-.
Qed.
Lemma read_associations_carries id d x d' : carries (readPublishedAssociations id) d x d' -> d' = d /\ x = associations_of id d.
Proof.
  unfold readPublishedAssociations, valid_associations. intros Hrun. apply carries_bind in Hrun as (l & d1 & [Hl ->]%carries_select & Hrun).
  injection Hl as <-. destruct (forallb _ _); [by apply carries_ret in Hrun as [-> ->]|by apply carries_throw in Hrun].
Qed.

(** The row a publish leaves. *)
Definition finished (req : PublishRequest) (m : option MetadataObject) (r : Row) : Row :=
  let '(key, hash, size) := metadataObjectParams m in
  let r := with_metadata_object key hash size r in
  match Fingerprint req with
  | Some f => with_fingerprint (Some f) (with_hash (Some (served_hash (Content req))) r)
  | None => with_fingerprint None r
  end.
Lemma set_metadata_carries id m d x d' r : carries (setPublishMetadataObject id m) d x d' -> rows d !! id = Some r ->
  let '(key, hash, size) := metadataObjectParams m in
  same_beside d d' /\ rows d' = <[id := with_metadata_object key hash size r]> (rows d) /\
  row_allowed (with_metadata_object key hash size r) = true.
Proof.
  unfold setPublishMetadataObject. destruct (metadataObjectParams m) as [[key hash] size].
  intros [Hs Hu]%carries_update Hr. by destruct (Hu r Hr).
Qed.
Lemma finalize_carries id h f l d x d' r : carries (finalizeAuthoritativePublish id h f l) d x d' -> rows d !! id = Some r ->
  same_beside d d' /\ rows d' = <[id := with_fingerprint (Some f) (with_hash (Some h) r)]> (rows d) /\
  x = associations_of id d'.
Proof.
  unfold finalizeAuthoritativePublish. intros Hrun Hr.
  apply carries_bind in Hrun as (u1 & d1 & [Hs1 Hu1]%carries_update & Hrun). destruct (Hu1 r Hr) as [Hd1 _].
  apply carries_bind in Hrun as (u2 & d2 & [Hs2 Hu2]%carries_update & Hrun).
  destruct (Hu2 (with_hash (Some h) r)) as [Hd2 _]; [by rewrite Hd1, lookup_insert_eq|].
  apply carries_bind in Hrun as (u3 & d3 & [Hs3 Hd3]%persist_carries & [-> ->]%read_associations_carries).
  split; [by eapply same_beside_trans, same_beside_trans|]. split; [|done].
  by rewrite Hd3, Hd2, Hd1, insert_insert_eq.
Qed.

(** *** Associations *)
Definition bound (owner : Z) (id : string) (l : list (string * string)) (d : Db) : Prop :=
  forall a sha, (a, sha) ∈ l -> associations d !! (owner, a) = Some (id, sha).

Lemma insert_associations_spec owner id l : forall m m', insert_associations owner id l m = Ok m' ->
  m ⊆ m' /\ forall a sha, (a, sha) ∈ l -> m' !! (owner, a) = Some (id, sha).
Proof.
  induction l as [|[a sha] l IH]; intros m m' Hm; cbn in Hm; [injection Hm as <-; split; [done|]; intros a sha Hin; by apply elem_of_nil in Hin|].
  unfold insert_association in Hm. destruct (_ || _) eqn:Hg; [done|]. apply orb_false_iff in Hg as [Hnone _]. cbn in Hm, Hnone.
  apply IH in Hm as [Hsub Hin]. assert (m !! (owner, a) = None) as Hfree by (by destruct (m !! (owner, a))).
  split; [by etrans; [apply insert_subseteq|]|]. intros a' sha' [Heq|Hl]%elem_of_cons; [|by apply Hin].
  injection Heq as -> ->. eapply lookup_weaken; [|done]. by rewrite lookup_insert_eq.
Qed.
Lemma insert_bindings_carries owner id l d x d' : carries (insertPublishedAssociationBindings owner id l) d x d' ->
  (exists m, insert_associations owner id l (associations d) = Ok m /\ d' = set_associations m d).
Proof.
  unfold insertPublishedAssociationBindings. destruct (bool_decide _) eqn:Hl.
  - apply bool_decide_eq_true in Hl as ->. intros [_ ->]%carries_ret. exists (associations d). by destruct d.
  - intros Hs%carries_stmt. destruct (rows d !! id); [|done]. destruct (_ =? _); [|done].
    destruct (insert_associations owner id l (associations d)) as [m|]; [|done]. injection Hs as _ <-. by exists m.
Qed.

Lemma new_bindings_spec id by_id by_commit l : forall d new d', carries (new_bindings id by_id by_commit l) d new d' ->
  forall a sha, (a, sha) ∈ l -> (a, sha) ∈ new \/ exists t, id = Some t /\ (a, (t, sha)) ∈ by_id.
Proof.
  induction l as [|[a sha] l IH]; intros d new d' Hrun a' sha' Hin; [by apply elem_of_nil in Hin|]. cbn in Hrun.
  destruct (find _ by_id) as [[k [t observed]]|] eqn:Hf.
  - apply find_some in Hf as [Hk%list_elem_of_In Heq%String.eqb_eq]. cbn in Heq. subst k.
    destruct (_ && _) eqn:Hsame; [|by apply carries_throw in Hrun].
    apply andb_prop in Hsame as [Ht%bool_decide_eq_true Hs%String.eqb_eq]. subst observed.
    apply elem_of_cons in Hin as [Heq|Hin]; [|by eapply IH]. injection Heq as -> ->. right. by exists t.
  - destruct (existsb _ by_commit); [by apply carries_throw in Hrun|].
    apply carries_bind in Hrun as (rest & d1 & Hr & [-> ->]%carries_ret).
    apply elem_of_cons in Hin as [Heq|Hin]; [left; rewrite Heq; by left|].
    destruct (IH _ _ _ Hr _ _ Hin) as [?|?]; [left; by right|by right].
Qed.
Lemma validate_carries owner id l d new d' : carries (validatePublishedAssociationBindings owner id l) d new d' ->
  d' = d /\ forall a sha, (a, sha) ∈ l -> (a, sha) ∈ new \/ exists t, id = Some t /\ associations d !! (owner, a) = Some (t, sha).
Proof.
  intros Hrun. split; [by eapply looks_validate|]. unfold validatePublishedAssociationBindings in Hrun.
  destruct (bool_decide _) eqn:Hl; [apply bool_decide_eq_true in Hl as ->; intros a sha Hin; by apply elem_of_nil in Hin|].
  destruct (negb _); [by apply carries_throw in Hrun|]. apply carries_bind in Hrun as (by_id & d1 & [Hb ->]%carries_select & Hrun).
  injection Hb as <-. apply carries_bind in Hrun as (by_commit & d2 & Hc & Hrun). intros a sha Hin.
  destruct (new_bindings_spec _ _ _ _ _ _ _ Hrun _ _ Hin) as [?|(t & -> & Ht)]; [by left|right]. exists t. split; [done|].
  apply list_elem_of_omap in Ht as ([[o k] b] & Hk & Hs). cbn in Hs. destruct (_ && _) eqn:Ho; [|done].
  injection Hs as -> ->. apply andb_prop in Ho as [->%Z.eqb_eq _]. by apply elem_of_map_to_list in Hk.
Qed.
(** Together: all the request's bindings are there, and no other moved. *)
Lemma bindings_carry owner id ido l new d d1 x d2 :
  carries (validatePublishedAssociationBindings owner ido l) d new d ->
  (forall t, ido = Some t -> t = id) -> associations d1 = associations d ->
  carries (insertPublishedAssociationBindings owner id new) d1 x d2 ->
  bound owner id l d2 /\ associations d ⊆ associations d2.
Proof.
  intros [_ Hv]%validate_carries Ho Heq (m & Hm & ->)%insert_bindings_carries. rewrite Heq in Hm.
  destruct (insert_associations_spec _ _ _ _ _ Hm) as [Hsub Hnew]. split; [|done]. intros a sha Hin. cbn.
  destruct (Hv a sha Hin) as [?|(t & Ht & Hk)]; [by apply Hnew|]. rewrite (Ho t Ht) in Hk. by eapply lookup_weaken.
Qed.

(** *** Publishing *)
Lemma source_row_some owner localID d id r : source_row owner localID d = Some (id, r) ->
  rows d !! id = Some r /\ OwnerID r = owner /\ LocalID r = localID.
Proof.
  unfold source_row. intros Hr%head_Some_elem_of. apply elem_of_list_filter in Hr as [Hin Hs].
  apply elem_of_map_to_list in Hin. by apply andb_prop in Hs as [?%Z.eqb_eq ?%String.eqb_eq].
Qed.
Lemma source_row_none owner localID d id r : source_row owner localID d = None -> rows d !! id = Some r ->
  OwnerID r = owner -> LocalID r <> localID.
Proof.
  unfold source_row. intros Hn%head_None Hr Ho Hl. assert ((id, r) ∈ ([] : list (string * Row))) as Hin; [|by apply elem_of_nil in Hin].
  rewrite <- Hn. apply elem_of_list_filter. split; [by apply elem_of_map_to_list|]. cbn. by rewrite Ho, Hl, Z.eqb_refl, String.eqb_refl.
Qed.

(** The two publishes end alike, from a table that has [r] at [id]. *)
Definition publish_end (id : string) (req : PublishRequest) (m : option MetadataObject) (clear : bool) (row : Row) :
    Tx ((string * Row) * list (string * string)) :=
  _ ← setPublishMetadataObject id m;
  match Fingerprint req with
  | Some f => applied ← finalizeAuthoritativePublish id (served_hash (Content req)) f (Commits req); mret ((id, row), applied)
  | None =>
    _ ← (if clear then SetAcceptedRequestOperationFingerprint id None else mret tt);
    _ ← persistCommits id (Commits req); mret ((id, row), [])
  end.
Lemma publish_end_carries id req m (clear : bool) row d x d' r :
  carries (publish_end id req m clear row) d x d' -> rows d !! id = Some r ->
  (clear = false -> AcceptedFingerprint r = None) ->
  same_beside d d' /\ rows d' = <[id := finished req m r]> (rows d) /\ row_allowed (finished req m r) = true /\
  x.1 = (id, row) /\ (authoritative req = true -> x.2 = associations_of id d').
Proof.
  unfold publish_end, finished, authoritative. intros Hrun Hr Hclear. apply carries_bind in Hrun as (u & d1 & Hm & Hrun).
  pose proof (set_metadata_carries _ _ _ _ _ _ Hm Hr) as Hset. destruct (metadataObjectParams m) as [[key hash] size].
  destruct Hset as (Hb1 & Hr1 & Hok). set (r1 := with_metadata_object key hash size r) in *.
  assert (rows d1 !! id = Some r1) as Hd1 by (by rewrite Hr1, lookup_insert_eq).
  destruct (Fingerprint req) as [f|]; cbn.
  - apply carries_bind in Hrun as (applied & d2 & Hf & [-> ->]%carries_ret). destruct (finalize_carries _ _ _ _ _ _ _ _ Hf Hd1) as (Hb2 & Hr2 & Ha).
    split; [by eapply same_beside_trans|]. split; [by rewrite Hr2, Hr1, insert_insert_eq|]. split; [by destruct r1|]. done.
  - apply carries_bind in Hrun as (u1 & d2 & Hc & Hrun). apply carries_bind in Hrun as (u2 & d3 & [Hb3 Hr3]%persist_carries & [-> ->]%carries_ret).
    assert (same_beside d1 d2 /\ rows d2 = <[id := with_fingerprint None r1]> (rows d1)) as [Hb2 Hr2].
    { destruct clear.
      - apply carries_update in Hc as [Hb Hu]. by destruct (Hu r1 Hd1).
      - apply carries_ret in Hc as [_ ->]. split; [done|]. rewrite insert_id; [done|]. rewrite Hd1. f_equal.
        specialize (Hclear eq_refl). unfold r1. destruct r; cbn in *. by rewrite Hclear. }
    split; [by do 2 (eapply same_beside_trans; [done|])|]. split; [by rewrite Hr3, Hr2, Hr1, insert_insert_eq|]. split; [by destruct r1|]. done.
Qed.

(** A first publish: the row is new, flagged as the copy before it was, and has
    every binding the request asks for. *)
Lemma create_carries owner id req params m d x d' :
  carries (create_tx owner id req params m) d x d' ->
  rows d !! id = None /\ source_row (OwnerID params) (LocalID params) d = None /\
  rows d' = <[id := finished req m (created params)]> (rows d) /\ row_allowed (finished req m (created params)) = true /\
  x.1 = (id, created params) /\ bound owner id (Associations req) d' /\ associations d ⊆ associations d' /\
  tombstones d' = tombstones d /\ checked_flags d' = checked_flags d /\
  inherited d' !! id = match inherited d !! id with Some t => Some t | None => tombstones d !! (owner, LocalID params) end.
Proof.
  unfold create_tx. intros Hrun. apply carries_bind in Hrun as (new & d0 & Hv & Hrun).
  pose proof (looks_validate _ _ _ _ _ _ Hv) as ->. apply carries_bind in Hrun as (tr & d1 & Hins%carries_stmt & Hrun).
  cbn zeta in Hins. destruct (is_some_b (rows d !! id)) eqn:Hid; [done|].
  destruct (is_some_b (source_row (OwnerID params) (LocalID params) d)) eqn:Hsrc; [done|].
  destruct (row_allowed (created params)) eqn:Hok; [|done]. cbn in Hins. injection Hins as <- <-.
  apply carries_bind in Hrun as (u & d2 & Hinh%carries_stmt & Hrun). apply carries_bind in Hrun as (u1 & d3 & Hb & Hrun).
  assert (rows d2 = <[id := created params]> (rows d) /\ associations d2 = associations d /\ tombstones d2 = tombstones d /\
    checked_flags d2 = checked_flags d /\
    inherited d2 !! id = match inherited d !! id with Some t => Some t | None => tombstones d !! (owner, LocalID params) end) as (Hr2 & Ha2 & Ht2 & Hf2 & Hi2).
  { cbn in Hinh. destruct (tombstones d !! _) as [t|], (inherited d !! id) as [t'|] eqn:Hi; injection Hinh as _ <-; cbn;
      rewrite ?lookup_insert_eq; done. }
  destruct (bindings_carry owner id None (Associations req) new d d2 u1 d3 Hv) as [Hbound Hsub]; [done..|].
  apply insert_bindings_carries in Hb as (mm & _ & ->). apply (publish_end_carries id req m false (created params) _ _ _ (created params)) in Hrun
    as ((Has & Hin & Hch & Hto & _) & Hrows & Hal & Hx & _); [|by cbn; rewrite Hr2, lookup_insert_eq|done].
  split_and!; [by destruct (rows d !! id)|by destruct (source_row _ _ d)|cbn in Hrows; by rewrite Hrows, Hr2, insert_insert_eq|done|done| | | | |].
  - intros a sha Hl. rewrite Has. by apply Hbound.
  - by rewrite Has.
  - by rewrite Hto.
  - by rewrite Hch.
  - by rewrite Hin.
Qed.

(** A republish replaces the row of the session it was made for, under the
    governance the row has by then. *)
Lemma republish_carries owner id req params from m d x d' :
  carries (republish_tx owner id req params from m) d x d' ->
  exists pre tid old, rows d !! id = Some pre /\ source_row (OwnerID params) (LocalID params) d = Some (tid, old) /\
    let params := with_governance (Title params) (Description params) (republishRestoreTarget (Visibility pre) from)
      (coalesce (LicenseID params) (LicenseID pre)) params in
    rows d' = <[tid := finished req m (republished params old)]> (rows d) /\
    row_allowed (finished req m (republished params old)) = true /\
    x.1 = (tid, republished params old) /\ (tid = id -> bound owner id (Associations req) d') /\ associations d ⊆ associations d' /\
    tombstones d' = tombstones d /\ checked_flags d' = checked_flags d /\ inherited d' = inherited d.
Proof.
  unfold republish_tx, pinRepublishGovernance. intros Hrun. apply carries_bind in Hrun as (params' & d0 & Hpin & Hrun).
  apply carries_bind in Hpin as (pre & d1 & [Hpre ->]%carries_select & [-> ->]%carries_ret).
  destruct (rows d !! id) as [pre'|] eqn:Hid; [|done]. injection Hpre as <-.
  set (params' := with_governance _ _ _ _ params) in *.
  apply carries_bind in Hrun as (new & d1 & Hv & Hrun). pose proof (looks_validate _ _ _ _ _ _ Hv) as ->.
  apply carries_bind in Hrun as (tr & d1 & Hup%carries_stmt & Hrun). change (OwnerID params') with (OwnerID params) in Hup.
  change (LocalID params') with (LocalID params) in Hup.
  destruct (source_row (OwnerID params) (LocalID params) d) as [[tid old]|] eqn:Hsrc; [|done]. cbn in Hup.
  destruct (row_allowed (republished params' old)); [|done]. injection Hup as <- <-.
  apply carries_bind in Hrun as (u1 & d3 & Hb & Hrun). exists pre', tid, old. split; [done|]. split; [done|]. cbn zeta.
  assert (tid = id -> bound owner id (Associations req) d3) as Hbound.
  { intros ->. eapply (bindings_carry owner id (Some id)); [done|by intros t [= ->]| |done]. done. }
  pose proof Hb as (mm & Hmm & ->)%insert_bindings_carries.
  apply (publish_end_carries tid req m true (republished params' old) _ _ _ (republished params' old)) in Hrun
    as ((Has & Hin & Hch & Hto & _) & Hrows & Hal & Hx & _); [|by cbn; rewrite lookup_insert_eq|done].
  split_and!; [cbn in Hrows; by rewrite Hrows, insert_insert_eq|done|done| | |by rewrite Hto|by rewrite Hch|by rewrite Hin].
  - intros Ht a sha Hl. rewrite Has. by apply Hbound.
  - rewrite Has. cbn. by eapply insert_associations_spec.
Qed.

(** *** The audience *)
Definition seen_by (v : string) (r : Row) : Row := with_governance (Title r) (Description r) v (LicenseID r) r.
Lemma seen_by_same r : seen_by (Visibility r) r = r.
Proof. by destruct r. Qed.

Lemma carries_patched {A} (m : Tx A) d a d' : carries (patched m) d a d' -> carries m d a d'.
Proof.
  unfold patched. intros Hrun. apply carries_bind in Hrun as (r & d1 & Hr & Hrun). destruct r as [b|e]; [|by apply carries_throw in Hrun].
  apply carries_ret in Hrun as [-> ->]. by apply carries_attempt in Hr.
Qed.
Lemma lock_carries id d r d' : carries (patched (GetTranscriptGovernanceForUpdate id)) d r d' -> rows d !! id = Some r /\ d' = d.
Proof. intros [Hr ->]%carries_patched%carries_select. by destruct (rows d !! id); [injection Hr as ->|]. Qed.
Lemma patch_carries id v d r d' : carries (applyMetadataPatch id (visibilityPatch v)) d r d' ->
  exists pre, rows d !! id = Some pre /\ d' = set_rows (<[id := seen_by v pre]> (rows d)) d.
Proof.
  unfold applyMetadataPatch. intros Hrun. apply carries_bind in Hrun as (pre & d1 & [Hpre ->]%lock_carries & Hrun). exists pre.
  split; [done|]. cbn in Hrun. rewrite andb_false_r in Hrun. apply carries_patched, carries_stmt in Hrun.
  rewrite Hpre in Hrun. by injection Hrun as _ <-.
Qed.

Lemma narrow_carries id d from d' :
  carries (r ← attempt (narrowForRepublish id); match r with Ok from => mret from | Err _ => throw TxFailed end : Tx string) d from d' ->
  exists pre, rows d !! id = Some pre /\ d' = set_rows (<[id := seen_by "private" pre]> (rows d)) d /\
    from = if String.eqb (Visibility pre) "private" then "" else Visibility pre.
Proof.
  intros Hrun. apply carries_bind in Hrun as (r & d1 & Hr & Hrun). destruct r as [f|e]; [|by apply carries_throw in Hrun].
  apply carries_ret in Hrun as [-> ->]. apply carries_attempt in Hr. unfold narrowForRepublish in Hr.
  apply carries_bind in Hr as (pre & d2 & [Hpre ->]%lock_carries & Hr). exists pre. split; [done|]. cbn in Hr.
  destruct (String.eqb (Visibility pre) "private") eqn:Hv.
  - apply carries_ret in Hr as [-> ->]. apply String.eqb_eq in Hv. rewrite <- Hv, seen_by_same, insert_id by done. by destruct d.
  - apply carries_bind in Hr as (r & d2 & (pre' & Hpre' & ->)%patch_carries & [-> ->]%carries_ret).
    rewrite Hpre in Hpre'. by injection Hpre' as <-.
Qed.
Lemma restore_carries id from d x d' :
  carries (r ← attempt (restoreNarrowedVisibility id from); match r with Ok _ => mret tt | Err _ => throw TxFailed end : Tx unit) d x d' ->
  exists pre, rows d !! id = Some pre /\
    d' = set_rows (<[id := seen_by (republishRestoreTarget (Visibility pre) from) pre]> (rows d)) d.
Proof.
  intros Hrun. apply carries_bind in Hrun as (r & d1 & Hr & Hrun). destruct r as [u|e]; [|by apply carries_throw in Hrun].
  apply carries_ret in Hrun as [-> ->]. apply carries_attempt in Hr. unfold restoreNarrowedVisibility in Hr.
  apply carries_bind in Hr as (pre & d2 & [Hpre ->]%lock_carries & Hr). exists pre. split; [done|]. cbn in Hr.
  destruct (String.eqb _ _) eqn:Hv.
  - apply carries_ret in Hr as [_ ->]. apply String.eqb_eq in Hv. rewrite Hv, seen_by_same, insert_id by done. by destruct d.
  - apply carries_bind in Hr as (r & d2 & (pre' & Hpre' & ->)%patch_carries & [_ ->]%carries_ret).
    rewrite Hpre in Hpre'. by injection Hpre' as <-.
Qed.

(** *** The rewrite *)
Definition rewritten (new : BlobDescriptor) (i : ContentIdentity) (oldMeta newMeta : option MetadataObject) (r : Row) : Row :=
  let r := with_body (objectKey new) new i r in
  match oldMeta with
  | Some _ => let '(key, hash, size) := metadataObjectParams newMeta in with_metadata_object key hash size r
  | None => r
  end.
Lemma rewrite_carries id old new i oldMeta newMeta replaced legacy d x d' :
  carries (rewrite_tx id old new i oldMeta newMeta replaced legacy) d x d' ->
  exists r, rows d !! id = Some r /\ row_holds old r = true /\
    (forall m, oldMeta = Some m -> PublishMetadataKey r = Some (metadataKey m)) /\
    rows d' = <[id := rewritten new i oldMeta newMeta r]> (rows d) /\ row_allowed (rewritten new i oldMeta newMeta r) = true.
Proof.
  unfold rewrite_tx, rewritten. intros Hrun. apply carries_bind in Hrun as (c & d1 & Hc & Hrun).
  destruct c as [r1|[]]; [|by apply carries_throw in Hrun..]. apply carries_attempt, carries_stmt in Hc.
  destruct (rows d !! id) as [r|] eqn:Hr; [|done]. cbn in Hc. destruct (row_holds old r) eqn:Hold; [|done]. cbn in Hc.
  set (r1' := with_body (objectKey new) new i r) in *. destruct (row_allowed r1') eqn:Hok; [|done]. injection Hc as <- <-.
  apply carries_bind in Hrun as (u & d2 & Hm & Hrun).
  assert (rows d' = rows d2) as ->.
  { destruct replaced as [k|k|]; [|by apply carries_ret in Hrun as [_ ->]..]. apply carries_stmt in Hrun.
    destruct (is_some_b _); [by injection Hrun as _ <-|]. destruct (is_some_b _); [by injection Hrun as _ <-|done]. }
  exists r. split; [done|]. split; [done|]. destruct oldMeta as [mo|].
  2:{ apply carries_ret in Hm as [_ ->]. by split. }
  destruct (metadataObjectParams newMeta) as [[key hash] size]. apply carries_bind in Hm as (n & d3 & Hrep%carries_stmt & Hm).
  cbn in Hrep. rewrite lookup_insert_eq in Hrep. destruct (bool_decide _) eqn:Hkey; cbn in Hrep.
  2:{ injection Hrep as <- <-. by apply carries_throw in Hm. }
  unfold update_row_of in Hrep. cbn in Hrep. rewrite lookup_insert_eq in Hrep.
  destruct (row_allowed (with_metadata_object key hash size r1')) eqn:Hok'; [|done]. cbn in Hrep. injection Hrep as <- <-.
  apply carries_ret in Hm as [_ ->]. split; [intros m [= <-]; by apply bool_decide_eq_true in Hkey|].
  cbn. by rewrite insert_insert_eq.
Qed.

(** *** Deletion *)
Definition pruned (id : string) (a : StoredAttachment) : Prop :=
  forall g, StoredDigest a = Some g -> digest_names id g = false.
Lemma restrict_pruned id v g g' : Digest.Restrict v g (fun t => negb (String.eqb t id)) = Ok g' -> digest_names id g' = false.
Proof.
  intros Hr. unfold digest_names. apply not_true_iff_false. intros (i & Hin & Hi)%existsb_exists.
  apply list_elem_of_In in Hin. apply (Digest.Restrict_keeps _ _ _ _ _ Hr) in Hin. by rewrite Hi in Hin.
Qed.
Lemma pruned_set id a row g : digest_names id g = false -> pruned id (mkStored a row (Some g)).
Proof. by intros Hg g' [= <-]. Qed.

Lemma prune_carries id l : forall d x d', carries (prune_digests id l) d x d' ->
  d' = set_attached (attached d') d /\
  (forall a row', attached d' !! a = Some row' -> exists row, attached d !! a = Some row /\ Author row' = Author row /\
    (row' = row \/ pruned id row')) /\
  (forall a row row', (a, row) ∈ l -> StoredDigest row <> None -> attached d' !! a = Some row' -> pruned id row').
Proof.
  induction l as [|[a row] l IH]; intros d x d' Hrun.
  - apply carries_ret in Hrun as [_ ->]. split_and!; [by destruct d|eauto|]. intros a row row' Hin. by apply elem_of_nil in Hin.
  - apply carries_bind in Hrun as (u & d1 & Hset & Hrun). destruct (IH _ _ _ Hrun) as (Hd' & Hfrom & Hin').
    assert (d1 = set_attached (attached d1) d /\
      forall b row1, attached d1 !! b = Some row1 -> exists row0, attached d !! b = Some row0 /\ Author row1 = Author row0 /\
        (row1 = row0 \/ pruned id row1) /\ (b = a -> StoredDigest row <> None -> pruned id row1)) as [Hd1 Hstep].
    { destruct (StoredDigest row) as [g|].
      2:{ apply carries_ret in Hset as [_ ->]. split; [by destruct d|]. intros b row1 Hb. exists row1. split_and!; auto. by intros _ []. }
      destruct (Digest.Restrict _ g _) as [g'|] eqn:Hg; [|by apply carries_throw in Hset]. apply carries_stmt in Hset.
      apply restrict_pruned in Hg. destruct (attached d !! a) as [old|] eqn:Ha; injection Hset as _ <-; cbn.
      - split; [done|]. intros b row1. destruct (decide (b = a)) as [->|Hne].
        + rewrite lookup_insert_eq. intros [= <-]. exists old. split_and!; [done..|right|intros _ _]; by apply pruned_set.
        + rewrite lookup_insert_ne by done. intros Hb. exists row1. split_and!; auto. by intros ->.
      - split; [by destruct d|]. intros b row1 Hb. exists row1. split_and!; auto. intros ->. by rewrite Ha in Hb. }
    split_and!.
    + rewrite Hd', Hd1. by destruct d.
    + intros b row' (row1 & Hb1 & Hau & Hor)%Hfrom. apply Hstep in Hb1 as (row0 & Hb0 & Hau0 & Hor0 & _). exists row0.
      split_and!; [done|congruence|]. destruct Hor as [->|?]; [done|by right].
    + intros b rowb row' [Heq|Hin]%elem_of_cons Hsome Hb; [|by eapply Hin']. injection Heq as -> ->.
      apply Hfrom in Hb as (row1 & Hb1 & _ & Hor). apply Hstep in Hb1 as (_ & _ & _ & _ & Hp).
      destruct Hor as [->|?]; [by apply Hp|done].
Qed.

(** The row goes, every digest of the owner stops naming it, and an open flag
    is written down for the session. *)
Lemma delete_carries owner id d x d' : carries (delete_tx owner id) d x d' ->
  rows d !! id = Some x.2 /\ rows d' = delete id (rows d) /\
  (forall k t, tombstones d !! k = Some t -> exists t', tombstones d' !! k = Some t' /\ t' <= t) /\
  (forall t, open_flag d id = Some t -> exists t', tombstones d' !! (OwnerID x.2, LocalID x.2) = Some t' /\ t' <= t) /\
  (forall a row, attached d' !! a = Some row -> Author row = owner -> pruned id row).
Proof.
  unfold delete_tx. intros Hrun. apply carries_bind in Hrun as (affected & d1 & [Haff ->]%carries_select & Hrun). injection Haff as <-.
  apply carries_bind in Hrun as (u1 & d1 & Hp & Hrun). destruct (prune_carries _ _ _ _ _ Hp) as (Hd1 & Hfrom & Hin).
  apply carries_bind in Hrun as (u2 & d2 & Ht%carries_stmt & Hrun).
  apply carries_bind in Hrun as (r & d3 & Hdel%carries_stmt & [-> ->]%carries_ret). cbn.
  assert (rows d1 = rows d /\ tombstones d1 = tombstones d /\ open_flag d1 = open_flag d) as (Hr1 & Ht1 & Hf1).
  { rewrite Hd1. unfold open_flag. by destruct d. }
  rewrite Hr1, Hf1, Ht1 in Ht.
  assert (rows d2 = rows d /\ attached d2 = attached d1) as [Hr2 Ha2].
  { destruct (rows d !! id), (open_flag d id); by injection Ht as _ <-. }
  rewrite Hr2 in Hdel. destruct (rows d !! id) as [row|]; [|done]. cbn in Hdel. injection Hdel as <- <-. cbn. rewrite Hr2, Ha2.
  split_and!; [done|done| | |].
  - intros k t Hk. destruct (open_flag d id) as [at_|]; injection Ht as _ <-; cbn; [|rewrite Ht1; exists t; split; [done|lia]].
    destruct (decide (k = (OwnerID row, LocalID row))) as [->|Hne].
    + rewrite lookup_insert_eq, Hk. exists (Z.min t at_). split; [done|lia].
    + rewrite lookup_insert_ne by done. exists t. split; [done|lia].
  - intros t Hopen. rewrite Hopen in Ht. injection Ht as _ <-. cbn. rewrite lookup_insert_eq. eexists. split; [done|].
    destruct (tombstones d !! _); lia.
  - intros a row'. rewrite lookup_fmap. intros (row1 & Ha & ->)%fmap_Some_1 Hau g Hg. cbn in *.
    destruct (Hfrom a row1 Ha) as (row0 & Ha0 & Hau0 & [->|Hpr]); [|by apply Hpr].
    destruct (contains_transcript owner id row0) eqn:Hcon.
    + eapply Hin; [|by rewrite Hg|done|done]. apply elem_of_sort_stable, elem_of_list_filter. split; [by apply elem_of_map_to_list|done].
    + unfold contains_transcript in Hcon. rewrite Hau, Z.eqb_refl, Hg in Hcon. by apply orb_false_iff in Hcon as [? _].
Qed.
End bodies.
End PublishBodies.
