(* ===== verification/GenerationLaws.v ===== *)
(** * Stored generations: no row ever names an object that is not there

    Rely and guarantee for the objects of transcripts. [considerate] is what
    every writer of the table and the bucket promises every other; [sound] says
    that each row's body and metadata object are in the bucket, that no two rows
    share an object, and that this held in every snapshot. *)
From S2P Require Import Prelude GoText Regex RepoName Digest Governance BlobStore BlobLaws PublishStore Publish.

Open Scope string_scope.
Open Scope list_scope.
Open Scope Z_scope.

Module GenerationLaws.
Import Governance BlobStore BlobLaws PublishStore Publish.

Section laws.
Context `{Crypto, BlobEnv, KeyCustodian, Env, UnicodeTables, Schema}.

(** ** Keys *)
Definition key_of (u : string) : string := "transcripts/" +:+ u +:+ ".bin".
(** Drawn by this process, ever; or between two points of it. *)
Definition mine (k : string) : Prop := exists l, k = key_of (random_uuid l).
Definition drawn (n : nat) (k : string) : Prop := exists l, (length l < n)%nat /\ k = key_of (random_uuid l).
Definition fresh (n n' : nat) (k : string) : Prop := exists l, (n <= length l < n')%nat /\ k = key_of (random_uuid l).

Lemma drawn_mine n k : drawn n k -> mine k.
Proof. intros (l & _ & ->). by exists l. Qed.
Lemma drawn_mono n n' k : (n <= n')%nat -> drawn n k -> drawn n' k.
Proof. intros Hn (l & Hl & ->). exists l. split; [lia|done]. Qed.
Lemma fresh_drawn n n' k : fresh n n' k -> drawn n' k.
Proof. intros (l & Hl & ->). exists l. split; [lia|done]. Qed.

Notation Bucket := (gmap string (string * string)).

(** ** What an operation of the store does to the bucket *)

(** Everything stays but what is at a key drawn from here on. *)
Definition spares (b b' : BlobWorld) : Prop :=
  (length (blog b) <= length (blog b'))%nat /\
  forall k x, (objects b : Bucket) !! k = Some x ->
    (forall l, (length (blog b) <= length l)%nat -> k <> key_of (random_uuid l)) -> (objects b' : Bucket) !! k = Some x.
Definition at_least (b0 : BlobWorld) (n : nat) (b : BlobWorld) : Prop := spares b0 b /\ (n <= length (blog b))%nat.

Section bucket.
Context (Hkeep : others_keep).

Lemma spares_refl b : spares b b.
Proof. by split. Qed.

Lemma spares_change b0 n key event lost f :
  (exists l, (length (blog b0) <= length l)%nat /\ key = key_of (random_uuid l)) ->
  (forall o k, k <> key -> (f o : Bucket) !! k = (o : Bucket) !! k) ->
  keeps (at_least b0 n) (change event lost f).
Proof.
  intros (l & Hl & ->) Hf b [[Hlen Hsp] Hn]. unfold change.
  assert (forall o', (o' = f (elsewhere (blog b) (objects b)) \/ o' = elsewhere (blog b) (objects b)) ->
    at_least b0 n (mkBlobWorld o' (blog b ++ [event]))) as Hdone.
  { intros o' Ho. split; [split|]; cbn; rewrite ?length_app; cbn; [lia| |lia]. intros k x Hk Hnew.
    assert ((elsewhere (blog b) (objects b) : Bucket) !! k = Some x) as Hels by (by apply Hkeep, Hsp).
    destruct Ho as [->| ->]; [|done]. rewrite Hf; [done|]. by apply Hnew. }
  destruct (served (blog b)) as [|[]]; cbn; apply Hdone; auto.
Qed.

Lemma spares_random {A} b0 n (f : list BlobEvent -> A) : keeps (at_least b0 n) (random f).
Proof. intros b [[Hlen Hsp] Hn]. split; [split; [|done]|]; cbn; rewrite length_app; cbn; lia. Qed.

Lemma spares_get b0 n key : keeps (at_least b0 n) (Get key).
Proof.
  intros b [[Hlen Hsp] Hn]. split; [split|]; cbn; rewrite ?length_app; cbn; [lia| |lia].
  intros k x Hk Hnew. by apply Hkeep, Hsp.
Qed.

Lemma spares_of_some {A} b0 n e (o : option A) : keeps (at_least b0 n) (of_some e o).
Proof. destruct o; [apply keeps_ret|apply keeps_throw]. Qed.
Lemma spares_key {A} b0 n (r : result KeyError A) : keeps (at_least b0 n) (key_result r).
Proof. destruct r; [apply keeps_ret|apply keeps_throw]. Qed.

Lemma spares_open b0 n id key aad d : keeps (at_least b0 n) (open_object id key aad d).
Proof.
  unfold open_object. destruct (negb _); [apply keeps_throw|]. apply keeps_bind; [apply spares_get|]. intros [c ct].
  destruct (negb _); [apply keeps_throw|]. apply keeps_bind; [|intros; apply spares_of_some]. unfold openDEK.
  apply keeps_bind; [apply spares_key|]. intros dek. destruct (negb _); [apply keeps_throw|apply keeps_ret].
Qed.
Lemma spares_read b0 n id d i : keeps (at_least b0 n) (Read id d i).
Proof.
  unfold Read. destruct (negb _); [apply keeps_throw|]. apply keeps_bind; [apply spares_open|]. intros p.
  destruct i; [destruct (bool_decide _); [apply keeps_ret|apply keeps_throw]|apply keeps_ret..].
Qed.
Lemma spares_read_metadata b0 n id d m : keeps (at_least b0 n) (ReadMetadata id d m).
Proof.
  unfold ReadMetadata. destruct (negb _); [apply keeps_throw|]. apply keeps_bind; [apply spares_open|]. intros p.
  destruct (bool_decide _); [apply keeps_ret|apply keeps_throw].
Qed.

(** A key drawn on the way. *)
Definition newer (b0 : BlobWorld) (n : nat) (k : string) (b : BlobWorld) : Prop :=
  exists n', (n <= n')%nat /\ fresh (length (blog b0)) n' k /\ at_least b0 n' b.
Lemma spares_draw b0 n :
  triple (at_least b0 n) generation_key (fun r b => match r with Ok k => newer b0 n k b | Err _ => at_least b0 n b end).
Proof.
  intros b [[Hlen Hsp] Hn]. change (newer b0 n (key_of (random_uuid (blog b))) (mkBlobWorld (objects b) (blog b ++ [BvRandom]))).
  exists (S (length (blog b))). split; [lia|].
  split; [exists (blog b); split; [lia|done]|]. split; [split|]; cbn; rewrite ?length_app; cbn; [lia|done|lia].
Qed.
Lemma newer_weaken b0 n n' k b : (n <= n')%nat -> newer b0 n' k b -> newer b0 n k b.
Proof. intros Hn (m & Hm & Hf & Hb). exists m. split; [lia|done]. Qed.

Lemma fresh_new b0 n k : fresh (length (blog b0)) n k ->
  exists l, (length (blog b0) <= length l)%nat /\ k = key_of (random_uuid l).
Proof. intros (l & Hl & ->). exists l. split; [lia|done]. Qed.

Lemma spares_put_metadata b0 n key m sealed :
  fresh (length (blog b0)) n key -> (forall mo, m = Some mo -> fresh (length (blog b0)) n (metadataKey mo)) ->
  keeps (at_least b0 n) (put_metadata key m sealed).
Proof.
  intros Hkey Hm. unfold put_metadata. destruct m as [m|]; [|apply keeps_ret].
  assert (forall e k body, fresh (length (blog b0)) n k -> keeps (at_least b0 n) (Put e k body ciphertextContentType)) as Hput.
  { intros e k body Hk. apply spares_change with k; [by eapply fresh_new|]. intros o k' Hne. by rewrite lookup_insert_ne. }
  apply keeps_bind; [apply keeps_attempt; eauto|]. intros [?|e]; [apply keeps_ret|].
  apply keeps_bind; [|intros [?|?]; apply keeps_throw]. apply keeps_attempt.
  apply spares_change with key; [by eapply fresh_new|]. intros o k' Hne. by rewrite lookup_delete_ne.
Qed.

Definition generation_fresh (b b' : BlobWorld) (r : result BlobError (BlobDescriptor * ContentIdentity * option MetadataObject)) : Prop :=
  match r with
  | Ok (d, _, m) => fresh (length (blog b)) (length (blog b')) (objectKey d) /\
      forall mo, m = Some mo -> fresh (length (blog b)) (length (blog b')) (metadataKey mo)
  | Err _ => True
  end.

Lemma fresh_mono n n' n'' k : (n' <= n'')%nat -> fresh n n' k -> fresh n n'' k.
Proof. intros Hn (l & Hl & ->). exists l. split; [lia|done]. Qed.

Lemma triple_keeps {A B} b0 n (m : M BlobWorld BlobError A) (f : A -> M BlobWorld BlobError B) Q :
  keeps (at_least b0 n) m -> (forall a, triple (at_least b0 n) (f a) Q) -> (forall e b, at_least b0 n b -> Q (Err e) b) ->
  triple (at_least b0 n) (m ≫= f) Q.
Proof.
  intros Hm Hf He. apply (triple_bind _ (fun _ => at_least b0 n)); [|done]. intros b Hb. specialize (Hm b Hb).
  destruct (m b) as [[a|e] b']; cbn in *; auto.
Qed.

Lemma triple_draw {B} b0 n (f : string -> M BlobWorld BlobError B) Q :
  (forall k n', (n <= n')%nat -> fresh (length (blog b0)) n' k -> triple (at_least b0 n') (f k) Q) ->
  triple (at_least b0 n) (generation_key ≫= f) Q.
Proof.
  intros Hf b Hb. destruct (spares_draw b0 n b Hb) as (n' & Hn & Hk & Hb'). exact (Hf _ n' Hn Hk _ Hb').
Qed.

Lemma triple_some {A B} (I : BlobWorld -> Prop) e (o : option A) (f : A -> M BlobWorld BlobError B) Q :
  (forall a, o = Some a -> triple I (f a) Q) -> (forall b, I b -> Q (Err e) b) -> triple I (of_some e o ≫= f) Q.
Proof. intros Hf He b Hb. destruct o as [a|]; [by apply (Hf a eq_refl)|by apply He]. Qed.

Lemma triple_metadata {B} b0 n key meta (f : option MetadataObject -> M BlobWorld BlobError B) Q :
  (forall m n', (n <= n')%nat -> (forall mo, m = Some mo -> fresh (length (blog b0)) n' (metadataKey mo)) ->
     triple (at_least b0 n') (f m) Q) ->
  (forall n' e b, at_least b0 n' b -> Q (Err e) b) ->
  triple (at_least b0 n) (metadata_object key meta ≫= f) Q.
Proof.
  intros Hf He. unfold metadata_object. destruct meta as [text|]; [|by apply (Hf None n)].
  intros b Hb. destruct (spares_draw b0 n b Hb) as (n' & Hn & Hk & Hb'). rewrite !M_bind_unfold.
  destruct (generation_key b) as [[mkey|] b1] eqn:Hg; [|done].
  injection Hg as <- <-.
  destruct (String.eqb _ key); [by apply (He n')|]. rewrite M_bind_unfold. unfold of_some.
  destruct (NewMetadataObject _ _ _) as [mo|] eqn:Hmo; [|by apply (He n')]. apply (Hf (Some mo) n' Hn); [|done].
  intros mo' [= <-]. unfold NewMetadataObject in Hmo.
  destruct (negb _); [done|]. destruct (NewContentIdentity _ _); [|done]. by injection Hmo as <-.
Qed.

(** A write touches only what it drew. *)
Lemma write_spares id plain meta b :
  let '(r, b') := WriteGeneration id plain meta b in spares b b' /\ generation_fresh b b' r.
Proof.
  enough (triple (at_least b 0) (WriteGeneration id plain meta) (fun r b' => spares b b' /\ generation_fresh b b' r)) as Ht.
  { specialize (Ht b (conj (spares_refl b) (Nat.le_0_l _))). by destruct (WriteGeneration id plain meta b). }
  assert (forall n e b', at_least b n b' -> spares b b' /\ generation_fresh b b' (Err e)) as Herr by (by intros n e b' []).
  unfold WriteGeneration. destruct (String.eqb id nilUUID); [by intros b' []|].
  apply triple_keeps; [apply spares_random|intros drawn_key|eauto].
  apply triple_keeps; [apply spares_of_some|intros dek|eauto].
  apply triple_keeps; [apply spares_random|intros nonce|eauto].
  apply triple_keeps; [destruct meta; [apply keeps_bind; [apply spares_random|intros; apply keeps_ret]|apply keeps_ret]|intros sealed|eauto].
  apply triple_keeps; [apply spares_random|intros entropy|eauto].
  apply triple_keeps; [apply spares_key|intros [wrapped version]|eauto].
  apply triple_draw. intros key n1 _ Hkey. apply triple_some; [|eauto].
  intros d (-> & _)%new_descriptor_inv. apply triple_metadata; [|eauto]. intros m n2 Hn Hm.
  assert (fresh (length (blog b)) n2 key) as Hkey2 by (by eapply fresh_mono).
  apply triple_keeps; [|intros _|eauto].
  { apply spares_change with key; [by eapply fresh_new|]. intros o k' Hne. by rewrite lookup_insert_ne. }
  apply triple_keeps; [by apply spares_put_metadata|intros _|eauto].
  intros b' [Hsp Hlen]. split; [done|]. cbn. split; [by eapply fresh_mono|]. intros mo Hmo. eapply fresh_mono; [|by apply Hm]. done.
Qed.
End bucket.

(** ** What holds of the table and the bucket *)
Definition names (r : Row) (k : string) : Prop := BlobKey r = k \/ PublishMetadataKey r = Some k.
Definition refs (d : Db) (id k : string) : Prop := exists r, rows d !! id = Some r /\ names r k.
Definition backed (s : Db * Objects) : Prop := forall id k, refs s.1 id k -> is_Some ((s.2 : Bucket) !! k).
Definition same_source (r r' : Row) : Prop := OwnerID r = OwnerID r' /\ LocalID r = LocalID r'.
(** An object belongs to one row, in one role; a session has one row. *)
Record tidy (d : Db) : Prop := {
  tidy_sole : forall id id' k, refs d id k -> refs d id' k -> id = id';
  tidy_apart : forall id r, rows d !! id = Some r -> PublishMetadataKey r <> Some (BlobKey r);
  tidy_source : forall id id' r r', rows d !! id = Some r -> rows d !! id' = Some r' -> same_source r r' -> id = id'
}.

(** What this process has read. *)
Definition known (l : list Event) (id : string) : Prop := EvProbe id ∈ l \/ exists r, EvRead id r ∈ l.
Definition shown (l : list Event) (r : Row) : Prop :=
  (exists id, EvRead id r ∈ l) \/ exists n m id, EvTx n m ∈ l /\ (m : gmap string Row) !! id = Some r.
Definition seen (l : list Event) (k : string) : Prop := exists r, shown l r /\ names r k.

(** What every writer promises: to leave the table and the bucket in order; to
    make a row name only objects of its own, which are neither this process's nor
    any this process saw a row name before; not to touch the objects of this
    process that no row names; and not to reuse an identifier or to move a row to
    another session. Object names do not repeat. *)
Record considerate : Prop := {
  others_sound : forall l d o, backed (d, o) -> tidy d -> backed (others l (d, o)) /\ tidy (others l (d, o)).1;
  others_refs : forall l d o id k, refs (others l (d, o)).1 id k -> refs d id k \/ ~ mine k /\ ~ seen l k;
  others_mine : forall l d o k, mine k -> (forall id, ~ refs d id k) ->
    ((others l (d, o)).2 : Bucket) !! k = (o : Bucket) !! k;
  others_known : forall l d o id r', known l id -> rows (others l (d, o)).1 !! id = Some r' ->
    exists r, rows d !! id = Some r /\ same_source r' r;
  bucket_keeps : others_keep;
  draws_differ : forall l l', random_uuid l = random_uuid l' -> length l = length l'
}.
Context (Hc : considerate).

Record sound (w : World) : Prop := {
  sound_backed : backed (db w, objects (blob w));
  sound_tidy : tidy (db w);
  sound_mine : forall id k, refs (db w) id k -> mine k -> drawn (length (blog (blob w))) k;
  sound_past : Forall backed (past w)
}.

(** From one world to a later one: the log and the draws grow, no row comes to
    name an object of this process or one it saw, and what it knows of a row
    stays. *)
Record calm (w w' : World) : Prop := {
  calm_log : forall e, e ∈ log w -> e ∈ log w';
  calm_blog : (length (blog (blob w)) <= length (blog (blob w')))%nat;
  calm_refs : forall id k, refs (db w') id k -> refs (db w) id k \/ ~ mine k /\ ~ seen (log w) k;
  calm_known : forall id r', known (log w) id -> rows (db w') !! id = Some r' ->
    exists r, rows (db w) !! id = Some r /\ same_source r' r;
  calm_past : forall s, s ∈ past w -> s ∈ past w'
}.
(** The process's own objects that no row names are left alone. *)
Definition unnamed (d : Db) (k : string) : Prop := forall id, ~ refs d id k.
Definition holds (w w' : World) : Prop := forall k x, drawn (length (blog (blob w))) k -> unnamed (db w) k ->
  (objects (blob w) : Bucket) !! k = Some x -> (objects (blob w') : Bucket) !! k = Some x.

Lemma same_source_trans r r' r'' : same_source r r' -> same_source r' r'' -> same_source r r''.
Proof. unfold same_source. intuition congruence. Qed.
Lemma seen_mono l l' k : (forall e, e ∈ l -> e ∈ l') -> seen l k -> seen l' k.
Proof.
  intros Hl (r & Hr & Hk). exists r. split; [|done].
  destruct Hr as [[id ?]|(n & m & id & ? & ?)]; [left; exists id|right; exists n, m, id]; auto.
Qed.
Lemma known_mono l l' id : (forall e, e ∈ l -> e ∈ l') -> known l id -> known l' id.
Proof. intros Hl [?|[r ?]]; [left|right; exists r]; auto. Qed.

Lemma calm_refl w : calm w w.
Proof. split; auto. intros id r' _ Hr. by exists r'. Qed.
Lemma calm_trans w1 w2 w3 : calm w1 w2 -> calm w2 w3 -> calm w1 w3.
Proof.
  intros [Hl1 Hb1 Hr1 Hk1 Hp1] [Hl2 Hb2 Hr2 Hk2 Hp2]. split; [auto|lia| | |auto].
  - intros id k [Hr|[Hm Hs]]%Hr2; [by apply Hr1|]. right. split; [done|]. intros Hs1. apply Hs. by eapply seen_mono.
  - intros id r'' Hk (r' & Hr' & Hs)%Hk2; [|by eapply known_mono]. apply Hk1 in Hr' as (r & Hr & Hs'); [|done].
    exists r. split; [done|]. by eapply same_source_trans.
Qed.

Lemma calm_unnamed w w' k : calm w w' -> mine k \/ seen (log w) k -> unnamed (db w) k -> unnamed (db w') k.
Proof. intros Hw Hk Hu id [Hr|[Hm Hs]]%(calm_refs _ _ Hw); [by apply (Hu id)|]. destruct Hk; auto. Qed.
Lemma holds_trans w1 w2 w3 : calm w1 w2 -> holds w1 w2 -> holds w2 w3 -> holds w1 w3.
Proof.
  intros Hcalm Hh1 Hh2 k x Hd Hu Hx. apply Hh2; [by eapply drawn_mono, Hd; apply calm_blog| |by apply Hh1].
  eapply calm_unnamed; [done|left; by eapply drawn_mine|done].
Qed.

(** The three together, along a run. *)
Definition goes (w w' : World) : Prop := sound w' /\ calm w w' /\ holds w w'.
Lemma goes_refl w : sound w -> goes w w.
Proof. intros Hw. split_and!; [done|apply calm_refl|by intros k x]. Qed.
Lemma goes_trans w1 w2 w3 : goes w1 w2 -> goes w2 w3 -> goes w1 w3.
Proof.
  intros (S1 & C1 & Hh1) (S2 & C2 & Hh2). split_and!; [done|by eapply calm_trans|by eapply holds_trans].
Qed.

(** ** Steps *)
Lemma meanwhile_goes w : sound w -> goes w (meanwhile w).
Proof.
  intros [Hb Ht Hm Hp]. unfold meanwhile. destruct (others (log w) (db w, objects (blob w))) as [d o] eqn:Ho.
  pose proof (others_sound Hc (log w) _ _ Hb Ht) as [Hb' Ht']. pose proof (others_refs Hc (log w) (db w) (objects (blob w))) as Hr'.
  pose proof (others_mine Hc (log w) (db w) (objects (blob w))) as Hm'.
  pose proof (others_known Hc (log w) (db w) (objects (blob w))) as Hk'. rewrite Ho in Hb', Ht', Hr', Hm', Hk'. cbn in *.
  split_and!; [split; cbn; [done|done| |]|split; cbn; auto; intros s Hs; apply elem_of_app; by left|].
  - intros id k [Hr|[]]%Hr' Hmine; [by eapply Hm|done].
  - apply Forall_app. split; [done|by constructor].
  - intros k x Hd Hu Hx. cbn. rewrite Hm'; [done|by eapply drawn_mine|done].
Qed.

Definition noted (e : Event) (w : World) : World := mkWorld (db w) (blob w) (log w ++ [e]) (past w).
Lemma note_goes e w : sound w -> goes w (noted e w).
Proof.
  intros [Hb Ht Hm Hp]. split_and!; [by split| |by intros k x]. split; cbn; auto.
  - intros e' He. apply elem_of_app. by left.
  - intros id r' _ Hr. by exists r'.
Qed.

Lemma append_inj_l (s a b : string) : a +:+ s = b +:+ s -> a = b.
Proof.
  intros Heq%(f_equal srev). rewrite !srev_app in Heq. apply (inj (String.append (srev s))) in Heq.
  by rewrite <- (srev_involutive a), Heq, srev_involutive.
Qed.

(** The same tables, and a bucket that still has what the rows name. *)
Lemma bucket_step e b w : sound w -> (length (blog (blob w)) <= length (blog b))%nat ->
  (forall id k x, refs (db w) id k -> (objects (blob w) : Bucket) !! k = Some x -> (objects b : Bucket) !! k = Some x) ->
  sound (after e (db w) b w) /\ calm w (after e (db w) b w).
Proof.
  intros [Hb Ht Hm Hp] Hlen Hk. assert (backed (db w, objects b)) as Hb'.
  { intros id k Hr. destruct (Hb id k Hr) as [x Hx]. exists x. by eapply Hk. }
  split; [split; cbn; [done|done| |]|split; cbn; auto].
  - intros id k Hr Hmine. eapply drawn_mono; [done|by eapply Hm].
  - apply Forall_app. split; [done|by constructor].
  - intros e' He. apply elem_of_app. by left.
  - intros id r' _ Hr. by exists r'.
  - intros s Hs. apply elem_of_app. by left.
Qed.

(** [k] was not drawn after [w]. *)
Definition aged (k : string) (w : World) : Prop := mine k -> drawn (length (blog (blob w))) k.
Lemma aged_calm k w w' : calm w w' -> aged k w -> aged k w'.
Proof. intros Hw Ha Hm. eapply drawn_mono; [apply (calm_blog _ _ Hw)|by apply Ha]. Qed.
Lemma refs_aged id k w : sound w -> refs (db w) id k -> aged k w.
Proof. intros Hw Hr Hm. by eapply sound_mine. Qed.

Lemma old_key w k : (mine k -> drawn (length (blog (blob w))) k) ->
  forall l, (length (blog (blob w)) <= length l)%nat -> k <> key_of (random_uuid l).
Proof.
  intros Hd l Hl ->. destruct Hd as (l' & Hl' & Heq); [by exists l|]. unfold key_of in Heq. simplify_eq.
  assert (random_uuid l = random_uuid l') as ?%(draws_differ Hc) by (by eapply append_inj_l). lia.
Qed.

Lemma spared_goes e b w : sound w -> spares (blob w) b -> goes w (after e (db w) b w).
Proof.
  intros Hw [Hlen Hsp]. destruct (bucket_step e b w Hw Hlen) as [Hs Hcalm].
  { intros id k x Hr Hx. apply Hsp; [done|]. apply old_key. by eapply sound_mine. }
  split_and!; [done..|]. intros k x Hd _ Hx. cbn. apply Hsp; [done|]. by apply old_key.
Qed.

Definition candidate (k : string) (w : World) : Prop :=
  drawn (length (blog (blob w))) k /\ unnamed (db w) k /\ is_Some ((objects (blob w) : Bucket) !! k).
(** Only row [id], if any, names [k]; no row does. *)
Definition only (id k : string) (w : World) : Prop := seen (log w) k /\ forall id', refs (db w) id' k -> id' = id.
Definition dropped (k : string) (w : World) : Prop := (mine k \/ seen (log w) k) /\ unnamed (db w) k.
(** [id] is the session's row, if it is there. *)
Definition session (owner : Z) (localID id : string) (w : World) : Prop :=
  known (log w) id /\ forall r, rows (db w) !! id = Some r -> OwnerID r = owner /\ LocalID r = localID.

Lemma candidate_goes k w w' : goes w w' -> candidate k w -> candidate k w'.
Proof.
  intros (_ & Hw & Hh) (Hd & Hu & [x Hx]). split_and!; [by eapply drawn_mono, Hd; apply calm_blog| |].
  - eapply calm_unnamed; [done|left; by eapply drawn_mine|done].
  - exists x. by apply Hh.
Qed.
Lemma dropped_calm k w w' : calm w w' -> dropped k w -> dropped k w'.
Proof.
  intros Hw [Hk Hu]. split; [|by eapply calm_unnamed]. destruct Hk as [?|Hk]; [by left|right].
  eapply seen_mono; [apply (calm_log _ _ Hw)|done].
Qed.
Lemma only_calm id k w w' : calm w w' -> only id k w -> only id k w'.
Proof.
  intros Hw [Hk Ho]. split; [eapply seen_mono; [apply (calm_log _ _ Hw)|done]|].
  intros id' [Hr|[_ Hs]]%(calm_refs _ _ Hw); [by apply Ho|done].
Qed.
Lemma session_calm owner localID id w w' : calm w w' -> session owner localID id w -> session owner localID id w'.
Proof.
  intros Hw [Hk Hs]. split; [eapply known_mono; [apply (calm_log _ _ Hw)|done]|].
  intros r' (r & Hr & -> & ->)%(calm_known _ _ Hw); [by apply Hs|done].
Qed.

Lemma ask_goes {E A} (e : A -> Event) f w (r : result TxError A) w' :
  sound w -> (ask e f : M World E _) w = (Ok r, w') ->
  goes w w' /\ match r with Ok a => f (db w') = Ok a /\ e a ∈ log w' /\ (db w', objects (blob w')) ∈ past w' | Err _ => True end.
Proof.
  intros Hw Hrun. unfold ask in Hrun. pose proof (meanwhile_goes w Hw) as Hm. set (w1 := meanwhile w) in *.
  assert (forall e, goes w (after e (db w1) (blob w1) w1)) as Hafter.
  { intros e'. eapply goes_trans; [done|]. apply spared_goes; [by apply Hm|apply spares_refl]. }
  destruct (if answered (log w1) then f (db w1) else Err TxFailed) as [a|x] eqn:Hf; injection Hrun as <- <-; [|done].
  split; [done|]. split_and!; [by destruct (answered (log w1))|cbn; apply elem_of_app; right; by left|cbn; apply elem_of_app; right; by left].
Qed.

(** An operation of the store that is none of a removal's. *)
Lemma stored_goes {E A} (m : M BlobWorld BlobError A) w (r : result BlobError A) w' :
  sound w -> (forall b, let '(_, b') := m b in spares b b') -> (stored m : M World E _) w = (Ok r, w') ->
  goes w w' /\ exists w1, goes w w1 /\ m (blob w1) = (r, blob w') /\ db w' = db w1.
Proof.
  intros Hw Hsp Hrun. unfold stored in Hrun. pose proof (meanwhile_goes w Hw) as Hm. set (w1 := meanwhile w) in *.
  specialize (Hsp (blob w1)). destruct (m (blob w1)) as [r' b] eqn:Hr. injection Hrun as <- <-. split; [|by exists w1].
  eapply goes_trans; [done|]. apply spared_goes; [by apply Hm|done].
Qed.

Lemma at_least_spares {A} (m : M BlobWorld BlobError A) :
  (forall b0 n, keeps (at_least b0 n) m) -> forall b, let '(_, b') := m b in spares b b'.
Proof.
  intros Hk b. specialize (Hk b 0%nat b (conj (spares_refl b) (Nat.le_0_l _))). destruct (m b). by destruct Hk.
Qed.

Context (Hlength : forall l k, random_key l = Some k -> blen k = 32) `{!CryptoLaws, !CustodianLaws}.

(** A written generation is a candidate, at keys no older than the write. *)
Definition newer_key (w : World) (k : string) : Prop := forall k', aged k' w -> k' <> k.
Definition generation (d : BlobDescriptor) (m : option MetadataObject) (k : string) : Prop :=
  k = objectKey d \/ exists mo, m = Some mo /\ k = metadataKey mo.
Lemma write_goes {E} id plain meta w (r : result BlobError _) w' :
  sound w -> (stored (WriteGeneration id plain meta) : M World E _) w = (Ok r, w') ->
  goes w w' /\ match r with
    | Ok (d, i, m) => written id plain meta d i m (objects (blob w')) /\
        NewBlobDescriptor (objectKey d) (wrappedDEK d) (algorithm d) (keyVersion d) = Some d /\
        forall k, generation d m k -> candidate k w' /\ newer_key w k
    | Err _ => True
    end.
Proof.
  intros Hw Hrun. apply stored_goes in Hrun as [Hgo (w1 & Hgo1 & Hm & Hdb)]; [|done|].
  2:{ intros b. pose proof (write_spares (bucket_keeps Hc) id plain meta b). destruct (WriteGeneration id plain meta b). naive_solver. }
  split; [done|]. destruct r as [[[d i] m]|e]; [|done].
  pose proof (write_ok Hlength _ _ _ _ _ _ _ _ (bucket_keeps Hc) Hm) as Hwr.
  split; [done|]. split; [by eapply write_descriptor|].
  pose proof (write_spares (bucket_keeps Hc) id plain meta (blob w1)) as Hsp. rewrite Hm in Hsp. destruct Hsp as [_ [Hd Hmo]].
  assert (forall k, fresh (length (blog (blob w1))) (length (blog (blob w'))) k -> is_Some ((objects (blob w') : Bucket) !! k) ->
    candidate k w' /\ newer_key w k) as Hcand.
  { intros k Hk Hx. split; [split_and!; [by eapply fresh_drawn| |done]|].
    - rewrite Hdb. intros id' Hr. destruct Hk as (l & Hl & ->). eapply (old_key w1 _); [|apply Hl|reflexivity].
      intros Hmine. eapply sound_mine; [apply Hgo1|done|done].
    - intros k' Hk'. destruct Hk as (l & Hl & ->). eapply (old_key w); [done|].
      etrans; [|apply Hl]. apply calm_blog, Hgo1. }
  destruct Hwr as (_ & _ & Hm' & dek & _ & _ & [n Hb] & Hmd). intros k [->|(mo & -> & ->)]; [apply Hcand; eauto|].
  apply Hcand; [by apply Hmo|]. destruct meta as [text|]; [|done]. destruct (Hmd text mo eq_refl eq_refl) as [n' Hx]. eauto.
Qed.

(** ** Removal *)
Definition removes (k : string) (m : M BlobWorld BlobError unit) : Prop := forall b,
  (length (blog b) <= length (blog (m b).2))%nat /\
  forall k' x, k' <> k -> (objects b : Bucket) !! k' = Some x -> (objects (m b).2 : Bucket) !! k' = Some x.

Lemma remove_removes k : removes k (Remove k).
Proof.
  intros b. unfold Remove, change. assert (forall k' x, k' <> k -> (objects b : Bucket) !! k' = Some x ->
    (elsewhere (blog b) (objects b) : Bucket) !! k' = Some x) as Hels by (intros k' x _; apply (bucket_keeps Hc)).
  destruct (served (blog b)) as [|[]]; cbn; (split; [rewrite length_app; lia|]); intros k' x Hne Hx;
    rewrite ?lookup_delete_ne by done; by apply (Hels k').
Qed.
Lemma delete_removes d : removes (objectKey d) (Delete d).
Proof. apply remove_removes. Qed.
Lemma delete_metadata_removes m : removes (metadataKey m) (DeleteMetadata m).
Proof. unfold DeleteMetadata. destruct (negb _); [by intros b|apply remove_removes]. Qed.

Definition stays (w w' : World) : Prop := sound w' /\ calm w w'.
Lemma stays_trans w1 w2 w3 : stays w1 w2 -> stays w2 w3 -> stays w1 w3.
Proof. intros [_ C1] [S2 C2]. split; [done|by eapply calm_trans]. Qed.
Lemma goes_stays w w' : goes w w' -> stays w w'.
Proof. intros (? & ? & ?). by split. Qed.

Lemma cleanup_stays {E} k m w (kept : bool) w' :
  sound w -> dropped k w -> removes k m -> (deleteForCleanup k m : M World E bool) w = (Ok kept, w') -> stays w w'.
Proof.
  intros Hw Hd Hr Hrun. apply bind_ok_inv in Hrun as (r & w2 & Hs & Hret). unfold stored in Hs.
  pose proof (meanwhile_goes w Hw) as Hm. set (w1 := meanwhile w) in *. specialize (Hr (blob w1)).
  destruct (m (blob w1)) as [r' b]. injection Hs as <- <-. cbn in Hr. destruct Hr as [Hlen Hk].
  assert (stays w1 (after EvObject (db w1) b w1)) as Hst.
  { apply bucket_step; [apply Hm|done|]. intros id k' x Href. apply Hk. intros ->.
    by eapply (dropped_calm _ _ w1 (proj1 (proj2 Hm))). }
  assert (stays w (after EvObject (db w1) b w1)) as Hst' by (by eapply stays_trans; [apply goes_stays|]).
  destruct r' as [?|e]; [by injection Hret as _ <-|]. injection Hret as _ <-.
  eapply stays_trans; [done|]. apply goes_stays, note_goes, Hst'.
Qed.

Lemma generation_cleanup_stays {E} d m w (kept : option string) w' :
  sound w -> dropped (objectKey d) w -> (forall mo, m = Some mo -> dropped (metadataKey mo) w) ->
  (deleteGenerationForCleanup d m : M World E _) w = (Ok kept, w') -> stays w w'.
Proof.
  intros Hw Hd Hm (k1 & w1 & Hr1 & Hrun)%bind_ok_inv. apply cleanup_stays in Hr1; [|done|done|apply delete_removes].
  apply bind_ok_inv in Hrun as (k2 & w2 & Hr2 & Hret). injection Hret as _ <-. destruct m as [m|]; [|by injection Hr2 as _ <-].
  apply cleanup_stays in Hr2; [by eapply stays_trans|by destruct Hr1| |apply delete_metadata_removes].
  eapply dropped_calm; [by destruct Hr1|by apply Hm].
Qed.
End laws.
End GenerationLaws.
