(* ===== verification/PublishLaws.v ===== *)
(** * Publishing, rewriting and deleting keep every stored generation

    What a transaction may do to the table ([kept], [installed]), which of the
    two each body of [Publish] does, and what follows for the handlers over
    [GenerationLaws]. *)
From S2P Require Import Prelude GoText Regex RepoName Digest Governance BlobStore BlobLaws PublishStore Publish PublishBodies GenerationLaws.

Open Scope string_scope.
Open Scope list_scope.
Open Scope Z_scope.

Module PublishLaws.
Import Governance BlobStore BlobLaws PublishStore Publish PublishBodies GenerationLaws.

Section laws.
Context `{Crypto, BlobEnv, KeyCustodian, Env, UnicodeTables, Schema}.

(** ** Tables *)
Definition row_keeps (r r' : Row) : Prop :=
  BlobKey r' = BlobKey r /\ PublishMetadataKey r' = PublishMetadataKey r /\ same_source r r'.
(** Rows may go, and none changes what it names. *)
Definition kept (d d' : Db) : Prop := forall id r', rows d' !! id = Some r' ->
  exists r, rows d !! id = Some r /\ row_keeps r r'.
(** Row [id] may come to name objects of [K], or come to be. *)
Record installed (id : string) (K : string -> Prop) (d d' : Db) : Prop := {
  installed_others : forall id' r', id' <> id -> rows d' !! id' = Some r' ->
    exists r, rows d !! id' = Some r /\ row_keeps r r';
  installed_names : forall k, refs d' id k -> K k \/ refs d id k;
  installed_apart : forall r', rows d' !! id = Some r' -> PublishMetadataKey r' <> Some (BlobKey r');
  installed_source : forall r', rows d' !! id = Some r' ->
    (exists r, rows d !! id = Some r /\ same_source r r') \/
    (rows d !! id = None /\ forall id2 r2, rows d !! id2 = Some r2 -> ~ same_source r2 r')
}.

Lemma row_keeps_refl r : row_keeps r r.
Proof. done. Qed.
Lemma row_keeps_trans r1 r2 r3 : row_keeps r1 r2 -> row_keeps r2 r3 -> row_keeps r1 r3.
Proof. unfold row_keeps, same_source. intuition congruence. Qed.
Lemma kept_refl d : kept d d.
Proof. intros id r. eauto using row_keeps_refl. Qed.
Lemma kept_trans d1 d2 d3 : kept d1 d2 -> kept d2 d3 -> kept d1 d3.
Proof.
  intros Hk1 Hk2 id r3 (r2 & Hr2 & K2)%Hk2. apply Hk1 in Hr2 as (r1 & Hr1 & K1). eauto using row_keeps_trans.
Qed.
Lemma row_keeps_names r r' k : row_keeps r r' -> names r' k -> names r k.
Proof. unfold row_keeps, names. intros (-> & -> & _). done. Qed.
Lemma kept_refs d d' id k : kept d d' -> refs d' id k -> refs d id k.
Proof. intros Hk (r' & Hr' & Hn). destruct (Hk _ _ Hr') as (r & Hr & Hs). exists r. eauto using row_keeps_names. Qed.

Lemma kept_same_rows d d' : rows d' = rows d -> kept d d'.
Proof. intros Heq id r'. rewrite Heq. eauto using row_keeps_refl. Qed.
Lemma kept_insert d id r r' : rows d !! id = Some r -> row_keeps r r' -> kept d (set_rows (<[id := r']> (rows d)) d).
Proof.
  intros Hr Hk id' x. cbn. destruct (decide (id' = id)) as [->|Hne]; [rewrite lookup_insert_eq|rewrite lookup_insert_ne by done].
  - intros [= <-]. eauto.
  - eauto using row_keeps_refl.
Qed.

Lemma installed_refl id K d : tidy d -> installed id K d d.
Proof.
  intros Ht. split; eauto using row_keeps_refl; [by apply Ht|]. intros r' Hr. left. by exists r'.
Qed.
Lemma installed_kept id K d1 d2 d3 : installed id K d1 d2 -> kept d2 d3 -> installed id K d1 d3.
Proof.
  intros [Ho Hn Ha Hs] Hk. split.
  - intros id' r3 Hne (r2 & Hr2 & K2)%Hk. apply Ho in Hr2 as (r1 & Hr1 & K1); [|done]. eauto using row_keeps_trans.
  - intros k Hr%(kept_refs _ _ _ _ Hk). by apply Hn.
  - intros r3 (r2 & Hr2 & (-> & -> & _))%Hk. by apply Ha.
  - intros r3 (r2 & Hr2 & (_ & _ & Hsame))%Hk. destruct (Hs r2 Hr2) as [(r1 & Hr1 & Hs1)|[Hnone Hnew]].
    + left. exists r1. split; [done|]. by eapply same_source_trans.
    + right. split; [done|]. intros id2 r0 Hr0 Hs0. apply (Hnew id2 r0 Hr0). eapply same_source_trans; [done|].
      by destruct Hsame; split.
Qed.
Lemma kept_installed id K d d' : tidy d -> kept d d' -> installed id K d d'.
Proof. intros Ht. apply installed_kept. by apply installed_refl. Qed.

Lemma same_source_sym r r' : same_source r r' -> same_source r' r.
Proof. intros []. by split. Qed.
Definition one_source (d : Db) : Prop := forall id id' r r',
  rows d !! id = Some r -> rows d !! id' = Some r' -> same_source r r' -> id = id'.
Lemma installed_one_source id K d d' : one_source d -> installed id K d d' -> one_source d'.
Proof.
  intros Hone [Ho _ _ Hs].
  assert (forall id2 r r2, id2 <> id -> rows d' !! id = Some r -> rows d' !! id2 = Some r2 -> ~ same_source r2 r) as Hne.
  { intros id2 r r2 Hne Hr Hr2 Hsame. destruct (Ho _ _ Hne Hr2) as (r2' & Hr2' & (_ & _ & Hs2)).
    pose proof (same_source_trans _ _ _ Hs2 Hsame) as Hs3. destruct (Hs r Hr) as [(r' & Hr' & Hs')|[_ Hnew]].
    - apply Hne. eapply Hone; [done..|]. by eapply same_source_trans, same_source_sym.
    - by apply (Hnew id2 r2'). }
  intros id1 id2 r1 r2 Hr1 Hr2 Hsame. destruct (decide (id1 = id)) as [->|Hne1], (decide (id2 = id)) as [->|Hne2]; [done| | |].
  - destruct (Hne id2 r1 r2); [done..|]. by apply same_source_sym.
  - by destruct (Hne id1 r2 r1).
  - destruct (Ho _ _ Hne1 Hr1) as (r1' & Hr1' & (_ & _ & Hs1)). destruct (Ho _ _ Hne2 Hr2) as (r2' & Hr2' & (_ & _ & Hs2)).
    eapply Hone; [done..|]. eapply same_source_trans; [done|]. eapply same_source_trans; [done|]. by apply same_source_sym.
Qed.

(** ** What a transaction does to a run *)
Context (Hc : considerate).

Lemma committed_log n d w e : e ∈ log w -> e ∈ log (committed n d w).
Proof. intros He. apply elem_of_app. by left. Qed.
Lemma backed_after n d w : Forall backed (past w) -> backed (d, objects (blob w)) -> Forall backed (past (committed n d w)).
Proof. intros Hp Hb. apply Forall_app. split; [done|by constructor]. Qed.

Lemma kept_goes n d w : sound w -> kept (db w) d -> goes w (committed n d w).
Proof.
  intros [Hb [Hsole Hapart Hsrc] Hm Hp] Hk. assert (backed (d, objects (blob w))) as Hb'.
  { intros id k Hr%(kept_refs _ _ _ _ Hk). by apply (Hb id). }
  split_and!; [split; cbn; [done| | |by apply (backed_after n)]|split; cbn; [intros e He; apply elem_of_app; by left|done| | |intros s Hs; apply elem_of_app; by left]|].
  - split.
    + intros id id' k Hr Hr'. apply Hsole with k; by eapply kept_refs.
    + intros id r' (r & Hr & -> & -> & _)%Hk. by eapply Hapart.
    + intros id id' r r' (r0 & Hr & (_ & _ & Hs))%Hk (r0' & Hr' & (_ & _ & Hs'))%Hk Hsame. eapply Hsrc; [done..|].
      eapply same_source_trans; [done|]. eapply same_source_trans; [done|]. by destruct Hs'; split.
  - intros id k Hr%(kept_refs _ _ _ _ Hk). by apply (Hm id).
  - intros id k Hr%(kept_refs _ _ _ _ Hk). by left.
  - intros id r' _ (r & Hr & (_ & _ & [Ho Hl]))%Hk. exists r. split; [done|]. by split.
  - by intros k x _ _ Hx.
Qed.

(** The objects the row now names are there, and are no one else's. *)
Lemma installed_sound n id K d w : sound w -> (forall k, K k -> candidate k w) -> installed id K (db w) d ->
  sound (committed n d w).
Proof.
  intros [Hb [Hsole Hapart Hsrc] Hm Hp] HK [Ho Hn Ha Hs].
  assert (forall id' k, id' <> id -> refs d id' k -> refs (db w) id' k) as Hother.
  { intros id' k Hne (r' & Hr' & Hk). destruct (Ho _ _ Hne Hr') as (r & Hr & Hkeep). exists r. eauto using row_keeps_names. }
  assert (backed (d, objects (blob w))) as Hb'.
  { intros id' k Hr. destruct (decide (id' = id)) as [->|Hne]; [|eapply Hb, Hother; done].
    destruct (Hn _ Hr) as [Hk|Hk]; [apply (HK _ Hk)|by eapply Hb]. }
  assert (forall id' k, id' <> id -> refs d id' k -> refs d id k -> False) as Hone.
  { intros id' k Hne Hr' Hr. apply Hother in Hr'; [|done]. destruct (Hn _ Hr) as [Hk|Hk]; [by apply (HK _ Hk) in Hr'|].
    by apply Hne, (Hsole id' id k). }
  split; cbn; [done| | |by apply (backed_after n)].
  - split.
    + intros id1 id2 k Hr1 Hr2. destruct (decide (id1 = id)) as [->|Hne1], (decide (id2 = id)) as [->|Hne2]; [done| | |].
      * by destruct (Hone id2 k).
      * by destruct (Hone id1 k).
      * apply Hsole with k; by apply Hother.
    + intros id' r' Hr'. destruct (decide (id' = id)) as [->|Hne]; [by apply Ha|].
      destruct (Ho _ _ Hne Hr') as (r & Hr & -> & -> & _). by eapply Hapart.
    + apply (installed_one_source id K (db w) d); [done|]. by split.
  - intros id' k Hr Hmine. destruct (decide (id' = id)) as [->|Hne]; [|eapply Hm, Hmine; by eapply Hother].
    destruct (Hn _ Hr) as [Hk|Hk]; [apply (HK _ Hk)|by eapply Hm].
Qed.

(** ** Bodies *)
Lemma allowed_apart r : row_allowed r = true -> PublishMetadataKey r <> Some (BlobKey r).
Proof.
  unfold row_allowed, metadata_allowed. intros [_ Hr]%andb_prop Hkey. rewrite Hkey in Hr.
  destruct (PublishMetadataHash r); [|done]. destruct (PublishMetadataSize r); [|done].
  apply andb_prop in Hr as [[[_ Hr]%andb_prop _]%andb_prop _]. by rewrite String.eqb_refl in Hr.
Qed.
Lemma finished_names req m r k : names (finished req m r) k -> k = BlobKey r \/ exists mo, m = Some mo /\ k = metadataKey mo.
Proof.
  unfold finished, names. destruct m as [mo|], (Fingerprint req); cbn; intros [<-|Hk]; simplify_eq; eauto.
Qed.
Lemma finished_source req m r : same_source r (finished req m r).
Proof. unfold finished. destruct m, (Fingerprint req); done. Qed.

Lemma row_installed id (K : string -> Prop) d d' r' : tidy d -> rows d' = <[id := r']> (rows d) -> row_allowed r' = true ->
  (forall k, names r' k -> K k \/ refs d id k) ->
  (exists r, rows d !! id = Some r /\ same_source r r') \/
    (rows d !! id = None /\ forall id2 r2, rows d !! id2 = Some r2 -> ~ same_source r2 r') ->
  installed id K d d'.
Proof.
  intros Ht Hd Hok Hn Hs. split; rewrite ?Hd.
  - intros id' r Hne. rewrite lookup_insert_ne by done. eauto using row_keeps_refl.
  - intros k (r & Hr & Hk). rewrite Hd, lookup_insert_eq in Hr. injection Hr as <-. by apply Hn.
  - intros r. rewrite lookup_insert_eq. intros [= <-]. by apply allowed_apart.
  - intros r. rewrite lookup_insert_eq. by intros [= <-].
Qed.
Lemma row_refs id d d' r' k : rows d' = <[id := r']> (rows d) -> refs d' id k -> names r' k.
Proof. intros Hd (r & Hr & Hk). rewrite Hd, lookup_insert_eq in Hr. by injection Hr as <-. Qed.

Definition strictly (id : string) (K : string -> Prop) (d d' : Db) : Prop :=
  installed id K d d' /\ forall k, refs d' id k -> K k.

Lemma create_installed owner id req cand i m d x d' : tidy d ->
  carries (create_tx owner id req (transcriptParams owner req cand i) m) d x d' -> strictly id (generation cand m) d d'.
Proof.
  intros Ht (Hnone & Hsrc & Hrows & Hok & _)%create_carries.
  assert (forall k, names (finished req m (created (transcriptParams owner req cand i))) k -> generation cand m k) as Hn.
  { by intros k Hk%finished_names. }
  split; [|intros k Hk; by eapply Hn, row_refs]. eapply row_installed; [done..|by left; apply Hn|]. right. split; [done|].
  intros id2 r2 Hr2 [Ho Hl]. eapply source_row_none; [done..| |].
  - rewrite Ho. unfold finished. by destruct (metadataObjectParams m) as [[]], (Fingerprint req).
  - rewrite Hl. unfold finished. by destruct (metadataObjectParams m) as [[]], (Fingerprint req).
Qed.

Lemma republish_installed owner id req cand i m from d x d' : tidy d ->
  (forall r, rows d !! id = Some r -> OwnerID r = owner /\ LocalID r = SessionID req) ->
  carries (republish_tx owner id req (transcriptParams owner req cand i) from m) d x d' ->
  x.1.1 = id /\ strictly id (generation cand m) d d'.
Proof.
  intros Ht Hsess (pre & tid & old & Hpre & Hsrc & Hrows & Hok & Hx & _)%republish_carries.
  apply source_row_some in Hsrc as (Hold & Ho & Hl). destruct (Hsess _ Hpre) as [Ho' Hl'].
  assert (tid = id) as -> by (eapply (tidy_source _ Ht); [done..|]; split; cbn in *; congruence).
  split; [by rewrite Hx|]. set (params := with_governance _ _ _ _ _) in *.
  assert (forall k, names (finished req m (republished params old)) k -> generation cand m k) as Hn.
  { by intros k Hk%finished_names. }
  split; [|intros k Hk; by eapply Hn, row_refs]. eapply row_installed; [done..|by left; apply Hn|]. left. exists old.
  split; [done|]. apply (finished_source req m (republished params old)).
Qed.

(** What a rewrite no longer names. *)
Lemma rewrite_installed id old new i oldMeta newMeta replaced legacy d x d' : tidy d ->
  (forall k, generation new newMeta k -> ~ generation old oldMeta k) ->
  carries (rewrite_tx id old new i oldMeta newMeta replaced legacy) d x d' ->
  installed id (generation new newMeta) d d' /\ forall k, generation old oldMeta k -> ~ refs d' id k.
Proof.
  intros Ht Hnew (r & Hr & Hold & Hmeta & Hrows & Hok)%rewrite_carries.
  assert (BlobKey r = objectKey old) as Hbody.
  { unfold row_holds in Hold. do 3 (apply andb_prop in Hold as [Hold _]). by apply String.eqb_eq. }
  assert (forall k, names (rewritten new i oldMeta newMeta r) k ->
    generation new newMeta k \/ oldMeta = None /\ PublishMetadataKey r = Some k) as Hn.
  { unfold rewritten, names. intros k. destruct oldMeta as [mo|]; cbn; [|intros [<-|?]; [by left; left|by right]].
    destruct newMeta as [mn|]; cbn; (intros [<-|Hk]; [by left; left|]); [|done]. injection Hk as <-. left. right. eauto. }
  split.
  - eapply row_installed; [done..| |left; exists r; split; [done|]; unfold rewritten; destruct oldMeta, newMeta; done].
    intros k [?|[_ Hk]]%Hn; [by left|right]. exists r. split; [done|by right].
  - intros k Hk Hr'. eapply row_refs, Hn in Hr' as [Hk'|[-> Hk']]; [by eapply Hnew| |done].
    destruct Hk as [->|(mo & ? & _)]; [|done]. apply (tidy_apart _ Ht id r Hr). by rewrite Hk', Hbody.
Qed.

Lemma seen_by_kept id v pre d : rows d !! id = Some pre -> kept d (set_rows (<[id := seen_by v pre]> (rows d)) d).
Proof. intros Hpre. by eapply kept_insert. Qed.
Lemma delete_kept owner id d x d' : carries (delete_tx owner id) d x d' -> kept d d'.
Proof.
  intros (_ & Hrows & _)%delete_carries id' r'. rewrite Hrows. intros [_ Hr]%lookup_delete_Some. eauto using row_keeps_refl.
Qed.

(** ** What is stored reads back *)

(** Row [id] describes a generation of the request's content and metadata that
    is in the bucket. *)
Definition stored_content (id : string) (req : PublishRequest) (s : Db * Objects) : Prop :=
  exists r d m, rows s.1 !! id = Some r /\ descriptorFromTranscript r = Some d /\
    identityFromTranscript r = Some (LoadedKnown (identity (Content req))) /\ metadataObjectFromTranscript r = Some m /\
    written id (Content req) (PublishMetadata req) d (identity (Content req)) m s.2.

(** The contract's hash of the content is the store's. *)
Definition declared (req : PublishRequest) : Prop :=
  authoritative req = true -> served_hash (Content req) = hash (identity (Content req)).
Context `{!CryptoLaws}.

Lemma finished_content id req owner cand m base d o : declared req ->
  NewBlobDescriptor (objectKey cand) (wrappedDEK cand) (algorithm cand) (keyVersion cand) = Some cand ->
  (let p := transcriptParams owner req cand (identity (Content req)) in
   BlobKey base = BlobKey p /\ WrappedDataKey base = WrappedDataKey p /\ EncryptionAlgorithm base = EncryptionAlgorithm p /\
   KeyVersion base = KeyVersion p /\ BlobSizeBytes base = BlobSizeBytes p /\ ContentHash base = ContentHash p) ->
  written id (Content req) (PublishMetadata req) cand (identity (Content req)) m o ->
  rows d !! id = Some (finished req m base) -> stored_content id req (d, o).
Proof.
  intros Hserved Hcand (Hk & Hw & Ha & Hv & Hs & Hh) Hwr Hrow. exists (finished req m base), cand, m. split; [done|].
  destruct (identity_valid (Content req)) as [Hid _].
  assert (NewContentIdentity (hash (identity (Content req))) (blen (Content req)) = Some (identity (Content req))) as Hid'.
  { pose proof Hid as Heq. unfold NewContentIdentity in Heq. destruct (validIdentity _); [|done]. injection Heq as Heq.
    rewrite <- Heq. cbn. by rewrite Heq. }
  assert (forall k h n f hh, let r := with_fingerprint f (with_hash (Some (hash (identity (Content req)))) (with_metadata_object k h n base)) in
    hh = r -> descriptorFromTranscript hh = Some cand /\ identityFromTranscript hh = Some (LoadedKnown (identity (Content req)))) as Hcols.
  { intros k h n f hh r ->. unfold r, descriptorFromTranscript, identityFromTranscript. cbn. rewrite Hk, Hw, Ha, Hv, Hs. cbn.
    by rewrite Hid'. }
  assert (exists k h n f, finished req m base = with_fingerprint f (with_hash (Some (hash (identity (Content req)))) (with_metadata_object k h n base)) /\
    (k, h, n) = metadataObjectParams m) as (k & h & n & f & Hfin & Hmeta).
  { unfold finished. destruct (metadataObjectParams m) as [[k h] n]. exists k, h, n. destruct (Fingerprint req) as [f|] eqn:Hf.
    - exists (Some f). split; [|done]. rewrite Hserved; [done|]. unfold authoritative. by rewrite Hf.
    - exists None. split; [|done]. destruct base. cbn in Hh |- *. by rewrite Hh. }
  rewrite Hfin. destruct (Hcols k h n f _ eq_refl) as [-> ->]. split_and!; [done|done| |done].
  unfold metadataObjectFromTranscript. cbn. destruct m as [mo|]; injection Hmeta as -> -> ->; [|done].
  destruct Hwr as (_ & _ & Hm & _). unfold metadata_of in Hm. destruct (PublishMetadata req); [|done]. destruct Hm as (Hv' & _).
  by rewrite valid_metadata.
Qed.

Lemma create_stores owner id req cand m d x d' o : declared req ->
  NewBlobDescriptor (objectKey cand) (wrappedDEK cand) (algorithm cand) (keyVersion cand) = Some cand ->
  written id (Content req) (PublishMetadata req) cand (identity (Content req)) m o ->
  carries (create_tx owner id req (transcriptParams owner req cand (identity (Content req))) m) d x d' ->
  x.1.1 = id /\ stored_content id req (d', o).
Proof.
  intros Hserved Hcand Hwr (_ & _ & Hrows & _ & Hx & _)%create_carries. split; [by rewrite Hx|].
  apply (finished_content id req owner cand m (created (transcriptParams owner req cand (identity (Content req))))); [done..|].
  by rewrite Hrows, lookup_insert_eq.
Qed.
Lemma republish_stores owner id req cand m from d x d' o : declared req ->
  NewBlobDescriptor (objectKey cand) (wrappedDEK cand) (algorithm cand) (keyVersion cand) = Some cand ->
  written id (Content req) (PublishMetadata req) cand (identity (Content req)) m o ->
  carries (republish_tx owner id req (transcriptParams owner req cand (identity (Content req))) from m) d x d' ->
  x.1.1 = id -> stored_content id req (d', o).
Proof.
  intros Hserved Hcand Hwr (pre & tid & old & _ & _ & Hrows & _ & Hx & _)%republish_carries. rewrite Hx. cbn. intros ->.
  eapply (finished_content id req owner cand m (republished _ old)); [exact Hserved|exact Hcand| |exact Hwr|rewrite Hrows; apply lookup_insert_eq]. done.
Qed.
End laws.
End PublishLaws.
