(* ===== verification/PublishRuns.v ===== *)
(** * Every request keeps every stored generation readable

    The handlers of [Publish], step by step over [GenerationLaws] and
    [PublishLaws], and any sequence of requests. *)
From S2P Require Import Prelude GoText Regex RepoName Digest Governance BlobStore BlobLaws PublishStore Publish PublishBodies GenerationLaws PublishLaws.

Open Scope string_scope.
Open Scope list_scope.
Open Scope Z_scope.

Module PublishRuns.
Import Governance BlobStore BlobLaws PublishStore Publish PublishBodies GenerationLaws PublishLaws.

Section runs.
Context `{Crypto, BlobEnv, KeyCustodian, Env, UnicodeTables, Schema}.
Context (Hc : considerate) (Hlength : forall l k, random_key l = Some k -> blen k = 32) `{!CryptoLaws, !CustodianLaws}.

(** ** Steps that only look, note or keep *)
Definition gentle {E A} (m : M World E A) : Prop := forall w r w', sound w -> m w = (r, w') -> goes w w'.

Lemma gentle_ret {E A} (a : A) : gentle (mret a : M World E A).
Proof. intros w r w' Hw [= <- <-]. by apply goes_refl. Qed.
Lemma gentle_throw {E A} (e : E) : gentle (throw e : M World E A).
Proof. intros w r w' Hw [= <- <-]. by apply goes_refl. Qed.
Lemma gentle_lift {E A} (r : result E A) : gentle (lift r : M World E A).
Proof. intros w r' w' Hw [= <- <-]. by apply goes_refl. Qed.
Lemma gentle_note {E} e : gentle (note e : M World E unit).
Proof. intros w r w' Hw [= <- <-]. by apply note_goes. Qed.
Lemma gentle_bind {E A B} (m : M World E A) (f : A -> M World E B) :
  gentle m -> (forall a, gentle (f a)) -> gentle (m ≫= f).
Proof.
  intros Hm Hf w r w' Hw. rewrite M_bind_unfold. destruct (m w) as [[a|e] w1] eqn:Hr.
  - intros Hrun. pose proof (Hm _ _ _ Hw Hr) as Hgo. eapply goes_trans; [done|]. eapply Hf; [apply Hgo|done].
  - intros [= <- <-]. by eapply Hm.
Qed.
Lemma gentle_attempt {E F A} (m : M World E A) : gentle m -> gentle (attempt m : M World F _).
Proof. intros Hm w r w' Hw. unfold attempt. destruct (m w) as [r0 w0] eqn:Hr. intros [= <- <-]. by eapply Hm. Qed.
Lemma gentle_ask {E A} (e : A -> Event) f : gentle (ask e f : M World E (result TxError A)).
Proof.
  intros w r w' Hw Hr. assert (exists r', r = Ok r') as [r' ->].
  { unfold ask in Hr. destruct (if answered _ then _ else _); injection Hr as <- _; eauto. }
  by apply (ask_goes Hc) in Hr as [? _].
Qed.
Lemma gentle_stored {E A} (m : M BlobWorld BlobError A) :
  (forall b0 n, keeps (at_least b0 n) m) -> gentle (stored m : M World E _).
Proof.
  intros Hm w r w' Hw Hr. assert (exists r', r = Ok r') as [r' ->].
  { unfold stored in Hr. destruct (m _). injection Hr as <- _. eauto. }
  eapply (stored_goes Hc) in Hr as [? _]; [done..|]. intros b. by apply at_least_spares.
Qed.
Lemma gentle_transact {E A} name (m : Tx A) : (forall d a d', carries m d a d' -> kept d d') ->
  gentle (transact name m : M World E _).
Proof.
  intros Hm w r w' Hw (c & x & y & d & -> & -> & Hd)%transact_inv. pose proof (meanwhile_goes Hc w Hw) as Hgo.
  eapply goes_trans; [done|]. apply kept_goes; [apply Hgo|].
  apply completes_cases in Hd as [->|[a Ha]]; [apply kept_refl|by eapply Hm].
Qed.
Lemma gentle_in_tx {E A} name (m : Tx A) : (forall d a d', carries m d a d' -> kept d d') ->
  gentle (inTxAs name m : M World E _).
Proof. intros Hm. apply gentle_bind; [by apply gentle_transact|]. intros [[c x] y]. apply gentle_ret. Qed.

#[local] Hint Resolve gentle_ret gentle_throw gentle_lift gentle_note gentle_ask gentle_attempt : gentle.
Lemma gentle_metadata_note {E} m : gentle (emitMetadataReconciliation m : M World E unit).
Proof. destruct m; unfold emitMetadataReconciliation; auto with gentle. Qed.
Lemma gentle_write_note {E} e : gentle (emitUncommittedWriteReconciliation e : M World E unit).
Proof. destruct e; unfold emitUncommittedWriteReconciliation; auto with gentle. Qed.
Lemma gentle_restore {E} id from : gentle (restoreRepublishAudience id from : M World E bool).
Proof.
  unfold restoreRepublishAudience. destruct (String.eqb _ _); [apply gentle_ret|].
  apply gentle_bind; [|auto with gentle]. apply gentle_in_tx. intros d a d' (pre & Hpre & ->)%restore_carries. by apply seen_by_kept.
Qed.
Lemma gentle_conflict {E} owner id req : gentle (no_association_conflict owner id req : M World E _).
Proof.
  unfold no_association_conflict. destruct (bool_decide _); [apply gentle_ret|].
  apply gentle_bind; [|auto with gentle]. apply gentle_in_tx. intros d a d' ->%looks_validate. apply kept_refl.
Qed.
Lemma gentle_read_row id inm row : gentle (read_row id inm row).
Proof.
  unfold read_row. destruct (descriptorFromTranscript row) as [d|]; [|apply gentle_throw].
  destruct (identityFromTranscript row) as [i|]; [|apply gentle_throw].
  assert (gentle (stored (Read id d i) : M World ReadError _)) as Hr by (apply gentle_stored; intros; by apply spares_read, (bucket_keeps Hc)).
  assert (forall r : result BlobError (string * ContentIdentity), gentle (match r with
      | Ok (plain, i) => if content_boundary plain row then mret (mkRead plain row i false) else throw RdUnusable
      | Err e => throw (RdStore e) end)) as Hf.
  { intros [[plain j]|e]; [|apply gentle_throw]. destruct (content_boundary _ _); auto with gentle. }
  destruct i; [destruct (ifNoneMatchMatches _ _); [apply gentle_ret|]|..]; by apply gentle_bind.
Qed.

(** A run that may drop objects no one names. *)
Definition steady {E A} (m : M World E A) : Prop := forall w r w', sound w -> m w = (r, w') -> stays w w'.
Lemma gentle_steady {E A} (m : M World E A) : gentle m -> steady m.
Proof. intros Hm w r w' Hw Hr. by eapply goes_stays, Hm. Qed.

Lemma cleanup_run {E} d m w r w' : sound w -> (forall k, generation d m k -> dropped k w) ->
  (deleteGenerationForCleanup d m : M World E (option string)) w = (r, w') -> stays w w'.
Proof.
  intros Hw Hd Hr. assert (exists k, r = Ok k) as [k ->].
  { unfold deleteGenerationForCleanup, deleteForCleanup in Hr. revert Hr. unfold mbind, M_bind, stored, note, mret, M_ret.
    destruct (Delete d _) as [[?|?] ?]; destruct m as [m|]; try (destruct (DeleteMetadata m _) as [[?|?] ?]); intros [= <- _]; eauto. }
  eapply (generation_cleanup_stays Hc) in Hr; [done|done|apply Hd; by left|]. intros mo ->. apply Hd. right. eauto.
Qed.
Lemma dropped_stays k w w' : stays w w' -> dropped k w -> dropped k w'.
Proof. intros [_ Hw]. by apply dropped_calm. Qed.

(** ** Installing a generation *)

(** An object a read found row [id], and only it, to name. *)
Definition current (id k : string) (w : World) : Prop := only id k w /\ aged k w.
Lemma current_calm id k w w' : calm w w' -> current id k w -> current id k w'.
Proof. intros Hw []. split; [by eapply only_calm|by eapply aged_calm]. Qed.
Lemma current_read id r w : sound w -> EvRead id r ∈ log w -> rows (db w) !! id = Some r ->
  forall k, names r k -> current id k w.
Proof.
  intros Hw Hin Hr k Hk. assert (refs (db w) id k) as Href by (by exists r). split; [split|by eapply refs_aged].
  - exists r. split; [left; by exists id|done].
  - intros id' Hr'. eapply (tidy_sole _ (sound_tidy _ Hw)); done.
Qed.
Lemma descriptor_names row d m k : descriptorFromTranscript row = Some d -> metadataObjectFromTranscript row = Some m ->
  generation d m k -> names row k.
Proof.
  unfold descriptorFromTranscript, metadataObjectFromTranscript, names. intros (-> & _)%new_descriptor_inv Hm [->|(mo & -> & ->)].
  - by left.
  - right. destruct (PublishMetadataKey row) as [key|], (PublishMetadataHash row), (PublishMetadataSize row); try done.
    cbn in Hm. unfold NewMetadataObject in Hm. destruct (negb _); [done|]. destruct (NewContentIdentity _ _); [|done].
    by injection Hm as <-.
Qed.

Lemma superseded_dropped n id K d w k : current id k w -> installed id K (db w) d -> ~ refs d id k -> dropped k (committed n d w).
Proof.
  intros [[Hs Ho] _] [Hoth _ _ _] Hn. split.
  - right. eapply seen_mono; [|done]. intros e He. apply elem_of_app. by left.
  - intros id' Hr. destruct (decide (id' = id)) as [->|Hne]; [done|]. destruct Hr as (r' & Hr' & Hk).
    destruct (Hoth _ _ Hne Hr') as (r & Hr & Hkeep). apply Hne, Ho. exists r. eauto using row_keeps_names.
Qed.

(** The transaction that installs a candidate. *)
Lemma installing {E A} (G : A -> Db * Objects -> Prop) name (m : Tx A) id cand mo old w r w' : sound w ->
  (forall a d', goes w (meanwhile w) -> carries m (db (meanwhile w)) a d' -> installed id (generation cand mo) (db (meanwhile w)) d' /\
     (forall k, old k -> ~ refs d' id k) /\ G a (d', objects (blob (meanwhile w)))) ->
  (forall k, generation cand mo k -> candidate k w) -> (forall k, old k -> current id k w) ->
  (inEncryptedTx name m : M World E _) w = (r, w') ->
  exists c x, r = Ok (c, x) /\ sound w' /\
    match c with
    | TransactionCommitted => (exists a, x = Ok a /\ exists s, s ∈ past w' /\ G a s) /\ forall k, old k -> dropped k w'
    | TransactionKnownRollback => is_ok x = false /\ forall k, generation cand mo k -> dropped k w'
    | TransactionCommitAmbiguous => is_ok x = false
    end.
Proof.
  intros Hw Hm Hcand Hold (c & x & d & -> & -> & y & Hd)%in_encrypted_inv. pose proof (meanwhile_goes Hc w Hw) as Hgo.
  set (w1 := meanwhile w) in *. exists c, x. split; [done|]. specialize (fun a d' => Hm a d' Hgo). destruct Hgo as (Hw1 & Hcalm & Hh).
  assert (forall k, generation cand mo k -> candidate k w1) as Hcand1 by (intros k Hk; eapply candidate_goes; [done|by apply Hcand]).
  destruct Hd as [a d Hrun|e z d' -> _|e a d d' Hrun Hor].
  - destruct (Hm _ _ Hrun) as (Hin & Hnot & HG). split; [by eapply installed_sound|]. split.
    { exists a. split; [done|]. eexists. split; [apply elem_of_app; right; by left|done]. }
    intros k Hk. eapply superseded_dropped; [|done|by apply Hnot]. eapply current_calm; [done|by apply Hold].
  - destruct (kept_goes name (db w1) w1 Hw1 (kept_refl _)) as (Hs & Hcalm' & _). split; [done|]. split; [done|].
    intros k Hk. destruct (Hcand1 k Hk) as (Hdr & Hun & _). eapply dropped_calm; [done|]. split; [|done]. left. by eapply drawn_mine.
  - split; [|done]. destruct Hor as [->| ->]; [by apply kept_goes, kept_refl|]. eapply installed_sound; [done..|].
    by destruct (Hm _ _ Hrun).
Qed.

Definition supersedable (id : string) (old : option (BlobDescriptor * option MetadataObject)) (w : World) : Prop :=
  forall d m k, old = Some (d, m) -> generation d m k -> current id k w.
Definition ready (op : Lifecycle) (owner : Z) (id : string) (req : PublishRequest) old (w : World) : Prop :=
  match op with
  | Create => old = None
  | _ => session owner (SessionID req) id w /\ supersedable id old w
  end.
(** A snapshot of the run in which row [i] is stored with what was asked for. *)
Definition recorded (req : PublishRequest) (i : string) (w : World) : Prop :=
  declared req -> exists s, s ∈ past w /\ stored_content i req s.
(** The same request was accepted before. *)
Definition accepted (req : PublishRequest) (i : string) (w : World) : Prop :=
  authoritative req = true /\ exists s r, s ∈ past w /\ rows s.1 !! i = Some r /\ AcceptedFingerprint r = Fingerprint req.
Record locked_ok (req : PublishRequest) (l : Locked) (w : World) : Prop := {
  ok_superseded : deleteSuperseded l = true -> forall d m k, superseded l = Some (d, m) -> generation d m k -> dropped k w;
  ok_recorded : forall i row, ended l = Stored -> transcript l = Some (i, row) -> recorded req i w \/ accepted req i w
}.

Lemma publish_installed (op : Lifecycle) owner id req from old cand i m w0 w (d : Db) (a : _ * _) d' : sound w ->
  calm w0 w -> ready op owner id req old w0 -> (forall k, generation cand m k -> newer_key w0 k) -> d = db w ->
  NewBlobDescriptor (objectKey cand) (wrappedDEK cand) (algorithm cand) (keyVersion cand) = Some cand ->
  written id (Content req) (PublishMetadata req) cand i m (objects (blob w)) ->
  carries (match op with Create => create_tx owner id req (transcriptParams owner req cand i) m
    | _ => republish_tx owner id req (transcriptParams owner req cand i) from m end) d a d' ->
  installed id (generation cand m) d d' /\
  (forall k, (exists d0 m0, old = Some (d0, m0) /\ generation d0 m0 k) -> ~ refs d' id k) /\
  a.1.1 = id /\ (declared req -> stored_content id req (d', objects (blob w))).
Proof.
  intros Hw Hcalm Hready Hnew -> Hcand Hwr Hrun. pose proof Hwr as (-> & _).
  assert (a.1.1 = id /\ strictly id (generation cand m) (db w) d' /\
    (declared req -> stored_content id req (d', objects (blob w)))) as (Hid & [Hst Hst'] & Hcon).
  { assert (op = Create \/ op <> Create) as [-> |Hop] by (destruct op; auto).
    - pose proof (create_installed _ _ _ _ _ _ _ _ _ (sound_tidy _ Hw) Hrun) as Hst. split_and!; [|done|].
      + apply create_carries in Hrun as (_ & _ & _ & _ & Hx & _). by rewrite Hx.
      + intros Hd. by eapply create_stores.
    - assert (session owner (SessionID req) id w0 /\
        carries (republish_tx owner id req (transcriptParams owner req cand (identity (Content req))) from m) (db w) a d') as [Hsess Hrun']
        by (destruct op; [done|..]; by destruct Hready). clear Hrun.
      destruct (republish_installed _ _ _ _ _ _ _ _ _ _ (sound_tidy _ Hw) (proj2 (session_calm _ _ _ _ _ Hcalm Hsess)) Hrun') as [Hx Hst].
      split_and!; [done|done|]. intros Hd. by eapply republish_stores. }
  split_and!; [done| |done|done]. intros k (d0 & m0 & -> & Hk) Hr. apply (Hnew k (Hst' k Hr) k); [|done].
  destruct op; [done|..]; by eapply Hready.
Qed.

(** ** Runs with what they need and give *)
Definition leads {E A} (P : World -> Prop) (m : M World E A) (Q : A -> World -> Prop) : Prop := forall w r w',
  sound w -> P w -> m w = (r, w') -> sound w' /\ forall a, r = Ok a -> Q a w'.
Definition lasting (P : World -> Prop) : Prop := forall w w', stays w w' -> P w -> P w'.

Lemma leads_seq {E A B} P Q (R : B -> World -> Prop) (m : M World E A) (f : A -> M World E B) :
  leads P m Q -> (forall a, leads (Q a) (f a) R) -> leads P (m ≫= f) R.
Proof.
  intros Hm Hf w r w' Hw HP. rewrite M_bind_unfold. destruct (m w) as [[a|e] w1] eqn:Hr.
  - destruct (Hm _ _ _ Hw HP Hr) as [Hw1 HQ]. intros Hrun. eapply Hf; [done|by apply HQ|done].
  - intros [= <- <-]. split; [by eapply Hm|done].
Qed.
Lemma leads_steady {E A} P (m : M World E A) : lasting P -> steady m -> leads P m (fun _ => P).
Proof. intros HP Hm w r w' Hw Hp Hr. specialize (Hm _ _ _ Hw Hr) as Hst. split; [apply Hst|]. intros a _. by eapply HP. Qed.
Lemma leads_gentle {E A} P (m : M World E A) : lasting P -> gentle m -> leads P m (fun _ => P).
Proof. intros HP Hm. by apply leads_steady, gentle_steady. Qed.
Lemma leads_ret {E A} (P : World -> Prop) (Q : A -> World -> Prop) (a : A) :
  (forall w, P w -> Q a w) -> leads P (mret a : M World E A) Q.
Proof. intros HQ w r w' Hw HP [= <- <-]. split; [done|]. intros b [= <-]. by apply HQ. Qed.
Lemma leads_throw {E A} P (Q : A -> World -> Prop) (e : E) : leads P (throw e : M World E A) Q.
Proof. intros w r w' Hw _ [= <- <-]. by split. Qed.
Lemma leads_weaken {E A} (P P' : World -> Prop) (Q Q' : A -> World -> Prop) (m : M World E A) :
  leads P m Q -> (forall w, P' w -> P w) -> (forall a w, Q a w -> Q' a w) -> leads P' m Q'.
Proof. intros Hm HP HQ w r w' Hw Hp Hr. destruct (Hm w r w' Hw (HP _ Hp) Hr). split; auto. Qed.
Lemma leads_after {E A B} P (R : B -> World -> Prop) (m : M World E A) f :
  lasting P -> gentle m -> (forall a, leads P (f a) R) -> leads P (m ≫= f) R.
Proof. intros HP Hm Hf. eapply leads_seq; [by apply leads_gentle|done]. Qed.

Lemma leads_exists {X E A} (P : X -> World -> Prop) (m : M World E A) (Q : A -> World -> Prop) :
  (forall x, leads (P x) m Q) -> leads (fun w => exists x, P x w) m Q.
Proof. intros Hm w r w' Hw [x Hp] Hr. by eapply Hm. Qed.
Lemma leads_pure {E A} (P0 : Prop) P (m : M World E A) (Q : A -> World -> Prop) :
  (P0 -> leads P m Q) -> leads (fun w => P0 /\ P w) m Q.
Proof. intros Hm w r w' Hw [Hp0 Hp] Hr. by eapply Hm. Qed.

Lemma lasting_true : lasting (fun _ => True).
Proof. done. Qed.
Lemma lasting_dropped (K : string -> Prop) : lasting (fun w => forall k, K k -> dropped k w).
Proof. intros w w' Hw Hk k HK. eapply dropped_stays; [done|by apply Hk]. Qed.
Lemma lasting_all {A} (P : A -> World -> Prop) : (forall a, lasting (P a)) -> lasting (fun w => forall a, P a w).
Proof. intros HP w w' Hw Hp a. by eapply HP. Qed.
Lemma lasting_if (Q : Prop) P : lasting P -> lasting (fun w => Q -> P w).
Proof. intros HP w w' Hw Hp HQ. eapply HP; [done|by apply Hp]. Qed.
Lemma lasting_supersedable id old : lasting (supersedable id old).
Proof. intros w w' [_ Hw] Hs d m k He Hk. eapply current_calm; [done|by eapply Hs]. Qed.
Lemma lasting_session owner localID id : lasting (session owner localID id).
Proof. intros w w' [_ Hw]. by apply session_calm. Qed.
Lemma lasting_ready op owner id req old : lasting (ready op owner id req old).
Proof. destruct op; [by intros w w' _|..]; (intros w w' Hw []; split; [by eapply lasting_session|by eapply lasting_supersedable]). Qed.

Lemma lasting_accepted req i : lasting (accepted req i).
Proof. intros w w' [_ Hw] (? & s & r & Hs & ?). split; [done|]. exists s, r. split; [by apply (calm_past _ _ Hw)|done]. Qed.
Lemma lasting_recorded req i : lasting (recorded req i).
Proof. intros w w' [_ Hw] Hr Hd. destruct (Hr Hd) as (s & Hs & ?). exists s. split; [by apply (calm_past _ _ Hw)|done]. Qed.
Lemma leads_write {E} op owner id req old plain meta :
  leads (ready op owner id req old) (stored (WriteGeneration id plain meta) : M World E _) (fun x w =>
    match x with
    | Ok (cand, i, m) => exists w0, (ready op owner id req old w0 /\ (forall k, generation cand m k -> newer_key w0 k) /\
          NewBlobDescriptor (objectKey cand) (wrappedDEK cand) (algorithm cand) (keyVersion cand) = Some cand) /\
        calm w0 w /\ (forall k, generation cand m k -> candidate k w) /\ written id plain meta cand i m (objects (blob w))
    | Err _ => True
    end).
Proof.
  intros w r w' Hw Hready Hs. assert (exists x, r = Ok x) as [x ->].
  { unfold stored in Hs. destruct (WriteGeneration _ _ _ _). injection Hs as <- _. eauto. }
  destruct (write_goes Hc Hlength _ _ _ _ _ _ Hw Hs) as [Hgo Hwr]. split; [apply Hgo|]. intros y [= <-].
  destruct x as [[[cand i] m]|e]; [|done]. destruct Hwr as (Hwr & Hd & Hk). exists w. split_and!; [done| |done|apply Hgo| |done]; apply Hk.
Qed.

(** How the installing transaction ended, and what may be removed then. *)
Definition after_install {A} (G : A -> Db * Objects -> Prop) (cand : BlobDescriptor) (m : option MetadataObject) (old : string -> Prop)
    (c : TransactionCompletion) (x : result TxError A) (w : World) : Prop :=
  match c with
  | TransactionCommitted => (exists a, x = Ok a /\ exists s, s ∈ past w /\ G a s) /\ forall k, old k -> dropped k w
  | TransactionKnownRollback => is_ok x = false /\ forall k, generation cand m k -> dropped k w
  | TransactionCommitAmbiguous => is_ok x = false
  end.
Lemma lasting_after {A} G cand m old c (x : result TxError A) : lasting (after_install G cand m old c x).
Proof.
  destruct c; [| |by intros w w' _]; intros w w' Hw [Hx Hd]; (split; [|by eapply lasting_dropped]); [|done].
  destruct Hx as (a & -> & s & Hs & HG). exists a. split; [done|]. exists s. split; [by apply (calm_past _ _ (proj2 Hw))|done].
Qed.
Definition publish_recorded (req : PublishRequest) (id : string) (a : (string * Row) * list (string * string)) (s : Db * Objects) : Prop :=
  a.1.1 = id /\ (declared req -> stored_content id req s).

Lemma leads_installing {E} op owner id req from old cand i m w0 :
  ready op owner id req old w0 -> (forall k, generation cand m k -> newer_key w0 k) ->
  NewBlobDescriptor (objectKey cand) (wrappedDEK cand) (algorithm cand) (keyVersion cand) = Some cand ->
  let params := transcriptParams owner req cand i in
  leads (fun w => calm w0 w /\ (forall k, generation cand m k -> candidate k w) /\
      written id (Content req) (PublishMetadata req) cand i m (objects (blob w)))
    (match op with Create => inEncryptedTx "create" (create_tx owner id req params m)
     | _ => inEncryptedTx "republish" (republish_tx owner id req params from m) end : M World E _)
    (fun cx w => after_install (publish_recorded req id) cand m (fun k => exists d0 m0, old = Some (d0, m0) /\ generation d0 m0 k) cx.1 cx.2 w).
Proof.
  intros Hready Hnew Hdesc params w r w' Hw (Hcalm & Hcand & Hwr) Hrun.
  assert (forall k, (exists d0 m0, old = Some (d0, m0) /\ generation d0 m0 k) -> current id k w) as Hold.
  { intros k (d0 & m0 & -> & Hk). destruct op; [done|..]; (eapply current_calm; [done|]; destruct Hready as [_ Hs]; by eapply Hs). }
  pose proof (meanwhile_goes Hc w Hw) as Hgo.
  assert (exists c x, r = Ok (c, x) /\ sound w' /\
    after_install (publish_recorded req id) cand m (fun k => exists d0 m0, old = Some (d0, m0) /\ generation d0 m0 k) c x w') as (c & x & -> & Hs & Ha).
  { assert (calm w0 (meanwhile w)) as Hcalm' by (eapply calm_trans; [done|apply Hgo]).
    assert (written id (Content req) (PublishMetadata req) cand i m (objects (blob (meanwhile w)))) as Hwr'.
    { eapply written_weaken; [|exact Hwr]. intros k x Hk Hx. destruct (Hcand k Hk) as (Hd & Hun & _). by apply (proj2 (proj2 Hgo)). }
    pose proof (fun a d' => publish_installed op owner id req from old cand i m w0 (meanwhile w) _ a d' (proj1 Hgo) Hcalm' Hready Hnew eq_refl Hdesc Hwr') as Hinst.
    destruct op; eapply (installing (publish_recorded req id)) in Hrun; try done; intros a d' _ Hm;
      (destruct (Hinst a d' Hm) as (? & ? & ? & ?); by split_and!). }
  split; [done|]. by intros [c' x'] [= <- <-].
Qed.

Lemma leads_cleanup {E} d m : leads (fun w => forall k, generation d m k -> dropped k w)
  (deleteGenerationForCleanup d m : M World E _) (fun _ _ => True).
Proof. intros w r w' Hw Hd Hr. split; [by eapply cleanup_run|done]. Qed.
Lemma gentle_reconcile {E} k m : gentle (_ ← note (EvReconcile k); emitMetadataReconciliation m : M World E unit).
Proof. apply gentle_bind; [apply gentle_note|intros _; apply gentle_metadata_note]. Qed.

Lemma locked_none req l w : deleteSuperseded l = false -> ended l <> Stored \/ transcript l = None -> locked_ok req l w.
Proof. intros Hl He. split; [by rewrite Hl|]. intros i row Hs Hr. destruct He as [?|He]; [done|]. by rewrite He in Hr. Qed.

(** Only a confirmed republish may drop what it superseded. *)
Lemma leads_install {E} op owner id req from old : op = Create \/ op = Republish ->
  leads (ready op owner id req old) (install op owner id req from old : M World E Locked) (locked_ok req).
Proof.
  intros Hop. unfold install. eapply leads_seq; [apply leads_write|]. intros [[[cand i] m]|e].
  2:{ apply leads_after; [by intros ???|apply gentle_write_note|intros _].
      apply leads_after; [by intros ???|apply gentle_restore|intros back].
      apply leads_ret. intros v _. apply locked_none; [done|by left]. }
  apply leads_exists. intros w0. apply leads_pure. intros (Hready & Hnew & Hdesc).
  set (K := fun k => exists d0 m0, old = Some (d0, m0) /\ generation d0 m0 k).
  eapply leads_seq.
  { pose proof (leads_installing (E := E) op owner id req from old cand i m w0 Hready Hnew Hdesc) as Hi.
    destruct Hop as [->| ->]; exact Hi. }
  intros [c x]. cbn [fst snd]. eapply leads_after; [apply lasting_after| |intros left_private].
  { destruct c, x; auto with gentle. apply gentle_bind; [apply gentle_restore|auto with gentle]. }
  eapply (leads_seq _ (fun _ w => match c with TransactionCommitted => after_install (publish_recorded req id) cand m K c x w
    | _ => is_ok x = false end)).
  - destruct c; cbn.
    + destruct x as [a|e]; [|intros v r2 v' Hv [(a & ? & _) _]; done]. destruct Hop as [->| ->]; cbn; by apply leads_ret.
    + apply leads_pure. intros Hx. destruct Hop as [->| ->]; cbn; (eapply leads_weaken; [apply (leads_cleanup cand m)|done|done]).
    + intros v r2 v' Hv Hx. destruct x; [done|]. revert v r2 v' Hv Hx. cbn. apply (leads_gentle (fun _ => false = false)); [done|].
      apply gentle_bind; [apply gentle_note|intros _; apply gentle_bind; [apply gentle_metadata_note|auto with gentle]].
  - intros retained. destruct c.
    + intros v r2 v' Hv [([row applied] & -> & s & Hs & Hid & Hcon) Hd] [= <- <-]. split; [done|]. intros l [= <-]. split; cbn.
      * intros _ d0 m0 k Hold Hk. apply Hd. exists d0, m0. by split.
      * intros i' row' _ [= ->]. left. intros Hdec. cbn in Hid. subst i'. exists s. auto.
    + destruct x as [?|e]; [by intros v r2 v' Hv Hx|]. destruct Hop as [->| ->], e; apply leads_ret; intros v _; (apply locked_none; [done|by left]).
    + destruct x as [?|e]; [by intros v r2 v' Hv Hx|]. destruct Hop as [->| ->], e; apply leads_ret; intros v _; (apply locked_none; [done|by left]).
Qed.

(** ** Publishing *)

(** A read learns what its row names. *)
Lemma leads_read {E} P id : lasting P -> leads P (GetTranscriptByID id : M World E _) (fun r w => P w /\
  match r with Ok row => EvRead id row ∈ log w /\ rows (db w) !! id = Some row /\ (db w, objects (blob w)) ∈ past w | Err _ => True end).
Proof.
  intros HP w r w' Hw Hp Hr. assert (exists x, r = Ok x) as [x ->].
  { unfold GetTranscriptByID, ask in Hr. destruct (if answered _ then _ else _); injection Hr as <- _; eauto. }
  destruct (ask_goes Hc _ _ _ _ _ Hw Hr) as [Hgo Hx]. split; [apply Hgo|]. intros y [= <-].
  split; [by eapply HP; [apply goes_stays|]|]. destruct x as [row|]; [|done]. destruct Hx as (Hrow & Hin & Hpast).
  split_and!; [done| |done]. by destruct (rows (db w') !! id); [injection Hrow as ->|].
Qed.
Lemma read_supersedable id row d m w : sound w -> EvRead id row ∈ log w -> rows (db w) !! id = Some row ->
  descriptorFromTranscript row = Some d -> metadataObjectFromTranscript row = Some m -> supersedable id (Some (d, m)) w.
Proof.
  intros Hw Hin Hrow Hd Hm d0 m0 k [= <- <-] Hk. eapply current_read; [done..|]. by eapply descriptor_names.
Qed.

#[local] Hint Extern 1 (leads _ (mret _) (locked_ok _)) =>
  (apply leads_ret; intros; apply locked_none; [done|first [by left|by right]]) : gentle.
Lemma leads_sound {E A} P (m : M World E A) Q : leads (fun w => sound w /\ P w) m Q -> leads P m Q.
Proof. intros Hm w r w' Hw Hp Hr. by eapply Hm. Qed.

Lemma leads_republish {E} owner id req :
  leads (session owner (SessionID req) id) (republish owner id req : M World E Locked) (locked_ok req).
Proof.
  unfold republish. eapply leads_seq; [apply leads_read, lasting_session|]. intros [row|e].
  2:{ auto with gentle. }
  destruct (descriptorFromTranscript row) as [d|] eqn:Hd; [|auto with gentle].
  destruct (metadataObjectFromTranscript row) as [m|] eqn:Hm; [|auto with gentle].
  destruct (_ && _) eqn:Hreplay.
  - apply andb_prop in Hreplay as [Hau Hf%bool_decide_eq_true]. apply (leads_weaken (accepted req id) _ (locked_ok req) (locked_ok req)); [
      |intros w (_ & _ & Hrow & Hp); split; [done|]; by exists (db w, objects (blob w)), row|done].
    apply leads_after; [apply lasting_accepted|apply gentle_ask|]. intros [l|]; [destruct (valid_associations l)|]; auto with gentle.
    apply leads_ret. intros w Hw. split; [done|]. intros i row' _ [= <- <-]. by right.
  - apply leads_sound, (leads_weaken (ready Republish owner id req (Some (d, m))) _ (locked_ok req) (locked_ok req)); [|
      intros w (Hw & Hs & Hin & Hrow & _); split; [done|by eapply read_supersedable]|done].
    destruct (String.eqb _ _); [apply leads_install; by right|].
    apply leads_after; [apply lasting_ready| |].
    + apply gentle_in_tx. intros d0 a d' (pre & Hpre & -> & _)%narrow_carries. by apply seen_by_kept.
    + intros [[from|e] set]; [apply leads_install; by right|]. auto with gentle.
Qed.

Lemma leads_probe {E} owner localID : leads (fun _ => True) (GetTranscriptIDByOwnerAndLocalID owner localID : M World E _)
  (fun r w => match r with Ok id => session owner localID id w | Err _ => True end).
Proof.
  intros w r w' Hw _ Hr. assert (exists x, r = Ok x) as [x ->].
  { unfold GetTranscriptIDByOwnerAndLocalID, ask in Hr. destruct (if answered _ then _ else _); injection Hr as <- _; eauto. }
  destruct (ask_goes Hc _ _ _ _ _ Hw Hr) as [Hgo Hx]. split; [apply Hgo|]. intros y [= <-]. destruct x as [id|]; [|done].
  destruct Hx as (Hrow & Hin & _). split; [by left|]. destruct (source_row owner localID (db w')) as [[id' row]|] eqn:Hsrc; [|done].
  injection Hrow as ->. apply source_row_some in Hsrc as (Hsrc & Ho & Hl). intros r. rewrite Hsrc. by intros [= <-].
Qed.

Lemma leads_locked {E} owner req : leads (fun _ => True) (publishLocked owner req : M World E Locked) (locked_ok req).
Proof.
  unfold publishLocked. eapply leads_seq; [apply leads_probe|]. intros [id|[]]; try (auto with gentle; fail).
  - apply leads_after; [apply lasting_session|apply gentle_conflict|]. intros [e|]; [auto with gentle|].
    apply leads_republish.
  - intros w r w' Hw _ Hrun. set (id := new_uuid (log w)).
    change ((conflict ← no_association_conflict owner None req;
      match conflict with Some e => mret (before_write false e) | None => install Create owner id req "" None end) w = (r, w')) in Hrun.
    revert Hrun. apply (leads_after (fun _ => True)); [done|apply gentle_conflict| |done|done].
    intros [e|]; [auto with gentle|]. eapply leads_weaken; [apply (leads_install Create owner id req "" None); by left|done|done].
Qed.

(** The answer of a stored publish names the row it stored. *)
Lemma answer_published owner req l w a w' : answer_publish owner req l w = (Ok a, w') -> ended l = Stored /\ published a = transcript l.
Proof.
  unfold answer_publish. destruct (ended l); try done. destruct (transcript l) as [[i row]|]; [|done]. intros Hrun. split; [done|].
  do 3 (apply bind_ok_inv in Hrun as (? & ? & _ & Hrun); cbv zeta in Hrun). destruct (authoritative req).
  - destruct (receipt_valid row); [by injection Hrun as <- _|done].
  - apply bind_ok_inv in Hrun as ([?|?] & ? & _ & Hrun); [by injection Hrun as <- _|done].
Qed.
Lemma stays_bind {E A B} (m : M World E A) (f : A -> M World E B) w r w' :
  (forall r w', m w = (r, w') -> stays w w') -> (forall a, steady (f a)) -> (m ≫= f) w = (r, w') -> stays w w'.
Proof.
  intros Hm Hf. rewrite M_bind_unfold. destruct (m w) as [[a|e] w1] eqn:Hr; [|intros [= <- <-]; by eapply Hm].
  intros Hrun. pose proof (Hm _ _ eq_refl) as Hst. eapply stays_trans; [done|]. eapply Hf; [apply Hst|done].
Qed.
Lemma answer_stays owner req l w r w' : sound w -> locked_ok req l w -> answer_publish owner req l w = (r, w') -> stays w w'.
Proof.
  intros Hw Hl. unfold answer_publish. assert (stays w w) as Hrefl by (split; [done|apply calm_refl]).
  destruct (ended l); try by intros [= <- <-]. destruct (transcript l) as [[i row]|]; [|by intros [= <- <-]]. apply stays_bind.
  - intros r0 w0. destruct (superseded l) as [[d m]|] eqn:Hs; [|by intros [= <- <-]].
    destruct (deleteSuperseded l) eqn:Hd; [|by intros [= <- <-]]. apply stays_bind; [|intros; apply gentle_steady; auto with gentle].
    intros r1 w1. apply cleanup_run; [done|]. intros k Hk. by eapply (ok_superseded _ _ _ Hl).
  - intros _. apply gentle_steady. apply gentle_bind; [destruct (replayed l); auto with gentle|intros _].
    apply gentle_bind; [destruct (String.eqb _ _); auto with gentle|intros _].
    destruct (authoritative req); [destruct (receipt_valid row); auto with gentle|].
    apply gentle_bind; [apply gentle_ask|]. intros [?|?]; auto with gentle.
Qed.

Definition row_recorded (req : PublishRequest) (t : option (string * Row)) (w : World) : Prop :=
  forall i row, t = Some (i, row) -> recorded req i w \/ accepted req i w.
Lemma lasting_row req t : lasting (row_recorded req t).
Proof.
  intros w w' Hw Hr i row Ht. destruct (Hr i row Ht); [left; by eapply lasting_recorded|right; by eapply lasting_accepted].
Qed.
Lemma leads_answer owner req l : leads (locked_ok req l) (attempt (answer_publish owner req l) : M World Response _)
  (fun r w => forall a, r = Ok a -> row_recorded req (published a) w).
Proof.
  intros w r w' Hw Hl Hr. unfold attempt in Hr. destruct (answer_publish owner req l w) as [r0 w0] eqn:Ha. injection Hr as <- <-.
  pose proof (answer_stays _ _ _ _ _ _ Hw Hl Ha) as Hst. split; [apply Hst|]. intros ? [= <-] a ->.
  destruct (answer_published _ _ _ _ _ _ Ha) as [He ->]. eapply lasting_row; [done|]. intros i row Ht. by eapply (ok_recorded _ _ _ Hl).
Qed.

Lemma leads_publish owner req : leads (fun _ => True) (PublishTranscript owner req) (fun a => row_recorded req (published a)).
Proof.
  unfold PublishTranscript. apply leads_after; [done|apply gentle_ask|]. intros held.
  eapply (leads_seq _ (locked_ok req)).
  { destruct held; [apply leads_locked|]. auto with gentle. }
  intros l. eapply leads_seq; [apply leads_answer|]. intros r.
  assert (lasting (fun w => forall a, r = Ok a -> row_recorded req (published a) w)) as Hlast.
  { intros w w' Hst Hr a Ha. eapply lasting_row; [done|by apply Hr]. }
  apply leads_after; [done|destruct (String.eqb _ _); auto with gentle|intros _].
  intros w r2 w2 Hw Hp [= <- <-]. by split.
Qed.

(** ** Deletion *)
Lemma leads_delete_tx {E} owner id : leads (fun _ => True) (inEncryptedTx "delete" (delete_tx owner id) : M World E _)
  (fun cx w => match cx.2 with Ok (_, deleted) => forall k, names deleted k -> dropped k w | Err _ => True end).
Proof.
  intros w r w' Hw _ (c & x & d & -> & -> & y & Hd)%in_encrypted_inv. pose proof (meanwhile_goes Hc w Hw) as (Hw1 & _ & _).
  set (w1 := meanwhile w) in *. split.
  { apply completes_cases in Hd as [->|[a Ha]]; (apply kept_goes; [done|]); [apply kept_refl|by eapply delete_kept]. }
  intros a [= <-]. destruct Hd as [[affected deleted] d Hrun|e z d' -> _|e a d d' Hrun Hor]; [|done..]. cbn.
  destruct (delete_carries _ _ _ _ _ Hrun) as (Hrow & Hrows & _). cbn in Hrow. intros k Hk.
  assert (refs (db w1) id k) as Href by (by exists deleted). split.
  - right. exists deleted. split; [|done]. right. eexists "delete", _, id. split; [apply elem_of_app; right; by left|].
    apply lookup_difference_Some. split; [done|]. by rewrite Hrows, lookup_delete_eq.
  - intros id' (r' & Hr' & Hk'). cbn in Hr'. rewrite Hrows in Hr'. apply lookup_delete_Some in Hr' as [Hne Hr'].
    apply Hne. eapply (tidy_sole _ (sound_tidy _ Hw1)); [done|]. by exists r'.
Qed.

Lemma leads_then {E A B} (R : B -> World -> Prop) (m : M World E A) f :
  gentle m -> (forall a, leads (fun _ => True) (f a) R) -> leads (fun _ => True) (m ≫= f) R.
Proof. by apply leads_after. Qed.
Lemma leads_any {E A} P (m : M World E A) : gentle m -> leads P m (fun _ _ => True).
Proof. intros Hm. eapply leads_weaken; [by apply (leads_gentle (fun _ => True))|done|done]. Qed.

Lemma leads_delete gh owner tid : leads (fun _ => True) (DeleteTranscript gh owner tid) (fun _ _ => True).
Proof.
  unfold DeleteTranscript, refuse. apply leads_then; [destruct tid; auto with gentle|intros id].
  apply leads_then; [apply gentle_ask|intros found]. apply leads_then; [destruct found; auto with gentle|intros row].
  apply leads_then; [destruct (_ =? _); auto with gentle|intros _].
  destruct (descriptorFromTranscript row) as [rd|]; [|apply leads_throw]. destruct (metadataObjectFromTranscript row) as [rm|]; [|apply leads_throw].
  eapply leads_seq; [apply leads_delete_tx|]. intros [c [[affected deleted]|e]]; cbn [fst snd].
  - destruct (negb _); [apply leads_throw|]. apply leads_after.
    { apply lasting_dropped. }
    { destruct (_ && _); auto with gentle. }
    intros _. destruct (descriptorFromTranscript deleted) as [d|] eqn:Hd, (metadataObjectFromTranscript deleted) as [m|] eqn:Hm.
    2-4: apply leads_any, gentle_bind; [apply gentle_reconcile|intros; apply gentle_throw].
    eapply leads_seq; [|intros [?|]; [apply leads_throw|by apply leads_ret]].
    eapply leads_weaken; [apply (leads_cleanup d m)| |done]. intros w Hdr k Hk. by eapply Hdr, descriptor_names.
  - apply leads_any, gentle_bind; [|auto with gentle]. destruct (Reconcile _); [apply gentle_reconcile|apply gentle_ret].
Qed.

(** ** The rewrite a read makes, and the read *)
Lemma leads_rewrite_write {E} id old plain meta : leads (supersedable id old) (stored (WriteGeneration id plain meta) : M World E _)
  (fun x w => match x with
    | Ok (new, i, m) => exists w0, (supersedable id old w0 /\ forall k, generation new m k -> newer_key w0 k) /\
        calm w0 w /\ forall k, generation new m k -> candidate k w
    | Err _ => True
    end).
Proof.
  intros w r w' Hw Hsup Hs. assert (exists x, r = Ok x) as [x ->].
  { unfold stored in Hs. destruct (WriteGeneration _ _ _ _). injection Hs as <- _. eauto. }
  destruct (write_goes Hc Hlength _ _ _ _ _ _ Hw Hs) as [Hgo Hwr]. split; [apply Hgo|]. intros y [= <-].
  destruct x as [[[cand i] m]|e]; [|done]. destruct Hwr as (_ & _ & Hk). exists w. split_and!; [done| |apply Hgo|]; apply Hk.
Qed.
Lemma leads_rewrite_tx {E} id old oldMeta new i newMeta replaced legacy w0 :
  supersedable id (Some (old, oldMeta)) w0 -> (forall k, generation new newMeta k -> newer_key w0 k) ->
  leads (fun w => calm w0 w /\ forall k, generation new newMeta k -> candidate k w)
    (inEncryptedTx "rewrite" (rewrite_tx id old new i oldMeta newMeta replaced legacy) : M World E _)
    (fun cx w => after_install (fun _ _ => True) new newMeta (generation old oldMeta) cx.1 cx.2 w).
Proof.
  intros Hsup Hnew w r w' Hw [Hcalm Hcand] Hrun.
  assert (exists c x, r = Ok (c, x) /\ sound w' /\ after_install (fun _ _ => True) new newMeta (generation old oldMeta) c x w') as (c & x & -> & Hs & Ha).
  { eapply (installing (fun _ _ => True)) in Hrun; [exact Hrun|done| |done|].
    - intros a d' Hgo Hm. apply (rewrite_installed _ _ _ _ _ _ _ _ _ _ _ (sound_tidy _ (proj1 Hgo))) in Hm as [? ?]; [done|].
      intros k Hk Hk'. apply (Hnew k Hk k); [|done]. by eapply Hsup.
    - intros k Hk. eapply current_calm; [done|]. by eapply Hsup. }
  split; [done|]. by intros [c' x'] [= <- <-].
Qed.

Lemma descriptors_equal a b : descriptorsEqual a b = true -> a = b.
Proof. apply bool_decide_eq_true. Qed.

Lemma leads_rewrite id row canonical legacy : leads (fun _ => True) (rewriteCanonicalTranscript id row canonical legacy) (fun _ _ => True).
Proof.
  unfold rewriteCanonicalTranscript, refuse. destruct (descriptorFromTranscript row) as [old|]; [|apply leads_throw].
  eapply leads_seq; [by apply (leads_read (fun _ => True))|]. intros [cur|e]; [|by intros w r w' Hw _ [= <- <-]].
  eapply (leads_seq _ (fun c w => c = cur /\ EvRead id cur ∈ log w /\ rows (db w) !! id = Some cur)).
  { apply leads_ret. by intros w (_ & ? & ? & _). }
  intros c. apply leads_pure. intros ->. destruct (descriptorFromTranscript cur) as [now|] eqn:Hd; [|apply leads_throw].
  destruct (descriptorsEqual old now) eqn:Heq; [apply descriptors_equal in Heq as <-|by apply leads_ret]. cbn.
  destruct (metadataObjectFromTranscript cur) as [oldMeta|] eqn:Hm; [|apply leads_throw].
  apply leads_sound, (leads_weaken (supersedable id (Some (old, oldMeta))) _ (fun _ _ => True) (fun _ _ => True));
    [|intros w (Hw & Hin & Hrow); by eapply read_supersedable|done].
  apply leads_after; [apply lasting_supersedable| |intros text].
  { destruct oldMeta as [m|]; [|apply gentle_ret]. apply gentle_bind; [apply gentle_stored; intros; by apply spares_read_metadata, (bucket_keeps Hc)|].
    intros [?|?]; auto with gentle. }
  apply leads_after; [apply lasting_supersedable|destruct (identityFromTranscript cur); auto with gentle|intros replaced].
  eapply leads_seq; [apply leads_rewrite_write|]. intros [[[new i] newMeta]|e].
  2:{ apply leads_any, gentle_bind; [apply gentle_write_note|auto with gentle]. }
  apply leads_exists. intros w0. apply leads_pure. intros [Hsup Hnew].
  eapply leads_seq; [by apply leads_rewrite_tx|]. intros [c x]. cbn [fst snd].
  eapply (leads_seq _ (fun _ _ => True)); [|intros _; destruct x as [?|[]]; try apply leads_throw; by apply leads_ret].
  destruct c; cbn.
  - destruct x as [a|e]; [|by intros v r2 v' Hv [(? & ? & _) _]]. cbn. eapply leads_seq; [|intros; by apply leads_ret].
    eapply leads_weaken; [apply (leads_cleanup old oldMeta)|by intros v [_ ?]|done].
  - eapply leads_seq; [|intros; by apply leads_ret].
    eapply leads_weaken; [apply (leads_cleanup new newMeta)|by intros v [_ ?]|done].
  - apply leads_any. destruct x; apply gentle_reconcile.
Qed.

Lemma gentle_read id inm initial authorize : (forall row, gentle (authorize row)) ->
  gentle (readEncryptedTranscript id inm initial authorize).
Proof.
  intros Ha. unfold readEncryptedTranscript. apply gentle_bind; [by apply gentle_attempt, gentle_read_row|]. intros [r|e]; [auto with gentle|].
  assert (gentle (throw e : M World ReadError encryptedReadResult)) as Hth by auto with gentle.
  destruct e as [[]| | |]; try exact Hth. apply gentle_bind; [apply gentle_ask|]. intros [row|]; [|auto with gentle].
  apply gentle_bind; [done|]. intros [|]; [|apply gentle_throw]. cbn.
  destruct (descriptorFromTranscript initial); [|auto with gentle]. destruct (descriptorFromTranscript row); [|auto with gentle].
  destruct (descriptorsEqual _ _); [auto with gentle|apply gentle_read_row].
Qed.
(** ** Requests *)
Inductive Request : Type :=
| RPublish (owner : Z) (req : PublishRequest)
| RDelete (gh : bool) (owner : Z) (tid : option string)
| RRewrite (id : string) (row : Row) (canonical : string) (legacy : bool)
| RRead (id ifNoneMatch : string) (initial : Row) (authorize : Row -> Db -> bool).

(** A caller's rule, asked of the tables of that moment. *)
Definition ask_rule (authorize : Row -> Db -> bool) (row : Row) : M World ReadError bool :=
  r ← ask (fun _ => EvLookup) (fun d => Ok (authorize row d));
  mret (match r with Ok b => b | Err _ => false end).
Definition serve (q : Request) (w : World) : World :=
  match q with
  | RPublish owner req => (PublishTranscript owner req w).2
  | RDelete gh owner tid => (DeleteTranscript gh owner tid w).2
  | RRewrite id row canonical legacy => (rewriteCanonicalTranscript id row canonical legacy w).2
  | RRead id inm initial authorize => (readEncryptedTranscript id inm initial (ask_rule authorize) w).2
  end.
Definition served_all (qs : list Request) (w : World) : World := foldl (fun w q => serve q w) w qs.

Lemma leads_sound_after {E A} (m : M World E A) w : leads (fun _ => True) m (fun _ _ => True) -> sound w -> sound (m w).2.
Proof. intros Hm Hw. destruct (m w) as [r w'] eqn:Hr. by eapply Hm. Qed.
Lemma serve_sound q w : sound w -> sound (serve q w).
Proof.
  destruct q; apply leads_sound_after; [eapply leads_weaken; [apply leads_publish|done|done]|apply leads_delete|apply leads_rewrite|].
  apply leads_any, gentle_read. intros row. apply gentle_bind; [apply gentle_ask|auto with gentle].
Qed.
Lemma served_sound qs : forall w, sound w -> sound (served_all qs w).
Proof. induction qs as [|q qs IH]; [done|]. intros w Hw. by apply IH, serve_sound. Qed.
End runs.

(** C5: whatever requests to publish, delete, rewrite and read a server runs, at
    every moment of the run every body and every metadata object a row names is
    in the bucket: at whatever statement the server stops, whatever fails on
    the way, and whatever other considerate servers do in between. *)
Theorem generations_stay_backed `{Crypto, BlobEnv, KeyCustodian, Env, UnicodeTables, Schema} `{!CryptoLaws, !CustodianLaws}
    (qs : list Request) (w : World) :
  considerate -> (forall l k, random_key l = Some k -> blen k = 32) ->
  tidy (db w) -> backed (db w, objects (blob w)) -> log w = [] -> blog (blob w) = [] -> past w = [] ->
  (forall id k, refs (db w) id k -> ~ mine k) ->
  Forall backed (past (served_all qs w)) /\ tidy (db (served_all qs w)) /\
  backed (db (served_all qs w), objects (blob (served_all qs w))).
Proof.
  intros Hc Hlength Ht Hb Hl Hbl Hp Hm.
  assert (sound w) as Hw by (split; [done|done|intros id k Hr Hk; by destruct (Hm id k)|by rewrite Hp]).
  destruct (served_sound Hc Hlength qs w Hw) as [? ? _ ?]. done.
Qed.

(** C6: what a publish answered is stored: in some state of the run the row the
    answer names describes a body in the bucket that opens to exactly the content
    of the request, and a metadata object that opens to exactly its metadata;
    unless the request is a replay of one accepted before. The contract's hash of
    the content is taken to be the store's. *)
Theorem published_reads_back `{Crypto, BlobEnv, KeyCustodian, Env, UnicodeTables, Schema} `{!CryptoLaws, !CustodianLaws}
    (owner : Z) (req : PublishRequest) (w w' : World) (a : Response) (i : string) (row : Row) :
  considerate -> (forall l k, random_key l = Some k -> blen k = 32) -> sound w -> declared req ->
  PublishTranscript owner req w = (Ok a, w') -> published a = Some (i, row) ->
  (exists s r d m, s ∈ past w' /\ rows s.1 !! i = Some r /\ descriptorFromTranscript r = Some d /\
    identityFromTranscript r = Some (LoadedKnown (identity (Content req))) /\ metadataObjectFromTranscript r = Some m /\
    forall b, objects b = s.2 -> served (blog b) = Served_ok ->
      (Read i d (LoadedKnown (identity (Content req))) b).1 = Ok (Content req, identity (Content req)) /\
      match PublishMetadata req, m with
      | Some text, Some mo => (ReadMetadata i d mo b).1 = Ok text
      | None, None => True
      | _, _ => False
      end) \/
  (authoritative req = true /\ exists s r, s ∈ past w' /\ rows s.1 !! i = Some r /\ AcceptedFingerprint r = Fingerprint req).
Proof.
  intros Hc Hlength Hw Hd Hrun Hpub. destruct (leads_publish Hc Hlength owner req w (Ok a) w' Hw I Hrun) as [_ Hrec].
  destruct (Hrec a eq_refl i row Hpub) as [Hs|Ha]; [left|by right]. destruct (Hs Hd) as (s & Hin & r & d & m & Hr & Hdesc & Hid & Hm & Hwr).
  exists s, r, d, m. split_and!; [done..|]. intros b Hb Hok. rewrite <- Hb in Hwr.
  destruct (written_reads _ _ _ _ _ _ _ (bucket_keeps Hc) Hwr Hok) as (? & _ & ?). done.
Qed.
End PublishRuns.
