(* ===== verification/PublishAudience.v ===== *)
(** * A republish gives its audience back

    Who may read a transcript while its content is replaced: the visibility it
    had, or nobody but the owner; and once the request is answered, what it had,
    or a response that says otherwise. *)
From S2P Require Import Prelude GoText Regex RepoName Digest Governance BlobStore BlobLaws PublishStore Publish PublishBodies GenerationLaws PublishLaws.

Open Scope string_scope.
Open Scope list_scope.
Open Scope Z_scope.

Module PublishAudience.
Import Governance BlobStore BlobLaws PublishStore Publish PublishBodies GenerationLaws PublishLaws.

Section audience.
Context `{Crypto, BlobEnv, KeyCustodian, Env, UnicodeTables, Schema}.
(** The transcript, its session and its visibility. *)
Context (id : string) (owner : Z) (localID v : string).

(** While the publish holds its locks, others leave the row's visibility and
    its session alone, bring no row with this identifier about, and keep the
    table's uniqueness. *)
Record undisturbed : Prop := {
  steady_source : forall l d o, one_source d -> one_source (others l (d, o)).1;
  steady_row : forall l d o r', rows (others l (d, o)).1 !! id = Some r' ->
    exists r, rows d !! id = Some r /\ Visibility r' = Visibility r /\ same_source r r';
  unlike_id : forall l, new_uuid l <> id
}.
Context (Hu : undisturbed).

Definition shows (P : string -> Prop) (d : Db) : Prop := forall r, rows d !! id = Some r ->
  OwnerID r = owner /\ LocalID r = localID /\ P (Visibility r).
Definition narrowed_or_not (s : string) : Prop := s = v \/ s = "private".
Definition within (P : string -> Prop) : Prop := forall s, P s -> narrowed_or_not s.

(** Now [P]; never wider than before. *)
Record at_ (P : string -> Prop) (w : World) : Prop := {
  at_source : one_source (db w);
  at_now : shows P (db w);
  at_past : Forall (fun s => shows narrowed_or_not s.1) (past w)
}.

Lemma shows_weaken (P Q : string -> Prop) d : (forall s, P s -> Q s) -> shows P d -> shows Q d.
Proof. intros HPQ Hs r (? & ? & ?)%Hs. auto. Qed.
Lemma at_weaken (P Q : string -> Prop) w : (forall s, P s -> Q s) -> at_ P w -> at_ Q w.
Proof. intros HPQ [? ? ?]. split; [done|by eapply shows_weaken|done]. Qed.
Lemma at_after P e d b w : within P -> one_source d -> shows P d -> at_ P w -> at_ P (after e d b w).
Proof. intros HP Hd Hs [? ? ?]. split; [done|done|]. apply Forall_app. split; [done|]. constructor; [by eapply shows_weaken|done]. Qed.
Lemma at_set (P Q : string -> Prop) e d b w : within Q -> one_source d -> shows Q d -> at_ P w -> at_ Q (after e d b w).
Proof. intros HQ Hd Hs [? ? ?]. split; [done|done|]. apply Forall_app. split; [done|]. constructor; [by eapply shows_weaken|done]. Qed.

Lemma at_meanwhile P w : within P -> at_ P w -> at_ P (meanwhile w).
Proof.
  intros HP [Hs Hn Hp]. unfold meanwhile. pose proof (steady_source Hu (log w) (db w) (objects (blob w)) Hs) as Hs'.
  assert (shows P (others (log w) (db w, objects (blob w))).1) as Hn'.
  { intros r' (r & Hr & -> & [Ho Hl])%(steady_row Hu). rewrite <- Ho, <- Hl. by apply Hn. }
  split; [done|done|]. apply Forall_app. split; [done|]. constructor; [by eapply shows_weaken|done].
Qed.

(** ** Steps that leave it alone *)
Definition leaves {E A} (P : string -> Prop) (m : M World E A) : Prop := keeps (at_ P) m.
Lemma leaves_note {E} P e : leaves P (note e : M World E unit).
Proof. intros w []. by split. Qed.
Lemma leaves_ask {E A} P (e : A -> Event) f : within P -> leaves P (ask e f : M World E (result TxError A)).
Proof.
  intros HP w Hw. unfold ask. pose proof (at_meanwhile P w HP Hw) as Hm. set (w1 := meanwhile w) in *.
  destruct (if answered (log w1) then f (db w1) else Err TxFailed); (apply at_after; [done|apply Hm|apply Hm|done]).
Qed.
Lemma leaves_stored {E A} P (m : M BlobWorld BlobError A) : within P -> leaves P (stored m : M World E _).
Proof.
  intros HP w Hw. unfold stored. pose proof (at_meanwhile P w HP Hw) as Hm. set (w1 := meanwhile w) in *.
  destruct (m (blob w1)). apply at_after; [done|apply Hm|apply Hm|done].
Qed.

(** A transaction whose body turns [P] into [Q]. *)
Lemma at_transact {E A} P (Q : A -> string -> Prop) (R : A -> Prop) name (m : Tx A) w r w' :
  within P -> (forall a, within (Q a)) -> at_ P w ->
  (forall d a d', one_source d -> shows P d -> carries m d a d' -> one_source d' /\ shows (Q a) d' /\ R a) ->
  (transact name m : M World E _) w = (r, w') ->
  exists c x y, r = Ok (c, x, y) /\ (forall a, y = Some a -> R a) /\
    match c, x with
    | TransactionCommitted, Ok a => y = Some a /\ at_ (Q a) w'
    | TransactionKnownRollback, Err _ => at_ P w'
    | TransactionCommitAmbiguous, Err _ => exists a, y = Some a /\ at_ (fun s => P s \/ Q a s) w'
    | _, _ => False
    end.
Proof.
  intros HP HQ Hw Hm (c & x & y & d & -> & -> & Hd)%transact_inv. pose proof (at_meanwhile P w HP Hw) as Hw1.
  set (w1 := meanwhile w) in *. exists c, x, y. split; [done|].
  assert (forall a d', carries m (db w1) a d' -> one_source d' /\ shows (Q a) d' /\ R a) as Hbody by (intros; eapply Hm; [apply Hw1..|done]).
  assert (at_ P (committed name (db w1) w1)) as Hback by (apply at_after; [done|apply Hw1|apply Hw1|done]).
  destruct Hd as [a d Hrun|e z d' -> Hz|e a d d' Hrun Hor].
  - destruct (Hbody a d Hrun) as (Hs & Hq & HR). split; [by intros ? [= <-]|]. split; [done|]. by eapply at_set.
  - split; [|done]. intros a ->. destruct (Hz a eq_refl) as [d' Hrun]. by destruct (Hbody a d' Hrun) as (_ & _ & ?).
  - destruct (Hbody a d Hrun) as (Hs & Hq & HR). split; [by intros ? [= <-]|]. exists a. split; [done|].
    destruct Hor as [->| ->]; [eapply at_weaken; [by left|done]|]. eapply at_set; [|done|eapply shows_weaken; [by right|done]|done].
    intros s [?|?]; [by apply HP|by eapply HQ].
Qed.
Lemma leaves_in_tx {E A} P name (m : Tx A) : within P -> looks m -> leaves P (inTxAs name m : M World E _).
Proof.
  intros HP Hm. unfold inTxAs. apply keeps_bind; [|intros [[c x] y]; apply keeps_ret]. intros w Hw.
  destruct (transact name m w) as [r w'] eqn:Hr. eapply (at_transact P (fun _ => P) (fun _ => True)) in Hr; [|done..|].
  - destruct Hr as (c & x & y & -> & _ & Hc). destruct c, x; try done; [by destruct Hc|]. destruct Hc as (a & _ & Hc).
    eapply at_weaken; [|done]. by intros s [?|?].
  - intros d a d' Hs Hp Hrun. by rewrite (Hm _ _ _ Hrun).
Qed.

(** ** Bodies *)
Lemma update_one_source d d' i r r' : one_source d -> rows d !! i = Some r -> same_source r r' -> rows d' = <[i := r']> (rows d) ->
  one_source d'.
Proof.
  intros Hone Hr Hsame Hd a b x y. rewrite Hd.
  assert (forall j z, (<[i := r']> (rows d) : gmap string Row) !! j = Some z -> exists z0, rows d !! j = Some z0 /\ same_source z0 z) as Hback.
  { intros j z. destruct (decide (j = i)) as [->|Hne]; [rewrite lookup_insert_eq; intros [= <-]; eauto|].
    rewrite lookup_insert_ne by done. intros Hz. by exists z. }
  intros (x0 & Hx & Hsx)%Hback (y0 & Hy & Hsy)%Hback Hxy. apply (Hone a b x0 y0 Hx Hy).
  eapply same_source_trans; [done|]. eapply same_source_trans; [done|]. by apply same_source_sym.
Qed.
Lemma seen_by_shows d pre (P : string -> Prop) vis : one_source d -> shows (fun _ => True) d -> rows d !! id = Some pre -> P vis ->
  let d' := set_rows (<[id := seen_by vis pre]> (rows d)) d in one_source d' /\ shows P d'.
Proof.
  intros Hone Hs Hpre HP d'. split; [by apply (update_one_source d _ id pre (seen_by vis pre))|]. intros r. cbn. rewrite lookup_insert_eq. intros [= <-].
  destruct (Hs pre Hpre) as (? & ? & _). by split_and!.
Qed.
Lemma shows_true P d : shows P d -> shows (fun _ => True) d.
Proof. by apply shows_weaken. Qed.

(** The visibility while a publish that narrowed from [from] is under way. *)
Definition meantime (from : string) : string := if String.eqb from "" then v else "private".
Definition narrowing (from : string) : Prop := if String.eqb from "" then v = "private" else from = v /\ v <> "private".
Lemma narrowing_target from : (from = "" \/ narrowing from) -> republishRestoreTarget (meantime from) from = v.
Proof.
  unfold meantime, narrowing, republishRestoreTarget. destruct (String.eqb_spec from "") as [->|Hne]; [done|].
  intros [->|[-> _]]; [done|]. by destruct (String.eqb_spec v "").
Qed.
Lemma within_meantime from : within (eq (meantime from)).
Proof. unfold meantime. intros s <-. destruct (String.eqb from ""); [by left|by right]. Qed.
Lemma within_eq : within (eq v).
Proof. intros s <-. by left. Qed.
Lemma within_both : within narrowed_or_not.
Proof. by intros s. Qed.

Lemma narrow_body d from d' : v <> "private" -> v <> "" -> one_source d -> shows (eq v) d ->
  carries (r ← attempt (narrowForRepublish id); match r with Ok from => mret from | Err _ => throw TxFailed end : Tx string) d from d' ->
  one_source d' /\ shows (eq "private") d' /\ from = v.
Proof.
  intros Hv Hne Hone Hs (pre & Hpre & -> & ->)%narrow_carries. destruct (Hs pre Hpre) as (_ & _ & Hvis).
  destruct (seen_by_shows d pre (eq "private") "private") as [? ?]; [done|by eapply shows_true|done|done|]. split_and!; [done|done|].
  rewrite <- Hvis. by destruct (String.eqb_spec v "private").
Qed.
Lemma restore_body d from x d' : narrowing from -> one_source d -> shows (eq (meantime from)) d ->
  carries (r ← attempt (restoreNarrowedVisibility id from); match r with Ok _ => mret tt | Err _ => throw TxFailed end : Tx unit) d x d' ->
  one_source d' /\ shows (eq v) d'.
Proof.
  intros Hn Hone Hs (pre & Hpre & ->)%restore_carries. destruct (Hs pre Hpre) as (_ & _ & Hvis).
  apply seen_by_shows; [done|by eapply shows_true|done|]. rewrite <- Hvis. symmetry. apply narrowing_target. by right.
Qed.
Lemma finished_visibility req m r : Visibility (finished req m r) = Visibility r.
Proof. unfold finished. by destruct (metadataObjectParams m) as [[]], (Fingerprint req). Qed.
Lemma republish_body req cand i m from d x d' : SessionID req = localID -> narrowing from -> one_source d ->
  shows (eq (meantime from)) d -> carries (republish_tx owner id req (transcriptParams owner req cand i) from m) d x d' ->
  one_source d' /\ shows (eq v) d'.
Proof.
  intros Hl Hn Hone Hs (pre & tid & old & Hpre & Hsrc & Hrows & _)%republish_carries.
  apply source_row_some in Hsrc as (Hold & Ho & Hlo). cbn in Ho, Hlo. destruct (Hs pre Hpre) as (Hpo & Hpl & Hvis).
  assert (tid = id) as -> by (eapply Hone; [done..|]; split; congruence). rewrite Hpre in Hold. injection Hold as <-.
  set (params := with_governance _ _ _ _ _) in *. split.
  - eapply update_one_source; [done|done| |done]. apply (finished_source req m (republished params pre)).
  - intros r. rewrite Hrows, lookup_insert_eq. intros [= <-]. rewrite finished_visibility.
    destruct (finished_source req m (republished params pre)) as [<- <-]. split_and!; [done|done|].
    cbn. rewrite <- Hvis. symmetry. apply narrowing_target. by right.
Qed.
Lemma create_body id' req params m P d x d' : id' <> id -> one_source d -> shows P d ->
  carries (create_tx (OwnerID params) id' req params m) d x d' -> one_source d' /\ shows P d'.
Proof.
  intros Hne Hone Hs (Hnone & Hsrc & Hrows & _)%create_carries. destruct (finished_source req m (created params)) as [Ho Hl].
  assert (forall j z, rows d !! j = Some z -> ~ same_source z (finished req m (created params))) as Hnew.
  { intros j z Hz [Hzo Hzl]. eapply source_row_none; [exact Hsrc|exact Hz|..]; cbn in *; congruence. }
  split.
  - intros a b y z. rewrite Hrows. destruct (decide (a = id')) as [->|Ha], (decide (b = id')) as [->|Hb]; [done|..];
      rewrite ?lookup_insert_eq, ?lookup_insert_ne by done.
    + intros [= <-] Hz Hyz%same_source_sym. by destruct (Hnew _ _ Hz).
    + intros Hy [= <-] Hyz. by destruct (Hnew _ _ Hy).
    + by apply Hone.
  - intros r. rewrite Hrows, lookup_insert_ne by done. apply Hs.
Qed.

(** ** Runs *)
Definition yields {E A} (P : World -> Prop) (m : M World E A) (Q : A -> World -> Prop) : Prop :=
  forall w, P w -> exists a w', m w = (Ok a, w') /\ Q a w'.

Lemma yields_ret {E A} (P : World -> Prop) (Q : A -> World -> Prop) (a : A) :
  (forall w, P w -> Q a w) -> yields P (mret a : M World E A) Q.
Proof. intros HQ w Hw. exists a, w. auto. Qed.
Lemma yields_bind {E A B} P Q (R : B -> World -> Prop) (m : M World E A) (f : A -> M World E B) :
  yields P m Q -> (forall a, yields (Q a) (f a) R) -> yields P (m ≫= f) R.
Proof. intros Hm Hf w Hw. destruct (Hm w Hw) as (a & w1 & Hr & Ha). rewrite M_bind_unfold, Hr. by apply Hf. Qed.
Lemma yields_weaken {E A} (P P' : World -> Prop) (Q Q' : A -> World -> Prop) (m : M World E A) :
  yields P m Q -> (forall w, P' w -> P w) -> (forall a w, Q a w -> Q' a w) -> yields P' m Q'.
Proof. intros Hm HP HQ w Hw. destruct (Hm w (HP _ Hw)) as (a & w1 & ? & ?). eauto. Qed.
Lemma yields_pure {E A} (P0 : Prop) P (m : M World E A) (Q : A -> World -> Prop) :
  (P0 -> yields P m Q) -> yields (fun w => P0 /\ P w) m Q.
Proof. intros Hm w [? ?]. by apply Hm. Qed.
Lemma yields_note {E} P e : yields (at_ P) (note e : M World E unit) (fun _ => at_ P).
Proof. intros w Hw. eexists _, _. split; [done|]. by destruct Hw. Qed.
Lemma yields_ask {E A} P (e : A -> Event) f : within P ->
  yields (at_ P) (ask e f : M World E (result TxError A)) (fun r w => at_ P w /\ match r with Ok a => f (db w) = Ok a | Err _ => True end).
Proof.
  intros HP w Hw. pose proof (leaves_ask (E := E) P e f HP w Hw) as Hl. unfold ask in *.
  destruct (if answered (log (meanwhile w)) then f (db (meanwhile w)) else Err TxFailed) as [a|x] eqn:Hf; (eexists _, _; split; [done|]; split; [exact Hl|]); [|done].
  cbn. by destruct (answered _).
Qed.
Lemma yields_asked {E A} P (e : A -> Event) f : within P ->
  yields (at_ P) (ask e f : M World E (result TxError A)) (fun _ => at_ P).
Proof. intros HP. eapply yields_weaken; [by apply yields_ask|done|by intros ? ? []]. Qed.
Lemma yields_stored {E A} P (m : M BlobWorld BlobError A) : within P -> yields (at_ P) (stored m : M World E _) (fun _ => at_ P).
Proof.
  intros HP w Hw. pose proof (leaves_stored (E := E) P m HP w Hw) as Hl. unfold stored in *. destruct (m _).
  eexists _, _. by split.
Qed.
Lemma yields_transact {E A} P (Q : A -> string -> Prop) (R : A -> Prop) name (m : Tx A) :
  within P -> (forall a, within (Q a)) ->
  (forall d a d', one_source d -> shows P d -> carries m d a d' -> one_source d' /\ shows (Q a) d' /\ R a) ->
  yields (at_ P) (transact name m : M World E _) (fun z w => let '(c, x, y) := z in (forall a, y = Some a -> R a) /\
    match c, x with
    | TransactionCommitted, Ok a => y = Some a /\ at_ (Q a) w
    | TransactionKnownRollback, Err _ => at_ P w
    | TransactionCommitAmbiguous, Err _ => exists a, y = Some a /\ at_ (fun s => P s \/ Q a s) w
    | _, _ => False
    end).
Proof.
  intros HP HQ Hm w Hw. destruct (transact name m w) as [r w'] eqn:Hr.
  destruct (at_transact P Q R name m w r w' HP HQ Hw Hm Hr) as (c & x & y & -> & HR & Hc). eexists _, _. split; [done|]. by split.
Qed.
Lemma yields_preflight {E A} P name (m : Tx A) : within P -> looks m -> yields (at_ P) (inTxAs name m : M World E _) (fun _ => at_ P).
Proof.
  intros HP Hm. eapply yields_bind; [apply (yields_transact P (fun _ => P) (fun _ => True)); [done..|]|].
  - intros d a d' Hone Hs Hrun. by rewrite (Hm _ _ _ Hrun).
  - intros [[c x] y]. apply yields_ret. intros w [_ Hw]. destruct c, x; try done; [by destruct Hw|].
    destruct Hw as (a & _ & Hw). eapply at_weaken; [|done]. by intros s [?|?].
Qed.

Lemma yields_metadata_note {E} P m : yields (at_ P) (emitMetadataReconciliation m : M World E unit) (fun _ => at_ P).
Proof. destruct m; [apply yields_note|by apply yields_ret]. Qed.
Lemma yields_write_note {E} P e : yields (at_ P) (emitUncommittedWriteReconciliation e : M World E unit) (fun _ => at_ P).
Proof. destruct e; try (by apply yields_ret). apply yields_note. Qed.
Lemma yields_remove {E} P key m : within P -> yields (at_ P) (deleteForCleanup key m : M World E bool) (fun _ => at_ P).
Proof.
  intros HP. eapply yields_bind; [by apply yields_stored|]. intros [?|?]; [by apply yields_ret|].
  eapply yields_bind; [apply yields_note|]. intros ?. by apply yields_ret.
Qed.
Lemma yields_cleanup {E} P d m : within P -> yields (at_ P) (deleteGenerationForCleanup d m : M World E _) (fun _ => at_ P).
Proof.
  intros HP. eapply yields_bind; [by apply yields_remove|]. intros kept.
  eapply (yields_bind _ (fun _ => at_ P)); [destruct m; [by apply yields_remove|by apply yields_ret]|]. intros kept_metadata. by apply yields_ret.
Qed.
Lemma yields_conflict {E} P ido req : within P -> yields (at_ P) (no_association_conflict owner ido req : M World E _) (fun e w =>
  at_ P w /\ e <> Some Stored).
Proof.
  intros HP. unfold no_association_conflict. destruct (bool_decide _); [by apply yields_ret|].
  eapply yields_bind; [by apply yields_preflight, looks_validate|]. intros [r y]. apply yields_ret. intros w Hw. split; [done|].
  destruct r as [?|[]]; done.
Qed.

(** Restoring puts it back, or says that it may not have. *)
Lemma yields_restore {E} from : narrowing from ->
  yields (at_ (eq (meantime from))) (restoreRepublishAudience id from : M World E bool)
    (fun back => at_ (fun s => s = v \/ s = "private" /\ back = false /\ from = v)).
Proof.
  intros Hn. unfold restoreRepublishAudience. pose proof Hn as Hn0. unfold narrowing in Hn0. unfold meantime.
  destruct (String.eqb from "") eqn:Hf.
  - apply yields_ret. intros w Hw. eapply at_weaken; [|done]. intros s <-. by left.
  - destruct Hn0 as [-> Hv]. assert (meantime v = "private") as Hmt by (unfold meantime; by rewrite Hf).
    eapply yields_bind; [apply (yields_bind (at_ (eq "private")) (fun z w => let '(c, x, y) := z in
      at_ (fun s => s = v \/ s = "private" /\ is_ok x = false) w))|].
    + eapply yields_weaken; [apply (yields_transact (eq "private") (fun _ => eq v) (fun _ => True))|done|].
      * rewrite <- Hmt. apply within_meantime.
      * intros _. apply within_eq.
      * intros d x d' Hone Hs Hrun. rewrite <- Hmt in Hs. by destruct (restore_body d v x d' Hn Hone Hs Hrun).
      * intros [[c x] y] w [_ Hw]. destruct c, x; try done.
        -- destruct Hw as [_ Hw]. eapply at_weaken; [|done]. intros s <-. by left.
        -- eapply at_weaken; [|done]. intros s <-. by right.
        -- destruct Hw as (a & _ & Hw). eapply at_weaken; [|done]. intros s [<-|<-]; [by right|by left].
    + intros [[c x] y]. by apply (yields_ret _ (fun z w => at_ (fun s => s = v \/ s = "private" /\ is_ok z.1 = false) w)).
    + intros [x y]. apply yields_ret. intros w Hw. eapply at_weaken; [|done]. intros s [?|[? ?]]; [by left|by right].
Qed.

(** ** The locked section *)

(** What it says of the visibility it leaves. *)
Definition settled (l : Locked) (s : string) : Prop :=
  s = v \/ s = "private" /\ narrowedFrom l = v /\ v <> "" /\ audienceLeftPrivate l = true /\ ended l <> Stored.
Definition left_so (from : string) (b : bool) (s : string) : Prop := s = v \/ s = "private" /\ b = true /\ from = v /\ v <> "".
Lemma settled_v l : forall s, v = s -> settled l s.
Proof. intros s <-. by left. Qed.
Lemma within_settled l : within (settled l).
Proof. intros s [?|[? _]]; [by left|by right]. Qed.
Lemma within_left from b : within (left_so from b).
Proof. intros s [?|[? _]]; [by left|by right]. Qed.

Definition tx_left (P : string -> Prop) {A} (z : TransactionCompletion * result TxError A) (w : World) : Prop :=
  match z.1, z.2 with
  | TransactionCommitted, Ok _ => at_ (eq v) w
  | TransactionKnownRollback, Err _ => at_ P w
  | TransactionCommitAmbiguous, Err _ => at_ (fun s => P s \/ v = s) w
  | _, _ => False
  end.
Lemma yields_encrypted {E A} (P : string -> Prop) name (m : Tx A) : within P ->
  (forall d a d', one_source d -> shows P d -> carries m d a d' -> one_source d' /\ shows (eq v) d') ->
  yields (at_ P) (inEncryptedTx name m : M World E _) (tx_left P).
Proof.
  intros HP Hm. eapply yields_bind; [apply (yields_transact P (fun _ => eq v) (fun _ => True)); [done|intros _; apply within_eq|]|].
  - intros d a d' Hone Hs Hrun. by destruct (Hm d a d' Hone Hs Hrun).
  - intros [[c x] y]. apply yields_ret. intros w [_ Hw]. destruct c, x; try done; [by destruct Hw|]. by destruct Hw as (a & _ & Hw).
Qed.

Section install.
Context {E : Type} (op : Lifecycle) (i from : string) (req : PublishRequest) (old : option (BlobDescriptor * option MetadataObject)).
Context (P : string -> Prop).
Context (HP : forall s, P s -> left_so from (negb (String.eqb from "")) s).
Context (Hrestore : yields (at_ P) (restoreRepublishAudience i from : M World E bool) (fun back => at_ (left_so from (negb back)))).
Context (Htx : forall cand j m, yields (at_ P) (if match op with Create => false | _ => true end
  then inEncryptedTx "republish" (republish_tx owner i req (transcriptParams owner req cand j) from m)
  else inEncryptedTx "create" (create_tx owner i req (transcriptParams owner req cand j) m) : M World E _) (tx_left P)).

Lemma within_P : within P.
Proof. intros s Hs. by eapply within_left, HP. Qed.

Lemma yields_install : yields (at_ P) (install op owner i req from old : M World E Locked) (fun l => at_ (settled l)).
Proof.
  unfold install. eapply yields_bind; [apply yields_stored, within_P|]. intros [[[cand j] m]|e].
  2:{ eapply yields_bind; [apply yields_write_note|intros ?]. eapply yields_bind; [apply Hrestore|]. intros back. apply yields_ret.
      intros w Hw. eapply at_weaken; [|done]. intros s [?|(? & ? & ? & ?)]; [by left|right; by split_and!]. }
  eapply yields_bind; [apply Htx|]. intros [c x].
  eapply (yields_bind _ (fun left_private => at_ (fun s => left_so from left_private s /\ (is_ok x = true -> s = v)))).
  { destruct c, x; cbn; try by intros w [].
    - apply yields_ret. intros w Hw. eapply at_weaken; [|exact Hw]. intros s <-. split; [by left|by intros _].
    - eapply yields_bind; [apply Hrestore|]. intros back. apply yields_ret. intros w Hw. eapply at_weaken; [|done]. intros s Hs. split; [done|by intros].
    - apply yields_ret. intros w Hw. eapply at_weaken; [|exact Hw]. intros s [Hs|<-]; (split; [|by intros]); [by apply HP|by left]. }
  intros left_private. set (Q := fun s => left_so from left_private s /\ (is_ok x = true -> s = v)).
  assert (within Q) as HQ by (intros s [Hs _]; by eapply within_left).
  eapply (yields_bind _ (fun _ => at_ Q)).
  { destruct (DeleteCandidate _); [by apply yields_cleanup|]. destruct (Reconcile _); [|by apply yields_ret].
    eapply yields_bind; [apply yields_note|intros ?]. eapply yields_bind; [apply yields_metadata_note|intros ?]. by apply yields_ret. }
  intros retained. destruct x as [[row applied]|[]]; apply yields_ret; intros w Hw; (eapply at_weaken; [|done]);
    intros s [Hs Hok]; try (left; by apply Hok); (destruct Hs as [?|(? & ? & ? & ?)]; [by left|right; by split_and!]).
Qed.
End install.

Lemma meantime_left from s : narrowing from -> meantime from = s -> left_so from (negb (String.eqb from "")) s.
Proof.
  unfold narrowing, meantime. destruct (String.eqb_spec from "") as [->|Hne]; [intros _ <-; by left|].
  intros [-> ?] <-. right. by split_and!.
Qed.
Lemma yields_install_republish {E} req from old : SessionID req = localID -> narrowing from ->
  yields (at_ (eq (meantime from))) (install Republish owner id req from old : M World E Locked) (fun l => at_ (settled l)).
Proof.
  intros Hl Hn. apply yields_install; [intros s Hs; by apply meantime_left| |].
  - eapply yields_weaken; [by apply yields_restore|done|]. intros back w Hw. eapply at_weaken; [|exact Hw].
    intros s [?|(? & -> & ?)]; [by left|right]. unfold narrowing in Hn.
    destruct (String.eqb_spec from "") as [->|?]; [|destruct Hn; subst; by split_and!].
    unfold left_so. subst. split_and!; try done. congruence.
  - intros cand j m. apply yields_encrypted; [apply within_meantime|]. intros d a d' Hone Hs Hrun. by eapply republish_body.
Qed.
Lemma yields_install_create {E} req i old : i <> id ->
  yields (at_ (eq v)) (install Create owner i req "" old : M World E Locked) (fun l => at_ (settled l)).
Proof.
  intros Hi. apply yields_install; [intros s <-; by left| |].
  - apply yields_ret. intros w Hw. eapply at_weaken; [|done]. intros s <-. by left.
  - intros cand j m. apply yields_encrypted; [apply within_eq|]. intros d a d' Hone Hs Hrun.
    eapply (create_body i req (transcriptParams owner req cand j)); done.
Qed.

Lemma at_any l w : at_ (eq v) w -> at_ (settled l) w.
Proof. apply at_weaken, settled_v. Qed.
Lemma yields_settled {E} (l : Locked) : yields (at_ (eq v)) (mret l : M World E Locked) (fun l => at_ (settled l)).
Proof. apply yields_ret, at_any. Qed.

Lemma yields_narrow {E} : v <> "private" -> v <> "" ->
  yields (at_ (eq v)) (inTxAs "narrow" (r ← attempt (narrowForRepublish id);
      match r with Ok from => mret from | Err _ => throw TxFailed end) : M World E _)
    (fun z w => match z with
      | (Ok from, _) => from = v /\ at_ (eq "private") w
      | (Err _, set) => at_ (left_so (default "" set) (negb (String.eqb (default "" set) ""))) w
      end).
Proof.
  intros Hv Hne. eapply yields_bind; [apply (yields_transact (eq v) (fun _ => eq "private") (fun from => from = v))|].
  - apply within_eq.
  - intros ? s <-. by right.
  - intros d from d' Hone Hs Hrun. by apply (narrow_body d from d').
  - intros [[c x] y]. apply yields_ret. intros w [Hy Hw]. destruct c, x as [from|e]; try done.
    + destruct Hw as [-> Hw]. split; [by apply Hy|done].
    + eapply at_weaken; [|exact Hw]. intros s <-. by left.
    + destruct Hw as (from & -> & Hw). rewrite (Hy from eq_refl). eapply at_weaken; [|exact Hw]. cbn. intros s [<-|<-]; [by left|right].
      split_and!; try done. by destruct (String.eqb_spec v "").
Qed.

Lemma yields_republish {E} req : SessionID req = localID -> v <> "" ->
  yields (at_ (eq v)) (republish owner id req : M World E Locked) (fun l => at_ (settled l)).
Proof.
  intros Hl Hne. unfold republish. eapply yields_bind; [apply yields_ask, within_eq|]. intros [row|e]; cbn.
  2:{ eapply yields_weaken; [apply yields_settled|by intros w []|done]. }
  destruct (descriptorFromTranscript row) as [d|]; [|eapply yields_weaken; [apply yields_settled|by intros w []|done]].
  destruct (metadataObjectFromTranscript row) as [m|]; [|eapply yields_weaken; [apply yields_settled|by intros w []|done]].
  apply (yields_weaken (fun w => Visibility row = v /\ at_ (eq v) w) _ (fun l => at_ (settled l)) (fun l => at_ (settled l))); [apply yields_pure| |done].
  2:{ intros w [Hw Hr]. split; [|done]. destruct (rows (db w) !! id) as [r|] eqn:Hid; [|done]. injection Hr as ->.
      destruct (at_now _ _ Hw row Hid) as (_ & _ & Hvis). done. }
  intros Hvis. destruct (_ && _).
  - eapply yields_bind; [apply yields_ask, within_eq|]. intros [l|]; [destruct (valid_associations l)|];
      (eapply yields_weaken; [apply yields_settled|by intros w []|done]).
  - rewrite Hvis. destruct (String.eqb_spec v "private") as [Hp|Hp].
    + eapply (yields_weaken (at_ (eq (meantime "")))); [by apply yields_install_republish|done|done].
    + eapply yields_bind; [by apply yields_narrow|]. intros [[from|e] set].
      * apply yields_pure. intros ->. assert (meantime v = "private") as Hm by (unfold meantime; by destruct (String.eqb_spec v "")).
        rewrite <- Hm. apply yields_install_republish; [done|]. unfold narrowing. by destruct (String.eqb_spec v "").
      * apply yields_ret. intros w Hw. eapply at_weaken; [|exact Hw]. intros s [?|(? & ? & ? & ?)]; [by left|right].
        cbn. by split_and!.
Qed.

(** *** Once the row is gone *)
Definition absent : string -> Prop := fun _ => False.
Lemma within_absent : within absent.
Proof. by intros s []. Qed.
Lemma absent_any l w : at_ absent w -> at_ (settled l) w.
Proof. by apply at_weaken. Qed.
Lemma update_absent d d' i r r' : one_source d -> shows absent d -> rows d !! i = Some r -> same_source r r' ->
  rows d' = <[i := r']> (rows d) -> one_source d' /\ shows absent d'.
Proof.
  intros Hone Hs Hr Hsame Hd. split; [by eapply update_one_source|]. intros x. rewrite Hd.
  destruct (decide (i = id)) as [->|Hne]; [by destruct (Hs r Hr) as (_ & _ & [])|]. rewrite lookup_insert_ne by done. apply Hs.
Qed.
Lemma seen_by_absent d i vis pre : one_source d -> shows absent d -> rows d !! i = Some pre ->
  let d' := set_rows (<[i := seen_by vis pre]> (rows d)) d in one_source d' /\ shows absent d'.
Proof. intros Hone Hs Hpre. by apply (update_absent d _ i pre (seen_by vis pre)). Qed.
Definition stays_absent {A} (m : Tx A) : Prop := forall d a d', one_source d -> shows absent d -> carries m d a d' ->
  one_source d' /\ shows absent d'.
Lemma yields_absent {E A} name (m : Tx A) : stays_absent m -> yields (at_ absent) (inTxAs name m : M World E _) (fun _ => at_ absent).
Proof.
  intros Hm. eapply yields_bind; [apply (yields_transact absent (fun _ => absent) (fun _ => True)); [apply within_absent|intros _; apply within_absent|]|].
  - intros d a d' Hone Hs Hrun. by destruct (Hm d a d' Hone Hs Hrun).
  - intros [[c x] y]. apply yields_ret. intros w [_ Hw]. destruct c, x; try done; [by destruct Hw|].
    destruct Hw as (a & _ & Hw). eapply at_weaken; [|done]. by intros s [?|?].
Qed.
Lemma yields_absent_tx {E A} name (m : Tx A) : stays_absent m -> yields (at_ absent) (inEncryptedTx name m : M World E _) (tx_left absent).
Proof.
  intros Hm. apply yields_encrypted; [apply within_absent|]. intros d a d' Hone Hs Hrun.
  destruct (Hm d a d' Hone Hs Hrun) as [? Hs']. split; [done|]. eapply shows_weaken; [|done]. by intros s [].
Qed.
Lemma yields_install_absent {E} op i from req old : (op = Create -> i <> id) ->
  yields (at_ absent) (install op owner i req from old : M World E Locked) (fun l => at_ (settled l)).
Proof.
  intros Hi. apply yields_install; [by intros s []| |].
  - unfold restoreRepublishAudience. destruct (String.eqb from ""); [apply yields_ret; intros w; by apply at_weaken|].
    eapply yields_bind; [apply yields_absent|intros z; apply yields_ret; intros w; by apply at_weaken].
    intros d x d' Hone Hs (pre & Hpre & ->)%restore_carries. by apply seen_by_absent.
  - intros cand j m. destruct op; apply yields_absent_tx; intros d x d' Hone Hs Hrun.
    { apply (create_body i req (transcriptParams owner req cand j) m absent d x d'); auto. }
    all: apply republish_carries in Hrun as (pre & tid & old' & _ & Hsrc & Hrows & _); apply source_row_some in Hsrc as (Hold & _);
      eapply update_absent; [done..| |done]; apply (finished_source req m (republished _ old')).
Qed.
Lemma yields_republish_absent {E} i req : yields (at_ absent) (republish owner i req : M World E Locked) (fun l => at_ (settled l)).
Proof.
  assert (forall l : Locked, yields (at_ absent) (mret l : M World E Locked) (fun l => at_ (settled l))) as Hret.
  { intros l. apply yields_ret, absent_any. }
  unfold republish. eapply yields_bind; [apply yields_asked, within_absent|].
  intros [row|e]; [|apply Hret]. destruct (descriptorFromTranscript row); [|apply Hret]. destruct (metadataObjectFromTranscript row); [|apply Hret].
  destruct (_ && _).
  - eapply yields_bind; [apply yields_asked, within_absent|].
    intros [l|]; [destruct (valid_associations l)|]; apply Hret.
  - destruct (String.eqb _ _); [by apply yields_install_absent|]. eapply yields_bind; [apply yields_absent|].
    + intros d x d' Hone Hs (pre & Hpre & -> & _)%narrow_carries. by apply seen_by_absent.
    + intros [[from|e] set]; [by apply yields_install_absent|apply Hret].
Qed.

Lemma yields_locked {E} req : SessionID req = localID -> v <> "" ->
  yields (at_ (eq v)) (publishLocked owner req : M World E Locked) (fun l => at_ (settled l)).
Proof.
  intros Hl Hne. unfold publishLocked.
  eapply (yields_bind _ (fun r w => match r with Ok i => i = id /\ at_ (eq v) w \/ at_ absent w | Err _ => at_ (eq v) w end)).
  { eapply yields_weaken; [apply yields_ask, within_eq|done|]. intros [i|e] w [Hw Hr]; [|done].
    destruct (source_row owner (SessionID req) (db w)) as [[i' row]|] eqn:Hsrc; [|done]. injection Hr as ->.
    apply source_row_some in Hsrc as (Hi & Ho & Hs). destruct (rows (db w) !! id) as [r|] eqn:Hid.
    - left. split; [|done]. destruct (at_now _ _ Hw r Hid) as (? & ? & _).
      eapply (at_source _ _ Hw); [done..|]. split; congruence.
    - right. destruct Hw as [? ? ?]. split; [done| |done]. intros r. by rewrite Hid. }
  intros [i|[]]; try (by apply yields_settled).
  - intros w [[-> Hw]|Hw].
    + revert w Hw. eapply yields_bind; [apply yields_conflict, within_eq|]. intros [e|].
      * eapply yields_weaken; [apply yields_settled|by intros w []|done].
      * eapply yields_weaken; [by apply yields_republish|by intros w []|done].
    + revert w Hw. eapply yields_bind; [apply yields_conflict, within_absent|]. intros [e|].
      * apply yields_ret. intros w [Hw _]. by apply absent_any.
      * eapply yields_weaken; [apply yields_republish_absent|by intros w []|done].
  - intros w Hw. set (i := new_uuid (log w)).
    assert (yields (at_ (eq v)) (conflict ← no_association_conflict owner None req;
      match conflict with Some e => mret (before_write false e) | None => install Create owner i req "" None end : M World E Locked)
      (fun l => at_ (settled l))) as Hy; [|apply (Hy w Hw)].
    eapply yields_bind; [apply yields_conflict, within_eq|]. intros [e|].
    + eapply yields_weaken; [apply yields_settled|by intros ? []|done].
    + eapply yields_weaken; [apply yields_install_create; apply (unlike_id Hu)|by intros ? []|done].
Qed.

(** ** The answer *)
Lemma yields_keeps {E A} P (m : M World E A) : yields (at_ P) m (fun _ => at_ P) -> leaves P m.
Proof. intros Hm w Hw. destruct (Hm w Hw) as (a & w' & -> & Hw'). exact Hw'. Qed.
Definition told (r : result Response Response) (s : string) : Prop :=
  s = v \/ s = "private" /\ exists a, r = Err a /\ audienceNote a = Some v.

Lemma leaves_stored_answer req l id' row : leaves (eq v) (
  _ ← match superseded l with
      | Some (d, m) => if deleteSuperseded l then _ ← deleteGenerationForCleanup d m; mret tt else mret tt
      | None => mret tt
      end;
  _ ← (if replayed l then mret tt else note EvNudge);
  let repo := RepoName.normalize_remote (GitRemote row) in
  _ ← (if String.eqb repo "" then mret tt else note (EvComplete (OwnerID row) repo));
  let stored := mkResponse (if isUpdate l then 200 else 201) None (Some (id', row)) in
  if authoritative req then if receipt_valid row then mret stored else throw (writeError 500)
  else
    parents ← ask (fun _ => EvLookup) (fun _ => Ok tt);
    match parents with Ok _ => mret stored | Err _ => throw (writeError 500) end : M World Response Response).
Proof.
  apply keeps_bind; [|intros _; apply keeps_bind; [|intros _; apply keeps_bind; [|intros _]]].
  - destruct (superseded l) as [[d m]|]; [|apply keeps_ret]. destruct (deleteSuperseded l); [|apply keeps_ret].
    apply keeps_bind; [apply yields_keeps, yields_cleanup, within_eq|intros; apply keeps_ret].
  - destruct (replayed l); [apply keeps_ret|apply leaves_note].
  - destruct (String.eqb _ _); [apply keeps_ret|apply leaves_note].
  - destruct (authoritative req); [destruct (receipt_valid row); [apply keeps_ret|apply keeps_throw]|].
    apply keeps_bind; [apply leaves_ask, within_eq|]. intros [?|?]; [apply keeps_ret|apply keeps_throw].
Qed.

Lemma yields_answer {E} req l : yields (at_ (settled l)) (attempt (answer_publish owner req l) : M World E _) (fun r => at_ (told r)).
Proof.
  intros w Hw. unfold attempt. destruct (answer_publish owner req l w) as [r w'] eqn:Ha. exists r, w'. split; [done|].
  unfold answer_publish in Ha.
  assert (forall status, ended l <> Stored \/ True -> (Err (mkResponse status (note_of l) None), w) = (r, w') -> at_ (told r) w') as Hthrow.
  { intros status _ [= <- <-]. eapply at_weaken; [|done]. intros s [?|(? & Hf & Hne & Hl & _)]; [by left|right]. split; [done|].
    eexists. split; [done|]. cbn. unfold note_of. rewrite Hf, Hl. by destruct (String.eqb_spec v ""). }
  destruct (ended l) as [|status|staged] eqn:He; [|by eapply Hthrow; [by right|]..].
  destruct (transcript l) as [[id' row]|]; [|by eapply Hthrow; [by right|]].
  assert (at_ (eq v) w) as Hv.
  { eapply at_weaken; [|done]. intros s [?|(_ & _ & _ & _ & Hn)]; [done|]. by rewrite He in Hn. }
  pose proof (leaves_stored_answer req l id' row w Hv) as Hl. apply (at_weaken (eq v)); [intros s <-; by left|].
  change w' with (r, w').2. rewrite <- Ha. exact Hl.
Qed.

Lemma publish_run req w : SessionID req = localID -> v <> "" -> at_ (eq v) w ->
  let '(r, w') := PublishTranscript owner req w in at_ (told r) w'.
Proof.
  intros Hl Hne Hw. unfold PublishTranscript, locks. rewrite M_bind_unfold.
  destruct (yields_asked (E := Response) (eq v) (fun _ => EvLocks) (fun _ => Ok tt) within_eq w Hw) as (held & w1 & -> & Hw1).
  rewrite M_bind_unfold.
  assert (yields (at_ (eq v)) (match held with Ok _ => publishLocked owner req | Err _ => mret (before_write false (Failed None)) end : M World Response _)
    (fun l => at_ (settled l))) as Hlk by (destruct held; [by apply yields_locked|apply yields_settled]).
  destruct (Hlk w1 Hw1) as (l & w2 & -> & Hw2). rewrite M_bind_unfold.
  destruct (yields_answer (E := Response) req l w2 Hw2) as (r & w3 & -> & Hw3). rewrite M_bind_unfold.
  destruct (String.eqb (narrowedFrom l) ""); cbn; [done|]. by destruct Hw3.
Qed.
End audience.

(** C7: a republish never widens a transcript's audience, and gives it back. In
    every state anyone can see while the content is replaced the transcript has
    the visibility it had, or is private; when the request is answered it has the
    visibility it had, or it is private and the answer is a failure that names
    the visibility to restore: whatever statement, commit or object operation
    fails on the way. *)
Theorem republish_keeps_audience `{Crypto, BlobEnv, KeyCustodian, Env, UnicodeTables, Schema} (id v : string) (owner : Z)
    (req : PublishRequest) (w : World) :
  undisturbed id -> one_source (db w) -> past w = [] -> v <> "" ->
  (forall r, rows (db w) !! id = Some r -> OwnerID r = owner /\ LocalID r = SessionID req /\ Visibility r = v) ->
  let '(r, w') := PublishTranscript owner req w in
  Forall (fun s => forall row, rows s.1 !! id = Some row -> Visibility row = v \/ Visibility row = "private") (past w') /\
  forall row, rows (db w') !! id = Some row -> Visibility row = v \/
    Visibility row = "private" /\ exists a, r = Err a /\ audienceNote a = Some v.
Proof.
  intros Hu Hone Hp Hne Hs.
  assert (at_ id owner (SessionID req) v (eq v) w) as Hw.
  { split; [done| |by rewrite Hp]. intros r Hr. by destruct (Hs r Hr) as (? & ? & ->). }
  pose proof (publish_run id owner (SessionID req) v Hu req w eq_refl Hne Hw) as Hrun.
  destruct (PublishTranscript owner req w) as [r w']. destruct Hrun as [_ Hnow Hpast]. split.
  - eapply Forall_impl; [exact Hpast|]. intros s Hshow row Hrow. by destruct (Hshow row Hrow) as (_ & _ & ?).
  - intros row Hrow. by destruct (Hnow row Hrow) as (_ & _ & ?).
Qed.
End PublishAudience.
