(* ===== verification/PublishOutcomes.v ===== *)
(** * What a publish binds, what a deletion leaves

    Theorems on the answers and the tables that need no promise of the other
    writers. *)
From S2P Require Import Prelude GoText Regex RepoName Digest Governance BlobStore BlobLaws PublishStore Publish PublishBodies.

Open Scope string_scope.
Open Scope list_scope.
Open Scope Z_scope.

Module PublishOutcomes.
Import Governance BlobStore BlobLaws PublishStore Publish PublishBodies.

Section outcomes.
Context `{Crypto, BlobEnv, KeyCustodian, Env, UnicodeTables, Schema}.

(** ** The record of states only grows *)
Definition grows {E A} (m : M World E A) : Prop := forall w r w', m w = (r, w') -> past w `prefix_of` past w' /\ log w `prefix_of` log w'.
Lemma grows_bind {E A B} (m : M World E A) (f : A -> M World E B) : grows m -> (forall a, grows (f a)) -> grows (m ≫= f).
Proof.
  intros Hm Hf w r w'. rewrite M_bind_unfold. destruct (m w) as [[a|e] w1] eqn:Hr; [|intros [= <- <-]; by eapply Hm].
  intros Hrun. destruct (Hm _ _ _ Hr), (Hf _ _ _ _ Hrun). split; by etrans.
Qed.
Lemma grows_ret {E A} (a : A) : grows (mret a : M World E A).
Proof. by intros w r w' [= <- <-]. Qed.
Lemma grows_throw {E A} (e : E) : grows (throw e : M World E A).
Proof. by intros w r w' [= <- <-]. Qed.
Lemma grows_note {E} e : grows (note e : M World E unit).
Proof. intros w r w' [= <- <-]. split; [done|]. cbn. by apply prefix_app_r. Qed.
Lemma grows_ask {E A} (e : A -> Event) f : grows (ask e f : M World E (result TxError A)).
Proof.
  intros w r w'. unfold ask. destruct (if answered _ then _ else _); intros [= <- <-]; (split; cbn; [rewrite <- app_assoc|]; by apply prefix_app_r).
Qed.
Lemma grows_stored {E A} (m : M BlobWorld BlobError A) : grows (stored m : M World E _).
Proof.
  intros w r w'. unfold stored. destruct (m _). intros [= <- <-]. split; cbn; [rewrite <- app_assoc|]; by apply prefix_app_r.
Qed.
#[local] Hint Resolve grows_ret grows_throw grows_note grows_ask grows_stored : grows.

(** Between [w] and [w'] there was a moment with nothing stored under the key. *)
Definition gone_between (k : string) (w w' : World) : Prop :=
  exists l s, past w' = past w ++ l /\ s ∈ l /\ (s.2 : gmap string (string * string)) !! k = None.
Lemma gone_wider k v w w' v' : past v `prefix_of` past w -> past w' `prefix_of` past v' -> gone_between k w w' -> gone_between k v v'.
Proof.
  intros [l Hl] [l' Hl'] (x & s & Hx & Hs & Hk). exists (l ++ x ++ l'), s.
  split_and!; [by rewrite Hl', Hx, Hl, <- !app_assoc| |done]. rewrite !elem_of_app. auto.
Qed.
Lemma grows_remove {E} k m : grows (deleteForCleanup k m : M World E bool).
Proof. apply grows_bind; auto with grows. intros [?|?]; auto with grows. apply grows_bind; auto with grows. Qed.
Lemma grows_cleanup {E} d m : grows (deleteGenerationForCleanup d m : M World E _).
Proof.
  apply grows_bind; [apply grows_remove|intros k1]. apply grows_bind; [destruct m; [apply grows_remove|auto with grows]|auto with grows].
Qed.
(** A removal that succeeds. *)
Lemma removed {E} k (m : M BlobWorld BlobError unit) w w' :
  (forall b b', m b = (Ok tt, b') -> (objects b' : gmap string (string * string)) !! k = None) ->
  (deleteForCleanup k m : M World E bool) w = (Ok false, w') -> gone_between k w w'.
Proof.
  intros Hm (r & w1 & Hs & Hrun)%bind_ok_inv. destruct r as [[]|e].
  2:{ apply bind_ok_inv in Hrun as (? & ? & _ & Hrun). by injection Hrun. }
  injection Hrun as <-. unfold stored in Hs. destruct (m (blob (meanwhile w))) as [r b] eqn:Hb. injection Hs as -> <-.
  eexists [_; _], _. cbn. split_and!; [by rewrite <- app_assoc|right; by left|]. by eapply Hm.
Qed.
Lemma remove_gone k b b' : Remove k b = (Ok tt, b') -> (objects b' : gmap string (string * string)) !! k = None.
Proof. unfold Remove, change. destruct (served _); [|done]. intros [= <-]. cbn. apply lookup_delete_eq. Qed.
Lemma generation_gone {E} d m w w' : (deleteGenerationForCleanup d m : M World E _) w = (Ok None, w') ->
  gone_between (objectKey d) w w' /\ forall mo, m = Some mo -> gone_between (metadataKey mo) w w'.
Proof.
  intros (k1 & w1 & Hr1 & Hrun)%bind_ok_inv. apply bind_ok_inv in Hrun as (k2 & w2 & Hr2 & Hret). injection Hret as Hk <-.
  destruct k1; [done|]. assert (gone_between (objectKey d) w w1) as Hk1 by (eapply removed, Hr1; apply remove_gone).
  destruct m as [mo|]; [|injection Hr2 as _ <-; by split]. destruct k2; [done|]. split.
  - eapply gone_wider; [done| |exact Hk1]. by apply grows_remove in Hr2 as [].
  - intros mo' [= <-]. eapply gone_wider; [by apply grows_remove in Hr1 as []|done|].
    eapply removed, Hr2. intros b b'. unfold DeleteMetadata. destruct (negb _); [done|]. apply remove_gone.
Qed.

(** The deletion of a row, as a step from one snapshot of the run to the next:
    the row of [owner] and it alone went, the digests of its owner stopped
    naming it, an open flag was written down for its session. *)
Record row_deleted (owner : Z) (id : string) (d d' : Db) (row : Row) : Prop := {
  was_there : rows d !! id = Some row;
  only_it_went : rows d' = delete id (rows d);
  digests_stop : forall n s g, attached d' !! n = Some s -> Author s = owner -> StoredDigest s = Some g -> digest_names id g = false;
  flag_written : forall t, open_flag d id = Some t -> exists t', tombstones d' !! (OwnerID row, LocalID row) = Some t' /\ t' <= t;
  flags_kept : forall k t, tombstones d !! k = Some t -> exists t', tombstones d' !! k = Some t' /\ t' <= t
}.
(** The transaction of a handler that started in [w]: it began on [s], left
    [s'], the next snapshot of the run, and [later] are those that followed. *)
Definition transacted (name : string) (w w' : World) (s s' : Db * Objects) (later : list (Db * Objects)) : Prop :=
  (exists before, past w' = past w ++ before ++ [s; s'] ++ later) /\ s'.2 = s.2 /\
  exists l, EvTx name (rows s.1 ∖ rows s'.1) ∈ l /\ log w' = log w ++ l.
End outcomes.

(** C8: a deletion answered with success removed the transcript and all it owned.
    Between two consecutive snapshots of the run, the first as the others had left
    the tables and the second as the transaction of the deletion did, the row and
    no other row went, every digest of its owner stopped naming it, and an open
    integrity flag was written down for its session; and after that each object
    the row had named was gone from the bucket at a later snapshot of the run. *)
Theorem deletion_leaves_nothing `{Crypto, BlobEnv, KeyCustodian, Env, UnicodeTables, Schema} (gh : bool) (owner : Z) (id : string)
    (w w' : World) (a : Response) :
  DeleteTranscript gh owner (Some id) w = (Ok a, w') ->
  exists s s' later row, transacted "delete" w w' s s' later /\ row_deleted owner id s.1 s'.1 row /\
    forall k, BlobKey row = k \/ PublishMetadataKey row = Some k ->
      exists t, t ∈ later /\ (t.2 : gmap string (string * string)) !! k = None.
Proof.
  unfold DeleteTranscript. intros Hrun. apply bind_ok_inv in Hrun as (? & w0 & Hret & Hrun). injection Hret as <- <-.
  apply bind_ok_inv in Hrun as (found & wf & Hf & Hrun). assert (grows (GetTranscriptByID id : M World Response _)) as Hgf by apply grows_ask.
  apply Hgf in Hf as [Hp0 Hl0]. clear Hgf.
  apply bind_ok_inv in Hrun as (row & wr & Hr & Hrun). destruct found as [row0|]; [|done]. injection Hr as <- <-.
  apply bind_ok_inv in Hrun as (u0 & wo & Ho & Hrun). destruct (OwnerID row0 =? owner); [|done]. injection Ho as <- <-.
  destruct (descriptorFromTranscript row0) as [rd|]; [|done]. destruct (metadataObjectFromTranscript row0) as [rm|]; [|done].
  apply bind_ok_inv in Hrun as ([c r] & w1 & Htx & Hrun).
  apply in_encrypted_inv in Htx as (c' & z & d' & Heq & -> & y & Hd). injection Heq as <- <-.
  destruct r as [[affected deleted]|e]; [|by apply bind_ok_inv in Hrun as (? & ? & _ & ?)]. inversion Hd as [a' d'' Hcar| |]; subst.
  destruct (delete_carries _ _ _ _ _ Hcar) as (Hrow & Hrows & Hkeep & Hflag & Hpr). cbn [fst snd] in *.
  destruct (negb _); [done|]. apply bind_ok_inv in Hrun as (u & w2 & Hnote & Hrun).
  assert (grows (if gh && negb (bool_decide (affected = [])) then note (EvRefresh id) else mret tt : M World Response unit)) as Hgn
    by (destruct (_ && _); [apply grows_note|apply grows_ret]).
  apply Hgn in Hnote as [Hp2 Hl2]. clear Hgn.
  destruct (descriptorFromTranscript deleted) as [dd|] eqn:Hdd; [|by apply bind_ok_inv in Hrun as (? & ? & _ & ?)].
  destruct (metadataObjectFromTranscript deleted) as [dm|] eqn:Hdm; [|by apply bind_ok_inv in Hrun as (? & ? & _ & ?)].
  apply bind_ok_inv in Hrun as (kept & w3 & Hclean & Hrun). destruct kept; [done|]. injection Hrun as _ <-.
  destruct (generation_gone _ _ _ _ Hclean) as [Hg1 Hg2].
  assert (past w2 `prefix_of` past w3 /\ log w2 `prefix_of` log w3) as [Hp3 Hl3].
  { eapply grows_cleanup, Hclean. }
  set (w1 := committed "delete" d' (meanwhile wf)) in *.
  destruct Hp0 as [x0 Hx0], Hp2 as [x2 Hx2], Hp3 as [x3 Hx3].
  assert (past w1 = past w ++ x0 ++ [(db (meanwhile wf), objects (blob (meanwhile wf))); (d', objects (blob (meanwhile wf)))]) as Hx1.
  { cbn. rewrite Hx0, <- !app_assoc. cbn. do 3 f_equal. by destruct (others _ _). }
  eexists _, _, (x2 ++ x3), deleted. split_and!; [split_and!| |].
  - exists x0. rewrite Hx3, Hx2, Hx1, <- !app_assoc. done.
  - done.
  - destruct Hl0 as [l0 Hl0], Hl2 as [l2 Hl2], Hl3 as [l3 Hl3]. eexists (l0 ++ [_] ++ l2 ++ l3). split; [rewrite !elem_of_app; right; left; by left|].
    rewrite Hl3, Hl2. cbn. by rewrite Hl0, <- !app_assoc.
  - split; [exact Hrow|exact Hrows| |exact Hflag|exact Hkeep]. intros n s g Hn Hau Hg. by apply (Hpr n s Hn Hau).
  - assert (forall k, gone_between k w2 w3 -> exists t, t ∈ x2 ++ x3 /\ (t.2 : gmap string (string * string)) !! k = None) as Hlater.
    { intros k (l & t & Hl & Hin & Hk). exists t. split; [|done]. rewrite Hx3 in Hl. apply app_inv_head in Hl as ->. by apply elem_of_app; right. }
    intros k [<-|Hk]; apply Hlater.
    + assert (BlobKey deleted = objectKey dd) as -> by (by apply new_descriptor_inv in Hdd as (-> & _)). done.
    + unfold metadataObjectFromTranscript in Hdm. rewrite Hk in Hdm.
      destruct (PublishMetadataHash deleted) as [h|], (PublishMetadataSize deleted) as [n|]; try done.
      destruct (NewMetadataObject k h n) as [mo|] eqn:Hmo; [|done]. injection Hdm as <-.
      assert (k = metadataKey mo) as ->; [|by apply Hg2]. unfold NewMetadataObject in Hmo.
      destruct (match_full opaqueObjectKey k); cbn in Hmo; [|done]. destruct (NewContentIdentity h n); [|done]. by injection Hmo as <-.
Qed.

Section bodies.
Context `{Crypto, BlobEnv, KeyCustodian, Env, UnicodeTables, Schema}.

(** Also: an integrity flag outlives the copy it was raised on. Once a flagged
    transcript is deleted, whatever else is published and deleted meanwhile as
    long as the record of the session stays, the next transcript published for
    the same session is flagged, from no later a time. *)
Theorem flags_outlive_deletion (owner : Z) (id id' : string) (req : PublishRequest) (params : Row) (m : option MetadataObject)
    (d0 d1 d2 d3 : Db) x y t :
  carries (delete_tx owner id) d0 x d1 -> open_flag d0 id = Some t ->
  (forall k t, tombstones d1 !! k = Some t -> exists t', tombstones d2 !! k = Some t' /\ t' <= t) ->
  inherited d2 !! id' = None -> OwnerID x.2 = OwnerID params -> LocalID x.2 = LocalID params ->
  carries (create_tx (OwnerID params) id' req params m) d2 y d3 ->
  exists t', open_flag d3 id' = Some t' /\ t' <= t.
Proof.
  intros (_ & _ & _ & Hflag & _)%delete_carries Hopen Hkeep Hnone Ho Hl Hcreate.
  apply create_carries in Hcreate as (_ & _ & _ & _ & _ & _ & _ & _ & _ & Hinh).
  destruct (Hflag t Hopen) as (t1 & Ht1 & Hle1). destruct (Hkeep _ _ Ht1) as (t2 & Ht2 & Hle2).
  rewrite Hnone, <- Ho, <- Hl in Hinh. rewrite Ho, Hl in Ht2, Hinh. rewrite Ht2 in Hinh. unfold open_flag. rewrite Hinh. cbn.
  destruct (checked_flags d3 !! id') as [c|]; [exists (Z.min t2 c)|exists t2]; (split; [done|lia]).
Qed.

(** Also: a publish that commits has bound every association its request asked for
    to the transcript it stored, each to the commit the request names, and has
    moved no binding that was there; one that would rebind an association does
    not commit. *)
Theorem publish_binds_associations (owner : Z) (id from : string) (req : PublishRequest) (params : Row) (m : option MetadataObject)
    (d d' : Db) y :
  carries (create_tx owner id req params m) d y d' \/ carries (republish_tx owner id req params from m) d y d' /\ y.1.1 = id ->
  (forall a sha, (a, sha) ∈ Associations req -> associations d' !! (owner, a) = Some (id, sha)) /\
  associations d ⊆ associations d' /\
  forall a sha b, (a, sha) ∈ Associations req -> associations d !! (owner, a) = Some b -> b = (id, sha).
Proof.
  intros Hrun.
  assert (bound owner id (Associations req) d' /\ associations d ⊆ associations d') as [Hb Hsub].
  { destruct Hrun as [(_ & _ & _ & _ & _ & Hb & Hs & _)%create_carries|[(pre & tid & old & _ & _ & _ & _ & Hx & Hb & Hs & _)%republish_carries Hid]]; [done|].
    rewrite Hx in Hid. split; [by apply Hb|done]. }
  split_and!; [done|done|]. intros a sha b Hin Hold. pose proof (lookup_weaken _ _ _ _ Hold Hsub) as Hnew.
  rewrite (Hb a sha Hin) in Hnew. by injection Hnew.
Qed.
End bodies.
End PublishOutcomes.
