(* ===== verification/PublishWitness.v ===== *)
(** * Publishing on concrete inputs

    A server alone with its database and bucket, a request with a body, a metadata
    object, an association and commits, and the theorems of [PublishRuns],
    [PublishAudience] and [PublishOutcomes] where their hypotheses hold. *)
From S2P Require Import Prelude GoText Digest Governance BlobStore BlobLaws KeyRotation BlobWitness PublishStore Publish PublishBodies GenerationLaws PublishLaws PublishRuns PublishAudience PublishOutcomes.

Open Scope string_scope.
Open Scope list_scope.
Open Scope Z_scope.

Module PublishWitness.
Import Governance BlobStore BlobLaws BlobWitness PublishStore Publish PublishBodies GenerationLaws PublishLaws PublishRuns
  PublishAudience PublishOutcomes.

(** ** A server *)

(** Row identifiers, short ones. *)
Definition first_id : string := "t1".
Definition second_id : string := "t2".

(** Random UUIDs that do not repeat; the first ninety are well formed. *)
Definition numbered_uuid (n : nat) : string :=
  if (n <? 90)%nat then "01234567-89ab-4def-8123-4567890123" +:+ itoa (10 + Z.of_nat n) else "x" +:+ itoa (Z.of_nat n).
#[local] Instance drawing : BlobEnv := {|
  elsewhere := fun _ o => o;
  served := fun _ => Served_ok;
  random_key := fun _ => Some (repeat_string "k" 32);
  random_nonce := fun _ => "nonce";
  random_uuid := fun l => numbered_uuid (length l)
|}.
Definition server (uuid : string) (commits : list Event -> Commitment) : Env := {|
  others := fun _ s => s;
  answered := fun _ => true;
  begins := fun _ => true;
  statement_runs := fun _ _ => true;
  commitment := commits;
  new_uuid := fun _ => uuid
|}.
#[local] Instance alone : Env := server first_id (fun _ => Confirmed).
#[local] Instance tables : UnicodeTables := ascii_tables.
#[local] Instance contract : Schema := {|
  served_hash := fun body => hash (identity body);
  valid_association_id := fun a => negb (String.eqb a "");
  content_boundary := fun _ _ => true;
  receipt_valid := fun _ => true;
  digest_valid := fun _ => true
|}.

Lemma numbered_inj n m : numbered_uuid n = numbered_uuid m -> n = m.
Proof.
  unfold numbered_uuid. destruct (Nat.ltb_spec n 90), (Nat.ltb_spec m 90); try done.
  - intros Heq%(inj (String.append _))%(inj pretty). lia.
  - intros Heq%(inj (String.append _))%(inj pretty). lia.
Qed.
Lemma drawing_32 : forall l k, random_key (BlobEnv := drawing) l = Some k -> blen k = 32.
Proof. by intros l k [= <-]. Qed.
Lemma alone_considerate : considerate.
Proof.
  split; cbn.
  - done.
  - intros l d o id k Hr. by left.
  - done.
  - intros l d o id r' _ Hr. by exists r'.
  - by intros l o k x.
  - intros l l'. apply numbered_inj.
Qed.

Definition columns : MappedColumns := mkColumns "turns" None None None None.
Definition request (body : string) (fingerprint : option string) : PublishRequest :=
  mkRequest "s-1" [("a-1", "c0ffee1")] [mkCommit "c0ffee1" "first"; mkCommit "c0ffee2" "second"]
    (Some "A session") None None "git@github.com:acme/app.git" columns body (Some "meta") fingerprint.
Definition empty_db : Db := mkDb ∅ ∅ ∅ ∅ ∅ ∅ ∅ ∅.
Definition start : World := mkWorld empty_db (mkBlobWorld ∅ []) [] [].

Definition published_once : World := serve (RPublish 7 (request "first body" (Some "f-1"))) start.
Example publishes : exists row, rows (db published_once) !! first_id = Some row /\ AcceptedFingerprint row = Some "f-1" /\
  size (objects (blob published_once) : gmap string (string * string)) = 2%nat.
Proof. eexists. vm_compute. done. Qed.
Example republishes :
  size (objects (blob (serve (RPublish 7 (request "second body" None)) published_once)) : gmap string (string * string)) = 2%nat.
Proof. vm_compute. done. Qed.

(** ** Every generation stays readable *)
Lemma start_tidy : tidy empty_db.
Proof. split; [intros id id' k (r & Hr & _)|intros id r Hr|intros id id' r r' Hr]; done. Qed.
Lemma start_sound : sound start.
Proof. split; [intros id k (r & Hr & _); done|exact start_tidy|intros id k (r & Hr & _); done|done]. Qed.

Definition requests : list Request :=
  [RPublish 7 (request "first body" (Some "f-1")); RPublish 7 (request "second body" None);
   RRead first_id "" (default (created (transcriptParams 7 (request "" None) (mkDescriptor "" "" "" 0) zeroIdentity))
     (rows (db published_once) !! first_id)) (fun _ _ => true);
   RDelete false 7 (Some first_id)].
Example generations_stay_backed_witness :
  Forall backed (past (served_all requests start)) /\ tidy (db (served_all requests start)) /\
  backed (db (served_all requests start), objects (blob (served_all requests start))).
Proof.
  apply (generations_stay_backed requests start alone_considerate drawing_32 start_tidy); try done; intros id k (r & Hr & _); done.
Defined.

Definition answer (r : result Response Response) : Response := match r with Ok a | Err a => a end.
Lemma ok_answer (r : result Response Response * World) : is_ok r.1 = true -> r = (Ok (answer r.1), r.2).
Proof. destruct r as [[a|a] w]; done. Qed.
Lemma some_pair {A B} (x : A) (y : B) (o : option (A * B)) : is_some_b o = true -> o = Some (default x (fst <$> o), default y (snd <$> o)).
Proof. destruct o as [[a b]|]; done. Qed.

Definition first_run : result Response Response * World := PublishTranscript 7 (request "first body" (Some "f-1")) start.
Definition first_published : string * Row :=
  let p := published (answer first_run.1) in
  (default "" (fst <$> p), default (created (transcriptParams 7 (request "" None) (mkDescriptor "" "" "" 0) zeroIdentity)) (snd <$> p)).
Lemma first_ok : is_ok first_run.1 = true.
Proof. vm_cast_no_check (eq_refl true). Qed.
Lemma first_shown : is_some_b (published (answer first_run.1)) = true.
Proof. vm_cast_no_check (eq_refl true). Qed.
Example published_reads_back_witness :
  (exists s r d m, s ∈ past first_run.2 /\ rows s.1 !! first_published.1 = Some r /\ descriptorFromTranscript r = Some d /\
    identityFromTranscript r = Some (LoadedKnown (identity "first body")) /\ metadataObjectFromTranscript r = Some m /\
    forall b, objects b = s.2 -> served (blog b) = Served_ok ->
      (Read first_published.1 d (LoadedKnown (identity "first body")) b).1 = Ok ("first body", identity "first body") /\
      match Some "meta", m with
      | Some text, Some mo => (ReadMetadata first_published.1 d mo b).1 = Ok text
      | None, None => True
      | _, _ => False
      end) \/
  (true = true /\ exists s r, s ∈ past first_run.2 /\ rows s.1 !! first_published.1 = Some r /\ AcceptedFingerprint r = Some "f-1").
Proof.
  apply (published_reads_back 7 (request "first body" (Some "f-1")) start first_run.2 (answer first_run.1) first_published.1 first_published.2
    alone_considerate drawing_32 start_sound); [done|exact (ok_answer first_run first_ok)|exact (some_pair _ _ _ first_shown)].
Defined.

(** ** The audience, when the commit of the replacement is not answered *)
Definition some_descriptor : BlobDescriptor := mkDescriptor "transcripts/01234567-89ab-4def-8123-456789012399.bin" "w" EncryptionAES256GCMRandomNonceV1 1.
Definition stored_row : Row := created (transcriptParams 7 (request "first body" None) some_descriptor (identity "first body")).
Definition public_row : Row := with_governance (Some "A session") None "public" None stored_row.
Definition public_world : World := mkWorld (set_rows {[first_id := public_row]} empty_db) (mkBlobWorld ∅ []) [] [].
Definition unanswered (l : list Event) : Commitment :=
  if existsb (fun e => match e with EvTx "narrow" _ => true | _ => false end) l then Unanswered false else Confirmed.
Definition public_run : result Response Response * World :=
  PublishTranscript (H2 := server second_id unanswered) 7 (request "second body" None) public_world.
Example audience_note : audienceNote (answer public_run.1) = Some "public".
Proof. vm_compute. reflexivity. Qed.
Example republish_keeps_audience_witness :
  let '(r, w') := public_run in
  Forall (fun s => forall row, rows s.1 !! first_id = Some row -> Visibility row = "public" \/ Visibility row = "private") (past w') /\
  forall row, rows (db w') !! first_id = Some row -> Visibility row = "public" \/
    Visibility row = "private" /\ exists a, r = Err a /\ audienceNote a = Some "public".
Proof.
  apply (republish_keeps_audience (H2 := server second_id unanswered) first_id "public" 7 (request "second body" None) public_world).
  - split; [done| |done]. intros l d o r' Hr. by exists r'.
  - intros a b x y. unfold public_world. cbn. intros [<- <-]%lookup_singleton_Some [<- <-]%lookup_singleton_Some. done.
  - done.
  - done.
  - intros r Hr. unfold public_world in Hr. cbn in Hr. apply lookup_singleton_Some in Hr as [_ <-]. done.
Defined.

(** ** Deletion, flags and bindings *)
Definition item (transcript : string) : Digest.Item :=
  Digest.mkItem Digest.DigestItemPrompt transcript 1 "text" "" None None None None "" None None None.
Definition digest_of_both : Digest.PromptDigest :=
  Digest.mkDigest (Digest.mkHeader "h" "none" 2 2 0 0 "v") []
    [item first_id; item "elsewhere"].
(** The published transcript, flagged, and named in a digest of its owner. *)
Definition stored_world : World :=
  mkWorld (set_attached {[5 := mkStored 7 [first_id] (Some digest_of_both)]} (set_flags {[first_id := 50]} ∅ (db published_once)))
    (blob published_once) (log published_once) (past published_once).
Definition deleting_run : result Response Response * World := DeleteTranscript false 7 (Some first_id) stored_world.
Lemma deleted_ok : is_ok deleting_run.1 = true.
Proof. vm_cast_no_check (eq_refl true). Qed.
Example deletion_empties :
  size (objects (blob stored_world) : gmap string (string * string)) = 2%nat /\
  size (objects (blob deleting_run.2) : gmap string (string * string)) = 0%nat /\
  tombstones (db deleting_run.2) !! (7, "s-1") = Some 50 /\
  (map Digest.ItemTranscript ∘ Digest.Items <$> (attached (db deleting_run.2) !! 5 ≫= StoredDigest)) = Some ["elsewhere"].
Proof. vm_compute. done. Qed.
Example deletion_leaves_nothing_witness :
  exists s s' later row, transacted "delete" stored_world deleting_run.2 s s' later /\ row_deleted 7 first_id s.1 s'.1 row /\
    forall k, BlobKey row = k \/ PublishMetadataKey row = Some k ->
      exists t, t ∈ later /\ (t.2 : gmap string (string * string)) !! k = None.
Proof. apply (deletion_leaves_nothing false 7 first_id stored_world deleting_run.2 (answer deleting_run.1)), (ok_answer deleting_run), deleted_ok. Defined.

Definition run_tx {A} (m : M TxState TxError A) (d : Db) : result TxError A * TxState := m (mkTx d [] []).
Definition ok_of {E A} (default : A) (r : result E A) : A := match r with Ok a => a | Err _ => default end.
Lemma carries_run {A} (m : M TxState TxError A) d a : is_ok (run_tx m d).1 = true -> carries m d (ok_of a (run_tx m d).1) (tdb (run_tx m d).2).
Proof.
  unfold run_tx. intros Hr. exists (mkTx d [] []), (m (mkTx d [] [])).2. destruct (m (mkTx d [] [])) as [[x|e] s]; done.
Qed.

Definition flagged_db : Db := set_flags {[first_id := 50]} ∅ (set_rows {[first_id := stored_row]} empty_db).
Definition deleting := run_tx (delete_tx 7 first_id) flagged_db.
Definition again : Row := transcriptParams 7 (request "third body" None) some_descriptor (identity "third body").
Definition creating := run_tx (create_tx 7 second_id (request "third body" None) again None) (tdb deleting.2).

Lemma deletion_carries : carries (delete_tx 7 first_id) flagged_db (ok_of ([], stored_row) deleting.1) (tdb deleting.2).
Proof. apply carries_run. vm_cast_no_check (eq_refl true). Qed.
Lemma creation_carries : carries (create_tx 7 second_id (request "third body" None) again None) (tdb deleting.2)
  (ok_of ((second_id, stored_row), []) creating.1) (tdb creating.2).
Proof. apply carries_run. vm_cast_no_check (eq_refl true). Qed.
Example flags_outlive_deletion_witness : exists t', open_flag (tdb creating.2) second_id = Some t' /\ t' <= 50.
Proof.
  apply (flags_outlive_deletion 7 first_id second_id (request "third body" None) again None flagged_db (tdb deleting.2) (tdb deleting.2) (tdb creating.2)
    (ok_of ([], stored_row) deleting.1) (ok_of ((second_id, stored_row), []) creating.1)).
  - exact deletion_carries.
  - vm_compute. reflexivity.
  - intros k t Ht. exists t. split; [done|lia].
  - vm_compute. reflexivity.
  - vm_compute. reflexivity.
  - vm_compute. reflexivity.
  - exact creation_carries.
Defined.

Example publish_binds_associations_witness :
  (forall a sha, (a, sha) ∈ [("a-1", "c0ffee1")] -> associations (tdb creating.2) !! (7, a) = Some (second_id, sha)) /\
  associations (tdb deleting.2) ⊆ associations (tdb creating.2) /\
  forall a sha b, (a, sha) ∈ [("a-1", "c0ffee1")] -> associations (tdb deleting.2) !! (7, a) = Some b -> b = (second_id, sha).
Proof.
  apply (publish_binds_associations 7 second_id "" (request "third body" None) again None (tdb deleting.2) (tdb creating.2)
    (ok_of ((second_id, stored_row), []) creating.1)). left. exact creation_carries.
Defined.

(** ** A generation nobody deletes *)

(** Another server answers a read of the row by rewriting it, right after this
    one's republish read what it will supersede. *)
Definition rewrite_elsewhere (s : Db * Objects) : Db * Objects :=
  let w := mkWorld s.1 (mkBlobWorld s.2 (repeat BvRandom 40)) [] [] in
  match rows s.1 !! first_id with
  | Some row => let w' := (rewriteCanonicalTranscript first_id row "rewritten body" false w).2 in (db w', objects (blob w'))
  | None => s
  end.
Definition interleaved : Env := {|
  others := fun l s => match last l with Some (EvRead _ _) => rewrite_elsewhere s | _ => s end;
  answered := fun _ => true;
  begins := fun _ => true;
  statement_runs := fun _ _ => true;
  commitment := fun _ => Confirmed;
  new_uuid := fun _ => second_id
|}.
Definition after_republish : result Response Response * World :=
  PublishTranscript (H2 := interleaved) 7 (request "second body" None) published_once.
Definition named (d : Db) (k : string) : bool :=
  existsb (fun p => String.eqb (BlobKey p.2) k || bool_decide (PublishMetadataKey p.2 = Some k)) (map_to_list (rows d)).
Definition orphans (w : World) : list string :=
  List.filter (fun k => negb (named (db w) k) && negb (existsb (fun e => match e with EvReconcile k' => String.eqb k k' | _ => false end) (log w)))
    (map_to_list (objects (blob w) : gmap string (string * string))).*1.
(** The republish succeeds, and the rewritten body and metadata stay in the
    bucket: no row names them, and they are not reported. *)
Example republish_orphans_a_rewrite :
  is_ok after_republish.1 = true /\ length (orphans after_republish.2) = 2%nat.
Proof. vm_compute. done. Qed.
End PublishWitness.
