(* ===== verification/Hmac.v ===== *)
(** * Go's hashes and encodings

    [crypto/sha256], [crypto/hmac] and the raw URL alphabet of [encoding/base64],
    as the packages document them (FIPS 180-4, RFC 2104, RFC 4648): what the signatures of webhooks, unsubscribe links and API keys are
    made of. Words of 32 bits are [Z] with the wrap-around written out. *)
From S2P Require Import Prelude GoText.

Open Scope string_scope.
Open Scope list_scope.
Open Scope Z_scope.

Module Hmac.

(** ** SHA-256 *)
Definition add32 (x y : Z) : Z := Z.land (x + y) 4294967295.
Definition rotr (n x : Z) : Z := Z.lor (Z.shiftr x n) (Z.land (Z.shiftl x (32 - n)) 4294967295).
Definition xor3 (x y z : Z) : Z := Z.lxor (Z.lxor x y) z.
Definition not32 (x : Z) : Z := Z.lxor x 4294967295.

Definition round_constants : list Z :=
  [1116352408; 1899447441; 3049323471; 3921009573; 961987163; 1508970993; 2453635748; 2870763221;
   3624381080; 310598401; 607225278; 1426881987; 1925078388; 2162078206; 2614888103; 3248222580;
   3835390401; 4022224774; 264347078; 604807628; 770255983; 1249150122; 1555081692; 1996064986;
   2554220882; 2821834349; 2952996808; 3210313671; 3336571891; 3584528711; 113926993; 338241895;
   666307205; 773529912; 1294757372; 1396182291; 1695183700; 1986661051; 2177026350; 2456956037;
   2730485921; 2820302411; 3259730800; 3345764771; 3516065817; 3600352804; 4094571909; 275423344;
   430227734; 506948616; 659060556; 883997877; 958139571; 1322822218; 1537002063; 1747873779;
   1955562222; 2024104815; 2227730452; 2361852424; 2428436474; 2756734187; 3204031479; 3329325298].
Record State : Type := mkState { sa : Z; sb : Z; sc : Z; sd : Z; se : Z; sf : Z; sg : Z; sh : Z }.
Definition initial_state : State :=
  mkState 1779033703 3144134277 1013904242 2773480762 1359893119 2600822924 528734635 1541459225.

Definition be32 (l : list Z) : Z := foldl (fun acc b => acc * 256 + b) 0 l.
Definition word_bytes (n : nat) (x : Z) : list Z :=
  (fun i => Z.land (Z.shiftr x (8 * Z.of_nat i)) 255) <$> rev (seq 0 n).

(** The next word of the message schedule from the sixteen before it. *)
Definition next_word (w : list Z) : Z :=
  let w1 := nth 1 w 0 in let w14 := nth 14 w 0 in
  add32 (add32 (xor3 (rotr 17 w14) (rotr 19 w14) (Z.shiftr w14 10)) (nth 9 w 0))
    (add32 (xor3 (rotr 7 w1) (rotr 18 w1) (Z.shiftr w1 3)) (nth 0 w 0)).
Definition round (k w : Z) (s : State) : State :=
  let t1 := add32 (add32 (sh s) (xor3 (rotr 6 (se s)) (rotr 11 (se s)) (rotr 25 (se s))))
    (add32 (add32 (Z.lxor (Z.land (se s) (sf s)) (Z.land (not32 (se s)) (sg s))) k) w) in
  let t2 := add32 (xor3 (rotr 2 (sa s)) (rotr 13 (sa s)) (rotr 22 (sa s)))
    (xor3 (Z.land (sa s) (sb s)) (Z.land (sa s) (sc s)) (Z.land (sb s) (sc s))) in
  mkState (add32 t1 t2) (sa s) (sb s) (sc s) (add32 (sd s) t1) (se s) (sf s) (sg s).
(** [w]: the sixteen words the next rounds take in turn. *)
Fixpoint rounds (ks w : list Z) (s : State) : State :=
  match ks, w with
  | k :: ks, x :: rest => rounds ks (rest ++ [next_word w]) (round k x s)
  | _, _ => s
  end.
Fixpoint words (n : nat) (l : list Z) : list Z :=
  match n with O => [] | S n => be32 (take 4 l) :: words n (drop 4 l) end.
Definition block (s : State) (l : list Z) : State :=
  let r := rounds round_constants (words 16 l) s in
  mkState (add32 (sa s) (sa r)) (add32 (sb s) (sb r)) (add32 (sc s) (sc r)) (add32 (sd s) (sd r))
    (add32 (se s) (se r)) (add32 (sf s) (sf r)) (add32 (sg s) (sg r)) (add32 (sh s) (sh r)).
Fixpoint blocks (n : nat) (s : State) (l : list Z) : State :=
  match n with O => s | S n => blocks n (block s (take 64 l)) (drop 64 l) end.
(** One bit, zeros, and the length in bits, to a multiple of 64 bytes. *)
Definition padded (l : list Z) : list Z :=
  let n := Z.of_nat (length l) in
  l ++ [128] ++ replicate (Z.to_nat ((55 - n) mod 64)) 0 ++ word_bytes 8 (8 * n).
Definition sha256 (s : string) : string :=
  let l := padded (bytes s) in
  let r := blocks (Nat.div (length l) 64) initial_state l in
  of_bytes (concat (word_bytes 4 <$> [sa r; sb r; sc r; sd r; se r; sf r; sg r; sh r])).

(** ** HMAC *)
Definition hmac_key (key : string) : list Z :=
  let k := if 64 <? blen key then bytes (sha256 key) else bytes key in
  k ++ replicate (64 - length k) 0.
Definition hmac_sha256 (key message : string) : string :=
  let k := hmac_key key in
  sha256 (of_bytes (Z.lxor 92 <$> k) +:+ sha256 (of_bytes (Z.lxor 54 <$> k) +:+ message)).

(** ** Base64, the raw URL alphabet *)
Definition b64url_char (v : Z) : Z :=
  if v <? 26 then v + 65 else if v <? 52 then v + 71 else if v <? 62 then v - 4 else if v =? 62 then 45 else 95.
Definition b64url_value (c : Z) : option Z :=
  if between 65 90 c then Some (c - 65)
  else if between 97 122 c then Some (c - 71)
  else if between 48 57 c then Some (c + 4)
  else if c =? 45 then Some 62
  else if c =? 95 then Some 63
  else None.
Fixpoint b64url_groups (l : list Z) : list Z :=
  match l with
  | x :: y :: z :: rest => x / 4 :: (x mod 4) * 16 + y / 16 :: (y mod 16) * 4 + z / 64 :: z mod 64 :: b64url_groups rest
  | [x; y] => [x / 4; (x mod 4) * 16 + y / 16; (y mod 16) * 4]
  | [x] => [x / 4; (x mod 4) * 16]
  | [] => []
  end.
Definition b64url_encode (s : string) : string := of_bytes (b64url_char <$> b64url_groups (bytes s)).
Fixpoint b64url_ungroup (l : list Z) : option (list Z) :=
  match l with
  | a :: b :: c :: d :: rest =>
    more ← b64url_ungroup rest;
    Some (a * 4 + b / 16 :: (b mod 16) * 16 + c / 4 :: (c mod 4) * 64 + d :: more)
  | [a; b; c] => Some [a * 4 + b / 16; (b mod 16) * 16 + c / 4]
  | [a; b] => Some [a * 4 + b / 16]
  | [_] => None
  | [] => Some []
  end.
(** Line breaks are skipped, and the unused bits of the last character are not
    looked at. *)
Definition b64url_decode (s : string) : option string :=
  l ← mapM b64url_value (List.filter (fun c => negb ((c =? 10) || (c =? 13))) (bytes s));
  of_bytes <$> b64url_ungroup l.

Example sha256_abc : hex_encode (sha256 "abc") = "ba7816bf8f01cfea414140de5dae2223b00361a396177a9cb410ff61f20015ad".
Proof. vm_compute. reflexivity. Qed.
Example hmac_rfc4231 : hex_encode (hmac_sha256 "Jefe" "what do ya want for nothing?") =
  "5bdcc146bf60754e6a042426089575c75a003f089d2739839dec58b964ec3843".
Proof. vm_compute. reflexivity. Qed.
End Hmac.
