(* ===== verification/Links.v ===== *)
(** * Signed links and keys ([email/links.go], [email.go], [auth/apikey.go])

    The one link that works signed out, and the keys of the command line. *)
From S2P Require Import Prelude GoText Hmac.

Open Scope string_scope.
Open Scope list_scope.
Open Scope Z_scope.

Module Links.
Import Hmac.

(** ** Times: nanoseconds since Go's zero time *)
Definition second : Z := 1000000000.
Definition unix_to_internal : Z := 62135596800.
Definition wrap64 (n : Z) : Z := (n + 2 ^ 63) mod 2 ^ 64 - 2 ^ 63.
(** [t.Unix()], [time.Unix(n, 0)] *)
Definition unix_of (t : Z) : Z := wrap64 (t / second - unix_to_internal).
Definition of_unix (n : Z) : Z := wrap64 (n + unix_to_internal) * second.

(** ** Unsubscribe links *)
Definition UnsubscribeLifetime : Z := 90 * 24 * 3600 * second.
Definition unsubscribePurpose : string := "village/unsubscribe-invitation-emails/v1".

(** [mac] *)
Definition mac (key payload : string) : string :=
  hmac_sha256 key (unsubscribePurpose +:+ String (ascii_of 0) payload).
(** [binary.BigEndian.AppendUint64] of [uint64(n)] *)
Definition be64 (n : Z) : string := of_bytes (word_bytes 8 (n mod 2 ^ 64)).
Definition UnsubscribeToken (key account : string) (expires : Z) : string :=
  let payload := account +:+ be64 (unix_of expires) in
  b64url_encode payload +:+ "." +:+ b64url_encode (mac key payload).

(** [strings.Cut] at one byte. *)
Fixpoint cut_byte (c : ascii) (s : string) : option (string * string) :=
  match s with
  | "" => None
  | String a s => if Ascii.eqb a c then Some ("", s)
    else match cut_byte c s with Some (x, y) => Some (String a x, y) | None => None end
  end.
Definition VerifyUnsubscribe (key token : string) (now : Z) : option string :=
  if String.eqb key "" then None
  else
    '(encodedPayload, encodedMAC) ← cut_byte "." token;
    payload ← b64url_decode encodedPayload;
    if negb (blen payload =? 24) then None
    else
      sent ← b64url_decode encodedMAC;
      if negb (String.eqb sent (mac key payload)) then None
      else
        let expires := of_unix (wrap64 (be32 (drop 16 (bytes payload)))) in
        if negb (now <? expires) then None else Some (of_bytes (take 16 (bytes payload))).

(** ** What email is configured with ([email/email.go]) *)
Definition MinLinkSigningKeyLength : Z := 32.
Record Settings : Type := mkSettings { ProviderAPIKey : string; From : string; LinkSigningKey : string }.
Section settings.
Context `{UnicodeTables}.
Definition blank (s : string) : bool := String.eqb (trim_space s) "".
Definition Problems (s : Settings) : list string :=
  (if blank (ProviderAPIKey s) then ["EMAIL_PROVIDER_API_KEY is not set"] else []) ++
  (if blank (From s) then ["EMAIL_FROM is not set"] else []) ++
  (if blank (LinkSigningKey s) then ["EMAIL_LINK_SIGNING_KEY is not set"]
   else if blen (trim_space (LinkSigningKey s)) <? MinLinkSigningKeyLength
   then ["EMAIL_LINK_SIGNING_KEY is shorter than " +:+ itoa MinLinkSigningKeyLength +:+ " characters"] else []).
Definition Unset (s : Settings) : bool := blank (ProviderAPIKey s) && blank (From s) && blank (LinkSigningKey s).
End settings.

(** ** API keys *)
Definition APIKeyPrefix : string := "peasant_".
(** The plaintext, its hash and the part shown in lists; [None]: no entropy. *)
Definition GenerateAPIKey (random : option string) : option (string * string * string) :=
  match random with
  | None => None
  | Some r => let plaintext := APIKeyPrefix +:+ hex_encode r in
    Some (plaintext, hex_encode (sha256 plaintext), byte_take 8 plaintext)
  end.
Definition HashAPIKey (key : string) : string := hex_encode (sha256 key).
Definition IsAPIKey (token : string) : bool := has_prefix APIKeyPrefix token.
End Links.
