(* ===== verification/LinksLaws.v ===== *)
(** * What an unsubscribe link can do

    Bytes to their URL form and back, and the account a token is taken for:
    exactly the one it was signed for, and only until it expires. *)
From S2P Require Import Prelude GoText Hmac Links.

Open Scope string_scope.
Open Scope list_scope.
Open Scope Z_scope.

Module LinksLaws.
Import Hmac Links.

Notation byte := (fun b => 0 <= b < 256).
Notation sextet := (fun v => 0 <= v < 64).

(** ** Base64 *)
Lemma b64url_char_spec v : 0 <= v < 64 ->
  b64url_value (b64url_char v) = Some v /\ 0 <= b64url_char v < 256 /\ b64url_char v <> 10 /\ b64url_char v <> 13 /\ b64url_char v <> 46.
Proof.
  intros Hv. unfold b64url_char, b64url_value, between. repeat case_match; lia || (split_and!; try (f_equal; lia)); lia.
Qed.
Lemma groups_sextets n : forall l, (length l <= n)%nat -> Forall byte l -> Forall sextet (b64url_groups l).
Proof.
  induction n as [|n IH]; intros l Hn Hl; [by destruct l; [|cbn in Hn; lia]|].
  destruct Hl as [|x l Hx [|y l' Hy [|z l'' Hz Hl]]]; cbn; repeat constructor; try (Z.to_euclidean_division_equations; lia).
  apply IH; [cbn in Hn; lia|done].
Qed.
Lemma ungroup_groups n : forall l, (length l <= n)%nat -> Forall byte l -> b64url_ungroup (b64url_groups l) = Some l.
Proof.
  induction n as [|n IH]; intros l Hn Hl; [by destruct l; [|cbn in Hn; lia]|].
  destruct Hl as [|x l Hx [|y l' Hy [|z l'' Hz Hl]]]; cbn; [done|do 2 f_equal; Z.to_euclidean_division_equations; lia| |].
  - f_equal. f_equal; [|f_equal]; Z.to_euclidean_division_equations; lia.
  - rewrite IH by (done || cbn in Hn; lia). cbn. f_equal. f_equal; [|f_equal; [|f_equal]]; Z.to_euclidean_division_equations; lia.
Qed.
Lemma encode_bytes s : bytes (b64url_encode s) = b64url_char <$> b64url_groups (bytes s).
Proof.
  apply bytes_of_bytes, Forall_fmap. eapply Forall_impl; [eapply groups_sextets; [done|apply bytes_bound]|].
  intros v Hv. apply b64url_char_spec, Hv.
Qed.
Lemma b64url_roundtrip s : b64url_decode (b64url_encode s) = Some s.
Proof.
  unfold b64url_decode. rewrite encode_bytes.
  pose proof (groups_sextets _ (bytes s) (le_n _) (bytes_bound s)) as Hg.
  assert (List.filter (fun c => negb ((c =? 10) || (c =? 13))) (b64url_char <$> b64url_groups (bytes s)) = b64url_char <$> b64url_groups (bytes s)) as ->.
  { induction Hg as [|v l Hv _ IH]; [done|]. cbn. destruct (b64url_char_spec v Hv) as (_ & _ & H10 & H13 & _).
    destruct (Z.eqb_spec (b64url_char v) 10); [done|]. destruct (Z.eqb_spec (b64url_char v) 13); [done|]. cbn. by rewrite IH. }
  assert (mapM b64url_value (b64url_char <$> b64url_groups (bytes s)) = Some (b64url_groups (bytes s))) as ->.
  { apply mapM_Some, Forall2_fmap_l. induction Hg as [|v l Hv _ IH]; constructor; [by apply b64url_char_spec|done]. }
  cbn. rewrite (ungroup_groups _ _ (le_n _) (bytes_bound s)). cbn. f_equal. apply of_bytes_bytes.
Qed.
Lemma cut_encoded s t : cut_byte "." (b64url_encode s +:+ "." +:+ t) = Some (b64url_encode s, t).
Proof.
  unfold b64url_encode. pose proof (groups_sextets _ (bytes s) (le_n _) (bytes_bound s)) as Hg.
  induction Hg as [|v l Hv _ IH]; [done|]. destruct (b64url_char_spec v Hv) as (_ & Hb & _ & _ & H46).
  change (of_bytes (b64url_char <$> v :: l)) with (String (ascii_of (b64url_char v)) (of_bytes (b64url_char <$> l))).
  change (?x +:+ ("." +:+ t)) with (String (ascii_of (b64url_char v)) (of_bytes (b64url_char <$> l) +:+ ("." +:+ t))). cbn [cut_byte].
  rewrite IH. destruct (Ascii.eqb_spec (ascii_of (b64url_char v)) ".") as [Heq|_]; [|done].
  exfalso. apply H46. rewrite <- (byte_of_ascii_of _ Hb), Heq. done.
Qed.

(** ** Eight bytes, most significant first *)
Lemma be32_snoc l b : be32 (l ++ [b]) = be32 l * 256 + b.
Proof. unfold be32. by rewrite foldl_snoc. Qed.
Lemma word_bytes_S n x : word_bytes (S n) x = (x / 256 ^ Z.of_nat n) mod 256 :: word_bytes n x.
Proof.
  unfold word_bytes. rewrite seq_S, rev_app_distr. cbn. f_equal.
  rewrite Z.shiftr_div_pow2 by lia. change 255 with (Z.ones 8). rewrite Z.land_ones by lia. by rewrite Z.pow_mul_r by lia.
Qed.
Lemma word_bytes_bytes n x : Forall byte (word_bytes n x).
Proof. induction n as [|n IH]; [by constructor|]. rewrite word_bytes_S. constructor; [apply Z.mod_pos_bound; lia|done]. Qed.
Lemma word_bytes_length n x : length (word_bytes n x) = n.
Proof. unfold word_bytes. by rewrite length_fmap, length_rev, length_seq. Qed.
Lemma foldl_word_bytes n x : forall acc, foldl (fun acc b => acc * 256 + b) acc (word_bytes n x) = acc * 256 ^ Z.of_nat n + x mod 256 ^ Z.of_nat n.
Proof.
  induction n as [|n IH]; intros acc; [cbn; rewrite Z.mod_1_r; lia|]. rewrite word_bytes_S. cbn [foldl]. rewrite IH.
  rewrite Nat2Z.inj_succ, Z.pow_succ_r by lia. rewrite (Z.mul_comm 256 (256 ^ Z.of_nat n)).
  rewrite Z.rem_mul_r by lia. lia.
Qed.
Lemma be32_word_bytes x : be32 (word_bytes 8 x) = x mod 2 ^ 64.
Proof. unfold be32. by rewrite foldl_word_bytes. Qed.
Lemma be32_inj : forall l l', length l = length l' -> Forall byte l -> Forall byte l' -> be32 l = be32 l' -> l = l'.
Proof.
  intros l. induction l as [|b l IH] using rev_ind; intros l' Hlen Hl Hl' Heq; [by destruct l'|].
  destruct l' as [|b' l' _] using rev_ind; rewrite !length_app in Hlen; cbn in Hlen; [lia|].
  apply Forall_app in Hl as [Hl [Hb _]%Forall_cons]. apply Forall_app in Hl' as [Hl' [Hb' _]%Forall_cons].
  rewrite !be32_snoc in Heq. cbv beta in *. assert (b = b') as -> by lia. f_equal. apply IH; [lia|done|done|lia].
Qed.
Lemma wrap64_mod n : wrap64 n mod 2 ^ 64 = n mod 2 ^ 64.
Proof. unfold wrap64. rewrite Zminus_mod_idemp_l. f_equal. lia. Qed.
Lemma wrap64_eq a b : a mod 2 ^ 64 = b mod 2 ^ 64 -> wrap64 a = wrap64 b.
Proof. intros Heq. unfold wrap64. by rewrite <- (Zplus_mod_idemp_l a), Heq, Zplus_mod_idemp_l. Qed.
Lemma unix_of_unix n : unix_of (of_unix n) mod 2 ^ 64 = n mod 2 ^ 64.
Proof.
  unfold unix_of, of_unix. rewrite Z.div_mul by done. rewrite wrap64_mod.
  rewrite <- Zminus_mod_idemp_l, wrap64_mod, Zminus_mod_idemp_l. f_equal. unfold unix_to_internal. lia.
Qed.
Lemma wrap64_twice n : wrap64 (wrap64 n) = wrap64 n.
Proof. apply wrap64_eq, wrap64_mod. Qed.
Lemma unix_of_wraps n : unix_of (of_unix n) = wrap64 n.
Proof.
  transitivity (wrap64 (unix_of (of_unix n))); [unfold unix_of; by rewrite wrap64_twice|]. apply wrap64_eq, unix_of_unix.
Qed.
Lemma be32_bound l : Forall byte l -> 0 <= be32 l < 256 ^ Z.of_nat (length l).
Proof.
  induction l as [|b l IH] using rev_ind; intros Hl; [done|]. apply Forall_app in Hl as [Hl [Hb _]%Forall_cons].
  rewrite be32_snoc, length_app. cbn [length]. rewrite Nat2Z.inj_add, Z.pow_add_r by lia. specialize (IH Hl). cbv beta in *. lia.
Qed.
Lemma be64_of_bytes l : length l = 8%nat -> Forall byte l -> be64 (unix_of (of_unix (wrap64 (be32 l)))) = of_bytes l.
Proof.
  intros Hlen Hl. unfold be64. f_equal. rewrite unix_of_unix, wrap64_mod.
  pose proof (be32_bound l Hl) as Hb. rewrite Hlen in Hb. rewrite (Z.mod_small (be32 l)) by exact Hb.
  apply be32_inj; [by rewrite word_bytes_length|apply word_bytes_bytes|done|].
  rewrite be32_word_bytes. by apply Z.mod_small.
Qed.
Lemma bytes_be64 n : bytes (be64 n) = word_bytes 8 (n mod 2 ^ 64).
Proof. apply bytes_of_bytes, word_bytes_bytes. Qed.
Lemma blen_bytes s : blen s = Z.of_nat (length (bytes s)).
Proof. unfold blen. by rewrite length_bytes. Qed.

(** ** Tokens *)

#[local] Opaque hmac_sha256 b64url_encode be64.
(** The two halves of a token, as bytes. *)
Definition token_bytes (token : string) : option (string * string) :=
  '(x, y) ← cut_byte "." token; p ← b64url_decode x; m ← b64url_decode y; Some (p, m).
Lemma token_bytes_signed key account e :
  token_bytes (UnsubscribeToken key account e) = Some (account +:+ be64 (unix_of e), mac key (account +:+ be64 (unix_of e))).
Proof. unfold token_bytes, UnsubscribeToken. rewrite cut_encoded. cbn. by rewrite !b64url_roundtrip. Qed.
Lemma verify_bytes key token now : VerifyUnsubscribe key token now =
  (if String.eqb key "" then None else
   '(p, m) ← token_bytes token;
   if (blen p =? 24) && String.eqb m (mac key p) && (now <? of_unix (wrap64 (be32 (drop 16 (bytes p)))))
   then Some (of_bytes (take 16 (bytes p))) else None).
Proof.
  unfold VerifyUnsubscribe, token_bytes. destruct (String.eqb key ""); [done|].
  destruct (cut_byte _ _) as [[x y]|]; [|done]. cbn. destruct (b64url_decode x) as [p|]; [|done]. cbn.
  destruct (b64url_decode y) as [m|]; cbn [mbind option_bind]; destruct (blen p =? 24); cbn [negb andb]; try done.
  by destruct (String.eqb m (mac key p)), (now <? of_unix (wrap64 (be32 (drop 16 (bytes p))))).
Qed.
Lemma payload_split p : blen p = 24 ->
  p = of_bytes (take 16 (bytes p)) +:+ be64 (unix_of (of_unix (wrap64 (be32 (drop 16 (bytes p)))))) /\ blen (of_bytes (take 16 (bytes p))) = 16.
Proof.
  intros Hp. rewrite blen_bytes in Hp. pose proof (bytes_bound p) as Hb. split.
  - rewrite be64_of_bytes, <- of_bytes_app, take_drop; [by rewrite of_bytes_bytes|by rewrite length_drop; lia|by apply Forall_drop].
  - rewrite blen_bytes, bytes_of_bytes by (by apply Forall_take). rewrite length_take. lia.
Qed.
Lemma payload_parts account n : blen account = 16 ->
  blen (account +:+ be64 n) = 24 /\ of_bytes (take 16 (bytes (account +:+ be64 n))) = account /\
  wrap64 (be32 (drop 16 (bytes (account +:+ be64 n)))) = wrap64 n.
Proof.
  intros Ha. rewrite blen_bytes in *. rewrite bytes_app, bytes_be64. split_and!.
  - rewrite length_app, word_bytes_length. lia.
  - rewrite take_app_length' by lia. apply of_bytes_bytes.
  - rewrite drop_app_length' by lia. rewrite be32_word_bytes. apply wrap64_eq. by rewrite !Z.mod_mod.
Qed.

(** C10: an unsubscribe token is taken for an account exactly when its two halves
    decode to the bytes of a token that was signed with the key for this very
    account, with an expiry that has not passed; with no key none is. *)
Theorem unsubscribe_token_iff key token now account :
  VerifyUnsubscribe key token now = Some account <->
  key <> "" /\ blen account = 16 /\
  exists expires, token_bytes token = token_bytes (UnsubscribeToken key account expires) /\ now < of_unix (unix_of expires).
Proof.
  rewrite verify_bytes. destruct (String.eqb_spec key "") as [Hkey|Hkey]; [split; [done|by intros [? _]]|]. split.
  - destruct (token_bytes token) as [[p m]|]; [|done]. cbn. destruct (Z.eqb_spec (blen p) 24) as [Hp|]; [|done].
    destruct (String.eqb_spec m (mac key p)) as [->|]; [|done]. cbn. destruct (Z.ltb_spec now (of_unix (wrap64 (be32 (drop 16 (bytes p)))))) as [Hnow|]; [|done].
    intros [= <-]. destruct (payload_split p Hp) as [Heq Hlen]. split_and!; [done..|].
    eexists. rewrite token_bytes_signed, <- Heq. split; [done|]. by rewrite unix_of_wraps, wrap64_twice.
  - intros (_ & Hlen & e & -> & Hnow). rewrite token_bytes_signed. cbn.
    destruct (payload_parts account (unix_of e) Hlen) as (-> & -> & ->). rewrite String.eqb_refl. cbn.
    unfold unix_of at 1. rewrite wrap64_twice. change (wrap64 _) with (unix_of e). by destruct (Z.ltb_spec now (of_unix (unix_of e))); [|lia].
Qed.
End LinksLaws.
