(* ===== verification/Threads.v ===== *)
(** * Requests that run side by side

    A handler as a program over a family of atomic operations (SQL statements,
    draws of randomness, calls of other services): [prog T A] ends with a value,
    stops early with an answer [T], or performs an operation and goes on with
    what it returned. Any number of them run interleaved over one world: any
    thread performs its next operation, a request arrives, one ends or dies with
    its process, and the environment moves on its own.

    The proof rule is rely and guarantee: a program is [safe] when each of its
    operations, from every world the others may have left, keeps the invariant
    and only does what [R] allows; then every reachable pool keeps it. *)
From Stdlib Require Import FunctionalExtensionality.
From S2P Require Import Prelude.

Inductive prog (E : Type -> Type) (T A : Type) : Type :=
| Ret (a : A)
| Stop (t : T)
| Vis (X : Type) (e : E X) (k : X -> prog E T A).
Arguments Ret {E T A} a.
Arguments Stop {E T A} t.
Arguments Vis {E T A X} e k.

Definition do_ {E T X} (e : E X) : prog E T X := Vis e Ret.
#[export] Instance prog_ret {E T} : MRet (prog E T) := fun A a => Ret a.
#[export] Instance prog_bind {E T} : MBind (prog E T) := fun A B f =>
  fix go p := match p with Ret a => f a | Stop t => Stop t | Vis e k => Vis e (fun x => go (k x)) end.
Arguments prog_ret {E T} A a /.

(** The error of an operation becomes the answer [t] makes of it. *)
Definition or_stop {E T Er X} (e : E (result Er X)) (t : Er -> T) : prog E T X :=
  r ← do_ e; match r with Ok x => Ret x | Err er => Stop (t er) end.
Definition stop_if {E T} (b : bool) (t : T) : prog E T unit := if b then Stop t else Ret tt.
(** What a thread answers. *)
Definition answers {E T} (p : prog E T T) : option T := match p with Ret t | Stop t => Some t | Vis _ _ => None end.
(** The same program with its answers renamed. *)
Fixpoint relabel {E T U} (f : T -> U) (p : prog E T T) : prog E U U :=
  match p with Ret t => Ret (f t) | Stop t => Stop (f t) | Vis e k => Vis e (fun x => relabel f (k x)) end.

Section threads.
Context {E : Type -> Type} {T W C : Type}.
(** [None]: the operation waits. [C]: what the operation may turn out to be. *)
Variable exec : forall X, E X -> C -> W -> option (X * W).
Arguments exec {X}.
Variable drift : W -> W -> Prop.
Variable starts : prog E T T -> Prop.

Inductive step : list (prog E T T) * W -> list (prog E T T) * W -> Prop :=
| step_run l1 X (e : E X) k l2 c x w w' : exec e c w = Some (x, w') -> step (l1 ++ Vis e k :: l2, w) (l1 ++ k x :: l2, w')
| step_start l p w : starts p -> step (l, w) (l ++ [p], w)
| step_end l1 p l2 w : step (l1 ++ p :: l2, w) (l1 ++ l2, w)
| step_drift l w w' : drift w w' -> step (l, w) (l, w').
Definition reaches : relation (list (prog E T T) * W) := rtc step.

(** ** One thread on its own *)
Fixpoint run {A} (cs : list C) (p : prog E T A) (w : W) : option (prog E T A * W) :=
  match p, cs with
  | Vis e k, c :: cs => match exec e c w with Some (x, w') => run cs (k x) w' | None => None end
  | _, _ => Some (p, w)
  end.
Lemma run_reaches cs p w p' w' l1 l2 : run cs p w = Some (p', w') -> reaches (l1 ++ p :: l2, w) (l1 ++ p' :: l2, w').
Proof.
  revert p w. induction cs as [|c cs IH]; intros [a|t|X e k] w; cbn; try (intros [= <- <-]; apply rtc_refl).
  destruct (exec e c w) as [[x w1]|] eqn:He; [|done]. intros Hr. eapply rtc_l; [by apply (step_run _ _ e k _ c)|by apply IH].
Qed.
Lemma starts_reaches cs l p w p' w' : starts p -> run cs p w = Some (p', w') -> reaches (l, w) (l ++ [p'], w').
Proof. intros Hs Hr. eapply rtc_l; [apply (step_start l p w), Hs|]. exact (run_reaches cs p w p' w' l [] Hr). Qed.
(** Requests one after the other, each with the choices it meets. *)
Fixpoint script (l : list (prog E T T * list C)) (w : W) : option W :=
  match l with
  | [] => Some w
  | (p, cs) :: l => match run cs p w with Some (_, w) => script l w | None => None end
  end.
Lemma script_reaches l : forall w w' pool, Forall (fun q => starts q.1) l -> script l w = Some w' -> exists pool', reaches (pool, w) (pool', w').
Proof.
  induction l as [|[p cs] l IH]; intros w w' pool Hs; cbn.
  - intros [= <-]. exists pool. apply rtc_refl.
  - apply Forall_cons in Hs as [Hp Hs]. destruct (run cs p w) as [[p' w1]|] eqn:Hr; [|done]. intros Hl.
    destruct (IH w1 w' (pool ++ [p']) Hs Hl) as [pool' ?]. exists pool'. etrans; [by eapply starts_reaches|done].
Qed.

(** ** Rely and guarantee *)
Section safe.
Variables (I : W -> Prop) (R : W -> W -> Prop).
Context `{!PreOrder R}.

Definition stable (P : W -> Prop) : Prop := forall w w', I w -> P w -> R w w' -> I w' -> P w'.

Fixpoint safe {A} (Qs : T -> W -> Prop) (Q : A -> W -> Prop) (p : prog E T A) (w : W) : Prop :=
  match p with
  | Ret a => forall w', R w w' -> I w' -> Q a w'
  | Stop t => forall w', R w w' -> I w' -> Qs t w'
  | Vis e k => forall w1 c x w2, R w w1 -> I w1 -> exec e c w1 = Some (x, w2) -> I w2 /\ R w1 w2 /\ safe Qs Q (k x) w2
  end.

Lemma safe_later {A} Qs Q (p : prog E T A) w w' : safe Qs Q p w -> R w w' -> safe Qs Q p w'.
Proof.
  destruct p as [a|t|X e k]; cbn; intros Hp Hr.
  - intros w2 H2. apply Hp. by etrans.
  - intros w2 H2. apply Hp. by etrans.
  - intros w1 c x w2 H1. apply Hp. by etrans.
Qed.
Lemma safe_weaken {A} (Qs Qs' : T -> W -> Prop) (Q Q' : A -> W -> Prop) p : forall w,
  safe Qs Q p w -> (forall t w, I w -> Qs t w -> Qs' t w) -> (forall a w, I w -> Q a w -> Q' a w) -> safe Qs' Q' p w.
Proof.
  induction p as [a|t|X e k IH]; cbn; intros w Hp Hs Hq; [eauto..|].
  intros w1 c x w2 Hr Hi He. destruct (Hp w1 c x w2 Hr Hi He) as (? & ? & ?). split_and!; [done..|]. by apply IH.
Qed.
Lemma safe_bind {A B} Qs (Q : B -> W -> Prop) (p : prog E T A) (f : A -> prog E T B) : forall w,
  I w -> safe Qs (fun a => safe Qs Q (f a)) p w -> safe Qs Q (p ≫= f) w.
Proof.
  induction p as [a|t|X e k IH]; intros w Hi Hp; [by apply (Hp w)|exact Hp|].
  intros w1 c x w2 Hr H1 He. destruct (Hp w1 c x w2 Hr H1 He) as (? & ? & ?). split_and!; [done..|]. by apply IH.
Qed.
Lemma safe_since {A} Qs (Q : A -> W -> Prop) (p : prog E T A) : forall w, safe Qs Q p w -> safe Qs (fun a w' => R w w' /\ Q a w') p w.
Proof.
  induction p as [a|t|X e k IH]; intros w Hp; cbn in *; [eauto|exact Hp|].
  intros w1 c x w2 Hr Hi He. destruct (Hp w1 c x w2 Hr Hi He) as (? & Hr2 & Hk). split_and!; [done..|].
  eapply safe_weaken; [by apply IH|done|]. cbn. intros a w' _ [? ?]. split; [|done]. etrans; [exact Hr|]. by etrans.
Qed.
(** A program that calls another, by what is known of the other. *)
Lemma safe_call {A B} Qs (Q : A -> W -> Prop) (Q' : B -> W -> Prop) (p : prog E T A) (f : A -> prog E T B) w : I w ->
  safe Qs Q p w -> (forall a w', I w' -> R w w' -> Q a w' -> safe Qs Q' (f a) w') -> safe Qs Q' (p ≫= f) w.
Proof.
  intros Hi Hp Hf. apply safe_bind; [done|]. eapply safe_weaken; [by apply safe_since|done|]. intros a w' ? [? ?]. by apply Hf.
Qed.
Lemma safe_ret {A} Qs (Q : A -> W -> Prop) a w : (forall w', R w w' -> I w' -> Q a w') -> safe Qs Q (mret a) w.
Proof. done. Qed.
Lemma safe_do {X} Qs (Q : X -> W -> Prop) (e : E X) w :
  (forall w1 c x w2, R w w1 -> I w1 -> exec e c w1 = Some (x, w2) ->
    I w2 /\ R w1 w2 /\ forall w3, R w2 w3 -> I w3 -> Q x w3) -> safe Qs Q (do_ e) w.
Proof. done. Qed.

(** One thread with its own choices. *)
Lemma run_safe {A} Qs (Q : A -> W -> Prop) cs : forall (p p' : prog E T A) w w', I w -> safe Qs Q p w ->
  run cs p w = Some (p', w') -> I w' /\ R w w' /\ safe Qs Q p' w'.
Proof.
  induction cs as [|c cs IH]; intros [a|t|X e k] p' w w' Hi Hp; cbn; try (intros [= <- <-]; by split_and!).
  destruct (exec e c w) as [[x w1]|] eqn:He; [|done]. intros Hr. destruct (Hp w c x w1 (reflexivity w) Hi He) as (H1 & R1 & Hk).
  destruct (IH _ _ _ _ H1 Hk Hr) as (? & ? & ?). split_and!; [done|by etrans|done].
Qed.

(** Operations with a contract each: what must hold before one, and what its
    answer tells, from then on. *)
Section contract.
Variables (allowed : forall X, E X -> W -> Prop) (learned : forall X, E X -> X -> W -> Prop).
Hypothesis allowed_stays : forall X (e : E X) w w', R w w' -> allowed X e w -> allowed X e w'.
Hypothesis learned_stays : forall X (e : E X) x w w', R w w' -> learned X e x w -> learned X e x w'.
Hypothesis exec_keeps : forall X (e : E X) c x w w', I w -> allowed X e w -> exec e c w = Some (x, w') ->
  I w' /\ R w w' /\ learned X e x w'.
Lemma safe_contract {X} Qs (Q : X -> W -> Prop) (e : E X) w : I w -> allowed X e w ->
  (forall x w', I w' -> R w w' -> learned X e x w' -> Q x w') -> safe Qs Q (do_ e) w.
Proof.
  intros Hi Ha Hk. apply safe_do. intros w1 c x w2 Hr H1 He.
  destruct (exec_keeps X e c x w1 w2 H1 (allowed_stays X e w w1 Hr Ha) He) as (H2 & Hr2 & Hl). split_and!; [done..|].
  intros w3 Hr3 H3. apply Hk; [done|by do 2 (etrans; [eassumption|])|by eapply learned_stays].
Qed.
End contract.

(** Every thread that runs or may start is safe: so is every reachable pool. *)
Theorem pool_safe Qs Q l w l' w' :
  (forall w w', I w -> drift w w' -> I w' /\ R w w') ->
  (forall p w, starts p -> I w -> safe Qs Q p w) ->
  reaches (l, w) (l', w') -> I w -> Forall (fun p => safe Qs Q p w) l ->
  I w' /\ R w w' /\ Forall (fun p => safe Qs Q p w') l'.
Proof.
  intros Hd Hs Hr. remember (l, w) as s eqn:Es. remember (l', w') as s' eqn:Es'. revert l w Es.
  induction Hr as [s|s [l1 w1] s' Hstep Hrest IH]; intros l w -> Hi Hl.
  - injection Es' as <- <-. split_and!; [done|reflexivity|done].
  - assert (I w1 /\ R w w1 /\ Forall (fun p => safe Qs Q p w1) l1) as (Hi1 & Hr1 & Hl1).
    { inversion Hstep; subst; clear Hstep.
      - apply Forall_app in Hl as [Ha [Hp Hb]%Forall_cons].
        match goal with He : exec _ _ _ = _ |- _ => destruct (Hp w c x w1 (reflexivity w) Hi He) as (? & ? & ?) end.
        split_and!; [done..|]. apply Forall_app. split; [|apply Forall_cons; split; [done|]].
        all: eapply Forall_impl; [eassumption|]; cbn; intros q Hq; by eapply safe_later.
      - split_and!; [done|reflexivity|]. apply Forall_app. split; [done|]. apply Forall_singleton. by apply Hs.
      - apply Forall_app in Hl as [Ha [_ Hb]%Forall_cons]. split_and!; [done|reflexivity|by apply Forall_app].
      - destruct (Hd w w1) as [? ?]; [done..|]. split_and!; [done..|].
        eapply Forall_impl; [exact Hl|]. cbn. intros q Hq. by eapply safe_later. }
    destruct (IH Es' l1 w1 eq_refl Hi1 Hl1) as (? & ? & ?). split_and!; [done|by etrans|done].
Qed.
End safe.

(** ** Programs of harmless operations *)
Fixpoint uses {A} (P : forall X, E X -> Prop) (p : prog E T A) : Prop :=
  match p with Ret _ | Stop _ => True | Vis e k => P _ e /\ forall x, uses P (k x) end.
Lemma uses_bind {A B} P (p : prog E T A) (f : A -> prog E T B) :
  uses P p -> (forall a, uses P (f a)) -> uses P (p ≫= f).
Proof. induction p as [a|t|X e k IH]; intros Hp Hf; [apply Hf|done|]. destruct Hp as [He Hk]. split; [done|]. intros x. by apply IH. Qed.
Lemma uses_weaken {A} (P P' : forall X, E X -> Prop) (p : prog E T A) :
  (forall X (e : E X), P X e -> P' X e) -> uses P p -> uses P' p.
Proof. intros Hp. induction p as [a|t|X e k IH]; [done..|]. intros [He Hk]. split; [by apply Hp|]. intros x. by apply IH. Qed.
Lemma uses_do {X} (P : forall X, E X -> Prop) (e : E X) : P X e -> uses P (do_ e).
Proof. by split. Qed.
(** The same, of a program whose value is one that [Q] allows. *)
Fixpoint ends_in {A} (P : forall X, E X -> Prop) (Q : A -> Prop) (p : prog E T A) : Prop :=
  match p with Ret a => Q a | Stop _ => True | Vis e k => P _ e /\ forall x, ends_in P Q (k x) end.
Lemma ends_in_weaken {A} (P P' : forall X, E X -> Prop) (Q : A -> Prop) (p : prog E T A) :
  (forall X (e : E X), P X e -> P' X e) -> ends_in P Q p -> ends_in P' Q p.
Proof. intros Hp. induction p as [a|t|X e k IH]; [done..|]. intros [He Hk]. split; [by apply Hp|]. intros x. by apply IH. Qed.
Lemma ends_in_bind {A B} P (Q : A -> Prop) (Q' : B -> Prop) (p : prog E T A) (f : A -> prog E T B) :
  ends_in P Q p -> (forall a, Q a -> ends_in P Q' (f a)) -> ends_in P Q' (p ≫= f).
Proof. induction p as [a|t|X e k IH]; intros Hp Hf; [by apply Hf|done|]. destruct Hp as [He Hk]. split; [done|]. intros x. by apply IH. Qed.
Lemma ends_in_imp {A} P (Q Q' : A -> Prop) (p : prog E T A) : (forall a, Q a -> Q' a) -> ends_in P Q p -> ends_in P Q' p.
Proof. intros HQ. induction p as [a|t|X e k IH]; [apply HQ|done|]. intros [He Hk]. split; [done|]. intros x. by apply IH. Qed.
Lemma ends_in_any {A} (p : prog E T A) : ends_in (fun _ _ => True) (fun _ => True) p.
Proof. induction p as [a|t|X e k IH]; [done..|]. by split. Qed.
(** What follows may change where it makes no difference. *)
Lemma bind_ends {A B} P (Q : A -> Prop) (p : prog E T A) (f g : A -> prog E T B) :
  ends_in P Q p -> (forall a, Q a -> f a = g a) -> p ≫= f = p ≫= g.
Proof.
  intros Hp Hf. induction p as [a|t|X e k IH]; [by apply Hf|done|]. destruct Hp as [_ Hk].
  change (Vis e (fun x => k x ≫= f) = Vis e (fun x => k x ≫= g)). f_equal. apply functional_extensionality. intros x. by apply IH.
Qed.
Lemma uses_ends_in {A B} P (Q : A -> Prop) (p : prog E T A) (f : A -> prog E T B) :
  ends_in P Q p -> (forall a, Q a -> uses P (f a)) -> uses P (p ≫= f).
Proof. induction p as [a|t|X e k IH]; intros Hp Hf; [by apply Hf|done|]. destruct Hp as [He Hk]. split; [done|]. intros x. by apply IH. Qed.
(** An invariant of each operation, the environment included, is one of the
    pool. *)
Lemma uses_invariant (P : forall X, E X -> Prop) (I : W -> Prop) w l w' :
  (forall X (e : E X) c x w w', P X e -> I w -> exec e c w = Some (x, w') -> I w') ->
  (forall w w', I w -> drift w w' -> I w') -> (forall p, starts p -> uses P p) ->
  reaches ([], w) (l, w') -> I w -> I w'.
Proof.
  intros He Hd Hs Hr Hi.
  assert (PreOrder (fun _ _ : W => True)) as Hany by (by split).
  assert (forall A (p : prog E T A) w, uses P p -> safe I (fun _ _ => True) (fun _ _ => True) (fun _ _ => True) p w) as Hsafe.
  { intros A p. induction p as [a|t|X e k IH]; intros w0 Hp; [done..|]. destruct Hp as [Hp Hk].
    intros w1 c x w2 _ H1 Hx. split_and!; [by eapply He|done|]. by apply IH. }
  destruct (pool_safe I (fun _ _ => True) (fun _ _ => True) (fun _ _ => True) [] w l w') as (H' & _); try done.
  - intros w1 w2 H1 H2. split; [by eapply Hd|done].
  - intros p w1 Hp _. apply Hsafe. by apply Hs.
Qed.

(** ** Credits

    Some operations earn and some spend, by what they answer; a program is
    [solvent] when it never spends more than it earned before. *)
Section credits.
Variables (earns spends : forall X, E X -> X -> nat).
Variables (earned spent : W -> nat).
Arguments earns {X}. Arguments spends {X}.

Fixpoint solvent {A} (n : nat) (p : prog E T A) : Prop :=
  match p with
  | Ret _ | Stop _ => True
  | Vis e k => forall x, (spends e x <= n)%nat /\ solvent (n - spends e x + earns e x) (k x)
  end.
Lemma solvent_more {A} (p : prog E T A) : forall n m, (n <= m)%nat -> solvent n p -> solvent m p.
Proof.
  induction p as [a|t|X e k IH]; intros n m Hle Hp; [done..|].
  intros x. destruct (Hp x) as [Hs Hk]. split; [lia|]. eapply IH; [|exact Hk]. lia.
Qed.
Lemma solvent_bind {A B} (p : prog E T A) (f : A -> prog E T B) : forall n,
  solvent n p -> (forall a m, solvent m (f a)) -> solvent n (p ≫= f).
Proof.
  induction p as [a|t|X e k IH]; intros n Hp Hf; [apply Hf|done|].
  intros x. destruct (Hp x) as [? ?]. split; [done|]. by apply IH.
Qed.
(** The same, of a program whose value tells what is left of the credit. *)
Fixpoint affords {A} (Q : A -> nat -> Prop) (n : nat) (p : prog E T A) : Prop :=
  match p with
  | Ret a => Q a n
  | Stop _ => True
  | Vis e k => forall x, (spends e x <= n)%nat /\ affords Q (n - spends e x + earns e x) (k x)
  end.
Lemma affords_bind {A B} (Q : A -> nat -> Prop) (p : prog E T A) (f : A -> prog E T B) : forall n,
  affords Q n p -> (forall a m, Q a m -> solvent m (f a)) -> solvent n (p ≫= f).
Proof.
  induction p as [a|t|X e k IH]; intros n Hp Hf; [by apply Hf|done|].
  intros x. destruct (Hp x) as [? ?]. split; [done|]. by apply IH.
Qed.
(** A program that spends nothing needs no credit. *)
Lemma solvent_uses {A} (p : prog E T A) : forall n, uses (fun X e => forall x, spends e x = 0%nat) p -> solvent n p.
Proof.
  induction p as [a|t|X e k IH]; intros n Hp; [done..|]. destruct Hp as [He Hk]. intros x. rewrite He. split; [lia|]. by apply IH.
Qed.
Lemma solvent_do {X A} n (e : E X) (f : X -> prog E T A) :
  (forall x, (spends e x <= n)%nat /\ solvent (n - spends e x + earns e x) (f x)) -> solvent n (do_ e ≫= f).
Proof. done. Qed.

Hypothesis exec_earns : forall X (e : E X) c x w w', exec e c w = Some (x, w') ->
  (earned w + earns e x <= earned w' /\ spent w' <= spent w + spends e x)%nat.
Hypothesis drift_earns : forall w w', drift w w' -> (earned w <= earned w' /\ spent w' <= spent w)%nat.
Hypothesis starts_solvent : forall p, starts p -> solvent 0 p.

Definition covered (s : list (prog E T T) * W) : Prop :=
  exists ns, Forall2 solvent ns s.1 /\ (spent s.2 + sum_list ns <= earned s.2)%nat.
Lemma covered_step s s' : step s s' -> covered s -> covered s'.
Proof.
  intros Hs (ns & Hl & Hsum). destruct Hs as [l1 X e k l2 c x w w' He|l p w Hp|l1 p l2 w|l w w' Hd]; cbn in *.
  - apply Forall2_app_inv_r in Hl as (n1 & n2 & H1 & H2 & ->). apply Forall2_cons_inv_r in H2 as (n & n3 & Hn & H3 & ->).
    destruct (Hn x) as [Hspend Hk]. destruct (exec_earns _ _ _ _ _ _ He) as [Hea Hsp].
    exists (n1 ++ (n - spends e x + earns e x)%nat :: n3). cbn. split; [by apply Forall2_app; [|constructor]|].
    rewrite sum_list_with_app in *. cbn in *. unfold id in *. lia.
  - exists (ns ++ [0%nat]). cbn. split; [apply Forall2_app; [done|constructor; [by apply starts_solvent|done]]|].
    rewrite sum_list_with_app. cbn. lia.
  - apply Forall2_app_inv_r in Hl as (n1 & n2 & H1 & H2 & ->). apply Forall2_cons_inv_r in H2 as (n & n3 & Hn & H3 & ->).
    exists (n1 ++ n3). cbn. split; [by apply Forall2_app|]. rewrite sum_list_with_app in *. cbn in *. unfold id in *. lia.
  - destruct (drift_earns _ _ Hd). exists ns. cbn. split; [done|lia].
Qed.
Lemma credits_cover w l w' : reaches ([], w) (l, w') -> (spent w <= earned w)%nat -> (spent w' <= earned w')%nat.
Proof.
  intros Hr Hw. assert (covered (l, w')) as (ns & _ & Hs); [|cbn in Hs; lia].
  assert (covered ([], w)) as Hc by (exists []; split; [done|cbn; lia]).
  clear Hw. revert Hc. induction Hr as [s|s s1 s2 Hstep _ IH]; [done|]. intros Hc. by eapply IH, covered_step.
Qed.
End credits.
End threads.

(** ** Renamed answers *)
Section relabelled.
Context {E : Type -> Type} {T U W C : Type}.
Variable exec : forall X, E X -> C -> W -> option (X * W).
Variables (I : W -> Prop) (R : W -> W -> Prop) (f : T -> U).
Lemma safe_relabel (Qs : T -> W -> Prop) (Qs' : U -> W -> Prop) (p : prog E T T) : forall w,
  (forall t w, Qs t w -> Qs' (f t) w) -> safe exec I R Qs Qs p w -> safe exec I R Qs' Qs' (relabel f p) w.
Proof.
  induction p as [a|t|X e k IH]; cbn; intros w Hq Hp; [eauto..|].
  intros w1 c x w2 Hr Hi He. destruct (Hp w1 c x w2 Hr Hi He) as (? & ? & ?). split_and!; [done..|]. by apply IH.
Qed.
Lemma uses_relabel P (p : prog E T T) : uses P p -> uses P (relabel f p).
Proof. induction p as [a|t|X e k IH]; cbn; [done..|]. intros [He Hk]. split; [done|]. intros x. by apply IH. Qed.
Lemma solvent_relabel earns spends (p : prog E T T) : forall n, solvent earns spends n p -> solvent earns spends n (relabel f p).
Proof. induction p as [a|t|X e k IH]; cbn; [done..|]. intros n Hp x. destruct (Hp x) as [He Hk]. split; [done|]. by apply IH. Qed.
End relabelled.
