(* ===== verification/Mail.v ===== *)
(** * Notification addresses and invitation emails

    A person's notification address and its verification, the unsubscribe link,
    the choice to be emailed, and the notice of an invitation
    ([handler/notification_email.go], [mail.go], [daily_quota.go], the settings
    routes of [pull_requests.go], [email/email.go]), with their statements
    ([database/sqlc/notification_emails.sql.go], [daily_quotas.sql.go]).

    The texts of the emails are left out: a message is the address it goes to
    and what it carries. What the world keeps beside the tables is who was sent
    what, and which codes people sent back. *)
From S2P Require Import Prelude GoText Hmac Links Threads.

Open Scope string_scope.
Open Scope list_scope.
Open Scope Z_scope.

Module Mail.
Import Hmac Links.

(** ** Tables and world *)
Record EmailRow : Type := mkEmailRow {
  Address : option string;
  VerifiedAt : option Z;
  VerifyTokenHash : option string;
  VerifyExpiresAt : option Z;
  EmailInvitations : bool
}.

Inductive Message : Type :=
| Verification (user : Z) (to token : string)
| InvitationNotice (invitee : Z) (to : string) (invitation : Z) (inviter collective page oneClick : string).

Definition quotaInvitationEmail : string := "invitation_email".
Definition quotaVerificationEmail : string := "verification_email".

Record World : Type := mkWorld {
  emails : gmap Z EmailRow;
  quotas : gmap (Z * string * Z) Z;       (** person, limit, UTC day *)
  db_now : Z;
  granted : list (Z * string * Z);        (** each slot taken of a limit *)
  sent : list Message;                    (** handed to the provider, in order *)
  drawn : list (Z * string * string);     (** codes drawn, for whom and what address *)
  returned : list (Z * string)            (** codes people sent back *)
}.

Definition day_of (t : Z) : Z := t / (86400 * second).

(** ** Operations *)
Inductive DbError : Type := NoRows | DbFailed.

Inductive Op : Type -> Type :=
| GetNotificationEmail (u : Z) : Op (result DbError EmailRow)
| SetNotificationEmail (u : Z) (address hash : string) (expires : Z) : Op (result DbError EmailRow)
| VerifyNotificationEmail (u : Z) (hash : string) : Op (result DbError EmailRow)
| RemoveNotificationEmail (u : Z) : Op (result DbError unit)
| SetEmailInvitations (u : Z) (wanted : bool) : Op (result DbError EmailRow)
| UnsubscribeInvitationEmails (u : Z) : Op (result DbError unit)
| GetInvitationEmailRecipient (u : Z) : Op (result DbError string)
| DeleteStaleDailyQuotas : Op (result DbError unit)
| TakeDailyQuota (u : Z) (q : string) (limit : Z) : Op (result DbError Z)
| ReadAccount : Op (result DbError unit)            (** a row of users *)
| PublicHandle (viewer person : Z) : Op (result DbError string)
| Draw (u : Z) (address : string) : Op (option string)    (** 32 random bytes *)
| Now : Op Z
| Receive (u : Z) (code : string) : Op unit         (** a person's code arrives *)
| Send (m : Message) : Op (result unit unit).

(** What an operation may turn out to be: [fails] of its statement, before or
    after it took effect; the provider's answer; the entropy; the server's own
    clock; what [public_owner.go] shows of a person. *)
Record Choice : Type := mkChoice {
  fails : option bool;
  entropy : option string;
  clock : Z;
  handle : string
}.

(** ** Statements *)
Definition set_emails x (w : World) : World := mkWorld x (quotas w) (db_now w) (granted w) (sent w) (drawn w) (returned w).
Definition set_quotas x g (w : World) : World := mkWorld (emails w) x (db_now w) g (sent w) (drawn w) (returned w).

Definition update_email (u : Z) (f : EmailRow -> option EmailRow) (w : World) : result DbError (EmailRow * World) :=
  match emails w !! u with
  | Some r => match f r with
    | Some r => Ok (r, set_emails (<[u := r]> (emails w)) w)
    | None => Err NoRows end
  | None => Err NoRows
  end.
Definition or_nothing {A} (w : World) (r : result DbError (A * World)) : result DbError (unit * World) :=
  match r with Ok (_, w) => Ok (tt, w) | Err NoRows => Ok (tt, w) | Err e => Err e end.

Definition with_address (address hash : string) (expires : Z) (r : EmailRow) : EmailRow :=
  mkEmailRow (Some address) (if bool_decide (Address r = Some address) then VerifiedAt r else None)
    (Some hash) (Some expires) (EmailInvitations r).
Definition sql_set (u : Z) (address hash : string) (expires : Z) (w : World) : EmailRow * World :=
  let r := match emails w !! u with
    | Some r => with_address address hash expires r
    | None => mkEmailRow (Some address) None (Some hash) (Some expires) true
    end in (r, set_emails (<[u := r]> (emails w)) w).
Definition sql_verify (u : Z) (hash : string) (w : World) : result DbError (EmailRow * World) :=
  update_email u (fun r => match Address r, VerifyTokenHash r, VerifyExpiresAt r with
    | Some a, Some h, Some e =>
      if String.eqb h hash && (db_now w <? e)
      then Some (mkEmailRow (Some a) (Some (db_now w)) None None (EmailInvitations r)) else None
    | _, _, _ => None
    end) w.
Definition sql_remove (u : Z) (w : World) : result DbError (unit * World) :=
  or_nothing w (update_email u (fun r => Some (mkEmailRow None None None None (EmailInvitations r))) w).
Definition with_choice (wanted : bool) (r : EmailRow) : EmailRow :=
  mkEmailRow (Address r) (VerifiedAt r) (VerifyTokenHash r) (VerifyExpiresAt r) wanted.
Definition sql_set_choice (u : Z) (wanted : bool) (w : World) : EmailRow * World :=
  let r := match emails w !! u with
    | Some r => with_choice wanted r
    | None => mkEmailRow None None None None wanted
    end in (r, set_emails (<[u := r]> (emails w)) w).
Definition sql_unsubscribe (u : Z) (w : World) : result DbError (unit * World) :=
  or_nothing w (update_email u (fun r => Some (with_choice false r)) w).
Definition sql_recipient (u : Z) (w : World) : result DbError string :=
  match emails w !! u with
  | Some r => match Address r, VerifiedAt r with
    | Some a, Some _ => if EmailInvitations r then Ok a else Err NoRows
    | _, _ => Err NoRows end
  | None => Err NoRows
  end.

Definition sql_take (u : Z) (q : string) (limit : Z) (w : World) : result DbError (Z * World) :=
  let k := (u, q, day_of (db_now w)) in
  let take n := Ok (n, set_quotas (<[k := n]> (quotas w)) (granted w ++ [k]) w) in
  match quotas w !! k with
  | None => take 1
  | Some used => if used <? limit then take (used + 1) else Err NoRows
  end.
Definition sql_stale (w : World) : World :=
  set_quotas (filter (fun p => negb (p.1.2 <? day_of (db_now w) - 1) = true) (quotas w)) (granted w) w.

(** A statement that may fail, before or after it took effect. *)
Definition statement {A} (c : Choice) (w : World) (r : result DbError (A * World)) : result DbError A * World :=
  match fails c, r with
  | None, Ok (a, w') => (Ok a, w')
  | None, Err e => (Err e, w)
  | Some true, Ok (_, w') => (Err DbFailed, w')
  | Some _, _ => (Err DbFailed, w)
  end.
Definition exec {X} (o : Op X) (c : Choice) (w : World) : X * World :=
  match o with
  | GetNotificationEmail u => statement c w (match emails w !! u with Some r => Ok (r, w) | None => Err NoRows end)
  | SetNotificationEmail u a h e => statement c w (Ok (sql_set u a h e w))
  | VerifyNotificationEmail u h => statement c w (sql_verify u h w)
  | RemoveNotificationEmail u => statement c w (sql_remove u w)
  | SetEmailInvitations u b => statement c w (Ok (sql_set_choice u b w))
  | UnsubscribeInvitationEmails u => statement c w (sql_unsubscribe u w)
  | GetInvitationEmailRecipient u => statement c w (match sql_recipient u w with Ok a => Ok (a, w) | Err e => Err e end)
  | DeleteStaleDailyQuotas => statement c w (Ok (tt, sql_stale w))
  | TakeDailyQuota u q n => statement c w (sql_take u q n w)
  | ReadAccount => statement c w (Ok (tt, w))
  | PublicHandle _ _ => statement c w (Ok (handle c, w))
  | Draw u a => (entropy c, match entropy c with
    | Some t => mkWorld (emails w) (quotas w) (db_now w) (granted w) (sent w) (drawn w ++ [(u, a, b64url_encode t)]) (returned w)
    | None => w end)
  | Now => (clock c, w)
  | Receive u code => (tt, mkWorld (emails w) (quotas w) (db_now w) (granted w) (sent w) (drawn w) (returned w ++ [(u, code)]))
  | Send m => (match fails c with None => Ok tt | Some _ => Err tt end,
      match fails c with
      | Some false => w
      | _ => mkWorld (emails w) (quotas w) (db_now w) (granted w) (sent w ++ [m]) (drawn w) (returned w)
      end)
  end.

(** ** Handlers *)
Record Settings : Type := mkSettings { emailInvitations : bool; notificationEmail : option (string * bool) }.
Record Response : Type := mkResponse { code : Z; settings : option Settings }.
Definition writeError (status : Z) : Response := mkResponse status None.
Notation Handler := (prog Op Response Response).

(** The parts of the configuration that emails use. *)
Record mailService : Type := mkMail { linkKey : string; frontendURL : string; apiBaseURL : string }.

Definition newMailServiceWith (signingKey FrontendURL BaseURL : string) : mailService :=
  mkMail signingKey (trim_right_byte 47 FrontendURL) (trim_right_byte 47 BaseURL).
Definition newMailService `{UnicodeTables} (s : Links.Settings) (FrontendURL BaseURL : string) : option mailService :=
  if Unset s then None
  else match Problems s with
    | [] => Some (newMailServiceWith (LinkSigningKey s) FrontendURL BaseURL)
    | _ => None
    end.

Definition verificationEmailsPerUserPerDay : Z := 5.
Definition invitationEmailsPerRecipientPerDay : Z := 3.
Definition verificationTokenLifetime : Z := 24 * 3600 * second.

Definition mapVillageUserSettings (n : option EmailRow) : Settings :=
  match n with
  | None => mkSettings true None
  | Some r => mkSettings (EmailInvitations r)
    ((fun a => (a, match VerifiedAt r with Some _ => true | None => false end)) <$> Address r)
  end.
Definition readNotificationEmail (u : Z) : prog Op Response (result DbError (option EmailRow)) :=
  r ← do_ (GetNotificationEmail u);
  mret (match r with Ok row => Ok (Some row) | Err NoRows => Ok None | Err e => Err e end).
(** [updated]: the account row was read by the caller; [known]: the
    notification row was. *)
Definition writeSettingsFrom (u : Z) (updated : bool) (known : option EmailRow) : Handler :=
  _ ← (if updated then mret tt else or_stop ReadAccount (fun _ => writeError 500));
  row ← match known with
    | Some r => mret (Some r)
    | None => r ← readNotificationEmail u; match r with Ok r => mret r | Err _ => Stop (writeError 500) end
    end;
  mret (mkResponse 200 (Some (mapVillageUserSettings row))).
Definition writeOwnSettings (u : Z) : Handler := writeSettingsFrom u false None.

Definition verificationTokenHash (token : string) : string := sha256 token.
Definition takeDailyQuota (u : Z) (q : string) (limit : Z) : prog Op Response (result DbError bool) :=
  stale ← do_ DeleteStaleDailyQuotas;
  match stale with
  | Err e => mret (Err e)
  | Ok _ =>
    r ← do_ (TakeDailyQuota u q limit);
    mret (match r with Ok _ => Ok true | Err NoRows => Ok false | Err e => Err e end)
  end.

(** [valid]: the request passes the contract's own checks. *)
Definition SetMyNotificationEmail (mail : option mailService) (u : Z) (address : string) (valid : bool) : Handler :=
  match mail with
  | None => Stop (writeError 501)
  | Some _ =>
    _ ← stop_if (negb valid) (writeError 400);
    current ← do_ (GetNotificationEmail u);
    match current with
    | Err DbFailed => Stop (writeError 500)
    | _ =>
      if (match current with
          | Ok r => bool_decide (Address r = Some address) && bool_decide (VerifiedAt r <> None)
          | Err _ => false end)
      then writeOwnSettings u
      else
        allowed ← takeDailyQuota u quotaVerificationEmail verificationEmailsPerUserPerDay;
        match allowed with
        | Err _ => Stop (writeError 500)
        | Ok false => Stop (writeError 429)
        | Ok true =>
          raw ← do_ (Draw u address);
          match raw with
          | None => Stop (writeError 500)
          | Some raw =>
            let token := b64url_encode raw in
            now ← do_ Now;
            _ ← or_stop (SetNotificationEmail u address (verificationTokenHash token) (now + verificationTokenLifetime))
              (fun _ => writeError 500);
            delivered ← do_ (Send (Verification u address token));
            match delivered with Ok _ => writeOwnSettings u | Err _ => Stop (writeError 500) end
          end
        end
    end
  end.

Definition VerifyMyNotificationEmail (u : Z) (token : string) : Handler :=
  _ ← do_ (Receive u token);
  r ← do_ (VerifyNotificationEmail u (verificationTokenHash token));
  match r with
  | Err NoRows => Stop (writeError 400)
  | Err _ => Stop (writeError 500)
  | Ok _ => writeOwnSettings u
  end.

Definition RemoveMyNotificationEmail (u : Z) : Handler :=
  _ ← or_stop (RemoveNotificationEmail u) (fun _ => writeError 500);
  writeOwnSettings u.

(** [account]: the identifier sixteen bytes stand for. *)
Definition UnsubscribeRoute (mail : option mailService) (account : string -> Z) (token : string) : Handler :=
  match mail with
  | None => Stop (writeError 400)
  | Some m =>
    now ← do_ Now;
    match VerifyUnsubscribe (linkKey m) token now with
    | None => Stop (writeError 400)
    | Some bytes =>
      _ ← or_stop (UnsubscribeInvitationEmails (account bytes)) (fun _ => writeError 500);
      mret (mkResponse 200 None)
    end
  end.

(** [attach]: the request carries one of the attach choices, which are of
    another table. *)
Definition UpdateUserSettings (u : Z) (attach : bool) (invitations : option bool) : Handler :=
  _ ← (if attach then or_stop ReadAccount (fun _ => writeError 500) else mret tt);
  row ← match invitations with
    | Some b => r ← or_stop (SetEmailInvitations u b) (fun _ => writeError 500); mret (Some r)
    | None => mret None
    end;
  writeSettingsFrom u attach row.

(** [path_escape] of a token in a query: it has nothing to escape. *)
Definition unsubscribeURLs (m : mailService) (account : string) (now : Z) : string * string :=
  let token := UnsubscribeToken (linkKey m) account (now + UnsubscribeLifetime) in
  (frontendURL m +:+ "/email/unsubscribe?token=" +:+ token, apiBaseURL m +:+ "/api/v1/email/unsubscribe?token=" +:+ token).

Record invitationNotice : Type := mkNotice {
  invitationID : Z; inviteeID : option Z; inviterID : Z; collectiveName : string
}.
(** The answer says whether it went out; nobody reads it. *)
Definition deliverInvitationNotice (m : mailService) (bytes : Z -> string) (invitee : Z) (n : invitationNotice) (now : Z) : Handler :=
  address ← do_ (GetInvitationEmailRecipient invitee);
  match address with
  | Err NoRows => mret (mkResponse 0 None)
  | Err _ => Stop (writeError 1)
  | Ok address =>
    allowed ← takeDailyQuota invitee quotaInvitationEmail invitationEmailsPerRecipientPerDay;
    match allowed with
    | Err _ => Stop (writeError 1)
    | Ok false => mret (mkResponse 0 None)
    | Ok true =>
      inviter ← or_stop (PublicHandle invitee (inviterID n)) (fun _ => writeError 1);
      let '(page, oneClick) := unsubscribeURLs m (bytes invitee) now in
      delivered ← do_ (Send (InvitationNotice invitee address (invitationID n) inviter (collectiveName n) page oneClick));
      match delivered with Ok _ => mret (mkResponse 0 None) | Err _ => Stop (writeError 1) end
    end
  end.
(** [dispatchInvitationNotice]: what runs after the invite's own response. *)
Definition dispatchInvitationNotice (mail : option mailService) (bytes : Z -> string) (n : invitationNotice) : Handler :=
  match mail, inviteeID n with
  | Some m, Some invitee => now ← do_ Now; deliverInvitationNotice m bytes invitee n now
  | _, _ => mret (mkResponse 0 None)
  end.

(** ** Every way in *)
Inductive Request : Type :=
| SetAddress (u : Z) (address : string) (valid : bool)
| VerifyAddress (u : Z) (token : string)
| RemoveAddress (u : Z)
| ReadSettings (u : Z)
| ChangeSettings (u : Z) (attach : bool) (invitations : option bool)
| Unsubscribe (token : string)
| Notice (n : invitationNotice).

(** [account] and [bytes]: an identifier and its sixteen bytes. *)
Definition perform (mail : option mailService) (account : string -> Z) (bytes : Z -> string) (q : Request) : Handler :=
  match q with
  | SetAddress u a valid => SetMyNotificationEmail mail u a valid
  | VerifyAddress u token => VerifyMyNotificationEmail u token
  | RemoveAddress u => RemoveMyNotificationEmail u
  | ReadSettings u => writeOwnSettings u
  | ChangeSettings u attach invitations => UpdateUserSettings u attach invitations
  | Unsubscribe token => UnsubscribeRoute mail account token
  | Notice n => dispatchInvitationNotice mail bytes n
  end.
Definition requested mail account bytes (p : Handler) : Prop := exists q, p = perform mail account bytes q.
(** Time passes. *)
Definition tick (w w' : World) : Prop :=
  exists t, db_now w <= t /\ w' = mkWorld (emails w) (quotas w) t (granted w) (sent w) (drawn w) (returned w).
Definition executes (X : Type) (o : Op X) (c : Choice) (w : World) : option (X * World) := Some (exec o c w).
Definition running mail account bytes := reaches executes tick (requested mail account bytes).
End Mail.
