(* ===== verification/MailLaws.v ===== *)
(** * What emails and their links promise

    An invitation is mailed only to an address whose owner sent back a code that
    was drawn for it; how many there are in a day; and what an unsubscribe link
    can do. *)
From S2P Require Import Prelude GoText Hmac Links Threads Mail.

Open Scope string_scope.
Open Scope list_scope.
Open Scope Z_scope.

Module MailLaws.
Import Hmac Links Mail.

(** ** Addresses are confirmed before they are used *)

(** [u] sent back a code that hashes as one drawn for them and the address. *)
Definition confirmed (u : Z) (a : string) (w : World) : Prop :=
  exists t p, (u, a, t) ∈ drawn w /\ (u, p) ∈ returned w /\ sha256 p = sha256 t.
Record Inv (w : World) : Prop := {
  pending_code : forall u r h, emails w !! u = Some r -> VerifyTokenHash r = Some h ->
    exists a t, Address r = Some a /\ (u, a, t) ∈ drawn w /\ h = sha256 t;
  verified_address : forall u r s, emails w !! u = Some r -> VerifiedAt r = Some s ->
    exists a, Address r = Some a /\ confirmed u a w;
  notices_confirmed : forall u a n i c p o, InvitationNotice u a n i c p o ∈ sent w -> confirmed u a w;
  codes_drawn : forall u a t, Verification u a t ∈ sent w -> (u, a, t) ∈ drawn w
}.
Record Grows (w w' : World) : Prop := { more_drawn : drawn w ⊆ drawn w'; more_returned : returned w ⊆ returned w' }.
#[export] Instance grows_preorder : PreOrder Grows.
Proof. split; [by split|]. intros x y z [? ?] [? ?]. split; set_solver. Qed.

Lemma confirmed_later u a w w' : Grows w w' -> confirmed u a w -> confirmed u a w'.
Proof. intros [Hd Hr] (t & p & ? & ? & ?). exists t, p. auto. Qed.

(** What a handler must know before an operation, and learns from it. *)
Definition allowed {X} (o : Op X) (w : World) : Prop :=
  match o with
  | SetNotificationEmail u a h _ => exists t, (u, a, t) ∈ drawn w /\ h = sha256 t
  | VerifyNotificationEmail u h => exists p, (u, p) ∈ returned w /\ h = sha256 p
  | Send (InvitationNotice u a _ _ _ _ _) => confirmed u a w
  | Send (Verification u a t) => (u, a, t) ∈ drawn w
  | _ => True
  end.
Definition learned {X} (o : Op X) : X -> World -> Prop :=
  match o in Op X return X -> World -> Prop with
  | GetInvitationEmailRecipient u => fun r w => match r with Ok a => confirmed u a w | Err _ => True end
  | Draw u a => fun r w => match r with Some t => (u, a, b64url_encode t) ∈ drawn w | None => True end
  | Receive u p => fun _ w => (u, p) ∈ returned w
  | _ => fun _ _ => True
  end.
Lemma learned_later {X} (o : Op X) x w w' : Grows w w' -> learned o x w -> learned o x w'.
Proof.
  intros Hg. destruct o; cbn; try done.
  - destruct x; [|done]. by apply confirmed_later.
  - destruct x; [|done]. apply Hg.
  - apply Hg.
Qed.
Lemma allowed_later {X} (o : Op X) w w' : Grows w w' -> allowed o w -> allowed o w'.
Proof.
  intros Hg. pose proof (more_drawn _ _ Hg). pose proof (more_returned _ _ Hg). destruct o; cbn; try done.
  - intros (t & ? & ?). exists t. auto.
  - intros (p & ? & ?). exists p. auto.
  - destruct m; [auto|by apply confirmed_later].
Qed.

(** A row that keeps its address, verification and code, or drops them. *)
Definition tamer (r r' : EmailRow) : Prop :=
  (Address r' = Address r /\ VerifiedAt r' = VerifiedAt r /\ VerifyTokenHash r' = VerifyTokenHash r) \/
  (VerifiedAt r' = None /\ VerifyTokenHash r' = None).
Lemma inv_row u r' (w : World) : Inv w ->
  (forall h, VerifyTokenHash r' = Some h -> exists a t, Address r' = Some a /\ (u, a, t) ∈ drawn w /\ h = sha256 t) ->
  (forall s, VerifiedAt r' = Some s -> exists a, Address r' = Some a /\ confirmed u a w) ->
  Inv (set_emails (<[u := r']> (emails w)) w).
Proof.
  intros [Hp Hv Hn Hc] Hp' Hv'. split; [| |exact Hn|exact Hc]; cbn.
  - intros u0 r h [[<- <-]|[_ Hu]]%lookup_insert_Some; eauto.
  - intros u0 r s [[<- <-]|[_ Hu]]%lookup_insert_Some Hs; [exact (Hv' s Hs)|exact (Hv u0 r s Hu Hs)].
Qed.
Lemma inv_tamer u r r' w : Inv w -> emails w !! u = Some r -> tamer r r' -> Inv (set_emails (<[u := r']> (emails w)) w).
Proof.
  intros Hi Hu Ht. apply inv_row; [done|intros h Hh|intros s Hs].
  - destruct Ht as [(Ha & _ & Heq)|[_ Hnone]]; [|by rewrite Hnone in Hh].
    rewrite Heq in Hh. destruct (pending_code _ Hi _ _ _ Hu Hh) as (a & t & ? & ? & ?). exists a, t. by rewrite Ha.
  - destruct Ht as [(Ha & Heq & _)|[Hnone _]]; [|by rewrite Hnone in Hs].
    rewrite Heq in Hs. destruct (verified_address _ Hi _ _ _ Hu Hs) as (a & ? & ?). exists a. by rewrite Ha.
Qed.

Lemma grows_emails x w : Grows w (set_emails x w).
Proof. done. Qed.

Lemma set_inv u a h e w : Inv w -> allowed (SetNotificationEmail u a h e) w -> Inv (sql_set u a h e w).2.
Proof.
  intros Hi (t & Ht & ->). unfold sql_set. destruct (emails w !! u) as [r|] eqn:Hu; cbn; apply inv_row; try done; cbn.
  - intros h [= <-]. by exists a, t.
  - intros s. case_bool_decide as Ha; [|done]. intros Hs.
    destruct (verified_address _ Hi _ _ _ Hu Hs) as (a' & Ha' & Hc). exists a. split; [done|]. congruence.
  - intros h [= <-]. by exists a, t.
Qed.
Lemma verify_inv u h w r w' : Inv w -> allowed (VerifyNotificationEmail u h) w -> sql_verify u h w = Ok (r, w') -> Inv w'.
Proof.
  intros Hi (p & Hp & ->). unfold sql_verify, update_email. destruct (emails w !! u) as [r0|] eqn:Hu; [|done].
  destruct (Address r0) as [a|] eqn:Ha; [|done]. destruct (VerifyTokenHash r0) as [h|] eqn:Hh; [|done].
  destruct (VerifyExpiresAt r0); [|done]. destruct (String.eqb h (sha256 p)) eqn:Heq; [|done]. cbn.
  destruct (_ <? _); [|done]. intros [= <- <-]. apply String.eqb_eq in Heq as ->. apply inv_row; [done..|]. cbn.
  intros s _. exists a. split; [done|]. destruct (pending_code _ Hi _ _ _ Hu Hh) as (a' & t & Ha' & Ht & Hs).
  exists t, p. split_and!; [|done..]. congruence.
Qed.
Lemma nothing_inv u f w w' : Inv w -> (forall r r', f r = Some r' -> tamer r r') ->
  or_nothing w (update_email u f w) = Ok (tt, w') -> Inv w' /\ Grows w w'.
Proof.
  intros Hi Hf. unfold or_nothing, update_email. destruct (emails w !! u) as [r|] eqn:Hu; [|by intros [= <-]].
  destruct (f r) as [r'|] eqn:Hr; intros [= <-]; [|done]. split; [|done]. eapply inv_tamer; eauto.
Qed.
Lemma choice_inv u b w : Inv w -> Inv (sql_set_choice u b w).2.
Proof.
  intros Hi. unfold sql_set_choice. destruct (emails w !! u) as [r|] eqn:Hu; cbn.
  - eapply inv_tamer; [done..|]. by left.
  - by apply inv_row.
Qed.
Lemma inv_beside w w' : Inv w -> emails w' = emails w -> sent w' = sent w -> Grows w w' -> Inv w' /\ Grows w w'.
Proof.
  intros [Hp Hv Hn Hc] He Hs Hg. split; [|done]. split; rewrite ?He, ?Hs.
  - intros u r h Hu Hh. destruct (Hp u r h Hu Hh) as (a & t & ? & ? & ?). exists a, t. split_and!; [done| |done]. by apply Hg.
  - intros u r s Hu Hr. destruct (Hv u r s Hu Hr) as (a & ? & ?). exists a. split; [done|]. by eapply confirmed_later.
  - intros u a n i c p o Hin. by eapply confirmed_later, Hn.
  - intros u a t Hin. by apply Hg, Hc.
Qed.
Lemma statement_inv {A} c w (r : result DbError (A * World)) : Inv w ->
  (forall a w', r = Ok (a, w') -> Inv w' /\ Grows w w') -> Inv (statement c w r).2 /\ Grows w (statement c w r).2.
Proof. intros Hi Hr. unfold statement. destruct (fails c) as [[]|], r as [[a w']|e]; cbn; eauto; by split. Qed.

Lemma send_inv c m w : Inv w -> allowed (Send m) w -> Inv (exec (Send m) c w).2 /\ Grows w (exec (Send m) c w).2.
Proof.
  intros Hi Ha. cbn. assert (Inv (mkWorld (emails w) (quotas w) (db_now w) (granted w) (sent w ++ [m]) (drawn w) (returned w))) as Hs.
  { destruct Hi as [Hp Hv Hn Hc]. split; [exact Hp|exact Hv| |]; cbn [sent drawn].
    - intros u a n i co p o [Hin|Hin%list_elem_of_singleton]%elem_of_app; [exact (Hn _ _ _ _ _ _ _ Hin)|by subst].
    - intros u a t [Hin|Hin%list_elem_of_singleton]%elem_of_app; [by apply Hc|by subst]. }
  destruct (fails c) as [[]|]; cbn; split; done.
Qed.
Lemma exec_inv {X} (o : Op X) c w : Inv w -> allowed o w -> Inv (exec o c w).2 /\ Grows w (exec o c w).2.
Proof.
  intros Hi Ha. destruct o; [..|by apply send_inv]; cbn [exec]; try (apply statement_inv; [done|]; intros x w' Heq).
  - destruct (emails w !! u); [|done]. by injection Heq as <- <-.
  - pose proof (set_inv u address hash expires w Hi Ha) as Hs. split.
    + destruct (sql_set u address hash expires w). by injection Heq as <- <-.
    + unfold sql_set in Heq. destruct (emails w !! u); by injection Heq as <- <-.
  - split; [by eapply verify_inv|]. unfold sql_verify, update_email in Heq. repeat case_match; by simplify_eq.
  - eapply nothing_inv; [done| |by destruct x]. intros r r' [= <-]. by right.
  - pose proof (choice_inv u wanted w Hi) as Hs. split.
    + destruct (sql_set_choice u wanted w). by injection Heq as <- <-.
    + unfold sql_set_choice in Heq. destruct (emails w !! u); by injection Heq as <- <-.
  - eapply nothing_inv; [done| |by destruct x]. intros r r' [= <-]. by left.
  - destruct (sql_recipient u w); [|done]. by injection Heq as <- <-.
  - injection Heq as <- <-. by apply inv_beside.
  - unfold sql_take in Heq. cbn in Heq. repeat case_match; simplify_eq; by apply inv_beside.
  - by injection Heq as <- <-.
  - by injection Heq as <- <-.
  - destruct (entropy c); cbn; [|done]. apply inv_beside; [done..|]. split; cbn; set_solver.
  - done.
  - cbn. apply inv_beside; [done..|]. split; cbn; set_solver.
Qed.
Lemma exec_learns {X} (o : Op X) c w : Inv w -> learned o (exec o c w).1 (exec o c w).2.
Proof.
  intros Hi. destruct o; cbn; try done.
  - unfold statement, sql_recipient. destruct (emails w !! u) as [r|] eqn:Hu; [|by destruct (fails c) as [[]|]].
    destruct (Address r) as [a|] eqn:Ha; [|by destruct (fails c) as [[]|]].
    destruct (VerifiedAt r) eqn:Hv; [|by destruct (fails c) as [[]|]].
    destruct (EmailInvitations r), (fails c) as [[]|]; cbn; try done.
    destruct (verified_address _ Hi _ _ _ Hu Hv) as (a' & Ha' & ?). congruence.
  - destruct (entropy c); [|done]. cbn. apply elem_of_app. right. by left.
  - apply elem_of_app. right. by left.
Qed.

(** ** The handlers *)
Notation ok := (safe executes Inv Grows (fun (_ : Response) _ => True)).
Lemma mail_do {X} (o : Op X) (Q : X -> World -> Prop) w : Inv w -> allowed o w ->
  (forall x w', Inv w' -> Grows w w' -> learned o x w' -> Q x w') -> ok Q (do_ o) w.
Proof.
  apply (safe_contract executes Inv Grows (@allowed) (@learned)); [exact @allowed_later|exact @learned_later|].
  intros Y e c x w1 w2 Hi Ha [= Hx]. pose proof (exec_inv e c w1 Hi Ha) as Hk. pose proof (exec_learns e c w1 Hi) as Hl.
  rewrite Hx in Hk, Hl. by destruct Hk.
Qed.

(** Take the program apart, operation by operation. *)
Ltac walk := repeat match goal with
  | |- safe _ _ _ _ _ (mbind _ _) _ => apply (safe_bind executes Inv Grows); [done|]
  | |- safe _ _ _ _ _ (do_ _) _ => apply mail_do; [done|try done|intros ? ? ? ? ?; cbn [learned] in *]
  | |- safe _ _ _ _ _ (or_stop _ _) _ => unfold or_stop
  | |- safe _ _ _ _ _ (stop_if _ _) _ => unfold stop_if
  | |- safe _ _ _ _ _ (takeDailyQuota _ _ _) _ => unfold takeDailyQuota
  | |- safe _ _ _ _ _ (writeOwnSettings _) _ => unfold writeOwnSettings, writeSettingsFrom, readNotificationEmail
  | |- safe _ _ _ _ _ (match ?b with _ => _ end) _ => destruct b eqn:?
  | |- safe _ _ _ _ _ (mret _) _ => intros ? ? ?; cbv beta; try done
  | |- safe _ _ _ _ _ (Ret _) _ => intros ? ? ?; cbv beta; try done
  | |- safe _ _ _ _ _ (Stop _) _ => done
  end.
(** What was drawn or returned in an earlier world. *)
Ltac forward := repeat match goal with
  | Hg : Grows ?w1 ?w2, Hin : _ ∈ drawn ?w1 |- _ => apply (more_drawn _ _ Hg) in Hin
  | Hg : Grows ?w1 ?w2, Hin : _ ∈ returned ?w1 |- _ => apply (more_returned _ _ Hg) in Hin
  | Hg : Grows ?w1 ?w2, Hin : confirmed _ _ ?w1 |- _ => apply (confirmed_later _ _ _ _ Hg) in Hin
  end.
Lemma handlers_ok mail account bytes q w : Inv w -> ok (fun _ _ => True) (perform mail account bytes q) w.
Proof.
  intros Hi. destruct q; cbn [perform]; [unfold SetMyNotificationEmail|unfold VerifyMyNotificationEmail|unfold RemoveMyNotificationEmail|
    |unfold UpdateUserSettings, writeSettingsFrom, readNotificationEmail|unfold UnsubscribeRoute|
    unfold dispatchInvitationNotice, deliverInvitationNotice].
  all: walk; forward; cbn; eauto.
Qed.

(** C9: an invitation is mailed only to an address that was confirmed: the person
    invited sent back a code with the hash of one drawn for them and this very
    address, and a code is mailed to no address but the one it was drawn for.
    This holds however requests interleave, statements fail and mail is lost. *)
Theorem invitations_go_where_asked mail account bytes w l w' :
  emails w = ∅ -> sent w = [] -> running mail account bytes ([], w) (l, w') ->
  (forall u a n i c p o, InvitationNotice u a n i c p o ∈ sent w' ->
    exists t code, (u, a, t) ∈ drawn w' /\ (u, code) ∈ returned w' /\ sha256 code = sha256 t) /\
  forall u a t, Verification u a t ∈ sent w' -> (u, a, t) ∈ drawn w'.
Proof.
  intros He Hs Hr.
  assert (Inv w) as Hi by (split; rewrite ?He, ?Hs; set_solver).
  destruct (pool_safe executes tick (requested mail account bytes) Inv Grows (fun _ _ => True) (fun _ _ => True) [] w l w')
    as (H' & _); try done.
  - intros w1 w2 H1 (t & _ & ->). by apply inv_beside.
  - intros q w1 [r ->] H1. by apply handlers_ok.
  - split; [exact (notices_confirmed _ H')|exact (codes_drawn _ H')].
Qed.

(** Also: a service that runs signs with a key of at least 32 bytes. *)
Lemma configured_key `{UnicodeTables} s f b m : newMailService s f b = Some m ->
  linkKey m = LinkSigningKey s /\ 32 <= blen (trim_space (linkKey m)).
Proof.
  unfold newMailService, Problems. destruct (Unset s); [done|].
  destruct (blank (ProviderAPIKey s)), (blank (From s)), (blank (LinkSigningKey s)); cbn [app]; try done.
  destruct (Z.ltb_spec (blen (trim_space (LinkSigningKey s))) MinLinkSigningKeyLength); [done|]. by intros [= <-].
Qed.

(** ** How many there are *)
(** At most [c] of each of [n] values. *)
Lemma few_each (c : nat) (a : Z) (n : nat) : forall l : list Z,
  (forall x, x ∈ l -> a <= x < a + Z.of_nat n) -> (forall x, (count x l <= c)%nat) -> (length l <= c * n)%nat.
Proof.
  induction n as [|n IH]; intros l Hin Hc.
  - destruct l as [|x l]; [cbn; lia|]. specialize (Hin x (list_elem_of_here x l)). lia.
  - pose (last := a + Z.of_nat n).
    assert (length l = length (filter (fun y => y <> last) l) + count last l)%nat as ->.
    { clear. unfold count. induction l as [|x l IH]; [done|]. rewrite !filter_cons. repeat case_decide; cbn; lia || done. }
    specialize (Hc last) as Hlast.
    assert (length (filter (fun y => y <> last) l) <= c * n)%nat; [|lia]. apply IH.
    + intros x [Hx Hl]%list_elem_of_filter. specialize (Hin x Hl). lia.
    + intros x. etrans; [apply count_filter|apply Hc].
Qed.

Definition quota_day (k : Z * string * Z) : Z := k.2.
Record Counted (d0 : Z) (w : World) : Prop := {
  later_days : forall u q d, day_of (db_now w) < d -> count (u, q, d) (granted w) = 0%nat;
  days_counted : forall u q d, day_of (db_now w) - 1 <= d -> default 0 (quotas w !! (u, q, d)) = Z.of_nat (count (u, q, d) (granted w));
  few_a_day : forall u d, (count (u, quotaInvitationEmail, d) (granted w) <= 3)%nat;
  days_since : forall k, k ∈ granted w -> d0 <= quota_day k;
  day_since : d0 <= day_of (db_now w)
}.
(** The limit on invitation emails is the same wherever it is asked. *)
Definition modest (X : Type) (o : Op X) : Prop :=
  match o with
  | TakeDailyQuota _ q n => q = quotaInvitationEmail -> n = invitationEmailsPerRecipientPerDay
  | _ => True
  end.
Definition same_quotas (w w' : World) : Prop := quotas w' = quotas w /\ granted w' = granted w /\ db_now w' = db_now w.
Lemma counted_same d0 w w' : same_quotas w w' -> Counted d0 w -> Counted d0 w'.
Proof.
  intros (Hq & Hg & Ht) Hc. destruct w as [e q t g s d r], w' as [e' q' t' g' s' d' r']. cbn in *. subst.
  destruct Hc as [? ? ? ? ?]. by split.
Qed.
Lemma counted_stale d0 w : Counted d0 w -> Counted d0 (sql_stale w).
Proof.
  intros [Hl Hc Hf Hs Hd]. split; try done. intros u q d Hday. specialize (Hc u q d Hday). etrans; [|exact Hc]. cbn in *.
  destruct (quotas w !! (u, q, d)) as [n|] eqn:Hq.
  - rewrite (map_lookup_filter_Some_2 _ _ _ n); [done|done|]. cbn. apply negb_true_iff, Z.ltb_ge. lia.
  - by rewrite map_lookup_filter_None_2; [|left].
Qed.
Lemma counted_take d0 u q n r w w' : Counted d0 w -> modest _ (TakeDailyQuota u q n) -> sql_take u q n w = Ok (r, w') -> Counted d0 w'.
Proof.
  intros [Hl Hc Hf Hs Hd] Hm. pose (k := (u, q, day_of (db_now w))).
  pose proof (Hc u q (day_of (db_now w)) ltac:(lia)) as Hk. fold k in Hk.
  assert (forall m w', Ok (m, set_quotas (<[k := m]> (quotas w)) (granted w ++ [k]) w) = Ok (E := DbError) (r, w') ->
    m = default 0 (quotas w !! k) + 1 -> (q = quotaInvitationEmail -> default 0 (quotas w !! k) < 3) -> Counted d0 w') as Hgo.
  { intros m w1 [= <- <-] -> Hlt. split; cbn; [..|exact Hd].
    - intros u0 q0 d Hday. rewrite count_app, count_one, Hl by done. case_decide as Heq; [|done].
      unfold k in Heq. injection Heq as _ _ <-. lia.
    - intros u0 q0 d Hday. rewrite count_app, count_one. case_decide as Heq.
      + rewrite <- Heq, lookup_insert_eq. cbn. rewrite Hk. lia.
      + rewrite lookup_insert_ne by done. rewrite Hc by done. lia.
    - intros u0 d. rewrite count_app, count_one. case_decide as Heq; [|specialize (Hf u0 d); lia].
      rewrite <- Heq. unfold k in Heq. injection Heq as _ Hq _. specialize (Hlt Hq). rewrite Hk in Hlt. lia.
    - intros k0 Hin. apply elem_of_app in Hin as [Hin|Hin]; [by apply Hs|]. by apply list_elem_of_singleton in Hin as ->. }
  unfold sql_take. cbn. fold k. destruct (quotas w !! k) as [used|] eqn:Hu; cbn in *.
  - destruct (Z.ltb_spec used n); [|done]. intros Hx. eapply Hgo; [exact Hx|done|]. intros ->. rewrite Hm in * by done. done.
  - intros Hx. eapply Hgo; [exact Hx|done|]. lia.
Qed.
Lemma counted_tick d0 t w : Counted d0 w -> db_now w <= t -> Counted d0 (mkWorld (emails w) (quotas w) t (granted w) (sent w) (drawn w) (returned w)).
Proof.
  intros [Hl Hc Hf Hs Hd] Ht. assert (day_of (db_now w) <= day_of t) as Hday by (by apply Z.div_le_mono).
  split; cbn; [..|lia]; try done.
  - intros u q d Hlt. apply Hl. lia.
  - intros u q d Hle. apply Hc. lia.
Qed.
Lemma exec_counted d0 X (o : Op X) c x w w' : modest X o -> Counted d0 w -> executes X o c w = Some (x, w') -> Counted d0 w'.
Proof.
  intros Hm Hi [= Hx]. assert (Counted d0 (exec o c w).2) as Hs; [|by rewrite Hx in Hs]. clear Hx.
  assert (forall A (r : result DbError (A * World)), (forall a w', r = Ok (a, w') -> Counted d0 w') -> Counted d0 (statement c w r).2) as Hst.
  { intros A r Hr. unfold statement. destruct (fails c) as [[]|], r as [[a w1]|e]; cbn; eauto. }
  destruct o; cbn [exec]; try (apply Hst; intros a w1 Heq).
  - destruct (emails w !! u); [|done]. by injection Heq as <- <-.
  - unfold sql_set in Heq. destruct (emails w !! u); injection Heq as <- <-; by (eapply counted_same; [|exact Hi]).
  - unfold sql_verify, update_email in Heq. repeat case_match; simplify_eq; by (eapply counted_same; [|exact Hi]).
  - unfold sql_remove, or_nothing, update_email in Heq. repeat case_match; simplify_eq; by (eapply counted_same; [|exact Hi]).
  - unfold sql_set_choice in Heq. destruct (emails w !! u); injection Heq as <- <-; by (eapply counted_same; [|exact Hi]).
  - unfold sql_unsubscribe, or_nothing, update_email in Heq. repeat case_match; simplify_eq; by (eapply counted_same; [|exact Hi]).
  - destruct (sql_recipient u w); [|done]. by injection Heq as <- <-.
  - injection Heq as <- <-. by apply counted_stale.
  - by eapply counted_take.
  - by injection Heq as <- <-.
  - by injection Heq as <- <-.
  - destruct (entropy c); [|done]. by (eapply counted_same; [|exact Hi]).
  - done.
  - by (eapply counted_same; [|exact Hi]).
  - destruct (fails c) as [[]|]; [by (eapply counted_same; [|exact Hi])|done|by (eapply counted_same; [|exact Hi])].
Qed.

Ltac each := repeat match goal with
  | |- uses _ (mbind _ _) => apply uses_bind; [|intros ?]
  | |- uses _ (do_ _) => apply uses_do; try done
  | |- uses _ (or_stop _ _) => unfold or_stop
  | |- uses _ (stop_if _ _) => unfold stop_if
  | |- uses _ (takeDailyQuota _ _ _) => unfold takeDailyQuota
  | |- uses _ (writeOwnSettings _) => unfold writeOwnSettings, writeSettingsFrom, readNotificationEmail
  | |- uses _ (match ?b with _ => _ end) => destruct b eqn:?
  | |- uses _ (mret _) => done
  | |- uses _ (Ret _) => done
  | |- uses _ (Stop _) => done
  end.
Lemma handlers_modest mail account bytes q : uses modest (perform mail account bytes q).
Proof.
  destruct q; cbn [perform]; [unfold SetMyNotificationEmail|unfold VerifyMyNotificationEmail|unfold RemoveMyNotificationEmail|
    |unfold UpdateUserSettings, writeSettingsFrom, readNotificationEmail|unfold UnsubscribeRoute|
    unfold dispatchInvitationNotice, deliverInvitationNotice].
  all: each.
Qed.
(** ** One slot, one notice *)
Section one_person.
Variable u0 : Z.
Definition slots (w : World) : nat := length (filter (fun k : Z * string * Z => k.1 = (u0, quotaInvitationEmail)) (granted w)).
Definition is_notice_to (m : Message) : Prop := match m with InvitationNotice u _ _ _ _ _ _ => u = u0 | _ => False end.
#[local] Instance is_notice_to_dec m : Decision (is_notice_to m).
Proof. destruct m; apply _. Defined.
Definition notices (w : World) : nat := length (filter is_notice_to (sent w)).
Definition gains (X : Type) (o : Op X) : X -> nat :=
  match o in Op X return X -> nat with
  | TakeDailyQuota u q _ => fun r => match r with Ok _ => if decide ((u, q) = (u0, quotaInvitationEmail)) then 1%nat else 0%nat | Err _ => 0%nat end
  | _ => fun _ => 0%nat
  end.
Definition costs (X : Type) (o : Op X) : X -> nat :=
  match o in Op X return X -> nat with
  | Send m => fun _ => if decide (is_notice_to m) then 1%nat else 0%nat
  | _ => fun _ => 0%nat
  end.
#[local] Notation pays := (solvent gains costs).
#[local] Notation free := (uses (fun X (o : Op X) => forall x, costs X o x = 0%nat)).

Lemma notice_pays m bytes invitee n now : pays 0 (deliverInvitationNotice m bytes invitee n now).
Proof.
  apply solvent_do. intros [a|[]]; (split; [cbn; lia|]); [|apply solvent_uses; each..].
  unfold takeDailyQuota. intros [[]|e]; (split; [cbn; lia|]); [|by destruct e].
  apply solvent_do. intros [k|[]]; (split; [cbn; lia|]); [|done..]. cbn [costs gains].
  apply solvent_do. intros [inviter|]; (split; [cbn; lia|]); [|by cbn].
  apply solvent_do. intros [[]|[]]; cbn; repeat case_decide; simplify_eq; split; lia || done.
Qed.
Lemma handlers_pay mail account bytes q : pays 0 (perform mail account bytes q).
Proof.
  destruct q; cbn [perform]; [unfold SetMyNotificationEmail|unfold VerifyMyNotificationEmail|unfold RemoveMyNotificationEmail|
    |unfold UpdateUserSettings, writeSettingsFrom, readNotificationEmail|unfold UnsubscribeRoute|].
  1-6: apply solvent_uses; each.
  unfold dispatchInvitationNotice. destruct mail; [|done]. destruct (inviteeID n); [|done].
  apply solvent_do. intros t. split; [cbn; lia|]. apply notice_pays.
Qed.

Lemma quiet_statement {A} c w (r : result DbError (A * World)) :
  (forall a w', r = Ok (a, w') -> granted w' = granted w /\ sent w' = sent w) ->
  granted (statement c w r).2 = granted w /\ sent (statement c w r).2 = sent w.
Proof. intros Hr. unfold statement. destruct (fails c) as [[]|], r as [[a w1]|e]; cbn; eauto. Qed.
Lemma quiet_exec {X} (o : Op X) c w :
  match o with TakeDailyQuota _ _ _ | Send _ => True | _ => granted (exec o c w).2 = granted w /\ sent (exec o c w).2 = sent w end.
Proof.
  destruct o; cbn [exec]; try done; try (apply quiet_statement; intros ?? Heq).
  - destruct (emails w !! u); by simplify_eq.
  - unfold sql_set in Heq. destruct (emails w !! u); by injection Heq as <- <-.
  - unfold sql_verify, update_email in Heq. repeat case_match; by simplify_eq.
  - unfold sql_remove, or_nothing, update_email in Heq. repeat case_match; by simplify_eq.
  - unfold sql_set_choice in Heq. destruct (emails w !! u); by injection Heq as <- <-.
  - unfold sql_unsubscribe, or_nothing, update_email in Heq. repeat case_match; by simplify_eq.
  - destruct (sql_recipient u w); by simplify_eq.
  - by injection Heq as <- <-.
  - by injection Heq as <- <-.
  - by injection Heq as <- <-.
  - by destruct (entropy c).
Qed.
Lemma take_earns u q n c w : 
  (slots w + gains _ (TakeDailyQuota u q n) (exec (TakeDailyQuota u q n) c w).1 <= slots (exec (TakeDailyQuota u q n) c w).2)%nat /\
  sent (exec (TakeDailyQuota u q n) c w).2 = sent w.
Proof.
  assert (forall a w', sql_take u q n w = Ok (a, w') ->
    (slots w + (if decide ((u, q) = (u0, quotaInvitationEmail)) then 1 else 0) <= slots w')%nat /\ sent w' = sent w) as Ht.
  { intros a w' Heq. unfold sql_take in Heq. cbn in Heq. repeat case_match; simplify_eq; (split; [|done]);
      unfold slots; cbn [granted set_quotas]; rewrite filter_app, length_app, filter_cons; cbn [fst];
      repeat case_decide; simplify_eq; cbn; lia || done. }
  cbn [exec gains]. unfold statement. destruct (fails c) as [[]|], (sql_take u q n w) as [[a w1]|e] eqn:Ha; cbn;
    try (destruct (Ht _ _ eq_refl)); (split; [lia|done]).
Qed.
Lemma exec_pays X (o : Op X) c x w w' : executes X o c w = Some (x, w') ->
  (slots w + gains X o x <= slots w' /\ notices w' <= notices w + costs X o x)%nat.
Proof.
  intros [= Hx]. assert (x = (exec o c w).1) as -> by (by rewrite Hx). assert (w' = (exec o c w).2) as -> by (by rewrite Hx). clear Hx.
  pose proof (quiet_exec o c w) as Hq. unfold slots, notices.
  destruct o as [| | | | | | | |u q n| | | | | |m]; cbn [gains costs]; rewrite ?Nat.add_0_r; try (destruct Hq as [-> ->]; done).
  - destruct (take_earns u q n c w) as [Hs He]. rewrite He. done.
  - cbn. destruct (fails c) as [[]|]; cbn; rewrite ?filter_app, ?length_app, ?filter_cons; repeat case_decide; cbn; lia.
Qed.

(** A day's slots are its count, and the days are few. *)
Lemma slots_days d0 w : Counted d0 w -> (slots w <= 3 * Z.to_nat (day_of (db_now w) - d0 + 1))%nat.
Proof.
  intros [Hl _ Hf Hs Hd]. unfold slots. rewrite <- (length_map (fun k : Z * string * Z => k.2)).
  apply (few_each 3 d0).
  - intros d Hin. apply list_elem_of_fmap in Hin as ([[u q] d'] & -> & [Hk Hin]%list_elem_of_filter). cbn in *.
    specialize (Hs _ Hin). unfold quota_day in Hs. cbn in Hs. split; [done|].
    destruct (decide (day_of (db_now w) < d')) as [Hlt|]; [|lia]. specialize (Hl u q d' Hlt). 
    exfalso. unfold count in Hl. apply length_zero_iff_nil in Hl.
    assert ((u, q, d') ∈ filter (fun y => y = (u, q, d')) (granted w)) as Hm by (by apply list_elem_of_filter). rewrite Hl in Hm. set_solver.
  - intros d. etrans; [|apply (Hf u0 d)]. unfold count. clear.
    induction (granted w) as [|[[u q] d'] l IH]; [done|]. rewrite !filter_cons. cbn [fst].
    destruct (decide ((u, q) = _)) as [[= -> ->]|Hk]; cbn [map filter]; rewrite ?fmap_cons, ?filter_cons; cbn [snd].
    + destruct (decide (d' = d)) as [->|Hd']; [rewrite decide_True by done; cbn; lia|].
      rewrite decide_False by (intros [=]; done). exact IH.
    + rewrite decide_False by (intros [=]; congruence). exact IH.
Qed.
End one_person.

(** C11: at most three invitation emails a day: from a start with no mail, the
    notices handed over for one person never outnumber three for each UTC day
    passed or begun, however requests interleave on one or many servers,
    statements fail, mail is lost and handlers die half way. *)
Theorem few_invitation_emails mail account bytes w l w' u :
  quotas w = ∅ -> granted w = [] -> sent w = [] -> running mail account bytes ([], w) (l, w') ->
  (notices u w' <= 3 * Z.to_nat (day_of (db_now w') - day_of (db_now w) + 1))%nat.
Proof.
  intros Hq Hg Hs Hr. etrans; [|apply slots_days].
  - apply (credits_cover executes tick (requested mail account bytes) (gains u) (costs u) (slots u) (notices u)) in Hr; [done|..].
    + intros X o c x w1 w2. apply exec_pays.
    + by intros w1 w2 (t & _ & ->).
    + intros p [q ->]. apply handlers_pay.
    + unfold notices. rewrite Hs. cbn. lia.
  - eapply (uses_invariant executes tick (requested mail account bytes) modest); [..|exact Hr|].
    + intros X o c x w1 w2. apply exec_counted.
    + intros w1 w2 H1 (t & Ht & ->). by apply counted_tick.
    + intros p [q ->]. apply handlers_modest.
    + by split; rewrite ?Hq, ?Hg; try set_solver.
Qed.
End MailLaws.
