(* ===== verification/MailWitness.v ===== *)
(** * A day of notification mail

    One person gives an address, sends back the code they were mailed, is
    invited and unsubscribes: the runs the theorems of MailLaws.v are applied
    at. *)
From S2P Require Import Prelude GoText Hmac Links LinksLaws Threads Mail MailLaws.

Open Scope string_scope.
Open Scope list_scope.
Open Scope Z_scope.

Module MailWitness.
Import Hmac Links Mail MailLaws.

Definition start : World := mkWorld ∅ ∅ 5 [] [] [] [].
Definition ann : string := "abcdefghijklmnop".
Definition service : option mailService := Some (mkMail "key" "https://v.example" "https://api.v.example").
Definition calm : Choice := mkChoice None None 5 "bob".
Definition code_bytes : string := "entropy!".
Definition day : list (Handler * list Choice) :=
  (fun q => (perform service (fun _ => 1) (fun _ => ann) q.1, q.2)) <$>
  [(SetAddress 1 "ann@x" true, [calm; calm; calm; mkChoice None (Some code_bytes) 5 ""; calm; calm; calm; calm; calm]);
   (VerifyAddress 1 (b64url_encode code_bytes), [calm; calm; calm; calm]);
   (Notice (mkNotice 7 (Some 1) 2 "club"), [calm; calm; calm; calm; calm; calm])].
Definition evening : option World := script executes day start.
Definition recipients (w : World) : list string := (fun m => match m with Verification _ a _ => a | InvitationNotice _ a _ _ _ _ _ => a end) <$> sent w.

Lemma day_runs : is_some_b evening = true.
Proof. vm_compute. reflexivity. Qed.
Lemma day_sends : (fun w => (notices 1 w, recipients w)) <$> evening = Some (1%nat, ["ann@x"; "ann@x"]).
Proof. vm_compute. reflexivity. Qed.
Lemma day_reached w' : evening = Some w' -> exists l, running service (fun _ => 1) (fun _ => ann) ([], start) (l, w').
Proof. intros Hw. eapply script_reaches; [|exact Hw]. repeat constructor; by eexists. Qed.

Lemma invitations_go_where_asked_witness : exists w', evening = Some w' /\ notices 1 w' = 1%nat /\
  (forall u a n i c p o, InvitationNotice u a n i c p o ∈ sent w' ->
    exists t code, (u, a, t) ∈ drawn w' /\ (u, code) ∈ returned w' /\ sha256 code = sha256 t) /\
  forall u a t, Verification u a t ∈ sent w' -> (u, a, t) ∈ drawn w'.
Proof.
  pose proof day_sends as Hs. destruct evening as [w'|] eqn:Hw; [|done]. exists w'. split; [done|]. injection Hs as Hn _.
  split; [exact Hn|]. destruct (day_reached w' Hw) as [l Hl].
  exact (invitations_go_where_asked service (fun _ => 1) (fun _ => ann) start l w' eq_refl eq_refl Hl).
Defined.
Lemma few_invitation_emails_witness : exists w', evening = Some w' /\ notices 1 w' = 1%nat /\
  (notices 1 w' <= 3 * Z.to_nat (day_of (db_now w') - day_of (db_now start) + 1))%nat.
Proof.
  pose proof day_sends as Hs. destruct evening as [w'|] eqn:Hw; [|done]. exists w'. split; [done|]. injection Hs as Hn _.
  split; [exact Hn|]. destruct (day_reached w' Hw) as [l Hl].
  exact (few_invitation_emails service (fun _ => 1) (fun _ => ann) start l w' 1 eq_refl eq_refl eq_refl Hl).
Defined.
End MailWitness.
