(* ===== verification/Dispatcher.v ===== *)
(** * From a webhook event to the lifecycle

    What GitHub sends of a pull request, a clicked button and a comment
    ([github/webhook_payload.go], [webhook.go]), and what the server does about
    it ([handler/github_dispatcher.go]). Decoding a payload is the class
    [Payloads]. *)
From S2P Require Import Prelude GoText RepoName PromptAttach Matcher Digest Render GitHub Access AttachStore Attachment PullRoutes.

Open Scope string_scope.
Open Scope list_scope.
Open Scope Z_scope.

Module Dispatcher.
Import PromptAttach AttachStore Attachment PullRoutes.

(** ** Payloads *)
Record WebhookUser : Type := mkWebhookUser { AccountID : Z; Login : string }.
Record WebhookRepository : Type := mkWebhookRepository {
  RepoID : Z; RepositoryName : string; FullName : string; RepositoryOwner : WebhookUser; DefaultBranch : string; Fork : bool
}.
Record WebhookIssue : Type := mkWebhookIssue { IssueNumber : Z; IssueUser : WebhookUser; IssuePullRequest : option (string * string) }.
Record WebhookComment : Type := mkWebhookComment { WebhookCommentID : Z; Body : string; AuthorAssociation : string; CommentUser : WebhookUser }.
Record WebhookIssueCommentPayload : Type := mkIssueCommentPayload {
  CommentAction : string; Issue : WebhookIssue; Comment : WebhookComment; CommentRepository : WebhookRepository;
  CommentSender : WebhookUser; CommentInstallation : option Z
}.
Definition IsPullRequest (p : WebhookIssueCommentPayload) : bool := is_some_b (IssuePullRequest (Issue p)).

(** [PullRequests]: the numbers of the pull requests. *)
Record WebhookCheckRunObject : Type := mkCheckRunObject { CheckID : Z; CheckHeadSHA : string; PullRequests : list Z }.
Record WebhookCheckRunPayload : Type := mkCheckRunPayload {
  CheckAction : string; RequestedAction : option string; CheckRun : WebhookCheckRunObject; CheckRepository : WebhookRepository;
  CheckSender : WebhookUser; CheckInstallation : option Z
}.
Definition RequestedActionIdentifier (p : WebhookCheckRunPayload) : string :=
  if negb (String.eqb (CheckAction p) "requested_action") then ""
  else match RequestedAction p with None => "" | Some identifier => identifier end.
Definition PullRequestNumber (p : WebhookCheckRunPayload) : Z := match PullRequests (CheckRun p) with [] => 0 | n :: _ => n end.

Record WebhookPullRequestRef : Type := mkPullRequestRef { Ref : string; SHA : string; RefRepo : WebhookRepository }.
Record WebhookPullRequestObject : Type := mkPullRequestObject {
  Number : Z; PullUser : WebhookUser; Head : WebhookPullRequestRef; Base : WebhookPullRequestRef; Merged : bool
}.
Record WebhookPullRequestPayload : Type := mkPullRequestPayload {
  PullAction : string; PullNumber : Z; PullRequest_ : WebhookPullRequestObject; PullRepository : WebhookRepository;
  PullSender : WebhookUser; PullInstallation : option Z
}.
Definition IsFork (p : WebhookPullRequestPayload) : bool :=
  let head := RepoID (RefRepo (Head (PullRequest_ p))) in
  let base := RepoID (RefRepo (Base (PullRequest_ p))) in
  if (head <=? 0) || (base <=? 0) then false else negb (head =? base).

Class Payloads : Type := {
  decode_pull_request : string -> option WebhookPullRequestPayload;
  decode_check_run : string -> option WebhookCheckRunPayload;
  decode_issue_comment : string -> option WebhookIssueCommentPayload
}.

(** ** Events *)
Definition EventInstallation : string := "installation".
Definition EventPullRequest : string := "pull_request".
Definition EventCheckRun : string := "check_run".
Definition EventIssueComment : string := "issue_comment".
Record WebhookEvent : Type := mkWebhookEvent { Type_ : string; DeliveryID : string; Payload : string }.

Definition CheckActionIdentifierAttach : string := "attach".
Definition CheckActionIdentifierDetach : string := "detach".
Definition CheckActionIdentifierRefresh : string := "refresh".

Inductive DispatchError : Type :=
| Undecodable (event : string)
| Failed (e : AttachError).

Section dispatcher.
Context `{Env, UnicodeTables, GitHub.Wire, Deps, Payloads}.

Notation D := (M World DispatchError unit).
Definition run_op {A} (m : M World AttachError A) : M World DispatchError A :=
  r ← attempt m; match r with Ok a => mret a | Err e => throw (Failed e) end.

Definition pull_of (p : WebhookPullRequestPayload) : attachmentPull :=
  let owner := Login (RepositoryOwner (PullRepository p)) in
  let name := RepositoryName (PullRepository p) in
  let pr := PullRequest_ p in
  mkPullFacts owner name (RepoID (PullRepository p)) (Number pr) (SHA (Head pr)) (Ref (Head pr))
    (owner +:+ "/" +:+ name) (if IsFork p then FullName (RefRepo (Head pr)) else owner +:+ "/" +:+ name)
    (IsFork p) (AccountID (PullUser pr)) "".

Definition Installation (event : WebhookEvent) : D := mret tt.
Definition PullRequest (event : WebhookEvent) : D :=
  match decode_pull_request (Payload event) with
  | None => throw (Undecodable EventPullRequest)
  | Some payload =>
    if negb (bool_decide (PullAction payload ∈ ["opened"; "reopened"; "synchronize"])) then mret tt
    else
      link ← attempt (sql_get_link_by_repo (Login (RepositoryOwner (PullRepository payload))) (RepositoryName (PullRepository payload)));
      match link with
      | Err _ => mret tt
      | Ok link =>
        let pull := pull_of payload in
        if String.eqb (PullAction payload) "opened" then
          taken ← run_op (autoAttachOpenedPullRequest link pull);
          match taken with
          | (_, Some e) => throw (Failed e)
          | (true, None) => mret tt
          | (false, None) => run_op (syncAttachmentForPullRequest pull)
          end
        else run_op (syncAttachmentForPullRequest pull)
      end
  end.

Definition CheckRunEvent (event : WebhookEvent) : D :=
  match decode_check_run (Payload event) with
  | None => throw (Undecodable EventCheckRun)
  | Some payload =>
    let identifier := RequestedActionIdentifier payload in
    let n := PullRequestNumber payload in
    let owner := Login (RepositoryOwner (CheckRepository payload)) in
    let name := RepositoryName (CheckRepository payload) in
    let sender := AccountID (CheckSender payload) in
    if String.eqb identifier "" then mret tt
    else if n <=? 0 then mret tt
    else if String.eqb identifier CheckActionIdentifierAttach
    then run_op (applyPromptCommand (Matcher.command_string Matcher.CommandAttach) owner name n sender "")
    else if String.eqb identifier CheckActionIdentifierDetach
    then run_op (applyPromptCommand (Matcher.command_string Matcher.CommandDetach) owner name n sender "")
    else if String.eqb identifier CheckActionIdentifierRefresh
    then run_op (refreshAttachmentForCommand owner name n sender)
    else mret tt
  end.

Definition IssueCommentEvent (event : WebhookEvent) : D :=
  match decode_issue_comment (Payload event) with
  | None => throw (Undecodable EventIssueComment)
  | Some payload =>
    if negb (IsPullRequest payload) then mret tt
    else if negb (String.eqb (CommentAction payload) "created") then mret tt
    else match Matcher.ParseCommand (Body (Comment payload)) with
      | None => mret tt
      | Some command =>
        run_op (applyPromptCommand (Matcher.command_string command) (Login (RepositoryOwner (CommentRepository payload)))
          (RepositoryName (CommentRepository payload)) (IssueNumber (Issue payload)) (AccountID (CommentSender payload))
          (AuthorAssociation (Comment payload)))
      end
  end.

Definition Dispatch (event : WebhookEvent) : D :=
  if String.eqb (Type_ event) EventInstallation then Installation event
  else if String.eqb (Type_ event) EventPullRequest then PullRequest event
  else if String.eqb (Type_ event) EventCheckRun then CheckRunEvent event
  else if String.eqb (Type_ event) EventIssueComment then IssueCommentEvent event
  else mret tt.
End dispatcher.
End Dispatcher.
