(* ===== verification/DispatcherLaws.v ===== *)
(** * What a webhook event may do

    Whatever GitHub sends, the lifecycle does more than look only on somebody's
    warrant: the pull request's author, who asked or chose beforehand, or an
    attachment that already stands. *)
From S2P Require Import Prelude GoText RepoName PromptAttach Matcher Digest Render GitHub Access AttachStore Attachment PullRoutes AttachmentLaws Dispatcher.

Open Scope string_scope.
Open Scope list_scope.
Open Scope Z_scope.

Module DispatcherLaws.
Import PromptAttach AttachStore Attachment PullRoutes AttachmentLaws Dispatcher.

Section laws.
Context `{Env, UnicodeTables, GitHub.Wire, Deps, Payloads}.

(** ** Who and what an event is about *)
Definition sender_of (event : WebhookEvent) : option Z :=
  if String.eqb (Type_ event) EventCheckRun then (fun p => AccountID (CheckSender p)) <$> decode_check_run (Payload event)
  else if String.eqb (Type_ event) EventIssueComment then (fun p => AccountID (CommentSender p)) <$> decode_issue_comment (Payload event)
  else None.
Definition opened_by (event : WebhookEvent) : option Z :=
  if String.eqb (Type_ event) EventPullRequest
  then p ← decode_pull_request (Payload event); if String.eqb (PullAction p) "opened" then Some (AccountID (PullUser (PullRequest_ p))) else None
  else None.

(** The pull request an event names: its repository's owner and name, and its
    number. *)
Definition subject (event : WebhookEvent) : option (string * string * Z) :=
  if String.eqb (Type_ event) EventPullRequest
  then (fun p => (Login (RepositoryOwner (PullRepository p)), RepositoryName (PullRepository p), Number (PullRequest_ p)))
    <$> decode_pull_request (Payload event)
  else if String.eqb (Type_ event) EventCheckRun
  then (fun p => (Login (RepositoryOwner (CheckRepository p)), RepositoryName (CheckRepository p), hd 0 (PullRequests (CheckRun p))))
    <$> decode_check_run (Payload event)
  else if String.eqb (Type_ event) EventIssueComment
  then (fun p => (Login (RepositoryOwner (CommentRepository p)), RepositoryName (CommentRepository p), IssueNumber (Issue p)))
    <$> decode_issue_comment (Payload event)
  else None.
(** The account of a GitHub user, as stored. *)
Definition account_of (github account : Z) (d : Db) : Prop :=
  exists k u, users d !! k = Some u /\ Provider u = "github" /\ ProviderUserID u = itoa github /\ UserID u = account.

(** Why a run from [w] to [w'] may do more than look, on pull request [n]. *)
Inductive warrant (event : WebhookEvent) (owner name : string) (n : Z) (w w' : World) : Prop :=
| warrant_request sender : sender_of event = Some sender -> reach (asked_only sender) w w' -> warrant event owner name n w w'
| warrant_author sender :
    sender_of event = Some sender -> reported_author owner name n sender w w' -> warrant event owner name n w w'
| warrant_standing row w1 :
    reach looking w w1 -> reach (touches (ID row)) w1 w' ->
    row_by_id (ID row) (db w1) = Some row -> of_pull owner name n row -> RowState row = state_string Attached ->
    (forall sender, sender_of event = Some sender ->
      exists w2, reach looking w1 w2 /\ reach any_event w2 w' /\ account_of sender (AuthorID row) (db w2)) ->
    warrant event owner name n w w'
| warrant_choice author account user w1 w2 :
    opened_by event = Some author -> reach looking w w1 -> account_of author account (db w1) ->
    reach looking w1 w2 -> reach any_event w2 w' ->
    users (db w2) !! account = Some user -> AutoAttachPullRequests user = true -> warrant event owner name n w w'.
Definition warranted (event : WebhookEvent) (w w' : World) : Prop :=
  reach looking w w' \/
  exists owner name n, subject event = Some (owner, name, n) /\ on_pull owner name n w w' /\ warrant event owner name n w w'.

(** ** Runs of the lifecycle, as the dispatcher sees them *)
Lemma run_op_run {A} (m : M World AttachError A) w r w' : run_op m w = (r, w') -> exists r0, m w = (r0, w').
Proof. unfold run_op. rewrite M_bind_unfold. unfold attempt. destruct (m w) as [[a|e] w1]; intros [= <- <-]; eauto. Qed.
Lemma attempt_outcome {A E F} (m : M World E A) w r w' : attempt (F := F) m w = (Ok r, w') -> m w = (r, w').
Proof. unfold attempt. destruct (m w). by intros [= <- <-]. Qed.
Lemma looks_any w w' : reach looking w w' -> reach any_event w w'.
Proof. by apply reach_weaken. Qed.
Lemma touches_any id w w' : reach (touches id) w w' -> reach any_event w w'.
Proof. by apply reach_weaken. Qed.
Lemma looks_touches id w w' : reach looking w w' -> reach (touches id) w w'.
Proof. apply reach_weaken, looking_touches. Qed.
Lemma reads_look w w' : reach is_read w w' -> reach looking w w'.
Proof. apply reach_weaken. by intros []. Qed.

Lemma actor_run g w u w' : resolveGitHubActor g w = (Ok (Some u), w') -> reach looking w w' /\ account_of g u (db w').
Proof.
  intros Hrun. split; [eapply emits_run; [|exact Hrun]; apply (emits_actor looking)|].
  revert Hrun. unfold resolveGitHubActor. rewrite M_bind_unfold. unfold attempt, sql_user_by_identity, read, stmt.
  destruct (broken _); [done|]. destruct (find _ _) as [x|] eqn:Hf; [|done]. intros [= <- <-]. cbn.
  apply find_some in Hf as [Hin%list_elem_of_In [Hp Hu]%andb_true_iff]. apply String.eqb_eq in Hp, Hu.
  apply list_elem_of_fmap in Hin as ([k y] & -> & Hk%elem_of_map_to_list). by exists k, y.
Qed.
Lemma get_user_run u w user w' : sql_get_user u w = (Ok user, w') -> reach looking w w' /\ users (db w') !! u = Some user.
Proof.
  intros Hrun. split; [eapply emits_run; [|exact Hrun]; apply (emits_read_q looking)|].
  revert Hrun. unfold sql_get_user, read, stmt. destruct (broken _); [done|]. destruct (users _ !! u) as [x|] eqn:Hx; [|done].
  by intros [= <- <-].
Qed.
Lemma refresh_touches a repo head force : emits (touches (ID a)) (refreshAttachedAttachment a repo head force).
Proof. apply emits_refresh; [apply _|apply touches_attaching]. Qed.

Lemma sync_warrant event pull w0 w r w' :
  reach looking w0 w -> subject event = Some (repoOwner pull, repoName pull, number pull) -> sender_of event = None ->
  syncAttachmentForPullRequest pull w = (r, w') -> warranted event w0 w'.
Proof.
  intros Hl0 Hsub Hs. unfold syncAttachmentForPullRequest. case_match; [intros [= <- <-]; by left|].
  intros Hrun. apply (prefix looking) in Hrun as [(e & _ & Hl)|(found & w1 & Hget & Hrun & Hl1)];
    [left; by etrans| |by apply emits_attempt, emits_read, quiet_read]. apply attempt_outcome in Hget.
  assert (reach looking w0 w1) as Hl by (by etrans).
  destruct found as [row|e]; [|injection Hrun as <- <-; by left]. apply get_for_pull_run in Hget as (_ & Hrow & Hof).
  destruct (String.eqb_spec (RowState row) (state_string Attached)) as [Hat|]; [|injection Hrun as <- <-; by left]. cbn [negb] in Hrun.
  assert (reach (touches (ID row)) w1 w') as Ht.
  { eapply emits_run; [|exact Hrun]. apply emits_bind; [apply (emits_resolve_repository (touches (ID row)))|]. intros repo. apply refresh_touches. }
  right. do 3 eexists. split; [exact Hsub|]. split.
  - exists w1, row. split_and!; [done..|by apply looks_touches|done].
  - eapply warrant_standing; [exact Hl|done..|by rewrite Hs].
Qed.

Lemma opened_warrant event link pull w0 w r w' :
  reach looking w0 w -> subject event = Some (repoOwner pull, repoName pull, number pull) -> opened_by event = Some (authorID pull) ->
  autoAttachOpenedPullRequest link pull w = (r, w') ->
  warranted event w0 w' /\ forall e, r = Ok (false, e) -> reach looking w0 w'.
Proof.
  intros Hl0 Hsub Hs Hrun. unfold autoAttachOpenedPullRequest in Hrun.
  apply (prefix looking) in Hrun as [(e & -> & Hl)|(actor & w1 & Hactor & Hrun & Hl1)];
    [split; [|done]; left; by etrans| |by apply emits_attempt, (emits_actor looking)]. apply attempt_outcome in Hactor.
  assert (reach looking w0 w1) as Hl by (by etrans).
  destruct actor as [[u|]|e]; [|injection Hrun as <- <-; split; [by left|done]..]. apply actor_run in Hactor as [_ Hacc].
  apply (prefix looking) in Hrun as [(e & -> & Hl2)|(user & w2 & Huser & Hrun & Hl2)];
    [split; [|done]; left; by etrans| |by apply emits_attempt, emits_read, quiet_read]. apply attempt_outcome in Huser.
  assert (reach looking w0 w2) as Hl3 by (by etrans).
  destruct user as [user|e]; [|injection Hrun as <- <-; split; [by left|done]]. apply get_user_run in Huser as [_ Huser].
  destruct (AutoAttachPullRequests user) eqn:Hauto; [|injection Hrun as <- <-; split; [by left|done]].
  cbn [negb] in Hrun.
  apply (prefix looking) in Hrun as [(e & -> & Hl4)|(belongs & w3 & _ & Hrun & Hl4)];
    [split; [|done]; left; by etrans| |by apply (emits_member looking)].
  assert (reach looking w0 w3) as Hl5 by (by etrans).
  destruct belongs; [|injection Hrun as <- <-; split; [by left|done]]. cbn [negb] in Hrun.
  rewrite M_bind_unfold in Hrun. unfold attempt in Hrun. destruct ((resolveAttachmentRepositoryForLink link ≫= _) w3) as [x w4] eqn:Hx.
  injection Hrun as <- <-. split; [|done].
  apply (prefix looking) in Hx as [(e & _ & Hl6)|(repo & w5 & _ & Hx & Hl6)]; [left; by etrans| |apply (emits_resolve_link looking)].
  rewrite M_bind_unfold in Hx. destruct (ensureAttachment _ _ _ _ w5) as [[a|e] w6] eqn:He; apply ensure_run in He;
    [|injection Hx as _ <-; left; by do 2 (etrans; [eassumption|])].
  destruct He as (Hrow & Hof & Ht).
  assert (reach (touches (ID a)) w6 w4) as Ht'.
  { eapply emits_run; [|exact Hx]. case_match; [apply emits_throw|]. apply (emits_lock (touches (ID a))), (emits_fresh (touches (ID a))).
    intros fresh Hf. case_match; [apply emits_skip|]. apply (emits_author (touches (ID a))); [rewrite Hf; apply touches_attaching|by rewrite Hf]. }
  assert (reach looking w0 w5) as Hl7 by by etrans. right. do 3 eexists. split; [exact Hsub|]. split.
  - exists w6, a. split_and!; [done..| |done]. etrans; [by apply looks_touches|done].
  - eapply (warrant_choice _ _ _ _ _ _ _ u user w1 w2); [exact Hs|done..| |done|done].
    etrans; [apply looks_any; by etrans|]. etrans; [by eapply touches_any|by eapply touches_any].
Qed.

(** ** The refresh button *)
Lemma refresh_warrant event owner name n sender w r w' :
  subject event = Some (owner, name, n) -> sender_of event = Some sender ->
  refreshAttachmentForCommand owner name n sender w = (r, w') -> warranted event w w'.
Proof.
  intros Hsub Hs Hrun. unfold refreshAttachmentForCommand in Hrun.
  apply (prefix looking) in Hrun as [(e & _ & Hl)|(found & w1 & Hget & Hrun & Hl1)];
    [by left| |by apply emits_attempt, emits_read, quiet_read]. apply attempt_outcome in Hget.
  destruct found as [row|e]; [|injection Hrun as <- <-; by left]. apply get_for_pull_run in Hget as (_ & Hrow & Hof).
  destruct (String.eqb_spec (RowState row) (state_string Attached)) as [Hat|]; [|injection Hrun as <- <-; by left].
  cbn [negb] in Hrun.
  apply (prefix looking) in Hrun as [(e & _ & Hl)|(actor & w2 & Hactor & Hrun & Hl2)];
    [left; by etrans| |by apply (emits_actor looking)].
  case_bool_decide as Hsame; [|injection Hrun as <- <-; left; by etrans]. cbn [negb] in Hrun. subst actor.
  apply actor_run in Hactor as [_ Hacc].
  assert (reach (touches (ID row)) w2 w') as Ht.
  { eapply emits_run; [|exact Hrun]. apply emits_bind; [apply (emits_resolve_repository (touches (ID row)))|]. intros repo.
    apply emits_bind; [apply (emits_resolve_pull (touches (ID row)))|]. intros pull.
    apply (emits_lock (touches (ID row))), (emits_fresh (touches (ID row))). intros fresh Hf.
    case_match; [apply emits_skip|]. rewrite <- Hf. apply refresh_touches. }
  assert (reach (touches (ID row)) w1 w') as Ht1 by (etrans; [by apply looks_touches|done]).
  right. do 3 eexists. split; [exact Hsub|]. split.
  - exists w1, row. split_and!; [done..|by apply looks_touches|done].
  - eapply warrant_standing; [exact Hl1|done..|]. intros s Hs'. assert (s = sender) as -> by congruence.
    exists w2. split_and!; [done|by eapply touches_any|done].
Qed.

Lemma command_warrant event command owner name n sender association w r w' :
  subject event = Some (owner, name, n) -> sender_of event = Some sender ->
  applyPromptCommand command owner name n sender association w = (r, w') -> warranted event w w'.
Proof.
  intros Hsub Hs Hrun. apply command_acts_for_author_only in Hrun as [Hlook|[Hon Hwar]]; [by left|right].
  exists owner, name, n. split_and!; [done..|]. destruct Hwar; [by eapply warrant_request|by eapply warrant_author].
Qed.
Lemma pull_warrant event w r w' :
  Type_ event = EventPullRequest -> PullRequest event w = (r, w') -> warranted event w w'.
Proof.
  intros Ht. unfold PullRequest. destruct (decode_pull_request (Payload event)) as [p|] eqn:Hp;
    [|intros [= <- <-]; by left].
  destruct (negb _); [intros [= <- <-]; by left|]. intros Hrun.
  assert (sender_of event = None) as Hs by (unfold sender_of; by rewrite Ht).
  assert (subject event = Some (repoOwner (pull_of p), repoName (pull_of p), number (pull_of p))) as Hsub
    by (unfold subject; by rewrite Ht, Hp).
  apply (prefix looking) in Hrun as [(e & _ & Hl)|(link & w1 & _ & Hrun & Hl)];
    [by left| |by apply emits_attempt, emits_read, quiet_read].
  destruct link as [link|]; [|injection Hrun as <- <-; by left].
  destruct (String.eqb (PullAction p) "opened") eqn:Hopened; [|apply run_op_run in Hrun as [r0 Hrun]; by eapply sync_warrant].
  rewrite M_bind_unfold in Hrun. destruct (run_op (autoAttachOpenedPullRequest link (pull_of p)) w1) as [taken w2] eqn:Hauto.
  assert (opened_by event = Some (authorID (pull_of p))) as Hby by (unfold opened_by; rewrite Ht, Hp; cbn; by rewrite Hopened).
  apply run_op_run in Hauto as Hauto'. destruct Hauto' as [r0 Hauto'].
  destruct (opened_warrant event link (pull_of p) w w1 r0 w2 Hl Hsub Hby Hauto') as [Hwar Hnot].
  destruct taken as [[[] [e|]]|e]; try (injection Hrun as _ <-; done).
  apply run_op_run in Hrun as [r1 Hrun]. eapply sync_warrant; [|done|done|exact Hrun]. eapply Hnot.
  unfold run_op in Hauto. rewrite M_bind_unfold in Hauto. unfold attempt in Hauto. rewrite Hauto' in Hauto.
  destruct r0 as [v|]; [|done]. injection Hauto as ->. done.
Qed.

(** C12: no webhook does more than look but on the pull request its event names,
    and on a warrant. All that it changes is one attachment, stored during the
    run as the one of that repository and number; and it changes it for somebody:
    at most to record who asked, for the event's sender; for the sender when
    GitHub itself, asked in this run about this pull request, reported them to be
    its author; on a push, or on a refresh pressed by the account that owns it,
    when the attachment of this pull request stood attached before the run
    changed anything; or on a pull request opened by someone whose account had
    chosen to attach what they open. *)
Theorem webhooks_act_on_a_warrant event w r w' :
  Dispatch event w = (r, w') -> reach looking w w' \/
  exists owner name n, subject event = Some (owner, name, n) /\ on_pull owner name n w w' /\ warrant event owner name n w w'.
Proof.
  change (Dispatch event w = (r, w') -> warranted event w w'). unfold Dispatch.
  assert (warranted event w w) as Hno by (by left).
  destruct (String.eqb_spec (Type_ event) EventInstallation) as [|_]; [by intros [= <- <-]|].
  destruct (String.eqb (Type_ event) EventPullRequest) eqn:Hpr; [apply String.eqb_eq in Hpr; by apply pull_warrant|].
  destruct (String.eqb (Type_ event) EventCheckRun) eqn:Hc; [|destruct (String.eqb (Type_ event) EventIssueComment) eqn:Hi; [|by intros [= <- <-]]].
  - unfold CheckRunEvent. destruct (decode_check_run (Payload event)) as [p|] eqn:Hp; [|by intros [= <- <-]].
    assert (sender_of event = Some (AccountID (CheckSender p))) as Hs by (unfold sender_of; by rewrite Hc, Hp).
    assert (subject event = Some (Login (RepositoryOwner (CheckRepository p)), RepositoryName (CheckRepository p), PullRequestNumber p)) as Hsub.
    { unfold subject, PullRequestNumber. rewrite Hpr, Hc, Hp. cbn. by destruct (PullRequests (CheckRun p)). }
    repeat case_match; try (intros Hrun; apply run_op_run in Hrun as [r0 Hrun]); try (intros [= <- <-]; done);
      (by eapply command_warrant) || (by eapply refresh_warrant).
  - unfold IssueCommentEvent. destruct (decode_issue_comment (Payload event)) as [p|] eqn:Hp; [|by intros [= <- <-]].
    assert (sender_of event = Some (AccountID (CommentSender p))) as Hs by (unfold sender_of; by rewrite Hc, Hi, Hp).
    assert (subject event = Some (Login (RepositoryOwner (CommentRepository p)), RepositoryName (CommentRepository p), IssueNumber (Issue p))) as Hsub
      by (unfold subject; by rewrite Hpr, Hc, Hi, Hp).
    repeat case_match; try (intros Hrun; apply run_op_run in Hrun as [r0 Hrun]); try (intros [= <- <-]; done).
    by eapply command_warrant.
Qed.

(** Also: what an edited or deleted comment, a comment on an issue, a comment
    that is not a command and a fork's button ask for is nothing at all. *)
Theorem events_that_ask_nothing event w :
  (exists p, Type_ event = EventIssueComment /\ decode_issue_comment (Payload event) = Some p /\
    (IssuePullRequest (Issue p) = None \/ CommentAction p <> "created" \/ Matcher.ParseCommand (Body (Comment p)) = None)) \/
  (exists p, Type_ event = EventCheckRun /\ decode_check_run (Payload event) = Some p /\
    (CheckAction p <> "requested_action" \/ RequestedAction p = None \/ PullRequests (CheckRun p) = [])) \/
  Type_ event ∉ [EventPullRequest; EventCheckRun; EventIssueComment] ->
  Dispatch event w = (Ok tt, w).
Proof.
  intros [(p & Ht & Hp & Hno)|[(p & Ht & Hp & Hno)|Hno]]; unfold Dispatch.
  - rewrite Ht. cbn. unfold IssueCommentEvent, IsPullRequest. rewrite Hp. destruct Hno as [Hno|[Hno|Hno]]; [by rewrite Hno|..].
    + destruct (String.eqb_spec (CommentAction p) "created"); [done|]. by destruct (negb _).
    + rewrite Hno. by repeat case_match.
  - rewrite Ht. cbn. unfold CheckRunEvent, RequestedActionIdentifier, PullRequestNumber. rewrite Hp. destruct Hno as [Hno|[Hno|Hno]]; rewrite ?Hno.
    + by destruct (String.eqb_spec (CheckAction p) "requested_action").
    + by destruct (negb _).
    + by destruct (String.eqb _ _).
  - repeat (match goal with |- context [String.eqb (Type_ event) ?t] => destruct (String.eqb_spec (Type_ event) t) as [He|?] end);
      [done|exfalso; apply Hno; rewrite He; set_solver..|done].
Qed.
End laws.

(** The author comments on their pull request, which has a preview. *)
#[local] Instance demo_payloads : Payloads := {|
  decode_pull_request _ := None;
  decode_check_run _ := None;
  decode_issue_comment body := Some (mkIssueCommentPayload "created" (mkWebhookIssue 3 (mkWebhookUser 501 "alice") (Some ("", "")))
    (mkWebhookComment 1 body "NONE" (mkWebhookUser 501 "alice"))
    (mkWebhookRepository 9 "app" "acme/app" (mkWebhookUser 1 "acme") "main" false) (mkWebhookUser 501 "alice") None)
|}.
Definition demo_event : WebhookEvent := mkWebhookEvent "issue_comment" "d1" "/peasant attach".
Definition demo_run : result DispatchError unit * World :=
  @Dispatch (env_of false) ascii_tables demo_wire demo_deps demo_payloads demo_event (demo_world "preview").
Lemma webhooks_act_on_a_warrant_witness :
  existsb is_posted (log demo_run.2) = true /\
  (@reach (env_of false) looking (demo_world "preview") demo_run.2 \/
   exists owner name n, @subject demo_payloads demo_event = Some (owner, name, n) /\
     @on_pull (env_of false) ascii_tables owner name n (demo_world "preview") demo_run.2 /\
     @warrant (env_of false) ascii_tables demo_wire demo_deps demo_payloads demo_event owner name n (demo_world "preview") demo_run.2).
Proof.
  split; [vm_compute; reflexivity|].
  exact (@webhooks_act_on_a_warrant (env_of false) ascii_tables demo_wire demo_deps demo_payloads demo_event
    (demo_world "preview") demo_run.1 demo_run.2 (surjective_pairing _)).
Defined.
End DispatcherLaws.
