(* ===== verification/Webhook.v ===== *)
(** * The webhook receiver

    The route GitHub posts its events to ([handler/github_webhook.go],
    [github/webhook.go]) with its ledger of deliveries
    ([database/sqlc/github_webhook_deliveries.sql.go]): the signature, the
    record made before anything is done, the dispatch and its outcome. Any
    number of deliveries, of one id too, are received side by side. What
    happens on dispatch is a parameter with a state of its own. *)
From S2P Require Import Prelude GoText Hmac Threads AttachStore Dispatcher.

Open Scope string_scope.
Open Scope list_scope.
Open Scope Z_scope.

Module Webhook.
Import Hmac.
Export Dispatcher (WebhookEvent, mkWebhookEvent, Type_, DeliveryID, Payload).

(** ** Signatures *)
Definition signaturePrefix : string := "sha256=".
Section signatures.
Context `{UnicodeTables}.
Definition VerifySignature (secret payload signatureHeader : string) : bool :=
  if String.eqb secret "" then false
  else
    let header := trim_space signatureHeader in
    if negb (has_prefix signaturePrefix header) then false
    else match hex_decode (trim_prefix signaturePrefix header) with
      | None => false
      | Some provided => String.eqb provided (hmac_sha256 secret payload)
      end.
End signatures.

(** ** Error texts *)

(** [utf8.ValidString]: no byte reads as an error. *)
Definition valid_utf8 (s : string) : bool :=
  forallb (fun p => negb ((p.1 =? rune_error) && Nat.eqb (length p.2) 1)) (segments s).
Definition maxWebhookErrorBytes : Z := 1024.
(** The loop that drops the last byte until what is left is valid. *)
Fixpoint back_off (n : nat) (s : string) : string :=
  match n with
  | O => ""
  | S m => if valid_utf8 (byte_take n s) then byte_take n s else back_off m s
  end.
Definition stored_error (message : string) : string :=
  if maxWebhookErrorBytes <? blen message then back_off (Z.to_nat maxWebhookErrorBytes) message else message.

(** ** The ledger *)
Definition webhookDeliveryPending : string := "pending".
Definition webhookDeliveryHandled : string := "handled".
Definition webhookDeliveryFailed : string := "failed".
Record Delivery : Type := mkDelivery {
  EventType : string;
  RowPayload : string;
  Status : string;
  Attempts : Z;
  LastError : option string;
  HandledAt : option Z;
  FailedAt : option Z
}.

Section receiver.
Context {D : Type}.
(** What the handling point does to the rest of the server, and its error's
    text. *)
Context (dispatch : WebhookEvent -> M D string unit).
Context `{UnicodeTables}.

(** What GitHub sent: the body, [None] when it cannot be read, and the headers. *)
Record Delivered : Type := mkDelivered { body : option string; signature : string; deliveryHeader : string; eventHeader : string }.
Record World : Type := mkWorld {
  deliveries : gmap string Delivery;
  rest : D;
  db_now : Z;
  arrived : list Delivered;               (** each request whose body was read *)
  begun : list string;                    (** each time an id was found unhandled *)
  dispatched : list (WebhookEvent * bool) (** and whether it was handled *)
}.

Inductive DbError : Type := DbFailed.
Inductive Op : Type -> Type :=
| Arrive (q : Delivered) : Op unit
| RecordGitHubWebhookDelivery (id eventType payload : string) : Op (result DbError (string * Z))
| CompleteGitHubWebhookDelivery (id status : string) (lastError : option string) : Op (result DbError unit)
| Dispatch_ (event : WebhookEvent) : Op (result string unit).

(** PostgreSQL takes neither NUL nor bytes that are not UTF-8 as text. *)
Definition text_ok (s : string) : bool := valid_utf8 s && negb (existsb (fun b => b =? 0) (bytes s)).
Definition with_rows rows b (w : World) : World := mkWorld rows (rest w) (db_now w) (arrived w) b (dispatched w).

Definition sql_record (id eventType payload : string) (w : World) : option (string * Z * World) :=
  if negb (text_ok id && text_ok eventType) then None
  else
    let r := match deliveries w !! id with
      | Some r => r
      | None => mkDelivery eventType payload webhookDeliveryPending 0 None None None
      end in
    Some (Status r, Attempts r, with_rows (<[id := r]> (deliveries w))
      (if String.eqb (Status r) webhookDeliveryHandled then begun w else begun w ++ [id]) w).
Definition completed (status : string) (lastError : option string) (now : Z) (r : Delivery) : Delivery :=
  mkDelivery (EventType r) (RowPayload r) status (Attempts r + 1) lastError
    (if String.eqb status webhookDeliveryHandled then Some now else HandledAt r)
    (if String.eqb status webhookDeliveryFailed then Some now else FailedAt r).
Definition sql_complete (id status : string) (lastError : option string) (w : World) : option (unit * World) :=
  if match lastError with Some e => negb (text_ok e) | None => false end then None
  else match deliveries w !! id with
  | None => Some (tt, w)
  | Some r =>
    if String.eqb status webhookDeliveryHandled || negb (String.eqb (Status r) webhookDeliveryHandled)
    then
      if 2147483647 <=? Attempts r then None
      else Some (tt, with_rows (<[id := completed status lastError (db_now w) r]> (deliveries w)) (begun w) w)
    else Some (tt, w)
  end.

(** [Some true]: the statement fails after it took effect, [Some false] before. *)
Definition statement {A} (fails : option bool) (w : World) (r : option (A * World)) : result DbError A * World :=
  match fails, r with
  | None, Some (a, w') => (Ok a, w')
  | Some true, Some (_, w') => (Err DbFailed, w')
  | _, _ => (Err DbFailed, w)
  end.
Definition exec {X} (o : Op X) (fails : option bool) (w : World) : X * World :=
  match o with
  | Arrive q => (tt, mkWorld (deliveries w) (rest w) (db_now w) (arrived w ++ [q]) (begun w) (dispatched w))
  | RecordGitHubWebhookDelivery id t p => statement fails w (sql_record id t p w)
  | CompleteGitHubWebhookDelivery id s e => statement fails w (sql_complete id s e w)
  | Dispatch_ e =>
    let '(r, d) := dispatch e (rest w) in
    (r, mkWorld (deliveries w) d (db_now w) (arrived w) (begun w) (dispatched w ++ [(e, is_ok r)]))
  end.

(** ** The route *)

(** [delivery]: the id the answer is about. *)
Record Response : Type := mkResponse { code : Z; status : string; delivery : string }.
Definition writeError (c : Z) : Response := mkResponse c "" "".
Notation Handler := (prog Op Response Response).
Definition maxGitHubWebhookBodyBytes : Z := Z.shiftl 10 20.

Definition failGitHubWebhookDelivery (id cause : string) : prog Op Response unit :=
  let message := stored_error cause in
  _ ← do_ (CompleteGitHubWebhookDelivery id webhookDeliveryFailed (if String.eqb message "" then None else Some message));
  mret tt.

(** [secret]: "" when the receiver is not configured. *)
Definition ReceiveGitHubWebhook (secret : string) (q : Delivered) : Handler :=
  _ ← stop_if (String.eqb secret "") (writeError 501);
  match body q with
  | None => Stop (writeError 400)
  | Some body =>
    _ ← do_ (Arrive q);
    _ ← stop_if (maxGitHubWebhookBodyBytes <? blen body) (writeError 413);
    _ ← stop_if (negb (VerifySignature secret body (signature q))) (writeError 401);
    let id := trim_space (deliveryHeader q) in
    _ ← stop_if (String.eqb id "") (writeError 400);
    let eventType := trim_space (eventHeader q) in
    _ ← stop_if (String.eqb eventType "") (writeError 400);
    '(st, _) ← or_stop (RecordGitHubWebhookDelivery id eventType body) (fun _ => writeError 500);
    if String.eqb st webhookDeliveryHandled then mret (mkResponse 202 "replay" id)
    else
      r ← do_ (Dispatch_ (mkWebhookEvent eventType id body));
      match r with
      | Err cause => _ ← failGitHubWebhookDelivery id cause; mret (writeError 500)
      | Ok _ =>
        _ ← or_stop (CompleteGitHubWebhookDelivery id webhookDeliveryHandled None) (fun _ => writeError 500);
        mret (mkResponse 202 "accepted" id)
      end
  end.

(** Each answer beside the request it is of. *)
Definition route (secret : string) (q : Delivered) : prog Op (Delivered * Response) (Delivered * Response) :=
  relabel (pair q) (ReceiveGitHubWebhook secret q).
Definition posted (secret : string) (p : prog Op (Delivered * Response) (Delivered * Response)) : Prop := exists q, p = route secret q.
(** The rest of the server moves on its own. *)
Definition moves_on (w w' : World) : Prop :=
  exists d t, w' = mkWorld (deliveries w) d t (arrived w) (begun w) (dispatched w).
Definition executes (X : Type) (o : Op X) (fails : option bool) (w : World) : option (X * World) := Some (exec o fails w).
Definition receiving (secret : string) := reaches executes moves_on (posted secret).
End receiver.
End Webhook.
