(* ===== verification/WebhookLaws.v ===== *)
(** * What the webhook receiver promises

    Nothing unsigned is dispatched, nothing is acknowledged that was not
    handled, a handled delivery is never begun again, and what is kept of a
    failure is text. *)
From S2P Require Import Prelude GoText Hmac Threads AttachStore Dispatcher Webhook.

Open Scope string_scope.
Open Scope list_scope.
Open Scope Z_scope.

Module WebhookLaws.
Import Hmac Webhook.

(** ** Error texts *)
Lemma byte_take_all s : byte_take (String.length s) s = s.
Proof. unfold byte_take. induction s as [|a s IH]; [done|]. cbn. by rewrite IH. Qed.
Lemma byte_take_length n s : (String.length (byte_take n s) <= n)%nat.
Proof. unfold byte_take. revert s. induction n as [|n IH]; intros [|a s]; cbn; [lia..|]. specialize (IH s). lia. Qed.
Lemma back_off_prefix s n : exists k, (k <= n)%nat /\ back_off n s = byte_take k s /\
  (valid_utf8 (byte_take k s) = true) /\ forall m, (k < m <= n)%nat -> valid_utf8 (byte_take m s) = false.
Proof.
  induction n as [|n IH].
  - exists 0%nat. split_and!; [lia|by destruct s|by destruct s|lia].
  - cbn [back_off]. destruct (valid_utf8 (byte_take (S n) s)) eqn:Hv.
    + exists (S n). split_and!; [lia|done|done|lia].
    + destruct IH as (k & Hk & -> & Hval & Hm). exists k. split_and!; [lia|done|done|]. intros m Hle.
      destruct (decide (m = S n)) as [->|]; [done|]. apply Hm. lia.
Qed.

(** Also: the text kept of a failure has at most 1024 bytes: the whole message when
    it fits, and otherwise the longest of its beginnings that fits and is valid
    UTF-8. *)
Theorem stored_error_fits message :
  blen (stored_error message) <= 1024 /\
  (blen message <= 1024 -> stored_error message = message) /\
  (1024 < blen message -> exists k, stored_error message = byte_take k message /\ (k <= 1024)%nat /\
    valid_utf8 (byte_take k message) = true /\
    forall m, (k < m <= 1024)%nat -> valid_utf8 (byte_take m message) = false).
Proof.
  unfold stored_error, maxWebhookErrorBytes. destruct (Z.ltb_spec 1024 (blen message)) as [Hlong|Hshort].
  - destruct (back_off_prefix message (Z.to_nat 1024)) as (k & Hk & -> & Hv & Hm). split_and!; [|lia|].
    + unfold blen. pose proof (byte_take_length k message). lia.
    + intros _. exists k. split_and!; [done|lia|done|]. intros m Hle. apply Hm. lia.
  - split_and!; [done|done|lia].
Qed.

(** ** Signatures *)
Section receiver.
Context {D : Type} (dispatch : WebhookEvent -> M D string unit) `{UnicodeTables}.
Notation World := (@World D).

(** The body came with its keyed hash, in hex, under the secret. *)
Definition signed_by (secret body signature : string) : Prop :=
  secret <> "" /\ exists hex, trim_space signature = "sha256=" +:+ hex /\ hex_decode hex = Some (hmac_sha256 secret body).
Lemma verify_signature_iff secret body signature :
  VerifySignature secret body signature = true <-> signed_by secret body signature.
Proof.
  unfold VerifySignature, signed_by. destruct (String.eqb_spec secret "") as [|Hs]; [split; [done|by intros [? _]]|].
  split.
  - destruct (has_prefix signaturePrefix (trim_space signature)) eqn:Hp; [|done]. cbn [negb].
    apply has_prefix_spec in Hp as [hex Hhex]. rewrite Hhex. unfold trim_prefix. rewrite strip_prefix_app.
    destruct (hex_decode hex) as [p|] eqn:Hd; [|done]. intros Heq%String.eqb_eq. split; [done|]. exists hex. by rewrite Hd, Heq.
  - intros (_ & hex & -> & Hd). change "sha256=" with signaturePrefix. rewrite has_prefix_app. unfold trim_prefix. rewrite strip_prefix_app, Hd.
    apply String.eqb_refl.
Qed.

(** ** What holds of every reachable world *)
Section secret.
Context (secret : string).
Definition handled (id : string) (w : World) : Prop := exists r, deliveries w !! id = Some r /\ Status r = webhookDeliveryHandled.
(** The event a request is about: its type and its id from the headers, its
    payload the whole body, which came signed. *)
Definition event_of (q : Delivered) (e : WebhookEvent) : Prop :=
  body q = Some (Payload e) /\ signed_by secret (Payload e) (signature q) /\
  DeliveryID e = trim_space (deliveryHeader q) /\ Type_ e = trim_space (eventHeader q).
Definition received (e : WebhookEvent) (w : World) : Prop := exists q, q ∈ arrived w /\ event_of q e.
Definition succeeded (id : string) (w : World) : Prop := exists e, (e, true) ∈ dispatched w /\ DeliveryID e = id.
Record Inv (w : World) : Prop := {
  only_received : forall e b, (e, b) ∈ dispatched w -> received e w;
  handled_succeeded : forall id, handled id w -> succeeded id w
}.
Definition times (id : string) (l : list string) : nat := length (filter (fun x => x = id) l).
#[local] Arguments times : simpl never.
Record Later (w w' : World) : Prop := {
  more_arrived : arrived w ⊆ arrived w';
  more_dispatched : dispatched w ⊆ dispatched w';
  rows_stay : forall id, is_Some (deliveries w !! id) -> is_Some (deliveries w' !! id);
  handled_stays : forall id, handled id w -> handled id w' /\ times id (begun w') = times id (begun w)
}.
#[export] Instance later_preorder : PreOrder Later.
Proof.
  split; [by split|]. intros x y z [? ? ? H1] [? ? ? H2]. split; [set_solver|set_solver|auto|].
  intros id Hx. destruct (H1 id Hx) as [Hy <-]. by apply H2.
Qed.
Lemma received_later e w w' : Later w w' -> received e w -> received e w'.
Proof. intros [Ha _ _ _] (s & ? & ?). exists s. auto. Qed.
Lemma succeeded_later id w w' : Later w w' -> succeeded id w -> succeeded id w'.
Proof. intros [_ Hd _ _] (e & ? & ?). exists e. auto. Qed.

Definition allowed {X} (o : Op X) (w : World) : Prop :=
  match o with
  | Dispatch_ e => received e w
  | CompleteGitHubWebhookDelivery id status _ => is_Some (deliveries w !! id) /\ (status = webhookDeliveryHandled -> succeeded id w)
  | _ => True
  end.
Definition learned {X} (o : Op X) : X -> World -> Prop :=
  match o in Op X return X -> World -> Prop with
  | Arrive q => fun _ w => q ∈ arrived w
  | RecordGitHubWebhookDelivery id _ _ => fun r w => match r with
    | Ok (st, _) => is_Some (deliveries w !! id) /\ (st = webhookDeliveryHandled -> handled id w)
    | Err _ => True end
  | CompleteGitHubWebhookDelivery id status _ => fun r w => match r with Ok _ => status = webhookDeliveryHandled -> handled id w | Err _ => True end
  | Dispatch_ e => fun r w => match r with Ok _ => (e, true) ∈ dispatched w | Err _ => True end
  end.
Lemma hook_learned_later {X} (o : Op X) x w w' : Later w w' -> learned o x w -> learned o x w'.
Proof.
  intros Hl. destruct o; cbn.
  - apply (more_arrived _ _ Hl).
  - destruct x as [[st n]|]; [|done]. intros [Hr Hh]. split; [by apply (rows_stay _ _ Hl)|]. intros Hst. by apply (handled_stays _ _ Hl), Hh.
  - destruct x; [|done]. intros Hh Hst. by apply (handled_stays _ _ Hl), Hh.
  - destruct x; [|done]. apply (more_dispatched _ _ Hl).
Qed.
Lemma hook_allowed_later {X} (o : Op X) w w' : Later w w' -> allowed o w -> allowed o w'.
Proof.
  intros Hl. destruct o; cbn; try done.
  - intros [Hr Hs]. split; [by apply (rows_stay _ _ Hl)|]. intros Hst. by eapply succeeded_later, Hs.
  - by apply received_later.
Qed.

(** The rows of one statement, and what it leaves alone. *)
Lemma rows_later rows b w :
  (forall id r, deliveries w !! id = Some r -> exists r', rows !! id = Some r' /\ (Status r = webhookDeliveryHandled -> Status r' = webhookDeliveryHandled)) ->
  (forall id, handled id w -> times id b = times id (begun w)) -> Later w (with_rows rows b w).
Proof.
  intros Hr Hb. split; [done|done|..].
  - intros id [r Hid]. destruct (Hr id r Hid) as (r' & ? & _). by exists r'.
  - intros id Hh. split; [|by apply Hb]. destruct Hh as (r & Hid & Hst). destruct (Hr id r Hid) as (r' & ? & Hs). exists r'. auto.
Qed.
Lemma rows_inv rows b w : Inv w -> (forall id r, rows !! id = Some r -> Status r = webhookDeliveryHandled -> succeeded id w) -> Inv (with_rows rows b w).
Proof. intros [Ho _] Hs. split; [done|]. intros id (r & ? & ?). by eapply Hs. Qed.

Lemma times_snoc id x l : times id (l ++ [x]) = (times id l + if decide (x = id) then 1 else 0)%nat.
Proof. unfold times. rewrite filter_app, length_app, filter_cons. by case_decide. Qed.
Lemma record_ok id t p w x w' : Inv w -> sql_record id t p w = Some (x, w') ->
  Inv w' /\ Later w w' /\ is_Some (deliveries w' !! id) /\ (x.1 = webhookDeliveryHandled -> handled id w').
Proof.
  intros Hi. unfold sql_record. destruct (negb _); [done|]. intros [= <- <-].
  set (r := match deliveries w !! id with Some r => r | None => _ end).
  assert (forall r0, deliveries w !! id = Some r0 -> r = r0) as Hr by (intros r0 Hid; unfold r; by rewrite Hid).
  assert (Status r = webhookDeliveryHandled -> deliveries w !! id = Some r) as Hold.
  { unfold r. by destruct (deliveries w !! id). }
  split_and!.
  - apply rows_inv; [done|]. intros id0 r0 [[<- <-]|[Hne Hid]]%lookup_insert_Some Hst; apply (handled_succeeded _ Hi); [|by exists r0].
    exists r. auto.
  - apply rows_later.
    + intros id0 r0 Hid. destruct (decide (id0 = id)) as [->|Hne].
      * exists r. rewrite lookup_insert_eq. by rewrite (Hr r0 Hid).
      * exists r0. by rewrite lookup_insert_ne.
    + intros id0 (r0 & Hid & Hst). destruct (String.eqb_spec (Status r) webhookDeliveryHandled) as [|Hne]; [done|].
      rewrite times_snoc, decide_False; [lia|]. intros ->. apply Hne. by rewrite (Hr r0 Hid).
  - cbn. rewrite lookup_insert_eq. by eexists.
  - cbn. intros Hst. exists r. cbn. by rewrite lookup_insert_eq.
Qed.
Lemma complete_ok id st e w w' : Inv w -> allowed (CompleteGitHubWebhookDelivery id st e) w -> sql_complete id st e w = Some (tt, w') ->
  Inv w' /\ Later w w' /\ (st = webhookDeliveryHandled -> handled id w').
Proof.
  intros Hi [[r Hr] Hsucc]. unfold sql_complete. destruct (match e with Some _ => _ | None => _ end); [done|]. rewrite Hr.
  destruct (String.eqb st webhookDeliveryHandled || _) eqn:Hgo.
  2:{ intros [= <-]. apply orb_false_iff in Hgo as [Hst _]. split_and!; [done|done|intros ->; done]. }
  destruct (_ <=? _); [done|]. intros [= <-]. set (r' := completed st e (db_now w) r). split_and!.
  - apply rows_inv; [done|]. intros id0 r0 [[<- <-]|[Hne Hid]]%lookup_insert_Some Hst; [by apply Hsucc|].
    apply (handled_succeeded _ Hi). by exists r0.
  - apply rows_later; [|done]. intros id0 r0 Hid. destruct (decide (id0 = id)) as [->|Hne].
    + exists r'. rewrite lookup_insert_eq. split; [done|]. assert (r0 = r) as -> by congruence. intros Hh. cbn.
      apply orb_true_iff in Hgo as [Hgo%String.eqb_eq|Hgo]; [done|]. by rewrite Hh in Hgo.
    + exists r0. by rewrite lookup_insert_ne.
  - intros ->. exists r'. cbn [deliveries with_rows]. by rewrite lookup_insert_eq.
Qed.

Lemma hook_inv_beside w w' : Inv w -> Later w w' -> deliveries w' = deliveries w -> dispatched w' = dispatched w -> Inv w'.
Proof.
  intros [Ho Hs] Hl Hd He. split.
  - intros e b. rewrite He. intros Hin. eapply received_later; [done|]. by eapply Ho.
  - intros id (r & Hr & Hst). rewrite Hd in Hr. eapply succeeded_later; [done|]. apply Hs. by exists r.
Qed.
Lemma dispatched_inv e b d w : Inv w -> received e w ->
  let w' := mkWorld (deliveries w) d (db_now w) (arrived w) (begun w) (dispatched w ++ [(e, b)]) in Inv w' /\ Later w w'.
Proof.
  intros Hi He w'. assert (Later w w') as Hl by (split; try done; cbn; set_solver). split; [|done]. split.
  - intros e0 b0 [Hin|Hin]%elem_of_app; eapply received_later; [done| |done|]; [by eapply only_received|].
    apply list_elem_of_singleton in Hin. by injection Hin as -> ->.
  - intros id Hh. eapply succeeded_later; [done|]. by apply (handled_succeeded _ Hi).
Qed.
Lemma hook_statement_inv {A} (Q : A -> World -> Prop) fails w (r : option (A * World)) : Inv w ->
  (forall a w', r = Some (a, w') -> Inv w' /\ Later w w' /\ Q a w') ->
  Inv (statement fails w r).2 /\ Later w (statement fails w r).2 /\
  match (statement fails w r).1 with Ok a => Q a (statement fails w r).2 | Err _ => True end.
Proof.
  intros Hi Hr. unfold statement. destruct fails as [[]|], r as [[a w1]|]; cbn; try (split_and!; done);
    destruct (Hr a w1 eq_refl) as (? & ? & ?); done.
Qed.
Lemma exec_ok {X} (o : Op X) fails w : Inv w -> allowed o w ->
  Inv (exec dispatch o fails w).2 /\ Later w (exec dispatch o fails w).2 /\
  learned o (exec dispatch o fails w).1 (exec dispatch o fails w).2.
Proof.
  intros Hi Ha. destruct o as [q|id eventType payload|id st lastError|event]; cbn [exec learned].
  - assert (Later w (mkWorld (deliveries w) (rest w) (db_now w) (arrived w ++ [q]) (begun w) (dispatched w))) as Hl
      by (split; try done; cbn; set_solver).
    split_and!; [by eapply hook_inv_beside|done|cbn; set_solver].
  - pose proof (hook_statement_inv (fun x w' => is_Some (deliveries w' !! id) /\ (x.1 = webhookDeliveryHandled -> handled id w')) fails w
      (sql_record id eventType payload w) Hi) as (? & ? & Hq).
    { intros x w' Hr. destruct (record_ok _ _ _ _ _ _ Hi Hr) as (? & ? & ? & ?). done. }
    split_and!; [done..|]. by destruct (statement _ _ _).1 as [[st n]|].
  - pose proof (hook_statement_inv (fun (_ : unit) w' => st = webhookDeliveryHandled -> handled id w') fails w
      (sql_complete id st lastError w) Hi) as (? & ? & Hq).
    { intros [] w' Hr. by eapply complete_ok. }
    split_and!; [done..|]. by destruct (statement _ _ _).1.
  - destruct (dispatch event (rest w)) as [r d]. destruct (dispatched_inv event (is_ok r) d w Hi Ha) as [? ?].
    split_and!; [done..|]. destruct r; [|done]. cbn. set_solver.
Qed.

(** ** The route *)
Section one_request.
Context (q : Delivered).
(** What an answer 202 says of the request: its delivery is handled, by an event
    of its own unless one of the same id was handled before. *)
Definition acknowledged (r : Response) (w : World) : Prop :=
  code r = 202 -> exists e, event_of q e /\ DeliveryID e = delivery r /\ handled (delivery r) w /\
    (status r = "accepted" /\ (e, true) ∈ dispatched w \/ status r = "replay" /\ succeeded (delivery r) w).
Notation ok := (safe (executes dispatch) Inv Later acknowledged).
Lemma hook_do {X} (o : Op X) (Q : X -> World -> Prop) w : Inv w -> allowed o w ->
  (forall x w', Inv w' -> Later w w' -> learned o x w' -> Q x w') -> ok Q (do_ o) w.
Proof.
  apply (safe_contract (executes dispatch) Inv Later (@allowed) (@learned)); [exact @hook_allowed_later|exact @hook_learned_later|].
  intros Y e c x w1 w2 Hi Ha [= Hx]. pose proof (exec_ok e c w1 Hi Ha) as Hk. by rewrite Hx in Hk.
Qed.

Lemma refused (c : Z) w' : c <> 202 -> acknowledged (writeError c) w'.
Proof. by intros Hc Heq. Qed.
(** Take the route apart, operation by operation. *)
Ltac walk := repeat match goal with
  | |- safe _ _ _ _ _ (mbind _ _) _ => apply (safe_bind (executes dispatch) Inv Later); [done|]
  | |- safe _ _ _ _ _ (do_ _) _ => apply hook_do; [done|try done|intros ? ? ? ? ?; cbn [learned] in *]
  | |- safe _ _ _ _ _ (or_stop _ _) _ => unfold or_stop
  | |- safe _ _ _ _ _ (stop_if ?b _) _ => unfold stop_if; destruct b eqn:?
  | |- safe _ _ _ _ _ (match ?b with _ => _ end) _ => destruct b eqn:?
  | |- safe _ _ _ _ _ (mret _) _ => intros ? ? ?; cbv beta; try (by apply refused)
  | |- safe _ _ _ _ _ (Ret _) _ => intros ? ? ?; cbv beta; try (by apply refused)
  | |- safe _ _ _ _ _ (Stop _) _ => intros ? ? ?; by apply refused
  end.
Lemma handled_later id w w' : Later w w' -> handled id w -> handled id w'.
Proof. intros Hl Hh. by apply (handled_stays _ _ Hl). Qed.
Ltac chain := first [reflexivity | eassumption | etrans; [eassumption|chain]].
Lemma own_event b : body q = Some b -> negb (VerifySignature secret b (signature q)) = false ->
  event_of q (mkWebhookEvent (trim_space (eventHeader q)) (trim_space (deliveryHeader q)) b).
Proof. intros Hb Hv. split_and!; [done| |done..]. by apply verify_signature_iff, negb_false_iff. Qed.
Lemma dispatched_later x w w' : Later w w' -> x ∈ dispatched w -> x ∈ dispatched w'.
Proof. intros Hl. apply (more_dispatched _ _ Hl). Qed.
Lemma route_ok w : Inv w -> ok acknowledged (ReceiveGitHubWebhook secret q) w.
Proof.
  intros Hi. unfold ReceiveGitHubWebhook, failGitHubWebhookDelivery. destruct (body q) as [b|] eqn:Hb; walk; cbn [allowed].
  - intros _. eexists. split; [by eapply own_event|]. cbn. split; [done|].
    match goal with |- handled ?id ?v /\ _ => assert (handled id v) as Hh; [|split; [done|right; split; [done|by apply (handled_succeeded v)]]] end.
    match goal with Hr : is_Some _ /\ (_ -> handled _ ?w1) |- _ => eapply (handled_later _ w1); [chain|]; apply Hr end. by apply String.eqb_eq.
  - match goal with Hin : q ∈ arrived ?w1 |- _ => apply (received_later _ w1); [chain|]; exists q; split; [exact Hin|] end. by apply own_event.
  - match goal with Hr : is_Some _ /\ (_ -> handled _ ?w1), Hd : _ ∈ dispatched ?w2 |- _ =>
      split; [apply (rows_stay w1); [chain|apply Hr]|intros _; apply (succeeded_later _ w2); [chain|eexists; split; [exact Hd|done]]] end.
  - intros _. eexists. split; [by eapply own_event|]. cbn. split; [done|]. split.
    + match goal with Hh : _ -> handled _ ?w1 |- _ => eapply (handled_later _ w1); [chain|by apply Hh] end.
    + left. split; [done|]. match goal with Hd : _ ∈ dispatched ?w2 |- _ => eapply (dispatched_later _ w2); [chain|exact Hd] end.
  - match goal with Hr : is_Some _ /\ (_ -> handled _ ?w1) |- _ => split; [apply (rows_stay w1); [chain|apply Hr]|done] end.
Qed.
End one_request.
Notation ok := (safe (executes dispatch) Inv Later (fun x w => acknowledged x.1 x.2 w) (fun x w => acknowledged x.1 x.2 w)).

Lemma pool_ok l w l' w' : receiving dispatch secret (l, w) (l', w') -> Inv w ->
  Forall (fun p => ok p w) l -> Inv w' /\ Later w w' /\ Forall (fun p => ok p w') l'.
Proof.
  intros Hr Hi Hl. eapply (pool_safe (executes dispatch) moves_on (posted secret) Inv Later); try done.
  - intros w1 w2 H1 (d & t & ->). assert (Later w1 (mkWorld (deliveries w1) d t (arrived w1) (begun w1) (dispatched w1))) by by split.
    split; [by eapply hook_inv_beside|done].
  - intros p w1 (q & ->) H1. apply (safe_relabel (executes dispatch) Inv Later (pair q) (acknowledged q)); [done|]. by apply route_ok.
Qed.
Lemma start_inv w : deliveries w = ∅ -> dispatched w = [] -> Inv w.
Proof. intros Hd He. split; [rewrite He; set_solver|]. intros id (r & Hr & _). by rewrite Hd in Hr. Qed.

(** ** Attempts *)
Section one_id.
Context (id : string).
Definition dispatches (w : World) : nat := length (filter (fun d : WebhookEvent * bool => DeliveryID d.1 = id) (dispatched w)).
Definition gains (X : Type) (o : Op X) : X -> nat :=
  match o in Op X return X -> nat with
  | RecordGitHubWebhookDelivery i _ _ => fun r => match r with
    | Ok (st, _) => if decide (i = id) then if String.eqb st webhookDeliveryHandled then 0%nat else 1%nat else 0%nat
    | Err _ => 0%nat end
  | _ => fun _ => 0%nat
  end.
Definition costs (X : Type) (o : Op X) : X -> nat :=
  match o in Op X return X -> nat with
  | Dispatch_ e => fun _ => if decide (DeliveryID e = id) then 1%nat else 0%nat
  | _ => fun _ => 0%nat
  end.
Lemma route_pays q : solvent gains costs 0 (ReceiveGitHubWebhook secret q).
Proof.
  unfold ReceiveGitHubWebhook, stop_if. destruct (String.eqb secret ""); [done|]. destruct (body q) as [b|]; [|done].
  apply solvent_do. intros []. split; [cbn; lia|]. cbn [gains costs].
  repeat match goal with |- context [if ?b then Stop _ else Ret tt] => destruct b; [done|] end.
  apply solvent_do. intros [[st n]|[]]; (split; [cbn; lia|]); [|done]. cbn [gains costs].
  change (solvent gains costs ?n (Ret ?a ≫= ?f)) with (solvent gains costs n (f a)). cbv beta iota.
  destruct (String.eqb st webhookDeliveryHandled) eqn:Hst; [done|].
  apply solvent_do. intros x. cbn [gains costs]. cbn [DeliveryID].
  split; [case_decide; lia|]. apply solvent_uses.
  unfold failGitHubWebhookDelivery, or_stop. destruct x as [[]|cause]; repeat (apply uses_bind; [|intros ?]); by repeat case_match.
Qed.
Lemma hook_exec_pays X (o : Op X) fails x w w' : executes dispatch X o fails w = Some (x, w') ->
  (times id (begun w) + gains X o x <= times id (begun w') /\ dispatches w' <= dispatches w + costs X o x)%nat.
Proof.
  intros [= Hx]. assert (x = (exec dispatch o fails w).1) as -> by (by rewrite Hx). assert (w' = (exec dispatch o fails w).2) as -> by (by rewrite Hx). clear Hx.
  destruct o as [q|i eventType payload|i st lastError|event]; cbn [exec gains costs].
  - unfold dispatches. cbn. lia.
  - assert (forall a w', sql_record i eventType payload w = Some (a, w') -> dispatches w' = dispatches w /\
      (times id (begun w) + (if decide (i = id) then if String.eqb a.1 webhookDeliveryHandled then 0 else 1 else 0) = times id (begun w'))%nat) as Hr.
    { intros a w' Hs. unfold sql_record in Hs. destruct (negb _); [done|]. injection Hs as <- <-. split; [done|]. cbn.
      destruct (String.eqb _ _); [by case_decide|]. rewrite times_snoc. done. }
    unfold statement. destruct fails as [[]|], (sql_record i eventType payload w) as [[[st n] w1]|]; cbn; try lia;
      destruct (Hr _ _ eq_refl) as [-> <-]; cbn; lia.
  - assert (forall w', sql_complete i st lastError w = Some (tt, w') -> dispatched w' = dispatched w /\ begun w' = begun w) as Hr.
    { intros w' Hs. unfold sql_complete in Hs. repeat case_match; try done; by injection Hs as <-. }
    unfold statement, dispatches. destruct fails as [[]|], (sql_complete i st lastError w) as [[[] w1]|]; cbn; try lia;
      destruct (Hr _ eq_refl) as [-> ->]; lia.
  - destruct (dispatch event (rest w)) as [r d]. unfold dispatches. cbn. rewrite filter_app, length_app, filter_cons. cbn.
    repeat case_decide; cbn; lia || done.
Qed.
End one_id.

(** C13: what is dispatched is what was delivered: an event's payload is the whole
    body of a request that came with the body's keyed hash under the server's
    secret, and its type and id are those of the request's headers. And a request
    that is answered 202 is about a handled delivery: its row says so, and the
    handling point ran without an error, on the event of this very request when
    the answer is "accepted", and on an event of the same delivery id, itself
    received as above, when it is "replay". This holds however deliveries
    interleave, of one id or several, and whatever statements fail. *)
Theorem acknowledged_was_handled w l w' :
  deliveries w = ∅ -> dispatched w = [] -> receiving dispatch secret ([], w) (l, w') ->
  (forall e b, (e, b) ∈ dispatched w' -> exists q, q ∈ arrived w' /\ event_of q e) /\
  forall p q r, p ∈ l -> Threads.answers p = Some (q, r) -> code r = 202 ->
    exists e, event_of q e /\ DeliveryID e = delivery r /\ handled (delivery r) w' /\
      (status r = "accepted" /\ (e, true) ∈ dispatched w' \/
       status r = "replay" /\ exists e', (e', true) ∈ dispatched w' /\ DeliveryID e' = DeliveryID e).
Proof.
  intros Hd He Hr. destruct (pool_ok [] w l w' Hr) as (Hi & _ & Hl); [by apply start_inv|done|].
  split; [exact (only_received _ Hi)|]. intros p q r Hp Ha Hc. rewrite Forall_forall in Hl. specialize (Hl p Hp).
  assert (acknowledged q r w') as Hk by (destruct p as [t|t|X e k]; [..|done]; injection Ha as ->; by apply (Hl w')).
  destruct (Hk Hc) as (e & ? & Hid & ? & Hcase). exists e. rewrite Hid. done.
Qed.

(** Also: once a delivery is handled it is begun no more: however many redeliveries
    follow, it is dispatched at most as often as it had been found unhandled
    before. *)
Theorem handled_is_not_begun_again id w l1 w1 l2 w2 :
  deliveries w = ∅ -> dispatched w = [] -> receiving dispatch secret ([], w) (l1, w1) -> handled id w1 ->
  receiving dispatch secret (l1, w1) (l2, w2) -> (dispatches id w2 <= times id (begun w1))%nat.
Proof.
  intros Hd He H1 Hh H2. destruct (pool_ok [] w l1 w1 H1) as (Hi & _ & Hl); [by apply start_inv|done|].
  destruct (pool_ok l1 w1 l2 w2 H2 Hi Hl) as (_ & Hlater & _). destruct (handled_stays _ _ Hlater id Hh) as [_ <-].
  assert (receiving dispatch secret ([], w) (l2, w2)) as Hr by (by etrans).
  apply (credits_cover (executes dispatch) moves_on (posted secret) (gains id) (costs id) (fun w => times id (begun w)) (dispatches id)) in Hr; [done|..].
  - intros X o c x v v'. apply hook_exec_pays.
  - by intros v v' (d & t & ->).
  - intros p (q & ->). apply solvent_relabel, route_pays.
  - unfold dispatches. rewrite He. cbn. lia.
Qed.
End secret.
End receiver.
End WebhookLaws.
