(* ===== verification/WebhookWitness.v ===== *)
(** * A delivery and its redelivery

    GitHub delivers the author's comment of DispatcherLaws.v twice, signed; the
    handling point is the dispatcher itself, over the village of
    AttachmentLaws.v. *)
From S2P Require Import Prelude GoText Hmac Threads AttachStore AttachmentLaws Dispatcher DispatcherLaws Webhook WebhookLaws.

Open Scope string_scope.
Open Scope list_scope.
Open Scope Z_scope.

Module WebhookWitness.
Import Hmac Webhook WebhookLaws.
#[local] Existing Instance ascii_tables.

Definition handle (e : WebhookEvent) : M AttachStore.World string unit := fun v =>
  match @Dispatcher.Dispatch (AttachmentLaws.env_of false) ascii_tables AttachmentLaws.demo_wire AttachmentLaws.demo_deps
    DispatcherLaws.demo_payloads e v with
  | (Ok _, v) => (Ok tt, v)
  | (Err _, v) => (Err "the event failed", v)
  end.
Definition text : string := "/peasant attach".
Definition delivered : Delivered := mkDelivered (Some text) ("sha256=" +:+ hex_encode (hmac_sha256 "secret" text)) "d1" "issue_comment".
Definition post : prog Op (Delivered * Response) (Delivered * Response) := route "secret" delivered.
Definition start : @World AttachStore.World := mkWorld ∅ (AttachmentLaws.demo_world "preview") 5 [] [] [].
Definition first : option (prog Op (Delivered * Response) (Delivered * Response) * @World AttachStore.World) :=
  run (executes handle) (replicate 6 None) post start.
Definition again : option (prog Op (Delivered * Response) (Delivered * Response) * @World AttachStore.World) :=
  '(_, w) ← first; run (executes handle) (replicate 6 None) post w.
Definition seen (x : prog Op (Delivered * Response) (Delivered * Response) * @World AttachStore.World) : option string * nat * nat :=
  (status ∘ snd <$> Threads.answers x.1, dispatches "d1" x.2, times "d1" (begun x.2)).

Lemma first_seen : seen <$> first = Some (Some "accepted", 1%nat, 1%nat).
Proof. vm_compute. reflexivity. Qed.
Lemma again_seen : seen <$> again = Some (Some "replay", 1%nat, 1%nat).
Proof. vm_compute. reflexivity. Qed.
Lemma posts l w p' w' : run (executes handle) (replicate 6 None) post w = Some (p', w') -> receiving handle "secret" (l, w) (l ++ [p'], w').
Proof. intros Hr. eapply starts_reaches; [|exact Hr]. by exists delivered. Qed.
Lemma first_answer : (Threads.answers ∘ fst <$> first) = Some (Some (delivered, mkResponse 202 "accepted" "d1")).
Proof. vm_compute. reflexivity. Qed.
Lemma first_posts p w : first = Some (p, w) -> receiving handle "secret" ([], start) ([p], w).
Proof. unfold first. apply (posts []). Qed.
Lemma again_posts l p w p2 w2 : first = Some (p, w) -> again = Some (p2, w2) -> receiving handle "secret" (l, w) (l ++ [p2], w2).
Proof. unfold again. intros ->. cbn [mbind option_bind]. apply posts. Qed.
#[local] Opaque first again.
Lemma first_answers p w : first = Some (p, w) -> Threads.answers p = Some (delivered, mkResponse 202 "accepted" "d1").
Proof. intros Hf. pose proof first_answer as Ha. rewrite Hf in Ha. by injection Ha. Qed.
Lemma first_handled p w : first = Some (p, w) -> handled "d1" w.
Proof.
  intros Hf. destruct (pool_ok handle "secret" [] start [p] w (first_posts p w Hf)) as (Hi & _ & Hl); [by apply start_inv|by constructor|].
  apply Forall_cons in Hl as [Hp _]. pose proof (first_answers p w Hf) as Ha. clear Hf.
  destruct p as [t|t|]; [..|done]; injection Ha as ->; by destruct (Hp w ltac:(reflexivity) Hi eq_refl) as (e & _ & _ & Hh & _).
Qed.

Lemma acknowledged_was_handled_witness : exists p w', first = Some (p, w') /\
  exists e, event_of "secret" delivered e /\ DeliveryID e = "d1" /\ handled "d1" w' /\
    ("accepted" = "accepted" /\ (e, true) ∈ dispatched w' \/
     "accepted" = "replay" /\ exists e', (e', true) ∈ dispatched w' /\ DeliveryID e' = DeliveryID e).
Proof.
  destruct first as [[p w']|] eqn:Hf; [|pose proof first_seen as Hs; rewrite Hf in Hs; discriminate Hs]. exists p, w'. split; [reflexivity|].
  exact (proj2 (acknowledged_was_handled handle "secret" start [p] w' eq_refl eq_refl (first_posts p w' Hf))
    p delivered (mkResponse 202 "accepted" "d1") (list_elem_of_here p []) (first_answers p w' Hf) eq_refl).
Defined.
Lemma handled_is_not_begun_again_witness : exists p w1 p2 w2, first = Some (p, w1) /\ again = Some (p2, w2) /\
  (dispatches "d1" w2 <= times "d1" (begun w1))%nat.
Proof.
  destruct first as [[p w1]|] eqn:Hf; [|pose proof first_seen as Hs; rewrite Hf in Hs; discriminate Hs].
  destruct again as [[p2 w2]|] eqn:Ha; [|pose proof again_seen as Hs; rewrite Ha in Hs; discriminate Hs].
  exists p, w1, p2, w2. split; [reflexivity|]. split; [reflexivity|].
  exact (handled_is_not_begun_again handle "secret" "d1" start [p] w1 [p; p2] w2 eq_refl eq_refl (first_posts p w1 Hf)
    (first_handled p w1 Hf) (again_posts [p] p w1 p2 w2 Hf Ha)).
Defined.
End WebhookWitness.
