(* ===== verification/Tokens.v ===== *)
(** * Signed tokens

    Session tokens ([auth/jwt.go]) and the state of the GitHub App's install
    handshake ([auth/install_state.go]): the claims each is made of, and what is
    taken for one. Signing, parsing and the expiry check are of the JWT module,
    the class [Jwt]. *)
From S2P Require Import Prelude GoText.

Open Scope string_scope.
Open Scope list_scope.
Open Scope Z_scope.

Module Tokens.
Definition second : Z := 1000000000.
Definition hour : Z := 3600 * second.

(** The text claims of a token, by their JSON names, and its dates in seconds. *)
Record Payload : Type := mkPayload { fields : list (string * string); ExpiresAt : Z; IssuedAt : Z }.
Definition field (name : string) (p : Payload) : option string := snd <$> find (fun f => String.eqb f.1 name) (fields p).

(** [jwt_parse] is given what the code does with the token's method: a key, or a refusal. *)
Class Jwt : Type := {
  jwt_sign : string -> string -> Payload -> option string;
  jwt_parse : (string -> option string) -> string -> Z -> option Payload;
  uuid_text : Z -> string;
  uuid_parse : string -> option Z
}.
(** What the modules promise: a token reads back under the key it was signed
    with until it expires, and an id reads back. *)
Class JwtLaws `{Jwt} : Prop := {
  parse_signed : forall keys alg key p t now,
    jwt_sign alg key p = Some t -> keys alg = Some key -> now < ExpiresAt p * second -> jwt_parse keys t now = Some p;
  uuid_back : forall u, uuid_parse (uuid_text u) = Some u;
  uuid_some : forall u, uuid_text u <> ""
}.

Section tokens.
Context `{Jwt}.
(** [SigningMethodHMAC] *)
Definition hmac_method (alg : string) : bool := String.eqb alg "HS256" || String.eqb alg "HS384" || String.eqb alg "HS512".
Definition key_for (secret alg : string) : option string := if hmac_method alg then Some secret else None.

(** ** Sessions *)
Definition TokenTTL : Z := 7 * 24 * hour.
Definition Claims : Type := Z * string.
Definition CreateToken (secret : string) (userID : Z) (username : string) (now : Z) : option string :=
  jwt_sign "HS256" secret (mkPayload [("user_id", uuid_text userID); ("username", username)] ((now + TokenTTL) / second) (now / second)).
(** A claim that is absent is the zero of its type. *)
Definition ValidateToken (secret tokenStr : string) (now : Z) : option Claims :=
  p ← jwt_parse (key_for secret) tokenStr now;
  u ← match field "user_id" p with Some s => uuid_parse s | None => Some 0 end;
  Some (u, default "" (field "username" p)).

(** ** The install handshake *)
Definition InstallStateTTL : Z := 15 * 60 * second.
Definition InstallStateClaims : Type := string * string.
Definition CreateInstallState (secret userID groupID : string) (now : Z) : option string :=
  jwt_sign "HS256" secret (mkPayload [("user_id", userID); ("group_id", groupID)] ((now + InstallStateTTL) / second) (now / second)).
Definition ValidateInstallState (secret tokenStr : string) (now : Z) : option InstallStateClaims :=
  p ← jwt_parse (key_for secret) tokenStr now;
  let userID := default "" (field "user_id" p) in
  let groupID := default "" (field "group_id" p) in
  if String.eqb userID "" || String.eqb groupID "" then None else Some (userID, groupID).

(** ** What is taken for what *)
Section laws.
Context `{!JwtLaws}.
Lemma in_time now ttl now' : ttl mod second = 0 -> now' <= now + ttl - second -> now' < ((now + ttl) / second) * second.
Proof. unfold second. intros Ht Hn. Z.to_euclidean_division_equations. lia. Qed.
(** Also: a session token is taken for its person and handle, for as long as it lasts
    less the second its dates are rounded to. *)
Lemma session_reads_back secret u name now t now' :
  CreateToken secret u name now = Some t -> now' <= now + TokenTTL - second -> ValidateToken secret t now' = Some (u, name).
Proof.
  unfold CreateToken, ValidateToken. intros Ht Hn. rewrite (parse_signed (key_for secret) _ _ _ _ now' Ht); [|done|by apply in_time].
  cbn. by rewrite uuid_back.
Qed.
Lemma install_state_reads_back secret userID groupID now t now' : userID <> "" -> groupID <> "" ->
  CreateInstallState secret userID groupID now = Some t -> now' <= now + InstallStateTTL - second ->
  ValidateInstallState secret t now' = Some (userID, groupID).
Proof.
  unfold CreateInstallState, ValidateInstallState. intros Hu Hg Ht Hn. rewrite (parse_signed (key_for secret) _ _ _ _ now' Ht); [|done|by apply in_time].
  cbn. by destruct (String.eqb_spec userID ""), (String.eqb_spec groupID "").
Qed.
(** Also: a session token is no install state, as it names no collective. *)
Lemma session_is_no_install_state secret u name now t now' :
  CreateToken secret u name now = Some t -> now' <= now + TokenTTL - second -> ValidateInstallState secret t now' = None.
Proof.
  unfold CreateToken, ValidateInstallState. intros Ht Hn. rewrite (parse_signed (key_for secret) _ _ _ _ now' Ht); [|done|by apply in_time].
  cbn. by rewrite orb_true_r.
Qed.
(** Also: but an install state, which travels in URLs, is a session token of the
    person it was made for: both are signed with one secret, and a session's claims
    are read from whatever claims there are. *)
Lemma install_state_is_a_session secret u groupID now t now' :
  CreateInstallState secret (uuid_text u) groupID now = Some t -> now' <= now + InstallStateTTL - second ->
  ValidateToken secret t now' = Some (u, "").
Proof.
  unfold CreateInstallState, ValidateToken. intros Ht Hn. rewrite (parse_signed (key_for secret) _ _ _ _ now' Ht); [|done|by apply in_time].
  cbn. by rewrite uuid_back.
Qed.
End laws.
End tokens.
End Tokens.
