(* ===== verification/AccountStore.v ===== *)
(** * Accounts, keys and sign-ins as the database keeps them

    The tables [users], [api_keys], [cli_auth_sessions] and [user_github_orgs]
    with their statements ([database/sqlc/users.sql.go], [apikeys.sql.go],
    [cli_sessions.sql.go], [user_orgs.sql.go]), and the operations that signing
    in is made of: each statement, what a provider answers, and what is drawn at
    random. What the world keeps beside the tables is what providers answered
    and for whom accounts, codes and keys were made. *)
From S2P Require Import Prelude GoText Threads.

Open Scope string_scope.
Open Scope list_scope.
Open Scope Z_scope.

Module AccountStore.

(** ** Tables *)
Record User : Type := mkUser {
  GithubID : Z;
  GithubUsername : string;
  DisplayName : option string;
  AvatarUrl : option string;
  IsDiscoverable : bool;
  Provider : string;
  ProviderUserID : string;
  UsernameChosen : bool;
  ProviderUsername : option string;
  GithubOrgSyncGeneration : Z
}.
Record ApiKey : Type := mkApiKey {
  KeyUser : Z;
  KeyHash : string;
  KeyPrefix : string;
  Label : option string;
  KeyCreatedAt : Z;
  LastUsed : option Z;
  RevokedAt : option Z
}.
Record CliAuthSession : Type := mkSession {
  CliPort : Z;
  CliState : string;
  ExchangeCode : option string;
  SessionUser : option Z;
  SessionUsername : option string;
  SessionCreatedAt : Z;
  ExchangedAt : option Z
}.
Record githubOrg : Type := mkOrg { OrgID : Z; Login : string; OrgAvatarURL : option string }.
Record UserGithubOrg : Type := mkOrgRow { RowOrgID : Z; RowAvatar : option string; Visible : bool; FetchedAt : Z }.
Definition Identity : Type := string * string.      (** provider, and its id of the person *)

Record World : Type := mkWorld {
  users : gmap Z User;
  keys : gmap Z ApiKey;
  sessions : gmap string CliAuthSession;            (** by [oauth_state] *)
  orgs : gmap (Z * string) UserGithubOrg;
  db_now : Z;
  registered : list (Z * Identity);                 (** whose account each id is *)
  exchanged : list (string * string * string);      (** provider, sign-in code, the token it gave *)
  answered : list (string * string * string);       (** provider, token, the profile it answered *)
  drawn : list string;
  given : list (string * Z);                        (** exchange codes, and for whom *)
  redeemed : list string;
  minted : list (Z * (Z * string) * option string); (** keys: id, account and hash, the code it was made for *)
  installed : list (Z * Z * list githubOrg)         (** organization snapshots, with their generation *)
}.
Definition set_users x r (w : World) := mkWorld x (keys w) (sessions w) (orgs w) (db_now w) r (exchanged w) (answered w) (drawn w) (given w) (redeemed w) (minted w) (installed w).
Definition set_keys x m (w : World) := mkWorld (users w) x (sessions w) (orgs w) (db_now w) (registered w) (exchanged w) (answered w) (drawn w) (given w) (redeemed w) m (installed w).
Definition set_sessions x g r (w : World) := mkWorld (users w) (keys w) x (orgs w) (db_now w) (registered w) (exchanged w) (answered w) (drawn w) g r (minted w) (installed w).
Definition set_orgs x i (w : World) := mkWorld (users w) (keys w) (sessions w) x (db_now w) (registered w) (exchanged w) (answered w) (drawn w) (given w) (redeemed w) (minted w) i.
Definition set_heard e a (w : World) := mkWorld (users w) (keys w) (sessions w) (orgs w) (db_now w) (registered w) e a (drawn w) (given w) (redeemed w) (minted w) (installed w).
Definition set_drawn d (w : World) := mkWorld (users w) (keys w) (sessions w) (orgs w) (db_now w) (registered w) (exchanged w) (answered w) d (given w) (redeemed w) (minted w) (installed w).

(** ** Operations *)
Inductive DbError : Type := NoRows | UniqueViolation | DbFailed.
Record Profile : Type := mkProfile { ProfileID : string; ProfileUsername : string; ProfileName : string; ProfileAvatar : string }.

Inductive Op : Type -> Type :=
| UpsertUser (githubID : Z) (handle : string) (p : Profile) : Op (result DbError (Z * User))
| UpsertUserByProvider (githubID : Z) (handle provider : string) (p : Profile) : Op (result DbError (Z * User))
| ConfirmOwnHandle (u : Z) (handle : string) : Op (result DbError User)
| GetUserByID (u : Z) : Op (result DbError User)
| GetUserByUsername (handle : string) : Op (result DbError (Z * User))
| SetUsername (u : Z) (handle : string) : Op (result DbError User)
| UpdateUserDiscoverable (u : Z) (shown : bool) : Op (result DbError User)
| DeleteUser (u : Z) : Op (result DbError unit)
| CreateAPIKey (u : Z) (hash prefix : string) (label : option string) (made_for : option string) : Op (result DbError Z)
| GetAPIKeyByHash (hash : string) : Op (result DbError (Z * Z * string))
| RevokeAPIKey (key u : Z) : Op (result DbError unit)
| TouchAPIKeyLastUsed (key : Z) : Op (result DbError unit)
| InsertCLISession (state : string) (port : Z) (cliState : string) : Op (result DbError unit)
| GetCLISessionByState (state : string) : Op (result DbError CliAuthSession)
| UpdateCLISessionWithCode (state code : string) (u : Z) (username : string) : Op (result DbError unit)
| ExchangeCLISession (code cliState : string) : Op (result DbError CliAuthSession)
| IssueGitHubOrgSyncGeneration (u : Z) : Op (result DbError Z)
| InstallOrgs (u issued : Z) (l : list githubOrg) : Op (result DbError unit)
| SetOrgVisibility (u : Z) (login : string) (visible : bool) : Op (result DbError unit)
| OAuthExchange (provider code : string) : Op (result unit string)
| FetchProfile (provider token : string) : Op (result unit string)
| FetchOrgPage (token url : string) : Op (result unit (Z * string * string))    (** status, body, Link *)
| Draw (n : nat) : Op (option string)
| Now : Op Z.

(** What an operation may turn out to be: whether and when its statement fails,
    the id a new row gets, what a provider answers, the random bytes, the
    server's own clock. *)
Record Choice : Type := mkChoice {
  fails : option bool;
  new_id : Z;
  reply : result unit string;
  page : result unit (Z * string * string);
  entropy : option string;
  clock : Z
}.

Section statements.
Context `{UnicodeTables}.

(** ** Statements on accounts *)
Definition varchar (n : Z) (s : string) : bool := rune_count s <=? n.
Definition opt_text (s : string) : option string := if String.eqb s "" then None else Some s.
Definition handle_taken (w : World) (but : option Z) (handle : string) : bool :=
  existsb (fun p => negb (bool_decide (Some p.1 = but)) && String.eqb (to_lower (GithubUsername p.2)) (to_lower handle)) (map_to_list (users w)).
Definition find_user (f : User -> bool) (w : World) : option (Z * User) := find (fun p => f p.2) (map_to_list (users w)).
Definition refreshed (p : Profile) (r : User) : User :=
  mkUser (GithubID r) (GithubUsername r) (opt_text (ProfileName p)) (opt_text (ProfileAvatar p)) (IsDiscoverable r)
    (Provider r) (ProviderUserID r) (UsernameChosen r) (opt_text (ProfileUsername p)) (GithubOrgSyncGeneration r).
Definition profile_fits (p : Profile) : bool := varchar 255 (ProfileName p).
Definition insert_user (id githubID : Z) (handle provider providerUserID : string) (p : Profile) (w : World) : result DbError (Z * User * World) :=
  if bool_decide (is_Some (users w !! id)) || bool_decide (id ∈ (registered w).*1) then Err DbFailed
  else if is_some_b (find_user (fun r => GithubID r =? githubID) w) ||
     is_some_b (find_user (fun r => String.eqb (Provider r) provider && String.eqb (ProviderUserID r) providerUserID) w) ||
     handle_taken w None handle then Err UniqueViolation
  else if negb (varchar 255 handle && profile_fits p) then Err DbFailed
  else
    let r := mkUser githubID handle (opt_text (ProfileName p)) (opt_text (ProfileAvatar p)) true provider providerUserID false (opt_text (ProfileUsername p)) 0 in
    Ok (id, r, set_users (<[id := r]> (users w)) (registered w ++ [(id, (provider, providerUserID))]) w).
Definition upsert (found : option (Z * User)) (p : Profile) (fresh : result DbError (Z * User * World)) (w : World) : result DbError (Z * User * World) :=
  match found with
  | Some (id, r) =>
    if profile_fits p then Ok (id, refreshed p r, set_users (<[id := refreshed p r]> (users w)) (registered w) w) else Err DbFailed
  | None => fresh
  end.
Definition sql_upsert_user (id githubID : Z) (handle : string) (p : Profile) (w : World) : result DbError (Z * User * World) :=
  upsert (find_user (fun r => GithubID r =? githubID) w) p (insert_user id githubID handle "github" (itoa githubID) p w) w.
Definition sql_upsert_user_by_provider (id githubID : Z) (handle provider : string) (p : Profile) (w : World) : result DbError (Z * User * World) :=
  upsert (find_user (fun r => String.eqb (Provider r) provider && String.eqb (ProviderUserID r) (ProfileID p)) w) p
    (insert_user id githubID handle provider (ProfileID p) p w) w.

Definition update_user (u : Z) (f : User -> result DbError User) (w : World) : result DbError (User * World) :=
  match users w !! u with
  | None => Err NoRows
  | Some r => match f r with Ok r => Ok (r, set_users (<[u := r]> (users w)) (registered w) w) | Err e => Err e end
  end.
Definition with_handle (handle : string) (chosen : bool) (r : User) : User :=
  mkUser (GithubID r) handle (DisplayName r) (AvatarUrl r) (IsDiscoverable r) (Provider r) (ProviderUserID r) chosen (ProviderUsername r) (GithubOrgSyncGeneration r).
Definition sql_confirm (u : Z) (handle : string) : World -> result DbError (User * World) :=
  update_user u (fun r => if String.eqb (GithubUsername r) handle && negb (UsernameChosen r) then Ok (with_handle (GithubUsername r) true r) else Err NoRows).
Definition sql_set_username (u : Z) (handle : string) (w : World) : result DbError (User * World) :=
  update_user u (fun r => if handle_taken w (Some u) handle then Err UniqueViolation
    else if varchar 255 handle then Ok (with_handle handle true r) else Err DbFailed) w.
Definition sql_discoverable (u : Z) (shown : bool) : World -> result DbError (User * World) :=
  update_user u (fun r => Ok (mkUser (GithubID r) (GithubUsername r) (DisplayName r) (AvatarUrl r) shown (Provider r) (ProviderUserID r)
    (UsernameChosen r) (ProviderUsername r) (GithubOrgSyncGeneration r))).
(** Keys and organizations go with their account. *)
Definition sql_delete_user (u : Z) (w : World) : World :=
  set_users (delete u (users w)) (registered w) (set_keys (filter (fun p => KeyUser p.2 <> u) (keys w)) (minted w)
    (set_orgs (filter (fun p => p.1.1 <> u) (orgs w)) (installed w) w)).

(** ** Statements on keys *)
Definition sql_create_key (id u : Z) (hash prefix : string) (label made_for : option string) (w : World) : result DbError (Z * World) :=
  if bool_decide (is_Some (keys w !! id)) || bool_decide (id ∈ (minted w).*1.*1) || negb (bool_decide (is_Some (users w !! u))) ||
     negb (varchar 8 prefix) || match label with Some l => negb (varchar 255 l) | None => false end then Err DbFailed
  else Ok (id, set_keys (<[id := mkApiKey u hash prefix label (db_now w) None None]> (keys w)) (minted w ++ [(id, (u, hash), made_for)]) w).
Definition sql_get_key (hash : string) (w : World) : result DbError (Z * Z * string) :=
  match find (fun p => String.eqb (KeyHash p.2) hash && negb (is_some_b (RevokedAt p.2)) && is_some_b (users w !! KeyUser p.2)) (map_to_list (keys w)) with
  | Some (id, k) => Ok (id, KeyUser k, match users w !! KeyUser k with Some r => GithubUsername r | None => "" end)
  | None => Err NoRows
  end.
Definition update_key (id : Z) (f : ApiKey -> option ApiKey) (w : World) : World :=
  match k ← keys w !! id; f k with Some k => set_keys (<[id := k]> (keys w)) (minted w) w | None => w end.
Definition sql_revoke (id u : Z) (w : World) : World :=
  update_key id (fun k => if KeyUser k =? u
    then Some (mkApiKey (KeyUser k) (KeyHash k) (KeyPrefix k) (Label k) (KeyCreatedAt k) (LastUsed k) (Some (db_now w))) else None) w.
Definition sql_touch (id : Z) (w : World) : World :=
  update_key id (fun k => Some (mkApiKey (KeyUser k) (KeyHash k) (KeyPrefix k) (Label k) (KeyCreatedAt k) (Some (db_now w)) (RevokedAt k))) w.

(** ** Statements on command-line sign-ins *)
Definition sql_insert_session (state : string) (port : Z) (cliState : string) (w : World) : result DbError (unit * World) :=
  if is_some_b (sessions w !! state) then Err UniqueViolation
  else Ok (tt, set_sessions (<[state := mkSession port cliState None None None (db_now w) None]> (sessions w)) (given w) (redeemed w) w).
Definition has_code (code : string) (s : CliAuthSession) : bool := bool_decide (ExchangeCode s = Some code).
Definition sql_session_code (state code : string) (u : Z) (username : string) (w : World) : result DbError (unit * World) :=
  match sessions w !! state with
  | None => Ok (tt, w)
  | Some s =>
    if existsb (fun p => negb (String.eqb p.1 state) && has_code code p.2) (map_to_list (sessions w)) then Err UniqueViolation
    else Ok (tt, set_sessions (<[state := mkSession (CliPort s) (CliState s) (Some code) (Some u) (Some username) (SessionCreatedAt s) (ExchangedAt s)]>
      (sessions w)) (given w ++ [(code, u)]) (redeemed w) w)
  end.
Definition exchangeable (code cliState : string) (now : Z) (s : CliAuthSession) : bool :=
  has_code code s && String.eqb (CliState s) cliState && negb (is_some_b (ExchangedAt s)) && (now - 300 * 1000000000 <? SessionCreatedAt s).
Definition sql_exchange (code cliState : string) (w : World) : result DbError (CliAuthSession * World) :=
  match find (fun p => exchangeable code cliState (db_now w) p.2) (map_to_list (sessions w)) with
  | None => Err NoRows
  | Some (state, s) =>
    let s := mkSession (CliPort s) (CliState s) (ExchangeCode s) (SessionUser s) (SessionUsername s) (SessionCreatedAt s) (Some (db_now w)) in
    Ok (s, set_sessions (<[state := s]> (sessions w)) (given w) (redeemed w ++ [code]) w)
  end.

(** ** Statements on organizations *)
Definition sql_issue (u : Z) (w : World) : result DbError (Z * World) :=
  match users w !! u with
  | None => Err NoRows
  | Some r =>
    if GithubOrgSyncGeneration r <? 9223372036854775807 then
      let g := GithubOrgSyncGeneration r + 1 in
      Ok (g, set_users (<[u := mkUser (GithubID r) (GithubUsername r) (DisplayName r) (AvatarUrl r) (IsDiscoverable r) (Provider r)
        (ProviderUserID r) (UsernameChosen r) (ProviderUsername r) g]> (users w)) (registered w) w)
    else Err NoRows
  end.
Definition upsert_org (u now : Z) (o : githubOrg) (t : gmap (Z * string) UserGithubOrg) : gmap (Z * string) UserGithubOrg :=
  <[(u, Login o) := mkOrgRow (OrgID o) (OrgAvatarURL o) (match t !! (u, Login o) with Some r => Visible r | None => false end) now]> t.
Definition delete_outside (u : Z) (logins : list string) (t : gmap (Z * string) UserGithubOrg) : gmap (Z * string) UserGithubOrg :=
  filter (fun p => negb ((p.1.1 =? u) && negb (bool_decide (to_lower p.1.2 ∈ logins))) = true) t.
(** The transaction that installs a snapshot: it re-reads the generation under
    the row lock first. *)
Definition install_tx (u issued : Z) (l : list githubOrg) (w : World) : result DbError (unit * World) :=
  match users w !! u with
  | None => Err NoRows
  | Some r =>
    if negb (GithubOrgSyncGeneration r =? issued) then Ok (tt, w)
    else if negb (forallb (fun o => varchar 255 (Login o)) l) then Err DbFailed
    else Ok (tt, set_orgs (delete_outside u ((fun o => to_lower (Login o)) <$> l) (foldl (fun t o => upsert_org u (db_now w) o t) (orgs w) l))
      (installed w ++ [(u, issued, l)]) w)
  end.
Definition sql_set_visibility (u : Z) (login : string) (visible : bool) (w : World) : World :=
  match orgs w !! (u, login) with
  | Some r => set_orgs (<[(u, login) := mkOrgRow (RowOrgID r) (RowAvatar r) visible (FetchedAt r)]> (orgs w)) (installed w) w
  | None => w
  end.

(** ** Every operation *)
Definition statement {A} (c : Choice) (w : World) (r : result DbError (A * World)) : result DbError A * World :=
  match fails c, r with
  | None, Ok (a, w') => (Ok a, w')
  | None, Err e => (Err e, w)
  | Some true, Ok (_, w') => (Err DbFailed, w')
  | Some _, _ => (Err DbFailed, w)
  end.
Definition some_or (w : World) {A} (o : option A) : result DbError (A * World) := match o with Some a => Ok (a, w) | None => Err NoRows end.
Definition exec {X} (o : Op X) (c : Choice) (w : World) : X * World :=
  match o with
  | UpsertUser g h p => statement c w (sql_upsert_user (new_id c) g h p w)
  | UpsertUserByProvider g h v p => statement c w (sql_upsert_user_by_provider (new_id c) g h v p w)
  | ConfirmOwnHandle u h => statement c w (sql_confirm u h w)
  | GetUserByID u => statement c w (some_or w (users w !! u))
  | GetUserByUsername h => statement c w (some_or w (find_user (fun r => String.eqb (to_lower (GithubUsername r)) (to_lower h)) w))
  | SetUsername u h => statement c w (sql_set_username u h w)
  | UpdateUserDiscoverable u b => statement c w (sql_discoverable u b w)
  | DeleteUser u => statement c w (Ok (tt, sql_delete_user u w))
  | CreateAPIKey u h p l m => statement c w (sql_create_key (new_id c) u h p l m w)
  | GetAPIKeyByHash h => statement c w (match sql_get_key h w with Ok a => Ok (a, w) | Err e => Err e end)
  | RevokeAPIKey k u => statement c w (Ok (tt, sql_revoke k u w))
  | TouchAPIKeyLastUsed k => statement c w (Ok (tt, sql_touch k w))
  | InsertCLISession s p cs => statement c w (sql_insert_session s p cs w)
  | GetCLISessionByState s => statement c w (some_or w (sessions w !! s))
  | UpdateCLISessionWithCode s k u n => statement c w (sql_session_code s k u n w)
  | ExchangeCLISession k cs => statement c w (sql_exchange k cs w)
  | IssueGitHubOrgSyncGeneration u => statement c w (sql_issue u w)
  | InstallOrgs u g l => statement c w (install_tx u g l w)
  | SetOrgVisibility u l b => statement c w (Ok (tt, sql_set_visibility u l b w))
  | OAuthExchange provider code => (reply c, match reply c with Ok t => set_heard (exchanged w ++ [(provider, code, t)]) (answered w) w | Err _ => w end)
  | FetchProfile provider token => (reply c, match reply c with Ok body => set_heard (exchanged w) (answered w ++ [(provider, token, body)]) w | Err _ => w end)
  | FetchOrgPage _ _ => (page c, w)
  | Draw _ => (entropy c, match entropy c with Some r => set_drawn (drawn w ++ [r]) w | None => w end)
  | Now => (clock c, w)
  end.
(** What is drawn has not been drawn before. *)
Definition executes (X : Type) (o : Op X) (c : Choice) (w : World) : option (X * World) :=
  match o, entropy c with
  | Draw _, Some r => if bool_decide (r ∈ drawn w) then None else Some (exec o c w)
  | _, _ => Some (exec o c w)
  end.
Definition set_now t (w : World) := mkWorld (users w) (keys w) (sessions w) (orgs w) t (registered w) (exchanged w) (answered w) (drawn w) (given w) (redeemed w) (minted w) (installed w).
Definition tick (w w' : World) : Prop := exists t, db_now w <= t /\ w' = set_now t w.
End statements.
End AccountStore.
