(* ===== verification/Accounts.v ===== *)
(** * Signing in

    The routes of accounts ([handler/auth.go], [auth_providers.go],
    [auth_middleware.go]): handles, sign-in through GitHub and the other
    providers, the command line's sign-in, API keys, the organization snapshot.
    Signing and reading session tokens, JSON and URLs are the class [Outside]. *)
From S2P Require Import Prelude GoText Regex Hmac Links Tokens Threads AccountStore.

Open Scope string_scope.
Open Scope list_scope.
Open Scope Z_scope.

Module Accounts.
Import Hmac Links Tokens AccountStore.

(** [Outside]: the decoders, which answer the fields the code reads, and the URL
    module. *)
Record ParsedURL : Type := mkURL { Scheme : string; Host : string; Path : string; HasUser : bool; Fragment : string; Query : list (string * string) }.
Record githubProfile : Type := mkGithubProfile { ID : Z; ProfileLogin : string; Name : string; AvatarURL : string }.
Record openidClaims : Type := mkOpenid { Sub : string; PreferredUsername : string; ClaimedName : string; Picture : string }.
Class Outside : Type := {
  decode_github : string -> option githubProfile;       (** [id], [login], [name], [avatar_url] *)
  decode_gitlab : string -> option githubProfile;       (** [id], [username], [name], [avatar_url] *)
  decode_openid : string -> option openidClaims;
  decode_sourcehut : string -> option (Z * string * string);   (** [id], [username], [canonicalName] *)
  decode_orgs : string -> option (list githubOrg);
  parse_url : string -> option ParsedURL;
  url_text : ParsedURL -> string
}.

Record Config : Type := mkConfig {
  JWTSecret : string;
  GitLabClientID : string; GitLabClientSecret : string;
  HuggingFaceClientID : string;
  CodebergClientID : string; CodebergClientSecret : string;
  SourceHutClientID : string; SourceHutClientSecret : string
}.

Inductive Response : Type :=
| Refused (code : Z)
| Done (u : Z) (row : option User)                  (** 200, to a person about their own account *)
| Ended
| ToProvider (state : string)                     (** a redirect that sets the [oauth_state] cookie *)
| SignedIn (u : Z) (token : string)
| HandedBack (port : Z) (code state : string)     (** to the command line's own server *)
| NewKey (key u : Z) (plaintext username : string).
Notation Handler := (prog Op Response Response).

Section accounts.
Context `{tables : UnicodeTables} `{jwt : Jwt} `{outside : Outside}.

(** ** Handles *)
Definition cls_handle (c : Z) : bool := cls_lower c || cls_digit c.
Definition cls_inner (c : Z) : bool := cls_handle c || (c =? 45).
(** [^[a-z0-9][a-z0-9-]{1,28}[a-z0-9]$] *)
Definition usernamePattern : regex := RSeq (RClass cls_handle) (RSeq (rrange (RClass cls_inner) 1 27) (RClass cls_handle)).
Definition anonymousAnnotatorName : string := "anon".
Definition isReservedHandle (handle : string) : bool := String.eqb (to_lower (trim_space handle)) anonymousAnnotatorName.
Definition handleIsLogin (handle login : string) : bool :=
  match_full usernamePattern handle && String.eqb handle (to_lower login) && negb (isReservedHandle handle).

Fixpoint sanitize_runes (l : list Z) (out : list Z) (lastHyphen : bool) : list Z :=
  match l with
  | [] => out
  | r :: l =>
    if between 97 122 r || between 48 57 r then sanitize_runes l (out ++ [r]) false
    else if (r =? 45) || (r =? 95) || (r =? 32) || (r =? 46)
    then if negb (bool_decide (out = [])) && negb lastHyphen then sanitize_runes l (out ++ [45]) true else sanitize_runes l out lastHyphen
    else sanitize_runes l out lastHyphen
  end.
Definition trim_hyphens (l : list Z) : list Z := drop_while_end (Z.eqb 45) (drop_while (Z.eqb 45) l).
Definition sanitize_bytes (s : string) : list Z :=
  let out := trim_hyphens (sanitize_runes (runes (to_lower (trim_space s))) [] false) in
  if (30 <? Z.of_nat (length out)) then trim_hyphens (take 30 out) else out.
Definition sanitizeHandle (s : string) : string :=
  match sanitize_bytes s with [] => "user" | l => of_bytes l end.

(** [i] from 2 to 999. *)
Fixpoint unique_from (fuel : nat) (i : Z) (root candidate : string) : prog Op Response string :=
  match fuel with
  | O => mret candidate
  | S fuel =>
    let next := root +:+ "-" +:+ itoa i in
    if isReservedHandle candidate then unique_from fuel (i + 1) root next
    else
      r ← do_ (GetUserByUsername candidate);
      match r with Err _ => mret candidate | Ok _ => unique_from fuel (i + 1) root next end
  end.
Definition generateUniqueUsername (base : string) : prog Op Response string :=
  let root := sanitizeHandle base in unique_from 998 2 root root.

(** ** The organization snapshot *)
Definition firstOrgPage : string := "https://api.github.com/user/orgs?per_page=100".
Definition query_get (name : string) (q : list (string * string)) : list string := snd <$> List.filter (fun p => String.eqb p.1 name) q.
(** The endpoint of page [n], and nothing else. *)
Definition trusted (n : Z) (u : ParsedURL) : bool :=
  String.eqb (Scheme u) "https" && String.eqb (Host u) "api.github.com" && String.eqb (Path u) "/user/orgs" && negb (HasUser u) &&
  String.eqb (Fragment u) "" && Nat.eqb (length (Query u)) 2 &&
  bool_decide (query_get "page" (Query u) = [itoa n]) && bool_decide (query_get "per_page" (Query u) = ["100"]).
Definition trim_angles (s : string) : string :=
  of_bytes (drop_while_end (fun b => (b =? 60) || (b =? 62)) (drop_while (fun b => (b =? 60) || (b =? 62)) (bytes s))).
Definition is_next (link : string) : bool :=
  existsb (fun part => String.eqb (trim_space part) ("rel=" +:+ String "034" "next" +:+ String "034" "")) (tail (split_on ";" link)).
(** The next page's URL ("" when there is none) from the Link header; [None]: not to be followed. *)
Fixpoint next_page (n : Z) (links : list string) (next : string) : option string :=
  match links with
  | [] => Some next
  | link :: links =>
    if negb (is_next link) then next_page n links next
    else if negb (String.eqb next "") then None
    else match parse_url (trim_angles (trim_space (default "" (head (split_on ";" link))))) with
      | Some u => if trusted (n + 1) u then next_page n links (url_text u) else None
      | None => None
      end
  end.
(** The organizations of one page, none seen before. *)
Fixpoint new_orgs (rows all : list githubOrg) : option (list githubOrg) :=
  match rows with
  | [] => Some all
  | o :: rows =>
    let login := to_lower (Login o) in
    if (OrgID o <=? 0) || String.eqb login "" || negb (String.eqb (trim_space login) login) ||
       existsb (fun o' => (OrgID o' =? OrgID o) || String.eqb (to_lower (Login o')) login) all
    then None else new_orgs rows (all ++ [o])
  end.
Fixpoint fetch_pages (fuel : nat) (n : Z) (token url : string) (all : list githubOrg) : prog Op Response (option (list githubOrg)) :=
  match fuel with
  | O => mret None
  | S fuel =>
    r ← do_ (FetchOrgPage token url);
    match r with
    | Err _ => mret None
    | Ok (status, body, links) =>
      if negb (status =? 200) || (2 ^ 20 <? blen body) then mret None
      else match decode_orgs body with
        | None => mret None
        | Some rows =>
          if 100 <? Z.of_nat (length rows) then mret None
          else match new_orgs rows all with
            | None => mret None
            | Some all => match next_page n (split_on "," links) "" with
              | None => mret None
              | Some next =>
                if String.eqb next "" then mret (Some all)
                else if Nat.eqb (length rows) 0 then mret None
                else fetch_pages fuel (n + 1) token next all
              end
            end
        end
    end
  end.
Definition fetchGitHubOrgSnapshot (token : string) : prog Op Response (option (list githubOrg)) :=
  fetch_pages 100 1 token firstOrgPage [].
(** Best effort: no error leaves it. *)
Definition syncGitHubOrgs (token : string) (u : Z) : prog Op Response unit :=
  issued ← do_ (IssueGitHubOrgSyncGeneration u);
  match issued with
  | Err _ => mret tt
  | Ok g =>
    orgs ← fetchGitHubOrgSnapshot token;
    match orgs with
    | None => mret tt
    | Some l => _ ← do_ (InstallOrgs u g l); mret tt
    end
  end.

(** ** Sign-in *)
Definition signInGitHubUser (p : githubProfile) : prog Op Response (result unit (Z * User)) :=
  candidate ← generateUniqueUsername (ProfileLogin p);
  r ← do_ (UpsertUser (ID p) candidate (mkProfile "" (ProfileLogin p) (Name p) (AvatarURL p)));
  match r with
  | Err _ => mret (Err tt)
  | Ok (u, user) =>
    if UsernameChosen user || negb (handleIsLogin (GithubUsername user) (ProfileLogin p)) then mret (Ok (u, user))
    else
      chosen ← do_ (ConfirmOwnHandle u (GithubUsername user));
      match chosen with
      | Ok user => mret (Ok (u, user))
      | Err NoRows =>
        current ← do_ (GetUserByID u);
        mret (Ok (u, match current with Ok c => c | Err _ => user end))
      | Err _ => mret (Ok (u, user))
      end
  end.
(** The status of GitHub's answer is not looked at. *)
Definition exchangeGitHubUser (code : string) : prog Op Response (result unit (Z * User)) :=
  token ← do_ (OAuthExchange "github" code);
  match token with
  | Err _ => mret (Err tt)
  | Ok token =>
    body ← do_ (FetchProfile "github" token);
    match body with
    | Err _ => mret (Err tt)
    | Ok body => match decode_github body with
      | None => mret (Err tt)
      | Some p =>
        user ← signInGitHubUser p;
        match user with
        | Err _ => mret (Err tt)
        | Ok (u, user) => _ ← syncGitHubOrgs token u; mret (Ok (u, user))
        end
      end
    end
  end.
Definition signed_in (cfg : Config) (u : Z) (user : User) : Handler :=
  now ← do_ Now;
  mret (match CreateToken (JWTSecret cfg) u (GithubUsername user) now with Some token => SignedIn u token | None => Refused 500 end).
Definition generateState : prog Op Response string :=
  r ← do_ (Draw 16);
  mret (hex_encode (match r with Some b => b | None => of_bytes (replicate 16 0) end)).

Definition GitHubLogin : Handler := state ← generateState; mret (ToProvider state).
Definition handleCLICallback (u : Z) (user : User) (oauthState : string) (session : CliAuthSession) : Handler :=
  raw ← do_ (Draw 32);
  match raw with
  | None => Stop (Refused 500)
  | Some raw =>
    let exchangeCode := hex_encode raw in
    _ ← or_stop (UpdateCLISessionWithCode oauthState exchangeCode u (GithubUsername user)) (fun _ => Refused 500);
    mret (HandedBack (CliPort session) exchangeCode (CliState session))
  end.
Definition GitHubCallback (cfg : Config) (cookie : option string) (state code : string) : Handler :=
  if negb (bool_decide (cookie = Some state)) then Stop (Refused 400)
  else
    cliSession ← do_ (GetCLISessionByState state);
    user ← exchangeGitHubUser code;
    match user with
    | Err _ => Stop (Refused 500)
    | Ok (u, user) => match cliSession with
      | Ok session => handleCLICallback u user state session
      | Err _ => signed_in cfg u user
      end
    end.

(** [binary.BigEndian.Uint64] of the hash, sign bit cleared, next bit set. *)
Definition syntheticGitHubID (provider externalID : string) : Z :=
  let n := be32 (take 8 (bytes (sha256 (provider +:+ ":" +:+ externalID)))) in
  Z.lor (Z.land n (2 ^ 63 - 1)) (2 ^ 62).
Definition providerOAuthConfig (cfg : Config) (provider : string) : bool :=
  if String.eqb provider "gitlab" then negb (String.eqb (GitLabClientID cfg) "" || String.eqb (GitLabClientSecret cfg) "")
  else if String.eqb provider "huggingface" then negb (String.eqb (HuggingFaceClientID cfg) "")
  else if String.eqb provider "codeberg" then negb (String.eqb (CodebergClientID cfg) "" || String.eqb (CodebergClientSecret cfg) "")
  else if String.eqb provider "sourcehut" then negb (String.eqb (SourceHutClientID cfg) "" || String.eqb (SourceHutClientSecret cfg) "")
  else false.
(** [fetchProviderProfile] over the body that was read: the profile in it. *)
Definition fetchGitLabProfile (body : string) : option Profile :=
  u ← decode_gitlab body; Some (mkProfile (itoa (ID u)) (ProfileLogin u) (Name u) (AvatarURL u)).
Definition fetchHuggingFaceProfile (body : string) : option Profile :=
  u ← decode_openid body; Some (mkProfile (Sub u) (PreferredUsername u) (ClaimedName u) (Picture u)).
Definition fetchCodebergProfile (body : string) : option Profile :=
  u ← decode_openid body; Some (mkProfile (Sub u) (PreferredUsername u) (ClaimedName u) (Picture u)).
Definition fetchSourceHutProfile (body : string) : option Profile :=
  '(id, username, canonicalName) ← decode_sourcehut body;
  if id =? 0 then None else Some (mkProfile (itoa id) username canonicalName "").
Definition fetchProviderProfile (provider body : string) : option Profile :=
  if String.eqb provider "gitlab" then fetchGitLabProfile body
  else if String.eqb provider "huggingface" then fetchHuggingFaceProfile body
  else if String.eqb provider "codeberg" then fetchCodebergProfile body
  else if String.eqb provider "sourcehut" then fetchSourceHutProfile body
  else None.
Definition providerLogin (cfg : Config) (provider : string) : Handler :=
  if negb (providerOAuthConfig cfg provider) then Stop (Refused 503)
  else state ← generateState; mret (ToProvider state).
Definition providerCallback (cfg : Config) (provider : string) (cookie : option string) (state code : string) : Handler :=
  if negb (providerOAuthConfig cfg provider) then Stop (Refused 503)
  else if negb (bool_decide (cookie = Some state)) then Stop (Refused 400)
  else
    token ← or_stop (OAuthExchange provider code) (fun _ => Refused 500);
    body ← or_stop (FetchProfile provider token) (fun _ => Refused 500);
    match fetchProviderProfile provider body with
    | None => Stop (Refused 500)
    | Some p =>
      if String.eqb (ProfileUsername p) "" || String.eqb (ProfileID p) "" then Stop (Refused 500)
      else
        candidate ← generateUniqueUsername (ProfileUsername p);
        r ← do_ (UpsertUserByProvider (syntheticGitHubID provider (ProfileID p)) candidate provider p);
        match r with
        | Err _ => Stop (Refused 500)
        | Ok (u, user) => signed_in cfg u user
        end
    end.

(** ** The command line *)
Definition CLILogin (port state : string) : Handler :=
  if String.eqb port "" || String.eqb state "" then Stop (Refused 400)
  else match atoi port with
    | None => Stop (Refused 400)
    | Some portNum =>
      if (portNum <? 1024) || (65535 <? portNum) then Stop (Refused 400)
      else
        oauthState ← generateState;
        _ ← or_stop (InsertCLISession oauthState portNum state) (fun _ => Refused 500);
        mret (ToProvider oauthState)
    end.
Definition CLIExchange (code state : string) : Handler :=
  if String.eqb code "" || String.eqb state "" then Stop (Refused 400)
  else
    session ← or_stop (ExchangeCLISession code state) (fun _ => Refused 401);
    if negb (bool_decide (ExchangeCode session = Some code)) then Stop (Refused 401)
    else
      raw ← do_ (Draw 32);
      match GenerateAPIKey raw with
      | None => Stop (Refused 500)
      | Some (plaintext, hash, prefix) =>
        let u := default 0 (SessionUser session) in
        key ← or_stop (CreateAPIKey u hash prefix (Some "peasant-cli") (Some code)) (fun _ => Refused 500);
        mret (NewKey key u plaintext (default "" (SessionUsername session)))
      end.

(** ** Credentials *)
Definition authenticate (cfg : Config) (cookie : option string) (authorization : string) : prog Op Response (option (Z * string)) :=
  now ← do_ Now;
  match (t ← cookie; ValidateToken (JWTSecret cfg) t now) with
  | Some claims => mret (Some claims)
  | None =>
    match strip_prefix "Bearer " authorization with
    | None => mret None
    | Some token =>
      if IsAPIKey token then
        row ← do_ (GetAPIKeyByHash (HashAPIKey token));
        mret (match row with Ok (_, u, name) => Some (u, name) | Err _ => None end)
      else mret (ValidateToken (JWTSecret cfg) token now)
    end
  end.
Definition AuthRequired (cfg : Config) (cookie : option string) (authorization : string) (next : Z -> Handler) : Handler :=
  user ← authenticate cfg cookie authorization;
  match user with None => Stop (Refused 401) | Some (u, _) => next u end.

(** ** What a person does with their account *)
Definition Me (u : Z) : Handler := row ← or_stop (GetUserByID u) (fun _ => Refused 500); mret (Done u (Some row)).
Definition UpdateMySettings (shown : option bool) (u : Z) : Handler :=
  match shown with
  | None => Stop (Refused 400)
  | Some b => row ← or_stop (UpdateUserDiscoverable u b) (fun _ => Refused 500); mret (Done u (Some row))
  end.
Definition SetMyUsername (username : string) (u : Z) : Handler :=
  let handle := to_lower (trim_space username) in
  if negb (match_full usernamePattern handle) then Stop (Refused 400)
  else if isReservedHandle handle then Stop (Refused 400)
  else
    r ← do_ (SetUsername u handle);
    match r with
    | Ok row => mret (Done u (Some row))
    | Err UniqueViolation => Stop (Refused 409)
    | Err _ => Stop (Refused 500)
    end.
Definition DeleteAccount (u : Z) : Handler := _ ← or_stop (DeleteUser u) (fun _ => Refused 500); mret (Done u None).
Definition CreateKey (label : string) (u : Z) : Handler :=
  raw ← do_ (Draw 32);
  match GenerateAPIKey raw with
  | None => Stop (Refused 500)
  | Some (plaintext, hash, prefix) =>
    key ← or_stop (CreateAPIKey u hash prefix (opt_text label) None) (fun _ => Refused 500);
    mret (NewKey key u plaintext "")
  end.
Definition RevokeKey (key : option Z) (u : Z) : Handler :=
  match key with
  | None => Stop (Refused 400)
  | Some k => _ ← or_stop (RevokeAPIKey k u) (fun _ => Refused 500); mret (Done u None)
  end.
Definition SetOrgVisibility (login : string) (visible : bool) (u : Z) : Handler :=
  if String.eqb login "" then Stop (Refused 400)
  else _ ← or_stop (AccountStore.SetOrgVisibility u login visible) (fun _ => Refused 500); mret (Done u None).

(** ** Every way in *)
Inductive Request : Type :=
| QLogin
| QCallback (cookie : option string) (state code : string)
| QProviderLogin (provider : string)
| QProviderCallback (provider : string) (cookie : option string) (state code : string)
| QCLILogin (port state : string)
| QCLIExchange (code state : string)
| QMe
| QSettings (shown : option bool)
| QUsername (username : string)
| QDelete
| QCreateKey (label : string)
| QRevokeKey (key : option Z)
| QOrgVisibility (login : string) (visible : bool)
| QTouched (key : Z).         (** the update of [last_used] that runs on after a request *)
Definition perform (cfg : Config) (cookie : option string) (authorization : string) (q : Request) : Handler :=
  let required := AuthRequired cfg cookie authorization in
  match q with
  | QLogin => GitHubLogin
  | QCallback c s k => GitHubCallback cfg c s k
  | QProviderLogin v => providerLogin cfg v
  | QProviderCallback v c s k => providerCallback cfg v c s k
  | QCLILogin p s => CLILogin p s
  | QCLIExchange k s => CLIExchange k s
  | QMe => required Me
  | QSettings b => required (UpdateMySettings b)
  | QUsername n => required (SetMyUsername n)
  | QDelete => required DeleteAccount
  | QCreateKey l => required (CreateKey l)
  | QRevokeKey k => required (RevokeKey k)
  | QOrgVisibility l b => required (SetOrgVisibility l b)
  | QTouched k => _ ← do_ (TouchAPIKeyLastUsed k); mret Ended
  end.
(** A request with its credentials, and what it is answered. *)
Definition Asked : Type := option string * string * Request.
Definition route (cfg : Config) (a : Asked) : prog Op (Asked * Response) (Asked * Response) :=
  relabel (pair a) (perform cfg a.1.1 a.1.2 a.2).
Definition asked (cfg : Config) (p : prog Op (Asked * Response) (Asked * Response)) : Prop := exists a, p = route cfg a.
Definition serving (cfg : Config) := reaches executes tick (asked cfg).
End accounts.
End Accounts.
