(* ===== verification/AccountHandles.v ===== *)
(** * What a handle can be

    Handles are made by [sanitizeHandle] from a provider's login, or chosen by a
    person within [usernamePattern]: lowercase letters, digits and hyphens, in
    at most so many bytes, and never the one reserved handle. *)
From S2P Require Import Prelude GoText Regex Threads AccountStore Accounts.

Open Scope string_scope.
Open Scope list_scope.
Open Scope Z_scope.

Module AccountHandles.
Import AccountStore Accounts.

Section handles.
Context `{UnicodeTables}.

(** ** Texts of handle characters *)
Definition plain (h : string) : Prop := Forall (fun c => cls_inner c = true) (bytes h).
#[export] Instance plain_dec h : Decision (plain h).
Proof. apply _. Defined.
Lemma inner_ascii c : cls_inner c = true -> 0 <= c < 128.
Proof. unfold cls_inner, cls_handle, cls_lower, cls_digit, between. intros ?. lia. Qed.
Lemma plain_ascii h : plain h -> Forall (fun b => 0 <= b < 128) (bytes h).
Proof. intros Hp. eapply Forall_impl; [exact Hp|]. exact inner_ascii. Qed.
Lemma plain_of_bytes l : Forall (fun c => cls_inner c = true) l -> plain (of_bytes l).
Proof.
  intros Hl. unfold plain. rewrite bytes_of_bytes; [done|]. eapply Forall_impl; [exact Hl|]. intros c ?%inner_ascii. lia.
Qed.
Lemma plain_app s t : plain s -> plain t -> plain (s +:+ t).
Proof. unfold plain. rewrite bytes_app. by apply Forall_app_2. Qed.
Lemma plain_runes h : plain h -> runes h = bytes h.
Proof. intros Hp. rewrite <- (of_bytes_bytes h) at 1. apply runes_of_bytes, plain_ascii, Hp. Qed.

Lemma plain_lower h : plain h -> to_lower h = h.
Proof.
  intros Hp. unfold to_lower, is_ascii.
  assert (forallb (fun b => b <? 128) (bytes h) = true) as ->.
  { apply forallb_forall. intros b Hb. eapply Forall_forall in Hp; [|by apply list_elem_of_In]. apply inner_ascii in Hp. lia. }
  rewrite <- (of_bytes_bytes h) at 2. f_equal. rewrite <- (list_fmap_id (bytes h)) at 2. apply Forall_fmap_ext_1.
  eapply Forall_impl; [exact Hp|]. cbn. unfold cls_inner, cls_handle, cls_lower, cls_digit, ascii_lower, between. intros c Hc.
  destruct ((65 <=? c) && (c <=? 90)) eqn:Hu; [lia|done].
Qed.
Lemma plain_segments h : plain h -> segments h = (fun c => (c, [c])) <$> bytes h.
Proof.
  intros Hp. unfold segments. rewrite <- length_bytes. apply plain_ascii in Hp.
  induction Hp as [|b l Hb Hl IH]; [done|]. cbn. destruct (Z.ltb_spec b 128); [|lia]. f_equal. exact IH.
Qed.
Lemma drop_while_none {A} (f : A -> bool) l : Forall (fun x => f x = false) l -> drop_while f l = l.
Proof. intros [|x k Hx Hl]; [done|]. cbn. by rewrite Hx. Qed.
Lemma plain_trimmed h : plain h -> trim_space h = h.
Proof.
  intros Hp. unfold trim_space. rewrite plain_segments by done.
  assert (Forall (fun p => seg_space p = false) ((fun c => (c, [c])) <$> bytes h)) as Hs.
  { apply Forall_fmap. eapply Forall_impl; [exact Hp|]. intros c Hc. unfold seg_space, is_space; cbn.
    unfold cls_inner, cls_handle, cls_lower, cls_digit, between in *. lia. }
  rewrite (drop_while_none _ _ Hs). unfold drop_while_end. rewrite drop_while_none, rev_involutive by by apply Forall_rev.
  unfold unsegments. rewrite <- list_fmap_compose. rewrite <- (of_bytes_bytes h) at 2. f_equal.
  generalize (bytes h). intros l. induction l as [|c l IH]; [done|]. cbn. by f_equal.
Qed.
Lemma plain_reserved h : plain h -> isReservedHandle h = String.eqb h anonymousAnnotatorName.
Proof. intros Hp. unfold isReservedHandle. by rewrite plain_trimmed, plain_lower. Qed.

(** ** Handles made from a login *)
Lemma runes_plain l : forall out b, Forall (fun c => cls_inner c = true) out -> Forall (fun c => cls_inner c = true) (sanitize_runes l out b).
Proof.
  induction l as [|r l IH]; intros out b Hout; [done|]. cbn.
  destruct (between 97 122 r || between 48 57 r) eqn:Hr.
  - apply IH, Forall_app_2; [done|]. constructor; [|done].
    unfold cls_inner, cls_handle, cls_lower, cls_digit. by rewrite Hr.
  - repeat case_match; apply IH; try done. apply Forall_app_2; [done|]. by repeat constructor.
Qed.
Lemma drop_while_Forall {A} (f : A -> bool) (P : A -> Prop) l : Forall P l -> Forall P (drop_while f l).
Proof. induction 1; cbn; [done|]. by destruct (f _); [|constructor]. Qed.
Lemma drop_while_end_Forall {A} (f : A -> bool) (P : A -> Prop) l : Forall P l -> Forall P (drop_while_end f l).
Proof. intros Hl. by apply Forall_rev, drop_while_Forall, Forall_rev. Qed.
Lemma drop_while_length {A} (f : A -> bool) l : (length (drop_while f l) <= length l)%nat.
Proof. induction l; cbn; [lia|]. destruct (f _); cbn; lia. Qed.
Lemma trim_hyphens_length l : (length (trim_hyphens l) <= length l)%nat.
Proof.
  unfold trim_hyphens, drop_while_end. rewrite length_rev. etrans; [apply drop_while_length|]. rewrite length_rev. apply drop_while_length.
Qed.
Lemma sanitize_bytes_spec s : Forall (fun c => cls_inner c = true) (sanitize_bytes s) /\ (length (sanitize_bytes s) <= 30)%nat.
Proof.
  unfold sanitize_bytes. set (out := trim_hyphens _).
  assert (Forall (fun c => cls_inner c = true) out) as Hout by (by apply drop_while_end_Forall, drop_while_Forall, runes_plain).
  destruct (Z.ltb_spec 30 (Z.of_nat (length out))); [|split; [done|lia]].
  split; [by apply drop_while_end_Forall, drop_while_Forall, Forall_take|].
  etrans; [apply trim_hyphens_length|]. rewrite length_take. lia.
Qed.
Lemma sanitize_spec s : plain (sanitizeHandle s) /\ sanitizeHandle s <> "" /\ (String.length (sanitizeHandle s) <= 30)%nat.
Proof.
  destruct (sanitize_bytes_spec s) as [Hp Hl]. unfold sanitizeHandle. destruct (sanitize_bytes s) as [|b l].
  - split_and!; [by vm_compute; repeat constructor|done|cbn; lia].
  - split_and!; [by apply plain_of_bytes|done|by rewrite length_of_bytes].
Qed.
(** A root with a number after it. *)
Lemma suffixed_spec root i : plain root -> 0 <= i -> plain (root +:+ "-" +:+ itoa i) /\ isReservedHandle (root +:+ "-" +:+ itoa i) = false.
Proof.
  intros Hr Hi. assert (plain (root +:+ "-" +:+ itoa i)) as Hp.
  { apply plain_app; [done|]. apply plain_app; [by repeat constructor|]. apply itoa_bytes; [done|].
    unfold cls_inner, cls_handle, cls_lower, cls_digit, between. intros b Hb. lia. }
  split; [done|]. rewrite plain_reserved by done. apply String.eqb_neq. intros Heq.
  assert (45 ∈ bytes (root +:+ "-" +:+ itoa i)) as Hin by (rewrite !bytes_app; set_solver).
  rewrite Heq in Hin. vm_compute in Hin. set_solver.
Qed.

(** ** Handles a person may choose *)
Lemma pattern_spec h : match_full usernamePattern h = true <->
  exists a l b, runes h = a :: l ++ [b] /\ cls_handle a = true /\ (1 <= length l <= 28)%nat /\ forallb cls_inner l = true /\ cls_handle b = true.
Proof.
  unfold match_full, usernamePattern. rewrite re_match_spec, matches_seq. split.
  - intros (l1 & l2 & Heq & (a & -> & Ha)%matches_class & (l3 & l4 & -> & [Hl Hi]%matches_rrange & (b & -> & Hb)%matches_class)%matches_seq).
    exists a, l3, b. split_and!; try done; lia.
  - intros (a & l & b & Heq & Ha & Hl & Hi & Hb). exists [a], (l ++ [b]). split_and!; [done|by constructor|].
    apply matches_seq. exists l, [b]. split_and!; [done| |by constructor]. apply matches_rrange. split; [lia|done].
Qed.
End handles.
End AccountHandles.
