(* ===== verification/AccountLaws.v ===== *)
(** * What accounts, sign-ins and keys promise

    Who is signed in, whose a key is and how often a code buys one, and what the
    handle of an account can be: of every interleaving of every route. *)
From S2P Require Import Prelude GoText Regex Hmac Links Tokens Threads AccountStore Accounts AccountHandles.

Open Scope string_scope.
Open Scope list_scope.
Open Scope Z_scope.

Module AccountLaws.
Import Hmac Links Tokens AccountStore Accounts AccountHandles.

Section laws.
Context `{tables : UnicodeTables} `{jwt : Jwt} `{outside : Outside}.

Lemma fst_once {A B} (l : list (A * B)) x y z : NoDup l.*1 -> (x, y) ∈ l -> (x, z) ∈ l -> y = z.
Proof.
  induction l as [|[x' y'] l IH]; [by intros _ ?%not_elem_of_nil|]. cbn. intros [Hx Hn]%NoDup_cons.
  intros [Hy|Hy]%elem_of_cons [Hz|Hz]%elem_of_cons; simplify_eq; [done| | |by apply IH].
  - exfalso. apply Hx. by apply (list_elem_of_fmap_2 fst _ _ Hz).
  - exfalso. apply Hx. by apply (list_elem_of_fmap_2 fst _ _ Hy).
Qed.
(** ** The table of accounts *)
Definition fits (r : User) : Prop :=
  isReservedHandle (GithubUsername r) = false /\
  if UsernameChosen r then match_full usernamePattern (GithubUsername r) = true else plain (GithubUsername r).
(** The number of a GitHub account, or one above all of them. *)
Definition numbered (r : User) : Prop := Provider r = "github" /\ ProviderUserID r = itoa (GithubID r) \/ 2 ^ 62 <= GithubID r.
Definition row_identity (r : User) : Identity := (Provider r, ProviderUserID r).

Record UserInv (us : gmap Z User) (reg : list (Z * Identity)) : Prop := {
  row_registered : forall u r, us !! u = Some r -> (u, row_identity r) ∈ reg;
  rows_numbered : forall u r, us !! u = Some r -> numbered r;
  handles_fit : forall u r, us !! u = Some r -> fits r;
  handles_apart : forall u u' r r', us !! u = Some r -> us !! u' = Some r' ->
    to_lower (GithubUsername r) = to_lower (GithubUsername r') -> u = u';
  registered_once : NoDup reg.*1
}.
Lemma find_user_some f w u r : find_user f w = Some (u, r) -> users w !! u = Some r /\ f r = true.
Proof. unfold find_user. intros [Hin Hf]%find_some. split; [|exact Hf]. by apply elem_of_map_to_list, list_elem_of_In. Qed.
Lemma taken_false w but h u r : handle_taken w but h = false -> users w !! u = Some r -> but <> Some u ->
  to_lower (GithubUsername r) <> to_lower h.
Proof.
  intros Ht Hu Hb Heq. apply not_true_iff_false in Ht. apply Ht. unfold handle_taken. apply existsb_exists.
  exists (u, r). split; [by apply list_elem_of_In, elem_of_map_to_list|]. cbn. rewrite Heq, String.eqb_refl, andb_true_r.
  apply negb_true_iff, bool_decide_eq_false. congruence.
Qed.
(** A row that is the same person's, with the handle it had or one nobody has. *)
Lemma user_inv_update us reg u r r' : UserInv us reg -> us !! u = Some r ->
  row_identity r' = row_identity r -> GithubID r' = GithubID r -> fits r' ->
  (GithubUsername r' = GithubUsername r \/
   forall u0 r0, us !! u0 = Some r0 -> u0 <> u -> to_lower (GithubUsername r0) <> to_lower (GithubUsername r')) ->
  UserInv (<[u := r']> us) reg.
Proof.
  intros [Hr Hn Hf Ha Ho] Hu Hid Hg Hfit Hname. split; [..|done].
  - intros v s [[<- <-]|[? ?]]%lookup_insert_Some; [rewrite Hid|]; auto.
  - intros v s [[<- <-]|[? ?]]%lookup_insert_Some; [|eauto]. specialize (Hn u r Hu). unfold numbered, row_identity in *.
    injection Hid as -> ->. by rewrite Hg.
  - intros v s [[<- <-]|[? ?]]%lookup_insert_Some; eauto.
  - assert (forall u0 r0, us !! u0 = Some r0 -> u0 <> u -> to_lower (GithubUsername r0) <> to_lower (GithubUsername r')) as Hapart.
    { destruct Hname as [->|Hname]; [|exact Hname]. intros u0 r0 Hu0 Hne Heq. apply Hne. by eapply Ha. }
    intros v v' s s' [[<- <-]|[? ?]]%lookup_insert_Some [[<- <-]|[? ?]]%lookup_insert_Some Heq; [done| | |by eapply Ha].
    + exfalso. by eapply (Hapart v' s').
    + exfalso. by eapply (Hapart v s).
Qed.
Lemma user_inv_insert w id g h provider pid p x : UserInv (users w) (registered w) ->
  plain h -> isReservedHandle h = false -> (provider = "github" /\ pid = itoa g \/ 2 ^ 62 <= g) ->
  insert_user id g h provider pid p w = Ok x -> UserInv (users x.2) (registered x.2) /\ (x.1.1, (provider, pid)) ∈ registered x.2.
Proof.
  intros [Hr Hn Hf Ha Ho] Hp Hres Hg. unfold insert_user. destruct (bool_decide _ || bool_decide _) eqn:Hnew; [done|].
  apply orb_false_iff in Hnew as [Hid%bool_decide_eq_false Hnew%bool_decide_eq_false]. apply eq_None_not_Some in Hid.
  destruct (_ || _ || handle_taken w None h) eqn:Ht; [done|]. apply orb_false_iff in Ht as [_ Ht].
  destruct (negb _); [done|]. intros [= <-]. cbn. split; [|set_solver]. split.
  - intros u r [[<- <-]|[_ Hu]]%lookup_insert_Some; [set_solver|]. specialize (Hr u r Hu). set_solver.
  - intros u r [[<- <-]|[_ Hu]]%lookup_insert_Some; eauto.
  - intros u r [[<- <-]|[_ Hu]]%lookup_insert_Some; eauto. by split.
  - intros u u' r r' [[<- <-]|[? Hu]]%lookup_insert_Some [[<- <-]|[? Hu']]%lookup_insert_Some Heq; [done| | |by eapply Ha].
    + exfalso. by eapply taken_false.
    + exfalso. by eapply taken_false.
  - rewrite fmap_app. apply NoDup_app. split_and!; [done| |apply NoDup_singleton]. set_solver.
Qed.
Lemma user_inv_upsert w (f : User -> bool) p fresh x : UserInv (users w) (registered w) ->
  (forall x, fresh = Ok x -> UserInv (users x.2) (registered x.2) /\ registered w ⊆ registered x.2) ->
  upsert (find_user f w) p fresh w = Ok x -> UserInv (users x.2) (registered x.2) /\ registered w ⊆ registered x.2.
Proof.
  intros Hi Hfresh. unfold upsert. destruct (find_user f w) as [[u r]|] eqn:Hfind; [|apply Hfresh].
  destruct (profile_fits p); [|done]. intros [= <-]. cbn. split; [|done].
  apply find_user_some in Hfind as [Hu _]. eapply user_inv_update; [done..| |by left]. exact (handles_fit _ _ Hi u r Hu).
Qed.
Lemma insert_registers id g h provider pid p w x : insert_user id g h provider pid p w = Ok x -> registered w ⊆ registered x.2.
Proof. unfold insert_user. repeat case_match; try done. intros [= <-]. cbn. set_solver. Qed.

(** ** Everything that is kept *)

(** Whom a provider's answer names. *)
Definition told (provider body : string) : option Identity :=
  if String.eqb provider "github" then p ← decode_github body; Some ("github", itoa (ID p))
  else p ← fetchProviderProfile provider body; Some (provider, ProfileID p).
(** The provider took the code for a token, and named [i] for the token. *)
Definition named (w : World) (provider code : string) (i : Identity) : Prop :=
  exists token body, (provider, code, token) ∈ exchanged w /\ (provider, token, body) ∈ answered w /\ told provider body = Some i.
(** GitHub has not numbered its accounts up to 2^62. *)
Definition sane (w : World) : Prop := forall token body p, ("github", token, body) ∈ answered w -> decode_github body = Some p -> ID p < 2 ^ 62.
Definition signed_in_by (w : World) (provider code : string) (u : Z) : Prop := exists i, named w provider code i /\ (u, i) ∈ registered w.

Record Grows (w w' : World) : Prop := {
  more_registered : registered w ⊆ registered w';
  more_exchanged : exchanged w ⊆ exchanged w';
  more_answered : answered w ⊆ answered w';
  more_given : given w ⊆ given w';
  more_minted : minted w ⊆ minted w'
}.
#[export] Instance acct_grows_preorder : PreOrder Grows.
Proof. split; [by split|]. intros x y z [? ? ? ? ?] [? ? ? ? ?]. split; set_solver. Qed.
Lemma sane_before w w' : Grows w w' -> sane w' -> sane w.
Proof. intros Hg Hs t b p Hin. apply (Hs t b p). by apply Hg. Qed.
Lemma signed_in_later w w' v c u : Grows w w' -> signed_in_by w v c u -> signed_in_by w' v c u.
Proof. intros Hg (i & (t & b & ? & ? & ?) & ?). exists i. split; [exists t, b; split_and!; [by apply Hg..|done]|by apply Hg]. Qed.

Record Inv (w : World) : Prop := {
  user_part : UserInv (users w) (registered w);
  codes_given : forall s x c, sessions w !! s = Some x -> ExchangeCode x = Some c -> exists u, SessionUser x = Some u /\ (c, u) ∈ given w;
  given_for : forall c u, (c, u) ∈ given w -> sane w -> exists code, signed_in_by w "github" code u;
  keys_minted : forall k r, keys w !! k = Some r -> exists m, (k, (KeyUser r, KeyHash r), m) ∈ minted w;
  minted_for : forall k u h c, (k, (u, h), Some c) ∈ minted w -> (c, u) ∈ given w
}.

Definition allowed {X} (o : Op X) (w : World) : Prop :=
  match o with
  | UpsertUser _ h _ => plain h /\ isReservedHandle h = false
  | UpsertUserByProvider g h _ _ => plain h /\ isReservedHandle h = false /\ 2 ^ 62 <= g
  | ConfirmOwnHandle _ h => match_full usernamePattern h = true
  | SetUsername _ h => match_full usernamePattern h = true /\ isReservedHandle h = false
  | CreateAPIKey u _ _ _ (Some c) => (c, u) ∈ given w
  | UpdateCLISessionWithCode _ _ u _ => sane w -> exists code, signed_in_by w "github" code u
  | _ => True
  end.
Definition learned {X} (o : Op X) : X -> World -> Prop :=
  match o in Op X return X -> World -> Prop with
  | UpsertUser g _ _ => fun r w => match r with Ok (u, _) => g < 2 ^ 62 -> (u, ("github", itoa g)) ∈ registered w | Err _ => True end
  | UpsertUserByProvider _ _ v p => fun r w => match r with Ok (u, _) => (u, (v, ProfileID p)) ∈ registered w | Err _ => True end
  | OAuthExchange v code => fun r w => match r with Ok t => (v, code, t) ∈ exchanged w | Err _ => True end
  | FetchProfile v t => fun r w => match r with Ok b => (v, t, b) ∈ answered w | Err _ => True end
  | ExchangeCLISession code _ => fun r w => match r with Ok s => exists u, SessionUser s = Some u /\ (code, u) ∈ given w | Err _ => True end
  | CreateAPIKey u h _ _ m => fun r w => match r with Ok k => (k, (u, h), m) ∈ minted w | Err _ => True end
  | GetAPIKeyByHash h => fun r w => match r with Ok (k, u, _) => exists m, (k, (u, h), m) ∈ minted w | Err _ => True end
  | _ => fun _ _ => True
  end.
Lemma allowed_stays X (o : Op X) w w' : Grows w w' -> allowed o w -> allowed o w'.
Proof.
  intros Hg. destruct o; cbn; try done.
  - destruct made_for; [|done]. apply Hg.
  - intros Hs Hsane. destruct (Hs (sane_before _ _ Hg Hsane)) as [by_code ?]. exists by_code. by eapply signed_in_later.
Qed.
Lemma learned_stays X (o : Op X) x w w' : Grows w w' -> learned o x w -> learned o x w'.
Proof.
  intros Hg. destruct o; cbn; try done; destruct x as [x|]; try done.
  - destruct x. intros Hl Hlt. by apply Hg, Hl.
  - destruct x. apply Hg.
  - apply Hg.
  - destruct x as [[]]. intros [m ?]. exists m. by apply Hg.
  - intros (u & ? & ?). exists u. split; [done|by apply Hg].
  - apply Hg.
  - apply Hg.
Qed.

(** Only the accounts move. *)
Lemma inv_users w us reg : Inv w -> UserInv us reg -> registered w ⊆ reg -> Inv (set_users us reg w) /\ Grows w (set_users us reg w).
Proof.
  intros [Hu Hc Hg Hk Hm] Hi Hr. assert (Grows w (set_users us reg w)) as Hgrow by (by split). split; [|done].
  split; [exact Hi|exact Hc| |exact Hk|exact Hm]. intros c u Hin Hs. destruct (Hg c u Hin Hs) as [by_code ?]. exists by_code. by eapply signed_in_later.
Qed.
(** A part beside the accounts moves. *)
Lemma inv_sessions w s x r : Inv w ->
  (forall c, ExchangeCode x = Some c -> exists u, SessionUser x = Some u /\ (c, u) ∈ given w) ->
  Inv (set_sessions (<[s := x]> (sessions w)) (given w) r w) /\ Grows w (set_sessions (<[s := x]> (sessions w)) (given w) r w).
Proof.
  intros [Hu Hc Hg Hk Hm] Hx. split; [|by split]. split; [exact Hu| |exact Hg|exact Hk|exact Hm]. cbn.
  intros s0 y c [[<- <-]|[_ Hs]]%lookup_insert_Some; [apply Hx|]. by apply (Hc s0).
Qed.
Lemma inv_orgs w t i : Inv w -> Inv (set_orgs t i w) /\ Grows w (set_orgs t i w).
Proof. intros [Hu Hc Hg Hk Hm]. by split. Qed.
Lemma inv_keys w ks : Inv w -> (forall k r, ks !! k = Some r -> exists m, (k, (KeyUser r, KeyHash r), m) ∈ minted w) ->
  Inv (set_keys ks (minted w) w) /\ Grows w (set_keys ks (minted w) w).
Proof. intros [Hu Hc Hg Hk Hm] Hks. by split. Qed.
Lemma inv_heard w e a : Inv w -> exchanged w ⊆ e -> answered w ⊆ a -> Inv (set_heard e a w) /\ Grows w (set_heard e a w).
Proof.
  intros [Hu Hc Hg Hk Hm] He Ha. assert (Grows w (set_heard e a w)) as Hgrow by (by split). split; [|done].
  split; [exact Hu|exact Hc| |exact Hk|exact Hm]. intros c u Hin Hs.
  destruct (Hg c u Hin (sane_before _ _ Hgrow Hs)) as [by_code ?]. exists by_code. by eapply signed_in_later.
Qed.

(** ** Every operation keeps it *)
Definition kept {A} (w : World) (o : Op (result DbError A)) (r : result DbError (A * World)) : Prop :=
  forall a w', r = Ok (a, w') -> Inv w' /\ Grows w w' /\ learned o (Ok a) w'.
Lemma statement_keeps {A} (o : Op (result DbError A)) c w r : Inv w -> (forall e w', learned o (Err e) w') -> kept w o r ->
  Inv (statement c w r).2 /\ Grows w (statement c w r).2 /\ learned o (statement c w r).1 (statement c w r).2.
Proof.
  intros Hi He Hr. unfold statement.
  destruct (fails c) as [[]|], r as [[a w']|e]; cbn; try (by split_and!); [|by apply Hr].
  destruct (Hr a w' eq_refl) as (? & ? & ?). by split_and!.
Qed.
Lemma upsert_any w f id g h v pid p u r w' : Inv w -> plain h -> isReservedHandle h = false ->
  (v = "github" /\ pid = itoa g \/ 2 ^ 62 <= g) ->
  upsert (find_user f w) p (insert_user id g h v pid p w) w = Ok (u, r, w') ->
  Inv w' /\ Grows w w' /\
  ((exists s, f s = true /\ numbered s /\ (u, row_identity s) ∈ registered w') \/ (u, (v, pid)) ∈ registered w').
Proof.
  intros Hi Hp Hres Hg Heq. pose proof (user_part _ Hi) as Hu.
  assert (UserInv (users w') (registered w') /\ registered w ⊆ registered w') as [Hu' Hreg].
  { eapply (user_inv_upsert w f p _ (u, r, w') Hu); [|exact Heq]. intros x Hx.
    split; [by eapply user_inv_insert|by eapply insert_registers]. }
  assert (w' = set_users (users w') (registered w') w) as Hw.
  { unfold upsert, insert_user in Heq. repeat case_match; simplify_eq; done. }
  destruct (inv_users w (users w') (registered w') Hi Hu' Hreg) as [Hi' Hgrow]. rewrite <- Hw in Hi', Hgrow.
  split_and!; [done..|]. unfold upsert in Heq. destruct (find_user f w) as [[i s]|] eqn:Hfind.
  - left. exists s. destruct (profile_fits p); [|done]. injection Heq as <- _ _. apply find_user_some in Hfind as [Hs Hf].
    split_and!; [done|exact (rows_numbered _ _ Hu i s Hs)|]. by apply Hreg, (row_registered _ _ Hu).
  - right. by eapply (user_inv_insert _ _ _ _ _ _ _ (u, r, w')) in Heq as [_ ?].
Qed.
Lemma upsert_keeps w id g h p : Inv w -> allowed (UpsertUser g h p) w -> kept w (UpsertUser g h p) (sql_upsert_user id g h p w).
Proof.
  intros Hi [Hp Hres] [u r] w' Heq. eapply upsert_any in Heq as (? & ? & Hl); [|done..|by left]. split_and!; [done..|].
  cbn. intros Hlt. destruct Hl as [(s & Hs%Z.eqb_eq & Hn & Hin)|]; [|done]. destruct Hn as [[Hv Hpid]|?]; [|lia].
  unfold row_identity in Hin. by rewrite Hv, Hpid, Hs in Hin.
Qed.
Lemma upsert_by_provider_keeps w id g h v p : Inv w -> allowed (UpsertUserByProvider g h v p) w ->
  kept w (UpsertUserByProvider g h v p) (sql_upsert_user_by_provider id g h v p w).
Proof.
  intros Hi (Hp & Hres & Hg) [u r] w' Heq. eapply upsert_any in Heq as (? & ? & Hl); [|done..|by right]. split_and!; [done..|].
  cbn. destruct Hl as [(s & [Hv%String.eqb_eq Hpid%String.eqb_eq]%andb_true_iff & _ & Hin)|]; [|done].
  unfold row_identity in Hin. by rewrite Hv, Hpid in Hin.
Qed.
(** A statement that changes one row of the accounts. *)
Lemma update_keeps w (o : Op (result DbError User)) u f : Inv w ->
  (forall r r', users w !! u = Some r -> f r = Ok r' -> row_identity r' = row_identity r /\ GithubID r' = GithubID r /\ fits r' /\
    (GithubUsername r' = GithubUsername r \/
     forall u0 r0, users w !! u0 = Some r0 -> u0 <> u -> to_lower (GithubUsername r0) <> to_lower (GithubUsername r'))) ->
  (forall r w', learned o (Ok r) w') -> kept w o (update_user u f w).
Proof.
  intros Hi Hf Hl r' w' Heq. unfold update_user in Heq. destruct (users w !! u) as [r|] eqn:Hu; [|done].
  destruct (f r) as [r1|] eqn:Hr; [|done]. injection Heq as <- <-. destruct (Hf r r1 eq_refl Hr) as (? & ? & ? & ?).
  destruct (inv_users w (<[u := r1]> (users w)) (registered w) Hi) as [? ?]; [|done|by split_and!].
  by eapply user_inv_update; [exact (user_part _ Hi)|..].
Qed.
Lemma confirm_keeps w u h : Inv w -> allowed (ConfirmOwnHandle u h) w -> kept w (ConfirmOwnHandle u h) (sql_confirm u h w).
Proof.
  intros Hi Hp. apply update_keeps; [done| |done]. intros r r' Hr Hf.
  destruct (String.eqb_spec (GithubUsername r) h) as [Hh|]; [|done]. destruct (UsernameChosen r); [done|]. injection Hf as <-.
  split_and!; [done..| |by left]. split; [exact (proj1 (handles_fit _ _ (user_part _ Hi) u r Hr))|]. cbn. by rewrite Hh.
Qed.
Lemma set_username_keeps w u h : Inv w -> allowed (SetUsername u h) w -> kept w (SetUsername u h) (sql_set_username u h w).
Proof.
  intros Hi [Hp Hres]. apply update_keeps; [done| |done]. intros r r' Hr Hf.
  destruct (handle_taken w (Some u) h) eqn:Ht; [done|]. destruct (varchar 255 h); [|done]. injection Hf as <-.
  split_and!; [done..|]. right. intros u0 r0 Hu0 Hne. eapply taken_false; [done..|]. congruence.
Qed.
Lemma discoverable_keeps w u b : Inv w -> kept w (UpdateUserDiscoverable u b) (sql_discoverable u b w).
Proof.
  intros Hi. apply update_keeps; [done| |done]. intros r r' Hr [= <-]. split_and!; [done..| |by left].
  exact (handles_fit _ _ (user_part _ Hi) u r Hr).
Qed.
Lemma issue_keeps w u : Inv w -> kept w (IssueGitHubOrgSyncGeneration u) (sql_issue u w).
Proof.
  intros Hi g w' Heq. unfold sql_issue in Heq. destruct (users w !! u) as [r|] eqn:Hu; [|done]. destruct (_ <? _); [|done].
  injection Heq as <- <-. pose proof (user_part _ Hi) as Hui.
  match goal with |- Inv (set_users ?us _ _) /\ _ => destruct (inv_users w us (registered w) Hi) as [? ?]; [|done|by split_and!] end.
  eapply user_inv_update; [done..| |by left]. exact (handles_fit _ _ Hui u r Hu).
Qed.
Lemma delete_keeps w u : Inv w -> Inv (sql_delete_user u w) /\ Grows w (sql_delete_user u w).
Proof.
  intros Hi. unfold sql_delete_user.
  destruct (inv_orgs w (filter (fun p => p.1.1 <> u) (orgs w)) (installed w) Hi) as [Hi1 Hg1].
  destruct (inv_keys _ (filter (fun p => KeyUser p.2 <> u) (keys w)) Hi1) as [Hi2 Hg2].
  { intros k r [Hk _]%map_lookup_filter_Some. exact (keys_minted _ Hi k r Hk). }
  destruct (inv_users _ (delete u (users w)) (registered w) Hi2) as [Hi3 Hg3]; [|done|split; [exact Hi3|]].
  - destruct (user_part _ Hi) as [Hr Hn Hf Ha Ho]. split; [..|exact Ho].
    + intros v r [_ Hv]%lookup_delete_Some. eauto.
    + intros v r [_ Hv]%lookup_delete_Some. eauto.
    + intros v r [_ Hv]%lookup_delete_Some. eauto.
    + intros v v' r r' [_ Hv]%lookup_delete_Some [_ Hv']%lookup_delete_Some. eauto.
  - etrans; [exact Hg1|]. etrans; [exact Hg2|exact Hg3].
Qed.
Lemma create_key_keeps w id u h p l m : Inv w -> allowed (CreateAPIKey u h p l m) w -> kept w (CreateAPIKey u h p l m) (sql_create_key id u h p l m w).
Proof.
  intros Hi Ha k w' Heq. unfold sql_create_key in Heq. destruct (_ || _); [done|]. injection Heq as <- <-. destruct Hi as [Hu Hc Hg Hk Hm].
  split_and!; [split; [exact Hu|exact Hc|exact Hg|..]|split; cbn; set_solver|cbn; set_solver]; cbn.
  - intros k r [[<- <-]|[_ Hr]]%lookup_insert_Some; [exists m; set_solver|]. destruct (Hk k r Hr) as [m' ?]. exists m'. set_solver.
  - intros k v hash c [Hin|Hin%list_elem_of_singleton]%elem_of_app; [by eapply Hm|]. by injection Hin as -> -> -> <-.
Qed.
Lemma update_key_keeps w k f : Inv w -> (forall r r', f r = Some r' -> KeyUser r' = KeyUser r /\ KeyHash r' = KeyHash r) ->
  Inv (update_key k f w) /\ Grows w (update_key k f w).
Proof.
  intros Hi Hf. unfold update_key. destruct (keys w !! k) as [r|] eqn:Hk; cbn; [|by split]. destruct (f r) as [r'|] eqn:Hr; cbn; [|by split].
  apply inv_keys; [done|]. intros k0 r0 [[<- <-]|[_ Hk0]]%lookup_insert_Some; [|by apply (keys_minted _ Hi)].
  destruct (Hf r r' Hr) as [-> ->]. by apply (keys_minted _ Hi).
Qed.
Lemma get_key_spec w h k u n : sql_get_key h w = Ok (k, u, n) ->
  exists r, keys w !! k = Some r /\ KeyUser r = u /\ KeyHash r = h /\ RevokedAt r = None /\ is_Some (users w !! u).
Proof.
  unfold sql_get_key. destruct (find _ _) as [[k' r]|] eqn:Hf; [|done]. intros [= <- <- <-].
  apply find_some in Hf as [Hin [[Hh Hr]%andb_true_iff Hu]%andb_true_iff]. exists r.
  apply list_elem_of_In, elem_of_map_to_list in Hin. apply String.eqb_eq in Hh. cbn in *.
  split_and!; [done..| |]; [by destruct (RevokedAt r)|]. destruct (users w !! KeyUser r); [by eexists|done].
Qed.
Lemma session_code_keeps w st code u n : Inv w -> allowed (UpdateCLISessionWithCode st code u n) w ->
  kept w (UpdateCLISessionWithCode st code u n) (sql_session_code st code u n w).
Proof.
  intros Hi Ha [] w' Heq. unfold sql_session_code in Heq. destruct (sessions w !! st) as [s|] eqn:Hs; [|injection Heq as <-; by split_and!].
  destruct (existsb _ _); [done|]. injection Heq as <-. destruct Hi as [Hu Hc Hg Hk Hm].
  split_and!; [|split; cbn; set_solver|done]. split; [exact Hu| | |exact Hk|]; cbn.
  - intros s0 x c [[<- <-]|[_ Hx]]%lookup_insert_Some Hcode.
    + injection Hcode as <-. exists u. split; [done|set_solver].
    + destruct (Hc s0 x c Hx Hcode) as (v & ? & ?). exists v. split; [done|set_solver].
  - intros c v [Hin|Hin%list_elem_of_singleton]%elem_of_app; [exact (Hg c v Hin)|]. injection Hin as -> ->. exact Ha.
  - intros k v h c Hin. apply elem_of_app. left. by eapply Hm.
Qed.
Lemma exchange_keeps w code st : Inv w -> kept w (ExchangeCLISession code st) (sql_exchange code st w).
Proof.
  intros Hi x w' Heq. unfold sql_exchange in Heq. destruct (find _ _) as [[s0 s]|] eqn:Hf; [|done].
  apply find_some in Hf as [Hin [[[Hcode _]%andb_true_iff _]%andb_true_iff _]%andb_true_iff].
  apply list_elem_of_In, elem_of_map_to_list in Hin. apply bool_decide_eq_true in Hcode. injection Heq as <- <-.
  destruct (codes_given _ Hi s0 s code Hin Hcode) as (u & Hu & Hgiven).
  match goal with |- Inv (set_sessions (<[?k := ?x]> _) _ ?r _) /\ _ => destruct (inv_sessions w k x r Hi) as [? ?] end.
  - cbn. intros c Hc. assert (c = code) as -> by (cbn in Hcode; congruence). by exists u.
  - split_and!; [done..|]. by exists u.
Qed.
Lemma insert_session_keeps w st port cs : Inv w -> kept w (InsertCLISession st port cs) (sql_insert_session st port cs w).
Proof.
  intros Hi [] w' Heq. unfold sql_insert_session in Heq. destruct (is_some_b _); [done|]. injection Heq as <-.
  match goal with |- Inv (set_sessions (<[?k := ?x]> _) _ ?r _) /\ _ => destruct (inv_sessions w k x r Hi) as [? ?] end; [done|by split_and!].
Qed.
Lemma exec_keeps {X} (o : Op X) c w : Inv w -> allowed o w ->
  Inv (exec o c w).2 /\ Grows w (exec o c w).2 /\ learned o (exec o c w).1 (exec o c w).2.
Proof.
  intros Hi Ha. destruct o; cbn [exec]; try (apply (statement_keeps _ c w); [done|done|]).
  - by apply upsert_keeps.
  - by apply upsert_by_provider_keeps.
  - by apply confirm_keeps.
  - intros r w' Heq. unfold some_or in Heq. destruct (_ !! _); [|done]. injection Heq as <- <-. by split_and!.
  - intros r w' Heq. unfold some_or in Heq. destruct (find_user _ _); [|done]. injection Heq as <- <-. by split_and!.
  - by apply set_username_keeps.
  - by apply discoverable_keeps.
  - intros [] w' [= <-]. by destruct (delete_keeps w u Hi).
  - by apply create_key_keeps.
  - intros [[k u] n] w' Heq. destruct (sql_get_key hash w) as [[[k1 u1] n1]|] eqn:Hk; [|done]. injection Heq as -> -> -> <-.
    split_and!; [done..|]. apply get_key_spec in Hk as (r & Hr & <- & <- & _). by apply (keys_minted _ Hi).
  - intros [] w' [= <-]. destruct (update_key_keeps w key (fun k => if KeyUser k =? u
      then Some (mkApiKey (KeyUser k) (KeyHash k) (KeyPrefix k) (Label k) (KeyCreatedAt k) (LastUsed k) (Some (db_now w))) else None) Hi); [|by split_and!].
    intros r r' Hr. destruct (_ =? _); [|done]. by injection Hr as <-.
  - intros [] w' [= <-]. destruct (update_key_keeps w key (fun k =>
      Some (mkApiKey (KeyUser k) (KeyHash k) (KeyPrefix k) (Label k) (KeyCreatedAt k) (Some (db_now w)) (RevokedAt k))) Hi); [|by split_and!].
    by intros r r' [= <-].
  - by apply insert_session_keeps.
  - intros r w' Heq. unfold some_or in Heq. destruct (_ !! _); [|done]. injection Heq as <- <-. by split_and!.
  - by apply session_code_keeps.
  - by apply exchange_keeps.
  - by apply issue_keeps.
  - intros [] w' Heq. unfold install_tx in Heq. repeat case_match; simplify_eq; [by split_and!|]. by destruct (inv_orgs w (delete_outside u ((fun o => to_lower (Login o)) <$> l)
      (foldl (fun t o => upsert_org u (db_now w) o t) (orgs w) l)) (installed w ++ [(u, issued, l)]) Hi).
  - intros [] w' [= <-]. unfold sql_set_visibility. destruct (orgs w !! (u, login)) as [r|]; [|by split_and!].
    by destruct (inv_orgs w (<[(u, login) := mkOrgRow (RowOrgID r) (RowAvatar r) visible (FetchedAt r)]> (orgs w)) (installed w) Hi).
  - destruct (reply c) as [t|]; cbn; [|by split_and!].
    destruct (inv_heard w (exchanged w ++ [(provider, code, t)]) (answered w) Hi); [set_solver..|]. split_and!; [done..|set_solver].
  - destruct (reply c) as [t|]; cbn; [|by split_and!].
    destruct (inv_heard w (exchanged w) (answered w ++ [(provider, token, t)]) Hi); [set_solver..|]. split_and!; [done..|set_solver].
  - by split_and!.
  - destruct (entropy c); cbn; [|by split_and!]. split_and!; [by destruct Hi|by split|done].
  - by split_and!.
Qed.

(** ** The routes *)
Section routes.
Variables (cfg : Config) (a : Asked).
(** The code a sign-in brings, and from which provider. *)
Definition sign_in (q : Request) : option (string * string) :=
  match q with QCallback _ _ code => Some ("github", code) | QProviderCallback v _ _ code => Some (v, code) | _ => None end.
(** The request carries a session of [u], or a key made for [u]. *)
Definition acts (u : Z) (w : World) : Prop :=
  (exists now token name, (a.1.1 = Some token \/ strip_prefix "Bearer " a.1.2 = Some token) /\ ValidateToken (JWTSecret cfg) token now = Some (u, name)) \/
  (exists token k m, strip_prefix "Bearer " a.1.2 = Some token /\ IsAPIKey token = true /\ (k, (u, HashAPIKey token), m) ∈ minted w).
(** The token is the server's signature over claims that name [u], for a week. *)
Definition session_of (u : Z) (token : string) : Prop := exists name now,
  jwt_sign "HS256" (JWTSecret cfg)
    (mkPayload [("user_id", uuid_text u); ("username", name)] ((now + 7 * 24 * hour) / second) (now / second)) = Some token.
Definition warranted (t : Response) (w : World) : Prop :=
  match t with
  | SignedIn u token => session_of u token /\ (sane w -> exists v code, sign_in a.2 = Some (v, code) /\ signed_in_by w v code u)
  | NewKey k u plaintext _ => exists m, (k, (u, HashAPIKey plaintext), m) ∈ minted w /\
    match a.2 with QCLIExchange code _ => m = Some code /\ (code, u) ∈ given w | _ => acts u w end
  | Done u _ => acts u w
  | _ => True
  end.
#[local] Notation ok := (safe executes Inv Grows warranted).

Lemma acct_do {X B} (o : Op X) (Q : B -> World -> Prop) (f : X -> prog Op Response B) w : Inv w -> allowed o w ->
  (forall x w', Inv w' -> Grows w w' -> learned o x w' -> ok Q (f x) w') -> ok Q (do_ o ≫= f) w.
Proof.
  intros Hi Ha Hk. apply (safe_bind executes Inv Grows); [done|].
  apply (safe_contract executes Inv Grows (@allowed) (@learned)); [exact allowed_stays|exact learned_stays| |done..|exact Hk].
  intros Y e c x w1 w2 H1 H2 Hx. assert (exec e c w1 = (x, w2)) as He.
  { unfold executes in Hx. destruct e; try congruence. destruct (entropy c); [case_bool_decide|]; congruence. }
  pose proof (exec_keeps e c w1 H1 H2) as Hk'. rewrite He in Hk'. exact Hk'.
Qed.
Lemma acct_or_stop {X B} (o : Op (result DbError X)) (t : DbError -> Response) (Q : B -> World -> Prop) (f : X -> prog Op Response B) w :
  Inv w -> allowed o w -> (forall e w', warranted (t e) w') ->
  (forall x w', Inv w' -> Grows w w' -> learned o (Ok x) w' -> ok Q (f x) w') -> ok Q (or_stop o t ≫= f) w.
Proof.
  intros Hi Ha Ht Hk. apply (safe_call executes Inv Grows warranted (fun x w' => learned o (Ok x) w')); [done| |exact Hk].
  unfold or_stop. apply acct_do; [done..|]. intros [x|e] w' ? ? Hl; intros w2 Hr Hi2; [exact (learned_stays _ o (Ok x) _ _ Hr Hl)|apply Ht].
Qed.
Lemma unique_from_ok fuel : forall i root candidate w, Inv w -> plain root -> plain candidate -> 0 <= i ->
  (isReservedHandle candidate = false \/ (0 < fuel)%nat) ->
  ok (fun h _ => plain h /\ isReservedHandle h = false) (unique_from fuel i root candidate) w.
Proof.
  induction fuel as [|fuel IH]; intros i root h w Hi Hr Hp Hn Hf; cbn [unique_from].
  - intros w' _ _. split; [done|]. destruct Hf; [done|lia].
  - destruct (suffixed_spec root i Hr Hn) as [Hsp Hsr]. destruct (isReservedHandle h) eqn:Hres; [by apply IH; [..|lia|left]|].
    apply acct_do; [done..|]. intros [r|e] w' Hi' _ _; [by apply IH; [..|lia|left]|]. intros w2 _ _. by split.
Qed.
Lemma unique_username_ok base w : Inv w -> ok (fun h _ => plain h /\ isReservedHandle h = false) (generateUniqueUsername base) w.
Proof. intros Hi. destruct (sanitize_spec base) as (? & _). apply unique_from_ok; [done..|lia|right; lia]. Qed.
Lemma authenticate_ok w : Inv w -> ok (fun r w => match r with Some (u, _) => acts u w | None => True end) (authenticate cfg a.1.1 a.1.2) w.
Proof.
  intros Hi. unfold authenticate. apply acct_do; [done..|]. intros now w1 H1 _ _.
  destruct (a.1.1 ≫= _) as [[u n]|] eqn:Hc.
  - intros w2 _ _. left. destruct (a.1.1) as [t|] eqn:Ht; [|done]. exists now, t, n. split; [by left|exact Hc].
  - destruct (strip_prefix _ _) as [t|] eqn:Hb; [|done]. destruct (IsAPIKey t) eqn:Hk.
    + apply acct_do; [done..|]. intros [[[k u] n]|e] w2 _ _ Hl; intros w3 Hr _; [|done]. destruct Hl as [m Hm].
      right. exists t, k, m. split_and!; [done..|]. by apply Hr.
    + intros w2 _ _. destruct (ValidateToken _ t now) as [[u n]|] eqn:Hread; [|done]. left. exists now, t, n. auto.
Qed.
Lemma required_ok (next : Z -> Handler) w : Inv w -> (forall u w', Inv w' -> acts u w' -> ok warranted (next u) w') ->
  ok warranted (AuthRequired cfg a.1.1 a.1.2 next) w.
Proof.
  intros Hi Hn. eapply (safe_call executes Inv Grows); [done|by apply authenticate_ok|].
  intros [[u n]|] w' Hi' _ Hl; [by apply Hn|done].
Qed.
Lemma acts_later u w w' : Grows w w' -> acts u w -> acts u w'.
Proof.
  intros Hg [Ht|(t & k & m & ? & ? & Hin)]; [by left|]. right. exists t, k, m. split_and!; [done..|]. by apply Hg.
Qed.

Lemma sign_in_ok p w : Inv w ->
  ok (fun r w => match r with Ok (u, _) => ID p < 2 ^ 62 -> (u, ("github", itoa (ID p))) ∈ registered w | Err _ => True end) (signInGitHubUser p) w.
Proof.
  intros Hi. unfold signInGitHubUser. eapply (safe_call executes Inv Grows); [done|by apply unique_username_ok|].
  intros h w1 H1 _ Hh. apply acct_do; [done..|]. intros [[u r]|e] w2 H2 _ Hl; [|done].
  assert (forall w', Grows w2 w' -> ID p < 2 ^ 62 -> (u, ("github", itoa (ID p))) ∈ registered w') as Hreg.
  { intros w' Hg Hlt. by apply Hg, Hl. }
  destruct (UsernameChosen r || negb (handleIsLogin (GithubUsername r) (ProfileLogin p))) eqn:Hnot; [by intros w3 ? _; apply Hreg|].
  apply orb_false_iff in Hnot as [_ [[Hpat _]%andb_true_iff _]%negb_false_iff%andb_true_iff].
  apply acct_do; [done|exact Hpat|]. intros [r'|[]] w3 H3 Hg3 _; [by intros w4 ? _; apply Hreg; etrans| |by intros w4 ? _; apply Hreg; etrans..].
  apply acct_do; [done..|]. intros r' w4 H4 Hg4 _ w5 Hg5 _. apply Hreg. by do 2 (etrans; [eassumption|]).
Qed.
Lemma fetch_ok fuel : forall n token url all w, Inv w -> ok (fun _ _ => True) (fetch_pages fuel n token url all) w.
Proof.
  induction fuel as [|fuel IH]; intros n token url all w Hi; cbn [fetch_pages]; [done|].
  apply acct_do; [done..|]. intros [[[status body] links]|e] w' Hi' _ _; [|done]. repeat case_match; try done. by apply IH.
Qed.
Lemma sync_ok token u w : Inv w -> ok (fun _ _ => True) (syncGitHubOrgs token u) w.
Proof.
  intros Hi. unfold syncGitHubOrgs. apply acct_do; [done..|]. intros [g|e] w1 H1 _ _; [|done].
  eapply (safe_call executes Inv Grows); [done|by apply fetch_ok|]. intros [l|] w2 H2 _ _; [|done].
  apply acct_do; [done..|]. by intros.
Qed.
Lemma exchange_user_ok code w : Inv w ->
  ok (fun r w => match r with Ok (u, _) => sane w -> signed_in_by w "github" code u | Err _ => True end) (exchangeGitHubUser code) w.
Proof.
  intros Hi. unfold exchangeGitHubUser. apply acct_do; [done..|]. intros [token|e] w1 H1 _ Htoken; [|done].
  apply acct_do; [done..|]. intros [body|e] w2 H2 Hg2 Hbody; [|done]. destruct (decode_github body) as [p|] eqn:Hp; [|done].
  eapply (safe_call executes Inv Grows); [done|by apply sign_in_ok|]. intros [[u r]|e] w3 H3 Hg3 Hreg; [|done].
  eapply (safe_call executes Inv Grows); [done|by apply sync_ok|]. intros [] w4 H4 Hg4 _ w5 Hg5 _ Hsane.
  assert (Grows w2 w5) as Hg by (do 2 (etrans; [eassumption|]); done).
  exists ("github", itoa (ID p)). split.
  - exists token, body. split_and!; [by apply Hg, Hg2|by apply Hg|]. cbn. by rewrite Hp.
  - apply Hg5, Hg4, Hreg. eapply (Hsane token body p); [|done]. by apply Hg.
Qed.
Lemma signed_in_ok v code u r w : Inv w -> sign_in a.2 = Some (v, code) -> (forall w', Grows w w' -> sane w' -> signed_in_by w' v code u) ->
  ok warranted (signed_in cfg u r) w.
Proof.
  intros Hi Hs Hu. unfold signed_in. apply acct_do; [done..|]. intros now w1 H1 Hg1 _ w2 Hg2 _.
  destruct (CreateToken _ _ _ _) eqn:Htoken; [|done].
  split; [by exists (GithubUsername r), now|]. intros Hsane. exists v, code. split; [done|]. apply Hu; [by etrans|done].
Qed.
Lemma callback_ok cookie state code w : Inv w -> a.2 = QCallback cookie state code -> ok warranted (GitHubCallback cfg cookie state code) w.
Proof.
  intros Hi Hq. unfold GitHubCallback. destruct (negb _); [done|]. apply acct_do; [done..|]. intros cli w1 H1 _ _.
  eapply (safe_call executes Inv Grows); [done|by apply exchange_user_ok|]. intros [[u r]|e] w2 H2 _ Hu; [|done].
  assert (forall w', Grows w2 w' -> sane w' -> signed_in_by w' "github" code u) as Hlater.
  { intros w' Hg Hs. eapply signed_in_later; [exact Hg|]. apply Hu. by eapply sane_before. }
  destruct cli as [s|e]; [|by eapply signed_in_ok; [|rewrite Hq|]].
  unfold handleCLICallback. apply acct_do; [done..|]. intros [raw|] w3 H3 Hg3 _; [|done].
  apply acct_or_stop; [done| |done|by intros; intros ???]. intros Hs. exists code. by apply Hlater.
Qed.
Lemma synthetic_large v x : 2 ^ 62 <= syntheticGitHubID v x.
Proof.
  unfold syntheticGitHubID. set (n := Z.land _ _). assert (0 <= n) as Hn by (apply Z.land_nonneg; right; lia).
  assert (Z.log2 (Z.lor n (2 ^ 62)) = Z.max (Z.log2 n) 62) as Hlog by (rewrite Z.log2_lor by lia; f_equal).
  apply Z.log2_le_pow2; [|lia]. destruct (Z.le_gt_cases (Z.lor n (2 ^ 62)) 0) as [Hz|]; [|done].
  rewrite Z.log2_nonpos in Hlog by done. lia.
Qed.
Lemma configured_provider v : providerOAuthConfig cfg v = true -> v <> "github".
Proof. intros Hc ->. vm_compute in Hc. done. Qed.
Lemma provider_callback_ok v cookie state code w : Inv w -> a.2 = QProviderCallback v cookie state code ->
  ok warranted (providerCallback cfg v cookie state code) w.
Proof.
  intros Hi Hq. unfold providerCallback. destruct (providerOAuthConfig cfg v) eqn:Hv; [|done]. apply configured_provider in Hv. cbn [negb].
  destruct (negb _); [done|]. unfold or_stop.
  eapply (safe_call executes Inv Grows warranted (fun t w => (v, code, t) ∈ exchanged w)); [done| |].
  { apply acct_do; [done..|]. intros [t|e] w1 H1 Hg1 Hl; intros w2 Hg2 _; [|done]. by apply Hg2. }
  intros token w1 H1 _ Htoken. eapply (safe_call executes Inv Grows warranted (fun b w => (v, token, b) ∈ answered w)); [done| |].
  { apply acct_do; [done..|]. intros [t|e] w2 H2 Hg2 Hl; intros w3 Hg3 _; [|done]. by apply Hg3. }
  intros body w2 H2 Hg2 Hbody. destruct (fetchProviderProfile v body) as [p|] eqn:Hp; [|done]. destruct (_ || _); [done|].
  eapply (safe_call executes Inv Grows); [done|by apply unique_username_ok|]. intros h w3 H3 Hg3 [Hh Hres].
  apply acct_do; [done|split_and!; [done..|apply synthetic_large]|]. intros [[u r]|e] w4 H4 Hg4 Hl; [|done].
  eapply signed_in_ok; [done|by rewrite Hq|]. intros w5 Hg5 _.
  assert (Grows w2 w5) as Hg by (do 2 (etrans; [eassumption|]); done).
  exists (v, ProfileID p). split; [|by apply Hg5]. exists token, body. split_and!; [by apply Hg, Hg2|by apply Hg|].
  unfold told. destruct (String.eqb_spec v "github"); [done|]. by rewrite Hp.
Qed.
Lemma exchange_code_ok code state w : Inv w -> a.2 = QCLIExchange code state -> ok warranted (CLIExchange code state) w.
Proof.
  intros Hi Hq. unfold CLIExchange. destruct (_ || _); [done|]. apply acct_or_stop; [done..|]. intros s w1 H1 _ (u & Hu & Hgiven).
  destruct (negb _); [done|]. apply acct_do; [done..|]. intros raw w2 H2 Hg2 _. unfold GenerateAPIKey. destruct raw as [raw|]; [|done].
  rewrite Hu. cbn [default from_option]. apply acct_or_stop; [done|by apply Hg2|done|]. intros k w3 H3 Hg3 Hm w4 Hg4 _.
  exists (Some code). split; [by apply Hg4|]. rewrite Hq. split; [done|]. by apply Hg4, Hg3, Hg2.
Qed.
Lemma create_key_ok label u w : Inv w -> acts u w -> a.2 = QCreateKey label -> ok warranted (CreateKey label u) w.
Proof.
  intros Hi Ha Hq. unfold CreateKey. apply acct_do; [done..|]. intros raw w2 H2 Hg2 _. unfold GenerateAPIKey. destruct raw as [raw|]; [|done].
  apply acct_or_stop; [done..|]. intros k w3 H3 Hg3 Hm w4 Hg4 _.
  exists None. split; [by apply Hg4|]. rewrite Hq. eapply acts_later; [exact Hg4|]. eapply acts_later; [exact Hg3|]. by eapply acts_later.
Qed.
(** A route of one statement. *)
Lemma one_statement_ok {X} (o : Op (result DbError X)) (t : DbError -> Response) row u w : Inv w -> acts u w -> allowed o w ->
  (forall e w', warranted (t e) w') -> ok warranted (x ← or_stop o t; mret (Done u (row x))) w.
Proof.
  intros Hi Ha Hal Ht. apply acct_or_stop; [done..|]. intros x w1 H1 Hg1 _ w2 Hg2 _. eapply acts_later; [exact Hg2|]. by eapply acts_later.
Qed.
Lemma set_username_ok name u w : Inv w -> acts u w -> ok warranted (SetMyUsername name u) w.
Proof.
  intros Hi Ha. unfold SetMyUsername. destruct (match_full _ _) eqn:Hm; [|done]. destruct (isReservedHandle _) eqn:Hr; [done|]. cbn [negb].
  apply acct_do; [done|by split|]. intros [r|[]] w1 H1 Hg1 _; try done. intros w2 Hg2 _. eapply acts_later; [exact Hg2|]. by eapply acts_later.
Qed.
Lemma state_ok {B} (Q : B -> World -> Prop) (f : string -> prog Op Response B) w : Inv w -> (forall s w', Inv w' -> ok Q (f s) w') -> ok Q (generateState ≫= f) w.
Proof.
  intros Hi Hf. eapply (safe_call executes Inv Grows warranted (fun _ _ => True)); [done| |by auto].
  unfold generateState. by apply acct_do.
Qed.
Lemma perform_ok w : Inv w -> ok warranted (perform cfg a.1.1 a.1.2 a.2) w.
Proof.
  intros Hi. destruct a.2 as [|c s k|v|v c s k|p s|k s| | | | | | | |] eqn:Hq; cbn [perform].
  - by apply state_ok.
  - by apply callback_ok.
  - unfold providerLogin. destruct (negb _); [done|]. by apply state_ok.
  - by apply provider_callback_ok.
  - unfold CLILogin. destruct (_ || _); [done|]. destruct (atoi p); [|done]. destruct (_ || _); [done|].
    apply state_ok; [done|]. intros st w1 H1. by apply acct_or_stop.
  - by apply exchange_code_ok.
  - apply required_ok; [done|]. intros u w' H' Ha. by apply (one_statement_ok _ _ Some).
  - apply required_ok; [done|]. intros u w' H' Ha. unfold UpdateMySettings. destruct shown; [|done]. by apply (one_statement_ok _ _ Some).
  - apply required_ok; [done|]. intros u w' H' Ha. by apply set_username_ok.
  - apply required_ok; [done|]. intros u w' H' Ha. by apply (one_statement_ok _ _ (fun _ => None)).
  - apply required_ok; [done|]. intros u w' H' Ha. by eapply create_key_ok.
  - apply required_ok; [done|]. intros u w' H' Ha. unfold RevokeKey. destruct key; [|done]. by apply (one_statement_ok _ _ (fun _ => None)).
  - apply required_ok; [done|]. intros u w' H' Ha. unfold SetOrgVisibility. destruct (String.eqb _ _); [done|]. by apply (one_statement_ok _ _ (fun _ => None)).
  - by apply acct_do.
Qed.
End routes.

(** A database with nobody in it. *)
Definition nobody (t : Z) : World := mkWorld ∅ ∅ ∅ ∅ t [] [] [] [] [] [] [] [].
Lemma inv_nobody t : Inv (nobody t).
Proof. split; [split|..]; cbn; try done; [constructor|set_solver..]. Qed.
Lemma inv_tick w w' : Inv w -> tick w w' -> Inv w' /\ Grows w w'.
Proof. intros [Hu Hc Hg Hk Hm] (t & _ & ->). by split. Qed.
Lemma serving_ok cfg t l w : serving cfg ([], nobody t) (l, w) ->
  Inv w /\ Forall (fun p => safe executes Inv Grows (fun x w => warranted cfg x.1 x.2 w) (fun x w => warranted cfg x.1 x.2 w) p w) l.
Proof.
  intros Hr. destruct (pool_safe executes tick (asked cfg) Inv Grows (fun x w => warranted cfg x.1 x.2 w) (fun x w => warranted cfg x.1 x.2 w)
    [] (nobody t) l w) as (Hi & _ & Hl); try done.
  - exact inv_tick.
  - intros p w1 [a ->] H1. unfold route. apply (safe_relabel executes Inv Grows (pair a) (warranted cfg a)); [done|]. by apply perform_ok.
  - apply inv_nobody.
Qed.
Lemma answered_warranted cfg t l w p a x : serving cfg ([], nobody t) (l, w) -> p ∈ l -> answers p = Some (a, x) -> warranted cfg a x w.
Proof.
  intros Hr Hp Ha. destruct (serving_ok cfg t l w Hr) as [Hi Hl]. eapply Forall_forall in Hl; [|exact Hp].
  destruct p as [y|y|]; [| |done]; injection Ha as ->; by apply (Hl w).
Qed.

(** C14: who is signed in is the person the provider named: the sign-in's code was
    taken by that provider for a token, the profile answered for the token names
    an identity, and the account of the session was registered for that identity
    and no other, and is still that identity's; and the session token handed out
    is the server's signature over claims that name this account. This holds
    however sign-ins interleave, statements fail and accounts are renamed or
    deleted, as long as GitHub numbers its accounts below 2^62 ([sane]), where the
    numbers made up for the accounts of other providers begin. *)
Theorem sign_ins_follow_the_provider cfg t l w p a u token :
  serving cfg ([], nobody t) (l, w) -> sane w -> p ∈ l -> answers p = Some (a, SignedIn u token) ->
  (exists name now, jwt_sign "HS256" (JWTSecret cfg)
    (mkPayload [("user_id", uuid_text u); ("username", name)] ((now + 7 * 24 * hour) / second) (now / second)) = Some token) /\
  exists v code i, sign_in a.2 = Some (v, code) /\ named w v code i /\ (u, i) ∈ registered w /\
    (forall i', (u, i') ∈ registered w -> i' = i) /\ forall r, users w !! u = Some r -> (Provider r, ProviderUserID r) = i.
Proof.
  intros Hr Hs Hp Ha. destruct (answered_warranted cfg t l w p a _ Hr Hp Ha) as [Htoken Hby]. split; [exact Htoken|].
  destruct (Hby Hs) as (v & code & Hq & i & Hn & Hi). destruct (serving_ok cfg t l w Hr) as [[Hu _ _ _ _] _].
  assert (forall i', (u, i') ∈ registered w -> i' = i) as Hone.
  { intros i' Hi'. eapply fst_once; [exact (registered_once _ _ Hu)|done..]. }
  exists v, code, i. split_and!; [done..|]. intros r Hrow. apply Hone, (row_registered _ _ Hu u r Hrow).
Qed.

(** C16: the handles of accounts: no two are the same up to case, none is the one
    Village shows for a hidden person, one that was chosen is within the handle
    rule, and one that was made up holds handle characters only. This holds
    however sign-ins, renamings and confirmations interleave. *)
Theorem handles_stay_fit cfg t l w : serving cfg ([], nobody t) (l, w) ->
  (forall u u' r r', users w !! u = Some r -> users w !! u' = Some r' ->
    to_lower (GithubUsername r) = to_lower (GithubUsername r') -> u = u') /\
  forall u r, users w !! u = Some r -> isReservedHandle (GithubUsername r) = false /\
    (UsernameChosen r = true -> match_full usernamePattern (GithubUsername r) = true) /\
    (UsernameChosen r = false -> plain (GithubUsername r)).
Proof.
  intros Hr. destruct (serving_ok cfg t l w Hr) as [[Hu _ _ _ _] _]. split; [exact (handles_apart _ _ Hu)|].
  intros u r Hrow. destruct (handles_fit _ _ Hu u r Hrow) as [Hres Hfit]. split; [done|].
  by destruct (UsernameChosen r).
Qed.

(** Also: an account route answers about the account of the session or key that the
    request carries, and no other. *)
Theorem account_routes_serve_the_bearer cfg t l w p a u row :
  serving cfg ([], nobody t) (l, w) -> p ∈ l -> answers p = Some (a, Done u row) ->
  (exists now token name, (a.1.1 = Some token \/ strip_prefix "Bearer " a.1.2 = Some token) /\ ValidateToken (JWTSecret cfg) token now = Some (u, name)) \/
  (exists token k m, strip_prefix "Bearer " a.1.2 = Some token /\ IsAPIKey token = true /\ (k, (u, HashAPIKey token), m) ∈ minted w).
Proof. intros Hr Hp Ha. exact (answered_warranted cfg t l w p a _ Hr Hp Ha). Qed.
End laws.
End AccountLaws.
