(* ===== verification/AccountCodes.v ===== *)
(** * One key for a code

    A command line buys its key with a code that was drawn for it: a code is
    given once, redeemed once and pays for one key, whatever else runs. *)
From S2P Require Import Prelude GoText Regex Hmac Links Tokens Threads AccountStore Accounts AccountHandles AccountLaws.

Open Scope string_scope.
Open Scope list_scope.
Open Scope Z_scope.

Module AccountCodes.
Import Hmac Links Tokens AccountStore Accounts AccountLaws.

Section codes.
Context `{tables : UnicodeTables} `{jwt : Jwt} `{outside : Outside}.

Lemma executes_exec {X} (o : Op X) c w x w' : executes X o c w = Some (x, w') -> exec o c w = (x, w').
Proof. unfold executes. destruct o; try congruence. destruct (entropy c); [case_bool_decide|]; congruence. Qed.

(** ** What most operations leave alone *)
Definition same_codes (w w' : World) : Prop :=
  drawn w' = drawn w /\ given w' = given w /\ redeemed w' = redeemed w /\ minted w' = minted w /\ sessions w' = sessions w.
#[export] Instance same_codes_refl : Reflexive same_codes.
Proof. by intros w. Qed.
(** The operations that draw, give, redeem and mint, and the one that opens a sign-in. *)
Definition moves_codes {X} (o : Op X) : bool :=
  match o with
  | Draw _ | UpdateCLISessionWithCode _ _ _ _ | ExchangeCLISession _ _ | CreateAPIKey _ _ _ _ _ | InsertCLISession _ _ _ => true
  | _ => false
  end.
Lemma statement_same {A} c w (r : result DbError (A * World)) : (forall a w', r = Ok (a, w') -> same_codes w w') -> same_codes w (statement c w r).2.
Proof. intros Hr. unfold statement. destruct (fails c) as [[]|], r as [[a w']|e]; cbn; try done; by eapply Hr. Qed.
Lemma exec_same {X} (o : Op X) c w : moves_codes o = false -> same_codes w (exec o c w).2.
Proof.
  destruct o; cbn [moves_codes]; try done; intros _; cbn [exec]; try (apply statement_same; intros ?? Heq).
  - unfold sql_upsert_user, upsert, insert_user in Heq. repeat case_match; by simplify_eq.
  - unfold sql_upsert_user_by_provider, upsert, insert_user in Heq. repeat case_match; by simplify_eq.
  - unfold sql_confirm, update_user in Heq. repeat case_match; by simplify_eq.
  - unfold some_or in Heq. repeat case_match; by simplify_eq.
  - unfold some_or in Heq. repeat case_match; by simplify_eq.
  - unfold sql_set_username, update_user in Heq. repeat case_match; by simplify_eq.
  - unfold sql_discoverable, update_user in Heq. repeat case_match; by simplify_eq.
  - by injection Heq as <- <-.
  - repeat case_match; by simplify_eq.
  - injection Heq as <- <-. unfold sql_revoke, update_key. by destruct (_ ≫= _).
  - injection Heq as <- <-. unfold sql_touch, update_key. by destruct (_ ≫= _).
  - unfold some_or in Heq. repeat case_match; by simplify_eq.
  - unfold sql_issue in Heq. repeat case_match; by simplify_eq.
  - unfold install_tx in Heq. repeat case_match; by simplify_eq.
  - injection Heq as <- <-. unfold sql_set_visibility. by destruct (_ !! _).
  - by destruct (reply c).
  - by destruct (reply c).
Qed.

(** ** A code is given and redeemed once *)
Record CodeInv (w : World) : Prop := {
  code_given : forall s x c, sessions w !! s = Some x -> ExchangeCode x = Some c -> c ∈ (given w).*1;
  unredeemed : forall s x c, sessions w !! s = Some x -> ExchangeCode x = Some c -> ExchangedAt x = None -> c ∉ redeemed w;
  code_apart : forall s s' x x' c, sessions w !! s = Some x -> sessions w !! s' = Some x' ->
    ExchangeCode x = Some c -> ExchangeCode x' = Some c -> s = s';
  redeemed_given : forall c, c ∈ redeemed w -> c ∈ (given w).*1;
  redeemed_once : NoDup (redeemed w)
}.
(** As long as no code is given twice. *)
Definition guarded (w : World) : Prop := NoDup (given w).*1 -> CodeInv w.
Lemma guarded_same w w' : same_codes w w' -> guarded w -> guarded w'.
Proof.
  intros (_ & Hg & Hr & _ & Hs) Hi Hn. rewrite Hg in Hn. destruct (Hi Hn) as [? ? ? ? ?].
  split; rewrite ?Hs, ?Hg, ?Hr; done.
Qed.
Lemma guarded_code w st c u n w' : guarded w -> sql_session_code st c u n w = Ok (tt, w') -> guarded w'.
Proof.
  intros Hi. unfold sql_session_code. destruct (sessions w !! st) as [s|] eqn:Hs; [|by intros [= <-]].
  destruct (existsb _ _) eqn:Hex; [done|]. intros [= <-] Hn. cbn in Hn. rewrite fmap_app in Hn.
  apply NoDup_app in Hn as (Hn & Hfresh & _). destruct (Hi Hn) as [Hc Hu Ha Hr Ho].
  assert (c ∉ (given w).*1) as Hnew by (intros Hin; apply (Hfresh c Hin); by left).
  split; cbn; rewrite ?fmap_app; [| | | |done].
  - intros s0 x d [[<- <-]|[_ Hx]]%lookup_insert_Some Hd; [injection Hd as <-; set_solver|]. apply elem_of_app. left. by eapply Hc.
  - intros s0 x d [[<- <-]|[_ Hx]]%lookup_insert_Some Hd; [|by eapply Hu]. injection Hd as <-. intros _ Hin. by apply Hnew, Hr.
  - intros s1 s2 x y d [[<- <-]|[Hne1 Hx]]%lookup_insert_Some [[<- <-]|[Hne2 Hy]]%lookup_insert_Some Hd1 Hd2; [done| | |by eapply Ha].
    + injection Hd1 as <-. exfalso. by eapply Hnew, Hc.
    + injection Hd2 as <-. exfalso. by eapply Hnew, Hc.
  - intros d Hd. apply elem_of_app. left. by apply Hr.
Qed.
Lemma guarded_exchange w c cs x w' : guarded w -> sql_exchange c cs w = Ok (x, w') -> guarded w'.
Proof.
  intros Hi. unfold sql_exchange. destruct (find _ _) as [[s0 s]|] eqn:Hf; [|done]. intros [= <- <-] Hn. cbn in Hn.
  destruct (Hi Hn) as [Hc Hu Ha Hr Ho].
  apply find_some in Hf as [Hin [[[Hcode _]%andb_true_iff Hopen]%andb_true_iff _]%andb_true_iff].
  apply list_elem_of_In, elem_of_map_to_list in Hin. apply bool_decide_eq_true in Hcode. cbn in Hopen, Hcode.
  assert (c ∉ redeemed w) as Hfree by (eapply Hu; [done..|by destruct (ExchangedAt s)]).
  split; cbn.
  - intros s1 y d [[<- <-]|[_ Hy]]%lookup_insert_Some Hd; [by eapply (Hc s0 s)|by eapply Hc].
  - intros s1 y d [[<- <-]|[Hne Hy]]%lookup_insert_Some Hd; [done|]. intros Hnone [Hd'| ->%list_elem_of_singleton]%elem_of_app; [by eapply Hu|].
    apply Hne. by eapply Ha.
  - intros s1 s2 y z d [[<- <-]|[Hne1 Hx]]%lookup_insert_Some [[<- <-]|[Hne2 Hy]]%lookup_insert_Some Hd1 Hd2; [done| | |by eapply Ha].
    + by eapply (Ha s0 s2 s z).
    + by eapply (Ha s1 s0 y s).
  - intros d [Hd| ->%list_elem_of_singleton]%elem_of_app; [by apply Hr|by eapply Hc].
  - apply NoDup_app. split_and!; [done| |apply NoDup_singleton]. by intros d Hd ->%list_elem_of_singleton.
Qed.
Lemma guarded_insert w st port cs w' : guarded w -> sql_insert_session st port cs w = Ok (tt, w') -> guarded w'.
Proof.
  intros Hi. unfold sql_insert_session. destruct (is_some_b _); [done|]. intros [= <-] Hn. cbn in Hn.
  destruct (Hi Hn) as [Hc Hu Ha Hr Ho]. split; cbn; [| | |done..].
  - intros s x d [[<- <-]|[_ Hx]]%lookup_insert_Some Hd; [done|by eapply Hc].
  - intros s x d [[<- <-]|[_ Hx]]%lookup_insert_Some Hd; [done|by eapply Hu].
  - intros s1 s2 x y d [[<- <-]|[_ Hx]]%lookup_insert_Some [[<- <-]|[_ Hy]]%lookup_insert_Some Hd1 Hd2; [done..|by eapply Ha].
Qed.
Lemma guarded_statement {A} c w (r : result DbError (A * World)) : guarded w ->
  (forall a w', r = Ok (a, w') -> guarded w') -> guarded (statement c w r).2.
Proof. intros Hi Hr. unfold statement. destruct (fails c) as [[]|], r as [[a w']|e]; cbn; eauto. Qed.
Lemma exec_guarded X (o : Op X) c w : guarded w -> guarded (exec o c w).2.
Proof.
  intros Hi. destruct (moves_codes o) eqn:Hm; [|by eapply guarded_same, Hi; apply exec_same].
  destruct o; try done; cbn [exec]; [apply guarded_statement; [done|]..|]; [intros a w' Heq..|].
  - unfold sql_create_key in Heq. destruct (_ || _); [done|]. injection Heq as <- <-. intros Hn. destruct (Hi Hn) as [? ? ? ? ?]. by split.
  - destruct a. by eapply guarded_insert.
  - destruct a. by eapply guarded_code.
  - by eapply guarded_exchange.
  - destruct (entropy c); [|done]. intros Hn. destruct (Hi Hn) as [? ? ? ? ?]. by split.
Qed.

(** ** Programs that neither give codes nor buy keys with them *)
Definition free (X : Type) (o : Op X) : Prop :=
  match o with UpdateCLISessionWithCode _ _ _ _ | CreateAPIKey _ _ _ _ (Some _) => False | _ => True end.
Ltac each := repeat match goal with
  | |- uses _ (mbind _ _) => apply uses_bind; [|intros ?]
  | |- uses _ (do_ _) => apply uses_do; try done
  | |- uses _ (or_stop _ _) => unfold or_stop
  | |- uses _ (match ?b with _ => _ end) => destruct b eqn:?
  | |- uses _ (mret _) => done
  | |- uses _ (Ret _) => done
  | |- uses _ (Stop _) => done
  end.
Lemma unique_free fuel : forall i root h, uses free (unique_from fuel i root h).
Proof. induction fuel as [|fuel IH]; intros i root h; cbn [unique_from]; [done|]. each; apply IH. Qed.
Lemma fetch_free fuel : forall n token url all, uses free (fetch_pages fuel n token url all).
Proof. induction fuel as [|fuel IH]; intros n token url all; cbn [fetch_pages]; [done|]. each; apply IH. Qed.
Lemma exchange_user_free code : uses free (exchangeGitHubUser code).
Proof.
  unfold exchangeGitHubUser, signInGitHubUser, syncGitHubOrgs. each; [apply unique_free|apply fetch_free].
Qed.
Lemma required_free cfg cookie auth next : (forall u, uses free (next u)) -> uses free (AuthRequired cfg cookie auth next).
Proof. intros Hn. unfold AuthRequired, authenticate. each; apply Hn. Qed.
Lemma perform_free cfg cookie auth q :
  match q with QCallback _ _ _ | QCLIExchange _ _ => True | _ => uses free (perform cfg cookie auth q) end.
Proof.
  destruct q; try done; cbn [perform]; try (apply required_free; intros u).
  - unfold providerLogin, generateState. each.
  - unfold providerCallback, signed_in. each. apply unique_free.
  - unfold CLILogin, generateState. each.
  - unfold Me. each.
  - unfold UpdateMySettings. each.
  - unfold SetMyUsername. each.
  - unfold DeleteAccount. each.
  - unfold CreateKey. each.
  - unfold RevokeKey. each.
  - unfold SetOrgVisibility. each.
Qed.

(** ** Codes given, and keys bought, are paid for *)
Section one_code.
Variable code : string.
Definition is_code (c : string) : nat := if decide (c = code) then 1%nat else 0%nat.
Definition draws (X : Type) (o : Op X) : X -> nat :=
  match o in Op X return X -> nat with
  | Draw _ => fun r => match r with Some b => is_code (hex_encode b) | None => 0%nat end
  | _ => fun _ => 0%nat
  end.
Definition gives (X : Type) (o : Op X) : X -> nat :=
  match o in Op X return X -> nat with UpdateCLISessionWithCode _ c _ _ => fun _ => is_code c | _ => fun _ => 0%nat end.
Definition redeems (X : Type) (o : Op X) : X -> nat :=
  match o in Op X return X -> nat with
  | ExchangeCLISession c _ => fun r => match r with Ok _ => is_code c | Err _ => 0%nat end
  | _ => fun _ => 0%nat
  end.
Definition buys (X : Type) (o : Op X) : X -> nat :=
  match o in Op X return X -> nat with CreateAPIKey _ _ _ _ m => fun _ => match m with Some c => is_code c | None => 0%nat end | _ => fun _ => 0%nat end.
Definition times_drawn (w : World) : nat := count code (hex_encode <$> drawn w).
Definition times_given (w : World) : nat := count code (given w).*1.
Definition times_redeemed (w : World) : nat := count code (redeemed w).
Definition times_bought (w : World) : nat := count (Some code) (minted w).*2.

Lemma free_gives {A} (p : prog Op Response A) n : uses free p -> solvent draws gives n p.
Proof. intros Hp. apply solvent_uses. eapply uses_weaken; [|exact Hp]. intros X o Ho x. by destruct o. Qed.
Lemma free_buys {A} (p : prog Op Response A) n : uses free p -> solvent redeems buys n p.
Proof. intros Hp. apply solvent_uses. eapply uses_weaken; [|exact Hp]. intros X o Ho x. destruct o as [| | | | | | | |? ? ? ? []| | | | | | | | | | | | | | |]; done. Qed.
Lemma signed_in_free cfg u r : uses free (signed_in cfg u r).
Proof. unfold signed_in. each. Qed.
Lemma callback_gives cfg cookie state k : solvent draws gives 0 (GitHubCallback cfg cookie state k).
Proof.
  unfold GitHubCallback. destruct (negb _); [done|]. apply solvent_do. intros cli. split; [done|].
  apply solvent_bind; [apply free_gives, exchange_user_free|]. intros [[u r]|e] m; [|done].
  destruct cli as [s|e]; [|apply free_gives, signed_in_free]. unfold handleCLICallback. apply solvent_do. intros [raw|]; (split; [cbn; lia|]); [|done].
  apply solvent_do. intros [[]|e]; cbn; split; lia || done.
Qed.
Lemma exchange_buys c state : solvent redeems buys 0 (CLIExchange c state).
Proof.
  unfold CLIExchange. destruct (_ || _); [done|]. apply solvent_do. intros [s|e]; (split; [cbn; lia|]); [|done]. cbn [mbind prog_bind or_stop].
  destruct (negb _); [done|]. apply solvent_do. intros raw. split; [cbn; lia|]. destruct (GenerateAPIKey raw) as [[[plain hash] prefix]|]; [|done].
  apply solvent_do. intros [k|e]; cbn; split; lia || done.
Qed.
Lemma route_gives cfg a : solvent draws gives 0 (route cfg a).
Proof.
  apply solvent_relabel. pose proof (perform_free cfg a.1.1 a.1.2 a.2) as Hf.
  destruct a.2; try (apply free_gives, Hf); [apply callback_gives|].
  apply solvent_uses. cbn [perform]. unfold CLIExchange. each.
Qed.
Lemma route_buys cfg a : solvent redeems buys 0 (route cfg a).
Proof.
  apply solvent_relabel. pose proof (perform_free cfg a.1.1 a.1.2 a.2) as Hf.
  destruct a.2; try (apply free_buys, Hf); [|apply exchange_buys].
  cbn [perform]. unfold GitHubCallback, handleCLICallback. destruct (negb _); [done|]. apply solvent_do. intros cli. split; [done|].
  apply solvent_bind; [apply free_buys, exchange_user_free|]. intros [[u r]|e] m; [|done].
  destruct cli as [s|e]; [|apply free_buys, signed_in_free]. apply solvent_uses. each.
Qed.
(** What the world counts. *)
Lemma statement_counts {A} c w (r : result DbError (A * World)) (f : World -> nat) (P : result DbError A -> nat) :
  (forall a w', r = Ok (a, w') -> (f w + P (Ok a) <= f w')%nat) -> (forall e, P (Err e) = 0%nat) ->
  (f w + P (statement c w r).1 <= f (statement c w r).2)%nat.
Proof.
  intros Hr He. unfold statement. destruct (fails c) as [[]|], r as [[a w']|e]; cbn; rewrite ?He; try lia; [|by apply Hr].
  specialize (Hr a w' eq_refl). lia.
Qed.
Lemma statement_spends {A} c w (r : result DbError (A * World)) (f : World -> nat) n :
  (forall a w', r = Ok (a, w') -> (f w' <= f w + n)%nat) -> (f (statement c w r).2 <= f w + n)%nat.
Proof. intros Hr. unfold statement. destruct (fails c) as [[]|], r as [[a w']|e]; cbn; try lia; by eapply Hr. Qed.
Lemma same_counts w w' : same_codes w w' -> times_drawn w' = times_drawn w /\ times_given w' = times_given w /\
  times_redeemed w' = times_redeemed w /\ times_bought w' = times_bought w.
Proof. intros (Hd & Hg & Hr & Hm & _). unfold times_drawn, times_given, times_redeemed, times_bought. by rewrite Hd, Hg, Hr, Hm. Qed.
Ltac counts := unfold times_drawn, times_given, times_redeemed, times_bought; cbn; lia.
Lemma given_paid X (o : Op X) c x w w' : executes X o c w = Some (x, w') ->
  (times_drawn w + draws X o x <= times_drawn w' /\ times_given w' <= times_given w + gives X o x)%nat.
Proof.
  intros He%executes_exec. assert (x = (exec o c w).1) as -> by (by rewrite He). assert (w' = (exec o c w).2) as -> by (by rewrite He). clear He.
  destruct (moves_codes o) eqn:Hm.
  - destruct o; try done; cbn [exec draws gives].
    + split; [eapply (statement_counts _ _ _ times_drawn (fun _ => 0%nat)); [|done]|apply (statement_spends _ _ _ times_given 0)];
        intros k w1 Heq; unfold sql_create_key in Heq; repeat case_match; simplify_eq; counts.
    + split; [eapply (statement_counts _ _ _ times_drawn (fun _ => 0%nat)); [|done]|apply (statement_spends _ _ _ times_given 0)];
        intros k w1 Heq; unfold sql_insert_session in Heq; repeat case_match; simplify_eq; counts.
    + split; [eapply (statement_counts _ _ _ times_drawn (fun _ => 0%nat)); [|done]|apply (statement_spends _ _ _ times_given (is_code _))];
        intros k w1 Heq; unfold sql_session_code in Heq; repeat case_match; simplify_eq; try counts.
      unfold times_given; cbn. rewrite fmap_app, count_app. cbn. rewrite count_one. unfold is_code. lia.
    + split; [eapply (statement_counts _ _ _ times_drawn (fun _ => 0%nat)); [|done]|apply (statement_spends _ _ _ times_given 0)];
        intros k w1 Heq; unfold sql_exchange in Heq; repeat case_match; simplify_eq; counts.
    + destruct (entropy c); [|counts]. unfold times_drawn, times_given. cbn. rewrite fmap_app, count_app. cbn. rewrite count_one. unfold is_code. lia.
  - destruct (same_counts _ _ (exec_same o c w Hm)) as (-> & -> & _). destruct o; cbn; done || lia.
Qed.
Lemma bought_paid X (o : Op X) c x w w' : executes X o c w = Some (x, w') ->
  (times_redeemed w + redeems X o x <= times_redeemed w' /\ times_bought w' <= times_bought w + buys X o x)%nat.
Proof.
  intros He%executes_exec. assert (x = (exec o c w).1) as -> by (by rewrite He). assert (w' = (exec o c w).2) as -> by (by rewrite He). clear He.
  destruct (moves_codes o) eqn:Hm.
  - destruct o; try done; cbn [exec redeems buys].
    + split; [eapply (statement_counts _ _ _ times_redeemed (fun _ => 0%nat)); [|done]|
        apply (statement_spends _ _ _ times_bought (match made_for with Some c => is_code c | None => 0%nat end))];
        intros k w1 Heq; unfold sql_create_key in Heq; repeat case_match; simplify_eq; try counts;
        unfold times_bought; cbn; rewrite fmap_app, count_app; cbn; rewrite count_one; unfold is_code; repeat case_decide; simplify_eq; lia.
    + split; [eapply (statement_counts _ _ _ times_redeemed (fun _ => 0%nat)); [|done]|apply (statement_spends _ _ _ times_bought 0)];
        intros k w1 Heq; unfold sql_insert_session in Heq; repeat case_match; simplify_eq; counts.
    + split; [eapply (statement_counts _ _ _ times_redeemed (fun _ => 0%nat)); [|done]|apply (statement_spends _ _ _ times_bought 0)];
        intros k w1 Heq; unfold sql_session_code in Heq; repeat case_match; simplify_eq; counts.
    + split; [eapply (statement_counts _ _ _ times_redeemed (fun r => match r with Ok _ => is_code code0 | Err _ => 0%nat end)); [|done]|
        apply (statement_spends _ _ _ times_bought 0)];
        intros k w1 Heq; unfold sql_exchange in Heq; repeat case_match; simplify_eq; try counts.
      unfold times_redeemed. cbn. rewrite count_app, count_one. unfold is_code. lia.
    + destruct (entropy c); counts.
  - destruct (same_counts _ _ (exec_same o c w Hm)) as (_ & _ & -> & ->). destruct o; cbn; done || lia.
Qed.
End one_code.

(** ** Whatever runs *)
Lemma serving_invariant (I : World -> Prop) cfg t l w :
  (forall X (o : Op X) c x w w', I w -> executes X o c w = Some (x, w') -> I w') -> (forall w w', I w -> tick w w' -> I w') ->
  serving cfg ([], nobody t) (l, w) -> I (nobody t) -> I w.
Proof.
  intros He Hd. apply (uses_invariant executes tick (asked cfg) (fun _ _ => True)); [by intros X o c x w0 w1 _; apply He|done|].
  intros p _. induction p as [y|y|X e k IH]; by cbn.
Qed.
Lemma draws_apart cfg t l w : serving cfg ([], nobody t) (l, w) -> NoDup (drawn w).
Proof.
  intros Hr. eapply (serving_invariant (fun w => NoDup (drawn w))); [| |exact Hr|constructor].
  - intros X o c x w0 w1 Hn He. pose proof (executes_exec _ _ _ _ _ He) as Hx. assert (w1 = (exec o c w0).2) as -> by (by rewrite Hx).
    destruct (moves_codes o) eqn:Hm; [|by destruct (exec_same o c w0 Hm) as (-> & _)].
    assert (forall A (r : result DbError (A * World)), (forall a w', r = Ok (a, w') -> drawn w' = drawn w0) -> NoDup (drawn (statement c w0 r).2)) as Hst.
    { intros A r Hd. unfold statement. destruct (fails c) as [[]|], r as [[a w']|e]; cbn; try done; by rewrite (Hd a w'). }
    destruct o; try done; cbn [exec]; try (apply Hst; intros a w' Heq).
    + unfold sql_create_key in Heq. repeat case_match; by simplify_eq.
    + unfold sql_insert_session in Heq. repeat case_match; by simplify_eq.
    + unfold sql_session_code in Heq. repeat case_match; by simplify_eq.
    + unfold sql_exchange in Heq. repeat case_match; by simplify_eq.
    + unfold executes in He. destruct (entropy c) as [r|]; [|done]. case_bool_decide as Hnew; [done|]. cbn.
      apply NoDup_app. split_and!; [done| |apply NoDup_singleton]. by intros y Hy ->%list_elem_of_singleton.
  - by intros w0 w1 Hn (t' & _ & ->).
Qed.
Lemma codes_given_once cfg t l w : serving cfg ([], nobody t) (l, w) -> NoDup (given w).*1.
Proof.
  intros Hr. apply count_nodup. intros code. assert (times_given code w <= times_drawn code w)%nat as Hle.
  { eapply (credits_cover executes tick (asked cfg) (draws code) (gives code) (times_drawn code) (times_given code)).
    - apply given_paid.
    - by intros w0 w1 (t' & _ & ->).
    - intros p [a ->]. apply route_gives.
    - exact Hr.
    - done. }
  unfold times_given, times_drawn in Hle. etrans; [exact Hle|]. by apply count_nodup, (NoDup_fmap_2 hex_encode), (draws_apart cfg t l).
Qed.
Lemma codes_redeemed_once cfg t l w : serving cfg ([], nobody t) (l, w) -> NoDup (redeemed w).
Proof.
  intros Hr. apply redeemed_once. eapply (serving_invariant guarded); [| |exact Hr| |by eapply codes_given_once].
  - intros X o c x w0 w1 Hi He%executes_exec. pose proof (exec_guarded X o c w0 Hi) as Hg. by rewrite He in Hg.
  - intros w0 w1 Hi (t' & _ & ->) Hn. destruct (Hi Hn) as [? ? ? ? ?]. by split.
  - intros _. split; cbn; try done. constructor.
Qed.

(** C15: a code buys at most one key, and only for the person it was given for: a
    person GitHub had named for a sign-in. A key that is answered is kept under the
    hash of what was answered, for that code or for the person who was
    authenticated. This holds however requests interleave, codes are sent twice,
    statements fail or answer errors after their work was done. *)
Theorem one_key_per_code cfg t l w :
  serving cfg ([], nobody t) (l, w) ->
  (forall c, count (Some c) (minted w).*2 <= 1)%nat /\
  (forall k u h c, (k, (u, h), Some c) ∈ minted w -> sane w -> exists code, signed_in_by w "github" code u) /\
  (forall k u h c u', (k, (u, h), Some c) ∈ minted w -> (c, u') ∈ given w -> u' = u) /\
  forall p a k u plaintext name, p ∈ l -> answers p = Some (a, NewKey k u plaintext name) ->
    exists m, (k, (u, HashAPIKey plaintext), m) ∈ minted w /\
      match a.2 with QCLIExchange code _ => m = Some code | _ => acts cfg a u w end.
Proof.
  intros Hr. destruct (serving_ok cfg t l w Hr) as [Hi _]. split_and!.
  - intros code. assert (times_bought code w <= times_redeemed code w)%nat as Hle.
    { eapply (credits_cover executes tick (asked cfg) (redeems code) (buys code) (times_redeemed code) (times_bought code)).
      - apply bought_paid.
      - by intros w0 w1 (t' & _ & ->).
      - intros p [a ->]. apply route_buys.
      - exact Hr.
      - done. }
    etrans; [exact Hle|]. apply count_nodup. by eapply codes_redeemed_once.
  - intros k u h c Hm Hs. eapply given_for; [done| |done]. by eapply minted_for.
  - intros k u h c u' Hm Hu'. pose proof (minted_for _ Hi _ _ _ _ Hm) as Hu.
    pose proof (codes_given_once cfg t l w Hr) as Hn. by eapply fst_once.
  - intros p a k u plaintext n Hp Ha. destruct (answered_warranted cfg t l w p a _ Hr Hp Ha) as (m & Hm & Hq). exists m.
    split; [done|]. destruct a.2; try done. by destruct Hq.
Qed.
End codes.
End AccountCodes.
