(* ===== verification/AccountOrgs.v ===== *)
(** * Whose organizations an account shows

    The organizations of an account are those of the last complete snapshot
    GitHub answered that no newer sign-in had overtaken; a snapshot names each
    organization once, and is fetched from GitHub's own endpoint only. *)
From S2P Require Import Prelude GoText Regex Hmac Links Tokens Threads AccountStore Accounts AccountHandles AccountLaws AccountCodes.

Open Scope string_scope.
Open Scope list_scope.
Open Scope Z_scope.

Module AccountOrgs.
Import Tokens AccountStore Accounts AccountLaws AccountCodes.

Section orgs.
Context `{tables : UnicodeTables} `{jwt : Jwt} `{outside : Outside}.

(** ** What is fetched *)
Definition lowered (l : list githubOrg) : list string := (fun o => to_lower (Login o)) <$> l.
Definition snapshot_ok (l : list githubOrg) : Prop :=
  NoDup (lowered l) /\ NoDup (OrgID <$> l) /\ Forall (fun o => 0 < OrgID o /\ to_lower (Login o) <> "") l.
Lemma new_orgs_ok rows : forall all l, snapshot_ok all -> new_orgs rows all = Some l -> snapshot_ok l.
Proof.
  induction rows as [|o rows IH]; intros all l Hall; cbn [new_orgs]; [by intros [= <-]|].
  destruct (_ || _ || _ || _) eqn:Hc; [done|]. apply IH.
  apply orb_false_iff in Hc as [[[Hid Hlogin]%orb_false_iff _]%orb_false_iff Hnew].
  destruct Hall as (Hl & Hi & Hf).
  assert (forall o', o' ∈ all -> OrgID o' <> OrgID o /\ to_lower (Login o') <> to_lower (Login o)) as Hother.
  { intros o' Hin. apply not_true_iff_false in Hnew. split; intros Heq; apply Hnew, existsb_exists; exists o';
      (split; [by apply list_elem_of_In|]); rewrite Heq; [by rewrite Z.eqb_refl|by rewrite String.eqb_refl, orb_true_r]. }
  unfold snapshot_ok, lowered in *. rewrite !fmap_app. split_and!.
  - apply NoDup_app. split_and!; [done| |apply NoDup_singleton]. intros n (o' & -> & Hin)%list_elem_of_fmap Hn%list_elem_of_singleton.
    destruct (Hother o' Hin). congruence.
  - apply NoDup_app. split_and!; [done| |apply NoDup_singleton]. intros n (o' & -> & Hin)%list_elem_of_fmap Hn%list_elem_of_singleton.
    destruct (Hother o' Hin). congruence.
  - apply Forall_app_2; [done|]. apply Forall_singleton. apply Z.leb_gt in Hid. apply String.eqb_neq in Hlogin. by split.
Qed.
(** The only places the person's token is sent to. *)
Definition on_github (token : string) (X : Type) (o : Op X) : Prop :=
  match o with
  | FetchOrgPage token' url => token' = token /\ (url = firstOrgPage \/ exists n u, trusted n u = true /\ url = url_text u)
  | _ => False
  end.
(** What may be installed. *)
Definition installs_ok (X : Type) (o : Op X) : Prop := match o with InstallOrgs _ _ l => snapshot_ok l | _ => True end.
Lemma next_page_trusted n links : forall next url, next_page n links next = Some url ->
  (next = "" \/ exists u, trusted (n + 1) u = true /\ next = url_text u) -> url = "" \/ exists u, trusted (n + 1) u = true /\ url = url_text u.
Proof.
  induction links as [|link links IH]; intros next url; cbn [next_page]; [by intros [= <-]|].
  destruct (negb (is_next link)); [apply IH|]. destruct (negb _); [done|]. destruct (parse_url _) as [u|]; [|done].
  destruct (trusted (n + 1) u) eqn:Ht; [|done]. intros Hn _. eapply IH; [exact Hn|]. right. by exists u.
Qed.
Lemma fetch_careful token fuel : forall n url all, snapshot_ok all ->
  (url = firstOrgPage \/ exists n u, trusted n u = true /\ url = url_text u) ->
  ends_in (on_github token) (fun r => match r with Some l => snapshot_ok l | None => True end) (fetch_pages fuel n token url all).
Proof.
  induction fuel as [|fuel IH]; intros n url all Hall Hurl; cbn [fetch_pages]; [done|]. split; [by split|].
  intros [[[status body] links]|e]; [|done]. cbn [mbind prog_bind]. destruct (_ || _); [done|].
  destruct (decode_orgs body) as [rows|]; [|done]. destruct (100 <? _); [done|].
  destruct (new_orgs rows all) as [all'|] eqn:Hrows; [|done]. destruct (next_page n _ "") as [next|] eqn:Hnext; [|done].
  apply new_orgs_ok in Hrows; [|done]. apply next_page_trusted in Hnext; [|by left].
  destruct (String.eqb_spec next "") as [|Hne]; [done|]. destruct (Nat.eqb _ _); [done|].
  apply IH; [done|]. right. destruct Hnext as [|(u & ? & ?)]; [done|]. by exists (n + 1), u.
Qed.
(** Also: a fetch of organizations does nothing but send the person's token to
    GitHub's own endpoint, for the first page or one whose URL passed the check;
    what it answers names every organization once. *)
Lemma fetch_stays_on_github token :
  ends_in (on_github token) (fun r => match r with Some l => snapshot_ok l | None => True end) (fetchGitHubOrgSnapshot token).
Proof. apply fetch_careful; [by repeat constructor|by left]. Qed.

(** ** What is installed *)
Definition snapshots (u : Z) (w : World) : list (Z * Z * list githubOrg) := filter (fun x => x.1.1 = u) (installed w).
Definition generations (u : Z) (w : World) : list Z := (fun x => x.1.2) <$> snapshots u w.
Definition latest (u : Z) (w : World) : list githubOrg := match last (snapshots u w) with Some x => x.2 | None => [] end.

Record OrgInv (w : World) : Prop := {
  account_registered : forall u r, users w !! u = Some r -> u ∈ (registered w).*1;
  org_owner : forall u login, is_Some (orgs w !! (u, login)) -> is_Some (users w !! u);
  org_listed : forall u r login, users w !! u = Some r -> is_Some (orgs w !! (u, login)) -> to_lower login ∈ lowered (latest u w);
  org_kept : forall u r o, users w !! u = Some r -> o ∈ latest u w -> is_Some (orgs w !! (u, Login o));
  installed_known : forall u g l, (u, g, l) ∈ installed w -> u ∈ (registered w).*1 /\ snapshot_ok l /\
    forall r, users w !! u = Some r -> g <= GithubOrgSyncGeneration r;
  installed_sorted : forall u, StronglySorted Z.le (generations u w)
}.
Definition same_orgs (w w' : World) : Prop := users w' = users w /\ registered w' = registered w /\ orgs w' = orgs w /\ installed w' = installed w.
Lemma org_same w w' : same_orgs w w' -> OrgInv w -> OrgInv w'.
Proof.
  intros (Hu & Hr & Ho & Hi) [H1 H2 H3 H4 H5 H6].
  split; unfold latest, generations, snapshots in *; rewrite ?Hu, ?Hr, ?Ho, ?Hi; done.
Qed.
(** Accounts go on, with generations that do not fall, or are new. *)
Lemma org_users w us reg : OrgInv w -> registered w ⊆ reg -> (forall u, is_Some (users w !! u) -> is_Some (us !! u)) ->
  (forall u r, us !! u = Some r -> (exists r0, users w !! u = Some r0 /\ GithubOrgSyncGeneration r0 <= GithubOrgSyncGeneration r) \/
    (users w !! u = None /\ u ∉ (registered w).*1 /\ u ∈ reg.*1)) -> OrgInv (set_users us reg w).
Proof.
  intros [H1 H2 H3 H4 H5 H6] Hreg Hkeep Hnew.
  assert (forall u, u ∈ (registered w).*1 -> u ∈ reg.*1) as Hreg' by (intros u (x & -> & Hx)%list_elem_of_fmap; by apply list_elem_of_fmap_2, Hreg).
  assert (forall u, u ∉ (registered w).*1 -> snapshots u w = []) as Hnone.
  { intros u Hu. unfold snapshots. destruct (filter _ _) as [|[[v g] l] rest] eqn:Hf; [done|].
    assert ((v, g, l) ∈ filter (fun x : Z * Z * list githubOrg => x.1.1 = u) (installed w)) as [Hv Hin]%list_elem_of_filter by (rewrite Hf; by left).
    cbn in Hv. subst v. exfalso. by apply Hu, (H5 u g l). }
  split; cbn.
  - intros u r Hu. destruct (Hnew u r Hu) as [(r0 & Hr0 & _)|(_ & _ & ?)]; [|done]. eauto.
  - intros u login Ho. by eapply Hkeep, H2.
  - intros u r login Hu Ho. destruct (Hnew u r Hu) as [(r0 & Hr0 & _)|(Hno & _)]; [by eapply H3|].
    apply H2 in Ho as [r0 Hr0]. congruence.
  - intros u r o Hu Ho. destruct (Hnew u r Hu) as [(r0 & Hr0 & _)|(_ & Hno & _)]; [by eapply H4|].
    unfold latest, snapshots in Ho. cbn in Ho. change (filter _ (installed w)) with (snapshots u w) in Ho. rewrite Hnone in Ho by done.
    by apply not_elem_of_nil in Ho.
  - intros u g l Hin. destruct (H5 u g l Hin) as (Hu & Hl & Hg). split_and!; [by apply Hreg'|done|]. intros r Hr.
    destruct (Hnew u r Hr) as [(r0 & Hr0 & Hle)|(_ & Hno & _)]; [|done]. etrans; [by apply Hg|done].
  - exact H6.
Qed.

Lemma upsert_all u now l v login : forall t,
  is_Some (foldl (fun t o => upsert_org u now o t) t l !! (v, login)) <-> is_Some (t !! (v, login)) \/ (v = u /\ exists o, o ∈ l /\ Login o = login).
Proof.
  induction l as [|o l IH]; intros t; cbn [foldl].
  - split; [by left|]. intros [?|(_ & o & ?%not_elem_of_nil & _)]; done.
  - rewrite IH. unfold upsert_org. destruct (decide ((u, Login o) = (v, login))) as [[= -> <-]|Hne].
    + rewrite lookup_insert_eq. split; [|by left]. intros _. right. split; [done|]. exists o. split; [by left|done].
    + rewrite lookup_insert_ne by done. split.
      * intros [?|(? & o' & ? & ?)]; [by left|]. right. split; [done|]. exists o'. split; [by right|done].
      * intros [?|(-> & o' & [->|Hin]%elem_of_cons & <-)]; [by left|done|]. right. split; [done|]. by exists o'.
Qed.
Lemma outside_deleted u logins t v login :
  is_Some (delete_outside u logins t !! (v, login)) <-> is_Some (t !! (v, login)) /\ (v = u -> to_lower login ∈ logins).
Proof.
  unfold delete_outside. split.
  - intros [r [Hr Hk]%map_lookup_filter_Some]. split; [by exists r|]. intros ->. cbn in Hk. rewrite Z.eqb_refl in Hk. cbn in Hk.
    rewrite negb_involutive in Hk. by apply bool_decide_eq_true in Hk.
  - intros [[r Hr] Hk]. exists r. apply map_lookup_filter_Some. split; [done|]. cbn. destruct (Z.eqb_spec v u) as [->|]; [|done]. cbn.
    rewrite negb_involutive. apply bool_decide_eq_true. by apply Hk.
Qed.
Lemma sorted_app_le l x : StronglySorted Z.le l -> Forall (fun y => y <= x) l -> StronglySorted Z.le (l ++ [x]).
Proof.
  induction 1 as [|y l Hl IH Hy]; intros Hx; [by repeat constructor|]. apply Forall_cons in Hx as [? Hx]. cbn.
  constructor; [by apply IH|]. apply Forall_app_2; [done|]. by apply Forall_singleton.
Qed.
Lemma org_install u g l w w' : OrgInv w -> snapshot_ok l -> install_tx u g l w = Ok (tt, w') -> OrgInv w'.
Proof.
  intros Hi Hl. unfold install_tx. destruct (users w !! u) as [r|] eqn:Hu; [|done].
  destruct (Z.eqb_spec (GithubOrgSyncGeneration r) g) as [Hg|]; cbn [negb]; [|by intros [= <-]]. destruct (negb _); [done|].
  set (t := delete_outside _ _ _). intros [= <-]. destruct Hi as [H1 H2 H3 H4 H5 H6]. set (w' := set_orgs t _ w).
  assert (snapshots u w' = snapshots u w ++ [(u, g, l)]) as Hmine by (unfold snapshots; cbn; by rewrite filter_app, filter_cons_True).
  assert (forall v, v <> u -> snapshots v w' = snapshots v w) as Hother.
  { intros v Hv. unfold snapshots; cbn. rewrite filter_app, filter_cons_False by (by intros Heq; apply Hv). by rewrite filter_nil, app_nil_r. }
  assert (latest u w' = l) as Hlast by (unfold latest; by rewrite Hmine, last_snoc).
  assert (forall v, v <> u -> latest v w' = latest v w) as Hlast' by (intros v Hv; unfold latest; by rewrite Hother).
  assert (forall v login, is_Some (orgs w' !! (v, login)) <->
    (is_Some (orgs w !! (v, login)) \/ (v = u /\ exists o, o ∈ l /\ Login o = login)) /\ (v = u -> to_lower login ∈ lowered l)) as Hrows.
  { intros v login. cbn. unfold t. by rewrite outside_deleted, upsert_all. }
  split; cbn [users registered].
  - exact H1.
  - intros v login [[Ho|[-> _]] _]%Hrows; [by eapply H2|by exists r].
  - intros v s login Hv Ho. apply Hrows in Ho as [Ho Hin]. destruct (decide (v = u)) as [->|Hne]; [rewrite Hlast; by apply Hin|].
    rewrite Hlast' by done. destruct Ho as [Ho|[? _]]; [by eapply H3|done].
  - intros v s o Hv Ho. apply Hrows. destruct (decide (v = u)) as [->|Hne].
    + rewrite Hlast in Ho. split; [right; split; [done|by exists o]|]. intros _. by apply (list_elem_of_fmap_2 (fun o => to_lower (Login o))).
    + rewrite Hlast' in Ho by done. split; [left; by eapply H4|done].
  - intros v g' l'. cbn. intros [Hin|Hin%list_elem_of_singleton]%elem_of_app; [by apply H5|]. injection Hin as -> -> ->.
    split_and!; [by eapply H1|done|]. intros s Hs. assert (s = r) as -> by congruence. lia.
  - intros v. unfold generations. destruct (decide (v = u)) as [->|Hne]; [|rewrite Hother by done; apply H6].
    rewrite Hmine, fmap_app. apply sorted_app_le; [apply H6|]. apply Forall_fmap, Forall_forall. intros [[v g'] l'] [Hv Hin]%list_elem_of_filter.
    cbn in Hv. subst v. cbn. rewrite <- Hg. by apply (H5 u g' l').
Qed.
Lemma org_delete u w : OrgInv w -> OrgInv (sql_delete_user u w).
Proof.
  intros [H1 H2 H3 H4 H5 H6]. assert (forall v login, is_Some (orgs (sql_delete_user u w) !! (v, login)) <-> is_Some (orgs w !! (v, login)) /\ v <> u) as Hrows.
  { intros v login. cbn. split.
    - intros [r [Hr Hv]%map_lookup_filter_Some]. split; [by exists r|done].
    - intros [[r Hr] Hv]. exists r. by apply map_lookup_filter_Some. }
  split; change (users (sql_delete_user u w)) with (delete u (users w)).
  - intros v r [_ Hv]%lookup_delete_Some. by eapply H1.
  - intros v login [Ho Hne]%Hrows. rewrite lookup_delete_ne by done. by eapply H2.
  - intros v r login [_ Hv]%lookup_delete_Some [Ho _]%Hrows. by eapply H3.
  - intros v r o [Hne Hv]%lookup_delete_Some Ho. apply Hrows. split; [by eapply H4|done].
  - intros v g l Hin. destruct (H5 v g l Hin) as (? & ? & Hg). split_and!; [done..|]. intros r [_ Hv]%lookup_delete_Some. by apply Hg.
  - exact H6.
Qed.
Lemma org_visible u login b w : OrgInv w -> OrgInv (sql_set_visibility u login b w).
Proof.
  intros Hi. unfold sql_set_visibility. destruct (orgs w !! (u, login)) as [r|] eqn:Hr; [|done]. destruct Hi as [H1 H2 H3 H4 H5 H6].
  assert (forall k, is_Some (<[(u, login) := mkOrgRow (RowOrgID r) (RowAvatar r) b (FetchedAt r)]> (orgs w) !! k) <-> is_Some (orgs w !! k)) as Hrows.
  { intros k. destruct (decide (k = (u, login))) as [->|Hne]; [rewrite lookup_insert_eq, Hr; split; by eexists|by rewrite lookup_insert_ne]. }
  split; cbn; try done.
  - intros v l Ho%Hrows. by eapply H2.
  - intros v s l Hv Ho%Hrows. by eapply H3.
  - intros v s o Hv Ho. apply Hrows. by eapply H4.
Qed.

(** ** Every operation, every route *)
Lemma org_update u f w r w' : OrgInv w -> (forall r r', f r = Ok r' -> GithubOrgSyncGeneration r' = GithubOrgSyncGeneration r) ->
  update_user u f w = Ok (r, w') -> OrgInv w'.
Proof.
  intros Hi Hf. unfold update_user. destruct (users w !! u) as [r0|] eqn:Hu; [|done]. destruct (f r0) as [r1|] eqn:Hr; [|done]. intros [= <- <-].
  apply org_users; [done..| |].
  - intros v ?. destruct (decide (v = u)) as [->|]; [rewrite lookup_insert_eq; by eexists|by rewrite lookup_insert_ne].
  - intros v s [[<- <-]|[_ Hv]]%lookup_insert_Some; left; [exists r0; split; [done|by rewrite (Hf _ _ Hr)]|by exists s].
Qed.
Lemma org_insert id g h v pid p w x : OrgInv w -> insert_user id g h v pid p w = Ok x -> OrgInv x.2.
Proof.
  intros Hi. unfold insert_user. destruct (_ || bool_decide (id ∈ _)) eqn:Hnew; [done|].
  apply orb_false_iff in Hnew as [Hid%bool_decide_eq_false Hreg%bool_decide_eq_false]. apply eq_None_not_Some in Hid.
  destruct (_ || _); [done|]. destruct (negb _); [done|]. intros [= <-]. apply org_users; [done|set_solver| |].
  - intros u ?. destruct (decide (u = id)) as [->|]; [rewrite lookup_insert_eq; by eexists|by rewrite lookup_insert_ne].
  - intros u s [[<- <-]|[_ Hv]]%lookup_insert_Some; [right|left; by exists s]. split_and!; [done..|]. rewrite fmap_app. set_solver.
Qed.
Lemma org_upsert f p fresh w x : OrgInv w -> (forall x, fresh = Ok x -> OrgInv x.2) -> upsert (find_user f w) p fresh w = Ok x -> OrgInv x.2.
Proof.
  intros Hi Hfresh. unfold upsert. destruct (find_user f w) as [[u r]|] eqn:Hf; [|apply Hfresh].
  apply find_user_some in Hf as [Hu _]. destruct (profile_fits p); [|done]. intros [= <-].
  apply (org_update u (fun r => Ok (refreshed p r)) w (refreshed p r)); [done|by intros ?? [= <-]|]. unfold update_user. by rewrite Hu.
Qed.
Lemma org_issue u w g w' : OrgInv w -> sql_issue u w = Ok (g, w') -> OrgInv w'.
Proof.
  intros Hi. unfold sql_issue. destruct (users w !! u) as [r|] eqn:Hu; [|done]. destruct (_ <? _); [|done]. intros [= <- <-].
  apply org_users; [done..| |].
  - intros v ?. destruct (decide (v = u)) as [->|]; [rewrite lookup_insert_eq; by eexists|by rewrite lookup_insert_ne].
  - intros v s [[<- <-]|[_ Hv]]%lookup_insert_Some; left; [exists r; split; [done|cbn; lia]|by exists s].
Qed.
Lemma org_statement {A} c w (r : result DbError (A * World)) : OrgInv w -> (forall a w', r = Ok (a, w') -> OrgInv w') -> OrgInv (statement c w r).2.
Proof. intros Hi Hr. unfold statement. destruct (fails c) as [[]|], r as [[a w']|e]; cbn; eauto. Qed.
Lemma exec_orgs X (o : Op X) c w : installs_ok X o -> OrgInv w -> OrgInv (exec o c w).2.
Proof.
  intros Hc Hi. destruct o; cbn [exec]; try (apply org_statement; [done|]; intros a w' Heq).
  - apply (org_upsert _ _ _ _ (a, w')) in Heq; [by destruct a|done|]. intros x. by apply org_insert.
  - apply (org_upsert _ _ _ _ (a, w')) in Heq; [by destruct a|done|]. intros x. by apply org_insert.
  - eapply org_update; [done| |exact Heq]. intros r r' Hf. cbv beta in Hf. repeat case_match; by simplify_eq.
  - unfold some_or in Heq. repeat case_match; by simplify_eq.
  - unfold some_or in Heq. repeat case_match; by simplify_eq.
  - eapply org_update; [done| |exact Heq]. intros r r' Hf. repeat case_match; by simplify_eq.
  - eapply org_update; [done| |exact Heq]. by intros r r' [= <-].
  - injection Heq as <- <-. by apply org_delete.
  - unfold sql_create_key in Heq. destruct (_ || _); [done|]. injection Heq as <- <-. by eapply org_same, Hi.
  - repeat case_match; by simplify_eq.
  - injection Heq as <- <-. unfold sql_revoke, update_key. destruct (_ ≫= _); [by eapply org_same, Hi|done].
  - injection Heq as <- <-. unfold sql_touch, update_key. destruct (_ ≫= _); [by eapply org_same, Hi|done].
  - unfold sql_insert_session in Heq. repeat case_match; simplify_eq. by eapply org_same, Hi.
  - unfold some_or in Heq. repeat case_match; by simplify_eq.
  - unfold sql_session_code in Heq. repeat case_match; simplify_eq; [by eapply org_same, Hi|done].
  - unfold sql_exchange in Heq. repeat case_match; simplify_eq. by eapply org_same, Hi.
  - by eapply org_issue.
  - destruct a. by eapply org_install.
  - injection Heq as <- <-. by apply org_visible.
  - destruct (reply c); [by eapply org_same, Hi|done].
  - destruct (reply c); [by eapply org_same, Hi|done].
  - done.
  - destruct (entropy c); [by eapply org_same, Hi|done].
  - done.
Qed.
Ltac orderly := repeat match goal with
  | |- uses _ (mbind _ _) => apply uses_bind; [|intros ?]
  | |- uses _ (do_ _) => apply uses_do; try done
  | |- uses _ (or_stop _ _) => unfold or_stop
  | |- uses _ (match ?b with _ => _ end) => destruct b eqn:?
  | |- uses _ (mret _) => done
  | |- uses _ (Ret _) => done
  | |- uses _ (Stop _) => done
  end.
Lemma sync_orderly token u : uses installs_ok (syncGitHubOrgs token u).
Proof.
  unfold syncGitHubOrgs. split; [done|]. intros [g|e]; [|done]. cbn [mbind prog_bind].
  apply (uses_ends_in installs_ok (fun r => match r with Some l => snapshot_ok l | None => True end)).
  - eapply ends_in_weaken; [|apply fetch_stays_on_github]. by intros X [].
  - intros [l|] Hl; [|done]. split; [exact Hl|]. by intros x.
Qed.
Lemma unique_orderly fuel : forall i root h, uses installs_ok (unique_from fuel i root h).
Proof. induction fuel as [|fuel IH]; intros i root h; cbn [unique_from]; [done|]. orderly; apply IH. Qed.
Lemma required_orderly cfg cookie auth next : (forall u, uses installs_ok (next u)) -> uses installs_ok (AuthRequired cfg cookie auth next).
Proof. intros Hn. unfold AuthRequired, authenticate. orderly; apply Hn. Qed.
Lemma perform_orderly cfg cookie auth q : uses installs_ok (perform cfg cookie auth q).
Proof.
  destruct q; cbn [perform]; try (apply required_orderly; intros u).
  - unfold GitHubLogin, generateState. orderly.
  - unfold GitHubCallback, exchangeGitHubUser, signInGitHubUser, handleCLICallback, signed_in. orderly; [apply unique_orderly|apply sync_orderly].
  - unfold providerLogin, generateState. orderly.
  - unfold providerCallback, signed_in. orderly. apply unique_orderly.
  - unfold CLILogin, generateState. orderly.
  - unfold CLIExchange. orderly.
  - unfold Me. orderly.
  - unfold UpdateMySettings. orderly.
  - unfold SetMyUsername. orderly.
  - unfold DeleteAccount. orderly.
  - unfold CreateKey. orderly.
  - unfold RevokeKey. orderly.
  - unfold SetOrgVisibility. orderly.
  - orderly.
Qed.

(** Also: the organizations of an account are, by lowercase login, exactly those of
    the last snapshot installed for it; snapshots are installed in the order in
    which their sign-ins began, never after a newer one, and each names every
    organization once. This holds however sign-ins interleave, pages fail and
    accounts come and go. *)
Theorem organizations_are_the_latest_snapshot cfg t l w u r :
  serving cfg ([], nobody t) (l, w) -> users w !! u = Some r ->
  (forall name, (exists login, to_lower login = name /\ is_Some (orgs w !! (u, login))) <-> name ∈ lowered (latest u w)) /\
  StronglySorted Z.le (generations u w) /\
  Forall (fun x => x.1.2 <= GithubOrgSyncGeneration r /\ snapshot_ok x.2) (snapshots u w).
Proof.
  intros Hr Hu. assert (OrgInv w) as [_ H2 H3 H4 H5 H6].
  { eapply (uses_invariant executes tick (asked cfg) installs_ok OrgInv); [| | |exact Hr|].
    - intros X o c x w0 w1 Hc Hi He%executes_exec. pose proof (exec_orgs X o c w0 Hc Hi) as Ho. by rewrite He in Ho.
    - intros w0 w1 Hi (t' & _ & ->). by eapply org_same, Hi.
    - intros p [a ->]. apply uses_relabel, perform_orderly.
    - split; cbn; try done; [by intros ?? ?%lookup_empty_is_Some|set_solver|constructor]. }
  split_and!; [|apply H6|].
  - intros name. split.
    + intros (login & <- & Ho). by eapply H3.
    + intros (o & -> & Ho)%list_elem_of_fmap. exists (Login o). split; [done|]. by eapply H4.
  - apply Forall_forall. intros [[v g] s] [Hv Hin]%list_elem_of_filter. cbn in Hv. subst v. destruct (H5 u g s Hin) as (_ & ? & Hg).
    split; [by apply Hg|done].
Qed.
End orgs.
End AccountOrgs.
