(* ===== verification/AccountWitness.v ===== *)
(** * A person signs in, from the command line and the web

    GitHub names one account; its login holds a capital and a reserved-looking
    part. The command line signs in and buys its key, the web signs in twice, and
    the person belongs to two organizations and then to one. *)
From S2P Require Import Prelude GoText Regex Hmac Links Tokens Threads AccountStore Accounts AccountHandles AccountLaws AccountCodes AccountOrgs.

Open Scope string_scope.
Open Scope list_scope.
Open Scope Z_scope.

Module AccountWitness.
Import Hmac Links Tokens AccountStore Accounts AccountLaws AccountCodes AccountOrgs.
#[local] Existing Instance ascii_tables.
#[local] Instance demo_jwt : Jwt := {|
  jwt_sign := fun alg key p => Some ("session of " +:+ default "" (field "username" p));
  jwt_parse := fun keys t now => match keys "HS256" with
    | Some _ => if String.eqb t "session of octo-cat" then Some (mkPayload [("user_id", "7"); ("username", "octo-cat")] 100 0) else None
    | None => None
    end;
  uuid_text := itoa;
  uuid_parse := atoi
|}.
#[local] Instance demo_outside : Outside := {|
  decode_github := fun body => if String.eqb body "octo" then Some (mkGithubProfile 583231 "Octo-Cat" "The Cat" "") else None;
  decode_gitlab := fun _ => None;
  decode_openid := fun _ => None;
  decode_sourcehut := fun _ => None;
  decode_orgs := fun body =>
    if String.eqb body "two" then Some [mkOrg 1 "Acme" None; mkOrg 2 "Globex" None]
    else if String.eqb body "one" then Some [mkOrg 2 "Globex" None] else None;
  parse_url := fun _ => None;
  url_text := fun _ => ""
|}.
Definition cfg : Config := mkConfig "0123456789abcdef" "" "" "" "" "" "" "".

(** What each operation of a request turns out to be. *)
Definition sure : Choice := mkChoice None 7 (Err tt) (Err tt) None 5.
Definition drawing (s : string) : Choice := mkChoice None 7 (Err tt) (Err tt) (Some s) 5.
Definition hearing (s : string) : Choice := mkChoice None 7 (Ok s) (Err tt) None 5.
Definition paging (s : string) : Choice := mkChoice None 7 (Err tt) (Ok (200, s, "")) None 5.
Definition state : string := hex_encode "0123456789abcdef".
Definition code : string := hex_encode "0123456789abcdef0123456789abcdef".
Definition by_nobody (q : Request) : Asked := (None, "", q).
(** The state of the sign-in, GitHub's answers and the pages of organizations. *)
Definition started : Asked * list Choice := (by_nobody (QCLILogin "8080" "cli"), [drawing "0123456789abcdef"; sure]).
Definition callback (orgs : string) (more : list Choice) : Asked * list Choice :=
  (by_nobody (QCallback (Some state) state "github code"),
    [sure; hearing "token"; hearing "octo"; sure; sure; sure; sure; paging orgs; sure] ++ more).
Definition handed : Asked * list Choice := callback "two" [drawing "0123456789abcdef0123456789abcdef"; sure].
Definition bought : Asked * list Choice := (by_nobody (QCLIExchange code "cli"), [sure; drawing "an entropy of 32 bytes, as it is."; sure]).
Definition web : Asked * list Choice :=
  (by_nobody (QCallback (Some "s") "s" "github code"), [sure; hearing "token"; hearing "octo"; sure; sure; sure; sure; paging "one"; sure; sure]).
Definition mine : Asked * list Choice := ((Some "session of octo-cat", "", QMe), [sure; sure]).

Definition answer_to (r : Asked * list Choice) (w : World) : option (prog Op (Asked * Response) (Asked * Response) * World) :=
  run executes r.2 (route cfg r.1) w.
Definition then_ (r : Asked * list Choice) (o : option (prog Op (Asked * Response) (Asked * Response) * World)) := '(_, w) ← o; answer_to r w.
Definition at_start : option (prog Op (Asked * Response) (Asked * Response) * World) := answer_to started (nobody 0).
Definition at_handed := then_ handed at_start.
Definition at_bought := then_ bought at_handed.
Definition at_web := then_ web at_bought.
Definition at_mine := then_ mine at_web.
Definition told_of (x : prog Op (Asked * Response) (Asked * Response) * World) : option (Asked * Response) := Threads.answers x.1.
Definition plaintext : string := "peasant_" +:+ hex_encode "an entropy of 32 bytes, as it is.".

Definition reached (o : option (prog Op (Asked * Response) (Asked * Response) * World)) : Prop :=
  forall p w, o = Some (p, w) -> exists l, serving cfg ([], nobody 0) (l ++ [p], w).
Lemma answer_reached r l w p w' : answer_to r w = Some (p, w') -> serving cfg (l, w) (l ++ [p], w').
Proof. intros Hr. eapply starts_reaches; [|exact Hr]. by eexists. Qed.
Lemma start_reached : reached at_start.
Proof. intros p w Hr. exists []. by apply (answer_reached started []). Qed.
Lemma then_reached r o : reached o -> reached (then_ r o).
Proof.
  intros Ho p w. unfold then_. destruct o as [[p0 w0]|]; cbn; [|done]. intros Hr. destruct (Ho p0 w0 eq_refl) as [l Hl].
  exists (l ++ [p0]). etrans; [exact Hl|]. by eapply answer_reached.
Qed.
Lemma bought_reached : reached at_bought.
Proof. do 2 apply then_reached. apply start_reached. Qed.
Lemma web_reached : reached at_web.
Proof. apply then_reached, bought_reached. Qed.
Lemma mine_reached : reached at_mine.
Proof. apply then_reached, web_reached. Qed.

(** What comes of it. *)
Lemma bought_told : told_of <$> at_bought = Some (Some (bought.1, NewKey 7 7 plaintext "octo-cat")).
Proof. vm_compute. reflexivity. Qed.
Lemma web_told : told_of <$> at_web = Some (Some (web.1, SignedIn 7 "session of octo-cat")).
Proof. vm_compute. reflexivity. Qed.
Definition cat : User := mkUser 583231 "octo-cat" (Some "The Cat") None true "github" "583231" true (Some "Octo-Cat") 2.
Lemma mine_told : told_of <$> at_mine = Some (Some (mine.1, Done 7 (Some cat))).
Proof. vm_compute. reflexivity. Qed.
Lemma mine_kept : (fun x => (minted x.2, generations 7 x.2, lowered (latest 7 x.2), is_some_b (users x.2 !! 7))) <$> at_mine =
  Some ([(7, (7, HashAPIKey plaintext), Some code)], [1; 2], ["globex"], true).
Proof. vm_compute. reflexivity. Qed.
#[local] Opaque at_start at_handed at_bought at_web at_mine HashAPIKey plaintext.
Lemma demo_sane w : sane w.
Proof. intros t b p _. cbn. destruct (String.eqb b "octo"); [|done]. intros [= <-]. cbn. lia. Qed.
Lemma last_in {A} (p : A) l : p ∈ l ++ [p].
Proof. apply elem_of_app. right. by left. Qed.
Lemma told_some o x : told_of <$> o = Some (Some x) -> exists p w, o = Some (p, w) /\ Threads.answers p = Some x.
Proof. destruct o as [[p w]|]; [|done]. intros [= Ht]. by exists p, w. Qed.

Lemma sign_ins_follow_the_provider_witness : exists p w, at_web = Some (p, w) /\
  (exists name now, jwt_sign "HS256" (JWTSecret cfg)
    (mkPayload [("user_id", uuid_text 7); ("username", name)] ((now + 7 * 24 * hour) / second) (now / second)) = Some "session of octo-cat") /\
  exists v c i, sign_in web.1.2 = Some (v, c) /\ named w v c i /\ (7, i) ∈ registered w /\
    (forall i', (7, i') ∈ registered w -> i' = i) /\ forall r, users w !! 7 = Some r -> (Provider r, ProviderUserID r) = i.
Proof.
  destruct (told_some at_web _ web_told) as (p & w & Hw & Hp). destruct (web_reached p w Hw) as [l Hl].
  exists p, w. split; [exact Hw|].
  exact (sign_ins_follow_the_provider cfg 0 (l ++ [p]) w p web.1 7 _ Hl (demo_sane w) (last_in p l) Hp).
Defined.
Lemma account_routes_serve_the_bearer_witness : exists p w, at_mine = Some (p, w) /\
  ((exists now token name, (Some "session of octo-cat" = Some token \/ strip_prefix "Bearer " "" = Some token) /\
      ValidateToken "0123456789abcdef" token now = Some (7, name)) \/
   (exists token k m, strip_prefix "Bearer " "" = Some token /\ IsAPIKey token = true /\ (k, (7, HashAPIKey token), m) ∈ minted w)).
Proof.
  destruct (told_some at_mine _ mine_told) as (p & w & Hw & Hp). destruct (mine_reached p w Hw) as [l Hl]. exists p, w. split; [exact Hw|].
  exact (account_routes_serve_the_bearer cfg 0 (l ++ [p]) w p mine.1 7 (Some cat) Hl (last_in p l) Hp).
Defined.
Lemma one_key_per_code_witness : exists p w, at_bought = Some (p, w) /\ (count (Some code) (minted w).*2 <= 1)%nat /\
  exists m, (7, (7, HashAPIKey plaintext), m) ∈ minted w /\ m = Some code.
Proof.
  destruct (told_some at_bought _ bought_told) as (p & w & Hw & Hp). destruct (bought_reached p w Hw) as [l Hl].
  exists p, w. split; [exact Hw|].
  destruct (one_key_per_code cfg 0 (l ++ [p]) w Hl) as (Hone & _ & _ & Hkey). split; [apply Hone|].
  exact (Hkey p bought.1 7 7 plaintext "octo-cat" (last_in p l) Hp).
Defined.
Lemma handles_stay_fit_witness : exists p w r, at_mine = Some (p, w) /\ users w !! 7 = Some r /\ isReservedHandle (GithubUsername r) = false.
Proof.
  pose proof mine_kept as Hk. destruct at_mine as [[p w]|] eqn:Hw; [|discriminate Hk]. destruct (mine_reached p w Hw) as [l Hl].
  injection Hk as _ _ _ Hr. cbn in Hr. destruct (users w !! 7) as [r|] eqn:Hu; [|discriminate Hr]. exists p, w, r.
  split; [reflexivity|]. split; [exact Hu|]. exact (proj1 (proj2 (handles_stay_fit cfg 0 (l ++ [p]) w Hl) 7 r Hu)).
Defined.
Lemma organizations_are_the_latest_snapshot_witness : exists p w r, at_mine = Some (p, w) /\ users w !! 7 = Some r /\
  lowered (latest 7 w) = ["globex"] /\ exists login, to_lower login = "globex" /\ is_Some (orgs w !! (7, login)).
Proof.
  pose proof mine_kept as Hk. destruct at_mine as [[p w]|] eqn:Hw; [|discriminate Hk]. destruct (mine_reached p w Hw) as [l Hl].
  injection Hk as _ _ Hlast Hr. cbn in Hr, Hlast. destruct (users w !! 7) as [r|] eqn:Hu; [|discriminate Hr]. exists p, w, r.
  split; [reflexivity|]. split; [exact Hu|]. split; [exact Hlast|].
  apply (proj1 (organizations_are_the_latest_snapshot cfg 0 (l ++ [p]) w 7 r Hl Hu)). rewrite Hlast. apply list_elem_of_here.
Defined.
End AccountWitness.
