(* ===== verification/IntegrityStore.v ===== *)
(** * The integrity check as the database and the service keep it

    The ledger of check attempts and the answers ([database/sqlc/integrity.sql.go],
    the lineage of [publish_evidence.sql.go]) beside the columns of transcripts
    they look at, and the operations one pass of the background check is made of.
    What the world keeps beside its tables is which attempts were taken and given
    back, what was sent, and what was seen of a transcript before. *)
From S2P Require Import Prelude GoText Threads.

Open Scope string_scope.
Open Scope list_scope.
Open Scope Z_scope.

Module IntegrityStore.
Definition second : Z := 1000000000.

(** ** Tables *)
Record Row : Type := mkRow { Visibility : string; HasShares : bool; ContentHash : option string; UpdatedAt : Z }.
Inductive AttemptStatus := StatusPending | StatusDone | StatusSkipped | StatusFailed.
#[export] Instance attempt_status_dec : EqDecision AttemptStatus.
Proof. solve_decision. Defined.
Record Attempt : Type := mkAttempt { Status : AttemptStatus; Attempts : Z; LastError : option string; NextAttemptAt : Z }.
Record Result : Type := mkResult { Verdict : string; FlaggedTurns : list Z }.
Record Rewrite : Type := mkRewrite { RewriteOf : Z; ReplacedContentHash : string; InstalledContentHash : string; ReplacedWasLegacy : bool }.
Notation Key := (Z * string * string)%type (only parsing).       (** transcript, content, checker version *)

(** What a statement or a read found to be so. *)
Inductive Fact : Type :=
| Holds (id : Z) (hash : string)                    (** it holds that content *)
| InSet (id : Z)                                    (** others can read it *)
| NotLegacy (id : Z) (hash : string)                (** no rewrite of legacy content led to that content *)
| ReadAs (id : Z) (hash text : string)              (** that content reads as that text *)
| Published (id : Z) (metadata : option string).    (** its metadata, if it was published with any *)

Record World : Type := mkWorld {
  rows : gmap Z Row;
  gone : list Z;                                    (** transcripts that were deleted *)
  attempts : gmap Key Attempt;
  results : gmap Key Result;
  rewrites : list Rewrite;
  db_now : Z;
  held : gmap Z string;                             (** by server: the checker version it last took *)
  claimed : list Key;
  released : list Key;
  answered : list (Key * bool);                     (** checks answered, and whether they count *)
  sent : list (Key * string);                       (** what was sent for which attempt *)
  seen : list Fact                                  (** what was found out about transcripts *)
}.
Definition set_rows r g a s l t h (w : World) := mkWorld r g a s l t h (claimed w) (released w) (answered w) (sent w) (seen w).
Definition set_attempts a c r (w : World) := mkWorld (rows w) (gone w) a (results w) (rewrites w) (db_now w) (held w) c r (answered w) (sent w) (seen w).
Definition set_results x (w : World) := mkWorld (rows w) (gone w) (attempts w) x (rewrites w) (db_now w) (held w) (claimed w) (released w) (answered w) (sent w) (seen w).
Definition set_held x (w : World) := mkWorld (rows w) (gone w) (attempts w) (results w) (rewrites w) (db_now w) x (claimed w) (released w) (answered w) (sent w) (seen w).
Definition set_sent a s (w : World) := mkWorld (rows w) (gone w) (attempts w) (results w) (rewrites w) (db_now w) (held w) (claimed w) (released w) a s (seen w).
Definition set_seen f (w : World) := mkWorld (rows w) (gone w) (attempts w) (results w) (rewrites w) (db_now w) (held w) (claimed w) (released w) (answered w) (sent w) (seen w ++ [f]).

(** ** Checker versions *)
Fixpoint compare_parts (xs ys : list string) : Z :=
  match xs, ys with
  | x :: xs', y :: ys' =>
    if negb (blen x =? blen y) then if blen x <? blen y then -1 else 1
    else if negb (text_compare x y =? 0) then text_compare x y
    else compare_parts xs' ys'
  | _, _ => Z.of_nat (length xs) - Z.of_nat (length ys)
  end.
Definition compareScryVersions (a b : string) : Z := compare_parts (split_on "." a) (split_on "." b).

(** ** Operations *)
Inductive DbError : Type := NoRows | ForeignKey | DbFailed.
(** A call to the service: no answer (and whether it timed out), or a status and
    the body ([None]: reading it failed, and whether on time). *)
Inductive Transport : Type := NoAnswer (timeout : bool) | Answer (status : Z) (body : string + bool).
Inductive Op : Type -> Type :=
| GetHealth : Op Transport
| PostCheck (k : Key) (request : string) (turns : Z) : Op Transport
| ObserveVersion (server : Z) (v : string) : Op unit
| CurrentVersion (server : Z) : Op string
| Cancelled : Op bool
| ListIntegrityCandidates (version : string) (maxAttempts batch : Z) : Op (result DbError (list (Z * string)))
| ClaimIntegrityAttempt (k : Key) (holdSeconds maxAttempts : Z) : Op (result DbError Z)
| CompleteIntegrityAttempt (k : Key) (status : AttemptStatus) (lastError : option string) (retryAfter : Z) : Op (result DbError unit)
| ReleaseIntegrityAttempt (k : Key) : Op (result DbError unit)
| InsertIntegrityResult (k : Key) (r : Result) : Op (result DbError unit)
| GetTranscriptByID (id : Z) : Op (result DbError (option string))
| IsInIntegrityCheckedSet (id : Z) : Op (result DbError bool)
| IsLegacyLineageContent (id : Z) (hash : string) : Op (result DbError bool)
| ReadEncryptedTranscript (id : Z) (hash : string) : Op (result unit (string * string))   (** the content that was read, and its hash *)
| ReadPublishMetadata (id : Z) : Op (result unit (option string)).

(** What an operation may turn out to be: whether and when its statement fails,
    what the network and the object store answer, and how rows of equal rank come. *)
Record Choice : Type := mkChoice {
  fails : option bool;
  wire : Transport;
  cancelled : bool;
  ties : Z -> Z;
  body : result unit (string * string);
  metadata : result unit (option string)
}.

(** ** Statements *)
Definition in_checked_set (r : Row) : bool := String.eqb (Visibility r) "public" || HasShares r.
(** A row the ledger does not hold back. *)
Definition due (w : World) (version : string) (maxAttempts : Z) (id : Z) (hash : string) : bool :=
  negb (is_some_b (results w !! (id, hash, version))) &&
  match attempts w !! (id, hash, version) with
  | Some a => bool_decide (Status a = StatusPending) && (NextAttemptAt a <=? db_now w) && (Attempts a <? maxAttempts)
  | None => true
  end.
Definition owed (w : World) (version : string) (maxAttempts : Z) (p : Z * Row) : option (Z * string) :=
  match ContentHash p.2 with
  | Some hash => if in_checked_set p.2 && due w version maxAttempts p.1 hash then Some (p.1, hash) else None
  | None => None
  end.
(** Contents with no answer of any version first, then what changed last; the
    database's own order decides between equals. *)
Definition answered_before (w : World) (p : Z * string) : bool :=
  existsb (fun k : Key => (k.1.1 =? p.1) && String.eqb k.1.2 p.2) (map_to_list (results w)).*1.
Definition rank (ties : Z -> Z) (w : World) (p : Z * string) : list Z :=
  [if answered_before w p then 1 else 0; - from_option UpdatedAt 0 (rows w !! p.1); ties p.1].
Fixpoint rank_le (x y : list Z) : bool :=
  match x, y with a :: x, b :: y => (a <? b) || (a =? b) && rank_le x y | _, _ => true end.
Definition sql_candidates (ties : Z -> Z) (version : string) (maxAttempts batch : Z) (w : World) : list (Z * string) :=
  take (Z.to_nat batch) (merge_sort (fun p q => rank_le (rank ties w p) (rank ties w q)) (omap (owed w version maxAttempts) (map_to_list (rows w)))).
Definition claim (k : Key) (a : Attempt) (w : World) : result DbError (Z * World) :=
  Ok (Attempts a, set_attempts (<[k := a]> (attempts w)) (claimed w ++ [k]) (released w) w).
Definition sql_claim (k : Key) (hold maxAttempts : Z) (w : World) : result DbError (Z * World) :=
  match attempts w !! k with
  | None => if is_some_b (rows w !! k.1.1) then claim k (mkAttempt StatusPending 1 None (db_now w + hold)) w else Err ForeignKey
  | Some a =>
    if bool_decide (Status a = StatusPending) && (NextAttemptAt a <=? db_now w) && (Attempts a <? maxAttempts)
    then claim k (mkAttempt StatusPending (Attempts a + 1) (LastError a) (db_now w + hold)) w else Err NoRows
  end.
Definition sql_complete (k : Key) (status : AttemptStatus) (lastError : option string) (retryAfter : Z) (w : World) : World :=
  match attempts w !! k with
  | Some a => set_attempts (<[k := mkAttempt status (Attempts a) lastError (db_now w + retryAfter)]> (attempts w)) (claimed w) (released w) w
  | None => w
  end.
Definition sql_release (k : Key) (w : World) : World :=
  match attempts w !! k with
  | Some a =>
    if negb (bool_decide (Status a = StatusPending)) then w
    else if 1 <? Attempts a
    then set_attempts (<[k := mkAttempt StatusPending (Attempts a - 1) (LastError a) (db_now w)]> (attempts w)) (claimed w) (released w ++ [k]) w
    else if Attempts a =? 1 then set_attempts (delete k (attempts w)) (claimed w) (released w ++ [k]) w
    else w
  | None => w
  end.
(** The first answer stays. *)
Definition sql_insert_result (k : Key) (r : Result) (w : World) : result DbError (unit * World) :=
  if is_some_b (results w !! k) then Ok (tt, w)
  else if negb (is_some_b (rows w !! k.1.1)) then Err ForeignKey
  else Ok (tt, set_results (<[k := r]> (results w)) w).
(** The rewrites that lead to a content, as far back as they go: a chain is no
    longer than the table. *)
Fixpoint lineage (fuel : nat) (table : list Rewrite) (hash : string) : list Rewrite :=
  match fuel with
  | O => []
  | S fuel =>
    let steps := List.filter (fun r => String.eqb (InstalledContentHash r) hash) table in
    steps ++ concat ((fun r => lineage fuel table (ReplacedContentHash r)) <$> steps)
  end.
Definition sql_legacy (id : Z) (hash : string) (w : World) : bool :=
  let table := List.filter (fun r => RewriteOf r =? id) (rewrites w) in
  existsb ReplacedWasLegacy (lineage (length table) table hash).
Definition observe (server : Z) (v : string) (w : World) : World :=
  match held w !! server with
  | Some h => if compareScryVersions v h <=? 0 then w else set_held (<[server := v]> (held w)) w
  | None => set_held (<[server := v]> (held w)) w
  end.

Definition statement {A} (c : Choice) (w : World) (r : result DbError (A * World)) : result DbError A * World :=
  match fails c, r with
  | None, Ok (a, w') => (Ok a, w')
  | None, Err e => (Err e, w)
  | Some true, Ok (_, w') => (Err DbFailed, w')
  | Some _, _ => (Err DbFailed, w)
  end.
Section exec.
(** Whether the answer to a check counts against its attempt. *)
Variable counts : Key -> Z -> Transport -> bool.
Definition exec {X} (o : Op X) (c : Choice) (w : World) : X * World :=
  match o with
  | GetHealth => (wire c, w)
  | PostCheck k request turns => (wire c, set_sent (answered w ++ [(k, counts k turns (wire c))]) (sent w ++ [(k, request)]) w)
  | ObserveVersion s v => (tt, observe s v w)
  | CurrentVersion s => (default "" (held w !! s), w)
  | Cancelled => (cancelled c, w)
  | ListIntegrityCandidates v m b => statement c w (Ok (sql_candidates (ties c) v m b w, w))
  | ClaimIntegrityAttempt k h m => statement c w (sql_claim k h m w)
  | CompleteIntegrityAttempt k s e r => statement c w (Ok (tt, sql_complete k s e r w))
  | ReleaseIntegrityAttempt k => statement c w (Ok (tt, sql_release k w))
  | InsertIntegrityResult k r => statement c w (sql_insert_result k r w)
  | GetTranscriptByID id => statement c w (match rows w !! id with
      | Some r => Ok (ContentHash r, match ContentHash r with Some h => set_seen (Holds id h) w | None => w end)
      | None => Err NoRows
      end)
  | IsInIntegrityCheckedSet id => statement c w (match rows w !! id with
      | Some r => Ok (in_checked_set r, if in_checked_set r then set_seen (InSet id) w else w)
      | None => Ok (false, w)
      end)
  | IsLegacyLineageContent id h => statement c w (Ok (sql_legacy id h w, if sql_legacy id h w then w else set_seen (NotLegacy id h) w))
  | ReadEncryptedTranscript id _ => (body c, match body c with Ok (text, h) => set_seen (ReadAs id h text) w | Err _ => w end)
  | ReadPublishMetadata id => (metadata c, match metadata c with Ok m => set_seen (Published id m) w | Err _ => w end)
  end.
End exec.

(** What the rest of the backend and time do: transcripts come, change and go for
    good, with what is kept about them; a server that starts again holds no
    version. *)
Definition others (w w' : World) : Prop := exists r g l t h,
  w' = set_rows r g (filter (fun p => p.1.1.1 ∉ g) (attempts w)) (filter (fun p => p.1.1.1 ∉ g) (results w)) l t h w /\
  gone w ⊆ g /\ (forall id, id ∈ g -> r !! id = None) /\ rewrites w ⊆ l /\ db_now w <= t /\ h ⊆ held w.
End IntegrityStore.
