(* ===== verification/Integrity.v ===== *)
(** * The background integrity check

    The client of the check service ([scry/client.go]) and the worker that asks it
    about what others can read ([handler/integrity_worker.go], [integrity.go],
    [integrity_state.go]), as programs of Threads.v: any number of servers run
    their passes side by side. *)
From S2P Require Import Prelude GoText Threads IntegrityStore.

Open Scope string_scope.
Open Scope list_scope.
Open Scope Z_scope.

Module Integrity.
Import IntegrityStore.

(** [Contract]: the service's documents as the schema module reads and validates
    them, and what a request is made of: the migrated content of a transcript
    ([migrator.go], [content_preservation.go]), and its published metadata. *)
Record ScryCheckResponse : Type := mkResponse { ScryVersion : string; ResponseVerdict : string; ResponseTurns : list Z }.
Class Contract : Type := {
  ScryContractVersion : string;
  valid_check : string -> Z -> option ScryCheckResponse;
  valid_health : string -> option (string * string);            (** checker and contract version *)
  sniffs_raw : string -> bool;                                  (** [sniffShape] says raw JSONL *)
  migrate : string -> option (string * Z);                      (** the session detail, and its turns *)
  valid_values : string -> bool;                                (** observed models and thinking levels *)
  buildScryRequest : Z -> string -> option string -> option string
}.

(** ** The client *)
Inductive ErrorClass := ClassTimeout | ClassUnavailable | ClassRejected | ClassInvalidResponse | ClassTooLarge.
Definition class_text (c : ErrorClass) : string :=
  match c with
  | ClassTimeout => "timeout" | ClassUnavailable => "unavailable" | ClassRejected => "rejected"
  | ClassInvalidResponse => "invalid_response" | ClassTooLarge => "too_large"
  end.
Record Error : Type := mkError { Class_ : ErrorClass; Status_ : Z }.
Definition maxResponseBytes : Z := 2 ^ 20.
Definition classifyStatus (status : Z) : ErrorClass :=
  if status =? 413 then ClassTooLarge
  else if (status =? 408) || (status =? 429) || (500 <=? status) then ClassUnavailable
  else ClassRejected.
(** [HTTPClient.do], of what the transport answered. *)
Definition do_http (t : Transport) : result Error string :=
  match t with
  | NoAnswer timeout => Err (mkError (if timeout then ClassTimeout else ClassUnavailable) 0)
  | Answer status body =>
    if negb (status =? 200) then Err (mkError (classifyStatus status) status)
    else match body with
      | inr true => Err (mkError ClassTimeout 0)
      | inr false => Err (mkError ClassUnavailable status)
      | inl body => if maxResponseBytes <? blen body then Err (mkError ClassInvalidResponse status) else Ok body
      end
  end.

Section worker.
Context `{contract : Contract}.
Definition Check (turns : Z) (t : Transport) : result Error ScryCheckResponse :=
  match do_http t with
  | Err e => Err e
  | Ok body => match valid_check body turns with Some r => Ok r | None => Err (mkError ClassInvalidResponse 200) end
  end.
Definition Health (t : Transport) : result Error string :=
  match do_http t with
  | Err e => Err e
  | Ok body => match valid_health body with
    | None => Err (mkError ClassInvalidResponse 200)
    | Some (version, spoken) => if String.eqb spoken ScryContractVersion then Ok version else Err (mkError ClassRejected 200)
    end
  end.
(** Whether a check was refused for the shared secret. *)
Definition noteCheckResult {A} (r : result Error A) : bool :=
  match r with Ok _ => false | Err e => (Status_ e =? 401) || (Status_ e =? 403) end.
(** An answer counts unless the secret was refused or an older checker gave it. *)
Definition counts (k : Key) (turns : Z) (t : Transport) : bool :=
  match Check turns t with
  | Ok r => negb (compareScryVersions (ScryVersion r) k.2 <? 0)
  | Err e => negb (noteCheckResult (A := unit) (Err e))
  end.

(** ** One transcript *)
Definition integrityBatchSize : Z := 10.
Definition backgroundCheckTimeout : Z := 30 * second.
Definition maxIntegrityAttempts : Z := 6.
Definition maxIntegrityBackoff : Z := 6 * 3600 * second.
Definition integrityAttemptHold : Z := 2 * backgroundCheckTimeout.
Definition integrityBackoff (attempts : Z) : Z :=
  let attempts := if attempts <? 0 then 0 else attempts in
  if 9 <=? attempts then maxIntegrityBackoff else Z.min (Z.shiftl (60 * second) attempts) maxIntegrityBackoff.

Inductive Outcome := OutcomeChecked | OutcomeLegacy | OutcomeReadFailed | OutcomeNotCandidate | OutcomeSecretRefused | OutcomeStoreFailed | OutcomeFailed (c : ErrorClass).
Definition outcome_sent (o : Outcome) : bool :=
  match o with OutcomeLegacy | OutcomeReadFailed | OutcomeNotCandidate | OutcomeSecretRefused => false | _ => true end.
(** The answer, how the check ended, and whether an error of village's own came with it. *)
Definition Ending : Type := option ScryCheckResponse * Outcome * bool.
Notation Prog := (prog Op unit).

Definition recordIntegrityResult (id : Z) (hash : string) (r : ScryCheckResponse) : Prog (result DbError unit) :=
  do_ (InsertIntegrityResult (id, hash, ScryVersion r) (mkResult (ResponseVerdict r) (wrap32 <$> ResponseTurns r))).
Definition checkTranscript (server : Z) (k : Key) : Prog Ending :=
  let '(id, hash, version) := k in
  fresh ← do_ (GetTranscriptByID id);
  match fresh with
  | Err NoRows => mret (None, OutcomeNotCandidate, false)
  | Err _ => mret (None, OutcomeReadFailed, true)
  | Ok held =>
    if negb (bool_decide (held = Some hash)) then mret (None, OutcomeNotCandidate, false)
    else
      inSet ← do_ (IsInIntegrityCheckedSet id);
      match inSet with
      | Err _ => mret (None, OutcomeReadFailed, true)
      | Ok false => mret (None, OutcomeNotCandidate, false)
      | Ok true =>
        legacy ← do_ (IsLegacyLineageContent id hash);
        match legacy with
        | Err _ => mret (None, OutcomeReadFailed, true)
        | Ok true => mret (None, OutcomeLegacy, false)
        | Ok false =>
          read ← do_ (ReadEncryptedTranscript id hash);
          match read with
          | Err _ => mret (None, OutcomeReadFailed, false)
          | Ok (plaintext, read_hash) =>
            if negb (String.eqb read_hash hash) then mret (None, OutcomeNotCandidate, false)
            else if sniffs_raw plaintext then mret (None, OutcomeLegacy, false)
            else match migrate plaintext with
              | None => mret (None, OutcomeReadFailed, false)
              | Some (payload, turns) =>
                if negb (valid_values payload) then mret (None, OutcomeReadFailed, false)
                else
                  metadata ← do_ (ReadPublishMetadata id);
                  match metadata with
                  | Err _ => mret (None, OutcomeReadFailed, false)
                  | Ok metadata => match buildScryRequest id payload metadata with
                    | None => mret (None, OutcomeReadFailed, false)
                    | Some req =>
                      answer ← do_ (PostCheck k req turns);
                      match Check turns answer with
                      | Err e => mret (None, if noteCheckResult (A := unit) (Err e) then OutcomeSecretRefused else OutcomeFailed (Class_ e), false)
                      | Ok resp =>
                        _ ← do_ (ObserveVersion server (ScryVersion resp));
                        stored ← recordIntegrityResult id hash resp;
                        mret (Some resp, OutcomeChecked, negb (is_ok stored))
                      end
                    end
                  end
              end
          end
        end
      end
  end.
(** An error of village's own makes the attempt a failed one. *)
Definition settled (e : Ending) : option ScryCheckResponse * Outcome :=
  let '(resp, outcome, failed) := e in
  (resp, if failed then match outcome with OutcomeChecked => OutcomeStoreFailed | _ => OutcomeReadFailed end else outcome).
Definition completion (k : Key) (attempts : Z) (o : Outcome) : Op (result DbError unit) :=
  let failed last := if maxIntegrityAttempts <=? attempts then CompleteIntegrityAttempt k StatusFailed last 0
    else CompleteIntegrityAttempt k StatusPending last (integrityBackoff attempts) in
  match o with
  | OutcomeChecked => CompleteIntegrityAttempt k StatusDone None 0
  | OutcomeLegacy => CompleteIntegrityAttempt k StatusSkipped (Some "legacy_content") 0
  | OutcomeFailed ClassTooLarge => CompleteIntegrityAttempt k StatusSkipped (Some (class_text ClassTooLarge)) 0
  | OutcomeFailed c => failed (Some (class_text c))
  | OutcomeStoreFailed => failed None
  | OutcomeReadFailed => failed (Some "read_failed")
  | OutcomeNotCandidate | OutcomeSecretRefused => ReleaseIntegrityAttempt k
  end.
(** Whether something was sent, and whether the pass must end. *)
Definition checkCandidate (server : Z) (k : Key) : Prog (bool * bool) :=
  taken ← do_ (ClaimIntegrityAttempt k integrityAttemptHold maxIntegrityAttempts);
  match taken with
  | Err _ => mret (false, false)
  | Ok attempts =>
    ended ← checkTranscript server k;
    let '(resp, outcome) := settled ended in
    match outcome, resp with
    | OutcomeChecked, Some resp =>
      if compareScryVersions (ScryVersion resp) k.2 <? 0
      then _ ← do_ (ReleaseIntegrityAttempt k); mret (true, false)
      else _ ← do_ (completion k attempts OutcomeChecked); mret (true, false)
    | _, _ => _ ← do_ (completion k attempts outcome);
      mret (outcome_sent outcome, match outcome with OutcomeSecretRefused => true | _ => false end)
    end
  end.

(** ** One pass *)
Inductive Round := RoundOver | RoundStopped | RoundAdvanced (budget : Z).
Fixpoint check_rows (server : Z) (version : string) (l : list (Z * string)) (budget : Z) : Prog Round :=
  match l with
  | [] => mret RoundOver
  | (id, hash) :: l =>
    stopped ← do_ Cancelled;
    if (stopped : bool) then mret RoundStopped
    else
      '(_, stop) ← checkCandidate server (id, hash, version);
      if (stop : bool) then mret RoundStopped
      else
        held ← do_ (CurrentVersion server);
        if negb (String.eqb held version) then mret (RoundAdvanced (budget - 1)) else check_rows server version l (budget - 1)
  end.
(** Each round that is not the last takes one of the budget at least, which is
    then the fuel. *)
Fixpoint rounds (fuel : nat) (server : Z) (budget : Z) : Prog unit :=
  match fuel with
  | O => mret tt
  | S fuel =>
    if budget <=? 0 then mret tt
    else
      version ← do_ (CurrentVersion server);
      l ← do_ (ListIntegrityCandidates version maxIntegrityAttempts budget);
      match l with
      | Err _ => mret tt
      | Ok l =>
        r ← check_rows server version l budget;
        match r with RoundAdvanced budget => rounds fuel server budget | _ => mret tt end
      end
  end.
Definition integrityTick (server : Z) : Prog unit :=
  answer ← do_ GetHealth;
  match Health answer with
  | Err _ => mret tt
  | Ok version =>
    _ ← do_ (ObserveVersion server version);
    rounds (Z.to_nat integrityBatchSize) server integrityBatchSize
  end.

(** Passes of any server, with whatever else goes on. *)
Definition executes (X : Type) (o : Op X) (c : Choice) (w : World) : option (X * World) := Some (exec counts o c w).
Definition ticks (p : Prog unit) : Prop := exists server, p = integrityTick server.
Definition checking := reaches executes others ticks.
End worker.
End Integrity.
