(* ===== verification/ScryVersions.v ===== *)
(** * Checker versions compare as numbers

    [compareScryVersions] compares digits: length first, then text. On versions of
    three numbers without leading zeros, which is what the service's contract
    allows, this is the order of the numbers. *)
From S2P Require Import Prelude GoText RepoName IntegrityStore.

Open Scope string_scope.
Open Scope list_scope.
Open Scope Z_scope.

Module ScryVersions.
Import IntegrityStore.

(** ** Digits *)
Definition digit (z : Z) : string := String (pretty_N_char (Z.to_N z)) "".
Lemma pretty_acc n : forall s, pretty_N_go n s = pretty_N_go n "" +:+ s.
Proof.
  induction n as [n IH] using (well_founded_induction N.lt_wf_0). intros s.
  destruct (decide (0 < n)%N) as [Hn|Hn]; [|assert (n = 0%N) as -> by lia; by rewrite !pretty_N_go_0].
  rewrite (pretty_N_go_step n s), (pretty_N_go_step n "") by done.
  assert (n / 10 < n)%N as Hlt by (apply N.div_lt; lia). rewrite (IH _ Hlt (String _ s)), (IH _ Hlt (String _ "")).
  by rewrite string_app_assoc.
Qed.
Lemma itoa_small z : 0 <= z < 10 -> itoa z = digit z.
Proof.
  intros Hz. assert (z = 0 \/ z = 1 \/ z = 2 \/ z = 3 \/ z = 4 \/ z = 5 \/ z = 6 \/ z = 7 \/ z = 8 \/ z = 9) as Hc by lia.
  by repeat destruct Hc as [->|Hc]; [..|subst z].
Qed.
Lemma itoa_pos z : 0 < z -> itoa z = pretty_N_go (Z.to_N z) "".
Proof. intros Hz. by destruct z. Qed.
Lemma itoa_step z : 10 <= z -> itoa z = itoa (z / 10) +:+ digit (z mod 10).
Proof.
  intros Hz. rewrite (itoa_pos z) by lia. rewrite pretty_N_go_step by lia. rewrite pretty_acc.
  rewrite (itoa_pos (z / 10)) by (Z.to_euclidean_division_equations; lia). unfold digit.
  by rewrite Z2N.inj_div, Z2N.inj_mod by lia.
Qed.

(** ** Comparing them *)
Lemma ltb_cons a b s t : String.ltb (String a s) (String b t) = (N_of_ascii a <? N_of_ascii b)%N || Ascii.eqb a b && String.ltb s t.
Proof.
  unfold String.ltb. cbn. destruct (ascii_compare_cases a b) as [[-> ->]|[[-> Hlt]|[-> Hlt]]].
  - by rewrite N.ltb_irrefl, Ascii.eqb_refl.
  - by rewrite (proj2 (N.ltb_lt _ _) Hlt).
  - destruct (N.ltb_spec (N_of_ascii a) (N_of_ascii b)); [lia|]. destruct (Ascii.eqb_spec a b) as [->|]; [lia|done].
Qed.
Lemma ltb_app s1 s2 t1 t2 : String.length s1 = String.length s2 ->
  String.ltb s1 s2 = true \/ (s1 = s2 /\ String.ltb t1 t2 = true) -> String.ltb (s1 +:+ t1) (s2 +:+ t2) = true.
Proof.
  revert s2. induction s1 as [|a s1 IH]; intros [|b s2]; cbn [String.length]; try done.
  - intros _ [Hl|[_ Ht]]; [done|exact Ht].
  - intros [= Hl]. change (String a s1 +:+ t1) with (String a (s1 +:+ t1)). change (String b s2 +:+ t2) with (String b (s2 +:+ t2)).
    rewrite !ltb_cons, !orb_true_iff, !andb_true_iff. intros [[H|[H1 H2]]|[[= -> ->] Ht]]; [by left|right; split; [done|]; apply IH; auto|].
    right. rewrite Ascii.eqb_refl. split; [done|]. apply IH; auto.
Qed.
Lemma digit_less x y : 0 <= x < y -> y < 10 -> String.ltb (digit x) (digit y) = true.
Proof.
  intros Hx Hy. assert (x = 0 \/ x = 1 \/ x = 2 \/ x = 3 \/ x = 4 \/ x = 5 \/ x = 6 \/ x = 7 \/ x = 8) as Hc by lia.
  repeat destruct Hc as [->|Hc]; [..|subst x].
  all: assert (y = 1 \/ y = 2 \/ y = 3 \/ y = 4 \/ y = 5 \/ y = 6 \/ y = 7 \/ y = 8 \/ y = 9) as Hd by lia.
  all: repeat destruct Hd as [->|Hd]; [..|subst y]; try (exfalso; lia); reflexivity.
Qed.
(** Fewer digits, or as many and less text. *)
Lemma itoa_less x : 0 <= x -> forall y, x < y ->
  blen (itoa x) < blen (itoa y) \/ (blen (itoa x) = blen (itoa y) /\ String.ltb (itoa x) (itoa y) = true).
Proof.
  intros Hx. induction x as [x IH] using (well_founded_induction (Z.lt_wf 0)). intros y Hy.
  destruct (Z.lt_ge_cases y 10) as [Hy10|Hy10].
  - right. rewrite !itoa_small by lia. split; [done|]. by apply digit_less.
  - rewrite (itoa_step y) by done. rewrite blen_app. change (blen (digit (y mod 10))) with 1.
    assert (0 < blen (itoa (y / 10))) as Hpos.
    { assert (0 < y / 10) as Hd by (Z.to_euclidean_division_equations; lia).
      pose proof (itoa_length_mono 1 (y / 10) ltac:(lia)) as Hm. change (blen (itoa 1)) with 1 in Hm. lia. }
    destruct (Z.lt_ge_cases x 10) as [Hx10|Hx10].
    + left. rewrite itoa_small by lia. change (blen (digit x)) with 1. lia.
    + rewrite (itoa_step x) by done. rewrite blen_app. change (blen (digit (x mod 10))) with 1.
      assert (0 <= x mod 10 < 10 /\ 0 <= y mod 10 < 10) as [Hmx Hmy] by (split; apply Z.mod_pos_bound; lia).
      destruct (Z.eq_dec (x / 10) (y / 10)) as [Heq|Hne].
      * right. rewrite Heq. split; [done|]. apply ltb_app; [done|]. right. split; [done|].
        apply digit_less; [|lia]. pose proof (Z.div_mod x 10 ltac:(lia)). pose proof (Z.div_mod y 10 ltac:(lia)). lia.
      * destruct (IH (x / 10) ltac:(Z.to_euclidean_division_equations; lia) ltac:(Z.to_euclidean_division_equations; lia) (y / 10)
          ltac:(Z.to_euclidean_division_equations; lia)) as [Hl|[Hl Ht]]; [left; lia|]. right. split; [lia|].
        apply ltb_app; [|by left]. unfold blen in Hl. lia.
Qed.
Lemma ltb_irrefl s : String.ltb s s = false.
Proof. unfold String.ltb. pose proof (String.compare_antisym s s) as Ha. by destruct (String.compare s s). Qed.

(** How one number compares with another, as [compareScryVersions] does it. *)
Definition compare_part (x y : string) : Z := if negb (blen x =? blen y) then if blen x <? blen y then -1 else 1 else text_compare x y.
Lemma compare_part_numbers x y : 0 <= x -> 0 <= y -> compare_part (itoa x) (itoa y) = if x <? y then -1 else if x =? y then 0 else 1.
Proof.
  intros Hx Hy. unfold compare_part, text_compare. destruct (Z.ltb_spec x y) as [Hlt|Hge].
  - destruct (itoa_less x Hx y Hlt) as [Hl|[Hl Ht]].
    + destruct (Z.eqb_spec (blen (itoa x)) (blen (itoa y))); [lia|]. by destruct (Z.ltb_spec (blen (itoa x)) (blen (itoa y))); [|lia].
    + rewrite Hl, Z.eqb_refl. cbn. destruct (String.eqb_spec (itoa x) (itoa y)) as [Heq|]; [by rewrite Heq, ltb_irrefl in Ht|by rewrite Ht].
  - destruct (Z.eqb_spec x y) as [->|Hne]; [by rewrite Z.eqb_refl, String.eqb_refl|].
    destruct (itoa_less y Hy x ltac:(lia)) as [Hl|[Hl Ht]].
    + destruct (Z.eqb_spec (blen (itoa x)) (blen (itoa y))); [lia|]. by destruct (Z.ltb_spec (blen (itoa x)) (blen (itoa y))); [lia|].
    + rewrite <- Hl, Z.eqb_refl. cbn. destruct (String.eqb_spec (itoa x) (itoa y)) as [Heq|]; [by rewrite Heq, ltb_irrefl in Ht|].
      destruct (String.ltb (itoa x) (itoa y)) eqn:Hxy; [|done]. exfalso. revert Ht Hxy. unfold String.ltb.
      rewrite (String.compare_antisym (itoa x) (itoa y)). by destruct (String.compare (itoa y) (itoa x)).
Qed.
Lemma itoa_no_dot z : 0 <= z -> contains_byte "." (itoa z) = false.
Proof.
  intros Hz. apply not_true_iff_false. intros (c & Hc & Heq)%existsb_exists. apply Ascii.eqb_eq in Heq as <-.
  apply list_elem_of_In in Hc. pose proof (list_elem_of_fmap_2 byte_of _ _ Hc) as Hin.
  pose proof (itoa_bytes (fun b => b <> 46) z Hz ltac:(cbv beta; lia)) as Hf. by eapply Forall_forall in Hf; [|exact Hin].
Qed.
(** MAJOR.MINOR.PATCH *)
Definition version (a b c : Z) : string := itoa a +:+ "." +:+ itoa b +:+ "." +:+ itoa c.
Lemma version_parts a b c : 0 <= a -> 0 <= b -> 0 <= c -> split_on "." (version a b c) = [itoa a; itoa b; itoa c].
Proof.
  intros Ha Hb Hc. unfold version.
  change (itoa a +:+ "." +:+ itoa b +:+ "." +:+ itoa c) with (itoa a +:+ String "." (itoa b +:+ String "." (itoa c))).
  rewrite !RepoName.split_on_app.
  by rewrite !RepoName.split_on_single by by apply itoa_no_dot.
Qed.
Definition numbers_less (a b c a' b' c' : Z) : Prop := a < a' \/ a = a' /\ (b < b' \/ b = b' /\ c < c').

(** Also: two checker versions compare as their three numbers do, component by
    component: less, equal or more. *)
Theorem versions_compare_as_numbers (a b c a' b' c' : N) :
  let v := version (Z.of_N a) (Z.of_N b) (Z.of_N c) in
  let v' := version (Z.of_N a') (Z.of_N b') (Z.of_N c') in
  (compareScryVersions v v' < 0 <-> numbers_less (Z.of_N a) (Z.of_N b) (Z.of_N c) (Z.of_N a') (Z.of_N b') (Z.of_N c')) /\
  (compareScryVersions v v' = 0 <-> (a, b, c) = (a', b', c')).
Proof.
  cbv zeta. unfold compareScryVersions. rewrite !version_parts by lia.
  assert (forall x y xs ys, compare_parts (x :: xs) (y :: ys) = if compare_part x y =? 0 then compare_parts xs ys else compare_part x y) as Hstep.
  { intros x y xs ys. cbn. unfold compare_part. destruct (blen x =? blen y); cbn; [by destruct (text_compare x y =? 0)|].
    by destruct (blen x <? blen y). }
  rewrite !Hstep, !compare_part_numbers by lia. cbn [compare_parts length]. unfold numbers_less.
  destruct (Z.ltb_spec (Z.of_N a) (Z.of_N a')), (Z.eqb_spec (Z.of_N a) (Z.of_N a')), (Z.ltb_spec (Z.of_N b) (Z.of_N b')),
    (Z.eqb_spec (Z.of_N b) (Z.of_N b')), (Z.ltb_spec (Z.of_N c) (Z.of_N c')), (Z.eqb_spec (Z.of_N c) (Z.of_N c')); cbn; split; split; intros Hx;
    try lia; try (by simplify_eq); try (f_equal; [f_equal|]; lia).
Qed.
End ScryVersions.
