(* ===== verification/IntegrityLedger.v ===== *)
(** * What the ledger of check attempts bounds

    No content is answered for more often than the ledger allows under one
    version of the checker, whatever servers, passes and failures meet; and one
    pass takes no more attempts than its batch. *)
From S2P Require Import Prelude GoText Threads IntegrityStore Integrity.

Open Scope string_scope.
Open Scope list_scope.
Open Scope Z_scope.

Module IntegrityLedger.
Import IntegrityStore Integrity.

(** ** The ledger *)
Definition held_attempts (o : option Attempt) : Z := from_option Attempts 0 o.
Record LedgerInv (w : World) : Prop := {
  gone_rows : forall id, id ∈ gone w -> rows w !! id = None;
  gone_attempts : forall k, k.1.1 ∈ gone w -> attempts w !! k = None;
  capped : forall k a, attempts w !! k = Some a -> 1 <= Attempts a <= maxIntegrityAttempts;
  accounted : forall k, k.1.1 ∉ gone w ->
    Z.of_nat (count k (claimed w)) = held_attempts (attempts w !! k) + Z.of_nat (count k (released w));
  never_more : forall k, Z.of_nat (count k (claimed w)) <= maxIntegrityAttempts + Z.of_nat (count k (released w))
}.
(** What decides the ledger is left alone. *)
Definition same_ledger (w w' : World) : Prop :=
  rows w' = rows w /\ gone w' = gone w /\ attempts w' = attempts w /\ claimed w' = claimed w /\ released w' = released w.
Lemma ledger_same w w' : same_ledger w w' -> LedgerInv w -> LedgerInv w'.
Proof. intros (Hr & Hg & Ha & Hc & Hl) [? ? ? ? ?]. by split; rewrite ?Hr, ?Hg, ?Ha, ?Hc, ?Hl. Qed.

(** One row of the ledger changes, with what was taken and given back of it. *)
Lemma ledger_update w k (o : option Attempt) c r : LedgerInv w -> k.1.1 ∉ gone w ->
  (forall a, o = Some a -> 1 <= Attempts a <= maxIntegrityAttempts) ->
  (forall k', Z.of_nat (count k' c) = if decide (k' = k) then held_attempts o + Z.of_nat (count k r) else Z.of_nat (count k' (claimed w))) ->
  (forall k', k' <> k -> count k' r = count k' (released w)) ->
  LedgerInv (set_attempts (partial_alter (fun _ => o) k (attempts w)) c r w).
Proof.
  intros [Hr Hg Hc Ha Hn] Hk Ho Hcount Hrel. split; cbn [rows gone attempts claimed released set_attempts].
  - exact Hr.
  - intros k' Hk'. rewrite lookup_partial_alter_ne by congruence. by apply Hg.
  - intros k' a. destruct (decide (k' = k)) as [->|Hne]; [rewrite lookup_partial_alter_eq; apply Ho|].
    rewrite lookup_partial_alter_ne by congruence. apply Hc.
  - intros k' Hk'. rewrite Hcount. case_decide as Hd; [by subst; rewrite lookup_partial_alter_eq|].
    rewrite lookup_partial_alter_ne by congruence. rewrite Hrel by done. by apply Ha.
  - intros k'. rewrite Hcount. case_decide as Hd; [|rewrite Hrel by done; apply Hn]. subst k'.
    destruct o as [a|]; [specialize (Ho a eq_refl)|]; cbn; unfold maxIntegrityAttempts in *; lia.
Qed.
Lemma taken_alive w k a : LedgerInv w -> attempts w !! k = Some a -> k.1.1 ∉ gone w.
Proof. intros Hi Ha Hg. by rewrite (gone_attempts w Hi k Hg) in Ha. Qed.
Lemma row_alive w id r : LedgerInv w -> rows w !! id = Some r -> id ∉ gone w.
Proof. intros Hi Ha Hg. by rewrite (gone_rows w Hi id Hg) in Ha. Qed.
Lemma ledger_claim w k hold x : LedgerInv w -> sql_claim k hold maxIntegrityAttempts w = Ok x -> LedgerInv x.2.
Proof.
  intros Hi. unfold sql_claim. destruct (attempts w !! k) as [a|] eqn:Ha.
  - destruct (_ && _) eqn:Hg; [|done]. apply andb_true_iff in Hg as [_ Hlt%Z.ltb_lt]. intros [= <-].
    pose proof (taken_alive w k a Hi Ha) as Hk. pose proof (accounted w Hi k Hk) as Hc. rewrite Ha in Hc. cbn in Hc.
    pose proof (capped w Hi k a Ha). apply (ledger_update w k (Some _)); [done..| | |done].
    + intros b [= <-]. cbn. lia.
    + intros k'. rewrite count_app, count_one. repeat case_decide; subst; cbn; try done; lia.
  - destruct (rows w !! k.1.1) as [r|] eqn:Hr; [|done]. intros [= <-].
    pose proof (row_alive w _ r Hi Hr) as Hk. pose proof (accounted w Hi k Hk) as Hc. rewrite Ha in Hc. cbn in Hc.
    apply (ledger_update w k (Some _)); [done..| | |done].
    + intros b [= <-]. cbn. unfold maxIntegrityAttempts. lia.
    + intros k'. rewrite count_app, count_one. repeat case_decide; subst; cbn; try done; lia.
Qed.
Lemma ledger_complete w k s e r : LedgerInv w -> LedgerInv (sql_complete k s e r w).
Proof.
  intros Hi. unfold sql_complete. destruct (attempts w !! k) as [a|] eqn:Ha; [|done].
  pose proof (taken_alive w k a Hi Ha) as Hk. pose proof (accounted w Hi k Hk) as Hc. rewrite Ha in Hc.
  apply (ledger_update w k (Some _)); [done..| | |done].
  - intros b [= <-]. cbn. by apply (capped w Hi k).
  - intros k'. case_decide; by subst.
Qed.
Lemma ledger_release w k : LedgerInv w -> LedgerInv (sql_release k w).
Proof.
  intros Hi. unfold sql_release. destruct (attempts w !! k) as [a|] eqn:Ha; [|done]. destruct (negb _); [done|].
  pose proof (taken_alive w k a Hi Ha) as Hk. pose proof (accounted w Hi k Hk) as Hc. rewrite Ha in Hc. cbn in Hc.
  pose proof (capped w Hi k a Ha).
  assert (forall k', k' <> k -> count k' (released w ++ [k]) = count k' (released w)) as Hother.
  { intros k' Hne. rewrite count_app, count_one, decide_False by congruence. lia. }
  assert (count k (released w ++ [k]) = (count k (released w) + 1)%nat) as Hone by (by rewrite count_app, count_one, decide_True by done).
  destruct (Z.ltb_spec 1 (Attempts a)); [|destruct (Z.eqb_spec (Attempts a) 1) as [Heq|]; [|done]].
  - apply (ledger_update w k (Some _)); [done..| | |done].
    + intros b [= <-]. cbn. lia.
    + intros k'. case_decide; subst; [rewrite Hone; cbn; lia|done].
  - apply (ledger_update w k None); [done..| |done]. intros k'. case_decide; subst; [rewrite Hone; cbn; lia|done].
Qed.
Lemma ledger_others w w' : LedgerInv w -> others w w' -> LedgerInv w'.
Proof.
  intros [Hr Hg Hc Ha Hn] (r & g & l & t & h & -> & Hgone & Hnone & _). split; cbn [rows gone attempts claimed released set_rows].
  - exact Hnone.
  - intros k Hk. apply map_lookup_filter_None. right. cbn. auto.
  - intros k a [Hk _]%map_lookup_filter_Some. by eapply Hc.
  - intros k Hk. rewrite (Ha k) by set_solver. f_equal. f_equal. destruct (attempts w !! k) as [a|] eqn:Hka.
    + symmetry. by apply map_lookup_filter_Some.
    + symmetry. apply map_lookup_filter_None. by left.
  - exact Hn.
Qed.

Section bounds.
Context `{contract : Contract}.
Lemma check_statement_keeps {A} (P : World -> Prop) c w (r : result DbError (A * World)) : P w -> (forall x, r = Ok x -> P x.2) -> P (statement c w r).2.
Proof. intros Hw Hr. unfold statement. destruct (fails c) as [[]|], r as [[a w']|e]; cbn; try done; by apply (Hr (a, w')). Qed.
(** Claims are made under the worker's cap. *)
Definition capped_claim {X} (o : Op X) : Prop := match o with ClaimIntegrityAttempt _ _ m => m = maxIntegrityAttempts | _ => True end.
Lemma same_ledger_refl w : same_ledger w w.
Proof. done. Qed.
Lemma ledger_exec {X} (o : Op X) c w : capped_claim o -> LedgerInv w -> LedgerInv (exec counts o c w).2.
Proof.
  destruct o; cbn [capped_claim exec]; intros Hcap Hi; try (apply check_statement_keeps; [done|]); try done.
  - by apply (ledger_same w).
  - unfold observe. repeat case_match; try done; by apply (ledger_same w).
  - by intros ? [= <-].
  - intros [a w'] Heq. subst maxAttempts. by eapply ledger_claim.
  - intros ? [= <-]. by apply ledger_complete.
  - intros ? [= <-]. by apply ledger_release.
  - intros ? Heq. unfold sql_insert_result in Heq. repeat case_match; simplify_eq; [done|]. by apply (ledger_same w).
  - intros ? Heq. destruct (rows w !! id) as [r|]; [|done]. injection Heq as <-. destruct (ContentHash r); [|done]. by apply (ledger_same w).
  - intros ? Heq. destruct (rows w !! id) as [r|]; injection Heq as <-; [|done]. destruct (in_checked_set r); [|done]. by apply (ledger_same w).
  - intros ? [= <-]. cbn. destruct (sql_legacy _ _ _); [done|]. by apply (ledger_same w).
  - cbn. destruct (body c) as [[? ?]|]; [|done]. by apply (ledger_same w).
  - cbn. destruct (metadata c); [|done]. by apply (ledger_same w).
Qed.
Lemma check_executes {X} (o : Op X) c w x w' : executes X o c w = Some (x, w') -> w' = (exec counts o c w).2.
Proof. unfold executes. destruct (exec counts o c w). by intros [= <- <-]. Qed.

(** ** What the parts of a pass take and use *)
Variable k : Key.
Definition earns {X} (o : Op X) : X -> nat :=
  match o in Op X return X -> nat with
  | ClaimIntegrityAttempt k' _ _ => fun r => if is_ok r && bool_decide (k' = k) then 1%nat else 0%nat
  | _ => fun _ => 0%nat
  end.
Definition spends {X} (o : Op X) : X -> nat :=
  match o in Op X return X -> nat with
  | PostCheck k' _ turns => fun t => if bool_decide (k' = k) && counts k' turns t then 1%nat else 0%nat
  | ReleaseIntegrityAttempt k' => fun _ => if bool_decide (k' = k) then 1%nat else 0%nat
  | _ => fun _ => 0%nat
  end.
#[local] Notation solvent := (solvent (@earns) (@spends)).
#[local] Notation affords := (affords (@earns) (@spends)).
(** Endings whose attempt is given back. *)
Definition given_back (k' : Key) (e : Ending) : bool :=
  match settled e with
  | (_, OutcomeNotCandidate) | (_, OutcomeSecretRefused) => true
  | (Some r, OutcomeChecked) => compareScryVersions (ScryVersion r) k'.2 <? 0
  | _ => false
  end.
Definition left_for (k' : Key) (e : Ending) (m : nat) : Prop := k' = k -> given_back k' e = true -> (1 <= m)%nat.
Lemma transcript_affords server k' n : (k' = k -> (1 <= n)%nat) -> affords (left_for k') n (checkTranscript server k').
Proof.
  intros Hn. destruct k' as [[id hash] version]. unfold checkTranscript. set (k' := (id, hash, version)) in *.
  assert (forall x o b, left_for k' (x, o, b) (n - 0 + 0)) as Hany by (intros x o b Hk _; specialize (Hn Hk); lia).
  cbn. intros [h|[]]; (split; [lia|]); try apply Hany. destruct (negb _); [apply Hany|].
  rewrite Nat.sub_0_r, Nat.add_0_r in *. cbn. intros [[]|]; (split; [lia|]); rewrite Nat.sub_0_r, Nat.add_0_r; try apply Hany.
  cbn. intros [[]|]; (split; [lia|]); rewrite Nat.sub_0_r, Nat.add_0_r; try apply Hany.
  cbn. intros [[text h']|]; (split; [lia|]); rewrite Nat.sub_0_r, Nat.add_0_r; try apply Hany.
  destruct (negb _); [apply Hany|]. destruct (sniffs_raw _); [apply Hany|].
  destruct (migrate _) as [[payload turns]|]; [|apply Hany]. destruct (negb _); [apply Hany|].
  cbn. intros [m|]; (split; [lia|]); rewrite Nat.sub_0_r, Nat.add_0_r; [|apply Hany].
  destruct (buildScryRequest _ _ _); [|apply Hany]. cbn. intros t. change (id, hash, version) with k'.
  unfold counts. destruct (Check turns t) as [r|e] eqn:Ht.
  - case_bool_decide as Hk; cbn [andb]; [|split; [lia|]; cbn; intros _; (split; [lia|]); intros ?; (split; [lia|]); by intros ?].
    specialize (Hn Hk). destruct (_ <? 0) eqn:Hold; cbn; (split; [lia|]); intros _; (split; [lia|]); intros x; (split; [lia|]); intros _; [lia|].
    unfold given_back, settled. destruct (is_ok x); [|done]. cbn in Hold |- *. by rewrite Hold.
  - case_bool_decide as Hk; cbn [andb]; [|split; [lia|]; by intros ?]. specialize (Hn Hk). unfold noteCheckResult.
    destruct (_ || _); cbn; (split; [lia|]); intros _; [lia|]. done.
Qed.
Definition unsent (o : Outcome) : bool := match o with OutcomeNotCandidate | OutcomeSecretRefused => true | _ => false end.
Lemma completion_solvent k' a o m {A} (x : A) : (k' = k -> unsent o = true -> (1 <= m)%nat) ->
  solvent m (do_ (T := unit) (completion k' a o) ≫= fun _ => mret x).
Proof.
  intros Hm. unfold completion. destruct o as [| | | | | |[]]; try (destruct (_ <=? _)); intros y; cbn; try (split; [lia|done]).
  all: case_bool_decide; split; try done; try lia; by apply Hm.
Qed.
Lemma candidate_solvent server k' n : solvent n (checkCandidate server k').
Proof.
  intros r. split; [cbn; lia|]. destruct r as [a|e]; [|done]. cbn [earns spends is_ok andb].
  eapply affords_bind; [apply (transcript_affords server k')|].
  { intros Hk. rewrite bool_decide_eq_true_2 by done. lia. }
  intros e m Hm. unfold left_for, given_back in Hm. destruct (settled e) as [resp o].
  destruct o; try (by apply completion_solvent; destruct resp; auto). destruct resp as [r|]; [|by apply completion_solvent].
  destruct (_ <? 0); [|by apply completion_solvent]. intros y. cbn. case_bool_decide; split; try done; try lia. by apply Hm.
Qed.
Lemma check_rows_solvent server v l : forall b n, solvent n (check_rows server v l b).
Proof.
  induction l as [|[id hash] l IH]; intros b n; [done|]. intros stopped. split; [cbn; lia|]. destruct stopped; [done|].
  apply solvent_bind; [apply candidate_solvent|]. intros [_ [|]] m; [done|]. intros held. split; [cbn; lia|].
  cbn. destruct (String.eqb held v); [apply IH|done].
Qed.
Lemma rounds_solvent server fuel : forall b n, solvent n (rounds fuel server b).
Proof.
  induction fuel as [|fuel IH]; intros b n; [done|]. cbn [rounds]. destruct (b <=? 0); [done|].
  intros v. split; [cbn; lia|]. intros [l|e]; (split; [cbn; lia|]); [|done].
  apply solvent_bind; [apply check_rows_solvent|]. intros [| |b'] m; [done|done|apply IH].
Qed.
Lemma tick_solvent server n : solvent n (integrityTick server).
Proof.
  intros t. split; [cbn; lia|]. cbn [mbind prog_bind]. destruct (Health t); [|done]. intros u. split; [cbn; lia|]. apply rounds_solvent.
Qed.

(** ** Every pass claims under the cap *)
Lemma capped_check server k' : uses (fun X o => capped_claim o) (checkTranscript server k').
Proof.
  destruct k' as [[id hash] version]. unfold checkTranscript. apply uses_bind; [by split|]. intros [h|[]]; cbn; try done.
  destruct (negb _); cbn; [done|]. split; [done|]. intros [[]|]; cbn; try done. split; [done|]. intros [[]|]; cbn; try done.
  split; [done|]. intros [[text h']|]; cbn; try done. destruct (negb _); cbn; [done|]. destruct (sniffs_raw _); cbn; [done|].
  destruct (migrate _) as [[payload turns]|]; cbn; [|done]. destruct (negb _); cbn; [done|]. split; [done|].
  intros [m|]; cbn; [|done]. destruct (buildScryRequest _ _ _); cbn; [|done]. split; [done|]. intros t.
  by destruct (Check turns t); cbn.
Qed.
Lemma capped_completion k' a o {A} (x : A) : uses (fun X o => capped_claim o) (do_ (T := unit) (completion k' a o) ≫= fun _ => mret x).
Proof. apply uses_bind; [|done]. apply uses_do. unfold completion. destruct o as [| | | | | |[]]; try done; by destruct (_ <=? _). Qed.
Lemma capped_candidate server k' : uses (fun X o => capped_claim o) (checkCandidate server k').
Proof.
  split; [done|]. intros [a|e]; [|done]. apply uses_bind; [apply capped_check|]. intros e. destruct (settled e) as [resp o].
  destruct o; try (by destruct resp; apply capped_completion). destruct resp as [r|]; [|apply capped_completion].
  destruct (_ <? 0); [by split|apply capped_completion].
Qed.
Lemma capped_rows server v l : forall b, uses (fun X o => capped_claim o) (check_rows server v l b).
Proof.
  induction l as [|[id hash] l IH]; intros b; [done|]. split; [done|]. intros []; [done|]. apply uses_bind; [apply capped_candidate|].
  intros [_ []]; [done|]. split; [done|]. intros held. cbn. destruct (String.eqb held v); [apply IH|done].
Qed.
Lemma capped_rounds server fuel : forall b, uses (fun X o => capped_claim o) (rounds fuel server b).
Proof.
  induction fuel as [|fuel IH]; intros b; [done|]. cbn [rounds]. destruct (b <=? 0); [done|]. split; [done|]. intros v.
  split; [done|]. intros [l|e]; [|done]. apply uses_bind; [apply capped_rows|]. intros [| |b']; [done|done|apply IH].
Qed.
Lemma capped_tick server : uses (fun X o => capped_claim o) (integrityTick server).
Proof. split; [done|]. intros t. cbn [mbind prog_bind]. destruct (Health t); [|done]. split; [done|]. intros u. apply capped_rounds. Qed.

(** ** Counting *)
Definition earned (w : World) : nat := count k (claimed w).
Definition spent (w : World) : nat := count (k, true) (answered w) + count k (released w).
Definition same_counts (w w' : World) : Prop := claimed w' = claimed w /\ released w' = released w /\ answered w' = answered w.
Definition counted {X} (o : Op X) : bool :=
  match o with PostCheck _ _ _ | ClaimIntegrityAttempt _ _ _ | ReleaseIntegrityAttempt _ => true | _ => false end.
Lemma exec_same_counts {X} (o : Op X) c w : counted o = false -> same_counts w (exec counts o c w).2.
Proof.
  destruct o; cbn [counted]; try done; intros _; cbn [exec]; try (apply check_statement_keeps; [done|]); try done.
  - unfold observe. repeat case_match; done.
  - by intros ? [= <-].
  - intros ? [= <-]. unfold sql_complete. by case_match.
  - intros ? Heq. unfold sql_insert_result in Heq. by repeat case_match; simplify_eq.
  - intros ? Heq. destruct (rows w !! id) as [r|]; [|done]. injection Heq as <-. by destruct (ContentHash r).
  - intros ? Heq. destruct (rows w !! id) as [r|]; injection Heq as <-; [|done]. by destruct (in_checked_set r).
  - intros ? [= <-]. cbn. by destruct (sql_legacy _ _ _).
  - cbn. by destruct (body c) as [[? ?]|].
  - cbn. by destruct (metadata c).
Qed.
Lemma claim_counts k' h m w x : sql_claim k' h m w = Ok x -> claimed x.2 = claimed w ++ [k'] /\ released x.2 = released w /\ answered x.2 = answered w.
Proof. unfold sql_claim, claim. repeat case_match; try done; by intros [= <-]. Qed.
Lemma release_counts k' w : claimed (sql_release k' w) = claimed w /\ answered (sql_release k' w) = answered w /\
  (released (sql_release k' w) = released w \/ released (sql_release k' w) = released w ++ [k']).
Proof. unfold sql_release. repeat case_match; auto. Qed.
Lemma exec_earns X (o : Op X) c x w w' : executes X o c w = Some (x, w') -> (earned w + earns o x <= earned w' /\ spent w' <= spent w + spends o x)%nat.
Proof.
  unfold executes. destruct (exec counts o c w) as [x0 w0] eqn:He. intros [= <- <-]. unfold earned, spent.
  destruct (counted o) eqn:Hq; [|destruct (exec_same_counts o c w Hq) as (Hc & Hr & Ha); rewrite He in *; cbn in *;
    rewrite Hc, Hr, Ha; destruct o; cbn in *; try done; lia].
  destruct o; try done; cbn [exec] in He.
  - injection He as <- <-. cbn. rewrite count_app, count_one, andb_comm. repeat case_decide; repeat case_bool_decide; simplify_eq;
      destruct (counts _ _ _); cbn; try lia; congruence.
  - unfold statement in He. destruct (sql_claim k0 holdSeconds maxAttempts w) as [[a w1]|e] eqn:Hx.
    + pose proof (claim_counts _ _ _ _ _ Hx) as (Hc & Hr & Ha). cbn in *.
      destruct (fails c) as [[]|]; injection He as <- <-; cbn; rewrite ?Hc, ?Hr, ?Ha, ?count_app, ?count_one; try lia.
      case_decide; case_bool_decide; try done; lia.
    + destruct (fails c) as [[]|]; injection He as <- <-; cbn; lia.
  - unfold statement in He. destruct (release_counts k0 w) as (Hc & Ha & Hr).
    destruct (fails c) as [[]|]; injection He as <- <-; cbn; rewrite ?Hc, ?Ha; destruct Hr as [Hr|Hr]; rewrite ?Hr, ?count_app, ?count_one;
      try case_decide; try case_bool_decide; try done; lia.
Qed.
Lemma others_earn w w' : others w w' -> (earned w <= earned w' /\ spent w' <= spent w)%nat.
Proof. intros (r & g & l & t & h & -> & _). unfold earned, spent. cbn. lia. Qed.
End bounds.

(** A ledger that starts empty. *)
Definition starts_empty (w : World) : Prop := gone w = [] /\ attempts w = ∅ /\ claimed w = [] /\ released w = [] /\ answered w = [].
Lemma empty_ledger w : starts_empty w -> LedgerInv w.
Proof.
  intros (Hg & Ha & Hc & Hr & _). split; rewrite ?Hg, ?Ha, ?Hc, ?Hr; try (by intros ? ?%not_elem_of_nil); [done| |].
  - done.
  - intros k. cbn. unfold maxIntegrityAttempts. lia.
Qed.

(** C25: under one checker version, one content of a transcript gets at most
    [maxIntegrityAttempts] answers that count, failures and time-outs included,
    however many servers run their passes, and whatever statement is lost: an
    attempt that is given back was not answered, or by an older checker, or
    the secret was refused. *)
Theorem answered_within_cap `{contract : Contract} (w w' : World) l (k : Key) : starts_empty w ->
  checking ([], w) (l, w') -> Z.of_nat (count (k, true) (answered w')) <= maxIntegrityAttempts.
Proof.
  intros He Hr.
  assert (LedgerInv w') as Hi.
  { eapply (uses_invariant executes others ticks (fun X o => capped_claim o) LedgerInv); [..|exact Hr|by apply empty_ledger].
    - intros X o c x w1 w2 Ho Hi Hx. rewrite (check_executes _ _ _ _ _ Hx). by apply ledger_exec.
    - intros w1 w2. apply ledger_others.
    - intros p [server ->]. apply capped_tick. }
  assert (spent k w' <= earned k w')%nat as Hs.
  { eapply (credits_cover executes others ticks (@earns k) (@spends _ k)); [..|exact Hr|].
    - apply exec_earns.
    - apply others_earn.
    - intros p [server ->]. apply tick_solvent.
    - destruct He as (_ & _ & Hc & Hrel & Ha). unfold spent, earned. rewrite Ha, Hrel. unfold count. cbn. lia. }
  pose proof (never_more w' Hi k). unfold spent, earned in Hs. lia.
Qed.
End IntegrityLedger.
