(* ===== verification/IntegrityLaws.v ===== *)
(** * What is sent to the checker, and what its answers settle

    Of every interleaving of the passes of every server with whatever the rest of
    the backend does: what leaves for the service, and when an attempt counts as
    done. *)
From Stdlib Require Import FunctionalExtensionality.
From S2P Require Import Prelude GoText Threads IntegrityStore Integrity IntegrityLedger.

Open Scope string_scope.
Open Scope list_scope.
Open Scope Z_scope.

Module IntegrityLaws.
Import IntegrityStore Integrity IntegrityLedger.

Section laws.
Context `{contract : Contract}.

(** A request made of the content it was claimed for, of a transcript that was
    found to hold it, to be open to others and free of legacy content. *)
Definition backed (facts : list Fact) (k : Key) (request : string) : Prop :=
  let '(id, hash, _) := k in
  Holds id hash ∈ facts /\ InSet id ∈ facts /\ NotLegacy id hash ∈ facts /\
  exists text payload turns m, ReadAs id hash text ∈ facts /\ Published id m ∈ facts /\
    sniffs_raw text = false /\ migrate text = Some (payload, turns) /\ valid_values payload = true /\
    buildScryRequest id payload m = Some request.
(** An answer to a content by the checker of a version, or of a later one. *)
Definition stored (w : World) (k : Key) : Prop :=
  k.1.1 ∈ gone w \/ exists version, is_Some (results w !! (k.1.1, k.1.2, version)) /\ 0 <= compareScryVersions version k.2.

Record LawInv (w : World) : Prop := {
  ledger_part : LedgerInv w;
  sent_backed : forall k request, (k, request) ∈ sent w -> backed (seen w) k request;
  done_stored : forall k a, attempts w !! k = Some a -> Status a = StatusDone -> stored w k
}.
Record Moves (w w' : World) : Prop := {
  facts_stay : seen w ⊆ seen w';
  gone_stay : gone w ⊆ gone w';
  results_stay : forall k r, results w !! k = Some r -> results w' !! k = Some r \/ k.1.1 ∈ gone w'
}.
#[export] Instance moves_preorder : PreOrder Moves.
Proof.
  split; [split; auto|]. intros x y z [Hs1 Hg1 Hr1] [Hs2 Hg2 Hr2]. split; [by transitivity (seen y)|by transitivity (gone y)|].
  intros k r Hk. destruct (Hr1 k r Hk) as [Hy|Hy]; [auto|right; by apply Hg2].
Qed.
Lemma backed_more f f' k r : f ⊆ f' -> backed f k r -> backed f' k r.
Proof.
  intros Hf. destruct k as [[id hash] v]. intros (Hh & Hi & Hn & t & p & n & m & Ht & Hm & Hraw & Hp & Hv & Hb).
  split_and!; [by apply Hf..|]. exists t, p, n, m. split_and!; first [by apply Hf|done].
Qed.
Lemma stored_moves w w' k : Moves w w' -> stored w k -> stored w' k.
Proof.
  intros [_ Hg Hr] [Hk|(v & [r Hv] & Hc)]; [left; by apply Hg|]. destruct (Hr _ r Hv) as [H|H]; [right; exists v; eauto|by left].
Qed.

(** ** What operations need and tell *)
Definition allowed X (o : Op X) (w : World) : Prop :=
  match o with
  | PostCheck k request _ => backed (seen w) k request
  | CompleteIntegrityAttempt k StatusDone _ _ => stored w k
  | ClaimIntegrityAttempt _ _ m => m = maxIntegrityAttempts
  | _ => True
  end.
Definition learned X (o : Op X) : X -> World -> Prop :=
  match o in Op X return X -> World -> Prop with
  | GetTranscriptByID id => fun x w => forall h, x = Ok (Some h) -> Holds id h ∈ seen w
  | IsInIntegrityCheckedSet id => fun x w => x = Ok true -> InSet id ∈ seen w
  | IsLegacyLineageContent id h => fun x w => x = Ok false -> NotLegacy id h ∈ seen w
  | ReadEncryptedTranscript id _ => fun x w => forall text h, x = Ok (text, h) -> ReadAs id h text ∈ seen w
  | ReadPublishMetadata id => fun x w => forall m, x = Ok m -> Published id m ∈ seen w
  | InsertIntegrityResult k _ => fun x w => x = Ok tt -> k.1.1 ∈ gone w \/ is_Some (results w !! k)
  | _ => fun _ _ => True
  end.
Lemma check_allowed_stays X (o : Op X) w w' : Moves w w' -> allowed X o w -> allowed X o w'.
Proof.
  intros Hm. destruct o; cbn; try done; [by apply backed_more, Hm|]. destruct status; [done| |done..]. by apply stored_moves.
Qed.
Lemma check_learned_stays X (o : Op X) x w w' : Moves w w' -> learned X o x w -> learned X o x w'.
Proof.
  intros [Hs Hg Hr]. destruct o; cbn; try done.
  - intros Hl Hx. destruct (Hl Hx) as [?|[r0 Hk]]; [left; by apply Hg|]. destruct (Hr k r0 Hk); [right|left]; eauto.
  - intros Hl h Hx. by apply Hs, Hl.
  - intros Hl Hx. by apply Hs, Hl.
  - intros Hl Hx. by apply Hs, Hl.
  - intros Hl t h Hx. by apply Hs, Hl.
  - intros Hl m Hx. by apply Hs, Hl.
Qed.

(** ** Each operation keeps its part *)
(** Nothing the two parts look at is lost. *)
Lemma law_same w w' : LawInv w -> LedgerInv w' -> attempts w' = attempts w -> gone w' = gone w -> results w' = results w ->
  sent w' = sent w -> seen w ⊆ seen w' -> LawInv w' /\ Moves w w'.
Proof.
  intros [Hl Hs Hd] Hl' Ha Hg Hr Hsent Hf. assert (Moves w w') as Hm by (split; [done|by rewrite Hg|intros k r; rewrite Hr; auto]).
  split; [|done]. split; [done| |].
  - intros k r. rewrite Hsent. intros Hin. by eapply backed_more, Hs.
  - intros k a. rewrite Ha. intros Hk Hst. by eapply stored_moves, Hd.
Qed.
Lemma law_seen f w : LawInv w -> LawInv (set_seen f w) /\ Moves w (set_seen f w) /\ f ∈ seen (set_seen f w).
Proof.
  intros Hi. assert (LawInv (set_seen f w) /\ Moves w (set_seen f w)) as [? ?]; [|split_and!; [done..|cbn; set_solver]].
  apply law_same; try done; [|cbn; set_solver]. by apply (ledger_same w), ledger_part.
Qed.
(** A row of the ledger changes, and is done only when that is answered. *)
Lemma law_attempts w w' k : LawInv w -> LedgerInv w' -> (forall k', k' <> k -> attempts w' !! k' = attempts w !! k') ->
  (forall a, attempts w' !! k = Some a -> Status a = StatusDone -> stored w k) ->
  gone w' = gone w -> results w' = results w -> sent w' = sent w -> seen w' = seen w -> LawInv w' /\ Moves w w'.
Proof.
  intros [Hl Hs Hd] Hl' Ha Hk Hg Hr Hsent Hf.
  assert (Moves w w') as Hm by (split; [by rewrite Hf|by rewrite Hg|intros k' r; rewrite Hr; auto]).
  split; [|done]. split; [done| |].
  - intros k' r. rewrite Hsent, Hf. apply Hs.
  - intros k' a Hk' Hst. apply (stored_moves w); [done|]. destruct (decide (k' = k)) as [->|Hne]; [by eapply Hk|].
    rewrite Ha in Hk' by done. by eapply Hd.
Qed.
Lemma law_claim w k h x : LawInv w -> sql_claim k h maxIntegrityAttempts w = Ok x -> LawInv x.2 /\ Moves w x.2.
Proof.
  intros Hi Hx. pose proof (ledger_claim w k h x (ledger_part _ Hi) Hx) as Hl. revert Hl. unfold sql_claim, claim in Hx.
  repeat case_match; simplify_eq; cbn [snd]; intros Hl; apply (law_attempts _ _ k); try done; cbn.
  all: try (intros k' ?; by rewrite lookup_insert_ne by congruence).
  all: intros b; rewrite lookup_insert_eq; by intros [= <-].
Qed.
Lemma law_complete w k s e r : LawInv w -> (s = StatusDone -> stored w k) -> LawInv (sql_complete k s e r w) /\ Moves w (sql_complete k s e r w).
Proof.
  intros Hi Hs. pose proof (ledger_complete w k s e r (ledger_part _ Hi)) as Hl. revert Hl. unfold sql_complete.
  destruct (attempts w !! k) as [a|]; intros Hl; [|by split]. apply (law_attempts _ _ k); try done; cbn.
  - intros k' ?. by rewrite lookup_insert_ne by congruence.
  - intros b. rewrite lookup_insert_eq. by intros [= <-].
Qed.
Lemma law_release w k : LawInv w -> LawInv (sql_release k w) /\ Moves w (sql_release k w).
Proof.
  intros Hi. pose proof (ledger_release w k (ledger_part _ Hi)) as Hl. revert Hl. unfold sql_release.
  repeat case_match; intros Hl; try (by split); apply (law_attempts _ _ k); try done; cbn.
  - intros k' ?. by rewrite lookup_insert_ne by congruence.
  - intros b. rewrite lookup_insert_eq. by intros [= <-].
  - intros k' ?. by rewrite lookup_delete_ne by congruence.
  - intros b. by rewrite lookup_delete_eq.
Qed.
Lemma law_result w k r x : LawInv w -> sql_insert_result k r w = Ok x -> LawInv x.2 /\ Moves w x.2 /\ is_Some (results x.2 !! k).
Proof.
  intros Hi. unfold sql_insert_result. destruct (results w !! k) as [r0|] eqn:Hk; cbn; [intros [= <-]; split_and!; [done|done|eauto]|].
  destruct (negb _); [done|]. intros [= <-]. cbn [snd].
  assert (Moves w (set_results (<[k := r]> (results w)) w)) as Hm.
  { split; [done|done|]. intros k' r' Hk'. left. cbn. rewrite lookup_insert_ne; [done|congruence]. }
  destruct Hi as [Hl Hs Hd]. split_and!; [|done|cbn; rewrite lookup_insert_eq; eauto]. split; [by apply (ledger_same w)|exact Hs|].
  intros k' a Hk' Hst. apply (stored_moves w); [done|]. by eapply Hd.
Qed.
Lemma law_others w w' : LawInv w -> others w w' -> LawInv w' /\ Moves w w'.
Proof.
  intros Hi Ho. pose proof (ledger_others w w' (ledger_part _ Hi) Ho) as Hl. destruct Ho as (r & g & l & t & h & -> & Hg & _).
  destruct Hi as [_ Hs Hd]. set (w' := set_rows _ _ _ _ _ _ _ w).
  assert (Moves w w') as Hm.
  { split; [done|done|]. intros k x Hk. cbn. destruct (decide (k.1.1 ∈ g)) as [Hin|Hin]; [by right|left].
    by apply map_lookup_filter_Some. }
  split; [|done]. split; [done|exact Hs|]. intros k a [Hk _]%map_lookup_filter_Some Hst. apply (stored_moves w); [done|]. by eapply Hd.
Qed.
(** A statement that may fail, before or after its change. *)
Lemma law_statement {A} (L : A -> World -> Prop) c w (r : result DbError (A * World)) x w' : LawInv w -> statement c w r = (x, w') ->
  (forall a w1, r = Ok (a, w1) -> LawInv w1 /\ Moves w w1 /\ L a w1) ->
  LawInv w' /\ Moves w w' /\ forall a, x = Ok a -> L a w'.
Proof.
  intros Hi Hx Hr. unfold statement in Hx. destruct (fails c) as [[]|], r as [[a w1]|e]; injection Hx as <- <-;
    try (split_and!; [done|done|by intros ?]); destruct (Hr a w1 eq_refl) as (? & ? & ?); split_and!; try done. by intros ? [= <-].
Qed.
Lemma check_exec_keeps X (o : Op X) c x w w' : LawInv w -> allowed X o w -> executes X o c w = Some (x, w') ->
  LawInv w' /\ Moves w w' /\ learned X o x w'.
Proof.
  intros Hi Ha Hx. unfold executes in Hx. injection Hx as Hx. destruct o; cbn [exec allowed learned] in *.
  all: try (injection Hx as <- <-; by split_and!).
  - injection Hx as <- <-. destruct Hi as [Hl Hs Hd]. split_and!; [|by split; cbn; auto|done].
    split; [by apply (ledger_same w)| |exact Hd]. cbn. intros k' q [Hin|Hin]%elem_of_app; [by apply Hs|].
    apply list_elem_of_singleton in Hin. by injection Hin as -> ->.
  - injection Hx as <- <-. assert (LawInv (observe server v w) /\ Moves w (observe server v w)) as [? ?]; [|by split_and!].
    unfold observe. repeat case_match; try (by split); apply law_same; try done; by apply (ledger_same w), ledger_part.
  - destruct (law_statement (fun _ _ => True) _ _ _ _ _ Hi Hx) as (? & ? & _); [|done]. intros a w1 [= <- <-]. by split_and!.
  - destruct (law_statement (fun _ _ => True) _ _ _ _ _ Hi Hx) as (? & ? & _); [|done]. intros a w1 Heq. subst maxAttempts.
    destruct (law_claim _ _ _ _ Hi Heq). by split_and!.
  - destruct (law_statement (fun _ _ => True) _ _ _ _ _ Hi Hx) as (? & ? & _); [|done]. intros a w1 [= <- <-].
    destruct (law_complete w k status lastError retryAfter Hi); [|by split_and!]. intros ->. exact Ha.
  - destruct (law_statement (fun _ _ => True) _ _ _ _ _ Hi Hx) as (? & ? & _); [|done]. intros a w1 [= <- <-].
    destruct (law_release w k Hi). by split_and!.
  - destruct (law_statement (fun _ w => is_Some (results w !! k)) _ _ _ _ _ Hi Hx) as (? & ? & Hs).
    { intros a w1 Heq. by destruct (law_result _ _ _ _ Hi Heq) as (? & ? & ?). }
    split_and!; [done..|]. intros Hok. right. by eapply Hs.
  - destruct (law_statement (fun o w => forall h, o = Some h -> Holds id h ∈ seen w) _ _ _ _ _ Hi Hx) as (? & ? & Hs).
    { destruct (rows w !! id) as [r|]; [|done]. intros a w1 [= <- <-]. destruct (ContentHash r) as [h|]; [|by split_and!].
      destruct (law_seen (Holds id h) w Hi) as (? & ? & ?). split_and!; [done..|]. by intros ? [= <-]. }
    split_and!; [done..|]. intros h Hok. by eapply Hs.
  - destruct (law_statement (fun b w => b = true -> InSet id ∈ seen w) _ _ _ _ _ Hi Hx) as (? & ? & Hs).
    { destruct (rows w !! id) as [r|]; intros a w1 [= <- <-]; [|by split_and!]. destruct (in_checked_set r); [|by split_and!].
      destruct (law_seen (InSet id) w Hi) as (? & ? & ?). by split_and!. }
    split_and!; [done..|]. intros Hok. by eapply Hs.
  - destruct (law_statement (fun b w => b = false -> NotLegacy id hash ∈ seen w) _ _ _ _ _ Hi Hx) as (? & ? & Hs).
    { intros a w1 [= <- <-]. destruct (sql_legacy id hash w); [by split_and!|].
      destruct (law_seen (NotLegacy id hash) w Hi) as (? & ? & ?). by split_and!. }
    split_and!; [done..|]. intros Hok. by eapply Hs.
  - injection Hx as <- <-. destruct (body c) as [[text h]|]; [|by split_and!].
    destruct (law_seen (ReadAs id h text) w Hi) as (? & ? & ?). split_and!; [done..|]. by intros ? ? [= <- <-].
  - injection Hx as <- <-. destruct (metadata c) as [m|]; [|by split_and!].
    destruct (law_seen (Published id m) w Hi) as (? & ? & ?). split_and!; [done..|]. by intros ? [= <-].
Qed.

(** ** Every pass asks for what it learned *)
#[local] Notation safe := (safe (T := unit) executes LawInv Moves).
Lemma safe_op {X A} (o : Op X) (f : X -> prog Op unit A) Qs Q w : LawInv w -> allowed X o w ->
  (forall x w', LawInv w' -> Moves w w' -> learned X o x w' -> safe Qs Q (f x) w') -> safe Qs Q (do_ o ≫= f) w.
Proof.
  intros Hi Ha Hk. apply safe_bind; [apply moves_preorder|done|].
  apply (safe_contract executes LawInv Moves allowed learned); [exact check_allowed_stays|exact check_learned_stays|exact check_exec_keeps|done..|exact Hk].
Qed.
Definition settles (k : Key) (e : Ending) (w : World) : Prop :=
  match settled e with
  | (Some r, OutcomeChecked) => k.1.1 ∈ gone w \/ is_Some (results w !! (k.1.1, k.1.2, ScryVersion r))
  | (None, OutcomeChecked) => False
  | _ => True
  end.
Lemma transcript_safe server k w : LawInv w -> safe (fun _ _ => True) (settles k) (checkTranscript server k) w.
Proof.
  destruct k as [[id hash] version]. set (k := (id, hash, version)). intros Hi. unfold checkTranscript.
  assert (forall o b w0, o <> OutcomeChecked -> safe (fun _ _ => True) (settles k) (mret (None, o, b)) w0) as Hnone.
  { intros o b w0 Ho. apply safe_ret. intros w' _ _. unfold settles. by destruct b, o. }
  apply safe_op; [done..|]. intros x w1 H1 M1 L1. destruct x as [held|[]]; try by apply Hnone.
  destruct (decide (held = Some hash)) as [->|Hne]; [rewrite bool_decide_eq_true_2 by done|rewrite bool_decide_eq_false_2 by done; by apply Hnone].
  apply safe_op; [done..|]. intros [[]|] w2 H2 M2 L2; try by apply Hnone.
  apply safe_op; [done..|]. intros [[]|] w3 H3 M3 L3; try by apply Hnone.
  apply safe_op; [done..|]. intros [[text h]|] w4 H4 M4 L4; try by apply Hnone. destruct (String.eqb_spec h hash) as [->|]; [|by apply Hnone]. cbn [negb].
  destruct (sniffs_raw text) eqn:Hraw; [by apply Hnone|]. destruct (migrate text) as [[payload turns]|] eqn:Hmig; [|by apply Hnone].
  destruct (valid_values payload) eqn:Hval; [|by apply Hnone]. cbn [negb].
  apply safe_op; [done..|]. intros [m|] w5 H5 M5 L5; try by apply Hnone. destruct (buildScryRequest id payload m) as [req|] eqn:Hreq; [|by apply Hnone].
  apply safe_op; [done| |].
  { cbn in *. split_and!.
    - by apply M5, M4, M3, M2, (L1 hash).
    - by apply M5, M4, M3, L2.
    - by apply M5, M4, L3.
    - exists text, payload, turns, m. split_and!; try done; [by apply M5, (L4 text hash)|by apply L5]. }
  intros t w6 H6 M6 _. destruct (Check turns t) as [resp|e]; [|apply Hnone; by destruct (noteCheckResult _)].
  apply safe_op; [done..|]. intros [] w7 H7 M7 _. apply safe_op; [done..|]. intros y w8 H8 M8 L8.
  apply safe_ret. intros w9 M9 _. unfold settles. destruct y as [[]|]; cbn; [|done].
  exact (check_learned_stays _ _ _ _ _ M9 L8 eq_refl).
Qed.
Lemma candidate_safe server k w : LawInv w -> safe (fun _ _ => True) (fun _ _ => True) (checkCandidate server k) w.
Proof.
  intros Hi. apply safe_op; [done..|]. intros [a|e] w1 H1 M1 _; [|by apply safe_ret].
  apply (safe_call executes LawInv Moves _ (settles k)); [done|by apply transcript_safe|]. intros e w2 H2 M2 He. unfold settles in He.
  assert (forall o b w3, LawInv w3 -> o <> OutcomeChecked \/ stored w3 k ->
    safe (fun _ _ => True) (fun _ _ => True) (do_ (completion k a o) ≫= fun _ => mret (b : bool * bool)) w3) as Hdone.
  { intros o b w3 H3 Ho. apply safe_op; [done| |done]. unfold completion. destruct o as [| | | | | |[]]; try done; try (by destruct (_ <=? _)). by destruct Ho. }
  destruct (settled e) as [resp o]. destruct o; try (by destruct resp; apply Hdone; auto). destruct resp as [r|]; [|done].
  destruct (Z.ltb_spec (compareScryVersions (ScryVersion r) k.2) 0) as [Hold|Hnew]; [by apply safe_op|].
  apply Hdone; [done|]. right. destruct He as [?|?]; [by left|right; eauto].
Qed.
Lemma rows_safe server v l : forall b w, LawInv w -> safe (fun _ _ => True) (fun _ _ => True) (check_rows server v l b) w.
Proof.
  induction l as [|[id hash] l IH]; intros b w Hi; [done|]. apply safe_op; [done..|]. intros stopped w1 H1 _ _. destruct stopped; [done|].
  apply (safe_call executes LawInv Moves _ (fun _ _ => True)); [done|by apply candidate_safe|]. intros [_ stop] w2 H2 _ _. destruct stop; [done|].
  apply safe_op; [done..|]. intros held w3 H3 _ _. destruct (String.eqb held v); [by apply IH|done].
Qed.
Lemma rounds_safe server fuel : forall b w, LawInv w -> safe (fun _ _ => True) (fun _ _ => True) (rounds fuel server b) w.
Proof.
  induction fuel as [|fuel IH]; intros b w Hi; [done|]. cbn [rounds]. destruct (b <=? 0); [done|].
  apply safe_op; [done..|]. intros v w1 H1 _ _. apply safe_op; [done..|]. intros [l|e] w2 H2 _ _; [|done].
  apply (safe_call executes LawInv Moves _ (fun _ _ => True)); [done|by apply rows_safe|]. intros [| |b'] w3 H3 _ _; [done|done|by apply IH].
Qed.
Lemma tick_safe server w : LawInv w -> safe (fun _ _ => True) (fun _ _ => True) (integrityTick server) w.
Proof.
  intros Hi. apply safe_op; [done..|]. intros t w1 H1 _ _. destruct (Health t); [|done].
  apply safe_op; [done..|]. intros u w2 H2 _ _. by apply rounds_safe.
Qed.

(** ** What holds of everything that is reached *)
Definition starts_fresh (w : World) : Prop := starts_empty w /\ sent w = [] /\ seen w = [].
Lemma fresh_laws w : starts_fresh w -> LawInv w.
Proof.
  intros (He & Hs & Hf). split; [by apply empty_ledger|by rewrite Hs; intros ?? ?%not_elem_of_nil|].
  destruct He as (_ & -> & _). by intros k a.
Qed.
Lemma reached_laws w l w' : starts_fresh w -> checking ([], w) (l, w') ->
  LawInv w' /\ Forall (fun p => safe (fun _ _ => True) (fun _ _ => True) p w') l.
Proof.
  intros Hw Hr. destruct (pool_safe executes others ticks LawInv Moves (fun _ _ => True) (fun _ _ => True) [] w l w') as (? & _ & ?); try done.
  - apply law_others.
  - intros p w1 [server ->]. apply tick_safe.
  - by apply fresh_laws.
Qed.
(** Facts are what was so when they were found. *)
Definition fact_holds (f : Fact) (w : World) : Prop :=
  match f with
  | Holds id h => exists r, rows w !! id = Some r /\ ContentHash r = Some h
  | InSet id => exists r, rows w !! id = Some r /\ (Visibility r = "public" \/ HasShares r = true)
  | NotLegacy id h => sql_legacy id h w = false
  | ReadAs _ _ _ | Published _ _ => True
  end.
Lemma new_fact {X} (o : Op X) c w f : f ∈ seen (exec counts o c w).2 -> f ∈ seen w \/ fact_holds f w.
Proof.
  assert (forall A (r : result DbError (A * World)), f ∈ seen (statement c w r).2 ->
    (forall x, r = Ok x -> f ∈ seen x.2 -> f ∈ seen w \/ fact_holds f w) -> f ∈ seen w \/ fact_holds f w) as Hst.
  { intros A r Hf Hr. revert Hf. apply (check_statement_keeps (fun w' => f ∈ seen w' -> f ∈ seen w \/ fact_holds f w)); auto. }
  assert (forall g, f ∈ seen (set_seen g w) -> fact_holds g w -> f ∈ seen w \/ fact_holds f w) as Hadd.
  { intros g [Hin|Hin]%elem_of_app Hg; [by left|]. apply list_elem_of_singleton in Hin as ->. by right. }
  destruct o; cbn [exec]; try (by auto); try (intros Hf; apply (Hst _ _ Hf); clear Hf).
  - unfold observe. repeat case_match; auto.
  - intros ? [= <-]; auto.
  - intros ? Hx. unfold sql_claim, claim in Hx. repeat case_match; simplify_eq; auto.
  - intros ? [= <-]. unfold sql_complete. case_match; auto.
  - intros ? [= <-]. unfold sql_release. repeat case_match; auto.
  - intros ? Hx. unfold sql_insert_result in Hx. repeat case_match; simplify_eq; auto.
  - intros ? Hx. destruct (rows w !! id) as [r|] eqn:Hr; [|done]. injection Hx as <-. cbn [snd].
    destruct (ContentHash r) as [h|] eqn:Hh; [|auto]. intros Hf. apply (Hadd _ Hf). by exists r.
  - intros ? Hx. destruct (rows w !! id) as [r|] eqn:Hr; injection Hx as <-; [|auto]. cbn [snd].
    destruct (in_checked_set r) eqn:Hin; [|auto]. intros Hf. apply (Hadd _ Hf). exists r. split; [done|].
    apply orb_true_iff in Hin as [Hin%String.eqb_eq|Hin]; auto.
  - intros ? [= <-]. cbn [snd]. destruct (sql_legacy id hash w) eqn:Hl; [auto|]. intros Hf. by apply (Hadd _ Hf).
  - destruct (body c) as [[text h]|]; [|auto]. intros Hf. by apply (Hadd _ Hf).
  - destruct (metadata c) as [m|]; [|auto]. intros Hf. by apply (Hadd _ Hf).
Qed.
(** Somewhere on the way from one pool to another. *)
Definition once (s s' : list (prog Op unit unit) * World) (P : World -> Prop) : Prop := exists l w, checking s (l, w) /\ checking (l, w) s' /\ P w.
Lemma facts_were_so s s' f : checking s s' -> f ∈ seen s'.2 -> f ∈ seen s.2 \/ once s s' (fact_holds f).
Proof.
  intros Hr. induction Hr as [s|s s1 s' Hstep Hrest IH]; [by left|]. intros Hf.
  destruct (IH Hf) as [Hin|(l & w & H1 & H2 & Hw)]; [|right; exists l, w; split_and!; [by eapply rtc_l|done..]].
  assert (f ∈ seen s.2 \/ fact_holds f s.2) as [?|Hw]; [|by left|].
  - destruct Hstep as [l1 X e k l2 c x w w' He|l p w Hp|l1 p l2 w|l w w' Hd]; cbn in *; try (by left).
    + apply (new_fact e c). by rewrite <- (check_executes _ _ _ _ _ He).
    + destruct Hd as (r & g & t & n & h & -> & _). by left.
  - right. destruct s as [l w]. exists l, w. split_and!; [by apply rtc_refl|by eapply rtc_l|done].
Qed.

(** C24: whatever is sent to the check service for a content of a transcript was
    made of that content and of the transcript's published metadata, and was
    sent after the transcript was found to hold that content, found readable
    by others (public, or shared), and the content found to come from no
    legacy content: each of these was so at some moment since the start. *)
Theorem only_what_others_read_is_sent w l w' id hash version request : starts_fresh w -> checking ([], w) (l, w') ->
  (id, hash, version, request) ∈ sent w' ->
  once ([], w) (l, w') (fun w0 => exists r, rows w0 !! id = Some r /\ ContentHash r = Some hash) /\
  once ([], w) (l, w') (fun w0 => exists r, rows w0 !! id = Some r /\ (Visibility r = "public" \/ HasShares r = true)) /\
  once ([], w) (l, w') (fun w0 => sql_legacy id hash w0 = false) /\
  exists text payload turns m, ReadAs id hash text ∈ seen w' /\ Published id m ∈ seen w' /\
    sniffs_raw text = false /\ migrate text = Some (payload, turns) /\ valid_values payload = true /\
    buildScryRequest id payload m = Some request.
Proof.
  intros Hw Hr Hs. destruct (reached_laws _ _ _ Hw Hr) as [Hi _]. destruct (sent_backed _ Hi _ _ Hs) as (Hh & Hin & Hn & Hrest).
  assert (forall f, f ∈ seen w' -> once ([], w) (l, w') (fact_holds f)) as Hso.
  { intros f Hf. destruct (facts_were_so _ _ f Hr Hf) as [H0|?]; [|done]. destruct Hw as (_ & _ & Hnil). cbn in H0. rewrite Hnil in H0. by apply not_elem_of_nil in H0. }
  split_and!; [exact (Hso _ Hh)|exact (Hso _ Hin)|exact (Hso _ Hn)|exact Hrest].
Qed.

(** C26: an attempt is done only with an answer to that very content, of the
    checker version it was for or a later one, kept. *)
Theorem done_means_answered w l w' k a : starts_fresh w -> checking ([], w) (l, w') ->
  attempts w' !! k = Some a -> Status a = StatusDone ->
  exists version r, results w' !! (k.1.1, k.1.2, version) = Some r /\ 0 <= compareScryVersions version k.2.
Proof.
  intros Hw Hr Ha Hst. destruct (reached_laws _ _ _ Hw Hr) as [Hi _]. destruct (done_stored _ Hi _ _ Ha Hst) as [Hg|(v & [r Hv] & Hc)]; [|eauto].
  by rewrite (gone_attempts _ (ledger_part _ Hi) _ Hg) in Ha.
Qed.

(** Also: an answer stays as it was first given, until its transcript is
    deleted: a later one of the same version changes nothing. *)
Theorem first_answer_stays w l w1 l2 w2 k r : starts_fresh w -> checking ([], w) (l, w1) -> checking (l, w1) (l2, w2) ->
  results w1 !! k = Some r -> results w2 !! k = Some r \/ k.1.1 ∈ gone w2.
Proof.
  intros Hw H1 H2 Hk. destruct (reached_laws _ _ _ Hw H1) as [Hi Hl].
  destruct (pool_safe executes others ticks LawInv Moves (fun _ _ => True) (fun _ _ => True) l w1 l2 w2) as (_ & [_ _ Hstay] & _); try done.
  - apply law_others.
  - intros p w0 [server ->]. apply tick_safe.
  - by apply Hstay.
Qed.

(** ** Passes end by themselves *)
Lemma rows_advance server v l : forall b,
  ends_in (fun _ _ => True) (fun r => match r with RoundAdvanced b' => b' < b | _ => True end) (check_rows server v l b).
Proof.
  induction l as [|[id hash] l IH]; intros b; [done|]. split; [done|]. intros stopped. destruct stopped; [done|].
  apply (ends_in_bind _ (fun _ => True)); [apply ends_in_any|]. intros [_ stop] _. destruct stop; [done|]. split; [done|]. intros held.
  cbn [mbind prog_bind]. destruct (String.eqb held v); cbn; [|lia].
  specialize (IH (b - 1)). eapply ends_in_imp; [|exact IH]. intros [| |b']; [done|done|lia].
Qed.
(** Also: the budget of a pass is fuel enough: each round but the last takes one of
    it, so a pass given more rounds is the same pass. *)
Theorem pass_ends_within_budget server (fuel more : nat) : forall budget, budget <= Z.of_nat fuel ->
  rounds (fuel + more) server budget = rounds fuel server budget.
Proof.
  induction fuel as [|fuel IH]; intros b Hb.
  - destruct more as [|more]; [done|]. cbn. by destruct (Z.leb_spec b 0); [|lia].
  - cbn. destruct (Z.leb_spec b 0) as [|Hpos]; [done|]. f_equal. apply functional_extensionality. intros v.
    f_equal. apply functional_extensionality. intros [l|e]; [|done].
    eapply bind_ends; [apply rows_advance|]. cbn beta. intros [| |b'] Hb'; [done|done|]. apply IH. lia.
Qed.
End laws.
End IntegrityLaws.
