(* ===== verification/IntegrityWitness.v ===== *)
(** * One pass over a public transcript

    Two servers: the first asks while the service is down, the second once the
    attempt is due again, and the service answers. *)
From S2P Require Import Prelude GoText Threads IntegrityStore Integrity IntegrityLedger IntegrityLaws.

Open Scope string_scope.
Open Scope list_scope.
Open Scope Z_scope.

Module IntegrityWitness.
Import IntegrityStore Integrity IntegrityLedger IntegrityLaws.
#[local] Instance demo_contract : Contract := {|
  ScryContractVersion := "1";
  valid_check := fun body turns => if String.eqb body "clean" then Some (mkResponse "1.10.0" "checked" []) else None;
  valid_health := fun body => if String.eqb body "healthy" then Some ("1.9.0", "1") else None;
  sniffs_raw := fun text => String.eqb text "";
  migrate := fun text => Some (text, 3);
  valid_values := fun _ => true;
  buildScryRequest := fun id payload m => Some (itoa id +:+ ":" +:+ payload)
|}.
Definition start : World := mkWorld {[ 1 := mkRow "public" false (Some "h1") 50 ]} [] ∅ ∅ [] 100 ∅ [] [] [] [] [].
Definition fine : Choice := mkChoice None (NoAnswer false) false (fun id => id) (Ok ("text", "h1")) (Ok None).
Definition wired (t : Transport) : Choice := mkChoice None t false (fun id => id) (Ok ("text", "h1")) (Ok None).
Definition healthy : Choice := wired (Answer 200 (inl "healthy")).
(** Health, version, listing, the claim, six reads and the call. *)
Definition up_to_the_call : list Choice := healthy :: repeat fine 10.
Definition down : list Choice := up_to_the_call ++ [wired (Answer 503 (inl "")); fine; fine].
Definition up : list Choice := up_to_the_call ++ [wired (Answer 200 (inl "clean")); fine; fine; fine; fine; fine; fine].
(** Two hours on. *)
Definition later (w : World) : World :=
  set_rows (rows w) (gone w) (filter (fun p => p.1.1.1 ∉ gone w) (attempts w)) (filter (fun p => p.1.1.1 ∉ gone w) (results w)) (rewrites w)
    (db_now w + 7200 * second) (held w) w.
Definition after_down : option (prog Op unit unit * World) := run executes down (integrityTick 0) start.
Definition after_up : option (prog Op unit unit * World) := '(_, w) ← after_down; run executes up (integrityTick 1) (later w).
Lemma start_fresh : starts_fresh start.
Proof. by repeat split. Qed.
Lemma down_reached p w : after_down = Some (p, w) -> checking ([], start) ([p], w).
Proof. intros Hr. apply (starts_reaches executes others ticks down [] (integrityTick 0)); [by eexists|exact Hr]. Qed.
Lemma later_others w : (forall id, id ∈ gone w -> rows w !! id = None) -> others w (later w).
Proof. intros Hg. unfold later. do 6 eexists; [reflexivity|]. split_and!; [done|exact Hg|done| |done]. unfold second. lia. Qed.
Lemma up_reached p w : after_up = Some (p, w) -> exists l, checking ([], start) (l ++ [p], w).
Proof.
  unfold after_up. destruct after_down as [[p0 w0]|] eqn:Hd; cbn; [|done]. intros Hr. exists [p0].
  pose proof (down_reached _ _ Hd) as Hl. destruct (reached_laws _ _ _ start_fresh Hl) as [Hi _].
  etrans; [exact Hl|]. eapply rtc_l; [apply step_drift, later_others, gone_rows, ledger_part, Hi|].
  apply (starts_reaches executes others ticks up _ (integrityTick 1)); [by eexists|exact Hr].
Qed.
(** What is left: the answer, of a later checker, and what was tried. *)
Definition key : Key := (1, "h1", "1.9.0").
Lemma up_leaves : (fun x => (Status <$> attempts x.2 !! key, results x.2 !! (1, "h1", "1.10.0"), sent x.2, count (key, true) (answered x.2))) <$> after_up =
  Some (Some StatusDone, Some (mkResult "checked" []), [(key, "1:text"); (key, "1:text")], 2%nat).
Proof. vm_compute. reflexivity. Qed.
#[local] Opaque after_down after_up.

Lemma answered_within_cap_witness : exists p w, after_up = Some (p, w) /\ count (key, true) (answered w) = 2%nat /\
  Z.of_nat (count (key, true) (answered w)) <= maxIntegrityAttempts.
Proof.
  pose proof up_leaves as Hu. destruct after_up as [[p w]|] eqn:Hw; [|discriminate Hu]. destruct (up_reached p w Hw) as [l Hl].
  injection Hu as _ _ _ Hc. exists p, w. split; [reflexivity|]. split; [exact Hc|].
  exact (answered_within_cap start w (l ++ [p]) key (proj1 start_fresh) Hl).
Defined.
Lemma only_what_others_read_is_sent_witness : exists p w text, after_up = Some (p, w) /\ ReadAs 1 "h1" text ∈ seen w /\ "1:" +:+ text = "1:text".
Proof.
  pose proof up_leaves as Hu. destruct after_up as [[p w]|] eqn:Hw; [|discriminate Hu]. destruct (up_reached p w Hw) as [l Hl].
  injection Hu as _ _ Hs _. cbn in Hs.
  destruct (only_what_others_read_is_sent start (l ++ [p]) w 1 "h1" "1.9.0" "1:text" start_fresh Hl) as (_ & _ & _ & text & payload & n & m & Hr & _ & _ & Hm & _ & Hb).
  { rewrite Hs. apply list_elem_of_here. }
  exists p, w, text. split; [reflexivity|]. split; [exact Hr|]. injection Hm as Hm _. rewrite Hm. injection Hb as Hb. rewrite <- Hb. reflexivity.
Defined.
Lemma done_means_answered_witness : exists p w version r, after_up = Some (p, w) /\ results w !! (1, "h1", version) = Some r /\
  0 <= compareScryVersions version "1.9.0".
Proof.
  pose proof up_leaves as Hu. destruct after_up as [[p w]|] eqn:Hw; [|discriminate Hu]. destruct (up_reached p w Hw) as [l Hl].
  injection Hu as Hst _ _ _. cbn in Hst. destruct (attempts w !! key) as [a|] eqn:Ha; [|discriminate Hst]. injection Hst as Hst.
  destruct (done_means_answered start (l ++ [p]) w key a start_fresh Hl Ha Hst) as (v & r & Hr & Hc).
  exists p, w, v, r. split; [reflexivity|]. split; [exact Hr|exact Hc].
Defined.
Lemma pass_ends_within_budget_witness : rounds 25 1 10 = rounds 10 1 10.
Proof. apply (pass_ends_within_budget 1 10 15 10). lia. Defined.
End IntegrityWitness.
