(* ===== verification/CliContract.v ===== *)
(** * Which envelope a pull is answered in ([handler/pull_contract.go])

    A client names the contract it reads in a header, as three runs of digits.
    Versions compare as the numbers the digits are, however long they are and
    whatever zeros lead them. *)
From S2P Require Import Prelude GoText RepoName ScryVersions.

Open Scope string_scope.
Open Scope list_scope.
Open Scope Z_scope.

Module CliContract.
(** ** Versions *)
Definition digit_rune (r : Z) : bool := negb ((r <? 48) || (57 <? r)).
Definition well_formed_part (part : string) : bool := negb (String.eqb part "") && forallb digit_rune (runes part).
(** [pullContractRequest] *)
Definition pullContractRequest : Type := list string.
Definition parsePullContract (raw : string) : option pullContractRequest :=
  let parts := split_on "." raw in
  if negb (length parts =? 3)%nat then None
  else if forallb well_formed_part parts then Some parts else None.
(** [strings.TrimLeft(s, "0")] *)
Definition trim_zeros (s : string) : string := of_bytes (drop_while (Z.eqb 48) (bytes s)).
Fixpoint comparePullContract (a b : pullContractRequest) : Z :=
  match a, b with
  | p :: a, q :: b =>
    let x := trim_zeros p in let y := trim_zeros q in
    if negb (blen x =? blen y) then if blen x <? blen y then -1 else 1
    else if negb (text_compare x y =? 0) then text_compare x y
    else comparePullContract a b
  | _, _ => 0
  end.

(** ** Negotiation *)

(** The two envelopes, as the schema module names them. *)
Class Envelopes : Type := {
  LegacyPullContractVersion : string;
  PublicOwnerPullContractVersion : string
}.
Section negotiation.
Context `{envelopes : Envelopes}.
Definition pullContractVersion : string := LegacyPullContractVersion.
Definition minPullContractVersion : string := LegacyPullContractVersion.
Definition servedPullContracts : list string := [PublicOwnerPullContractVersion; LegacyPullContractVersion].
(** A constant of the schema module that is no version would panic. *)
Definition mustParsePullContract (v : string) : pullContractRequest := default [] (parsePullContract v).
(** The header's values to the envelope served, if any is. *)
Definition selectPullContract (values : list string) : option string :=
  match values with
  | [raw] => match parsePullContract raw with
    | None => Some pullContractVersion
    | Some requested =>
      if comparePullContract requested (mustParsePullContract minPullContractVersion) <? 0 then None
      else find (fun served => comparePullContract (mustParsePullContract served) requested <=? 0) servedPullContracts
    end
  | _ => Some pullContractVersion
  end.
Definition servesLegacyPull (served : string) : bool := String.eqb served LegacyPullContractVersion.
End negotiation.
Definition maxEchoedPullContract : Z := 64.
Definition echoedPullContract (raw : string) : string :=
  if blen raw <=? maxEchoedPullContract then raw else byte_take (Z.to_nat maxEchoedPullContract) raw +:+ "...".

(** ** Digits *)
Lemma lor_at_least a b : 0 <= a -> 0 <= b -> a <= Z.lor a b /\ b <= Z.lor a b.
Proof.
  intros Ha Hb. pose proof (Z.add_lor_land a b) as Heq. rewrite <- (Z2N.id a), <- (Z2N.id b) in Heq |- * by done.
  rewrite <- N2Z.inj_land in Heq. pose proof (N.land_le_l (Z.to_N a) (Z.to_N b)). pose proof (N.land_le_r (Z.to_N a) (Z.to_N b)). lia.
Qed.
Lemma low_bits x m n : 0 <= m -> 0 <= n -> Z.shiftl (Z.land x (Z.ones m)) n = x mod 2 ^ m * 2 ^ n.
Proof. intros Hm Hn. by rewrite Z.land_ones, Z.shiftl_mul_pow2. Qed.
(** A code point below 128 is one byte. *)
Lemma decode_rune_ascii b l : 0 <= b < 256 -> (decode_rune (b :: l)).1 < 128 -> b < 128.
Proof.
  intros Hb. unfold decode_rune, rune_error, is_cont. destruct (Z.ltb_spec b 128) as [|Hge]; [done|].
  change 31 with (Z.ones 5). change 15 with (Z.ones 4). change 7 with (Z.ones 3). change 63 with (Z.ones 6).
  assert (forall x, 0 <= Z.land x (Z.ones 6)) as H0 by (intros x; apply Z.land_nonneg; right; by vm_compute).
  destruct (Z.leb_spec 194 b), (Z.leb_spec b 223); cbn [andb].
  all: repeat (case_match; cbn [fst andb]; try lia).
  all: intros Hlt; exfalso; rewrite ?low_bits in Hlt by lia; change (2 ^ 5) with 32 in *; change (2 ^ 4) with 16 in *; change (2 ^ 3) with 8 in *;
    change (2 ^ 6) with 64 in *; change (2 ^ 12) with 4096 in *; change (2 ^ 18) with 262144 in *.
  all: match type of Hlt with
    | Z.lor (Z.lor ?x ?y) (Z.lor ?u ?v) < _ =>
      assert (0 <= x /\ 0 <= y /\ 0 <= u) as (Hx & Hy & Hu) by (split_and!; Z.to_euclidean_division_equations; lia);
      pose proof (lor_at_least x y Hx Hy); pose proof (lor_at_least u v Hu ltac:(apply H0));
      pose proof (lor_at_least (Z.lor x y) (Z.lor u v) ltac:(lia) ltac:(lia))
    | Z.lor (Z.lor ?x ?y) ?u < _ => assert (0 <= x /\ 0 <= y) as [Hx Hy] by (split; Z.to_euclidean_division_equations; lia);
      pose proof (lor_at_least x y Hx Hy); pose proof (lor_at_least (Z.lor x y) u ltac:(lia) ltac:(apply H0))
    | Z.lor ?x ?u < _ => assert (0 <= x) as Hx by (Z.to_euclidean_division_equations; lia); pose proof (lor_at_least x u Hx ltac:(apply H0))
    end.
  all: rewrite ?Z.land_ones in * by lia; change (2 ^ 6) with 64 in *.
  all: repeat match goal with Hg : _ && _ = true |- _ => apply andb_true_iff in Hg as [? ?] end; rewrite ?Z.leb_le in *.
  all: repeat match goal with Hg : context [if ?x =? ?c then _ else _] |- _ => destruct (Z.eqb_spec x c) end.
  all: Z.to_euclidean_division_equations; lia.
Qed.
Lemma segments_ascii fuel : forall l, (length l <= fuel)%nat -> Forall (fun b => 0 <= b < 256) l ->
  Forall (fun r => r < 128) (segments_fuel fuel l).*1 -> (segments_fuel fuel l).*1 = l.
Proof.
  induction fuel as [|fuel IH]; intros [|b l] Hlen Hb; try done; [cbn in Hlen; lia|]. apply Forall_cons in Hb as [Hb Hl]. cbn [segments_fuel].
  pose proof (decode_rune_ascii b l Hb) as Hd. destruct (decode_rune (b :: l)) as [r w] eqn:He. rewrite fmap_cons. cbn [fst] in *.
  intros [Hr Hrest]%Forall_cons. specialize (Hd Hr). unfold decode_rune in He. destruct (Z.ltb_spec b 128); [|lia].
  injection He as <- <-. cbn in *. f_equal. apply IH; [lia|done|done].
Qed.
Lemma runes_digits s : forallb digit_rune (runes s) = true -> runes s = bytes s /\ Forall (fun b => 48 <= b <= 57) (bytes s).
Proof.
  intros Hs. assert (Forall (fun b => 48 <= b <= 57) (runes s)) as Hr.
  { apply Forall_forall. intros b Hb. apply forallb_forall with (x := b) in Hs; [|by apply list_elem_of_In].
    apply negb_true_iff, orb_false_iff in Hs as [?%Z.ltb_ge ?%Z.ltb_ge]. lia. }
  assert (runes s = bytes s) as He; [|by rewrite <- He at 2].
  unfold runes, segments in *. apply segments_ascii; [by rewrite length_bytes|apply bytes_bound|].
  eapply Forall_impl; [exact Hr|]. cbn. lia.
Qed.

(** ** Numbers *)
Definition digits (l : list Z) : Prop := Forall (fun b => 48 <= b <= 57) l.
Definition number (l : list Z) : Z := foldl (fun n b => n * 10 + (b - 48)) 0 l.
Lemma number_from l : forall n, foldl (fun n b => n * 10 + (b - 48)) n l = n * 10 ^ Z.of_nat (length l) + number l.
Proof.
  induction l as [|b l IH]; intros n; [cbn; lia|]. unfold number. cbn [foldl length]. rewrite !IH, Nat2Z.inj_succ, Z.pow_succ_r by lia. lia.
Qed.
Lemma number_cons b l : number (b :: l) = (b - 48) * 10 ^ Z.of_nat (length l) + number l.
Proof. unfold number. cbn [foldl]. by rewrite number_from. Qed.
Lemma number_bound l : digits l -> 0 <= number l < 10 ^ Z.of_nat (length l).
Proof.
  induction l as [|b l IH]; [cbn; lia|]. intros [Hb Hl]%Forall_cons. specialize (IH Hl). rewrite number_cons.
  cbn [length]. rewrite Nat2Z.inj_succ, Z.pow_succ_r by lia. nia.
Qed.
Lemma drop_zeros l : digits l -> let l' := drop_while (Z.eqb 48) l in
  digits l' /\ number l' = number l /\ match l' with [] => True | b :: _ => b <> 48 end.
Proof.
  induction l as [|b l IH]; [done|]. intros Hd. apply Forall_cons in Hd as Hd'. destruct Hd' as [Hb Hl]. cbn [drop_while]. cbv zeta in *.
  destruct (Z.eqb_spec 48 b) as [<-|Hne]; [|split_and!; [done|done|lia]]. destruct (IH Hl) as (? & Hn & ?). split_and!; [done| |done].
  rewrite Hn, number_cons. lia.
Qed.
Lemma number_shorter x y : digits x -> digits y -> match y with [] => True | b :: _ => b <> 48 end ->
  (length x < length y)%nat -> number x < number y.
Proof.
  intros Hx Hy Hh Hl. pose proof (number_bound x Hx). destruct y as [|b y]; [cbn in Hl; lia|].
  apply Forall_cons in Hy as [Hb Hy]. pose proof (number_bound y Hy). rewrite number_cons. cbn in Hl.
  assert (10 ^ Z.of_nat (length x) <= 10 ^ Z.of_nat (length y)) by (apply Z.pow_le_mono_r; lia). nia.
Qed.
Lemma ltb_digits x : forall y, digits x -> digits y -> length x = length y -> String.ltb (of_bytes x) (of_bytes y) = (number x <? number y).
Proof.
  induction x as [|a x IH]; intros [|b y] Hx Hy; try done. intros [= Hl]. apply Forall_cons in Hx as [Ha Hx], Hy as [Hb Hy].
  change (of_bytes (a :: x)) with (String (ascii_of a) (of_bytes x)). change (of_bytes (b :: y)) with (String (ascii_of b) (of_bytes y)).
  rewrite ScryVersions.ltb_cons, (IH y), !number_cons, Hl by done. pose proof (number_bound x Hx) as Bx. pose proof (number_bound y Hy) as By.
  rewrite Hl in Bx. assert (forall c, 48 <= c <= 57 -> N_of_ascii (ascii_of c) = Z.to_N c) as Hn.
  { intros c Hc. apply N_ascii_embedding. lia. }
  rewrite !Hn by done. destruct (N.ltb_spec (Z.to_N a) (Z.to_N b)) as [Hlt|Hge]; cbn [orb].
  - symmetry. apply Z.ltb_lt. nia.
  - destruct (Ascii.eqb_spec (ascii_of a) (ascii_of b)) as [He|He]; cbn [andb].
    + assert (a = b) as -> by (apply (f_equal N_of_ascii) in He; rewrite !Hn in He by done; lia).
      destruct (Z.ltb_spec (number x) (number y)), (Z.ltb_spec ((b - 48) * 10 ^ Z.of_nat (length y) + number x) ((b - 48) * 10 ^ Z.of_nat (length y) + number y)); lia.
    + assert (a <> b) by congruence. symmetry. apply Z.ltb_ge. assert (b + 1 <= a) by lia. nia.
Qed.

(** ** Versions as numbers *)
Definition part_number (p : string) : Z := number (bytes p).
Definition numbers (v : pullContractRequest) : list Z := part_number <$> v.
Fixpoint before (x y : list Z) : Prop :=
  match x, y with a :: x, b :: y => a < b \/ a = b /\ before x y | _, _ => False end.
Definition digit_parts (v : pullContractRequest) : Prop := Forall (fun p => digits (bytes p)) v.
Lemma part_compare p q : digits (bytes p) -> digits (bytes q) ->
  ScryVersions.compare_part (trim_zeros p) (trim_zeros q) = if part_number p <? part_number q then -1 else if part_number p =? part_number q then 0 else 1.
Proof.
  intros Hp Hq. unfold ScryVersions.compare_part, text_compare, trim_zeros, part_number.
  destruct (drop_zeros _ Hp) as (Dx & Nx & Zx), (drop_zeros _ Hq) as (Dy & Ny & Zy). rewrite <- Nx, <- Ny.
  set (x := drop_while (Z.eqb 48) (bytes p)) in *. set (y := drop_while (Z.eqb 48) (bytes q)) in *. unfold blen. rewrite !length_of_bytes.
  destruct (Z.eqb_spec (Z.of_nat (length x)) (Z.of_nat (length y))) as [Hl|Hl]; cbn [negb].
  - apply Nat2Z.inj in Hl. rewrite (ltb_digits x y) by done. destruct (String.eqb_spec (of_bytes x) (of_bytes y)) as [He|He].
    + assert (x = y) as ->; [|by rewrite Z.ltb_irrefl, Z.eqb_refl]. apply (f_equal bytes) in He.
      rewrite !bytes_of_bytes in He; [done|..]; eapply Forall_impl; [exact Dy| |exact Dx|]; cbn; lia.
    + destruct (Z.ltb_spec (number x) (number y)); [done|]. destruct (Z.eqb_spec (number x) (number y)) as [Hn|]; [|done].
      exfalso. apply He. apply string_ltb_total; rewrite ltb_digits by done; apply Z.ltb_ge; lia.
  - destruct (Z.ltb_spec (Z.of_nat (length x)) (Z.of_nat (length y))) as [Hlt|Hge].
    + pose proof (number_shorter x y Dx Dy Zy ltac:(lia)). by destruct (Z.ltb_spec (number x) (number y)); [|lia].
    + pose proof (number_shorter y x Dy Dx Zx ltac:(lia)). destruct (Z.ltb_spec (number x) (number y)); [lia|].
      by destruct (Z.eqb_spec (number x) (number y)); [lia|].
Qed.
Lemma compare_numbers a : forall b, digit_parts a -> digit_parts b -> length a = length b ->
  (comparePullContract a b < 0 <-> before (numbers a) (numbers b)) /\ (comparePullContract a b = 0 <-> numbers a = numbers b).
Proof.
  induction a as [|p a IH]; intros [|q b] Ha Hb; try done. intros [= Hl]. apply Forall_cons in Ha as [Hp Ha], Hb as [Hq Hb].
  assert (comparePullContract (p :: a) (q :: b) = let c := ScryVersions.compare_part (trim_zeros p) (trim_zeros q) in if c =? 0 then comparePullContract a b else c) as ->.
  { cbn. unfold ScryVersions.compare_part. destruct (blen _ =? blen _); cbn; [by destruct (text_compare _ _ =? 0)|by destruct (blen _ <? blen _)]. }
  cbv zeta. rewrite part_compare by done. destruct (IH b Ha Hb Hl) as [Hlt Heq]. unfold numbers in *. cbn [before fmap list_fmap]. fold (part_number p) (part_number q).
  destruct (Z.ltb_spec (part_number p) (part_number q)); [|destruct (Z.eqb_spec (part_number p) (part_number q)) as [He|]]; cbn -[comparePullContract].
  - split; split; intros Hx; try lia. injection Hx as Hx _. lia.
  - rewrite Hlt, Heq, He. split; split; [tauto|intros [?|[_ ?]]; [lia|done]|by intros ->|by intros [= ?]].
  - split; split; intros Hx; try lia. injection Hx as Hx _. lia.
Qed.
Lemma before_cases x : forall y, length x = length y -> before x y \/ x = y \/ before y x.
Proof.
  induction x as [|a x IH]; intros [|b y]; try done; [auto|]. intros [= Hl]. cbn.
  destruct (Z.lt_total a b) as [|[->|]]; [auto| |auto]. destruct (IH y Hl) as [|[->|]]; auto.
Qed.
Lemma before_not_after x : forall y, before x y -> ~ before y x /\ x <> y.
Proof.
  induction x as [|a x IH]; intros [|b y]; cbn; try done. intros [Hlt|[-> Hb]].
  - split; [intros [?|[? _]]; lia|]. intros [= ? _]. lia.
  - destruct (IH y Hb) as [? ?]. split; [intros [?|[_ ?]]; [lia|done]|congruence].
Qed.
Lemma before_trans x : forall y z, before x y -> before y z -> before x z.
Proof.
  induction x as [|a x IH]; intros [|b y] [|c z]; cbn; try done. intros [?|[-> ?]] [?|[-> ?]]; [left; lia|auto|auto|right; split; [done|by eapply IH]].
Qed.
Lemma compare_not_after a b : digit_parts a -> digit_parts b -> length a = length b ->
  (comparePullContract a b <=? 0) = true <-> ~ before (numbers b) (numbers a).
Proof.
  intros Ha Hb Hl. destruct (compare_numbers a b Ha Hb Hl) as [Hlt Heq]. rewrite Z.leb_le.
  assert (length (numbers a) = length (numbers b)) as Hn by (unfold numbers; by rewrite !length_fmap). split.
  - intros Hle Hba. destruct (before_not_after _ _ Hba) as [H1 H2]. destruct (Z.lt_total (comparePullContract a b) 0) as [H|[H|H]]; [|apply Heq in H; congruence|lia].
    by apply Hlt in H.
  - intros Hna. destruct (before_cases _ _ Hn) as [H|[H|H]]; [apply Hlt in H; lia|apply Heq in H; lia|done].
Qed.
Lemma parsed_parts raw v : parsePullContract raw = Some v -> digit_parts v /\ length v = 3%nat.
Proof.
  unfold parsePullContract. destruct (Nat.eqb_spec (length (split_on "." raw)) 3) as [Hl|]; [|done]. cbn [negb].
  destruct (forallb _ _) eqn:Hf; [|done]. intros [= <-]. split; [|done]. apply Forall_forall. intros p Hp.
  apply forallb_forall with (x := p) in Hf; [|by apply list_elem_of_In]. apply andb_true_iff in Hf as [_ Hf]. by apply runes_digits.
Qed.

(** Also: a client that names one version, of any number of digits and leading
    zeros, is refused exactly when its numbers come before the oldest envelope's,
    and else gets the newest envelope that does not come after it; any other
    header gets the oldest one. *)
Theorem newest_envelope_not_after `{envelopes : Envelopes} values oldest newest :
  parsePullContract LegacyPullContractVersion = Some oldest -> parsePullContract PublicOwnerPullContractVersion = Some newest ->
  before (numbers oldest) (numbers newest) ->
  match values with
  | [raw] => match parsePullContract raw with
    | Some asked =>
      (selectPullContract values = None <-> before (numbers asked) (numbers oldest)) /\
      (selectPullContract values = Some PublicOwnerPullContractVersion <-> ~ before (numbers asked) (numbers newest)) /\
      (selectPullContract values = Some LegacyPullContractVersion <->
        ~ before (numbers asked) (numbers oldest) /\ before (numbers asked) (numbers newest))
    | None => selectPullContract values = Some LegacyPullContractVersion
    end
  | _ => selectPullContract values = Some LegacyPullContractVersion
  end.
Proof.
  intros Ho Hn Hon. destruct values as [|raw [|]]; try done. cbn [selectPullContract].
  destruct (parsePullContract raw) as [asked|] eqn:Hr; [|done]. unfold mustParsePullContract, minPullContractVersion.
  destruct (parsed_parts _ _ Ho) as [Do Lo], (parsed_parts _ _ Hn) as [Dn Ln], (parsed_parts _ _ Hr) as [Dr Lr].
  assert (LegacyPullContractVersion <> PublicOwnerPullContractVersion) as Hdist.
  { intros He. rewrite He in Ho. rewrite Ho in Hn. injection Hn as ->. by destruct (before_not_after _ _ Hon). }
  destruct (compare_numbers asked oldest Dr Do ltac:(congruence)) as [Hlow _].
  pose proof (compare_not_after newest asked Dn Dr ltac:(congruence)) as Hnew. pose proof (compare_not_after oldest asked Do Dr ltac:(congruence)) as Hold.
  unfold servedPullContracts. cbn [find]. rewrite Ho, Hn. cbn [from_option]. unfold id.
  destruct (Z.ltb_spec (comparePullContract asked oldest) 0) as [Hlt|Hge].
  - apply Hlow in Hlt as Hb. split_and!; split; try done; [|by intros [? _]]. intros Hna. exfalso. apply Hna. by eapply before_trans.
  - assert (~ before (numbers asked) (numbers oldest)) as Hno by (rewrite <- Hlow; lia).
    rewrite (proj2 Hold Hno). destruct (comparePullContract newest asked <=? 0) eqn:Hc.
    + assert (~ before (numbers asked) (numbers newest)) by (by apply Hnew). split_and!; split; try done; [congruence|tauto].
    + assert (before (numbers asked) (numbers newest)) as Hb.
      { destruct (before_cases (numbers asked) (numbers newest)) as [?|[He|Hb]]; [unfold numbers; rewrite !length_fmap; congruence|done|..].
        all: enough (false = true) by done; apply Hnew; intros Hx; try rewrite He in Hx; by destruct (before_not_after _ _ Hx). }
      split_and!; split; try done; try congruence; try tauto.
Qed.
#[local] Instance served_now : Envelopes := {| LegacyPullContractVersion := "0.2.0"; PublicOwnerPullContractVersion := "0.3.0" |}.
(** A long way past both, with zeros in front. *)
Lemma newest_envelope_not_after_witness : selectPullContract ["0.00000000000000000000003.0"] = Some "0.3.0" /\ selectPullContract ["0.1.99999999999999999999"] = None.
Proof.
  pose proof (newest_envelope_not_after ["0.00000000000000000000003.0"] ["0"; "2"; "0"] ["0"; "3"; "0"] eq_refl eq_refl) as H1.
  pose proof (newest_envelope_not_after ["0.1.99999999999999999999"] ["0"; "2"; "0"] ["0"; "3"; "0"] eq_refl eq_refl) as H2.
  assert (before (numbers ["0"; "2"; "0"]) (numbers ["0"; "3"; "0"])) as Hb by (right; split; [reflexivity|left; reflexivity]).
  specialize (H1 Hb). specialize (H2 Hb). vm_compute (parsePullContract _) in H1. vm_compute (parsePullContract _) in H2. split.
  - apply H1. intros [H|[_ [H|[_ [H|[_ []]]]]]]; vm_compute in H; discriminate H.
  - apply H2. right. split; [reflexivity|left; reflexivity].
Defined.
End CliContract.
