(* ===== verification/CliPullStore.v ===== *)
(** * What a pull reads

    The tables behind the routes the command line pulls from, with their statements
    ([database/sqlc/transcripts_pull.sql.go], [shares_pull.sql.go], and those of
    [shares], [groups], [users] and [annotations_push] the routes run), beside the
    bucket of [BlobStore]. The routes only read: everyone else may change tables and
    bucket between any two of their operations, in any way, so a run carries the
    moments it saw and each operation is given its own. *)
From S2P Require Import Prelude GoText Threads BlobStore PublishStore Publish.

Open Scope string_scope.
Open Scope list_scope.
Open Scope Z_scope.

Module CliPullStore.
Import BlobStore.

(** ** Tables *)
(** [Stored]: the columns publishing writes. *)
Record Transcript : Type := mkTranscript {
  Stored : PublishStore.Row;
  ModelProvider : string;
  ProjectName : option string;
  SchemaVersion : string;
  PublishedAt : Z;
  UpdatedAt : Z
}.
Definition OwnerID (t : Transcript) : Z := PublishStore.OwnerID (Stored t).
Definition Visibility (t : Transcript) : string := PublishStore.Visibility (Stored t).
Definition ContentHash (t : Transcript) : option string := PublishStore.ContentHash (Stored t).
Record Member : Type := mkMember { Role : string; Origin : string }.
Record User : Type := mkUser { GithubUsername : string; DisplayName : option string; AvatarUrl : option string; IsDiscoverable : bool }.
Record Annotation : Type := mkAnnotation {
  AnnotationRowID : string;
  AnnotationHash : string;
  AnnotationOwner : Z;
  RowTargetKind : string;
  SessionID : option string;
  EntrySessionID : option string;
  EntryIndex : option Z;
  EntryEndIndex : option Z;
  AnnotationID : option string;
  ProjectHash : option string;
  TargetTranscriptID : option string;
  RowAssociationID : option string;
  TypeID : string;
  Value : string;
  IsPrimary : bool;
  RowAnnotatorKind : option string;
  RowAnnotatorName : option string;
  RowProvenance : string;
  RowConfidence : option string;
  RowReason : option string;
  CreatedAt : Z
}.
Record Tables : Type := mkTables {
  transcripts : gmap string Transcript;
  shares : gmap (string * Z) string;          (** transcript and collective to status *)
  members : gmap (Z * Z) Member;              (** collective and person *)
  users : gmap Z User;
  annotations : gmap string Annotation;
  associations : gmap (Z * string) string     (** owner and association to transcript *)
}.
Record Moment : Type := mkMoment { tables : Tables; bucket : Objects }.
(** The moments the operations of a run saw, oldest first. *)
Definition World : Type := list Moment.

(** ** Statements *)
Inductive DbError : Type := NoRows | DbFailed.
Definition groups_with (statuses : list string) (id : string) (d : Tables) : list Z :=
  omap (fun p => if String.eqb p.1.1 id && bool_decide (p.2 ∈ statuses) then Some p.1.2 else None) (map_to_list (shares d)).
Definition approved_groups (id : string) (d : Tables) : list Z := groups_with ["approved"] id d.
(** [DISTINCT gm.user_id] of the owners of the collectives a transcript is submitted to. *)
Definition submitted_owners (id : string) (d : Tables) : list Z :=
  remove_dups (g ← groups_with ["pending"; "approved"] id d;
    omap (fun p => if (p.1.1 =? g) && String.eqb (Role p.2) "owner" then Some p.1.2 else None) (map_to_list (members d))).

Definition touches (id : string) (t : Transcript) (d : Tables) (a : Annotation) : bool :=
  bool_decide (TargetTranscriptID a = Some id) ||
  ((AnnotationOwner a =? OwnerID t) &&
    (bool_decide (SessionID a = Some (PublishStore.LocalID (Stored t))) || bool_decide (EntrySessionID a = Some (PublishStore.LocalID (Stored t))))) ||
  match RowAssociationID a with Some s => bool_decide (associations d !! (AnnotationOwner a, s) = Some id) | None => false end.
Definition created_before (a b : Annotation) : bool :=
  (CreatedAt a <? CreatedAt b) || ((CreatedAt a =? CreatedAt b) && String.ltb (AnnotationRowID a) (AnnotationRowID b)).
Definition annotations_of (id : string) (d : Tables) : list Annotation :=
  match transcripts d !! id with
  | Some t => sort_stable created_before (List.filter (touches id t d) (map_to_list (annotations d)).*2)
  | None => []
  end.
(** The hashes of one person's annotations, by the transcripts they touch. *)
Definition owner_hashes (owner : Z) (ids : list string) (d : Tables) : list (string * string) :=
  a ← (map_to_list (annotations d)).*2; id ← remove_dups ids;
  match transcripts d !! id with
  | Some t => if (AnnotationOwner a =? owner) && touches id t d a then [(id, AnnotationHash a)] else []
  | None => []
  end.

(** A person took an act of their own in a collective the viewer owns. *)
Definition acted_in (d : Tables) (person group : Z) : bool :=
  match members d !! (group, person) with
  | Some m => bool_decide (Origin m ∈ ["creator"; "self_join"; "invitation"]) || String.eqb (Role m) "pending"
  | None => false
  end ||
  existsb (fun p => (p.1.2 =? group) && bool_decide (p.2 ∈ ["pending"; "approved"]) &&
    match transcripts d !! p.1.1 with Some t => OwnerID t =? person | None => false end) (map_to_list (shares d)).
Definition profile_visible (d : Tables) (viewer : option Z) (person : Z) (u : User) : bool :=
  IsDiscoverable u || bool_decide (viewer = Some person) ||
  existsb (fun p => bool_decide (viewer = Some p.1.2) && String.eqb (Role p.2) "owner" && acted_in d person p.1.1) (map_to_list (members d)).
Definition public_owners (viewer : option Z) (ids : list Z) (d : Tables) : list (Z * User * bool) :=
  omap (fun id => (fun u => (id, u, profile_visible d viewer id u)) <$> users d !! id) ids.

(** ** The listings *)
(** [LEFT JOIN]: a row without partners stays, with none. *)
Definition left_join {A} (l : list A) : list (option A) := match l with [] => [None] | _ => Some <$> l end.
Definition shared_groups (id : string) (t : Transcript) (d : Tables) : list Z :=
  if String.eqb (Visibility t) "shared" then approved_groups id d else [].
Definition joined (u : Z) (d : Tables) (p : string * Transcript) : list string :=
  ts ← left_join (shared_groups p.1 p.2 d);
  let gm := match ts with Some g => is_some_b (members d !! (g, u)) | None => false end in
  if (OwnerID p.2 =? u) || gm then [p.1] else [].
(** The collectives filter joins inwards, and has no clause for the owner. *)
Definition joined_in (u : Z) (collectives : list Z) (d : Tables) (p : string * Transcript) : list string :=
  g ← shared_groups p.1 p.2 d;
  if is_some_b (members d !! (g, u)) && bool_decide (g ∈ collectives) then [p.1] else [].
Definition pullable (u : Z) (d : Tables) : list string := remove_dups (map_to_list (transcripts d) ≫= joined u d).
Definition pullable_in (u : Z) (collectives : list Z) (d : Tables) : list string :=
  remove_dups (map_to_list (transcripts d) ≫= joined_in u collectives d).
Record PullRow : Type := mkPullRow { PullID : string; PullTranscript : Transcript; AnnotationCount : Z }.
Definition pull_row (d : Tables) (id : string) : option PullRow :=
  (fun t => mkPullRow id t (Z.of_nat (length (annotations_of id d)))) <$> transcripts d !! id.
Definition published_before (a b : PullRow) : bool :=
  (PublishedAt (PullTranscript b) <? PublishedAt (PullTranscript a)) ||
  ((PublishedAt (PullTranscript a) =? PublishedAt (PullTranscript b)) && String.ltb (PullID a) (PullID b)).
(** [ORDER BY t.published_at DESC, t.id LIMIT OFFSET]: a negative one is an error. *)
Definition page_of (limit offset : Z) (ids : list string) (d : Tables) : result DbError (list PullRow) :=
  if (limit <? 0) || (offset <? 0) then Err DbFailed
  else Ok (take (Z.to_nat limit) (drop (Z.to_nat offset) (sort_stable published_before (omap (pull_row d) ids)))).

(** ** Operations *)
Inductive Op : Type -> Type :=
| GetTranscriptByID (id : string) : Op (result DbError Transcript)
| ListApprovedTranscriptShareGroups (id : string) : Op (result DbError (list Z))
| GetGroupMember (group user : Z) : Op (result DbError Member)
| ListSubmittedCollectiveOwnersForTranscript (id : string) : Op (result DbError (list Z))
| ListPublicOwnersForViewer (viewer : option Z) (ids : list Z) : Op (result DbError (list (Z * User * bool)))
| CountTranscriptAnnotations (id : string) : Op (result DbError Z)
| ListAnnotationsByTranscriptID (id : string) : Op (result DbError (list Annotation))
| ListOwnerAnnotationHashesForTranscriptIDs (owner : Z) (ids : list string) : Op (result DbError (list (string * string)))
| ListPullableTranscripts (user limit offset : Z) : Op (result DbError (list PullRow))
| CountPullableTranscripts (user : Z) : Op (result DbError Z)
| ListPullableTranscriptsInCollective (user : Z) (collectives : list Z) (limit offset : Z) : Op (result DbError (list PullRow))
| CountPullableTranscriptsInCollective (user : Z) (collectives : list Z) : Op (result DbError Z)
| ListPullableTranscriptsByIDs (user : Z) (ids : list string) : Op (result DbError (list (string * option string)))
| ReadBody (id : string) (d : BlobDescriptor) (loaded : LoadedContentIdentity) : Op (result BlobError (string * ContentIdentity))
| ReadMetadataObject (id : string) (d : BlobDescriptor) (m : MetadataObject) : Op (result BlobError string).

(** The moment an operation sees, whether a statement fails, and how the bucket
    serves a request. *)
Record Choice : Type := mkChoice { at_moment : Moment; fails : bool; serves : Served }.
Section exec.
Context `{crypto : Crypto} `{custodian : KeyCustodian}.
(** The bucket as a read finds it. *)
Definition bucket_env (c : Choice) : BlobEnv := {|
  elsewhere := fun _ _ => bucket (at_moment c);
  served := fun _ => serves c;
  random_key := fun _ => None;
  random_nonce := fun _ => "";
  random_uuid := fun _ => ""
|}.
Definition read_body (c : Choice) (id : string) (d : BlobDescriptor) (loaded : LoadedContentIdentity) : result BlobError (string * ContentIdentity) :=
  (Read (H0 := bucket_env c) id d loaded (mkBlobWorld (bucket (at_moment c)) [])).1.
Definition read_metadata (c : Choice) (id : string) (d : BlobDescriptor) (m : MetadataObject) : result BlobError string :=
  (ReadMetadata (H0 := bucket_env c) id d m (mkBlobWorld (bucket (at_moment c)) [])).1.
Definition one {A} (o : option A) : result DbError A := match o with Some a => Ok a | None => Err NoRows end.
Definition select {A} (c : Choice) (f : Tables -> result DbError A) : result DbError A :=
  if fails c then Err DbFailed else f (tables (at_moment c)).
Definition answer {X} (o : Op X) (c : Choice) : X :=
  match o with
  | GetTranscriptByID id => select c (fun d => one (transcripts d !! id))
  | ListApprovedTranscriptShareGroups id => select c (fun d => Ok (approved_groups id d))
  | GetGroupMember g u => select c (fun d => one (members d !! (g, u)))
  | ListSubmittedCollectiveOwnersForTranscript id => select c (fun d => Ok (submitted_owners id d))
  | ListPublicOwnersForViewer v ids => select c (fun d => Ok (public_owners v ids d))
  | CountTranscriptAnnotations id => select c (fun d => Ok (Z.of_nat (length (annotations_of id d))))
  | ListAnnotationsByTranscriptID id => select c (fun d => Ok (annotations_of id d))
  | ListOwnerAnnotationHashesForTranscriptIDs u ids => select c (fun d => Ok (owner_hashes u ids d))
  | ListPullableTranscripts u limit offset => select c (fun d => page_of limit offset (pullable u d) d)
  | CountPullableTranscripts u => select c (fun d => Ok (Z.of_nat (length (pullable u d))))
  | ListPullableTranscriptsInCollective u cs limit offset => select c (fun d => page_of limit offset (pullable_in u cs d) d)
  | CountPullableTranscriptsInCollective u cs => select c (fun d => Ok (Z.of_nat (length (pullable_in u cs d))))
  | ListPullableTranscriptsByIDs u ids => select c (fun d => Ok (omap (fun id =>
      if bool_decide (id ∈ ids) then (fun t => (id, ContentHash t)) <$> transcripts d !! id else None) (pullable u d)))
  | ReadBody id d loaded => read_body c id d loaded
  | ReadMetadataObject id d m => read_metadata c id d m
  end.
Definition exec (X : Type) (o : Op X) (c : Choice) (w : World) : option (X * World) := Some (answer o c, w ++ [at_moment c]).
End exec.
End CliPullStore.
