(* ===== verification/CliPull.v ===== *)
(** * The routes the command line pulls from

    What a person may pull, one transcript's metadata, content, annotations and
    publish metadata, the listing and the skip gate ([handler/pull.go],
    [pull_skip_gate.go], [pull_publish_metadata.go], the read of
    [transcript_read.go], and from [public_owner.go] how a person is shown and what
    of a content names a repository), as programs of Threads.v. *)
From S2P Require Import Prelude GoText Threads BlobStore PublishStore Publish PullRoutes CliContract CliPullStore.

Open Scope string_scope.
Open Scope list_scope.
Open Scope Z_scope.

Module CliPull.
Import BlobStore CliContract CliPullStore.
Import PullRoutes (PublicOwner, Anonymous, Profile).
Import Publish (descriptorFromTranscript, identityFromTranscript, metadataObjectFromTranscript, ifNoneMatchMatches, descriptorsEqual).

(** What the code asks of the schema module, of [uuid] and of the migrator, and
    [encoding/json] on an object as its fields' raw values and on a list of them. *)
Class PullSchema : Type := {
  uuid_parse : string -> option string;
  person_text : Z -> string;
  collective_parse : string -> option Z;
  validateContentBoundary : string -> string -> bool;
  migrate : string -> option (string * bool);
  marshalTranscriptContentEnvelope : string -> option string;
  provenance_method : string -> option string;
  annotator_kind_valid : string -> bool;
  AnnotatorHuman : string; AnnotatorAgent : string; AnnotatorRule : string;
  TargetProject : string; TargetFileVersion : string
}.
Class Json : Type := {
  decode_object : string -> option (gmap string string);
  encode_object : gmap string string -> string;
  decode_list : string -> option (list (gmap string string));
  encode_list : list (gmap string string) -> string
}.

(** ** What a pull is answered *)
Inductive WireVisibility := VisibilityPublic | VisibilityGroup | VisibilityPrivate.
Record PullTranscriptInfo : Type := mkInfo {
  InfoID : string; InfoLocalID : string; InfoOwner : PublicOwner; InfoTitle : string; InfoHarness : string;
  InfoProject : option string; InfoVisibility : WireVisibility; InfoLicense : string; InfoVersion : string;
  InfoPublishedAt : Z; InfoUpdatedAt : Z; InfoAnnotations : Z; InfoHash : string
}.
Record AnnotationSummary : Type := mkSummary {
  SummaryID : string; TargetKind : string; SummaryHash : option string; TargetSessionID : option string;
  TargetEntryIndex : option Z; TargetEntryEndIndex : option Z; TargetAnnotID : option string;
  TargetProjectHash : option string; TargetAssociationID : option string; SummaryConfidence : option string;
  SummaryReason : option string; SummaryProvenance : option string; SummaryPrimary : bool; SummaryType : string;
  SummaryValue : string; SummaryCreatedAt : Z; AnnotatorKind : string; AnnotatorName : string
}.
Record SkipGateItem : Type := mkItem { ItemID : string; ItemHash : string; AnnotationHashes : list string }.
Record SkipGateResult : Type := mkResult { GateID : string; ContentCurrent : bool; AnnotationsCurrent : bool }.
Inductive ReadError := ReadStore (e : BlobError) | ReadUnusable | ReadDenied | ReadUnchanged.
Inductive Answer : Type :=
| Failed (status : Z) (text : string)
| Upgrade (asked : string)                       (** 406, with what it named *)
| NoCollective (value : string)                  (** 400, naming an element of the filter *)
| Unread (e : ReadError)                         (** 500, with the error's text *)
| RepositoryUnreadable                           (** 422 *)
| NotChanged (etag : string)
| Content (etag : option string) (body : string)
| Metadata (body : string)
| Info (legacy : bool) (i : PullTranscriptInfo)
| Listing (legacy : bool) (l : list PullTranscriptInfo) (page limit total : Z)
| Annotations (legacy : bool) (l : list (AnnotationSummary * PublicOwner))
| Gate (l : list SkipGateResult).
(** With the contract header it carries; every answer to a pull varies by it. *)
Record Reply : Type := mkReply { Contract : option string; Said : Answer }.

(** One request: its path, headers, query and decoded body. *)
Record Request : Type := mkRequest {
  PathID : string; ContractHeader : list string; IfNoneMatch : string;
  QueryPage : string; QueryLimit : string; QueryCollectives : string; GateItems : option (list SkipGateItem)
}.

Section pull.
Context `{envelopes : Envelopes} `{schema : PullSchema} `{json : Json}.
Notation Prog := (prog Op Reply).

(** ** Who may pull *)
Fixpoint member_of_any (u : Z) (groups : list Z) : Prog bool :=
  match groups with
  | [] => mret false
  | g :: groups => m ← do_ (GetGroupMember g u); if is_ok m then mret true else member_of_any u groups
  end.
Definition dbVisibilityPublic : string := "public".
Definition dbVisibilityPrivate : string := "private".
Definition dbVisibilityShared : string := "shared".
Definition canPullTranscript (user : option Z) (id : string) (t : Transcript) : Prog bool :=
  match user with
  | None => mret false
  | Some u =>
    if OwnerID t =? u then mret true
    else if String.eqb (Visibility t) dbVisibilityShared then
      groups ← do_ (ListApprovedTranscriptShareGroups id);
      match groups with Err _ => mret false | Ok l => member_of_any u l end
    else mret false
  end.
Definition writeError (served : option string) (status : Z) (text : string) : Reply := mkReply served (Failed status text).
Definition negotiatePullContract (q : Request) : Prog string :=
  match selectPullContract (ContractHeader q) with
  | None => Stop (mkReply None (Upgrade (echoedPullContract (default "" (head (ContractHeader q))))))
  | Some served => mret served
  end.
Definition lookupPullable (user : option Z) (served : string) (q : Request) : Prog (string * Transcript) :=
  match uuid_parse (PathID q) with
  | None => Stop (writeError (Some served) 400 "Invalid transcript ID")
  | Some id =>
    t ← or_stop (GetTranscriptByID id) (fun _ => writeError (Some served) 404 "Transcript not found");
    may ← canPullTranscript user id t;
    if (may : bool) then mret (id, t) else Stop (writeError (Some served) 404 "Transcript not found")
  end.

(** ** People *)
Definition publicProfile (id : Z) (u : User) : PublicOwner :=
  if String.eqb (trim_space (GithubUsername u)) "" then Anonymous
  else Profile (person_text id) (GithubUsername u) (DisplayName u) (AvatarUrl u).
Definition publicOwnerFromRow (row : Z * User * bool) : PublicOwner := if row.2 then publicProfile row.1.1 row.1.2 else Anonymous.
Definition publicOwners : Type := gmap Z PublicOwner.
Definition owner_of (p : publicOwners) (id : Z) : PublicOwner := default Anonymous (p !! id).
Definition resolvePublicOwners (viewer : option Z) (ids : list Z) : Prog (result DbError publicOwners) :=
  match remove_dups ids with
  | [] => mret (Ok ∅)
  | unique =>
    rows ← do_ (ListPublicOwnersForViewer viewer unique);
    mret (match rows with
      | Err e => Err e
      | Ok rows => Ok (foldl (fun (p : publicOwners) row => <[row.1.1 := publicOwnerFromRow row]> p) ∅ rows)
      end)
  end.
Definition resolvePublicOwner (viewer : option Z) (id : Z) : Prog (result DbError PublicOwner) :=
  owners ← resolvePublicOwners viewer [id];
  mret (match owners with Ok p => Ok (owner_of p id) | Err e => Err e end).
Definition IsProfile (o : PublicOwner) : bool := match o with Profile _ _ _ _ => true | Anonymous => false end.

(** ** One transcript's metadata *)
Definition mapDBVisibility (v : string) : WireVisibility :=
  if String.eqb v dbVisibilityPublic then VisibilityPublic else if String.eqb v dbVisibilityShared then VisibilityGroup else VisibilityPrivate.
Definition pullProjectName (name : option string) : option string :=
  match name with Some n => if String.eqb n "" then None else Some n | None => None end.
(** [UnixMilli] *)
Definition millis (t : Z) : Z := t / 1000000.
Definition wireLicense (l : option string) : string := default "" l.
Definition info_of (id : string) (t : Transcript) (annotations : Z) (owner : PublicOwner) : PullTranscriptInfo :=
  let s := Stored t in
  mkInfo id (PublishStore.LocalID s) owner (default "" (PublishStore.Title s)) (ModelProvider t)
    (if IsProfile owner then pullProjectName (ProjectName t) else None) (mapDBVisibility (Visibility t)) (wireLicense (PublishStore.LicenseID s))
    (SchemaVersion t) (millis (PublishedAt t)) (millis (UpdatedAt t)) annotations (default "" (ContentHash t)).
Definition pullTranscriptInfo (id : string) (t : Transcript) (owner : PublicOwner) : Prog PullTranscriptInfo :=
  n ← do_ (CountTranscriptAnnotations id);
  mret (info_of id t (match n with Ok n => n | Err _ => 0 end) owner).
Definition GetPullTranscript (user : option Z) (q : Request) : Prog Reply :=
  served ← negotiatePullContract q;
  '(id, t) ← lookupPullable user served q;
  owner ← resolvePublicOwner user (OwnerID t);
  match owner with
  | Err _ => mret (writeError (Some served) 500 "Failed to resolve the transcript owner")
  | Ok owner => i ← pullTranscriptInfo id t owner; mret (mkReply (Some served) (Info (servesLegacyPull served) i))
  end.

(** ** The listing *)
Definition pullListPageSize : Z := 50.
Definition maxPullListPageSize : Z := 200.
Definition parsePositiveInt (raw : string) (def : Z) : Z :=
  if String.eqb raw "" then def else match atoi raw with Some n => if n <? 1 then def else n | None => def end.
(** [Err]: an element that is no identifier. Duplicates collapse. *)
Fixpoint collective_ids (parts : list string) (seen : list Z) : result string (list Z) :=
  match parts with
  | [] => Ok []
  | part :: parts =>
    let value := trim_space part in
    if String.eqb value "" then collective_ids parts seen
    else match collective_parse value with
      | None => Err value
      | Some id =>
        if bool_decide (id ∈ seen) then collective_ids parts seen
        else match collective_ids parts (id :: seen) with Ok l => Ok (id :: l) | Err e => Err e end
      end
  end.
Definition parseCollectiveFilter (raw : string) : result string (list Z) :=
  if String.eqb (trim_space raw) "" then Ok [] else collective_ids (split_on "," raw) [].
Definition wrap64 (n : Z) : Z := (n + 2 ^ 63) mod 2 ^ 64 - 2 ^ 63.
Definition pullInfoFromListRow (owners : publicOwners) (r : PullRow) : PullTranscriptInfo :=
  info_of (PullID r) (PullTranscript r) (AnnotationCount r) (owner_of owners (OwnerID (PullTranscript r))).
Definition pullRowOwners (rows : list PullRow) : list Z := (fun r => OwnerID (PullTranscript r)) <$> rows.
Definition listed (user : option Z) (served : string) (page limit : Z) (rows : Op (result DbError (list PullRow))) (count : Op (result DbError Z)) : Prog Reply :=
  let refuse text (_ : DbError) := writeError (Some served) 500 text in
  rows ← or_stop rows (refuse "Failed to list pullable transcripts");
  total ← or_stop count (refuse "Failed to count pullable transcripts");
  owners ← resolvePublicOwners user (pullRowOwners rows);
  match owners with
  | Err _ => mret (writeError (Some served) 500 "Failed to resolve the owners of pullable transcripts")
  | Ok owners => mret (mkReply (Some served) (Listing (servesLegacyPull served) (pullInfoFromListRow owners <$> rows) page limit total))
  end.
Definition ListPullable (user : option Z) (q : Request) : Prog Reply :=
  match user with
  | None => mret (writeError None 401 "Authentication required")
  | Some u =>
    served ← negotiatePullContract q;
    match parseCollectiveFilter (QueryCollectives q) with
    | Err value => mret (mkReply (Some served) (NoCollective value))
    | Ok collectives =>
      let page := parsePositiveInt (QueryPage q) 1 in
      let limit := Z.min (parsePositiveInt (QueryLimit q) pullListPageSize) maxPullListPageSize in
      let offset := wrap64 ((page - 1) * limit) in
      match collectives with
      | [] => listed user served page limit (ListPullableTranscripts u (wrap32 limit) (wrap32 offset)) (CountPullableTranscripts u)
      | _ => listed user served page limit (ListPullableTranscriptsInCollective u collectives (wrap32 limit) (wrap32 offset))
          (CountPullableTranscriptsInCollective u collectives)
      end
    end
  end.

(** ** The content *)
Definition null (raw : string) : bool := String.eqb (trim_space raw) "null".
Definition withheldSessionDetailFields : list string := ["project"; "workingDirectory"; "gitBranch"; "gitRemote"; "nativeMetadata"; "retainedUnknown"].
Definition earlierHistoryWithheldFields : list string := ["nativeMetadata"; "retainedUnknown"].
Definition holds_any (fields : list string) (m : gmap string string) : bool := existsb (fun f => is_some_b (m !! f)) fields.
Definition without (fields : list string) (m : gmap string string) : gmap string string := foldl (fun m f => delete f m) m fields.
(** The objects of a member that is a list, without some fields: [None], it is
    no such list. *)
Definition withhold_list (name : string) (fields : list string) (detail : gmap string string) : option (gmap string string * bool) :=
  match detail !! name with
  | None => Some (detail, false)
  | Some raw =>
    if null raw then Some (detail, false)
    else l ← decode_list raw;
      if existsb (holds_any fields) l then Some (<[name := encode_list (without fields <$> l)]> detail, true) else Some (detail, false)
  end.
Definition withholdSessionDetailRepository (detail : gmap string string) : option (gmap string string * bool) :=
  let changed := holds_any withheldSessionDetailFields detail in
  let detail := without withheldSessionDetailFields detail in
  '(detail, history) ← withhold_list "earlierHistory" earlierHistoryWithheldFields detail;
  '(detail, children) ← withhold_list "childSessions" ["project"] detail;
  Some (detail, changed || history || children).
Definition withholdContentRepository (content : string) : option string :=
  top ← decode_object content;
  match top !! "sessionDetail" with
  | Some raw =>
    if null raw then Some content
    else
      detail ← decode_object raw;
      '(detail, changed) ← withholdSessionDetailRepository detail;
      Some (if (changed : bool) then encode_object (<["sessionDetail" := encode_object detail]> top) else content)
  | None =>
    '(top, changed) ← withholdSessionDetailRepository top;
    Some (if (changed : bool) then encode_object top else content)
  end.
(** [encryptedReadResult] *)
Record Pulled : Type := mkPulled { Plaintext : string; PulledRow : Transcript; Identity : ContentIdentity; NotModified : bool }.
Definition unread (served : string) (e : ReadError) : Reply := mkReply (Some served) (Unread e).
(** What the closure [read] of the encrypted read answers of one row. *)
Definition read_row (id ifNoneMatch : string) (t : Transcript) : Prog (result ReadError Pulled) :=
  match descriptorFromTranscript (Stored t), identityFromTranscript (Stored t) with
  | Some d, Some loaded =>
    match (match loaded with LoadedKnown known => if ifNoneMatchMatches ifNoneMatch (hash known) then Some known else None | _ => None end) with
    | Some known => mret (Ok (mkPulled "" t known true))
    | None =>
      r ← do_ (ReadBody id d loaded);
      mret (match r with
        | Ok (plain, i) => if validateContentBoundary plain (ModelProvider t) then Ok (mkPulled plain t i false) else Err ReadUnusable
        | Err e => Err (ReadStore e)
        end)
    end
  | _, _ => mret (Err ReadUnusable)
  end.
Definition readEncryptedTranscript (id ifNoneMatch : string) (initial : Transcript) (authorize : Transcript -> Prog bool) : Prog (result ReadError Pulled) :=
  r ← read_row id ifNoneMatch initial;
  match r with
  | Err (ReadStore EObjectNotFound) =>
    fresh ← do_ (GetTranscriptByID id);
    match fresh with
    | Err _ => mret (Err ReadDenied)
    | Ok fresh =>
      may ← authorize fresh;
      if negb may then mret (Err ReadDenied)
      else match descriptorFromTranscript (Stored initial), descriptorFromTranscript (Stored fresh) with
        | Some old, Some new => if descriptorsEqual old new then mret (Err ReadUnchanged) else read_row id ifNoneMatch fresh
        | _, _ => mret (Err ReadUnusable)
        end
    end
  | r => mret r
  end.
Definition quoted (h : string) : string := String "034" (h +:+ String "034" "").
(** The bytes as the owner may be shown: [None], they cannot be trimmed. *)
Definition shown_body (owner : PublicOwner) (plain : string) : option string :=
  if IsProfile owner then Some plain
  else
    '(payload, rewrite) ← migrate plain;
    body ← (if (rewrite : bool) then marshalTranscriptContentEnvelope payload else Some plain);
    withholdContentRepository body.
Definition GetPullTranscriptContent (user : option Z) (q : Request) : Prog Reply :=
  served ← negotiatePullContract q;
  '(id, t) ← lookupPullable user served q;
  r ← readEncryptedTranscript id (IfNoneMatch q) t (canPullTranscript user id);
  match r with
  | Err e => mret (unread served e)
  | Ok p =>
    if NotModified p then mret (mkReply (Some served) (NotChanged (quoted (hash (Identity p)))))
    else
      owner ← resolvePublicOwner user (OwnerID t);
      match owner with
      | Err _ => mret (writeError (Some served) 500 "Failed to resolve the transcript owner; no content was served")
      | Ok owner =>
        mret (mkReply (Some served) (match shown_body owner (Plaintext p) with
          | None => RepositoryUnreadable
          | Some body =>
            let withheld := negb (IsProfile owner) && negb (String.eqb body (Plaintext p)) in
            Content (if is_some_b (ContentHash (PulledRow p)) && negb withheld then Some (quoted (hash (Identity p))) else None) body
          end))
      end
  end.

(** ** Annotations *)
Definition resolveAnnotatorKind (stored : option string) (provenance : option string) : string :=
  match (match stored with Some k => if annotator_kind_valid k then Some k else None | None => None end) with
  | Some k => k
  | None =>
    match provenance ≫= provenance_method with
    | Some method =>
      if String.eqb method "llm_judge" then AnnotatorAgent
      else if String.eqb method "heuristic" || String.eqb method "regex" then AnnotatorRule else AnnotatorHuman
    | None => AnnotatorHuman
    end
  end.
Definition annotationRowToSummary (a : Annotation) : AnnotationSummary :=
  let provenance := if String.eqb (RowProvenance a) "" then None else Some (RowProvenance a) in
  let provenance := match provenance with Some p => if is_some_b (provenance_method p) then Some p else None | None => None end in
  mkSummary (AnnotationRowID a) (RowTargetKind a) (if String.eqb (AnnotationHash a) "" then None else Some (AnnotationHash a))
    (match SessionID a with Some s => Some s | None => EntrySessionID a end) (EntryIndex a) (EntryEndIndex a) (AnnotationID a)
    (ProjectHash a) (RowAssociationID a) (RowConfidence a) (RowReason a) provenance (IsPrimary a) (TypeID a) (Value a)
    (millis (CreatedAt a)) (resolveAnnotatorKind (RowAnnotatorKind a) provenance) (default "" (RowAnnotatorName a)).
Definition annotationTargetsWithheldRepository (s : AnnotationSummary) (owner : PublicOwner) : bool :=
  negb (IsProfile owner) && (String.eqb (TargetKind s) TargetProject || String.eqb (TargetKind s) TargetFileVersion).
Definition anonymousAnnotatorName : string := "anon".
Definition annotatorNameFor (s : AnnotationSummary) (author : PublicOwner) : string :=
  if String.eqb (AnnotatorKind s) AnnotatorHuman && negb (IsProfile author) then anonymousAnnotatorName else AnnotatorName s.
(** With the name the author may be shown by, and [withholdAnnotationRepository]. *)
Definition shown_annotation (s : AnnotationSummary) (author owner : PublicOwner) : AnnotationSummary :=
  mkSummary (SummaryID s) (TargetKind s) (SummaryHash s) (TargetSessionID s) (TargetEntryIndex s) (TargetEntryEndIndex s) (TargetAnnotID s)
    (if IsProfile owner then TargetProjectHash s else None) (TargetAssociationID s) (SummaryConfidence s) (SummaryReason s) (SummaryProvenance s)
    (SummaryPrimary s) (SummaryType s) (SummaryValue s) (SummaryCreatedAt s) (AnnotatorKind s) (annotatorNameFor s author).
Definition pull_annotation (owner : PublicOwner) (authors : publicOwners) (a : Annotation) : option (AnnotationSummary * PublicOwner) :=
  let author := owner_of authors (AnnotationOwner a) in
  let s := annotationRowToSummary a in
  if annotationTargetsWithheldRepository s owner then None else Some (shown_annotation s author owner, author).
Definition GetPullTranscriptAnnotations (user : option Z) (q : Request) : Prog Reply :=
  served ← negotiatePullContract q;
  '(id, t) ← lookupPullable user served q;
  rows ← or_stop (ListAnnotationsByTranscriptID id) (fun _ => writeError (Some served) 500 "Failed to fetch annotations");
  authors ← resolvePublicOwners user (OwnerID t :: (AnnotationOwner <$> rows));
  match authors with
  | Err _ => mret (writeError (Some served) 500 "Failed to resolve annotation authors")
  | Ok authors =>
    mret (mkReply (Some served) (Annotations (servesLegacyPull served) (omap (pull_annotation (owner_of authors (OwnerID t)) authors) rows)))
  end.

(** ** The skip gate *)
Fixpoint index_items (l : list SkipGateItem) (seen : gmap string SkipGateItem) : gmap string SkipGateItem :=
  match l with
  | [] => seen
  | i :: l => match uuid_parse (ItemID i) with
    | None => index_items l seen
    | Some id => if is_some_b (seen !! id) then index_items l seen else index_items l (<[id := i]> seen)
    end
  end.
Definition hashSetsEqual (client : list string) (server : gset string) : bool :=
  let client : gset string := list_to_set client in
  bool_decide (size client = size server) && forallb (fun h => bool_decide (h ∈ server)) (elements client).
Definition ownerAnnotationSetsByTranscriptID (owner : Z) (pullable : list (string * option string)) : Prog (result DbError (gmap string (gset string))) :=
  match pullable with
  | [] => mret (Ok ∅)
  | _ =>
    rows ← do_ (ListOwnerAnnotationHashesForTranscriptIDs owner (remove_dups pullable.*1));
    mret (match rows with
      | Err e => Err e
      | Ok rows => Ok (foldl (fun m r => if bool_decide (r.1 ∈ pullable.*1) then <[r.1 := {[r.2]} ∪ default ∅ (m !! r.1)]> m else m) ∅ rows)
      end)
  end.
Definition gate_result (items : gmap string SkipGateItem) (sets : gmap string (gset string)) (p : string * option string) : SkipGateResult :=
  let item := default (mkItem "" "" []) (items !! p.1) in
  mkResult p.1 (bool_decide (p.2 = Some (ItemHash item))) (hashSetsEqual (AnnotationHashes item) (default ∅ (sets !! p.1))).
Definition PullSkipGate (user : option Z) (q : Request) : Prog Reply :=
  match user, GateItems q with
  | None, _ => mret (writeError None 401 "Authentication required")
  | Some _, None => mret (writeError None 400 "Invalid skip-gate request body")
  | Some u, Some l =>
    let items := index_items l ∅ in
    pullable ← or_stop (ListPullableTranscriptsByIDs u (map_to_list items).*1) (fun _ => writeError None 500 "Failed to resolve pullable transcripts");
    sets ← ownerAnnotationSetsByTranscriptID u pullable;
    match sets with
    | Err _ => mret (writeError None 500 "Failed to resolve annotation currency")
    | Ok sets => mret (mkReply None (Gate (gate_result items sets <$> pullable)))
    end
  end.

(** ** Publish metadata *)
Definition publishMetadataNotFound : string := "Transcript publish metadata not found".
Definition publishMetadataUnverified : string := "Stored publish metadata failed verification; nothing was served".
Definition canReadPublishMetadata (user : option Z) (id : string) (t : Transcript) : Prog (result DbError bool) :=
  match user with
  | None => mret (Ok false)
  | Some u =>
    if OwnerID t =? u then mret (Ok true)
    else owners ← do_ (ListSubmittedCollectiveOwnersForTranscript id);
      mret (match owners with Err e => Err e | Ok l => Ok (existsb (Z.eqb u) l) end)
  end.
Definition authorizePublishMetadata (served : string) (user : option Z) (id : string) : Prog (BlobDescriptor * MetadataObject) :=
  let hidden := writeError (Some served) 404 publishMetadataNotFound in
  let broken text := writeError (Some served) 500 text in
  t ← or_stop (GetTranscriptByID id) (fun e => match e with NoRows => hidden | DbFailed => broken "Failed to read the transcript" end);
  allowed ← canReadPublishMetadata user id t;
  match allowed with
  | Err _ => Stop (broken "Failed to read the transcript")
  | Ok false => Stop hidden
  | Ok true =>
    owner ← resolvePublicOwner user (OwnerID t);
    match owner with
    | Err _ => Stop (broken "Failed to resolve the transcript owner")
    | Ok owner =>
      if negb (IsProfile owner) then Stop hidden
      else match metadataObjectFromTranscript (Stored t) with
        | None => Stop (broken publishMetadataUnverified)
        | Some None => Stop hidden
        | Some (Some object) => match descriptorFromTranscript (Stored t) with
          | None => Stop (broken publishMetadataUnverified)
          | Some d => mret (d, object)
          end
        end
    end
  end.
Definition GetPullTranscriptPublishMetadata (user : option Z) (q : Request) : Prog Reply :=
  served ← negotiatePullContract q;
  match uuid_parse (PathID q) with
  | None => mret (writeError (Some served) 404 publishMetadataNotFound)
  | Some id =>
    let unverified := writeError (Some served) 500 publishMetadataUnverified in
    let told (r : result BlobError string) := match r with Ok body => mkReply (Some served) (Metadata body) | Err _ => unverified end in
    '(d, object) ← authorizePublishMetadata served user id;
    body ← do_ (ReadMetadataObject id d object);
    match body with
    | Err EObjectNotFound =>
      '(d', object') ← authorizePublishMetadata served user id;
      if String.eqb (metadataKey object') (metadataKey object) then mret unverified
      else body ← do_ (ReadMetadataObject id d' object'); mret (told body)
    | r => mret (told r)
    end
  end.

(** ** The routes *)
Inductive Route := RList | RTranscript | RContent | RAnnotations | RSkipGate | RPublishMetadata.
Definition serve (r : Route) : option Z -> Request -> Prog Reply :=
  match r with
  | RList => ListPullable
  | RTranscript => GetPullTranscript
  | RContent => GetPullTranscriptContent
  | RAnnotations => GetPullTranscriptAnnotations
  | RSkipGate => PullSkipGate
  | RPublishMetadata => GetPullTranscriptPublishMetadata
  end.
End pull.
End CliPull.
