(* ===== verification/CliPullLaws.v ===== *)
(** * What a pull tells, and to whom

    Of one request at a time, whatever everyone else changes between any two of its
    operations: the moments it saw say who owned what, who shared it and who was a
    member. *)
From S2P Require Import Prelude GoText Threads BlobStore PublishStore Publish PullRoutes CliContract CliPullStore CliPull.

Open Scope string_scope.
Open Scope list_scope.
Open Scope Z_scope.

Module CliPullLaws.
Import BlobStore CliContract CliPullStore CliPull.
Import PullRoutes (PublicOwner, Anonymous, Profile).
Import Publish (descriptorFromTranscript, identityFromTranscript, metadataObjectFromTranscript, ifNoneMatchMatches, descriptorsEqual).

Section laws.
Context `{envelopes : Envelopes} `{schema : PullSchema} `{json : Json} `{crypto : Crypto} `{custodian : KeyCustodian}.

(** ** What the moments of a request say *)
Definition row_at (M : World) (id : string) (t : Transcript) : Prop := exists m, m ∈ M /\ transcripts (tables m) !! id = Some t.
Definition approved_at (M : World) (id : string) (g : Z) : Prop := exists m, m ∈ M /\ shares (tables m) !! (id, g) = Some "approved".
Definition member_at (M : World) (g u : Z) : Prop := exists m, m ∈ M /\ is_Some (members (tables m) !! (g, u)).
(** The owner, or a member of a collective with an approved share of it. *)
Definition may_pull (M : World) (u : Z) (id : string) (t : Transcript) : Prop :=
  OwnerID t = u \/ (Visibility t = "shared" /\ exists g, approved_at M id g /\ member_at M g u).
Definition shown_at (M : World) (viewer : option Z) (person : Z) : Prop :=
  exists m r, m ∈ M /\ users (tables m) !! person = Some r /\ profile_visible (tables m) viewer person r = true.
(** The store opened that generation to those bytes. *)
Definition opens_at (M : World) (id : string) (d : BlobDescriptor) (loaded : LoadedContentIdentity) (plain : string) (i : ContentIdentity) : Prop :=
  exists c, at_moment c ∈ M /\ read_body c id d loaded = Ok (plain, i).

Definition Later : World -> World -> Prop := subseteq.
#[export] Instance later_preorder : PreOrder Later.
Proof. split; [by intros x|]. intros x y z Hxy Hyz w Hw. by apply Hyz, Hxy. Qed.
Lemma may_pull_later M M' u id t : Later M M' -> may_pull M u id t -> may_pull M' u id t.
Proof.
  intros Hl [Ho|(Hs & g & (m1 & H1 & ?) & m2 & H2 & ?)]; [by left|right]. split; [done|].
  exists g. split; [exists m1|exists m2]; (split; [by apply Hl|done]).
Qed.
Lemma row_at_later M M' id t : Later M M' -> row_at M id t -> row_at M' id t.
Proof. intros Hl (m & Hm & ?). exists m. split; [by apply Hl|done]. Qed.

(** ** One operation *)
Definition always (M : World) : Prop := True.
Definition learned X (o : Op X) (x : X) (M : World) : Prop := exists c, at_moment c ∈ M /\ x = answer o c.
Notation safe := (safe (T := Reply) exec always Later).
Lemma op_safe {X A} (o : Op X) (f : X -> prog Op Reply A) Qs Q M :
  (forall x M', Later M M' -> learned X o x M' -> safe Qs Q (f x) M') -> safe Qs Q (do_ o ≫= f) M.
Proof.
  intros Hk. apply safe_bind; [apply later_preorder|done|].
  apply (safe_contract exec always Later (fun _ _ _ => True) learned); try done.
  - intros X' e x w w' Hl (c & Hc & ->). exists c. split; [by apply Hl|done].
  - intros X' e c x w w' _ _ [= <- <-]. split_and!; [done|by intros ? ?; apply elem_of_app; left|]. exists c. split; [|done].
    apply elem_of_app. right. by left.
  - intros x w' _. apply Hk.
Qed.
Lemma or_stop_safe {X A} (o : Op (result DbError X)) (t : DbError -> Reply) (f : X -> prog Op Reply A) Qs Q M :
  (forall e M', Later M M' -> Qs (t e) M') -> (forall x M', Later M M' -> learned _ o (Ok x) M' -> safe Qs Q (f x) M') ->
  safe Qs Q (or_stop o t ≫= f) M.
Proof.
  intros Ht Hk. apply (op_safe o). intros [x|e] M' Hl Hx; [by apply Hk|]. cbn. intros M2 Hl2 _. apply Ht. by etrans.
Qed.
Lemma ret_safe {A} (a : A) Qs (Q : A -> World -> Prop) M : (forall M', Later M M' -> Q a M') -> safe Qs Q (mret a) M.
Proof. intros Hq M' Hl _. by apply Hq. Qed.
Lemma call_safe {A B} (p : prog Op Reply A) (f : A -> prog Op Reply B) Qs Q Q' M : safe Qs Q p M ->
  (forall a M', Later M M' -> Q a M' -> safe Qs Q' (f a) M') -> safe Qs Q' (p ≫= f) M.
Proof. intros Hp Hf. apply (safe_call exec always Later Qs Q); [done|exact Hp|]. intros a M' _. apply Hf. Qed.

Lemma select_ok {A} c (f : Tables -> result DbError A) a : Ok a = select c f -> f (tables (at_moment c)) = Ok a.
Proof. unfold select. by destruct (fails c). Qed.
Lemma one_ok {A} (o : option A) a : one o = Ok a -> o = Some a.
Proof. destruct o; [by intros [= ->]|done]. Qed.
Lemma groups_with_in statuses id d g : g ∈ groups_with statuses id d <-> exists s, shares d !! (id, g) = Some s /\ s ∈ statuses.
Proof.
  unfold groups_with. rewrite list_elem_of_omap. split.
  - intros ([[id' g'] s] & Hin%elem_of_map_to_list & Hg). cbn in Hg. destruct (String.eqb_spec id' id) as [->|]; [|done].
    case_bool_decide; [|done]. injection Hg as ->. eauto.
  - intros (s & Hs & Hin). exists ((id, g), s). rewrite elem_of_map_to_list. split; [done|]. cbn. by rewrite String.eqb_refl, bool_decide_eq_true_2.
Qed.
Lemma approved_in id d g : g ∈ approved_groups id d <-> shares d !! (id, g) = Some "approved".
Proof.
  unfold approved_groups. rewrite groups_with_in. split; [intros (s & Hs & ->%list_elem_of_singleton)|intros Hs; eexists; split; [exact Hs|by left]]; done.
Qed.

(** ** Who may pull *)
Lemma member_safe u id groups Qs M : (forall g, g ∈ groups -> approved_at M id g) ->
  safe Qs (fun b M' => b = true -> exists g, approved_at M' id g /\ member_at M' g u) (member_of_any u groups) M.
Proof.
  revert M. induction groups as [|g groups IH]; intros M Ha; [by apply ret_safe|]. apply op_safe. intros r M' Hl (c & Hc & Hr).
  destruct r as [m|e]; cbn [is_ok].
  - apply ret_safe. intros M2 Hl2 _. exists g. split.
    + destruct (Ha g ltac:(by left)) as (m0 & Hm & ?). exists m0. split; [by apply Hl2, Hl|done].
    + apply select_ok, one_ok in Hr. exists (at_moment c). split; [by apply Hl2|by rewrite Hr].
  - apply IH. intros g' Hg. destruct (Ha g' ltac:(by right)) as (m & Hm & ?). exists m. split; [by apply Hl|done].
Qed.
Lemma can_pull_safe user id t Qs M :
  safe Qs (fun b M' => b = true -> exists u, user = Some u /\ may_pull M' u id t) (canPullTranscript user id t) M.
Proof.
  destruct user as [u|]; [|by apply ret_safe]. unfold canPullTranscript. destruct (Z.eqb_spec (OwnerID t) u) as [Ho|_].
  { apply ret_safe. intros M' _ _. exists u. split; [done|by left]. }
  destruct (String.eqb_spec (Visibility t) dbVisibilityShared) as [Hv|_]; [|by apply ret_safe].
  apply op_safe. intros r M' Hl (c & Hc & Hr). destruct r as [l|e]; [|by apply ret_safe]. apply select_ok in Hr. injection Hr as <-.
  eapply safe_weaken; [apply (member_safe u id)|done|].
  - intros g Hg%approved_in. by exists (at_moment c).
  - cbn. intros b M2 _ Hb Htrue. destruct (Hb Htrue) as (g & ? & ?). exists u. split; [done|]. right. split; [done|by exists g].
Qed.

(** ** The parts of every route *)
Section routes.
Variable Q : Reply -> World -> Prop.
(** What a request about a transcript is answered that may not be pulled. *)
Definition lookup_refusal (q : Request) (served : string) : Reply :=
  match uuid_parse (PathID q) with
  | None => writeError (Some served) 400 "Invalid transcript ID"
  | Some _ => writeError (Some served) 404 "Transcript not found"
  end.
Lemma negotiate_safe {A} q (f : string -> prog Op Reply A) (Q' : A -> World -> Prop) M :
  (forall M', selectPullContract (ContractHeader q) = None -> Q (mkReply None (Upgrade (echoedPullContract (default "" (head (ContractHeader q)))))) M') ->
  (forall served, selectPullContract (ContractHeader q) = Some served -> safe Q Q' (f served) M) -> safe Q Q' (negotiatePullContract q ≫= f) M.
Proof. intros Hu Hf. unfold negotiatePullContract. destruct (selectPullContract _); [by apply Hf|]. intros M' _ _. by apply Hu. Qed.
Lemma lookup_safe {A} user served q (f : string * Transcript -> prog Op Reply A) (Q' : A -> World -> Prop) M :
  (forall M', Q (lookup_refusal q served) M') ->
  (forall id t u M', Later M M' -> uuid_parse (PathID q) = Some id -> user = Some u -> row_at M' id t -> may_pull M' u id t -> safe Q Q' (f (id, t)) M') ->
  safe Q Q' (lookupPullable user served q ≫= f) M.
Proof.
  intros Hno Hf. unfold lookupPullable, lookup_refusal in *. destruct (uuid_parse (PathID q)) as [id|] eqn:Hid; [|intros M' _ _; apply Hno].
  apply safe_bind; [apply later_preorder|done|].
  apply or_stop_safe; [intros; apply Hno|]. intros t M1 H1 (c & Hc & Hr). apply select_ok in Hr.
  assert (row_at M1 id t) as Hrow. { exists (at_moment c). split; [done|by apply one_ok]. }
  eapply call_safe; [apply (can_pull_safe user id t)|]. intros b M2 H2 Hb. cbn beta in Hb. destruct b; [|intros M' _ _; apply Hno].
  destruct (Hb eq_refl) as (u & Hu & Hmay). apply ret_safe. intros M3 H3.
  apply (Hf id t u); [by transitivity M2; [transitivity M1|]|done|exact Hu| |by apply (may_pull_later M2)].
  apply (row_at_later M1); [by transitivity M2|done].
Qed.
End routes.
(** Of the people asked for, only those are named whom the statement shows. *)
Definition names_shown (viewer : option Z) (r : result DbError publicOwners) (M : World) : Prop :=
  forall p, r = Ok p -> forall person, IsProfile (owner_of p person) = true -> shown_at M viewer person.
Lemma folded_owners rows : forall (p : publicOwners) person o,
  foldl (fun (p : publicOwners) row => <[row.1.1 := publicOwnerFromRow row]> p) p rows !! person = Some o ->
  p !! person = Some o \/ exists row, row ∈ rows /\ row.1.1 = person /\ o = publicOwnerFromRow row.
Proof.
  induction rows as [|row rows IH]; intros p person o; cbn [foldl]; [by left|]. intros [Hp|(r & Hr & ? & ?)]%IH.
  - unfold publicOwners in *. apply (lookup_insert_Some (M := gmap Z)) in Hp as [[<- <-]|[_ Hp]]; [right; exists row; split; [by left|done]|by left].
  - right. exists r. split; [by right|done].
Qed.
Lemma owners_safe user people Qs M : safe Qs (names_shown user) (resolvePublicOwners user people) M.
Proof.
  assert (forall p M', p = (∅ : publicOwners) -> names_shown user (Ok p) M') as Hnone.
  { intros p M' -> p' [= <-] person. unfold owner_of, publicOwners. by rewrite (lookup_empty (M := gmap Z)). }
  unfold resolvePublicOwners. destruct (remove_dups people) as [|person unique]; [apply ret_safe; intros; by apply Hnone|].
  generalize (person :: unique). clear. intros asked. apply op_safe. intros r M' Hl (c & Hc & Hr). apply ret_safe. intros M2 Hl2 p. destruct r as [rows|]; [|done]. intros [= <-] who.
  unfold owner_of. destruct (foldl _ _ _ !! who) as [o|] eqn:Ho; [|done]. cbn [from_option]. intros Hp.
  apply folded_owners in Ho as [Ho|(row & Hrow & <- & ->)]; [unfold publicOwners in Ho; by rewrite (lookup_empty (M := gmap Z)) in Ho|].
  apply select_ok in Hr. injection Hr as <-. unfold public_owners in Hrow. apply list_elem_of_omap in Hrow as (k & _ & Hrow).
  destruct (users (tables (at_moment c)) !! k) as [u|] eqn:Hu; [|done]. injection Hrow as <-. exists (at_moment c), u.
  split; [by apply Hl2|]. split; [done|]. unfold publicOwnerFromRow in Hp. cbn in *. by destruct (profile_visible _ _ _ _).
Qed.
Lemma owner_safe user person Qs M :
  safe Qs (fun r M' => forall o, r = Ok o -> IsProfile o = true -> shown_at M' user person) (resolvePublicOwner user person) M.
Proof.
  unfold resolvePublicOwner. eapply call_safe; [apply owners_safe|]. intros r M1 _ Hr. apply ret_safe. intros M2 H2 o Ho Hp.
  destruct r as [p|]; [|done]. injection Ho as <-. destruct (Hr p eq_refl person Hp) as (m & u & Hm & Hrest). exists m, u. split; [by apply H2|done].
Qed.

(** ** The content *)
Definition read_as (M : World) (id inm : string) (t : Transcript) (r : result ReadError Pulled) : Prop :=
  match r with
  | Err _ => True
  | Ok p => PulledRow p = t /\ exists d loaded, descriptorFromTranscript (Stored t) = Some d /\ identityFromTranscript (Stored t) = Some loaded /\
      if NotModified p then loaded = LoadedKnown (Identity p) /\ ifNoneMatchMatches inm (hash (Identity p)) = true
      else opens_at M id d loaded (Plaintext p) (Identity p)
  end.
Lemma read_row_safe id inm t Qs M : safe Qs (fun r M' => read_as M' id inm t r) (read_row id inm t) M.
Proof.
  unfold read_row. destruct (descriptorFromTranscript _) as [d|] eqn:Hd; [|by apply ret_safe].
  destruct (identityFromTranscript _) as [loaded|] eqn:Hi; [|by apply ret_safe].
  destruct (match loaded with LoadedKnown known => if ifNoneMatchMatches inm (hash known) then Some known else None | _ => None end) as [known|] eqn:Hk.
  - apply ret_safe. intros M' _. cbn. split; [done|]. exists d, loaded. destruct loaded as [i| |]; try done.
    destruct (ifNoneMatchMatches inm (hash i)) eqn:Hm; [|done]. by injection Hk as <-.
  - apply op_safe. intros r M' Hl (c & Hc & Hr). apply ret_safe. intros M2 Hl2. destruct r as [[plain i]|]; [|done].
    destruct (validateContentBoundary _ _); [|done]. cbn. split; [done|]. exists d, loaded. split_and!; [done..|]. exists c. split; [by apply Hl2|done].
Qed.
Definition pulled (M : World) (user : option Z) (id inm : string) (r : result ReadError Pulled) : Prop :=
  match r with
  | Err _ => True
  | Ok p => exists u, user = Some u /\ row_at M id (PulledRow p) /\ may_pull M u id (PulledRow p) /\ read_as M id inm (PulledRow p) r
  end.
Lemma opens_later M M' id d l p i : Later M M' -> opens_at M id d l p i -> opens_at M' id d l p i.
Proof. intros Hl (c & Hc & ?). exists c. split; [by apply Hl|done]. Qed.
Lemma read_safe user u id inm t Qs M : user = Some u -> row_at M id t -> may_pull M u id t ->
  safe Qs (fun r M' => pulled M' user id inm r) (readEncryptedTranscript id inm t (canPullTranscript user id)) M.
Proof.
  intros Hu Hrow Hmay. unfold readEncryptedTranscript. eapply call_safe; [apply read_row_safe|]. cbn beta. intros r M1 H1 Hr.
  assert (safe Qs (fun r M' => pulled M' user id inm r) (mret r) M1) as Hfirst.
  { apply ret_safe. intros M' Hl. destruct r as [p|]; [|done]. destruct Hr as (Hp & d & loaded & ? & ? & Hrest). exists u. rewrite Hp.
    assert (Later M M') as HM by (by transitivity M1).
    split; [done|]. split; [by apply (row_at_later M)|]. split; [by apply (may_pull_later M)|]. split; [exact Hp|].
    exists d, loaded. split_and!; [done..|]. destruct (NotModified p); [done|by apply (opens_later M1)]. }
  destruct r as [p|[[]| | |]]; try exact Hfirst. clear Hfirst Hr.
  apply op_safe. intros fresh M2 H2 (c & Hc & Hf). destruct fresh as [fresh|]; [|by apply ret_safe]. apply select_ok in Hf.
  assert (row_at M2 id fresh) as Hrow2. { exists (at_moment c). split; [done|by apply one_ok]. }
  eapply call_safe; [apply (can_pull_safe user id fresh)|]. cbn beta. intros b M3 H3 Hb. destruct b; [|by apply ret_safe]. cbn [negb].
  destruct (Hb eq_refl) as (u' & Hu' & Hmay'). destruct (descriptorFromTranscript (Stored t)); [|by apply ret_safe].
  destruct (descriptorFromTranscript (Stored fresh)) as [new|] eqn:Hnew; [|by apply ret_safe]. destruct (descriptorsEqual _ _); [by apply ret_safe|].
  eapply safe_weaken; [apply safe_since; [apply later_preorder|apply (read_row_safe id inm fresh Qs M3)]|done|]. cbn beta.
  intros r M4 _ [H4 Hr]. destruct r as [p|]; [|done]. pose proof Hr as (Hp & _). exists u'. rewrite Hp. split; [done|]. split; [|split; [|exact Hr]].
  - apply (row_at_later M2); [by transitivity M3|done].
  - by apply (may_pull_later M3).
Qed.
Lemma read_identity c id d loaded plain i : read_body c id d loaded = Ok (plain, i) -> i = identity plain.
Proof.
  unfold read_body, Read. destruct (negb _); [done|]. unfold mbind, M_bind. destruct (open_object _ _ _ _ _) as [[p|e] w]; [|done].
  destruct loaded; cbn; [|by intros [= <- <-]..]. case_bool_decide; [|done]. by intros [= <- <-].
Qed.

(** ** What a request was answered *)
Definition answered (r : Route) (user : option Z) (q : Request) (reply : Reply) (M : World) : Prop :=
  exists cs p, run exec cs (serve r user q) [] = Some (p, M) /\ answers p = Some reply.
Lemma answered_safe (Q : Reply -> World -> Prop) r user q reply M :
  safe Q Q (serve r user q) [] -> answered r user q reply M -> Q reply M.
Proof.
  intros Hs (cs & p & Hr & Ha). destruct (run_safe exec always Later Q Q cs _ _ _ _ I Hs Hr) as (_ & _ & Hp).
  destruct p as [a|t|X e k]; [| |done]; injection Ha as <-; by apply Hp.
Qed.

Definition content_of (user : option Z) (q : Request) (reply : Reply) (M : World) : Prop :=
  match Said reply with
  | Content etag body =>
    exists u id t0 t d loaded plain i, user = Some u /\ uuid_parse (PathID q) = Some id /\
      (row_at M id t /\ may_pull M u id t /\ descriptorFromTranscript (Stored t) = Some d /\ identityFromTranscript (Stored t) = Some loaded) /\
      opens_at M id d loaded plain i /\
      row_at M id t0 /\ ((shown_at M user (OwnerID t0) /\ body = plain) \/ shown_body Anonymous plain = Some body) /\
      (forall e, etag = Some e -> body = plain /\ e = quoted (hash (identity body)))
  | NotChanged e =>
    exists u id t i, user = Some u /\ uuid_parse (PathID q) = Some id /\ row_at M id t /\ may_pull M u id t /\
      identityFromTranscript (Stored t) = Some (LoadedKnown i) /\ e = quoted (hash i) /\ ifNoneMatchMatches (IfNoneMatch q) (hash i) = true
  | _ => True
  end.
Lemma content_safe user q M : safe (content_of user q) (content_of user q) (GetPullTranscriptContent user q) M.
Proof.
  unfold GetPullTranscriptContent. apply negotiate_safe; [done|]. intros served _. apply lookup_safe.
  { intros M'. unfold lookup_refusal. by destruct (uuid_parse _). }
  intros id t u M1 H1 Hid Hu Hrow Hmay. eapply call_safe; [by apply (read_safe user u id)|]. cbn beta. intros r M2 H2 Hr.
  destruct r as [p|e]; [|by apply ret_safe]. destruct Hr as (u' & Hu' & Hprow & Hpmay & _ & d & loaded & Hd & Hl & Hrest).
  destruct (NotModified p).
  { apply ret_safe. intros M' HM. destruct Hrest as [-> Hm]. exists u', id, (PulledRow p), (Identity p).
    split; [done|]. split; [done|]. split; [by apply (row_at_later M2)|]. split; [by apply (may_pull_later M2)|]. by split_and!. }
  eapply call_safe; [apply owner_safe|]. cbn beta. intros o M3 H3 Ho. destruct o as [o|e]; [|by apply ret_safe].
  apply ret_safe. intros M' HM. unfold content_of. cbn [Said]. destruct (shown_body o (Plaintext p)) as [body|] eqn:Hb; [|done].
  assert (Later M2 M') as HM2 by (by transitivity M3).
  exists u', id, t, (PulledRow p), d, loaded, (Plaintext p), (Identity p). split; [done|]. split; [done|].
  split; [split_and!; [by apply (row_at_later M2)|by apply (may_pull_later M2)|done|done]|].
  split; [by apply (opens_later M2)|]. split; [apply (row_at_later M1); [by transitivity M2|done]|]. split.
  - destruct o as [|oid name display avatar]; [by right|left]. split; [|by injection Hb as <-].
    destruct (Ho _ eq_refl eq_refl) as (m & r & Hm & Hrest'). exists m, r. split; [by apply HM|done].
  - intros e. destruct (is_some_b _ && negb _) eqn:He; [|done]. intros [= <-]. apply andb_true_iff in He as [_ He].
    destruct Hrest as (c & _ & Hc). assert (body = Plaintext p) as ->.
    { destruct o; [|by injection Hb as <-]. apply negb_true_iff, andb_false_iff in He as [He|He]; [done|]. apply negb_false_iff in He. by apply String.eqb_eq in He. }
    split; [done|]. by rewrite (read_identity _ _ _ _ _ _ Hc).
Qed.

(** C17: whoever is answered a content was, at moments of this request, its owner or
    a member of a collective with an approved share of it; the bytes are what the
    store opened for that very row, under its identity; an owner who may not be
    shown is trimmed out of them; an entity tag is the hash of the bytes served. *)
Theorem pulled_content_is_authorized user q reply M : answered RContent user q reply M -> content_of user q reply M.
Proof. apply answered_safe, content_safe. Qed.

(** ** Refusals *)
Definition refusal (q : Request) : Reply :=
  match selectPullContract (ContractHeader q) with
  | None => mkReply None (Upgrade (echoedPullContract (default "" (head (ContractHeader q)))))
  | Some served => lookup_refusal q served
  end.
Definition allowed_at (M : World) (user : option Z) (q : Request) : Prop :=
  exists u id t, user = Some u /\ uuid_parse (PathID q) = Some id /\ row_at M id t /\ may_pull M u id t.
Definition refused_or_allowed (user : option Z) (q : Request) (reply : Reply) (M : World) : Prop := allowed_at M user q \/ reply = refusal q.
Lemma pull_allowed_later M M' user q : Later M M' -> allowed_at M user q -> allowed_at M' user q.
Proof. intros Hl (u & id & t & ? & ? & ? & ?). exists u, id, t. split_and!; [done|done|by apply (row_at_later M)|by apply (may_pull_later M)]. Qed.
(** Once it is allowed, anything may follow. *)
Lemma allowed_safe {A} user q (p : prog Op Reply A) M : allowed_at M user q ->
  safe (refused_or_allowed user q) (fun _ M' => allowed_at M' user q) p M.
Proof.
  revert M. induction p as [a|r|X e k IH]; intros M Ha.
  - intros M' Hl _. by apply (pull_allowed_later M).
  - intros M' Hl _. left. by apply (pull_allowed_later M).
  - intros M1 c x M2 Hl _ [= <- <-]. split_and!; [done|by intros ? ?; apply elem_of_app; left|]. apply IH. apply (pull_allowed_later M); [|done].
    etrans; [exact Hl|]. by intros ? ?; apply elem_of_app; left.
Qed.
Lemma about_safe user q (f : string -> string * Transcript -> prog Op Reply Reply) M :
  safe (refused_or_allowed user q) (refused_or_allowed user q) (served ← negotiatePullContract q; lookupPullable user served q ≫= f served) M.
Proof.
  unfold refused_or_allowed, refusal. apply negotiate_safe; [by intros M' ->; right|]. intros served Hs. rewrite Hs.
  apply lookup_safe; [by right|]. intros id t u M1 _ Hid Hu Hrow Hmay. eapply safe_weaken; [apply (allowed_safe user q)| |].
  - by exists u, id, t.
  - unfold refused_or_allowed, refusal. by rewrite Hs.
  - by left.
Qed.

(** C18: a request for a transcript, its content or its annotations by someone who at
    no moment of it may pull the transcript gets an answer that depends on the
    request alone: one that is another's is answered as one that is not there. *)
Theorem refusals_reveal_nothing r user q reply M : r ∈ [RTranscript; RContent; RAnnotations] ->
  answered r user q reply M -> allowed_at M user q \/ reply = refusal q.
Proof.
  intros Hr Ha. revert Ha. apply (answered_safe (refused_or_allowed user q)).
  rewrite !elem_of_cons in Hr. destruct Hr as [->|[->|[->|[]%not_elem_of_nil]]]; apply about_safe.
Qed.
End laws.
End CliPullLaws.
