(* ===== verification/CliPullAgreement.v ===== *)
(** * The listing and the check agree

    What a person may pull is written twice, as the WHERE clause of the listings and
    as [canPullTranscript]: over tables that stand still they say the same. Then what
    is left of a content whose owner may not be shown. *)
From S2P Require Import Prelude GoText Threads BlobStore PublishStore Publish PullRoutes CliContract CliPullStore CliPull CliPullLaws.

Open Scope string_scope.
Open Scope list_scope.
Open Scope Z_scope.

Module CliPullAgreement.
Import BlobStore CliContract CliPullStore CliPull CliPullLaws.

(** ** What the statements select *)
Lemma share_in id t d g : g ∈ shared_groups id t d <-> Visibility t = "shared" /\ shares d !! (id, g) = Some "approved".
Proof.
  unfold shared_groups. destruct (String.eqb_spec (Visibility t) "shared") as [Hv|Hv].
  - rewrite approved_in. tauto.
  - split; [by intros ?%not_elem_of_nil|by intros [? _]].
Qed.
Lemma is_some_iff {A} (o : option A) : is_some_b o = true <-> is_Some o.
Proof. destruct o; cbn; [by split; [eexists|]|by split; [|intros [? ?]]]. Qed.
Lemma listed_row (f : string * Transcript -> list string) d id :
  id ∈ remove_dups (map_to_list (transcripts d) ≫= f) <-> exists k t, transcripts d !! k = Some t /\ id ∈ f (k, t).
Proof.
  rewrite elem_of_remove_dups, list_elem_of_bind. split.
  - intros ([k t] & Hin & Hkt%elem_of_map_to_list). by exists k, t.
  - intros (k & t & Hkt & Hin). exists (k, t). by rewrite elem_of_map_to_list.
Qed.
Lemma joined_iff u d id k t : id ∈ joined u d (k, t) <->
  k = id /\ (OwnerID t = u \/ exists g, g ∈ shared_groups k t d /\ is_Some (members d !! (g, u))).
Proof.
  unfold joined. rewrite list_elem_of_bind. cbn [fst snd]. split.
  - intros ([g|] & Hin & Hg); cbn in Hin; destruct (Z.eqb_spec (OwnerID t) u) as [Ho|Ho]; cbn in Hin.
    1,3: apply list_elem_of_singleton in Hin as ->; split; [done|by left].
    + destruct (is_some_b _) eqn:Hm; [|by apply not_elem_of_nil in Hin]. apply list_elem_of_singleton in Hin as ->. split; [done|]. right. exists g.
      apply is_some_iff in Hm. split; [|done]. destruct (shared_groups k t d) as [|a l]; cbn in Hg.
      { by apply list_elem_of_singleton in Hg. }
      revert Hg. change (Some a :: (Some <$> l)) with (Some <$> (a :: l)). by intros (g' & [= <-] & ?)%list_elem_of_fmap.
    + by apply not_elem_of_nil in Hin.
  - intros [-> [Ho|(g & Hg & Hm)]].
    + destruct (shared_groups id t d) as [|g l]; [exists None|exists (Some g)]; cbn; rewrite Ho, Z.eqb_refl; (split; [by left|by left]).
    + exists (Some g). apply is_some_iff in Hm. rewrite Hm, orb_true_r. split; [by left|].
      destruct (shared_groups id t d) as [|a l]; [by apply not_elem_of_nil in Hg|]. cbn.
      change (Some a :: (Some <$> l)) with (Some <$> (a :: l)). by apply list_elem_of_fmap_2.
Qed.
Lemma may_pull_now m u id t : may_pull [m] u id t <->
  OwnerID t = u \/ exists g, g ∈ shared_groups id t (tables m) /\ is_Some (members (tables m) !! (g, u)).
Proof.
  unfold may_pull, approved_at, member_at. setoid_rewrite share_in. setoid_rewrite list_elem_of_singleton. naive_solver.
Qed.
Lemma pullable_iff m u id : id ∈ pullable u (tables m) <-> exists t, transcripts (tables m) !! id = Some t /\ may_pull [m] u id t.
Proof.
  unfold pullable. rewrite listed_row. setoid_rewrite joined_iff. setoid_rewrite may_pull_now. naive_solver.
Qed.
(** The filter keeps what is reached through one of its collectives; a transcript
    of one's own that is shared with none of them is left out. *)
Lemma pullable_in_iff m u gs id : id ∈ pullable_in u gs (tables m) <->
  exists t g, transcripts (tables m) !! id = Some t /\ g ∈ gs /\ g ∈ shared_groups id t (tables m) /\ is_Some (members (tables m) !! (g, u)).
Proof.
  unfold pullable_in. rewrite listed_row. unfold joined_in. setoid_rewrite list_elem_of_bind. cbn [fst snd]. split.
  - intros (k & t & Ht & g & Hin & Hg). destruct (is_some_b _) eqn:Hm; cbn in Hin; [|by apply not_elem_of_nil in Hin].
    case_bool_decide; [|by apply not_elem_of_nil in Hin]. apply list_elem_of_singleton in Hin as ->. apply is_some_iff in Hm. eauto 6.
  - intros (t & g & Ht & Hgs & Hg & Hm). exists id, t. split; [done|]. exists g. apply is_some_iff in Hm.
    rewrite Hm, bool_decide_eq_true_2 by done. split; [by left|done].
Qed.
Lemma pullable_in_sound m u gs id : id ∈ pullable_in u gs (tables m) -> id ∈ pullable u (tables m).
Proof. rewrite pullable_in_iff, pullable_iff. setoid_rewrite may_pull_now. naive_solver. Qed.

(** ** The check on tables that stand still *)
Section check.
Context `{crypto : Crypto} `{custodian : KeyCustodian}.
Definition unchanged (m : Moment) (cs : list Choice) : Prop := Forall (fun c => at_moment c = m /\ fails c = false) cs.
Lemma select_now {A} m c (f : Tables -> result DbError A) : at_moment c = m /\ fails c = false -> select c f = f (tables m).
Proof. unfold select. by intros [-> ->]. Qed.
Lemma member_runs m u gs : forall cs M, unchanged m cs -> (length gs <= length cs)%nat ->
  exists M', run (T := Reply) exec cs (member_of_any u gs) M = Some (Ret (existsb (fun g => is_some_b (members (tables m) !! (g, u))) gs), M').
Proof.
  induction gs as [|g gs IH]; intros [|c cs] M Hcs Hlen; cbn in Hlen; try lia; [by eexists..|].
  apply Forall_cons in Hcs as [Hc Hcs]. cbn [member_of_any existsb]. cbn. rewrite (select_now m) by done.
  destruct (members (tables m) !! (g, u)); cbn [one is_ok is_some_b orb]; [|by apply IH; [|lia]].
  destruct cs; cbn; by eexists.
Qed.
(** C19: over tables that stand still the check of one transcript answers, and
    answers yes exactly for those the unfiltered listing selects. *)
Theorem listing_agrees_with_check m u id t cs M : transcripts (tables m) !! id = Some t -> unchanged m cs ->
  (length (approved_groups id (tables m)) < length cs)%nat ->
  exists M', run (T := Reply) exec cs (canPullTranscript (Some u) id t) M = Some (Ret (bool_decide (id ∈ pullable u (tables m))), M').
Proof.
  intros Ht Hcs Hlen. assert (bool_decide (id ∈ pullable u (tables m)) =
    (OwnerID t =? u) || existsb (fun g => is_some_b (members (tables m) !! (g, u))) (shared_groups id t (tables m))) as ->.
  { apply eq_true_iff_eq. rewrite bool_decide_eq_true, pullable_iff, orb_true_iff, Z.eqb_eq, existsb_exists. setoid_rewrite may_pull_now.
    setoid_rewrite is_some_iff. setoid_rewrite <- list_elem_of_In. rewrite Ht. naive_solver. }
  destruct cs as [|c cs]; [cbn in Hlen; lia|]. unfold canPullTranscript, shared_groups, dbVisibilityShared.
  destruct (OwnerID t =? u); cbn [orb]; [by eexists|]. destruct (String.eqb (Visibility t) "shared"); [|by eexists].
  apply Forall_cons in Hcs as [Hc Hcs]. cbn. rewrite (select_now m) by done. apply member_runs; [done|]. cbn in Hlen. lia.
Qed.
End check.
End CliPullAgreement.
