(* ===== verification/CliPullAnswers.v ===== *)
(** * What the answers of a pull say

    The listing, one transcript's metadata and annotations, the skip gate and the
    publish metadata, each against the tables as the request saw them. *)
From S2P Require Import Prelude GoText Threads BlobStore PublishStore Publish PullRoutes CliContract CliPullStore CliPull CliPullLaws CliPullAgreement.

Open Scope string_scope.
Open Scope list_scope.
Open Scope Z_scope.

Module CliPullAnswers.
Import BlobStore CliContract CliPullStore CliPull CliPullLaws CliPullAgreement.
Import PullRoutes (PublicOwner, Anonymous, Profile).
Import Publish (descriptorFromTranscript, metadataObjectFromTranscript).

Section answers.
Context `{envelopes : Envelopes} `{schema : PullSchema} `{json : Json} `{crypto : Crypto} `{custodian : KeyCustodian}.
Notation safe := (safe (T := Reply) exec always Later).

(** ** Whom an answer names *)
Definition tells_info (M : World) (user : option Z) (i : PullTranscriptInfo) : Prop :=
  exists u t, user = Some u /\ row_at M (InfoID i) t /\ may_pull M u (InfoID i) t /\ InfoHash i = default "" (ContentHash t) /\
    (IsProfile (InfoOwner i) = true \/ is_Some (InfoProject i) -> shown_at M user (OwnerID t)).
Definition tells_annotation (M : World) (user : option Z) (q : Request) (x : AnnotationSummary * PublicOwner) : Prop :=
  exists u id t m a, user = Some u /\ uuid_parse (PathID q) = Some id /\ row_at M id t /\ may_pull M u id t /\
    m ∈ M /\ a ∈ annotations_of id (tables m) /\ SummaryID x.1 = AnnotationRowID a /\
    (IsProfile x.2 = true \/ AnnotatorKind x.1 = AnnotatorHuman /\ AnnotatorName x.1 <> anonymousAnnotatorName -> shown_at M user (AnnotationOwner a)) /\
    (is_Some (TargetProjectHash x.1) \/ TargetKind x.1 = TargetProject \/ TargetKind x.1 = TargetFileVersion -> shown_at M user (OwnerID t)).
Definition told (user : option Z) (q : Request) (reply : Reply) (M : World) : Prop :=
  match Said reply with
  | Info _ i => uuid_parse (PathID q) = Some (InfoID i) /\ tells_info M user i
  | Listing _ l _ _ _ => Forall (tells_info M user) l
  | Annotations _ l => Forall (tells_annotation M user q) l
  | _ => True
  end.

Lemma shown_later M M' user person : Later M M' -> shown_at M user person -> shown_at M' user person.
Proof. intros Hl (m & r & Hm & ?). exists m, r. split; [by apply Hl|done]. Qed.
Lemma info_told M user u id t n o : user = Some u -> row_at M id t -> may_pull M u id t ->
  (IsProfile o = true -> shown_at M user (OwnerID t)) -> tells_info M user (info_of id t n o).
Proof.
  intros Hu Hrow Hmay Ho. exists u, t. unfold info_of. cbn [InfoID InfoHash InfoOwner InfoProject].
  split_and!; [done..|]. intros [Hp|Hp]; [by apply Ho|]. destruct (IsProfile o); [by apply Ho|by destruct Hp].
Qed.
Lemma in_slice {A} (x : A) n k l : x ∈ take n (drop k l) -> x ∈ l.
Proof. intros Hx. eapply elem_of_submseteq; [exact Hx|]. apply sublist_submseteq. etrans; [apply sublist_take|apply sublist_drop]. Qed.
Lemma in_page limit offset ids d rows r : page_of limit offset ids d = Ok rows -> r ∈ rows ->
  PullID r ∈ ids /\ transcripts d !! PullID r = Some (PullTranscript r).
Proof.
  unfold page_of. destruct (_ || _); [done|]. intros [= <-] Hr%in_slice. apply elem_of_sort_stable, list_elem_of_omap in Hr as (id & Hid & Hr).
  unfold pull_row in Hr. destruct (transcripts d !! id) eqn:Ht; [|done]. injection Hr as <-. done.
Qed.
Lemma told_info_later M M' user i : Later M M' -> tells_info M user i -> tells_info M' user i.
Proof.
  intros Hl (u & t & Hu & Hrow & Hmay & Hh & Hs). exists u, t. split; [done|]. split; [by apply (row_at_later M)|].
  split; [by apply (may_pull_later M)|]. split; [done|]. intros Hp. by apply (shown_later M), Hs.
Qed.
Lemma transcript_told user q M : safe (told user q) (told user q) (GetPullTranscript user q) M.
Proof.
  unfold GetPullTranscript. apply negotiate_safe; [done|]. intros served _. apply lookup_safe; [by intros M'; unfold lookup_refusal; destruct (uuid_parse _)|].
  intros id t u M1 _ Hid Hu Hrow Hmay. eapply call_safe; [apply owner_safe|]. cbn beta. intros o M2 H2 Ho. destruct o as [o|e]; [|by apply ret_safe].
  unfold pullTranscriptInfo. apply safe_bind; [apply later_preorder|done|]. apply op_safe. intros n M3 H3 _. apply ret_safe. intros M4 H4.
  apply ret_safe. intros M5 H5. assert (Later M2 M5) as H25 by (transitivity M3; [done|by transitivity M4]). split; [done|].
  apply (told_info_later M2); [done|]. apply (info_told M2 user u); [done|by apply (row_at_later M1)|by apply (may_pull_later M1)|]. intros Hp. by apply (Ho o).
Qed.
Lemma listed_told user u q served page limit rows count M : user = Some u ->
  (forall c l r, answer rows c = Ok l -> r ∈ l -> PullID r ∈ pullable u (tables (at_moment c)) /\
    transcripts (tables (at_moment c)) !! PullID r = Some (PullTranscript r)) ->
  safe (told user q) (told user q) (listed user served page limit rows count) M.
Proof.
  intros Hu Hrows. unfold listed. apply or_stop_safe; [done|]. intros l M1 _ (c & Hc & Hl). apply or_stop_safe; [done|]. intros total M2 H2 _.
  eapply call_safe; [apply owners_safe|]. intros r M3 H3 Ho. destruct r as [owners|e]; [|by apply ret_safe]. apply ret_safe. intros M4 H4.
  unfold told. cbn [Said]. apply Forall_fmap, Forall_forall. intros r Hr. destruct (Hrows c l r (eq_sym Hl) Hr) as [Hp Ht]. apply (told_info_later M3); [done|].
  assert (Later M1 M3) as H13 by (by transitivity M2). apply (info_told M3 user u); [done| |
    |intros Hprof; by apply (Ho owners eq_refl)].
  - exists (at_moment c). split; [by apply H13|done].
  - apply pullable_iff in Hp as (t & Ht' & Hmay). rewrite Ht in Ht'. injection Ht' as <-. apply (may_pull_later [at_moment c]); [|done].
    intros m ->%list_elem_of_singleton. by apply H13.
Qed.
Lemma select_page c limit offset (f : Tables -> list string) l r : select c (fun d => page_of limit offset (f d) d) = Ok l -> r ∈ l ->
  PullID r ∈ f (tables (at_moment c)) /\ transcripts (tables (at_moment c)) !! PullID r = Some (PullTranscript r).
Proof. intros Hl Hr. symmetry in Hl. apply select_ok in Hl. by eapply in_page. Qed.
Lemma list_told user q M : safe (told user q) (told user q) (ListPullable user q) M.
Proof.
  unfold ListPullable. destruct user as [u|]; [|by apply ret_safe]. apply negotiate_safe; [done|]. intros served _.
  destruct (parseCollectiveFilter _) as [[|g gs]|]; [| |by apply ret_safe]; apply (listed_told _ u); try done; intros c l r Hl Hr.
  - by eapply (select_page c).
  - eapply (select_page c) in Hl as [Hp Ht]; [|exact Hr]. split; [by eapply pullable_in_sound|done].
Qed.
Lemma annotations_told user q M : safe (told user q) (told user q) (GetPullTranscriptAnnotations user q) M.
Proof.
  unfold GetPullTranscriptAnnotations. apply negotiate_safe; [done|]. intros served _. apply lookup_safe; [by intros M'; unfold lookup_refusal; destruct (uuid_parse _)|].
  intros id t u M1 _ Hid Hu Hrow Hmay. apply or_stop_safe; [done|]. intros rows M2 H2 (c & Hc & Hr). symmetry in Hr. apply eq_sym, select_ok in Hr. injection Hr as Hr.
  eapply call_safe; [apply owners_safe|]. intros r M3 H3 Ho. destruct r as [p|e]; [|by apply ret_safe]. apply ret_safe. intros M4 H4.
  unfold told. cbn [Said]. apply Forall_forall. intros x Hx. apply list_elem_of_omap in Hx as (a & Ha & Hx). unfold pull_annotation in Hx.
  set (owner := owner_of p (OwnerID t)) in *. set (author := owner_of p (AnnotationOwner a)) in *.
  destruct (annotationTargetsWithheldRepository _ _) eqn:Hw; [done|]. injection Hx as <-. cbn [fst snd].
  assert (forall person, IsProfile (owner_of p person) = true -> shown_at M4 user person) as Hshown by (intros; apply (shown_later M3); [done|by apply (Ho p)]).
  assert (Later M1 M4) as H14 by (transitivity M2; [done|by transitivity M3]).
  exists u, id, t, (at_moment c), a. split; [done|]. split; [done|]. split; [by apply (row_at_later M1)|]. split; [by apply (may_pull_later M1)|].
  split; [by apply H4, H3|]. split; [by rewrite Hr|]. split; [done|]. unfold shown_annotation. cbn [fst snd AnnotatorKind AnnotatorName TargetProjectHash TargetKind]. split.
  - intros [Hp|[Hk Hn]]; [by apply Hshown|]. unfold annotatorNameFor in Hn. apply Hshown. fold author.
    rewrite Hk, String.eqb_refl in Hn. by destruct (IsProfile author).
  - intros Hp. apply Hshown. fold owner. destruct (IsProfile owner) eqn:Hi; [done|]. exfalso. unfold annotationTargetsWithheldRepository in Hw.
    rewrite Hi in Hw. cbn [negb andb] in Hw. apply orb_false_iff in Hw as [?%String.eqb_neq ?%String.eqb_neq]. destruct Hp as [Hp|[Hp|Hp]]; [by destruct Hp|done..].
Qed.

(** C20: what a listing, a transcript's metadata or its annotations tell is of
    transcripts the asking person could pull, at moments of the request; nobody is
    named by it, as an owner or as an author, nor by a project or a file, whose
    profile that person could not see then. *)
Theorem only_the_shown_are_named r user q reply M : r ∈ [RList; RTranscript; RAnnotations] ->
  answered r user q reply M -> told user q reply M.
Proof.
  intros Hr. apply answered_safe. rewrite !elem_of_cons in Hr.
  destruct Hr as [->|[->|[->|[]%not_elem_of_nil]]]; [apply list_told|apply transcript_told|apply annotations_told].
Qed.
End answers.
End CliPullAnswers.
