(* ===== verification/CliGate.v ===== *)
(** * The skip gate and the publish metadata

    What a gate answers is, for each transcript asked about that the asking person
    may pull, whether the copy they name is the one stored; the publish metadata of a
    transcript is served to its owner and to the owners of the collectives it was
    submitted to. *)
From S2P Require Import Prelude GoText Threads BlobStore PublishStore Publish PullRoutes CliContract CliPullStore CliPull CliPullLaws CliPullAgreement.

Open Scope string_scope.
Open Scope list_scope.
Open Scope Z_scope.

Module CliGate.
Import BlobStore CliContract CliPullStore CliPull CliPullLaws CliPullAgreement.
Import Publish (descriptorFromTranscript, metadataObjectFromTranscript).

(** ** Sets of hashes *)
Lemma same_hashes client server : hashSetsEqual client server = true <-> forall h, h ∈ client <-> h ∈ server.
Proof.
  unfold hashSetsEqual. rewrite andb_true_iff, bool_decide_eq_true, forallb_forall. setoid_rewrite <- list_elem_of_In.
  setoid_rewrite elem_of_elements. setoid_rewrite bool_decide_eq_true. setoid_rewrite elem_of_list_to_set. split.
  - intros [Hs Hc] h. split; [apply Hc|]. intros Hh. rewrite <- (elem_of_list_to_set (C := gset string)).
    assert (list_to_set client ≡@{gset string} server) as ->; [|done]. apply set_subseteq_size_equiv; [|by rewrite Hs].
    apply elem_of_subseteq. intros x. rewrite elem_of_list_to_set. apply Hc.
  - intros Heq. split; [|intros h; apply Heq]. apply set_size_proper. intros h. rewrite elem_of_list_to_set. apply Heq.
Qed.
Section sets.
Variable ids : list string.
Let collect (m : gmap string (gset string)) (r : string * string) := if bool_decide (r.1 ∈ ids) then <[r.1 := {[r.2]} ∪ default ∅ (m !! r.1)]> m else m.
Lemma collected rows : forall m id h,
  h ∈ (default ∅ (foldl collect m rows !! id) : gset string) <-> h ∈ (default ∅ (m !! id) : gset string) \/ id ∈ ids /\ (id, h) ∈ rows.
Proof.
  induction rows as [|[k v] rows IH]; intros m id h; cbn [foldl].
  { split; [by left|]. intros [?|[_ []%not_elem_of_nil]]. done. }
  rewrite IH, elem_of_cons. unfold collect. cbn [fst snd]. case_bool_decide as Hk.
  - destruct (decide (id = k)) as [->|Hne]; [rewrite lookup_insert_eq|rewrite lookup_insert_ne by done]; cbn; [|naive_solver].
    rewrite elem_of_union, elem_of_singleton. naive_solver.
  - naive_solver.
Qed.
End sets.

(** ** What one is asked about *)
Section gate.
Context `{envelopes : Envelopes} `{schema : PullSchema} `{json : Json} `{crypto : Crypto} `{custodian : KeyCustodian}.
Notation safe := (safe (T := Reply) exec always Later).
Definition about (id : string) (i : SkipGateItem) : bool := bool_decide (uuid_parse (ItemID i) = Some id).
Lemma indexed l : forall seen id, index_items l seen !! id = match seen !! id with Some i => Some i | None => find (about id) l end.
Proof.
  induction l as [|i l IH]; intros seen id; cbn [index_items find]; [by destruct (seen !! id)|]. unfold about at 1.
  destruct (uuid_parse (ItemID i)) as [k|] eqn:Hk; [|rewrite IH; by destruct (seen !! id)].
  destruct (seen !! k) as [j|] eqn:Hs; cbn [is_some_b]; rewrite IH.
  - destruct (seen !! id) eqn:Hid; [done|]. case_bool_decide; [congruence|done].
  - destruct (decide (k = id)) as [->|Hne]; [rewrite lookup_insert_eq, Hs, bool_decide_eq_true_2 by done; done|].
    rewrite lookup_insert_ne by done. destruct (seen !! id); [done|]. case_bool_decide; [congruence|done].
Qed.

(** A hash of an annotation of one's own on a transcript. *)
Definition own_hash (d : Tables) (u : Z) (id h : string) : Prop :=
  exists k a t, annotations d !! k = Some a /\ transcripts d !! id = Some t /\ AnnotationOwner a = u /\ touches id t d a = true /\ AnnotationHash a = h.
Lemma owner_hashes_in u ids d id h : (id, h) ∈ owner_hashes u ids d <-> id ∈ ids /\ own_hash d u id h.
Proof.
  unfold owner_hashes, own_hash. rewrite list_elem_of_bind. setoid_rewrite list_elem_of_bind. setoid_rewrite elem_of_remove_dups.
  setoid_rewrite list_elem_of_fmap. split.
  - intros (a & (k & Hin & Hk) & ([k' a'] & -> & Ha%elem_of_map_to_list)). cbn in *.
    destruct (transcripts d !! k) as [t|] eqn:Ht; [|by apply not_elem_of_nil in Hin]. destruct (_ && _) eqn:Hb; [|by apply not_elem_of_nil in Hin].
    apply list_elem_of_singleton in Hin as [= -> ->]. apply andb_true_iff in Hb as [Ho%Z.eqb_eq Htouch]. split; [done|]. by exists k', a', t.
  - intros (Hid & k & a & t & Ha & Ht & Ho & Htouch & <-). exists a. split; [|exists (k, a); by rewrite elem_of_map_to_list].
    exists id. rewrite Ht, Ho, Z.eqb_refl, Htouch. split; [by left|done].
Qed.

(** One answer, for an item: at a moment it was pullable, and its hashes were
    compared with those stored, each at a moment of the request. *)
Definition gated (M : World) (u : Z) (m : Moment) (items : list SkipGateItem) (x : SkipGateResult) : Prop :=
  exists i t m', find (about (GateID x)) items = Some i /\ transcripts (tables m) !! GateID x = Some t /\ m' ∈ M /\
    (ContentCurrent x = true <-> ContentHash t = Some (ItemHash i)) /\
    (AnnotationsCurrent x = true <-> forall h, h ∈ AnnotationHashes i <-> own_hash (tables m') u (GateID x) h).
Definition gate_of (user : option Z) (q : Request) (reply : Reply) (M : World) : Prop :=
  match Said reply with
  | Gate l => exists u items m, user = Some u /\ GateItems q = Some items /\ m ∈ M /\
      NoDup (GateID <$> l) /\
      (forall id, id ∈ GateID <$> l <-> is_Some (find (about id) items) /\ exists t, transcripts (tables m) !! id = Some t /\ may_pull [m] u id t) /\
      Forall (gated M u m items) l
  | _ => True
  end.
Definition by_ids (u : Z) (ids : list string) (d : Tables) : list (string * option string) :=
  omap (fun id => if bool_decide (id ∈ ids) then (fun t => (id, ContentHash t)) <$> transcripts d !! id else None) (pullable u d).
Lemma pullable_known u m id : id ∈ pullable u (tables m) -> is_Some (transcripts (tables m) !! id).
Proof. rewrite pullable_iff. intros (t & -> & _). by eexists. Qed.
Lemma by_ids_ids u ids m : (by_ids u ids (tables m)).*1 = List.filter (fun id => bool_decide (id ∈ ids)) (pullable u (tables m)).
Proof.
  unfold by_ids. pose proof (pullable_known u m) as Hk. induction (pullable u (tables m)) as [|id l IH]; [done|]. cbn.
  case_bool_decide; [|apply IH; intros ??; apply Hk; by right]. destruct (Hk id ltac:(by left)) as [t ->]. cbn. f_equal.
  apply IH. intros ??. apply Hk. by right.
Qed.
Lemma by_ids_in u ids m p : p ∈ by_ids u ids (tables m) -> exists t, transcripts (tables m) !! p.1 = Some t /\ p.2 = ContentHash t.
Proof.
  unfold by_ids. rewrite list_elem_of_omap. intros (id & _ & Hp). case_bool_decide; [|done].
  destruct (transcripts (tables m) !! id) as [t|] eqn:Ht; [|done]. injection Hp as <-. by exists t.
Qed.
Lemma answered_ids items u m (f : string * option string -> SkipGateResult) : (forall p, GateID (f p) = p.1) ->
  let l := f <$> by_ids u (map_to_list (index_items items ∅)).*1 (tables m) in
  NoDup (GateID <$> l) /\
  forall id, id ∈ GateID <$> l <-> is_Some (find (about id) items) /\ exists t, transcripts (tables m) !! id = Some t /\ may_pull [m] u id t.
Proof.
  intros Hf l. assert (GateID <$> l = (by_ids u (map_to_list (index_items items ∅)).*1 (tables m)).*1) as ->.
  { unfold l. rewrite <- list_fmap_compose. apply list_fmap_ext. intros _ p _. apply Hf. }
  rewrite by_ids_ids. split.
  - apply NoDup_ListNoDup, List.NoDup_filter, NoDup_ListNoDup, NoDup_remove_dups.
  - intros id. rewrite list_elem_of_In, filter_In, <- list_elem_of_In, bool_decide_eq_true, pullable_iff, list_elem_of_fmap.
    split; intros [H1 H2]; [split; [|exact H1]|split; [exact H2|]].
    + destruct H2 as ([k i] & -> & Hi%elem_of_map_to_list). cbn. rewrite indexed, lookup_empty in Hi. by exists i.
    + destruct H1 as [i Hi]. exists (id, i). by rewrite elem_of_map_to_list, indexed, lookup_empty.
Qed.
Lemma gate_safe user q M : safe (gate_of user q) (gate_of user q) (PullSkipGate user q) M.
Proof.
  unfold PullSkipGate. destruct user as [u|]; [|by apply ret_safe]. destruct (GateItems q) as [items|] eqn:Hq; [|by apply ret_safe]. cbv zeta.
  apply or_stop_safe; [done|]. intros rows M1 _ (c & Hc & Hr). apply select_ok in Hr.
  injection Hr as Hr. change (by_ids u (map_to_list (index_items items ∅)).*1 (tables (at_moment c)) = rows) in Hr.
  assert (forall M' sets, Later M1 M' -> (forall x, x ∈ rows -> gated M' u (at_moment c) items (gate_result (index_items items ∅) sets x)) ->
    gate_of (Some u) q (mkReply None (Gate (gate_result (index_items items ∅) sets <$> rows))) M') as Hall.
  { intros M' sets Hl Hg. unfold gate_of. cbn [Said]. exists u, items, (at_moment c). split; [done|]. split; [done|]. split; [by apply Hl|].
    pose proof (answered_ids items u (at_moment c) (gate_result (index_items items ∅) sets) ltac:(done)) as [Hnd Hin]. rewrite Hr in Hnd, Hin.
    split; [exact Hnd|]. split; [exact Hin|]. by apply Forall_fmap, Forall_forall. }
  assert (rows = [] \/ ownerAnnotationSetsByTranscriptID u rows = (
    r ← do_ (ListOwnerAnnotationHashesForTranscriptIDs u (remove_dups rows.*1));
    mret (match r with
      | Err e => Err e
      | Ok r => Ok (foldl (fun m r => if bool_decide (r.1 ∈ rows.*1) then <[r.1 := {[r.2]} ∪ default ∅ (m !! r.1)]> m else m) ∅ r)
      end))) as [->| ->] by (destruct rows; auto).
  { cbn. intros M' Hl _. apply (Hall M' ∅ Hl). by intros x ?%not_elem_of_nil. }
  apply safe_bind; [apply later_preorder|done|]. apply op_safe. intros r M2 H2 (c' & Hc' & Hr'). apply ret_safe. intros M3 H3.
  destruct r as [r|]; [|by apply ret_safe]. apply ret_safe. intros M4 H4. apply Hall; [transitivity M2; [done|by transitivity M3]|].
  intros x Hx. apply select_ok in Hr'. injection Hr' as <-. pose proof Hx as Hx'. rewrite <- Hr in Hx'.
  destruct (by_ids_in _ _ _ _ Hx') as (t & Ht & Hh).
  assert (is_Some (find (about x.1) items)) as [i Hi].
  { destruct (answered_ids items u (at_moment c) (gate_result (index_items items ∅) ∅) ltac:(done)) as [_ Hin]. apply (Hin x.1).
    apply list_elem_of_fmap. exists (gate_result (index_items items ∅) ∅ x). split; [done|]. by apply list_elem_of_fmap_2. }
  exists i, t, (at_moment c'). unfold gate_result. cbn [GateID ContentCurrent AnnotationsCurrent].
  rewrite indexed, lookup_empty, Hi. cbn [default from_option]. unfold id. split; [done|]. split; [done|]. split; [by apply H4, H3|]. split.
  - rewrite bool_decide_eq_true, Hh. done.
  - rewrite same_hashes. setoid_rewrite (collected rows.*1). rewrite lookup_empty. setoid_rewrite owner_hashes_in. setoid_rewrite elem_of_remove_dups.
    assert (x.1 ∈ rows.*1) by (by apply list_elem_of_fmap_2). cbn. setoid_rewrite elem_of_empty. naive_solver.
Qed.

(** C22: a gate answers once for each transcript asked about that the asking person
    may pull, and for no other; by the first item that names it, the content is
    current exactly when its hash is the one stored, and the annotations exactly when
    the hashes are those of that person's own annotations on it. *)
Theorem skip_gate_is_exact user q reply M : answered RSkipGate user q reply M -> gate_of user q reply M.
Proof. apply answered_safe, gate_safe. Qed.

(** ** Publish metadata *)
(** The owner, or an owner of a collective the transcript was submitted to. *)
Definition may_read_metadata (M : World) (u : Z) (id : string) (t : Transcript) : Prop :=
  OwnerID t = u \/ exists m g status p, m ∈ M /\ shares (tables m) !! (id, g) = Some status /\ status ∈ ["pending"; "approved"] /\
    members (tables m) !! (g, u) = Some p /\ Role p = "owner".
Definition granted (M : World) (user : option Z) (id : string) (d : BlobDescriptor) (object : MetadataObject) : Prop :=
  exists u t, user = Some u /\ row_at M id t /\ may_read_metadata M u id t /\ shown_at M user (OwnerID t) /\
    metadataObjectFromTranscript (Stored t) = Some (Some object) /\ descriptorFromTranscript (Stored t) = Some d.
Definition metadata_of (user : option Z) (q : Request) (reply : Reply) (M : World) : Prop :=
  match Said reply with
  | Metadata body => exists id d object c, uuid_parse (PathID q) = Some id /\ granted M user id d object /\
      at_moment c ∈ M /\ read_metadata c id d object = Ok body
  | _ => True
  end.
Lemma submitted_in id d u : u ∈ submitted_owners id d ->
  exists g status p, shares d !! (id, g) = Some status /\ status ∈ ["pending"; "approved"] /\ members d !! (g, u) = Some p /\ Role p = "owner".
Proof.
  unfold submitted_owners. rewrite elem_of_remove_dups, list_elem_of_bind. intros (g & Hu & (status & Hs & Hin)%groups_with_in).
  apply list_elem_of_omap in Hu as ([[g' u'] p] & Hp%elem_of_map_to_list & Hu). cbn in *.
  destruct (Z.eqb_spec g' g) as [->|]; [|done]. destruct (String.eqb_spec (Role p) "owner"); [|done]. injection Hu as ->. by exists g, status, p.
Qed.
Lemma metadata_reader_safe user id t Qs M :
  safe Qs (fun r M' => r = Ok true -> exists u, user = Some u /\ may_read_metadata M' u id t) (canReadPublishMetadata user id t) M.
Proof.
  destruct user as [u|]; [|by apply ret_safe]. unfold canReadPublishMetadata. destruct (Z.eqb_spec (OwnerID t) u) as [Ho|_].
  { apply ret_safe. intros M' _ _. exists u. split; [done|by left]. }
  apply op_safe. intros r M1 H1 (c & Hc & Hr). apply ret_safe. intros M2 H2. destruct r as [l|]; [|done]. apply select_ok in Hr. injection Hr as <-.
  intros [= He]. apply existsb_exists in He as (u' & Hu%list_elem_of_In%submitted_in & <-%Z.eqb_eq). destruct Hu as (g & status & p & ? & ? & ? & ?).
  exists u. split; [done|]. right. exists (at_moment c), g, status, p. split; [by apply H2|done].
Qed.
Lemma metadata_reader_later M M' u id t : Later M M' -> may_read_metadata M u id t -> may_read_metadata M' u id t.
Proof. intros Hl [?|(m & g & s & p & Hm & ?)]; [by left|right]. exists m, g, s, p. split; [by apply Hl|done]. Qed.
Lemma granted_later M M' user id d object : Later M M' -> granted M user id d object -> granted M' user id d object.
Proof.
  intros Hl (u & t & Hu & Hrow & Hmay & (m & r & Hm & Hs) & Hrest). exists u, t. split; [done|]. split; [by apply (row_at_later M)|].
  split; [by apply (metadata_reader_later M)|]. split; [exists m, r; split; [by apply Hl|done]|done].
Qed.
Lemma authorize_safe served user id (Q : Reply -> World -> Prop) M : (forall code text M', Q (writeError (Some served) code text) M') ->
  safe Q (fun p M' => granted M' user id p.1 p.2) (authorizePublishMetadata served user id) M.
Proof.
  intros Hno. unfold authorizePublishMetadata. cbv zeta. apply or_stop_safe; [intros [] M' _; apply Hno|]. intros t M1 _ (c & Hc & Hr). apply select_ok in Hr.
  eapply call_safe; [apply metadata_reader_safe|]. cbn beta. intros r M2 H2 Hmay. destruct r as [[]|]; try (intros M' _ _; apply Hno).
  destruct (Hmay eq_refl) as (u & Hu & Hm). eapply call_safe; [apply owner_safe|]. cbn beta. intros o M3 H3 Ho. destruct o as [o|]; [|intros M' _ _; apply Hno].
  destruct (IsProfile o) eqn:Hp; cbn [negb]; [|intros M' _ _; apply Hno].
  destruct (metadataObjectFromTranscript _) as [[object|]|] eqn:Hobj; try (intros M' _ _; apply Hno).
  destruct (descriptorFromTranscript _) as [d|] eqn:Hd; [|intros M' _ _; apply Hno]. apply ret_safe. intros M4 H4. cbn [fst snd].
  apply (granted_later M3); [done|]. exists u, t. split; [done|]. split; [|split; [by apply (metadata_reader_later M2)|split; [by apply (Ho o)|done]]].
  exists (at_moment c). split; [by apply H3, H2|by apply one_ok].
Qed.
Lemma metadata_safe user q M : safe (metadata_of user q) (metadata_of user q) (GetPullTranscriptPublishMetadata user q) M.
Proof.
  unfold GetPullTranscriptPublishMetadata. apply negotiate_safe; [done|]. intros served _. destruct (uuid_parse (PathID q)) as [id|] eqn:Hid; [|by apply ret_safe].
  cbv zeta. eapply call_safe; [by apply authorize_safe|]. cbn beta. intros [d object] M1 _ Hg. cbn [fst snd] in Hg.
  assert (forall d object M M', granted M user id d object -> Later M M' -> forall body c, at_moment c ∈ M' -> read_metadata c id d object = Ok body ->
    metadata_of user q (mkReply (Some served) (Metadata body)) M') as Htold.
  { intros d' o' M2 M3 Hg' Hl body c Hc Hb. exists id, d', o', c. split; [done|]. split; [by apply (granted_later M2)|done]. }
  apply op_safe. intros r M2 H2 (c & Hc & Hr). destruct r as [body|e].
  { apply ret_safe. intros M3 H3. apply (Htold d object M1) with (c := c); [done|by transitivity M2|by apply H3|done]. }
  destruct e; try by apply ret_safe. eapply call_safe; [by apply authorize_safe|]. cbn beta. intros [d' object'] M3 _ Hg'. cbn [fst snd] in Hg'.
  destruct (String.eqb _ _); [by apply ret_safe|]. apply op_safe. intros r M4 H4 (c' & Hc' & Hr'). apply ret_safe. intros M5 H5.
  destruct r as [body|]; [|done]. apply (Htold d' object' M3) with (c := c'); [done|by transitivity M4|by apply H5|done].
Qed.

(** C21: publish metadata is served, as the store opens the object of the row, only
    to the transcript's owner or an owner of a collective it was submitted to, and
    only where its owner's profile may be shown to them, at moments of the request. *)
Theorem publish_metadata_is_granted user q reply M : answered RPublishMetadata user q reply M -> metadata_of user q reply M.
Proof. apply answered_safe, metadata_safe. Qed.
End gate.
End CliGate.
