(* ===== verification/CliWithheld.v ===== *)
(** * What is left of a content whose owner may not be shown

    A content is trimmed over the fields of its session detail, wherever that is:
    of every member that names a repository, and of nothing else. Of [encoding/json]
    this uses that writing an object and reading it back gives its members, each
    without insignificant whitespace. *)
From S2P Require Import Prelude GoText PublishStore PullRoutes CliContract CliPullStore CliPull.

Open Scope string_scope.
Open Scope list_scope.

Module CliWithheld.
Import CliPull.

Notation object := (gmap string string).
Definition members_as (f : string -> string) (m : object) : object := f <$> m.
(** [compact]: a raw value as it is written again. *)
Class JsonLaws (J : Json) : Type := {
  compact : string -> string;
  decode_encoded : forall m, decode_object (encode_object m) = Some (members_as compact m);
  decode_compact : forall raw, decode_object (compact raw) = option_map (members_as compact) (decode_object raw);
  decode_list_encoded : forall l, decode_list (encode_list l) = Some (map (members_as compact) l);
  decode_list_compact : forall raw, decode_list (compact raw) = option_map (map (members_as compact)) (decode_list raw);
  null_compact : forall raw, null (compact raw) = null raw
}.

(** ** What names a repository *)
Definition lacks (fields : list string) (m : object) : Prop := forall f, f ∈ fields -> m !! f = None.
(** Absent, [null], or objects that lack some fields. *)
Definition objects_lack `{json : Json} (fields : list string) (raw : option string) : Prop :=
  match raw with
  | None => True
  | Some raw => null raw = true \/ exists l, decode_list raw = Some l /\ Forall (lacks fields) l
  end.
Definition repository_members : list string := ["project"; "workingDirectory"; "gitBranch"; "gitRemote"].
Definition harness_members : list string := ["nativeMetadata"; "retainedUnknown"].
Definition trimmed `{json : Json} (detail : object) : Prop :=
  lacks (repository_members ++ harness_members) detail /\ objects_lack harness_members (detail !! "earlierHistory") /\
  objects_lack ["project"] (detail !! "childSessions").
Definition names_no_repository `{json : Json} (body : string) : Prop :=
  exists top, decode_object body = Some top /\
    match top !! "sessionDetail" with
    | Some raw => null raw = true \/ exists detail, decode_object raw = Some detail /\ trimmed detail
    | None => trimmed top
    end.

Lemma lookup_without fields : forall (m : object) f, without fields m !! f = if bool_decide (f ∈ fields) then None else m !! f.
Proof.
  unfold without. induction fields as [|g fields IH]; intros m f; cbn [foldl]; [done|]. rewrite IH.
  destruct (decide (f = g)) as [->|Hne].
  - rewrite (bool_decide_eq_true_2 (g ∈ g :: fields)) by (by left). by rewrite lookup_delete_eq; case_bool_decide.
  - rewrite lookup_delete_ne by done. erewrite (bool_decide_ext (f ∈ fields) (f ∈ g :: fields)); [done|]. rewrite elem_of_cons. naive_solver.
Qed.
Lemma without_lacks fields (m : object) : lacks fields (without fields m).
Proof. intros f Hf. by rewrite lookup_without, bool_decide_eq_true_2. Qed.
Lemma holds_none fields (m : object) : holds_any fields m = false <-> lacks fields m.
Proof.
  unfold holds_any, lacks. rewrite <- not_true_iff_false, existsb_exists. split.
  - intros Hn f Hf. destruct (m !! f) eqn:Hm; [|done]. destruct Hn. exists f. by rewrite <- list_elem_of_In, Hm.
  - intros Hl (f & Hf%list_elem_of_In & Hm). by rewrite (Hl f Hf) in Hm.
Qed.
Lemma without_none fields (m : object) : lacks fields m -> without fields m = m.
Proof. intros Hl. apply map_eq. intros f. rewrite lookup_without. case_bool_decide; [|done]. symmetry. by apply Hl. Qed.
Lemma lacks_compact fields (m : object) g : lacks fields m -> lacks fields (members_as g m).
Proof. unfold members_as. intros Hl f Hf. by rewrite lookup_fmap, Hl. Qed.

Section laws.
Context `{json : Json} {laws : JsonLaws json}.

Lemma objects_compact fields raw : objects_lack fields raw -> objects_lack fields (compact <$> raw).
Proof.
  destruct raw as [raw|]; [|done]. cbn. rewrite null_compact. intros [Hn|(l & Hl & Hf)]; [by left|right].
  rewrite decode_list_compact, Hl. eexists. split; [done|]. apply Forall_fmap. eapply Forall_impl; [exact Hf|]. cbn. intros m. apply lacks_compact.
Qed.
Lemma trimmed_compact detail : trimmed detail -> trimmed (members_as compact detail).
Proof.
  intros (Hf & Hh & Hc). unfold trimmed, members_as. rewrite !lookup_fmap. split; [by apply lacks_compact|]. split; by apply objects_compact.
Qed.
Lemma trimmed_list name fields detail detail' changed : withhold_list name fields detail = Some (detail', changed) ->
  objects_lack fields (detail' !! name) /\ (forall f, f <> name -> detail' !! f = detail !! f) /\ (changed = false -> detail' = detail).
Proof.
  unfold withhold_list. destruct (detail !! name) as [raw|] eqn:Hn; [|intros [= <- <-]; by rewrite Hn].
  destruct (null raw) eqn:Hnull; [intros [= <- <-]; rewrite Hn; by split; [left|]|].
  destruct (decode_list raw) as [l|] eqn:Hl; [|done]. cbn. destruct (existsb _ l) eqn:He; intros [= <- <-].
  - split; [|split; [|done]].
    + rewrite lookup_insert_eq. right. rewrite decode_list_encoded. eexists. split; [done|].
      apply Forall_fmap, Forall_fmap, Forall_true. intros m. cbn. apply lacks_compact, without_lacks.
    + intros f Hf. by rewrite lookup_insert_ne.
  - rewrite Hn. split; [|done]. right. exists l. split; [done|]. apply Forall_forall. intros m Hm. apply holds_none.
    apply not_true_iff_false. intros Hx. apply not_true_iff_false in He. apply He, existsb_exists. exists m. by rewrite <- list_elem_of_In.
Qed.
Lemma trimmed_detail detail detail' changed : withholdSessionDetailRepository detail = Some (detail', changed) ->
  trimmed detail' /\ (forall f, f ∉ "earlierHistory" :: "childSessions" :: withheldSessionDetailFields -> detail' !! f = detail !! f) /\
  (changed = false -> detail' = detail).
Proof.
  unfold withholdSessionDetailRepository. pose proof (without_lacks withheldSessionDetailFields detail) as Hw.
  pose proof (lookup_without withheldSessionDetailFields detail) as Hlk. pose proof (holds_none withheldSessionDetailFields detail) as Hnone.
  pose proof (without_none withheldSessionDetailFields detail) as Hsame.
  set (d0 := without withheldSessionDetailFields detail) in *. destruct (withhold_list "earlierHistory" _ d0) as [[d1 h]|] eqn:H1; [|done]. cbn.
  destruct (withhold_list "childSessions" _ d1) as [[d2 k]|] eqn:H2; [|done]. cbn -[holds_any]. intros [= <- <-].
  destruct (trimmed_list _ _ _ _ _ H1) as (Hh & Ho1 & Hc1), (trimmed_list _ _ _ _ _ H2) as (Hk & Ho2 & Hc2). split; [split; [|split]|split].
  - intros f Hf. rewrite Ho2, Ho1; [by apply Hw|..]; intros ->; refine (bool_decide_eq_false_1 (_ ∈ withheldSessionDetailFields) _ Hf); by vm_compute.
  - by rewrite Ho2.
  - done.
  - intros f Hf. rewrite !not_elem_of_cons in Hf. destruct Hf as (Hf1 & Hf2 & Hf3).
    rewrite Ho2, Ho1, Hlk, bool_decide_eq_false_2; done.
  - intros [[Hd ->]%orb_false_iff ->]%orb_false_iff. rewrite Hc2, Hc1 by done. by apply Hsame, Hnone.
Qed.

(** C23: what is served of a content whose owner may not be shown names no
    repository, in its session detail, in what went before it or in its child
    sessions. *)
Theorem withheld_content_names_no_repository content body : withholdContentRepository content = Some body -> names_no_repository body.
Proof.
  unfold withholdContentRepository, names_no_repository. destruct (decode_object content) as [top|] eqn:Htop; [|done]. cbn.
  destruct (top !! "sessionDetail") as [raw|] eqn:Hd.
  - destruct (null raw) eqn:Hn; [intros [= <-]; exists top; rewrite Hd; by split; [|left]|].
    destruct (decode_object raw) as [detail|] eqn:Hraw; [|done]. cbn.
    destruct (withholdSessionDetailRepository detail) as [[detail' changed]|] eqn:Hw; [|done]. cbn. intros [= <-].
    destruct (trimmed_detail _ _ _ Hw) as (Ht & _ & Hsame). destruct changed.
    + rewrite decode_encoded. eexists. split; [done|]. unfold members_as at 1. rewrite lookup_fmap, lookup_insert_eq. cbn. right.
      rewrite decode_compact, decode_encoded. cbn. eexists. split; [done|]. by do 2 apply trimmed_compact.
    + exists top. rewrite Hd. split; [done|]. right. exists detail. split; [done|]. by rewrite <- (Hsame eq_refl).
  - destruct (withholdSessionDetailRepository top) as [[top' changed]|] eqn:Hw; [|done]. cbn. intros [= <-].
    destruct (trimmed_detail _ _ _ Hw) as (Ht & Hkeep & Hsame). destruct changed.
    + rewrite decode_encoded. eexists. split; [done|]. unfold members_as at 1. rewrite lookup_fmap, Hkeep, Hd; [by apply trimmed_compact|]. refine (bool_decide_eq_false_1 (_ ∈ _) _). by vm_compute.
    + exists top. split; [done|]. rewrite Hd. by rewrite <- (Hsame eq_refl).
Qed.
End laws.
End CliWithheld.
