(* ===== verification/CliPullWitness.v ===== *)
(** * Pulls on concrete inputs

    A transcript published on a server of PublishWitness, shared with a collective
    one of whose members pulls it; its owner may not be shown to that member. Objects
    are packed as their members one after the other, each self-delimiting. *)
From S2P Require Import Prelude GoText Threads Digest Governance BlobStore BlobLaws BlobWitness PublishStore Publish PublishBodies PublishWitness PullRoutes CliContract CliPullStore CliPull CliPullLaws.
From S2P Require Import CliPullAgreement CliPullAnswers CliGate CliWithheld.

Open Scope string_scope.
Open Scope list_scope.
Open Scope Z_scope.

Module CliPullWitness.
Import BlobStore BlobWitness CliContract CliPullStore CliPull CliPullLaws CliPullAgreement CliPullAnswers CliGate CliWithheld.

(** ** Packed objects *)
Definition pack (l : list string) : string := foldr (fun x s => enc x +:+ s) "" l.
Fixpoint unpack (n : nat) (s : string) : option (list string) :=
  match s, n with
  | "", _ => Some []
  | _, O => None
  | _, S n => '(x, s) ← dec s; l ← unpack n s; Some (x :: l)
  end.
Lemma enc_head x s : exists c r, enc x +:+ s = String c r.
Proof. destruct x; cbn; eauto. Qed.
Lemma unpack_pack l : forall n, (length l <= n)%nat -> unpack n (pack l) = Some l.
Proof.
  induction l as [|x l IH]; intros n Hn; [by destruct n|]. destruct n as [|n]; [cbn in Hn; lia|]. cbn [pack foldr].
  change (foldr _ "" l) with (pack l). destruct (enc_head x (pack l)) as (c & r & He). cbn [unpack]. rewrite He, <- He, dec_enc. cbn.
  rewrite IH; [done|]. cbn in Hn. lia.
Qed.
Lemma pack_length l : (length l <= String.length (pack l))%nat.
Proof.
  induction l as [|x l IH]; [done|]. cbn [pack foldr length]. change (foldr _ "" l) with (pack l).
  pose proof (blen_app (enc x) (pack l)) as Hb. unfold blen in Hb. assert (0 < String.length (enc x))%nat by (destruct x; cbn; lia). lia.
Qed.
Definition unpack_all (s : string) : option (list string) := unpack (String.length s) s.
Lemma unpack_all_pack l : unpack_all (pack l) = Some l.
Proof. apply unpack_pack, pack_length. Qed.
Definition pair_of (s : string) : option (string * string) := match unpack_all s with Some [k; v] => Some (k, v) | _ => None end.
Definition packed (l : list (string * string)) : string := pack ((fun p => pack [p.1; p.2]) <$> l).
Definition unpacked (s : string) : option (list (string * string)) := unpack_all s ≫= mapM pair_of.
Lemma unpacked_packed l : unpacked (packed l) = Some l.
Proof.
  unfold unpacked, packed. rewrite unpack_all_pack. apply mapM_fmap_Some. intros [k v]. unfold pair_of. by rewrite unpack_all_pack.
Qed.
Definition write_object (m : gmap string string) : string := String "{" (packed (map_to_list m)).
Definition read_object (s : string) : option (gmap string string) :=
  match s with String "{" s => list_to_map <$> unpacked s | _ => None end.
Lemma read_written m : read_object (write_object m) = Some m.
Proof. cbn. rewrite unpacked_packed. cbn. by rewrite list_to_map_to_list. Qed.
#[local] Instance packed_objects : Json := {|
  decode_object := read_object;
  encode_object := write_object;
  decode_list := fun s => match s with String "[" s => unpack_all s ≫= mapM read_object | _ => None end;
  encode_list := fun l => String "[" (pack (write_object <$> l))
|}.
Lemma members_as_id m : members_as id m = m.
Proof. apply map_eq. intros k. unfold members_as. rewrite lookup_fmap. by destruct (m !! k). Qed.
#[local] Instance packed_laws : JsonLaws packed_objects.
Proof.
  assert (forall l : list (gmap string string), map (members_as id) l = l) as Hl.
  { induction l as [|m l IH]; [done|]. cbn. by rewrite members_as_id, IH. }
  refine {| compact := id |}; cbn [decode_object encode_object decode_list encode_list packed_objects]; intros x.
  - by rewrite read_written, members_as_id.
  - unfold id at 1. destruct (read_object x); cbn; [|done]. by rewrite members_as_id.
  - rewrite unpack_all_pack, Hl. apply mapM_fmap_Some. exact read_written.
  - unfold id at 1. destruct x as [|[[] [] [] [] [] [] [] []] x]; try done. destruct (unpack_all x ≫= mapM read_object); cbn; [|done]. by rewrite Hl.
  - done.
Defined.

(** ** A server *)
#[local] Instance served_now : Envelopes := {| LegacyPullContractVersion := "0.2.0"; PublicOwnerPullContractVersion := "0.3.0" |}.
#[local] Instance pull_schema : PullSchema := {|
  uuid_parse := fun s => if String.eqb s "" then None else Some s;
  person_text := itoa;
  collective_parse := fun s => match atoi s with Some n => Some n | None => None end;
  validateContentBoundary := fun _ _ => true;
  migrate := fun s => Some (s, false);
  marshalTranscriptContentEnvelope := Some;
  provenance_method := fun _ => None;
  annotator_kind_valid := fun _ => true;
  AnnotatorHuman := "human"; AnnotatorAgent := "agent"; AnnotatorRule := "rule";
  TargetProject := "project"; TargetFileVersion := "file_version"
|}.
Definition whole : string := write_object {["project" := "village"; "turns" := "two"]}.
Definition rest : string := write_object {["turns" := "two"]}.
Definition write2 := WriteGeneration id1 whole (Some "meta") empty_bucket.
Definition desc2 : BlobDescriptor := Eval vm_compute in (value none write2).1.1.
Definition ident2 : ContentIdentity := Eval vm_compute in (value none write2).1.2.
Definition meta2 : MetadataObject := Eval vm_compute in default (mkMetadata "" zeroIdentity) (value none write2).2.
Definition bucket2 : Objects := objects write2.2.
Definition stored (visibility : string) : PublishStore.Row :=
  PublishStore.mkRow 7 "s-1" (Some "A session") None visibility None "" PublishWitness.columns
    (objectKey desc2) (Some (plaintextSize ident2)) (Some (hash ident2)) (wrappedDEK desc2) (algorithm desc2) (keyVersion desc2)
    (Some (metadataKey meta2)) (Some (hash (metadataIdentity meta2))) (Some (plaintextSize (metadataIdentity meta2))) None.
Definition transcript (visibility : string) : Transcript := mkTranscript (stored visibility) "claude" (Some "village") "1" 2000000 3000000.
Definition note (id hash : string) (owner : Z) : Annotation :=
  mkAnnotation id hash owner "session" (Some "s-1") None None None None (Some "p-1") (Some id1) None "tag" "good" true (Some "human") (Some "Ada") "" None None 5.
(** 7 owns the transcript and hides; 8 is a member of collective 5, and 9 owns it. *)
Definition ours (visibility : string) : Moment := mkMoment
  (mkTables {[id1 := transcript visibility]} {[(id1, 5) := "approved"]}
    {[(5, 8) := mkMember "member" "invitation"; (5, 9) := mkMember "owner" "creator"; (5, 7) := mkMember "member" "self_join"]}
    {[7 := mkUser "ada" None None false; 8 := mkUser "bob" None None false; 9 := mkUser "cyd" None None true]}
    {["n-1" := note "n-1" "h-1" 7; "n-2" := note "n-2" "h-2" 8]} ∅)
  bucket2.
Definition asking (id : string) : Request := mkRequest id ["0.3.0"] "" "" "" "" (Some [mkItem id1 (hash ident2) ["h-2"]; mkItem "gone" "h" []]).
Definition went (m : Moment) (r : Route) (user : Z) (q : Request) := run exec (repeat (mkChoice m false Served_ok) 12) (serve r (Some user) q) [].
Definition said (m : Moment) (r : Route) (user : Z) (q : Request) : Reply := default (mkReply None RepositoryUnreadable) (went m r user q ≫= (fun x => answers x.1)).
Definition saw (m : Moment) (r : Route) (user : Z) (q : Request) : World := default [] (snd <$> went m r user q).
Definition ends (m : Moment) (r : Route) (user : Z) (q : Request) : bool := is_some_b (went m r user q ≫= (fun x => answers x.1)).
Lemma went_answered m r user q : ends m r user q = true -> answered r (Some user) q (said m r user q) (saw m r user q).
Proof.
  unfold ends, said, saw, answered. intros He. exists (repeat (mkChoice m false Served_ok) 12). fold (went m r user q).
  destruct (went m r user q) as [[p M]|]; [|done]. cbn in He |- *. exists p. destruct (answers p); [done|done].
Qed.
Example trimmed_for_a_member : Said (said (ours "shared") RContent 8 (asking id1)) = Content None rest.
Proof. by vm_compute. Qed.
Example whole_for_the_owner_of_the_collective : Said (said (ours "shared") RContent 9 (asking id1)) = Content (Some (quoted (hash ident2))) whole.
Proof. by vm_compute. Qed.

(** ** The theorems *)
Lemma content_ends : ends (ours "shared") RContent 8 (asking id1) = true. Proof. by vm_compute. Qed.
Lemma pulled_content_is_authorized_witness :
  content_of (Some 8) (asking id1) (said (ours "shared") RContent 8 (asking id1)) (saw (ours "shared") RContent 8 (asking id1)).
Proof. apply (pulled_content_is_authorized (Some 8)), went_answered, content_ends. Defined.

Lemma refused_ends : ends (ours "public") RTranscript 8 (asking id1) = true. Proof. by vm_compute. Qed.
Lemma refusals_reveal_nothing_witness :
  allowed_at (saw (ours "public") RTranscript 8 (asking id1)) (Some 8) (asking id1) \/
  said (ours "public") RTranscript 8 (asking id1) = refusal (asking id1).
Proof. apply (refusals_reveal_nothing RTranscript); [by left|apply went_answered, refused_ends]. Defined.
Example hidden_like_missing : said (ours "public") RTranscript 8 (asking id1) = said (ours "public") RTranscript 8 (asking "never stored").
Proof. by vm_compute. Qed.

Lemma listing_agrees_with_check_witness : exists M', run (T := Reply) exec (repeat (mkChoice (ours "shared") false Served_ok) 2)
  (canPullTranscript (Some 8) id1 (transcript "shared")) [] = Some (Ret (bool_decide (id1 ∈ pullable 8 (tables (ours "shared")))), M').
Proof.
  apply (listing_agrees_with_check (ours "shared")); [reflexivity|repeat constructor|]. vm_compute. repeat constructor.
Defined.

Lemma annotations_end : ends (ours "shared") RAnnotations 8 (asking id1) = true. Proof. by vm_compute. Qed.
Lemma only_the_shown_are_named_witness :
  told (Some 8) (asking id1) (said (ours "shared") RAnnotations 8 (asking id1)) (saw (ours "shared") RAnnotations 8 (asking id1)).
Proof. apply (only_the_shown_are_named RAnnotations (Some 8)); [by right; right; left|apply went_answered, annotations_end]. Defined.
Example names_told : match Said (said (ours "shared") RAnnotations 8 (asking id1)) with
  | Annotations _ l => (fun x => (AnnotatorName x.1, IsProfile x.2, TargetProjectHash x.1)) <$> l
  | _ => []
  end = [("anon", false, None); ("Ada", true, None)].
Proof. by vm_compute. Qed.

Lemma gate_ends : ends (ours "shared") RSkipGate 8 (asking id1) = true. Proof. by vm_compute. Qed.
Lemma skip_gate_is_exact_witness :
  gate_of (Some 8) (asking id1) (said (ours "shared") RSkipGate 8 (asking id1)) (saw (ours "shared") RSkipGate 8 (asking id1)).
Proof. apply (skip_gate_is_exact (Some 8)), went_answered, gate_ends. Defined.
Example gate_told : Said (said (ours "shared") RSkipGate 8 (asking id1)) = Gate [mkResult id1 true true].
Proof. by vm_compute. Qed.

Lemma metadata_ends : ends (ours "shared") RPublishMetadata 9 (asking id1) = true. Proof. by vm_compute. Qed.
Lemma publish_metadata_is_granted_witness :
  metadata_of (Some 9) (asking id1) (said (ours "shared") RPublishMetadata 9 (asking id1)) (saw (ours "shared") RPublishMetadata 9 (asking id1)).
Proof. apply (publish_metadata_is_granted (Some 9)), went_answered, metadata_ends. Defined.
Example metadata_told : Said (said (ours "shared") RPublishMetadata 9 (asking id1)) = Metadata "meta" /\
  Said (said (ours "shared") RPublishMetadata 8 (asking id1)) = Failed 404 publishMetadataNotFound.
Proof. by vm_compute. Qed.

Lemma withheld_content_names_no_repository_witness : withholdContentRepository whole = Some rest /\ names_no_repository rest.
Proof. split; [vm_compute; reflexivity|apply (withheld_content_names_no_repository whole); vm_compute; reflexivity]. Defined.

(** A page far past the end is answered with an early one. *)
Example far_page_wraps : wrap32 (wrap64 ((21474838 - 1) * 200)) = 104.
Proof. by vm_compute. Qed.
End CliPullWitness.
